(* ===== verification/_CoqProject ===== *)
-Q . S2P
Prelude.v
JsMap.v
JsValue.v
JsArith.v
JsString.v
Regex.v
JsNumber.v
Ssrf.v
Cursor.v
Json.v
JsonRoundtrip.v
WebhookSigning.v
Keyset.v
SoftDelete.v
Bounds.v
Milestones.v
Notifications.v
Disputes.v
Contracts.v
SqliteContracts.v
Reputation.v
MemoryContracts.v
ContractsService.v
CircuitBreaker.v
AccountLockout.v
RateLimiter.v
Authorization.v
AuditStore.v
Envelope.v
Indexer.v
WebhookDlq.v
Webhooks.v
Idempotency.v
EventIngestion.v
SwrCache.v
ReputationCache.v
ReputationController.v
Recompute.v
TransactionPoller.v
Retry.v
RetryPolicies.v
QueueManager.v
TokenBucket.v
Shutdown.v
SessionTimeout.v
Deploy.v
Promotion.v
EventIdempotency.v
AuditSqlite.v
AuditInput.v
AuditService.v
AuditExport.v
RetentionPolicies.v
RetentionStorage.v
RetentionManager.v
Accounts.v
ApiKeys.v
ApiKeyAccess.v
Migrations.v
Schema.v
ReputationWebhooks.v
Errors.v
ContractsApi.v
ContractsBulk.v
EmailTransport.v
StellarClient.v
Health.v
