(* ===== verification/Prelude.v ===== *)
(** * TalentTrust backend: verification development (root file)

    A shallow embedding of the core of the TalentTrust backend (TypeScript,
    under src/src/) and the theorems that make it correct.  Every operation is
    an executable definition with the name it has in the source; state is passed
    explicitly, code that throws returns [result], and code that awaits is cut
    into the turns the event loop runs, so that calls interleave at every await.

    ** The language (shared files)
    - Prelude: results, the state-and-error monad [SE], tactics, list lemmas,
      stable sorting.
    - JsMap: the insertion-ordered Map, with its abstraction to finite maps.
    - JsValue, JsArith, JsNumber: dynamic values and IEEE doubles with exact
      rounding; Number(text) and parseInt.
    - JsString, Regex: trim, lower case, number parsing; regular expressions by
      derivatives, with their language.
    - Cursor, Json, JsonRoundtrip: UTF-8, base64, JSON.parse and JSON.stringify,
      and that the one reads what the other writes.
    Strings are sequences of Latin-1 code units.

    ** Contracts and their neighbours
    - Keyset, SoftDelete, Bounds: pagination by keyset, retention windows, policy
      limits (utils/softDelete.ts, contracts/bounds.ts).
    - Contracts: the repository interface with its laws and an abstract
      specification; SqliteContracts and MemoryContracts implement it
      (repositories/contractRepository.ts); ContractsService is the client
      (services/contracts.service.ts), proved against the interface.  Shown:
      refinement, no lost update under optimistic concurrency, complete
      pagination, budgets.
    - Milestones, Disputes, Notifications (services, hooks/escrow.hooks.ts):
      lifecycles and fan-out.  Reputation (services/reputation.service.ts and its
      repository): ratings, scores over doubles, uniqueness.  ReputationCache and
      ReputationController (utils/reputationCache.ts, controllers/): what is served
      is the last write.  Recompute (queue/processors/): every subject is visited.
    - Errors (errors/, middleware/errorHandlers.ts): what a client is told.
    - ContractsApi (routes/contracts.routes.ts with its middleware and controller)
      and ContractsBulk (controllers/contracts-bulk.controller.ts): a route is the
      whole chain from the limiter to the terminal error handler.  Shown: a refused
      request changes nothing, single writes are authorized, items of a batch are
      isolated, and where the routes cannot do their work.

    ** Identity and access
    - Authorization (lib/authorization.ts, middleware/authorization.ts,
      auth/roles.ts): decisions equal the permission matrix.
    - AccountLockout, RateLimiter: lockouts hold, windows are exact.
    - Accounts (services/auth.service.ts, repositories/userRepository.ts):
      registration, login and single-use refresh tokens.
    - ApiKeys (auth/apiKeys.ts, auth/authCache.ts, database/index.ts) and
      ApiKeyAccess (controllers/apiKeyController.ts, auth/apiKeyMiddleware.ts,
      auth/authenticate.ts): keys are verified and revocable through every
      interleaving; scopes grant what they say.

    ** Events, delivery and background work
    - Envelope, Indexer, EventIngestion: validation, deduplication, replay
      (shared/eventEnvelopeValidation.ts, contracts/, events/).
    - Idempotency (middleware/idempotency.ts, db/idempotencyStore.ts): one
      execution per key.
    - Ssrf, WebhookSigning, WebhookDlq, Webhooks: safe targets, signatures, the
      dead-letter queue and delivery with retries.
    - ReputationWebhooks (modules/reputation/webhook/, webhookDelivery.ts): every
      event is delivered, dead-lettered or lost to an open circuit.
    - EmailTransport (queue/processors/email.transport.ts, email-processor.ts): the
      SMTP dialogue, line by line, and what the server stores.
    - CircuitBreaker, SwrCache, TransactionPoller: protection and recovery.
      StellarClient (rpc/): retries below a breaker, a bounded number of fetches.
    - Retry, RetryPolicies, QueueManager (utils/retry.ts, queue/): bounded
      retries, policies and their overrides, job deduplication, one execution of
      a job at a time.  BullMQ is a class with its documented laws.
    - TokenBucket (rateLimit.ts): waiters are served in order, each paid for by a
      token; the Redis bucket decides as the memory one.
    - EventIdempotency (events/): handlers run once per stored key.
    - AuditStore (audit/store.ts): the hash chain commits to the whole log.
      AuditSqlite (audit/sqliteRepository.ts) refines it; AuditInput bounds and
      redacts what is logged (audit/inputValidation.ts, audit/redact.ts).
      AuditService (audit/service.ts, audit/auditCache.ts): how stale a cached read
      can be.  AuditExport (audit/exportService.ts): an export reads back.
    - RetentionPolicies, RetentionStorage, RetentionManager (retention/):
      nothing is archived or purged early, archives can be restored, the audit
      trail is complete.

    ** Storage and process lifecycle
    - Migrations (db/migrations.ts, the runner over any database) and Schema (the
      migrations themselves over a catalogue, db/database.ts): an upgrade applies
      each migration once, a failed one changes nothing and can be resumed.
    - Health (health/, health.ts): the probes, their aggregate and readiness.
    - Shutdown (shutdown.ts): the exit is reached through every fault of a stage.
    - SessionTimeout (sessionTimeout.ts): one logout, when the session expires.
    - Deploy (deploy.ts), Promotion (deployment/): the blue-green switch through
      every interleaving, the soak that decides a rollback, promotions that
      restore the environment they change.

    ** Fuel
    Loops that are not structural take fuel that the theorems show to suffice: a
    page walk takes one unit per row and one more, JSON.parse the length of the
    text, a poll its remaining retries and one more, eviction the size of the
    map, a delivery its maximal number of attempts, a batch its number of
    events, a drain its number of waiters, a health gate or a soak its number of
    probes, a retried statement its retry limit, a recompute one more page than
    there are subjects.

    ** Parameters
    SHA-256, HMAC, PBKDF2, scrypt, jsonwebtoken, the URL parser, Date.parse and
    the ISO text of a date, Math.exp, the text of a number, localeCompare, mail
    and HTTP transports, clocks, random draws and whether a file write succeeds
    are arguments of the definitions.  What is assumed of them is stated as
    hypotheses of the theorems (a digest has its length, an encoded date reads
    back), and every theorem with hypotheses has a witness that discharges them
    with concrete functions.  No collision-freedom is assumed globally: theorems
    that need it ask for it among the values of the run.

    ** Not modelled
    The Zod request schemas (declarations for a library: the routes take them as
    parameters, with the documented facts they rely on), the routers other than
    those of the contracts (they parse a request and call a modelled service), the
    configuration readers that no modelled component uses, logging and metrics (no
    effect on the modelled state), the fallback driver db/betterSqlite3.ts, the
    key-value store database/sqliteStore.ts, the contracts cache (constructed by
    no production code), the operations scripts, the requests to SES and SendGrid,
    and the Soroban helpers (external services). *)

From stdpp Require Import prelude gmap strings sorting.
From Stdlib Require Import ZArith Lia.

Declare Scope js_scope.
Delimit Scope js_scope with js.
Open Scope js_scope.

(** Outcome of a fallible call: the value it returns or the error it throws. *)
Inductive result (E A : Type) : Type :=
| Ok (a : A)
| Err (e : E).
Arguments Ok {E A} a.
Arguments Err {E A} e.

Definition is_ok {E A} (r : result E A) : bool :=
  match r with Ok _ => true | Err _ => false end.

#[export] Instance result_eq_dec {E A} `{EqDecision E, EqDecision A} :
  EqDecision (result E A).
Proof. solve_decision. Defined.

(** Stateful code that may throw.  As in JavaScript, an exception does not
    roll back the writes made before it was thrown. *)
Definition SE (S E A : Type) : Type := S -> result E A * S.

Definition ret {S E A} (a : A) : SE S E A := fun s => (Ok a, s).
Definition throw {S E A} (e : E) : SE S E A := fun s => (Err e, s).
Definition get {S E} : SE S E S := fun s => (Ok s, s).
Definition put {S E} (s' : S) : SE S E unit := fun _ => (Ok tt, s').
Definition bind {S E A B} (c : SE S E A) (k : A -> SE S E B) : SE S E B :=
  fun s => match c s with
           | (Ok a, s') => k a s'
           | (Err e, s') => (Err e, s')
           end.

Notation "'let!' x ':=' c 'in' k" := (bind c (fun x => k))
  (at level 10, x name, c at level 100, k at level 200) : js_scope.
Notation "c1 ';;' c2" := (bind c1 (fun _ => c2))
  (at level 100, c2 at level 200, right associativity) : js_scope.

(** Early return by exception: [if (test) throw e]. *)
Definition throw_if {S E} (test : bool) (e : E) : SE S E unit :=
  if test then throw e else ret tt.

(** ** Proof automation shared by the components *)

(** Unfold the monad and split on every test of the program. *)
Ltac run_se :=
  unfold bind, ret, throw, get, put, throw_if in *; simpl in *.

Ltac split_tests :=
  repeat (run_se; first
    [ case_bool_decide
    | case_match ]); simplify_eq/=.

Ltac bool_to_prop :=
  repeat match goal with
  | H : (_ && _)%bool = true |- _ => apply andb_true_iff in H as [? ?]
  | H : (_ || _)%bool = false |- _ => apply orb_false_iff in H as [? ?]
  | H : negb _ = true |- _ => apply negb_true_iff in H
  | H : negb _ = false |- _ => apply negb_false_iff in H
  | H : bool_decide _ = true |- _ => apply bool_decide_eq_true in H
  | H : bool_decide _ = false |- _ => apply bool_decide_eq_false in H
  end.

Create HintDb js.

(** ** Filtering *)
Section Filtering.
Context {A : Type} (P : A -> Prop) `{!forall x, Decision (P x)}.

Lemma filter_keep_all l : Forall P l -> filter P l = l.
Proof. induction 1 as [|x l Hx _ IH]; [done|]. by rewrite filter_cons_True, IH. Qed.

Lemma filter_keep_none l : Forall (fun x => ~ P x) l -> filter P l = [].
Proof. induction 1 as [|x l Hx _ IH]; [done|]. by rewrite filter_cons_False. Qed.

Lemma filter_StronglySorted (R : A -> A -> Prop) l :
  StronglySorted R l -> StronglySorted R (filter P l).
Proof.
  induction 1 as [|x l Hs IH Hall]; [constructor|]. rewrite filter_cons.
  case_decide; [|done]. constructor; [done|].
  apply Forall_forall. intros y [_ Hy]%list_elem_of_filter. by eapply Forall_forall in Hall.
Qed.
End Filtering.

(** ** Separators: a text splits in one way at the first (or last) separator *)
Section Separators.
Context {A : Type}.

Lemma split_first (x : A) l1 l2 r1 r2 :
  x ∉ l1 -> x ∉ l2 -> l1 ++ x :: r1 = l2 ++ x :: r2 -> l1 = l2 /\ r1 = r2.
Proof.
  revert l2. induction l1 as [|a l1 IH]; intros [|b l2] H1 H2 Heq; simplify_eq/=.
  - done.
  - exfalso. apply H2. left.
  - exfalso. apply H1. left.
  - apply not_elem_of_cons in H1 as [_ H1]. apply not_elem_of_cons in H2 as [_ H2].
    by destruct (IH l2 H1 H2) as [-> ->].
Qed.

Lemma split_last (x : A) l1 l2 r1 r2 :
  x ∉ r1 -> x ∉ r2 -> l1 ++ x :: r1 = l2 ++ x :: r2 -> l1 = l2 /\ r1 = r2.
Proof.
  intros H1 H2 Heq. apply (f_equal reverse) in Heq.
  rewrite !reverse_app, !reverse_cons, <- !(assoc (++)) in Heq. simpl in Heq.
  apply split_first in Heq as [Hr Hl]; [|by rewrite elem_of_reverse..].
  split; by apply (inj reverse).
Qed.
End Separators.

(** ** Stable sorting

    [Array.prototype.sort] is stable; every call in the program passes a
    comparator that compares one integer key. *)
Section StableSort.
Context {A : Type} (key : A -> Z).

Fixpoint insert_by (x : A) (l : list A) : list A :=
  match l with
  | [] => [x]
  | y :: l' => if bool_decide (key x ≤ key y)%Z then x :: y :: l' else y :: insert_by x l'
  end.

Fixpoint sort_by (l : list A) : list A :=
  match l with
  | [] => []
  | x :: l' => insert_by x (sort_by l')
  end.

Definition key_sorted (l : list A) : Prop :=
  StronglySorted (fun x y => (key x ≤ key y)%Z) l.

Lemma insert_by_perm x l : insert_by x l ≡ₚ x :: l.
Proof.
  induction l as [|y l IH]; simpl; [done|].
  case_bool_decide; [done|]. rewrite IH. apply Permutation_swap.
Qed.

Lemma sort_by_perm l : sort_by l ≡ₚ l.
Proof. induction l as [|x l IH]; simpl; [done|]. by rewrite insert_by_perm, IH. Qed.

Lemma insert_by_sorted x l : key_sorted l -> key_sorted (insert_by x l).
Proof.
  unfold key_sorted. induction 1 as [|y l Hs IH Hall]; simpl.
  - repeat constructor.
  - case_bool_decide.
    + constructor; [by constructor|]. constructor; [done|].
      eapply Forall_impl; [exact Hall|]. simpl; lia.
    + constructor; [done|].
      rewrite insert_by_perm. constructor; [lia|done].
Qed.

Lemma sort_by_sorted l : key_sorted (sort_by l).
Proof. induction l; simpl; [constructor|]. by apply insert_by_sorted. Qed.

(** Elements with the same key keep their relative order. *)
Lemma insert_by_stable x l k :
  key_sorted l ->
  filter (fun y => key y = k) (insert_by x l) = filter (fun y => key y = k) (x :: l).
Proof.
  unfold key_sorted. induction 1 as [|y l Hs IH Hall]; simpl; [done|].
  case_bool_decide as Hle; [done|].
  rewrite !filter_cons. rewrite filter_cons in IH. rewrite IH.
  repeat case_decide; try done. lia.
Qed.

Lemma sort_by_stable l k :
  filter (fun y => key y = k) (sort_by l) = filter (fun y => key y = k) l.
Proof.
  induction l as [|x l IH]; simpl; [done|].
  rewrite insert_by_stable by apply sort_by_sorted.
  rewrite !filter_cons, IH. done.
Qed.

Lemma elem_of_sort_by x l : x ∈ sort_by l <-> x ∈ l.
Proof. by rewrite sort_by_perm. Qed.

Lemma length_sort_by l : length (sort_by l) = length l.
Proof. by rewrite sort_by_perm. Qed.

End StableSort.

#[export] Hint Resolve sort_by_sorted : js.
