(* ===== verification/JsMap.v ===== *)
(** * JavaScript [Map]: an insertion-ordered dictionary

    The in-memory stores of the program ([milestoneStore], [disputeStore],
    [InMemoryContractRepository.contracts], [SWRCache.cache], ...) are
    JavaScript [Map]s and the program observes their iteration order (stable
    sorts, LRU eviction).  A map is the list of its entries, oldest first:
    [set] on an existing key keeps the position of the key, [set] on a new key
    appends, [delete] removes.  [wf] is the invariant that keys are distinct;
    [to_gmap] forgets the order and every operation is shown to commute with
    the finite-map operation of stdpp. *)

From stdpp Require Import prelude gmap strings.
From S2P Require Import Prelude.

Section JsMap.
Context {K V : Type} `{EqDecision K}.
Implicit Types (m : list (K * V)) (k : K) (v : V).

Fixpoint map_get k m : option V :=
  match m with
  | [] => None
  | (k', v) :: m' => if decide (k = k') then Some v else map_get k m'
  end.

Definition map_has k m : bool :=
  match map_get k m with Some _ => true | None => false end.

Fixpoint map_set k v m : list (K * V) :=
  match m with
  | [] => [(k, v)]
  | (k', v') :: m' =>
      if decide (k = k') then (k', v) :: m' else (k', v') :: map_set k v m'
  end.

Definition map_delete k m : list (K * V) :=
  filter (fun e => e.1 ≠ k) m.

Definition map_keys m : list K := m.*1.
Definition map_values m : list V := m.*2.

(** [for (const [k, v] of m) if (test v) { m.delete(k); n += 1 }]: the loop
    visits the entries present when it starts; deleting the current entry does
    not disturb the iteration. *)
Definition map_purge_loop (test : V -> bool) m : list (K * V) * Z :=
  foldl (fun acc e => if test e.2 then (map_delete e.1 acc.1, acc.2 + 1)%Z else acc)
        (m, 0%Z) m.

Definition wf m : Prop := NoDup (map_keys m).

(** The abstraction to finite maps. *)
Definition to_gmap `{Countable K} m : gmap K V := list_to_map m.

Lemma map_get_elem_of m k v : map_get k m = Some v -> (k, v) ∈ m.
Proof.
  induction m as [|[k' v'] m IH]; simpl; [done|].
  case_decide; [intros; simplify_eq; left|intros; right; auto].
Qed.

Lemma map_get_None m k : map_get k m = None <-> k ∉ map_keys m.
Proof.
  unfold map_keys. induction m as [|[k' v'] m IH]; simpl; [set_solver|].
  case_decide; set_solver.
Qed.

Lemma elem_of_map_get m k v : wf m -> (k, v) ∈ m -> map_get k m = Some v.
Proof.
  unfold wf, map_keys. induction m as [|[k' v'] m IH]; simpl; [set_solver|].
  intros [Hnin Hnd]%NoDup_cons [?|Hin]%elem_of_cons; simplify_eq/=; case_decide; try done.
  - subst. destruct Hnin. apply list_elem_of_fmap. by exists (k', v).
  - auto.
Qed.

Lemma map_get_iff m k v : wf m -> map_get k m = Some v <-> (k, v) ∈ m.
Proof. split; eauto using map_get_elem_of, elem_of_map_get. Qed.

Lemma map_get_set_eq m k v : map_get k (map_set k v m) = Some v.
Proof.
  induction m as [|[k' v'] m IH]; simpl; repeat (case_decide; simpl); congruence.
Qed.

Lemma map_get_set_ne m k k' v : k ≠ k' -> map_get k' (map_set k v m) = map_get k' m.
Proof.
  intros Hne. induction m as [|[k0 v0] m IH]; simpl; repeat (case_decide; simpl); congruence.
Qed.

Lemma map_get_set_inv m k k' v w :
  map_get k' (map_set k v m) = Some w -> (k' = k /\ w = v) \/ (k <> k' /\ map_get k' m = Some w).
Proof.
  intros H. destruct (decide (k = k')) as [->|Hne].
  - rewrite map_get_set_eq in H. left. by simplify_eq.
  - right. by rewrite map_get_set_ne in H.
Qed.

Lemma map_get_delete_eq m k : map_get k (map_delete k m) = None.
Proof.
  unfold map_delete. induction m as [|[k' v'] m IH]; [done|].
  rewrite filter_cons. case_decide as Hd; simpl in *; [|done]. by rewrite decide_False by done.
Qed.

Lemma map_get_delete_ne m k k' : k ≠ k' -> map_get k' (map_delete k m) = map_get k' m.
Proof.
  intros Hne. unfold map_delete. induction m as [|[k0 v0] m IH]; [done|].
  rewrite filter_cons. case_decide as Hd; simpl in *.
  - by rewrite IH.
  - rewrite decide_False by congruence. done.
Qed.

Lemma map_keys_set_Some m k v v0 :
  map_get k m = Some v0 -> map_keys (map_set k v m) = map_keys m.
Proof.
  unfold map_keys. induction m as [|[k' v'] m IH]; simpl; [done|].
  case_decide; simpl; [done|]. intros Hg. f_equal. by apply IH.
Qed.

Lemma map_set_None m k v : map_get k m = None -> map_set k v m = m ++ [(k, v)].
Proof.
  induction m as [|[k' v'] m IH]; simpl; [done|].
  case_decide; simpl; [done|]. intros Hg. f_equal. by apply IH.
Qed.

Lemma map_delete_None m k : map_get k m = None -> map_delete k m = m.
Proof.
  unfold map_delete. induction m as [|[k' v'] m IH]; [done|].
  rewrite filter_cons. simpl. case_decide as Hd; [done|].
  intros Hg. rewrite decide_True by congruence. by rewrite IH.
Qed.

Lemma map_keys_set_None m k v :
  map_get k m = None -> map_keys (map_set k v m) = map_keys m ++ [k].
Proof. intros H. unfold map_keys. by rewrite map_set_None, fmap_app. Qed.

Lemma wf_set m k v : wf m -> wf (map_set k v m).
Proof.
  unfold wf. intros Hwf. destruct (map_get k m) eqn:E.
  - by erewrite map_keys_set_Some.
  - rewrite map_keys_set_None by done. apply NoDup_app. split_and!; [done| |].
    + apply map_get_None in E. set_solver.
    + apply NoDup_singleton.
Qed.

Lemma wf_filter (P : K * V -> Prop) `{!forall e, Decision (P e)} m : wf m -> wf (filter P m).
Proof.
  unfold wf, map_keys. induction m as [|e m IH]; [done|]. simpl.
  intros [Hnin Hnd]%NoDup_cons. rewrite filter_cons. case_decide; simpl; [|auto].
  apply NoDup_cons. split; [|auto].
  intros [e' [Heq [_ Hin]%list_elem_of_filter]]%list_elem_of_fmap.
  apply Hnin, list_elem_of_fmap. eauto.
Qed.

Lemma wf_delete m k : wf m -> wf (map_delete k m).
Proof. apply wf_filter. Qed.

Lemma wf_nil : wf [].
Proof. constructor. Qed.

Lemma length_delete_Some m k v :
  wf m -> map_get k m = Some v -> length m = S (length (map_delete k m)).
Proof.
  unfold map_delete, wf, map_keys. induction m as [|[k' v'] m IH]; simpl; [done|].
  intros [Hnin Hnd]%NoDup_cons. rewrite filter_cons. simpl.
  case_decide as Hd.
  - intros _. subst. rewrite decide_False by auto.
    f_equal. symmetry. fold (map_delete k' m). rewrite map_delete_None; [done|].
    by apply map_get_None.
  - intros Hget. rewrite decide_True by auto. simpl. f_equal. auto.
Qed.

Lemma map_get_filter (P : K * V -> Prop) `{!forall e, Decision (P e)} m k v :
  wf m -> map_get k (filter P m) = Some v <-> map_get k m = Some v /\ P (k, v).
Proof.
  intros Hwf. rewrite !map_get_iff by auto using wf_filter.
  rewrite list_elem_of_filter. tauto.
Qed.

Lemma length_set_None m k v :
  map_get k m = None -> length (map_set k v m) = S (length m).
Proof. intros H. rewrite map_set_None by done. rewrite length_app. simpl. lia. Qed.

Lemma length_set_Some m k v v0 :
  map_get k m = Some v0 -> length (map_set k v m) = length m.
Proof.
  intros H. pose proof (map_keys_set_Some m k v v0 H) as E.
  apply (f_equal length) in E. unfold map_keys in E. by rewrite !length_fmap in E.
Qed.

Lemma elem_of_map_values m v :
  wf m -> v ∈ map_values m <-> exists k, map_get k m = Some v.
Proof.
  intros Hwf. unfold map_values. rewrite list_elem_of_fmap. split.
  - intros [[k v'] [-> Hin]]. exists k. by apply elem_of_map_get.
  - intros [k Hk%map_get_elem_of]. by exists (k, v).
Qed.

(** The purge loop keeps exactly the entries that fail the test, in order. *)
Lemma map_delete_app m1 m2 k : map_delete k (m1 ++ m2) = map_delete k m1 ++ map_delete k m2.
Proof. apply filter_app. Qed.

Lemma purge_loop_aux (test : V -> bool) kept m n :
  wf (kept ++ m) ->
  foldl (fun acc e => if test e.2 then (map_delete e.1 acc.1, acc.2 + 1)%Z else acc)
        (kept ++ m, n) m =
  (kept ++ filter (fun e => test e.2 = false) m,
   n + Z.of_nat (length (filter (fun e => test e.2 = true) m)))%Z.
Proof.
  revert kept n. induction m as [|[k v] m IH]; intros kept n Hwf; simpl.
  - f_equal. unfold filter; simpl. lia.
  - rewrite !filter_cons. simpl. destruct (test v) eqn:E.
    + rewrite (decide_False (P := true = false)), (decide_True (P := true = true)) by done.
      assert (Hk : map_get k kept = None /\ map_get k m = None).
      { unfold wf, map_keys in Hwf. rewrite fmap_app in Hwf. simpl in Hwf.
        apply NoDup_app in Hwf as (_ & Hd & [Hn _]%NoDup_cons).
        split; apply map_get_None; unfold map_keys; [|done].
        intros Hin. apply (Hd k Hin). left. }
      destruct Hk as [Hk1 Hk2].
      assert (Hdel : map_delete k (kept ++ (k, v) :: m) = kept ++ m).
      { rewrite map_delete_app, (map_delete_None kept k Hk1). f_equal.
        unfold map_delete. rewrite filter_cons. simpl.
        rewrite decide_False by auto. apply map_delete_None, Hk2. }
      rewrite Hdel, IH.
      * simpl. f_equal. lia.
      * rewrite <- Hdel. by apply wf_delete.
    + rewrite (decide_True (P := false = false)), (decide_False (P := false = true)) by done.
      rewrite (cons_middle (k, v) kept m), app_assoc.
      rewrite IH; [by rewrite <- app_assoc|].
      by rewrite <- app_assoc.
Qed.

Lemma map_purge_loop_filter (test : V -> bool) m :
  wf m ->
  map_purge_loop test m =
  (filter (fun e => test e.2 = false) m,
   Z.of_nat (length (filter (fun e => test e.2 = true) m))).
Proof. intros Hwf. unfold map_purge_loop. apply (purge_loop_aux test [] m 0 Hwf). Qed.

Lemma map_get_purge (test : V -> bool) m k v :
  wf m ->
  map_get k (map_purge_loop test m).1 = Some v <-> map_get k m = Some v /\ test v = false.
Proof. intros Hwf. rewrite map_purge_loop_filter by done. simpl. by rewrite map_get_filter. Qed.

(** A purge never invents an entry. *)
Lemma map_get_purge_sub (test : V -> bool) m k v :
  map_get k (map_purge_loop test m).1 = Some v -> map_get k m = Some v.
Proof.
  unfold map_purge_loop. generalize m at 2 as l. intros l.
  change m with ((m, 0%Z).1) at 2. generalize (m, 0%Z). clear m.
  induction l as [|[k' v'] l IH]; intros acc; simpl; [done|]. intros Hget%IH.
  destruct (test v'); [|done]. simpl in Hget.
  destruct (decide (k' = k)) as [->|Hne]; [by rewrite map_get_delete_eq in Hget|].
  by rewrite map_get_delete_ne in Hget.
Qed.

Lemma wf_purge (test : V -> bool) m : wf m -> wf (map_purge_loop test m).1.
Proof. intros Hwf. rewrite map_purge_loop_filter by done. by apply wf_filter. Qed.

Lemma length_filter_split (test : V -> bool) m :
  length m = length (filter (fun e : K * V => test e.2 = false) m) +
             length (filter (fun e : K * V => test e.2 = true) m).
Proof.
  induction m as [|[k v] m IH]; [done|].
  rewrite !filter_cons. simpl. destruct (test v); simpl; lia.
Qed.

Lemma to_gmap_lookup `{Countable K} m k : to_gmap m !! k = map_get k m.
Proof.
  unfold to_gmap. induction m as [|[k' v'] m IH]; simpl; [apply lookup_empty|].
  destruct (decide (k = k')) as [->|Hne].
  - by rewrite lookup_insert_eq.
  - by rewrite lookup_insert_ne, IH.
Qed.

Lemma to_gmap_set `{Countable K} m k v : to_gmap (map_set k v m) = <[k:=v]> (to_gmap m).
Proof.
  apply map_eq. intros k'. rewrite lookup_insert, !to_gmap_lookup.
  case_decide; [subst; apply map_get_set_eq|by apply map_get_set_ne].
Qed.

Lemma to_gmap_delete `{Countable K} m k : to_gmap (map_delete k m) = delete k (to_gmap m).
Proof.
  apply map_eq. intros k'. rewrite lookup_delete, !to_gmap_lookup.
  case_decide; [subst; apply map_get_delete_eq|by apply map_get_delete_ne].
Qed.

Lemma map_has_true m k : map_has k m = true <-> is_Some (map_get k m).
Proof. unfold map_has. destruct (map_get k m); split; try done; by intros []. Qed.

Lemma map_has_false m k : map_has k m = false <-> map_get k m = None.
Proof. unfold map_has. destruct (map_get k m); done. Qed.

(** The oldest entries may be dropped, one by one or several at once. *)
Lemma delete_head m k v : wf ((k, v) :: m) -> map_delete k ((k, v) :: m) = m.
Proof.
  intros Hwf. apply NoDup_cons in Hwf as [Hk _]. unfold map_delete.
  rewrite filter_cons_False by (simpl; congruence).
  apply filter_keep_all. apply Forall_forall. intros [k' v'] Hin. simpl. intros ->.
  apply Hk. by apply (list_elem_of_fmap_2 fst) in Hin.
Qed.

Lemma wf_drop n m : wf m -> wf (drop n m).
Proof.
  unfold wf, map_keys. rewrite fmap_drop. intros H. rewrite <- (take_drop n) in H.
  by apply NoDup_app in H as (_ & _ & ?).
Qed.

Lemma map_get_drop n m k v : wf m -> map_get k (drop n m) = Some v -> map_get k m = Some v.
Proof.
  intros Hwf H. apply map_get_iff; [done|]. apply map_get_elem_of in H.
  rewrite <- (take_drop n m). by apply elem_of_app; right.
Qed.

End JsMap.

#[export] Hint Resolve wf_nil wf_set wf_delete wf_purge : js.

(** Case analysis on a lookup after a write. *)
Ltac simplify_get :=
  repeat match goal with
  | H : context [map_get ?k (map_set ?k _ _)] |- _ => rewrite map_get_set_eq in H
  | |- context [map_get ?k (map_set ?k _ _)] => rewrite map_get_set_eq
  | H : context [map_get ?k (map_delete ?k _)] |- _ => rewrite map_get_delete_eq in H
  | |- context [map_get ?k (map_delete ?k _)] => rewrite map_get_delete_eq
  | H : context [map_get ?k' (map_set ?k _ _)] |- _ =>
      destruct (decide (k = k')) as [->|];
      [rewrite map_get_set_eq in H|rewrite map_get_set_ne in H by done]
  | |- context [map_get ?k' (map_set ?k _ _)] =>
      destruct (decide (k = k')) as [->|];
      [rewrite map_get_set_eq|rewrite map_get_set_ne by done]
  | H : context [map_get ?k' (map_delete ?k _)] |- _ =>
      destruct (decide (k = k')) as [->|];
      [rewrite map_get_delete_eq in H|rewrite map_get_delete_ne in H by done]
  | |- context [map_get ?k' (map_delete ?k _)] =>
      destruct (decide (k = k')) as [->|];
      [rewrite map_get_delete_eq|rewrite map_get_delete_ne by done]
  end; simplify_eq/=.
