(* ===== verification/JsValue.v ===== *)
(** * JavaScript numbers and dynamic values

    A finite IEEE-754 double is an integer multiple of 2^-1074, the smallest
    positive subnormal, so [Fin u] with [u : Z] stands for the double
    [u * 2^-1074]; addition is the exact sum rounded to 53 significant bits,
    ties to even, and overflows to an infinity at 2^1024.  (The sign of zero,
    which the modelled code cannot observe, is not represented.)  [value] is a
    value of type [unknown]: what a request body or an untyped caller can pass. *)

From stdpp Require Import prelude gmap strings.
From Stdlib Require Import ZArith Lia.
From S2P Require Import Prelude.
Open Scope Z_scope.

Inductive number : Type :=
| NaN
| Infinity (neg : bool)
| Fin (u : Z).

#[export] Instance number_eq_dec : EqDecision number.
Proof. solve_decision. Defined.

(** One unit of the represented integer, [1 = 2^1074 * 2^-1074]. *)
Definition num_scale : Z := 2 ^ 1074.
Definition num_overflow : Z := 2 ^ 1024 * num_scale.

(** Round a non-negative magnitude to 53 significant bits, ties to even. *)
Definition round_abs (a : Z) : Z :=
  let k := Z.log2 a - 52 in
  if k <=? 0 then a
  else
    let q := a / 2 ^ k in
    let r := a mod 2 ^ k in
    let half := 2 ^ (k - 1) in
    let q' := if (half <? r) || ((half =? r) && Z.odd q) then q + 1 else q in
    q' * 2 ^ k.

Definition round (u : Z) : Z := Z.sgn u * round_abs (Z.abs u).

Definition of_exact (u : Z) : number :=
  let r := round u in
  if num_overflow <=? Z.abs r then Infinity (r <? 0) else Fin r.

(** The double that denotes an integer of magnitude below 2^53, such as the
    integer literals of the source; no rounding is needed ([of_exact_int]). *)
Definition of_int (n : Z) : number := Fin (n * num_scale).

Definition is_finite (x : number) : bool :=
  match x with Fin _ => true | _ => false end.

Definition num_add (x y : number) : number :=
  match x, y with
  | NaN, _ | _, NaN => NaN
  | Infinity a, Infinity b => if Bool.eqb a b then Infinity a else NaN
  | Infinity a, Fin _ | Fin _, Infinity a => Infinity a
  | Fin a, Fin b => of_exact (a + b)
  end.

(** [x > y]; every comparison with NaN is false. *)
Definition num_gtb (x y : number) : bool :=
  match x, y with
  | NaN, _ | _, NaN => false
  | Infinity true, _ => false
  | _, Infinity false => false
  | Infinity false, _ => true
  | _, Infinity true => true
  | Fin a, Fin b => b <? a
  end.

Definition num_ltb (x y : number) : bool := num_gtb y x.

Definition num_leb (x y : number) : bool :=
  match x, y with
  | NaN, _ | _, NaN => false
  | _, _ => negb (num_gtb x y)
  end.

(** [Number.isInteger] *)
Definition is_integer (x : number) : bool :=
  match x with Fin u => u mod num_scale =? 0 | _ => false end.

(** The integer a number denotes, when it denotes one. *)
Definition to_int (x : number) : option Z :=
  match x with
  | Fin u => if u mod num_scale =? 0 then Some (u / num_scale) else None
  | _ => None
  end.

Inductive value : Type :=
| VUndefined
| VNull
| VBool (b : bool)
| VNumber (n : number)
| VString (s : string)
| VArray (vs : list value)
| VObject (fields : list (string * value)).

(** [v.name] for an own property. *)
Fixpoint field_of (name : string) (fields : list (string * value)) : value :=
  match fields with
  | [] => VUndefined
  | (k, v) :: rest => if String.eqb k name then v else field_of name rest
  end.

Definition prop (v : value) (name : string) : value :=
  match v with
  | VObject fields => field_of name fields
  | _ => VUndefined
  end.

(** [typeof v === 'object'] (true of null and of arrays). *)
Definition typeof_object (v : value) : bool :=
  match v with VNull | VArray _ | VObject _ => true | _ => false end.

(** [typeof v === 'object' && v !== null] *)
Definition is_object (v : value) : bool :=
  match v with VArray _ | VObject _ => true | _ => false end.

Definition as_number (v : value) : option number :=
  match v with VNumber n => Some n | _ => None end.

Definition as_string (v : value) : option string :=
  match v with VString s => Some s | _ => None end.

(** [Number.isFinite(v)]: false, without coercion, on a non-number. *)
Definition value_finite (v : value) : bool :=
  match v with VNumber n => is_finite n | _ => false end.

#[global] Arguments num_add : simpl never.
#[global] Arguments num_gtb : simpl never.
#[global] Arguments of_exact : simpl never.
#[global] Arguments num_scale : simpl never.

(** ** Rounding *)

Lemma num_scale_pos : 0 < num_scale.
Proof. unfold num_scale. apply Z.pow_pos_nonneg; lia. Qed.

Lemma num_scale_pow : num_scale = 2 ^ 1074.
Proof. reflexivity. Qed.

#[local] Opaque num_scale.

Lemma round_abs_small a : 0 <= a < 2 ^ 53 -> round_abs a = a.
Proof.
  intros [H0 H1]. unfold round_abs.
  destruct (Z.leb_spec (Z.log2 a - 52) 0) as [_|Hk]; [done|].
  destruct (Z.eq_dec a 0) as [->|Hne]; [simpl in Hk; lia|].
  apply Z.log2_lt_pow2 in H1; lia.
Qed.

(** Magnitudes whose low bits are zero are representable: rounding is exact. *)
Lemma round_abs_shift a e :
  0 <= e -> 0 <= a < 2 ^ 53 -> round_abs (a * 2 ^ e) = a * 2 ^ e.
Proof.
  intros He [H0 H1].
  destruct (Z.eq_dec a 0) as [->|Hne]; [done|].
  unfold round_abs. rewrite Z.log2_mul_pow2 by lia.
  destruct (Z.leb_spec (e + Z.log2 a - 52) 0) as [_|Hk]; [done|].
  assert (Hlog : Z.log2 a < 53) by (apply Z.log2_lt_pow2; lia).
  set (k := e + Z.log2 a - 52) in *.
  assert (Hke : k <= e) by lia.
  assert (Hsplit : 2 ^ e = 2 ^ (e - k) * 2 ^ k)
    by (rewrite <- Z.pow_add_r by lia; f_equal; lia).
  assert (Hp : 0 < 2 ^ k) by (apply Z.pow_pos_nonneg; lia).
  rewrite Hsplit, Z.mul_assoc, Z.div_mul, Z.mod_mul by lia.
  assert (Hh : 0 < 2 ^ (k - 1)) by (apply Z.pow_pos_nonneg; lia).
  destruct (Z.ltb_spec (2 ^ (k - 1)) 0); [lia|].
  destruct (Z.eqb_spec (2 ^ (k - 1)) 0); [lia|]. done.
Qed.

(** Rounding never loses more than half of a magnitude. *)
Lemma round_abs_half a : 0 <= a -> a <= 2 * round_abs a.
Proof.
  intros Ha. unfold round_abs.
  destruct (Z.leb_spec (Z.log2 a - 52) 0) as [_|Hk]; [lia|].
  assert (Hpos : 0 < a).
  { destruct (Z.eq_dec a 0) as [->|]; [simpl in Hk; lia|lia]. }
  set (k := Z.log2 a - 52) in *.
  assert (Hp : 0 < 2 ^ k) by (apply Z.pow_pos_nonneg; lia).
  pose proof (Z.div_mod a (2 ^ k)) as Hdm.
  pose proof (Z.mod_pos_bound a (2 ^ k) Hp) as Hmod.
  assert (Hq : 1 <= a / 2 ^ k).
  { apply Z.div_le_lower_bound; [lia|].
    pose proof (Z.log2_spec a Hpos) as [Hl _].
    assert (2 ^ k <= 2 ^ Z.log2 a) by (apply Z.pow_le_mono_r; lia). nia. }
  destruct ((2 ^ (k - 1) <? a mod 2 ^ k)
            || ((2 ^ (k - 1) =? a mod 2 ^ k) && Z.odd (a / 2 ^ k))); nia.
Qed.

Lemma round_abs_nonneg a : 0 <= a -> 0 <= round_abs a.
Proof. intros Ha. pose proof (round_abs_half a Ha). lia. Qed.

Lemma round_nonneg u : 0 <= u -> round u = round_abs u.
Proof.
  intros Hu. unfold round. rewrite Z.abs_eq by done.
  destruct (Z.eq_dec u 0) as [->|]; [done|]. rewrite Z.sgn_pos by lia. lia.
Qed.

(** Non-negative integers below 2^53 are represented exactly. *)
Lemma round_int n : 0 <= n < 2 ^ 53 -> round (n * num_scale) = n * num_scale.
Proof.
  intros Hn. pose proof num_scale_pos. rewrite round_nonneg by nia.
  change num_scale with (2 ^ 1074). apply round_abs_shift; lia.
Qed.

Lemma num_overflow_big : 2 ^ 54 * num_scale < num_overflow.
Proof.
  unfold num_overflow. pose proof num_scale_pos.
  assert (2 ^ 54 < 2 ^ 1024) by (apply Z.pow_lt_mono_r; lia). nia.
Qed.

Lemma of_exact_int n : 0 <= n < 2 ^ 53 -> of_exact (n * num_scale) = of_int n.
Proof.
  intros Hn. unfold of_int, of_exact. rewrite round_int by done.
  pose proof num_scale_pos. pose proof num_overflow_big.
  destruct (Z.leb_spec num_overflow (Z.abs (n * num_scale))); [|done].
  rewrite Z.abs_eq in * by nia. nia.
Qed.

(** Sums of non-negative integers are exact while they stay below 2^53. *)
Lemma num_add_int a b :
  0 <= a -> 0 <= b -> a + b < 2 ^ 53 ->
  num_add (Fin (a * num_scale)) (Fin (b * num_scale)) = Fin ((a + b) * num_scale).
Proof.
  intros Ha Hb Hab. unfold num_add.
  replace (a * num_scale + b * num_scale) with ((a + b) * num_scale) by ring.
  apply of_exact_int. lia.
Qed.

(** A sum far above a bound stays above it after rounding (or overflows). *)
Lemma num_add_large u v c :
  0 <= u -> 0 <= v -> 2 * (c + 1) <= u + v ->
  num_add (Fin u) (Fin v) = Infinity false \/
  exists r, num_add (Fin u) (Fin v) = Fin r /\ c < r.
Proof.
  intros Hu Hv Hc. unfold num_add, of_exact. rewrite round_nonneg by lia.
  pose proof (round_abs_half (u + v) ltac:(lia)) as Hh.
  pose proof (round_abs_nonneg (u + v) ltac:(lia)) as Hn.
  destruct (_ <=? _).
  - left. f_equal. apply Z.ltb_ge. done.
  - right. eexists. split; [done|]. lia.
Qed.

Lemma num_gtb_fin a b : num_gtb (Fin a) (Fin b) = (b <? a).
Proof. done. Qed.

(** The arithmetic is reasoned about through the lemmas above. *)
#[global] Opaque num_scale of_exact num_add num_gtb.
