(* ===== verification/JsArith.v ===== *)
(** * Multiplication, division and decimal rounding of doubles

    [round_ratio p q] is the fraction p/q, in units of 2^-1074, rounded to 53
    significant bits, ties to even: the exact result of [x * y] and [x / y] is
    such a fraction.  [round2 x] is [parseFloat(x.toFixed(2))]. *)

From stdpp Require Import prelude.
From Stdlib Require Import ZArith Lia.
From S2P Require Import Prelude JsValue.
Open Scope Z_scope.

Definition ratio_exponent (p q : Z) : Z := Z.max 0 (Z.log2 (p / q) - 52).

(** [p / d] rounded to an integer, ties to even. *)
Definition div_round (p d : Z) : Z :=
  let n := p / d in
  let r := p mod d in
  if (d <? 2 * r) || ((d =? 2 * r) && Z.odd n) then n + 1 else n.

Definition round_ratio (p q : Z) : Z :=
  let e := ratio_exponent p q in div_round p (q * 2 ^ e) * 2 ^ e.

(** The double nearest to [p / q] for integers [p] and [q <> 0]. *)
Definition of_ratio (p q : Z) : number :=
  let r := Z.sgn p * Z.sgn q * round_ratio (Z.abs p) (Z.abs q) in
  if num_overflow <=? Z.abs r then Infinity (r <? 0) else Fin r.

Definition num_neg (x : number) : number :=
  match x with NaN => NaN | Infinity b => Infinity (negb b) | Fin u => Fin (- u) end.

(** [x - y] *)
Definition num_sub (x y : number) : number := num_add x (num_neg y).

Definition num_negative (x : number) : bool :=
  match x with NaN => false | Infinity b => b | Fin u => u <? 0 end.

Definition num_zero (x : number) : bool := match x with Fin u => u =? 0 | _ => false end.

Definition num_mul (x y : number) : number :=
  match x, y with
  | NaN, _ | _, NaN => NaN
  | Fin a, Fin b => of_ratio (a * b) num_scale
  | _, _ => if num_zero x || num_zero y then NaN else Infinity (xorb (num_negative x) (num_negative y))
  end.

Definition num_div (x y : number) : number :=
  match x, y with
  | NaN, _ | _, NaN => NaN
  | Infinity _, Infinity _ => NaN
  | Infinity a, Fin b => Infinity (xorb a (b <? 0))
  | Fin _, Infinity _ => Fin 0
  | Fin a, Fin b =>
      if b =? 0 then if a =? 0 then NaN else Infinity (a <? 0)
      else of_ratio (a * num_scale) b
  end.

(** [Math.max(0, x)] *)
Definition num_max0 (x : number) : number :=
  match x with NaN => NaN | _ => if num_negative x then Fin 0 else x end.

(** The decimal numeral of [x.toFixed(2)] counts hundredths, ties away from
    zero. *)
Definition hundredths (u : Z) : Z := (200 * u + num_scale) / (2 * num_scale).

Definition round2 (x : number) : number :=
  match x with
  | Fin u =>
      if 10 ^ 21 * num_scale <=? Z.abs u then x
      else Fin (Z.sgn u * round_ratio (hundredths (Z.abs u) * num_scale) 100)
  | _ => x
  end.

#[global] Arguments of_ratio : simpl never.
#[global] Arguments round_ratio : simpl never.
#[global] Arguments num_max0 : simpl never.
#[global] Arguments num_mul : simpl never.
#[global] Arguments num_div : simpl never.

(** ** Lemmas *)

Lemma div_round_le p d c : 0 < d -> p <= c * d -> div_round p d <= c.
Proof.
  intros Hd Hp. unfold div_round. pose proof (Z.div_mod p d ltac:(lia)) as Hdm.
  pose proof (Z.mod_pos_bound p d Hd) as Hr.
  destruct ((d <? 2 * (p mod d)) || ((d =? 2 * (p mod d)) && Z.odd (p / d)))%bool eqn:E; [|nia].
  assert (0 < p mod d).
  { apply orb_true_iff in E as [E|E]; [apply Z.ltb_lt in E; lia|].
    apply andb_true_iff in E as [E _]. apply Z.eqb_eq in E. lia. }
  nia.
Qed.

Lemma div_round_ge p d c : 0 < d -> c * d <= p -> c <= div_round p d.
Proof.
  intros Hd Hp. unfold div_round. pose proof (Z.div_le_lower_bound p d c Hd ltac:(lia)).
  destruct (_ || _)%bool; lia.
Qed.

Lemma div_round_exact n d : 0 < d -> div_round (n * d) d = n.
Proof.
  intros Hd. apply Z.le_antisymm; [apply div_round_le; lia|apply div_round_ge; lia].
Qed.

Lemma ratio_exponent_nonneg p q : 0 <= ratio_exponent p q.
Proof. unfold ratio_exponent. lia. Qed.

(** Fractions below 2^52 have a grid at least as fine as 2^-1022... integers
    are on it. *)
Lemma ratio_exponent_small p q :
  0 <= p -> 0 < q -> p <= 2 ^ 52 * num_scale * q -> ratio_exponent p q <= 1074.
Proof.
  intros Hp Hq Hle. unfold ratio_exponent.
  assert (p / q <= 2 ^ 52 * num_scale) by (apply Z.div_le_upper_bound; lia).
  assert (Z.log2 (p / q) <= Z.log2 (2 ^ 52 * num_scale)) as Hl by by apply Z.log2_le_mono.
  assert (Z.log2 (2 ^ 52 * num_scale) = 1126) as E.
  { rewrite num_scale_pow, <- Z.pow_add_r by lia. by rewrite Z.log2_pow2. }
  lia.
Qed.

Lemma scale_split e : 0 <= e <= 1074 -> num_scale = 2 ^ (1074 - e) * 2 ^ e.
Proof. intros He. rewrite num_scale_pow, <- Z.pow_add_r by lia. f_equal. lia. Qed.

(** Rounding never crosses a number of the grid it rounds to. *)
Lemma round_ratio_le_grid p q t :
  0 < q -> (2 ^ ratio_exponent p q | t) -> p <= t * q -> round_ratio p q <= t.
Proof.
  intros Hq [c ->] Hle. unfold round_ratio.
  pose proof (Z.pow_pos_nonneg 2 (ratio_exponent p q) ltac:(lia) (ratio_exponent_nonneg p q)) as Hpos.
  apply Z.mul_le_mono_nonneg_r; [lia|]. apply div_round_le; nia.
Qed.

Lemma round_ratio_ge_grid p q t :
  0 < q -> (2 ^ ratio_exponent p q | t) -> t * q <= p -> t <= round_ratio p q.
Proof.
  intros Hq [c ->] Hle. unfold round_ratio.
  pose proof (Z.pow_pos_nonneg 2 (ratio_exponent p q) ltac:(lia) (ratio_exponent_nonneg p q)) as Hpos.
  apply Z.mul_le_mono_nonneg_r; [lia|]. apply div_round_ge; nia.
Qed.

Lemma integer_on_grid p q k :
  0 <= p -> 0 < q -> p <= 2 ^ 52 * num_scale * q -> (2 ^ ratio_exponent p q | k * num_scale).
Proof.
  intros Hp Hq Hle. pose proof (ratio_exponent_nonneg p q).
  pose proof (ratio_exponent_small p q Hp Hq Hle). apply Z.divide_mul_r.
  rewrite (scale_split (ratio_exponent p q)) by lia. by apply Z.divide_mul_r.
Qed.

Lemma round_ratio_le p q k :
  0 <= p -> 0 < q -> k <= 2 ^ 52 -> p <= k * num_scale * q -> round_ratio p q <= k * num_scale.
Proof.
  intros Hp Hq Hk Hle. pose proof num_scale_pos as Hs.
  apply round_ratio_le_grid; [done|apply integer_on_grid|]; nia.
Qed.

Lemma round_ratio_ge p q k :
  0 <= p -> 0 < q -> p <= 2 ^ 52 * num_scale * q -> k * num_scale * q <= p -> k * num_scale <= round_ratio p q.
Proof.
  intros Hp Hq Hk Hle. apply round_ratio_ge_grid; [done|by apply integer_on_grid|done].
Qed.

(** Integers below 2^52 are hit exactly. *)
Lemma round_ratio_int k q : 0 <= k <= 2 ^ 52 -> 0 < q -> round_ratio (k * num_scale * q) q = k * num_scale.
Proof.
  intros Hk Hq. pose proof num_scale_pos. apply Z.le_antisymm.
  - apply round_ratio_le; nia.
  - apply round_ratio_ge; nia.
Qed.

Lemma hundredths_range u k :
  0 <= u -> u <= k * num_scale -> 0 <= hundredths u <= 100 * k.
Proof.
  intros Hu Hk. pose proof num_scale_pos as Hs. unfold hundredths. split.
  - apply Z.div_pos; lia.
  - apply Z.lt_succ_r. apply Z.div_lt_upper_bound; nia.
Qed.

Lemma hundredths_lower u k : k * num_scale <= u -> 100 * k <= hundredths u.
Proof.
  intros Hk. pose proof num_scale_pos as Hs. unfold hundredths.
  apply Z.div_le_lower_bound; nia.
Qed.

(** Rounding to two decimals keeps a number between the integers it lies
    between. *)
Lemma round2_range u a b :
  0 <= a -> b <= 2 ^ 40 -> a * num_scale <= u <= b * num_scale ->
  exists v, round2 (Fin u) = Fin v /\ a * num_scale <= v <= b * num_scale.
Proof.
  intros Ha Hb [Hlo Hhi]. pose proof num_scale_pos as Hs. assert (Hu : 0 <= u) by nia.
  unfold round2. rewrite Z.abs_eq by lia.
  replace (10 ^ 21 * num_scale <=? u) with false; [|symmetry; apply Z.leb_gt; nia].
  eexists. split; [reflexivity|].
  pose proof (hundredths_range u b Hu Hhi) as [H0 H1]. pose proof (hundredths_lower u a Hlo) as H2.
  assert (Hup : round_ratio (hundredths u * num_scale) 100 <= b * num_scale)
    by (apply round_ratio_le; nia).
  assert (Hdown : a * num_scale <= round_ratio (hundredths u * num_scale) 100)
    by (apply round_ratio_ge; nia).
  destruct (Z.eq_dec u 0) as [-> |Hne].
  - simpl Z.sgn. rewrite Z.mul_0_l. assert (a = 0) by nia. subst a. nia.
  - rewrite Z.sgn_pos by lia. lia.
Qed.

(** Addition rounds like a fraction with denominator one. *)
Lemma round_abs_ratio a : 0 <= a -> round_abs a = round_ratio a 1.
Proof.
  intros Ha. unfold round_abs, round_ratio, ratio_exponent, div_round.
  rewrite Z.div_1_r, Z.mul_1_l. destruct (Z.leb_spec (Z.log2 a - 52) 0) as [Hle|Hgt].
  - rewrite (Z.max_l 0) by lia. rewrite Z.pow_0_r, Z.div_1_r, Z.mod_1_r. simpl. lia.
  - rewrite (Z.max_r 0) by lia. set (k := Z.log2 a - 52) in *.
    assert (E : 2 ^ k = 2 * 2 ^ (k - 1)) by (rewrite <- Z.pow_succ_r by lia; f_equal; lia).
    replace (2 ^ k <? 2 * (a mod 2 ^ k)) with (2 ^ (k - 1) <? a mod 2 ^ k)
      by (apply eq_true_iff_eq; rewrite !Z.ltb_lt; lia).
    replace (2 ^ k =? 2 * (a mod 2 ^ k)) with (2 ^ (k - 1) =? a mod 2 ^ k)
      by (apply eq_true_iff_eq; rewrite !Z.eqb_eq; lia).
    done.
Qed.

Lemma below_overflow v b : 0 <= v -> b <= 2 ^ 52 -> v <= b * num_scale -> (num_overflow <=? v) = false.
Proof.
  intros Hv Hb Hle. apply Z.leb_gt. pose proof num_overflow_big. pose proof num_scale_pos. nia.
Qed.

(** [between a x b]: the number lies between two integers. *)
Definition between (a : Z) (x : number) (b : Z) : Prop :=
  exists u, x = Fin u /\ a * num_scale <= u <= b * num_scale.

Lemma num_add_between x y a b c d :
  0 <= a -> 0 <= c -> b + d <= 2 ^ 52 ->
  between a x b -> between c y d -> between (a + c) (num_add x y) (b + d).
Proof.
  intros Ha Hc Hbd (u & -> & Hu) (w & -> & Hw). pose proof num_scale_pos as Hs.
  change (num_add (Fin u) (Fin w)) with (of_exact (u + w)).
  change (of_exact (u + w)) with
    (let r := round (u + w) in if num_overflow <=? Z.abs r then Infinity (r <? 0) else Fin r).
  cbv zeta. assert (Hac : 0 <= (a + c) * num_scale) by (apply Z.mul_nonneg_nonneg; lia).
  rewrite Z.mul_add_distr_r in Hac. assert (H0 : 0 <= u + w) by lia. unfold round.
  rewrite (Z.abs_eq (u + w)), round_abs_ratio by lia.
  assert (Hup : round_ratio (u + w) 1 <= (b + d) * num_scale) by (apply round_ratio_le; nia).
  assert (Hlo : (a + c) * num_scale <= round_ratio (u + w) 1) by (apply round_ratio_ge; nia).
  assert (E : Z.sgn (u + w) * round_ratio (u + w) 1 = round_ratio (u + w) 1).
  { destruct (Z.eq_dec (u + w) 0) as [E|N]; [rewrite E; reflexivity|]. rewrite Z.sgn_pos by lia. lia. }
  rewrite E, Z.abs_eq by nia. rewrite (below_overflow _ (b + d)) by nia.
  eexists. split; [reflexivity|]. lia.
Qed.

Lemma round_ratio_nonneg p q : 0 <= p -> 0 < q -> 0 <= round_ratio p q.
Proof.
  intros Hp Hq. apply round_ratio_ge_grid; [done|apply Z.divide_0_r|lia].
Qed.

Lemma of_ratio_small p q b :
  0 <= p -> 0 < q -> b <= 2 ^ 52 -> p <= b * num_scale * q -> of_ratio p q = Fin (round_ratio p q).
Proof.
  intros Hp Hq Hb Hle. pose proof (round_ratio_nonneg p q Hp Hq) as H0.
  pose proof (round_ratio_le p q b Hp Hq Hb Hle) as H1. unfold of_ratio.
  rewrite (Z.abs_eq p), (Z.abs_eq q), (Z.sgn_pos q), Z.mul_1_r by lia.
  assert (E : Z.sgn p * round_ratio p q = round_ratio p q).
  { destruct (Z.eq_dec p 0) as [->|]; [|rewrite Z.sgn_pos by lia; lia].
    apply Z.le_antisymm; [lia|]. apply round_ratio_le_grid; [done|apply Z.divide_0_r|lia]. }
  by rewrite E, Z.abs_eq, (below_overflow _ b) by done.
Qed.

Lemma num_div_between x n a b :
  0 <= a -> b <= 2 ^ 52 -> 0 < n -> between (a * n) x (b * n) -> between a (num_div x (of_int n)) b.
Proof.
  intros Ha Hb Hn (u & -> & Hu). pose proof num_scale_pos as Hs. assert (Hu0 : 0 <= u) by nia.
  unfold num_div, of_int. replace (n * num_scale =? 0) with false by (symmetry; apply Z.eqb_neq; nia).
  assert (Hns : 0 < n * num_scale) by nia. assert (Hus : 0 <= u * num_scale) by nia.
  assert (Hle : u * num_scale <= b * num_scale * (n * num_scale)) by nia.
  rewrite (of_ratio_small _ _ b) by done. eexists. split; [reflexivity|]. split.
  - apply round_ratio_ge; nia.
  - by apply round_ratio_le.
Qed.

Lemma round2_between x a b : 0 <= a -> b <= 2 ^ 40 -> between a x b -> between a (round2 x) b.
Proof. intros Ha Hb (u & -> & Hu). destruct (round2_range u a b) as (v & -> & Hv); [done..|]. by exists v. Qed.

Lemma of_int_between n a b : a <= n <= b -> between a (of_int n) b.
Proof. intros H. pose proof num_scale_pos. exists (n * num_scale). split; [done|]. nia. Qed.

Lemma num_leb_between x a b :
  num_leb (of_int a) x = true -> num_leb x (of_int b) = true -> between a x b.
Proof.
  destruct x as [| |u]; [done|by destruct neg|].
  change (num_leb (of_int a) (Fin u)) with (negb (u <? a * num_scale)).
  change (num_leb (Fin u) (of_int b)) with (negb (b * num_scale <? u)).
  rewrite !negb_true_iff, !Z.ltb_ge. intros. exists u. done.
Qed.

(** ** Signs and differences *)

Lemma of_ratio_zero q : q <> 0 -> of_ratio 0 q = Fin 0.
Proof.
  intros Hq. unfold of_ratio. change (Z.sgn 0) with 0. rewrite !Z.mul_0_l. change (Z.abs 0) with 0.
  by rewrite (below_overflow 0 0) by lia.
Qed.

Lemma num_mul_zero_l u : num_mul (Fin 0) (Fin u) = Fin 0.
Proof. unfold num_mul. rewrite Z.mul_0_l. apply of_ratio_zero. pose proof num_scale_pos. lia. Qed.

Lemma num_mul_zero_r u : num_mul (Fin u) (Fin 0) = Fin 0.
Proof. unfold num_mul. rewrite Z.mul_0_r. apply of_ratio_zero. pose proof num_scale_pos. lia. Qed.

Definition nonpositive (x : number) : Prop :=
  match x with NaN => False | Infinity b => b = true | Fin u => u <= 0 end.

Lemma num_max0_nonpositive x : nonpositive x -> num_max0 x = Fin 0.
Proof.
  destruct x as [|b|u]; simpl; [done|by intros ->|]. intros Hu. unfold num_max0. simpl.
  destruct (Z.ltb_spec u 0); [done|]. f_equal. lia.
Qed.

Lemma of_ratio_nonpositive p q : p <= 0 -> 0 < q -> nonpositive (of_ratio p q).
Proof.
  intros Hp Hq. pose proof (round_ratio_nonneg (Z.abs p) (Z.abs q) ltac:(lia) ltac:(lia)) as H0.
  unfold of_ratio. rewrite (Z.sgn_pos q) by lia.
  set (r := Z.sgn p * 1 * round_ratio (Z.abs p) (Z.abs q)).
  assert (Hr : r <= 0) by (unfold r; pose proof (Z.sgn_nonpos p); nia).
  destruct (Z.leb_spec num_overflow (Z.abs r)) as [Hb|_]; simpl; [|done].
  apply Z.ltb_lt. pose proof num_overflow_big. pose proof num_scale_pos. nia.
Qed.

Lemma num_sub_exact a b : num_sub (of_int a) (of_int b) = of_exact ((a - b) * num_scale).
Proof.
  change (num_sub (of_int a) (of_int b)) with (of_exact (a * num_scale + - (b * num_scale))).
  f_equal. ring.
Qed.

Lemma num_sub_int a b : 0 <= a - b < 2 ^ 53 -> num_sub (of_int a) (of_int b) = of_int (a - b).
Proof. intros H. rewrite num_sub_exact. by apply of_exact_int. Qed.

Lemma num_sub_nonpositive a b : a <= b -> nonpositive (num_sub (of_int a) (of_int b)).
Proof.
  intros Hab. pose proof num_scale_pos as Hs. rewrite num_sub_exact. set (u := (a - b) * num_scale).
  assert (Hu : u <= 0) by (unfold u; nia).
  change (nonpositive (let r := round u in
    if num_overflow <=? Z.abs r then Infinity (r <? 0) else Fin r)). cbv zeta.
  unfold round. rewrite round_abs_ratio by lia.
  pose proof (round_ratio_nonneg (Z.abs u) 1 ltac:(lia) ltac:(lia)).
  set (r := Z.sgn u * round_ratio (Z.abs u) 1).
  assert (Hr : r <= 0) by (unfold r; pose proof (Z.sgn_nonpos u); nia).
  destruct (Z.leb_spec num_overflow (Z.abs r)) as [Hb|_]; simpl; [|done].
  apply Z.ltb_lt. pose proof num_overflow_big. nia.
Qed.

Lemma nonpositive_not_above x m : nonpositive x -> 0 <= m -> num_gtb x (of_int m) = false.
Proof.
  intros Hx Hm. pose proof num_scale_pos. destruct x as [|b|u]; simpl in Hx; [done|by subst b|].
  change (num_gtb (Fin u) (of_int m)) with (m * num_scale <? u). apply Z.ltb_ge. nia.
Qed.

Lemma num_gtb_int a b : num_gtb (of_int a) (of_int b) = (b <? a).
Proof.
  pose proof num_scale_pos. change (num_gtb (of_int a) (of_int b)) with (b * num_scale <? a * num_scale).
  apply eq_true_iff_eq. rewrite !Z.ltb_lt. nia.
Qed.

(** [a - b > m] on instants. *)
Lemma elapsed_above a b m : a - b < 2 ^ 53 -> 0 <= m ->
  num_gtb (num_sub (of_int a) (of_int b)) (of_int m) = (m <? a - b).
Proof.
  intros Hd Hm. destruct (Z.le_gt_cases a b) as [Hle|Hgt].
  - rewrite nonpositive_not_above by (done || by apply num_sub_nonpositive).
    symmetry. apply Z.ltb_ge. lia.
  - rewrite num_sub_int by lia. apply num_gtb_int.
Qed.

(** ** Comparison with one half *)

Definition one_half : number := of_ratio num_scale 2.

Lemma one_half_eq : one_half = Fin (2 ^ 1073).
Proof. vm_compute. reflexivity. Qed.

(** For counts of at most a thousand, the rounded quotient exceeds one half
    exactly when the fraction does. *)
Lemma above_half m l :
  0 <= m <= l -> 0 < l <= 1000 ->
  num_gtb (num_div (of_int m) (of_int l)) one_half = (l <? 2 * m).
Proof.
  intros Hm Hl. pose proof num_scale_pos as Hs. rewrite one_half_eq.
  unfold num_div, of_int. replace (l * num_scale =? 0) with false by (symmetry; apply Z.eqb_neq; nia).
  set (p := m * num_scale * num_scale). set (q := l * num_scale).
  assert (Hp : 0 <= p) by (unfold p; nia). assert (Hq : 0 < q) by (unfold q; nia).
  assert (Hpq : p <= num_scale * q) by (unfold p, q; nia).
  assert (He : 0 <= ratio_exponent p q <= 1022).
  { split; [apply ratio_exponent_nonneg|]. unfold ratio_exponent.
    assert (p / q <= num_scale) by (apply Z.div_le_upper_bound; lia).
    assert (Z.log2 (p / q) <= Z.log2 num_scale) as H1 by by apply Z.log2_le_mono.
    rewrite num_scale_pow, Z.log2_pow2 in H1 by lia. lia. }
  assert (Hgrid : forall c, (2 ^ ratio_exponent p q | c * 2 ^ 1022)).
  { intros c. apply Z.divide_mul_r. exists (2 ^ (1022 - ratio_exponent p q)).
    rewrite <- Z.pow_add_r by lia. f_equal. lia. }
  assert (Hsc : num_scale = 2 ^ 52 * 2 ^ 1022) by (rewrite num_scale_pow, <- Z.pow_add_r by lia; f_equal).
  assert (Hhalf : 2 ^ 1073 = 2 ^ 51 * 2 ^ 1022) by (rewrite <- Z.pow_add_r by lia; f_equal).
  rewrite (of_ratio_small _ _ 1) by lia.
  change (num_gtb (Fin (round_ratio p q)) (Fin (2 ^ 1073))) with (2 ^ 1073 <? round_ratio p q).
  apply eq_true_iff_eq. rewrite !Z.ltb_lt, Hhalf. split; intros H.
  - apply Z.nle_gt. intros Hle. assert (round_ratio p q <= 2 ^ 51 * 2 ^ 1022); [|lia].
    apply round_ratio_le_grid; [done|apply Hgrid|]. unfold p, q. rewrite Hsc. nia.
  - assert ((2 ^ 51 + 2 ^ 40) * 2 ^ 1022 <= round_ratio p q); [|nia].
    apply round_ratio_ge_grid; [done|apply Hgrid|]. unfold p, q. rewrite Hsc. nia.
Qed.
