(* ===== verification/JsString.v ===== *)
(** * JavaScript string primitives used by the modelled code

    Strings are [String.string] (one character per code unit, Latin-1).
    [trim], [to_lower] and [parse_int] model [String.prototype.trim],
    [toLowerCase] and [Number.parseInt(s, 10)]. *)

From stdpp Require Import prelude strings.
From Stdlib Require Import ZArith Lia Ascii String.
From S2P Require Import Prelude.

Definition char_code (c : ascii) : Z := Z.of_nat (nat_of_ascii c).

(** TAB, LF, VT, FF, CR, SPACE and NO-BREAK SPACE. *)
Definition is_space (c : ascii) : bool :=
  let n := char_code c in
  ((9 <=? n) && (n <=? 13) || (n =? 32) || (n =? 160))%Z.

Fixpoint trim_front (l : list ascii) : list ascii :=
  match l with
  | [] => []
  | c :: l' => if is_space c then trim_front l' else l
  end.

Definition trim (s : string) : string :=
  string_of_list_ascii
    (reverse (trim_front (reverse (trim_front (list_ascii_of_string s))))).

Definition lower_char (c : ascii) : ascii :=
  let n := nat_of_ascii c in
  if bool_decide (65 ≤ n ∧ n ≤ 90) || bool_decide (192 ≤ n ∧ n ≤ 222 ∧ n ≠ 215)
  then ascii_of_nat (n + 32) else c.

Definition to_lower (s : string) : string :=
  string_of_list_ascii (lower_char <$> list_ascii_of_string s).

Definition digit_value (c : ascii) : option Z :=
  let n := char_code c in
  if ((48 <=? n) && (n <=? 57))%Z then Some (n - 48)%Z else None.

(** The longest prefix of decimal digits; [None] when there is none. *)
Fixpoint digits_value (acc : option Z) (l : list ascii) : option Z :=
  match l with
  | [] => acc
  | c :: l' =>
      match digit_value c with
      | Some d => digits_value (Some (default 0 acc * 10 + d)%Z) l'
      | None => acc
      end
  end.

(** [Number.parseInt(s, 10)]; [None] is NaN. *)
Definition parse_int (s : string) : option Z :=
  match trim_front (list_ascii_of_string s) with
  | "-"%char :: l => Z.opp <$> digits_value None l
  | "+"%char :: l => digits_value None l
  | l => digits_value None l
  end.

(** [normalizeEmail] of src/repositories/userRepository.ts. *)
Definition normalizeEmail (email : string) : string := to_lower (trim email).

Lemma lower_char_space c : is_space (lower_char c) = is_space c.
Proof. destruct c as [[] [] [] [] [] [] [] []]; vm_compute; reflexivity. Qed.

Lemma lower_char_idem c : lower_char (lower_char c) = lower_char c.
Proof. destruct c as [[] [] [] [] [] [] [] []]; vm_compute; reflexivity. Qed.

Lemma to_lower_idem s : to_lower (to_lower s) = to_lower s.
Proof.
  unfold to_lower. rewrite list_ascii_of_string_of_list_ascii. f_equal.
  rewrite <- list_fmap_compose. apply list_fmap_ext. intros i c _. apply lower_char_idem.
Qed.

Lemma trim_front_lower l : trim_front (lower_char <$> l) = lower_char <$> trim_front l.
Proof.
  induction l as [|c l IH]; simpl; [done|]. rewrite lower_char_space.
  destruct (is_space c); [exact IH|done].
Qed.

(** Lower-casing commutes with trimming, so normalisation ignores case. *)
Lemma to_lower_trim s : to_lower (trim s) = trim (to_lower s).
Proof.
  unfold to_lower, trim. rewrite !list_ascii_of_string_of_list_ascii. f_equal.
  by rewrite trim_front_lower, <- fmap_reverse, trim_front_lower, <- fmap_reverse.
Qed.

Lemma normalizeEmail_lower s : normalizeEmail (to_lower s) = normalizeEmail s.
Proof. unfold normalizeEmail. by rewrite <- to_lower_trim, to_lower_idem. Qed.

(** Leading white space is ignored. *)
Lemma normalizeEmail_space c s :
  is_space c = true -> normalizeEmail (String c s) = normalizeEmail s.
Proof. intros Hc. unfold normalizeEmail, trim. simpl. by rewrite Hc. Qed.

Lemma digits_value_nonneg acc l z :
  (0 ≤ default 0 acc)%Z -> digits_value acc l = Some z -> (0 ≤ z)%Z.
Proof.
  revert acc. induction l as [|c l IH]; intros acc Hacc; simpl.
  - intros ->. done.
  - unfold digit_value. destruct (_ && _)%bool eqn:E.
    + apply IH. simpl. apply andb_true_iff in E as [?%Z.leb_le ?%Z.leb_le]. lia.
    + intros ->. done.
Qed.

Lemma trim_front_none (l : list ascii) : Forall (fun c => is_space c = false) l -> trim_front l = l.
Proof. destruct 1 as [|x k Hx _]; simpl; [done|]. by rewrite Hx. Qed.

(** A text without white space is its own trim. *)
Lemma trim_plain (l : list ascii) :
  Forall (fun c => is_space c = false) l -> trim (string_of_list_ascii l) = string_of_list_ascii l.
Proof.
  intros Hl. unfold trim. rewrite list_ascii_of_string_of_list_ascii, (trim_front_none l) by done.
  rewrite (trim_front_none (reverse l)) by (by apply Forall_reverse). by rewrite reverse_involutive.
Qed.
