(* ===== verification/Regex.v ===== *)
(** * Regular expressions: the [RegExp] patterns of the program

    An anchored pattern [/^...$/] is a [regex] decided by Brzozowski
    derivatives ([re_match]); [lang] is its meaning and [re_match_lang] the
    agreement of the two.  [re_search_class] is an unanchored test for one
    character class, [/[...]/.test(s)]. *)

From stdpp Require Import prelude strings.
From Stdlib Require Import Ascii.
From S2P Require Import Prelude JsString.

Inductive regex : Type :=
| Empty
| Eps
| Class (p : ascii -> bool)
| Cat (r1 r2 : regex)
| Alt (r1 r2 : regex)
| Star (r : regex).

Fixpoint nullable (r : regex) : bool :=
  match r with
  | Empty => false
  | Eps => true
  | Class _ => false
  | Cat r1 r2 => nullable r1 && nullable r2
  | Alt r1 r2 => nullable r1 || nullable r2
  | Star _ => true
  end.

Fixpoint deriv (c : ascii) (r : regex) : regex :=
  match r with
  | Empty => Empty
  | Eps => Empty
  | Class p => if p c then Eps else Empty
  | Cat r1 r2 =>
      if nullable r1 then Alt (Cat (deriv c r1) r2) (deriv c r2) else Cat (deriv c r1) r2
  | Alt r1 r2 => Alt (deriv c r1) (deriv c r2)
  | Star r => Cat (deriv c r) (Star r)
  end.

Fixpoint re_match_list (r : regex) (l : list ascii) : bool :=
  match l with
  | [] => nullable r
  | c :: l' => re_match_list (deriv c r) l'
  end.

Definition chars (s : string) : list ascii := String.list_ascii_of_string s.

(** [/^r$/.test(s)] *)
Definition re_match (r : regex) (s : string) : bool := re_match_list r (chars s).

(** [/[p]/.test(s)] *)
Definition re_search_class (p : ascii -> bool) (s : string) : bool := existsb p (chars s).

Definition Plus (r : regex) : regex := Cat r (Star r).

(** [r{n,}] *)
Fixpoint AtLeast (n : nat) (r : regex) : regex :=
  match n with
  | O => Star r
  | S n' => Cat r (AtLeast n' r)
  end.

Definition is_char (a c : ascii) : bool := Ascii.eqb a c.
Definition in_range (lo hi : Z) (c : ascii) : bool := ((lo <=? char_code c) && (char_code c <=? hi))%Z.
Definition is_alpha (c : ascii) : bool := in_range 65 90 c || in_range 97 122 c.
Definition is_digit (c : ascii) : bool := in_range 48 57 c.
Definition one_of (s : string) (c : ascii) : bool := existsb (is_char c) (chars s).

Inductive lang : regex -> list ascii -> Prop :=
| lang_eps : lang Eps []
| lang_class p c : p c = true -> lang (Class p) [c]
| lang_cat r1 r2 l1 l2 : lang r1 l1 -> lang r2 l2 -> lang (Cat r1 r2) (l1 ++ l2)
| lang_alt_l r1 r2 l : lang r1 l -> lang (Alt r1 r2) l
| lang_alt_r r1 r2 l : lang r2 l -> lang (Alt r1 r2) l
| lang_star_nil r : lang (Star r) []
| lang_star_app r l1 l2 : lang r l1 -> lang (Star r) l2 -> lang (Star r) (l1 ++ l2).

Lemma nullable_lang r : nullable r = true <-> lang r [].
Proof.
  split.
  - induction r; simpl; intros Hn; try done; try by constructor.
    + apply andb_true_iff in Hn as [? ?]. apply (lang_cat _ _ [] []); auto.
    + apply orb_true_iff in Hn as [?|?]; [apply lang_alt_l|apply lang_alt_r]; auto.
  - remember [] as l eqn:El. induction 1; simpl; try done; simplify_eq;
      repeat match goal with H : _ ++ _ = [] |- _ => apply app_nil in H as [-> ->] end;
      apply andb_true_iff || apply orb_true_iff; auto.
Qed.

Lemma deriv_sound c r l : lang (deriv c r) l -> lang r (c :: l).
Proof.
  revert l. induction r; simpl; intros l Hl.
  - inversion Hl.
  - inversion Hl.
  - destruct (p c) eqn:E; inversion Hl; subst. by constructor.
  - destruct (nullable r1) eqn:En.
    + inversion Hl; subst.
      * match goal with H : lang (Cat _ _) _ |- _ => inversion H; subst end.
        rewrite app_comm_cons. constructor; auto.
      * apply (lang_cat _ _ [] (c :: l)); [by apply nullable_lang|auto].
    + inversion Hl; subst. rewrite app_comm_cons. constructor; auto.
  - inversion Hl; subst; [apply lang_alt_l|apply lang_alt_r]; auto.
  - inversion Hl; subst. rewrite app_comm_cons. constructor; auto.
Qed.

Lemma deriv_complete c r l : lang r (c :: l) -> lang (deriv c r) l.
Proof.
  intros Hl. remember (c :: l) as cl eqn:E. revert l E.
  induction Hl as [|p a Hp|r1 r2 l1 l2 H1 IH1 H2 IH2|r1 r2 k H IH|r1 r2 k H IH| |r k1 k2 H1 IH1 H2 IH2];
    intros l E; simplify_eq; simpl.
  - rewrite Hp. constructor.
  - destruct l1 as [|a l1]; simplify_eq/=.
    + rewrite (proj2 (nullable_lang r1) H1). apply lang_alt_r. auto.
    + destruct (nullable r1); [apply lang_alt_l|]; constructor; auto.
  - apply lang_alt_l. auto.
  - apply lang_alt_r. auto.
  - destruct k1 as [|a k1]; simplify_eq/=; [auto|]. constructor; auto.
Qed.

(** The matcher decides the language of the pattern. *)
Lemma re_match_lang r s : re_match r s = true <-> lang r (chars s).
Proof.
  unfold re_match. generalize (chars s). intros l. revert r.
  induction l as [|c l IH]; intros r; simpl; [apply nullable_lang|].
  rewrite IH. split; [apply deriv_sound|apply deriv_complete].
Qed.

Lemma lang_cat_inv r1 r2 l :
  lang (Cat r1 r2) l -> exists l1 l2, l = l1 ++ l2 /\ lang r1 l1 /\ lang r2 l2.
Proof. inversion 1; subst. eauto. Qed.

Lemma lang_class_inv p l : lang (Class p) l -> exists c, l = [c] /\ p c = true.
Proof. inversion 1; subst. eauto. Qed.

(** A repetition whose body only uses characters of [p] only uses such
    characters. *)
Lemma lang_star_forall p r l :
  (forall k, lang r k -> Forall (fun c => p c = true) k) ->
  lang (Star r) l -> Forall (fun c => p c = true) l.
Proof.
  intros Hr Hl. remember (Star r) as rs eqn:E. revert E.
  induction Hl; intros; simplify_eq; [constructor|]. apply Forall_app. auto.
Qed.

Lemma lang_class_forall (p q : ascii -> bool) l :
  (forall c, p c = true -> q c = true) -> lang (Class p) l -> Forall (fun c => q c = true) l.
Proof. intros Hpq (c & -> & Hc)%lang_class_inv. repeat constructor. auto. Qed.

Lemma lang_plus_forall p (q : ascii -> bool) l :
  (forall c, p c = true -> q c = true) -> lang (Plus (Class p)) l ->
  l <> [] /\ Forall (fun c => q c = true) l.
Proof.
  intros Hpq (l1 & l2 & -> & H1 & H2)%lang_cat_inv. split.
  - apply lang_class_inv in H1 as (c & -> & _). done.
  - apply Forall_app. split; [by eapply lang_class_forall|].
    eapply lang_star_forall; [|exact H2]. intros k. by apply lang_class_forall.
Qed.

Lemma re_search_class_false p s :
  re_search_class p s = false <-> Forall (fun c => p c = false) (chars s).
Proof.
  unfold re_search_class. generalize (chars s). induction l as [|c l IH]; simpl; [done|].
  rewrite orb_false_iff, Forall_cons, IH. done.
Qed.
