(* ===== verification/JsNumber.v ===== *)
(** * Numbers from text: [Number(string)] and [parseInt(string, radix)]

    The numeric literal is read as an exact fraction and rounded once. *)

From stdpp Require Import prelude strings.
From Stdlib Require Import ZArith Lia Ascii.
From S2P Require Import Prelude JsValue JsArith JsString Regex.
Open Scope Z_scope.

(** The value of a digit in a base of at most 36. *)
Definition radix_digit (base : Z) (c : ascii) : option Z :=
  let n := char_code c in
  let d := if in_range 48 57 c then n - 48
           else if in_range 97 122 c then n - 87
           else if in_range 65 90 c then n - 55 else base in
  if d <? base then Some d else None.

(** The longest run of digits: the value accumulated onto [acc], how many
    digits were read and the text left. *)
Fixpoint scan_digits (base acc : Z) (n : nat) (l : list ascii) : Z * nat * list ascii :=
  match l with
  | [] => (acc, n, [])
  | c :: l' =>
      match radix_digit base c with
      | Some d => scan_digits base (acc * base + d) (S n) l'
      | None => (acc, n, l)
      end
  end.

Definition strip_sign (l : list ascii) : bool * list ascii :=
  match l with
  | "-"%char :: l' => (true, l')
  | "+"%char :: l' => (false, l')
  | _ => (false, l)
  end.

Definition signed (neg : bool) (z : Z) : Z := if neg then - z else z.

(** [parseInt(s, radix)] for radix 8, 10 or 16; [None] is NaN.  (Values above
    2^53 are given before they are rounded.) *)
Definition parse_int_radix (base : Z) (l : list ascii) : option Z :=
  let '(neg, l1) := strip_sign (trim_front l) in
  let l2 := match l1 with
            | "0"%char :: x :: r => if (base =? 16) && one_of "xX" x then r else l1
            | _ => l1
            end in
  let '(v, n, _) := scan_digits base 0 0 l2 in
  if bool_decide (n = 0%nat) then None else Some (signed neg v).

(** The double nearest to [m * 10^e]. *)
Definition decimal_value (neg : bool) (m e : Z) : number :=
  if 0 <=? e then of_ratio (signed neg m * 10 ^ e * num_scale) 1
  else of_ratio (signed neg m * num_scale) (10 ^ (- e)).

Definition radix_literal (base : Z) (l : list ascii) : number :=
  let '(v, n, rest) := scan_digits base 0 0 l in
  match n, rest with
  | S _, [] => of_exact (v * num_scale)
  | _, _ => NaN
  end.

Definition decimal_literal (l : list ascii) : number :=
  let '(neg, l0) := strip_sign l in
  if bool_decide (l0 = chars "Infinity") then Infinity neg
  else
    let '(i, ni, r1) := scan_digits 10 0 0 l0 in
    let '(m, nf, r2) := match r1 with
                        | "."%char :: r => scan_digits 10 i 0 r
                        | _ => (i, 0%nat, r1)
                        end in
    if bool_decide (ni = 0 /\ nf = 0)%nat then NaN
    else match r2 with
         | [] => decimal_value neg m (- Z.of_nat nf)
         | c :: r3 =>
             if one_of "eE" c then
               let '(eneg, r4) := strip_sign r3 in
               let '(e, ne, r5) := scan_digits 10 0 0 r4 in
               match ne, r5 with
               | S _, [] => decimal_value neg m (signed eneg e - Z.of_nat nf)
               | _, _ => NaN
               end
             else NaN
         end.

(** [Number(s)] *)
Definition js_number (s : string) : number :=
  match chars (trim s) with
  | [] => of_int 0
  | "0"%char :: x :: r =>
      if one_of "xX" x then radix_literal 16 r
      else if one_of "oO" x then radix_literal 8 r
      else if one_of "bB" x then radix_literal 2 r
      else decimal_literal ("0"%char :: x :: r)
  | l => decimal_literal l
  end.

(** ** Lemmas *)

Lemma scan_digits_app base acc n l c r :
  Forall (fun x => is_Some (radix_digit base x)) l -> radix_digit base c = None ->
  exists v, scan_digits base acc n (l ++ c :: r) = (v, (n + length l)%nat, c :: r).
Proof.
  intros Hl Hc. revert acc n. induction Hl as [|x l [d Hd] _ IH]; intros acc n; simpl.
  - rewrite Hc. exists acc. by rewrite Nat.add_0_r.
  - rewrite Hd. destruct (IH (acc * base + d) (S n)) as [v ->]. exists v. f_equal. f_equal. lia.
Qed.

(** A text with two dots between digits is not a number. *)
Lemma two_dots_nan l1 l2 r :
  l1 <> [] -> Forall (fun x => is_Some (radix_digit 10 x)) l1 ->
  Forall (fun x => is_Some (radix_digit 10 x)) l2 ->
  decimal_literal (l1 ++ "."%char :: l2 ++ "."%char :: r) = NaN.
Proof.
  intros Hne H1 H2. unfold decimal_literal.
  assert (Hs : strip_sign (l1 ++ "."%char :: l2 ++ "."%char :: r) =
               (false, l1 ++ "."%char :: l2 ++ "."%char :: r)).
  { destruct l1 as [|x l1]; [done|]. apply Forall_inv in H1 as [d Hd]. simpl.
    destruct x as [[] [] [] [] [] [] [] []]; try reflexivity; vm_compute in Hd; discriminate Hd. }
  rewrite Hs. rewrite bool_decide_eq_false_2.
  2:{ destruct l1 as [|x l1]; [done|]. intros E. injection E as -> _.
      apply Forall_inv in H1 as [d Hd]. vm_compute in Hd. discriminate Hd. }
  destruct (scan_digits_app 10 0 0 l1 "."%char (l2 ++ "."%char :: r)) as [v ->]; [done..|].
  destruct (scan_digits_app 10 v 0 l2 "."%char r) as [w ->]; [done..|].
  rewrite bool_decide_eq_false_2; [done|]. intros [E _]. by destruct l1.
Qed.

#[global] Arguments js_number : simpl never.
