(* ===== verification/Ssrf.v ===== *)
(** * Server-side request forgery guard: src/utils/ssrf.ts

    [isPrivateHost] classifies the host name of a parsed URL; [isSafeUrl] adds
    the environment's opt-out.  The URL parser is a parameter: [url_host u] is
    [new URL(u).hostname], [None] when the constructor throws. *)

From stdpp Require Import prelude strings.
From Stdlib Require Import ZArith Lia Ascii.
From S2P Require Import Prelude JsValue JsArith JsString Regex JsNumber.
Open Scope Z_scope.

Module Ssrf.

Definition SSRF_BYPASS_ALLOWED_ENVS : list string := ["development"; "test"; "staging"]%string.
Definition PRIVATE_HOSTNAMES : list string := ["localhost"; "localhost.localdomain"; "0.0.0.0"]%string.

Fixpoint starts_with (w l : list ascii) : bool :=
  match w, l with
  | [], _ => true
  | a :: w', b :: l' => Ascii.eqb a b && starts_with w' l'
  | _ :: _, [] => false
  end.

Definition prefix (w : string) (l : list ascii) : bool := starts_with (chars w) l.

(** [l.slice(0, -1)] when the text ends in [c]. *)
Definition drop_last (c : ascii) (l : list ascii) : list ascii :=
  match last l with
  | Some x => if Ascii.eqb x c then take (length l - 1) l else l
  | None => l
  end.

Fixpoint before (c : ascii) (l : list ascii) : list ascii :=
  match l with
  | [] => []
  | x :: l' => if Ascii.eqb x c then [] else x :: before c l'
  end.

Definition lower_trim (host : string) : list ascii := chars (trim (to_lower host)).

Definition stripIpv6Wrapper (host : string) : list ascii :=
  let h := lower_trim host in
  let h1 := match h with "["%char :: r => r | _ => h end in
  before "%"%char (drop_last "]"%char h1).

(** [l.split(c)] *)
Fixpoint split_on (c : ascii) (l : list ascii) : list (list ascii) :=
  match l with
  | [] => [[]]
  | x :: l' =>
      if Ascii.eqb x c then [] :: split_on c l'
      else match split_on c l' with
           | p :: ps => (x :: p) :: ps
           | [] => [[x]]
           end
  end.

Definition hex_group (g : list ascii) : bool :=
  bool_decide (0 < length g ≤ 4)%nat &&
  forallb (fun c => in_range 48 57 c || in_range 97 102 c) g.

Definition octets : Type := Z * Z * Z * Z.

Definition parseHexMappedIpv4 (mapped : list ascii) : option octets :=
  match filter (fun g => g <> []) (split_on ":"%char mapped) with
  | [g1; g2] =>
      if hex_group g1 && hex_group g2 then
        let hi := default 0 (parse_int_radix 16 g1) in
        let lo := default 0 (parse_int_radix 16 g2) in
        Some (Z.land (Z.shiftr hi 8) 255, Z.land hi 255, Z.land (Z.shiftr lo 8) 255, Z.land lo 255)
      else None
  | _ => None
  end.

(** [ToInt32] *)
Definition to_int32 (n : Z) : Z :=
  let m := n mod 2 ^ 32 in if m <? 2 ^ 31 then m else m - 2 ^ 32.

Definition int_octets (n : Z) : octets :=
  let i := to_int32 n in
  (Z.land (Z.shiftr i 24) 255, Z.land (Z.shiftr i 16) 255, Z.land (Z.shiftr i 8) 255, Z.land i 255).

Definition parse_part (part : list ascii) : option Z :=
  if prefix "0x" part || prefix "0X" part then parse_int_radix 16 part
  else if prefix "0" part && bool_decide (1 < length part)%nat then parse_int_radix 8 part
  else parse_int_radix 10 part.

Definition octet_ok (o : option Z) : bool :=
  match o with Some n => (0 <=? n) && (n <=? 255) | None => false end.

Definition dotted_octets (l : list ascii) : option octets :=
  match parse_part <$> split_on "."%char l with
  | [a; b; c; d] =>
      if octet_ok a && octet_ok b && octet_ok c && octet_ok d
      then Some (default 0 a, default 0 b, default 0 c, default 0 d) else None
  | _ => None
  end.

(** The two textual attempts, after the mapped prefix is gone. *)
Definition plain_octets (l : list ascii) : option octets :=
  match to_int (js_number (String.string_of_list_ascii l)) with
  | Some n => if (0 <=? n) && (n <=? 4294967295) then Some (int_octets n) else dotted_octets l
  | None => dotted_octets l
  end.

Definition parseIpv4Like (host : string) : option octets :=
  let n := stripIpv6Wrapper host in
  if prefix "::ffff:" n then
    let mapped := drop 7 n in
    match (if existsb (is_char "."%char) mapped then None else parseHexMappedIpv4 mapped) with
    | Some o => Some o
    | None => plain_octets mapped
    end
  else if prefix "0000:0000:0000:0000:0000:ffff:" n then plain_octets (drop 30 n)
  else plain_octets n.

Definition isPrivateIpv6 (host : string) : bool :=
  let h := stripIpv6Wrapper host in
  bool_decide (h = chars "::1") ||
  bool_decide (h = chars "0000:0000:0000:0000:0000:0000:0000:0001") ||
  prefix "fc" h || prefix "fd" h ||
  prefix "fe8" h || prefix "fe9" h || prefix "fea" h || prefix "feb" h.

Definition isPrivateIpv4 (o : octets) : bool :=
  let '(a, b, _, _) := o in
  (a =? 127) || (a =? 10) || ((a =? 172) && (16 <=? b) && (b <=? 31)) ||
  ((a =? 192) && (b =? 168)) || ((a =? 169) && (b =? 254)).

Definition isPrivateHost (host : string) : bool :=
  let normalized := trim (to_lower host) in
  bool_decide (normalized ∈ PRIVATE_HOSTNAMES) || isPrivateIpv6 normalized ||
  match parseIpv4Like normalized with Some o => isPrivateIpv4 o | None => false end.

(** ** Environment *)

Definition getEnv (raw : option string) : option string :=
  match raw with
  | Some v => if String.eqb (trim v) EmptyString then None else Some (trim v)
  | None => None
  end.

(** [None] is the exception for an unrecognised value. *)
Definition parseBoolEnv (raw : option string) (defaultValue : bool) : option bool :=
  match getEnv raw with
  | None => Some defaultValue
  | Some v =>
      let lower := to_lower v in
      if String.eqb lower "true" || String.eqb lower "1" then Some true
      else if String.eqb lower "false" || String.eqb lower "0" then Some false
      else None
  end.

Record Env : Type := {
  NODE_ENV : option string;
  SSRF_ALLOW_PRIVATE_HOSTS : option string;
}.

Definition isSsrfBypassEnvAllowed (v : Env) : bool :=
  match getEnv (NODE_ENV v) with
  | Some n => bool_decide (n ∈ SSRF_BYPASS_ALLOWED_ENVS)
  | None => false
  end.

Definition isSafeUrl (url_host : string -> option string) (v : Env) (url : string) : option bool :=
  match parseBoolEnv (SSRF_ALLOW_PRIVATE_HOSTS v) false with
  | None => None
  | Some allow =>
      if allow && isSsrfBypassEnvAllowed v then Some true
      else match url_host url with
           | None => Some false
           | Some host =>
               if String.eqb host EmptyString then Some false
               else Some (negb (isPrivateHost host))
           end
  end.

(** ** Dotted-quad hosts *)

Definition digit_char (d : Z) : ascii := ascii_of_nat (Z.to_nat (48 + d)).

(** The canonical decimal text of an octet. *)
Definition octet_text (n : Z) : list ascii :=
  if n <? 10 then [digit_char n]
  else if n <? 100 then [digit_char (n / 10); digit_char (n mod 10)]
  else [digit_char (n / 100); digit_char (n / 10 mod 10); digit_char (n mod 10)].

Definition quad (a b c d : Z) : list ascii :=
  octet_text a ++ "."%char :: octet_text b ++ "."%char :: octet_text c ++ "."%char :: octet_text d.

Definition dotted (a b c d : Z) : string := String.string_of_list_ascii (quad a b c d).

Definition octet (n : Z) : Prop := 0 <= n <= 255.

Definition octet_text_ok (n : Z) : bool :=
  forallb is_digit (octet_text n) && bool_decide (octet_text n <> []) &&
  bool_decide (parse_part (octet_text n) = Some n).

Lemma octet_text_spec n : octet n -> octet_text_ok n = true.
Proof.
  intros Hn.
  assert (Hall : forallb (fun k => octet_text_ok (Z.of_nat k)) (seq 0 256) = true) by (vm_compute; reflexivity).
  rewrite forallb_forall in Hall. specialize (Hall (Z.to_nat n)). rewrite Z2Nat.id in Hall by apply Hn.
  apply Hall, in_seq. unfold octet in Hn. lia.
Qed.

Definition host_char (c : ascii) : bool := is_digit c || is_char "."%char c.

Lemma octet_text_digits n : octet n -> Forall (fun c => is_digit c = true) (octet_text n) /\
  octet_text n <> [] /\ parse_part (octet_text n) = Some n.
Proof.
  intros Hn%octet_text_spec. unfold octet_text_ok in Hn. bool_to_prop. split_and!; try done.
  by apply Forall_forall; setoid_rewrite list_elem_of_In; apply forallb_forall.
Qed.

Lemma digit_not_dot l : Forall (fun c => is_digit c = true) l -> "."%char ∉ l.
Proof. intros H Hin. rewrite Forall_forall in H. specialize (H _ Hin). vm_compute in H. discriminate H. Qed.

Lemma digit_host l : Forall (fun c => is_digit c = true) l -> Forall (fun c => host_char c = true) l.
Proof. intros H. eapply Forall_impl; [exact H|]. unfold host_char. by intros c ->. Qed.

Lemma digit_radix l :
  Forall (fun c => is_digit c = true) l -> Forall (fun c => is_Some (radix_digit 10 c)) l.
Proof.
  intros H. eapply Forall_impl; [exact H|]. intros c Hc. unfold radix_digit. change (in_range 48 57 c) with (is_digit c).
  rewrite Hc. unfold is_digit, in_range in Hc. apply andb_true_iff in Hc as [H1%Z.leb_le H2%Z.leb_le].
  destruct (Z.ltb_spec (char_code c - 48) 10); [by eexists|lia].
Qed.

Lemma quad_host a b c d :
  octet a -> octet b -> octet c -> octet d -> Forall (fun x => host_char x = true) (quad a b c d).
Proof.
  intros (Ha & _)%octet_text_digits (Hb & _)%octet_text_digits (Hc & _)%octet_text_digits
    (Hd & _)%octet_text_digits. unfold quad.
  repeat (apply Forall_app; split; [by apply digit_host|constructor; [reflexivity|]]). by apply digit_host.
Qed.

Lemma quad_head a b c d : octet a -> exists x l, quad a b c d = x :: l /\ is_digit x = true.
Proof.
  intros (Ha & Hne & _)%octet_text_digits. unfold quad. destruct (octet_text a) as [|x l]; [done|].
  apply Forall_inv in Ha. by eexists x, _.
Qed.

(** *** Texts of digits and dots survive normalisation *)

Lemma host_char_plain c : host_char c = true -> lower_char c = c /\ is_space c = false /\
  c <> "["%char /\ c <> "]"%char /\ c <> "%"%char.
Proof.
  destruct c as [[] [] [] [] [] [] [] []]; intros Hc; vm_compute in Hc; try discriminate Hc;
    (split_and!; [reflexivity|reflexivity|discriminate..]).
Qed.

Section HostText.
Context (l : list ascii) (Hl : Forall (fun x => host_char x = true) l).
Notation text := (String.string_of_list_ascii l).

Lemma host_lower : to_lower text = text.
Proof.
  unfold to_lower. rewrite String.list_ascii_of_string_of_list_ascii. f_equal.
  rewrite <- (list_fmap_id l) at 2. apply list_fmap_ext. intros i x Hx. simpl.
  eapply Forall_lookup_1 in Hl; [|done]. by apply host_char_plain in Hl as (-> & _).
Qed.

Lemma host_trim : trim text = text.
Proof.
  apply trim_plain. eapply Forall_impl; [exact Hl|]. intros x Hx. by apply host_char_plain in Hx as (_ & ? & _).
Qed.

Lemma before_absent c (k : list ascii) : c ∉ k -> before c k = k.
Proof.
  induction k as [|x k IH]; simpl; [done|]. intros [Hne Hk]%not_elem_of_cons.
  destruct (Ascii.eqb_spec x c); [congruence|]. by rewrite IH.
Qed.

Lemma host_strip : stripIpv6Wrapper text = l.
Proof.
  unfold stripIpv6Wrapper, lower_trim. rewrite host_lower, host_trim. unfold chars.
  rewrite String.list_ascii_of_string_of_list_ascii.
  assert (Hx : forall x, x ∈ l -> x <> "["%char /\ x <> "]"%char /\ x <> "%"%char).
  { intros x Hx. rewrite Forall_forall in Hl. specialize (Hl x Hx).
    by apply host_char_plain in Hl as (_ & _ & ?). }
  assert (H1 : match l with "["%char :: r => r | _ => l end = l).
  { destruct l as [|x k]; [done|]. destruct (Hx x) as [Hne _]; [by left|].
    destruct x as [[] [] [] [] [] [] [] []]; congruence. }
  rewrite H1. unfold drop_last. destruct (last l) as [x|] eqn:E.
  - apply last_Some in E as [k E]. destruct (Hx x) as (_ & Hne & _); [rewrite E; set_solver|].
    destruct (Ascii.eqb_spec x "]"%char); [done|]. apply before_absent. intros H%Hx. tauto.
  - apply before_absent. intros H%Hx. tauto.
Qed.

Lemma starts_with_Forall (P : ascii -> Prop) (w k : list ascii) :
  starts_with w k = true -> Forall P k -> Forall P w.
Proof.
  revert k. induction w as [|x w IH]; intros [|y k]; try done; simpl.
  intros [->%Ascii.eqb_eq Hw]%andb_true_iff [Hy Hk]%Forall_cons. constructor; eauto.
Qed.

(** No prefix with a character outside the class matches. *)
Lemma host_prefix w : forallb host_char (chars w) = false -> prefix w l = false.
Proof.
  intros Hw. apply not_true_iff_false. intros Hp. apply not_true_iff_false in Hw. apply Hw.
  apply forallb_forall. intros x Hx. eapply starts_with_Forall in Hp; [|exact Hl].
  rewrite Forall_forall in Hp. apply Hp. by apply list_elem_of_In.
Qed.

Lemma host_differs w : forallb host_char (chars w) = false -> l <> chars w.
Proof.
  intros Hw ->. apply not_true_iff_false in Hw. apply Hw. apply forallb_forall. intros x Hx.
  rewrite Forall_forall in Hl. apply Hl. by apply list_elem_of_In.
Qed.

Lemma host_not_ipv6 : isPrivateIpv6 text = false.
Proof.
  unfold isPrivateIpv6. rewrite host_strip. rewrite !host_prefix by reflexivity.
  by rewrite !bool_decide_eq_false_2 by (apply host_differs; reflexivity).
Qed.

Lemma host_ipv4 : parseIpv4Like text = plain_octets l.
Proof. unfold parseIpv4Like. rewrite host_strip. by rewrite !host_prefix by reflexivity. Qed.

End HostText.

Lemma split_on_absent c l : c ∉ l -> split_on c l = [l].
Proof.
  induction l as [|x l IH]; simpl; [done|]. intros [Hne Hl]%not_elem_of_cons.
  destruct (Ascii.eqb_spec x c); [congruence|]. by rewrite IH.
Qed.

Lemma split_on_app c l r : c ∉ l -> split_on c (l ++ c :: r) = l :: split_on c r.
Proof.
  induction l as [|x l IH]; simpl; [by rewrite Ascii.eqb_refl|]. intros [Hne Hl]%not_elem_of_cons.
  destruct (Ascii.eqb_spec x c); [congruence|]. by rewrite IH.
Qed.

Lemma quad_split a b c d :
  octet a -> octet b -> octet c -> octet d ->
  split_on "."%char (quad a b c d) = [octet_text a; octet_text b; octet_text c; octet_text d].
Proof.
  intros (Ha & _)%octet_text_digits (Hb & _)%octet_text_digits (Hc & _)%octet_text_digits
    (Hd & _)%octet_text_digits. unfold quad.
  rewrite !split_on_app, split_on_absent by (by apply digit_not_dot). done.
Qed.

Lemma octet_ok_Some n : octet n -> octet_ok (Some n) = true.
Proof. intros [H1 H2]. simpl. apply andb_true_iff. split; by apply Z.leb_le. Qed.

Lemma quad_octets a b c d :
  octet a -> octet b -> octet c -> octet d -> dotted_octets (quad a b c d) = Some (a, b, c, d).
Proof.
  intros Ha Hb Hc Hd. unfold dotted_octets. rewrite quad_split by done. simpl.
  destruct (octet_text_digits a Ha) as (_ & _ & ->). destruct (octet_text_digits b Hb) as (_ & _ & ->).
  destruct (octet_text_digits c Hc) as (_ & _ & ->). destruct (octet_text_digits d Hd) as (_ & _ & ->).
  by rewrite !octet_ok_Some.
Qed.

Lemma quad_not_number a b c d :
  octet a -> octet b -> octet c -> octet d -> js_number (dotted a b c d) = NaN.
Proof.
  intros Ha Hb Hc Hd. pose proof (quad_host a b c d Ha Hb Hc Hd) as Hh.
  assert (Hdec : decimal_literal (quad a b c d) = NaN).
  { destruct (octet_text_digits a Ha) as (H1 & Hne & _). destruct (octet_text_digits b Hb) as (H2 & _ & _).
    apply two_dots_nan; [done|by apply digit_radix..]. }
  unfold js_number, dotted. rewrite (host_trim _ Hh). unfold chars.
  rewrite String.list_ascii_of_string_of_list_ascii.
  destruct (quad_head a b c d Ha) as (x & l & E & Hx). rewrite E in *.
  destruct l as [|y l].
  - by destruct x as [[] [] [] [] [] [] [] []].
  - assert (Hy : one_of "xX" y = false /\ one_of "oO" y = false /\ one_of "bB" y = false).
    { apply Forall_inv_tail, Forall_inv in Hh.
      destruct y as [[] [] [] [] [] [] [] []]; vm_compute in Hh; try discriminate Hh; repeat split. }
    destruct Hy as (-> & -> & ->). by destruct x as [[] [] [] [] [] [] [] []].
Qed.

(** ** Reference: address blocks *)

Definition address (a b c d : Z) : Z := a * 2 ^ 24 + b * 2 ^ 16 + c * 2 ^ 8 + d.

(** [v] lies in the block [base/len]. *)
Definition in_block (v : Z) (block : Z * Z) : bool :=
  Z.shiftr v (32 - block.2) =? Z.shiftr block.1 (32 - block.2).

(** Loopback, the three private ranges, link-local (metadata) and 0.0.0.0. *)
Definition internal_blocks : list (Z * Z) :=
  [(address 127 0 0 0, 8); (address 10 0 0 0, 8); (address 172 16 0 0, 12);
   (address 192 168 0 0, 16); (address 169 254 0 0, 16); (address 0 0 0 0, 32)].

Lemma block_cases a b c d :
  octet a -> octet b -> octet c -> octet d ->
  existsb (in_block (address a b c d)) internal_blocks =
  isPrivateIpv4 (a, b, c, d) || ((a =? 0) && (b =? 0) && (c =? 0) && (d =? 0)).
Proof.
  unfold octet. intros Ha Hb Hc Hd. set (v := address a b c d).
  assert (H24 : Z.shiftr v 24 = a).
  { unfold v, address. rewrite Z.shiftr_div_pow2 by lia. symmetry. apply (Z.div_unique _ _ a (b * 2 ^ 16 + c * 2 ^ 8 + d)); lia. }
  assert (H20 : Z.shiftr v 20 = a * 16 + b / 16).
  { unfold v, address. rewrite Z.shiftr_div_pow2 by lia. symmetry.
    pose proof (Z.div_mod b 16 ltac:(lia)). pose proof (Z.mod_pos_bound b 16 ltac:(lia)).
    apply (Z.div_unique _ _ _ (b mod 16 * 2 ^ 16 + c * 2 ^ 8 + d)); lia. }
  assert (H16 : Z.shiftr v 16 = a * 256 + b).
  { unfold v, address. rewrite Z.shiftr_div_pow2 by lia. symmetry. apply (Z.div_unique _ _ _ (c * 2 ^ 8 + d)); lia. }
  assert (H0 : Z.shiftr v 0 = v) by apply Z.shiftr_0_r.
  unfold internal_blocks, in_block, isPrivateIpv4. cbn [existsb fst snd].
  change (32 - 8) with 24. change (32 - 12) with 20. change (32 - 16) with 16. change (32 - 32) with 0.
  rewrite H24, H20, H16, H0. unfold v, address.
  pose proof (Z.div_mod b 16 ltac:(lia)). pose proof (Z.mod_pos_bound b 16 ltac:(lia)).
  apply eq_true_iff_eq. rewrite !orb_true_iff, !andb_true_iff, !Z.eqb_eq, !Z.leb_le.
  change (Z.shiftr (127 * 2 ^ 24 + 0 * 2 ^ 16 + 0 * 2 ^ 8 + 0) 24) with 127.
  change (Z.shiftr (10 * 2 ^ 24 + 0 * 2 ^ 16 + 0 * 2 ^ 8 + 0) 24) with 10.
  change (Z.shiftr (172 * 2 ^ 24 + 16 * 2 ^ 16 + 0 * 2 ^ 8 + 0) 20) with (172 * 16 + 1).
  change (Z.shiftr (192 * 2 ^ 24 + 168 * 2 ^ 16 + 0 * 2 ^ 8 + 0) 16) with (192 * 256 + 168).
  change (Z.shiftr (169 * 2 ^ 24 + 254 * 2 ^ 16 + 0 * 2 ^ 8 + 0) 16) with (169 * 256 + 254).
  change (Z.shiftr (0 * 2 ^ 24 + 0 * 2 ^ 16 + 0 * 2 ^ 8 + 0) 0) with 0. lia.
Qed.

Lemma dotted_names a b c d :
  octet a -> octet b -> octet c -> octet d ->
  bool_decide (dotted a b c d ∈ PRIVATE_HOSTNAMES) = (a =? 0) && (b =? 0) && (c =? 0) && (d =? 0).
Proof.
  intros Ha Hb Hc Hd. apply eq_true_iff_eq. rewrite bool_decide_eq_true, !andb_true_iff, !Z.eqb_eq.
  split; [|intros [[[-> ->] ->] ->]; right; right; left].
  pose proof (quad_host a b c d Ha Hb Hc Hd) as Hh.
  assert (Hch : chars (dotted a b c d) = quad a b c d)
    by apply String.list_ascii_of_string_of_list_ascii.
  unfold PRIVATE_HOSTNAMES. rewrite !elem_of_cons.
  intros [E|[E|[E|[]%not_elem_of_nil]]]; rewrite E in Hch; symmetry in Hch.
  - by apply (host_differs _ Hh) in Hch.
  - by apply (host_differs _ Hh) in Hch.
  - apply (f_equal dotted_octets) in Hch. rewrite quad_octets in Hch by done. vm_compute in Hch.
    by simplify_eq.
Qed.

Lemma safe_url_public url_host v u :
  isSafeUrl url_host v u = Some true ->
  (exists host, url_host u = Some host /\ host <> EmptyString /\ isPrivateHost host = false) \/
  (exists n, getEnv (NODE_ENV v) = Some n /\ n ∈ SSRF_BYPASS_ALLOWED_ENVS /\
             parseBoolEnv (SSRF_ALLOW_PRIVATE_HOSTS v) false = Some true).
Proof.
  unfold isSafeUrl. destruct (parseBoolEnv _ false) as [allow|]; [|done].
  destruct (allow && isSsrfBypassEnvAllowed v) eqn:E.
  - intros _. right. apply andb_true_iff in E as [-> Hn]. unfold isSsrfBypassEnvAllowed in Hn.
    destruct (getEnv (NODE_ENV v)) as [n|]; [|done]. apply bool_decide_eq_true in Hn. eauto.
  - destruct (url_host u) as [host|]; [|done]. destruct (String.eqb_spec host EmptyString); [done|].
    intros [= H%negb_true_iff]. left. eauto.
Qed.

(** ** Properties *)

(** Equivalence.  On every IPv4 address in dotted notation the host test
    decides exactly membership in the internal address blocks: loopback, the
    private ranges, link-local and 0.0.0.0. *)
Theorem private_ipv4_exact a b c d :
  octet a -> octet b -> octet c -> octet d ->
  isPrivateHost (dotted a b c d) = existsb (in_block (address a b c d)) internal_blocks.
Proof.
  intros Ha Hb Hc Hd. pose proof (quad_host a b c d Ha Hb Hc Hd) as Hh.
  rewrite block_cases by done. unfold isPrivateHost, dotted.
  rewrite (host_lower _ Hh), (host_trim _ Hh), (host_not_ipv6 _ Hh), (host_ipv4 _ Hh).
  change (String.string_of_list_ascii (quad a b c d)) with (dotted a b c d).
  rewrite dotted_names by done. unfold plain_octets.
  change (String.string_of_list_ascii (quad a b c d)) with (dotted a b c d).
  rewrite quad_not_number, quad_octets by done. simpl to_int. cbv iota.
  rewrite orb_false_r. apply orb_comm.
Qed.

(** Safety.  A URL is found safe only when its host was parsed and is not
    internal, or in an environment that is explicitly named development, test
    or staging and sets the opt-out; an unset or different NODE_ENV never
    honours the opt-out. *)
Theorem safe_url_sound url_host v u :
  isSafeUrl url_host v u = Some true ->
  (exists host, url_host u = Some host /\ host <> EmptyString /\ isPrivateHost host = false) \/
  (exists n, getEnv (NODE_ENV v) = Some n /\ n ∈ SSRF_BYPASS_ALLOWED_ENVS /\
             parseBoolEnv (SSRF_ALLOW_PRIVATE_HOSTS v) false = Some true).
Proof. apply safe_url_public. Qed.

(** Gaps.  In production the guard accepts the unspecified IPv6 address and
    the fully qualified name of the loopback host, which both reach the local
    machine. *)
Theorem ssrf_gaps url_host u :
  url_host u = Some "[::]"%string \/ url_host u = Some "localhost."%string ->
  isSafeUrl url_host {| NODE_ENV := Some "production"%string; SSRF_ALLOW_PRIVATE_HOSTS := None |} u = Some true.
Proof. intros [E|E]; unfold isSafeUrl; simpl; rewrite E; vm_compute; reflexivity. Qed.

(** A public name that begins with "fc" or "fd" is refused as if it were a
    unique-local IPv6 address. *)
Example public_names_blocked :
  isPrivateHost "fcbarcelona.com" = true /\ isPrivateHost "fdic.gov" = true.
Proof. by vm_compute. Qed.

Lemma private_ipv4_exact_witness :
  isPrivateHost (dotted 172 31 0 9) = true /\ isPrivateHost (dotted 172 32 0 9) = false.
Proof.
  split.
  - rewrite (private_ipv4_exact 172 31 0 9) by (unfold octet; lia). vm_compute. reflexivity.
  - rewrite (private_ipv4_exact 172 32 0 9) by (unfold octet; lia). vm_compute. reflexivity.
Defined.

Lemma safe_url_sound_witness :
  exists host, Some "example.com"%string = Some host /\ isPrivateHost host = false.
Proof.
  destruct (safe_url_sound (fun _ => Some "example.com"%string)
    {| NODE_ENV := Some "production"%string; SSRF_ALLOW_PRIVATE_HOSTS := Some "true"%string |} "https://example.com/")
    as [(host & H1 & _ & H2)|(n & Hn & Hin & _)].
  - vm_compute. reflexivity.
  - exists host. split; [exact H1|exact H2].
  - vm_compute in Hn. injection Hn as <-. unfold SSRF_BYPASS_ALLOWED_ENVS in Hin. rewrite !elem_of_cons in Hin.
    destruct Hin as [E|[E|[E|[]%not_elem_of_nil]]]; discriminate E.
Defined.

Lemma ssrf_gaps_witness :
  isSafeUrl (fun _ => Some "[::]"%string)
    {| NODE_ENV := Some "production"%string; SSRF_ALLOW_PRIVATE_HOSTS := None |} "http://[::]/" = Some true.
Proof. apply ssrf_gaps. left. reflexivity. Defined.

End Ssrf.
