(* ===== verification/Cursor.v ===== *)
(** * Cursors: src/contracts/cursor.repository.ts (pagination part)

    The opaque cursor is base64url(UTF-8(JSON.stringify(position))).  All three
    layers are modelled: a JSON printer for the position and a JSON parser for
    arbitrary text, UTF-8 for code units up to U+00FF (the range of [string]
    here; text that names other characters is outside the model and counts as
    undecodable), and base64url on 6-bit groups with the decoder's tolerance for
    a truncated last group.  [date_parses s] is [!isNaN(Date.parse(s))].  *)

From stdpp Require Import prelude strings.
From Stdlib Require Import ZArith Lia Ascii.
From S2P Require Import Prelude JsString Regex.
Open Scope Z_scope.

Definition of_chars (l : list ascii) : string := String.string_of_list_ascii l.

Module Cursor.

Definition CURSOR_MAX_LIMIT : Z := 100.
Definition CURSOR_DEFAULT_LIMIT : Z := 20.
Definition CURSOR_MAX_LENGTH : nat := 256.

Record CursorPosition : Type := { createdAt : string; id : string }.

(** ** JSON *)

Inductive json : Type :=
| JNull
| JBool (b : bool)
| JNum (lexeme : list ascii)
| JStr (s : list ascii)
| JArr (l : list json)
| JObj (fields : list (list ascii * json)).

Definition dquote : ascii := ascii_of_nat 34.
Definition backslash : ascii := ascii_of_nat 92.

Definition hex_digit (n : nat) : ascii :=
  ascii_of_nat (if bool_decide (n < 10)%nat then 48 + n else 87 + n).

(** How [JSON.stringify] writes one character of a string. *)
Definition escape_char (c : ascii) : list ascii :=
  let n := nat_of_ascii c in
  if bool_decide (c = dquote) then [backslash; dquote]
  else if bool_decide (c = backslash) then [backslash; backslash]
  else if bool_decide (n = 8%nat) then [backslash; "b"%char]
  else if bool_decide (n = 9%nat) then [backslash; "t"%char]
  else if bool_decide (n = 10%nat) then [backslash; "n"%char]
  else if bool_decide (n = 12%nat) then [backslash; "f"%char]
  else if bool_decide (n = 13%nat) then [backslash; "r"%char]
  else if bool_decide (n < 32)%nat
  then [backslash; "u"%char; "0"%char; "0"%char; hex_digit (n / 16); hex_digit (n mod 16)]
  else [c].

Definition print_string (l : list ascii) : list ascii :=
  dquote :: flat_map escape_char l ++ [dquote].

(** [JSON.stringify({ createdAt, id })] *)
Definition stringify (p : CursorPosition) : list ascii :=
  "{"%char :: print_string (chars "createdAt") ++ ":"%char :: print_string (chars (createdAt p)) ++
  ","%char :: print_string (chars "id") ++ ":"%char :: print_string (chars (id p)) ++ ["}"%char].

Definition hex_value (c : ascii) : option nat :=
  let n := nat_of_ascii c in
  if bool_decide (48 ≤ n ∧ n ≤ 57)%nat then Some (n - 48)%nat
  else if bool_decide (97 ≤ n ∧ n ≤ 102)%nat then Some (n - 87)%nat
  else if bool_decide (65 ≤ n ∧ n ≤ 70)%nat then Some (n - 55)%nat
  else None.

Definition hex4 (a b c d : ascii) : option nat :=
  match hex_value a, hex_value b, hex_value c, hex_value d with
  | Some a, Some b, Some c, Some d => Some (((a * 16 + b) * 16 + c) * 16 + d)%nat
  | _, _, _, _ => None
  end.

Definition simple_escape (c : ascii) : option ascii :=
  if bool_decide (c = dquote) then Some dquote
  else if bool_decide (c = backslash) then Some backslash
  else if bool_decide (c = "/"%char) then Some "/"%char
  else if bool_decide (c = "b"%char) then Some (ascii_of_nat 8)
  else if bool_decide (c = "t"%char) then Some (ascii_of_nat 9)
  else if bool_decide (c = "n"%char) then Some (ascii_of_nat 10)
  else if bool_decide (c = "f"%char) then Some (ascii_of_nat 12)
  else if bool_decide (c = "r"%char) then Some (ascii_of_nat 13)
  else None.

(** The body of a string literal up to the closing quote, and the rest. *)
Fixpoint parse_string_body (l : list ascii) : option (list ascii * list ascii) :=
  match l with
  | [] => None
  | c :: l' =>
      if bool_decide (c = dquote) then Some ([], l')
      else if bool_decide (c = backslash) then
        match l' with
        | "u"%char :: a :: b :: x :: y :: l'' =>
            match hex4 a b x y with
            | Some n =>
                if bool_decide (n < 256)%nat
                then match parse_string_body l'' with
                     | Some (s, r) => Some (ascii_of_nat n :: s, r)
                     | None => None
                     end
                else None
            | None => None
            end
        | e :: l'' =>
            match simple_escape e, parse_string_body l'' with
            | Some a, Some (s, r) => Some (a :: s, r)
            | _, _ => None
            end
        | [] => None
        end
      else if bool_decide (nat_of_ascii c < 32)%nat then None
      else match parse_string_body l' with
           | Some (s, r) => Some (c :: s, r)
           | None => None
           end
  end.

(** JSON white space: space, tab, line feed, carriage return. *)
Definition json_space (c : ascii) : bool :=
  let n := char_code c in (n =? 32) || (n =? 9) || (n =? 10) || (n =? 13).

Fixpoint skip_ws (l : list ascii) : list ascii :=
  match l with
  | [] => []
  | c :: l' => if json_space c then skip_ws l' else l
  end.

Fixpoint span (p : ascii -> bool) (l : list ascii) : list ascii * list ascii :=
  match l with
  | [] => ([], [])
  | c :: l' => if p c then let '(a, b) := span p l' in (c :: a, b) else ([], l)
  end.

(** An optional sign, an integer part without leading zeros, an optional
    fraction and an optional exponent. *)
Definition opt (r : regex) : regex := Alt Eps r.
Definition number_re : regex :=
  Cat (opt (Class (is_char "-")))
    (Cat (Alt (Class (is_char "0"))
              (Cat (Class (fun c => is_digit c && negb (is_char "0" c))) (Star (Class is_digit))))
      (Cat (opt (Cat (Class (is_char ".")) (Plus (Class is_digit))))
           (opt (Cat (Class (one_of "eE")) (Cat (opt (Class (one_of "+-"))) (Plus (Class is_digit))))))).

Definition number_char (c : ascii) : bool := is_digit c || one_of "+-.eE" c.

Fixpoint strip_prefix (w l : list ascii) : option (list ascii) :=
  match w, l with
  | [], _ => Some l
  | a :: w', b :: l' => if bool_decide (a = b) then strip_prefix w' l' else None
  | _ :: _, [] => None
  end.

Definition keyword (w : string) (v : json) (l : list ascii) : option (json * list ascii) :=
  (fun r => (v, r)) <$> strip_prefix (chars w) l.

(** One JSON value after white space; [fuel] bounds the nesting and the number
    of elements, and the length of the text is enough. *)
Fixpoint parse_value (fuel : nat) (l : list ascii) : option (json * list ascii) :=
  match fuel with
  | O => None
  | S fuel =>
      match skip_ws l with
      | [] => None
      | c :: l' =>
          if bool_decide (c = dquote) then
            match parse_string_body l' with
            | Some (s, r) => Some (JStr s, r)
            | None => None
            end
          else if bool_decide (c = "{"%char) then
            match skip_ws l' with
            | "}"%char :: r => Some (JObj [], r)
            | _ => (fun '(fs, r) => (JObj fs, r)) <$> parse_members fuel l'
            end
          else if bool_decide (c = "["%char) then
            match skip_ws l' with
            | "]"%char :: r => Some (JArr [], r)
            | _ => (fun '(vs, r) => (JArr vs, r)) <$> parse_elements fuel l'
            end
          else if bool_decide (c = "t"%char) then keyword "true" (JBool true) (c :: l')
          else if bool_decide (c = "f"%char) then keyword "false" (JBool false) (c :: l')
          else if bool_decide (c = "n"%char) then keyword "null" JNull (c :: l')
          else let '(lexeme, r) := span number_char (c :: l') in
               if re_match_list number_re lexeme then Some (JNum lexeme, r) else None
      end
  end
with parse_members (fuel : nat) (l : list ascii) : option (list (list ascii * json) * list ascii) :=
  match fuel with
  | O => None
  | S fuel =>
      match skip_ws l with
      | q :: l1 =>
          if bool_decide (q = dquote) then
            match parse_string_body l1 with
            | Some (k, l2) =>
                match skip_ws l2 with
                | ":"%char :: l3 =>
                    match parse_value fuel l3 with
                    | Some (v, l4) =>
                        match skip_ws l4 with
                        | "}"%char :: r => Some ([(k, v)], r)
                        | ","%char :: l5 =>
                            (fun '(fs, r) => ((k, v) :: fs, r)) <$> parse_members fuel l5
                        | _ => None
                        end
                    | None => None
                    end
                | _ => None
                end
            | None => None
            end
          else None
      | [] => None
      end
  end
with parse_elements (fuel : nat) (l : list ascii) : option (list json * list ascii) :=
  match fuel with
  | O => None
  | S fuel =>
      match parse_value fuel l with
      | Some (v, l1) =>
          match skip_ws l1 with
          | "]"%char :: r => Some ([v], r)
          | ","%char :: l2 => (fun '(vs, r) => (v :: vs, r)) <$> parse_elements fuel l2
          | _ => None
          end
      | None => None
      end
  end.

(** [JSON.parse]: one value and nothing but white space after it. *)
Definition json_parse (l : list ascii) : option json :=
  match parse_value (S (S (length l))) l with
  | Some (v, r) => match skip_ws r with [] => Some v | _ => None end
  | None => None
  end.

(** Property access on a parsed object: the last duplicate wins. *)
Fixpoint json_field (k : list ascii) (fs : list (list ascii * json)) : option json :=
  match fs with
  | [] => None
  | (k', v) :: fs' =>
      match json_field k fs' with
      | Some v' => Some v'
      | None => if bool_decide (k' = k) then Some v else None
      end
  end.

(** ** UTF-8 *)

Definition utf8_char (c : ascii) : list ascii :=
  let n := nat_of_ascii c in
  if bool_decide (n < 128)%nat then [c]
  else [ascii_of_nat (192 + n / 64); ascii_of_nat (128 + n mod 64)].

Definition utf8_encode (l : list ascii) : list ascii := flat_map utf8_char l.

Fixpoint utf8_decode (l : list ascii) : option (list ascii) :=
  match l with
  | [] => Some []
  | c :: l' =>
      let n := nat_of_ascii c in
      if bool_decide (n < 128)%nat then cons c <$> utf8_decode l'
      else match l' with
           | d :: l'' =>
               let m := nat_of_ascii d in
               if bool_decide (194 ≤ n ∧ n ≤ 195)%nat && bool_decide (128 ≤ m ∧ m < 192)%nat
               then cons (ascii_of_nat ((n - 192) * 64 + (m - 128))%nat) <$> utf8_decode l''
               else None
           | [] => None
           end
  end.

(** ** base64url *)

Definition alphabet : list ascii :=
  chars "ABCDEFGHIJKLMNOPQRSTUVWXYZabcdefghijklmnopqrstuvwxyz0123456789-_".

(** Six bits, most significant first. *)
Definition sextet : Type := bool * bool * bool * bool * bool * bool.

Definition bit (b : bool) : nat := if b then 1%nat else 0%nat.

Definition sextet_value (x : sextet) : nat :=
  let '(a, b, c, d, e, f) := x in
  (((((bit a * 2 + bit b) * 2 + bit c) * 2 + bit d) * 2 + bit e) * 2 + bit f)%nat.

Definition sextet_char (x : sextet) : ascii := nth (sextet_value x) alphabet "A"%char.

Fixpoint index_of (c : ascii) (l : list ascii) : option nat :=
  match l with
  | [] => None
  | a :: l' => if bool_decide (a = c) then Some 0%nat else S <$> index_of c l'
  end.

Definition char_sextet (c : ascii) : option sextet :=
  n ← index_of c alphabet;
  Some (Nat.testbit n 5, Nat.testbit n 4, Nat.testbit n 3,
        Nat.testbit n 2, Nat.testbit n 1, Nat.testbit n 0).

(** [Buffer.toString('base64url')]: no padding. *)
Fixpoint b64_encode (l : list ascii) : list ascii :=
  match l with
  | [] => []
  | [Ascii a0 a1 a2 a3 a4 a5 a6 a7] =>
      [sextet_char (a7, a6, a5, a4, a3, a2); sextet_char (a1, a0, false, false, false, false)]
  | [Ascii a0 a1 a2 a3 a4 a5 a6 a7; Ascii b0 b1 b2 b3 b4 b5 b6 b7] =>
      [sextet_char (a7, a6, a5, a4, a3, a2); sextet_char (a1, a0, b7, b6, b5, b4);
       sextet_char (b3, b2, b1, b0, false, false)]
  | Ascii a0 a1 a2 a3 a4 a5 a6 a7 :: Ascii b0 b1 b2 b3 b4 b5 b6 b7
      :: Ascii c0 c1 c2 c3 c4 c5 c6 c7 :: l' =>
      sextet_char (a7, a6, a5, a4, a3, a2) :: sextet_char (a1, a0, b7, b6, b5, b4)
      :: sextet_char (b3, b2, b1, b0, c7, c6) :: sextet_char (c5, c4, c3, c2, c1, c0)
      :: b64_encode l'
  end.

(** [Buffer.from(s, 'base64url')] on text of the alphabet: whole bytes only,
    left-over bits are dropped. *)
Fixpoint b64_bytes (l : list sextet) : list ascii :=
  match l with
  | (a7, a6, a5, a4, a3, a2) :: (a1, a0, b7, b6, b5, b4) :: l1 =>
      Ascii a0 a1 a2 a3 a4 a5 a6 a7 ::
      match l1 with
      | (b3, b2, b1, b0, c7, c6) :: l2 =>
          Ascii b0 b1 b2 b3 b4 b5 b6 b7 ::
          match l2 with
          | (c5, c4, c3, c2, c1, c0) :: l3 => Ascii c0 c1 c2 c3 c4 c5 c6 c7 :: b64_bytes l3
          | [] => []
          end
      | [] => []
      end
  | _ => []
  end.

Definition b64_decode (l : list ascii) : list ascii := b64_bytes (omap char_sextet l).

(** ** Cursor operations *)

Inductive cursor_error : Type :=
| malformed | cannot_decode | missing_required_fields | invalid_createdAt.

Definition cursor_char (c : ascii) : bool := is_alpha c || is_digit c || one_of "_-" c.

Definition encodeCursor (p : CursorPosition) : string :=
  of_chars (b64_encode (utf8_encode (stringify p))).

Section Decode.
Context (date_parses : string -> bool).

Definition decodeCursor (cursor : string) : result cursor_error CursorPosition :=
  if bool_decide (CURSOR_MAX_LENGTH < length (chars cursor))%nat then Err malformed
  else if negb (re_match (Plus (Class cursor_char)) cursor) then Err malformed
  else match utf8_decode (b64_decode (chars cursor)) ≫= json_parse with
       | None => Err cannot_decode
       | Some (JObj fs) =>
           match json_field (chars "createdAt") fs, json_field (chars "id") fs with
           | Some (JStr c), Some (JStr i) =>
               if date_parses (of_chars c)
               then Ok {| createdAt := of_chars c; id := of_chars i |}
               else Err invalid_createdAt
           | _, _ => Err missing_required_fields
           end
       | Some _ => Err missing_required_fields
       end.

(** [resolveCursorQueryParam]: the raw query value is absent, a string, or
    something else (an array or object of a repeated parameter). *)
Inductive raw_query : Type := QAbsent | QString (s : string) | QOther.

Definition resolveCursorQueryParam (raw : raw_query) : result cursor_error (option string) :=
  match raw with
  | QString s =>
      if bool_decide (s = EmptyString) then Ok None
      else match decodeCursor s with
           | Err e => Err e
           | Ok _ => Ok (Some s)
           end
  | _ => Ok None
  end.

End Decode.

(** [parseLimit]: [raw] is absent (undefined, null or the empty string), a
    string or an integer number below 10^21 (which prints as its digits). *)
Inductive limit_error : Type := not_positive | exceeds_maximum (n : Z).
Inductive raw_limit : Type := LAbsent | LString (s : string) | LNumber (n : Z).

Definition parseLimit (raw : raw_limit) : result limit_error Z :=
  let check (n : option Z) :=
    match n with
    | None => Err not_positive
    | Some n =>
        if bool_decide (2 ^ 1024 ≤ n) || bool_decide (n < 1) then Err not_positive
        else if bool_decide (n > CURSOR_MAX_LIMIT) then Err (exceeds_maximum n)
        else Ok n
    end in
  match raw with
  | LAbsent => Ok CURSOR_DEFAULT_LIMIT
  | LString s => if bool_decide (s = EmptyString) then Ok CURSOR_DEFAULT_LIMIT else check (parse_int s)
  | LNumber n => check (Some n)
  end.

(** ** Lemmas *)

Lemma chars_of_chars l : chars (of_chars l) = l.
Proof. apply String.list_ascii_of_string_of_list_ascii. Qed.

Lemma of_chars_chars s : of_chars (chars s) = s.
Proof. apply String.string_of_list_ascii_of_string. Qed.

Lemma utf8_char_decode c r : utf8_decode (utf8_char c ++ r) = cons c <$> utf8_decode r.
Proof. destruct c as [[] [] [] [] [] [] [] []]; reflexivity. Qed.

Lemma utf8_roundtrip l : utf8_decode (utf8_encode l) = Some l.
Proof.
  unfold utf8_encode. induction l as [|c l IH]; [done|].
  cbn [flat_map]. by rewrite utf8_char_decode, IH.
Qed.

Lemma char_sextet_char x : char_sextet (sextet_char x) = Some x.
Proof. destruct x as [[[[[[] []] []] []] []] []]; vm_compute; reflexivity. Qed.

Lemma cursor_sextet_char x : cursor_char (sextet_char x) = true.
Proof. destruct x as [[[[[[] []] []] []] []] []]; vm_compute; reflexivity. Qed.

(** Induction on bytes three at a time. *)
Lemma triples_ind (P : list ascii -> Prop) :
  P [] -> (forall a, P [a]) -> (forall a b, P [a; b]) ->
  (forall a b c l, P l -> P (a :: b :: c :: l)) -> forall l, P l.
Proof.
  intros H0 H1 H2 H3. fix IH 1. intros [|a [|b [|c l]]].
  - apply H0.
  - apply H1.
  - apply H2.
  - apply H3, IH.
Qed.

Lemma b64_roundtrip l : b64_decode (b64_encode l) = l.
Proof.
  unfold b64_decode. induction l as [|a|a b|a b c l IH] using triples_ind.
  - done.
  - destruct a. cbn [b64_encode omap list_omap]. by rewrite !char_sextet_char.
  - destruct a, b. cbn [b64_encode omap list_omap]. by rewrite !char_sextet_char.
  - destruct a, b, c. cbn [b64_encode omap list_omap]. rewrite !char_sextet_char.
    cbn [b64_bytes]. repeat f_equal. exact IH.
Qed.

Lemma b64_encode_charset l : Forall (fun c => cursor_char c = true) (b64_encode l).
Proof.
  induction l as [|a|a b|a b c l IH] using triples_ind.
  - constructor.
  - destruct a. repeat constructor; apply cursor_sextet_char.
  - destruct a, b. repeat constructor; apply cursor_sextet_char.
  - destruct a, b, c. cbn [b64_encode]. repeat (constructor; [apply cursor_sextet_char|]). exact IH.
Qed.

Lemma b64_encode_length l : (3 * length (b64_encode l) ≤ 4 * length l + 2)%nat.
Proof.
  induction l as [|a|a b|a b c l IH] using triples_ind; [cbn; lia| | |].
  - destruct a. cbn. lia.
  - destruct a, b. cbn. lia.
  - destruct a, b, c. cbn [b64_encode length]. lia.
Qed.

Lemma escape_char_parse c l :
  parse_string_body (escape_char c ++ l) =
  match parse_string_body l with Some (s, r) => Some (c :: s, r) | None => None end.
Proof. destruct c as [[] [] [] [] [] [] [] []]; reflexivity. Qed.

(** A printed string literal reads back as the string. *)
Lemma parse_print_string l r :
  parse_string_body (flat_map escape_char l ++ dquote :: r) = Some (l, r).
Proof.
  induction l as [|c l IH]; [done|].
  cbn [flat_map]. rewrite <- app_assoc, escape_char_parse, IH. done.
Qed.

Lemma parse_value_string fuel l r :
  parse_value (S fuel) (dquote :: flat_map escape_char l ++ dquote :: r) = Some (JStr l, r).
Proof.
  cbn [parse_value skip_ws]. change (json_space dquote) with false. cbn match.
  rewrite bool_decide_eq_true_2 by done. by rewrite parse_print_string.
Qed.

Lemma print_string_app l r :
  print_string l ++ r = dquote :: flat_map escape_char l ++ dquote :: r.
Proof. unfold print_string. by rewrite <- app_comm_cons, <- app_assoc. Qed.

(** One member of an object of strings, before a closing brace or a comma. *)
Lemma parse_member_last f k v r :
  parse_members (S (S f)) (print_string k ++ ":"%char :: print_string v ++ "}"%char :: r) =
  Some ([(k, JStr v)], r).
Proof.
  rewrite !print_string_app. cbn [parse_members skip_ws].
  change (json_space dquote) with false. cbn match.
  rewrite bool_decide_eq_true_2, parse_print_string by done. cbn match.
  change (skip_ws (":"%char :: ?l)) with (":"%char :: l). cbn match.
  rewrite parse_value_string. done.
Qed.

Lemma parse_member_more f k v r :
  parse_members (S (S f)) (print_string k ++ ":"%char :: print_string v ++ ","%char :: r) =
  (fun '(fs, r) => ((k, JStr v) :: fs, r)) <$> parse_members (S f) r.
Proof.
  rewrite !print_string_app. cbn [parse_members skip_ws].
  change (json_space dquote) with false. cbn match.
  rewrite bool_decide_eq_true_2, parse_print_string by done. cbn match.
  change (skip_ws (":"%char :: ?l)) with (":"%char :: l). cbn match.
  rewrite parse_value_string. done.
Qed.

(** An object of two strings. *)
Lemma json_parse_pair k1 v1 k2 v2 :
  json_parse ("{"%char :: print_string k1 ++ ":"%char :: print_string v1 ++
    ","%char :: print_string k2 ++ ":"%char :: print_string v2 ++ ["}"%char]) =
  Some (JObj [(k1, JStr v1); (k2, JStr v2)]).
Proof.
  unfold json_parse. set (members := print_string k1 ++ _).
  assert (Hm : forall f, parse_members (S (S (S f))) members = Some ([(k1, JStr v1); (k2, JStr v2)], [])).
  { intros f. unfold members. rewrite parse_member_more, parse_member_last. done. }
  assert (Hhd : exists a l, members = dquote :: a :: l).
  { unfold members. rewrite print_string_app. destruct (flat_map escape_char k1); by repeat eexists. }
  destruct Hhd as (a & l & Hl). rewrite Hl in *. cbn [length].
  change (parse_value (S (S (S (S (S (length l)))))) ("{"%char :: dquote :: a :: l))
    with ((fun '(fs, r) => (JObj fs, r)) <$> parse_members (S (S (S (S (length l))))) (dquote :: a :: l)).
  by rewrite Hm.
Qed.

Lemma json_parse_stringify p :
  json_parse (stringify p) =
  Some (JObj [(chars "createdAt", JStr (chars (createdAt p))); (chars "id", JStr (chars (id p)))]).
Proof. apply json_parse_pair. Qed.

(** Text that the cursor carries without escapes: printable ASCII without
    quotes and backslashes, as timestamps and UUIDs are. *)
Definition plain_char (c : ascii) : bool :=
  in_range 32 126 c && negb (bool_decide (c = dquote)) && negb (bool_decide (c = backslash)).
Definition plain (s : string) : bool := forallb plain_char (chars s).

Lemma plain_char_bytes c : plain_char c = true -> flat_map utf8_char (escape_char c) = [c].
Proof. destruct c as [[] [] [] [] [] [] [] []]; vm_compute; intros; congruence. Qed.

Lemma utf8_encode_app l1 l2 : utf8_encode (l1 ++ l2) = utf8_encode l1 ++ utf8_encode l2.
Proof. apply flat_map_app. Qed.

Lemma utf8_encode_cons c l : utf8_char c = [c] -> utf8_encode (c :: l) = c :: utf8_encode l.
Proof. intros Hc. unfold utf8_encode. cbn [flat_map]. by rewrite Hc. Qed.

Lemma plain_bytes s : plain s = true -> utf8_encode (print_string (chars s)) = dquote :: chars s ++ [dquote].
Proof.
  intros Hp. unfold print_string. change (dquote :: ?l) with ([dquote] ++ l).
  rewrite !utf8_encode_app. change (utf8_encode [dquote]) with [dquote]. do 2 f_equal.
  unfold plain in Hp. induction (chars s) as [|c l IH]; [done|].
  cbn [forallb flat_map] in *. apply andb_true_iff in Hp as [Hc Hl].
  rewrite utf8_encode_app, IH by done. unfold utf8_encode. by rewrite plain_char_bytes.
Qed.

Lemma stringify_length p :
  plain (createdAt p) = true -> plain (id p) = true ->
  length (utf8_encode (stringify p)) =
  (24 + length (chars (createdAt p)) + length (chars (id p)))%nat.
Proof.
  intros Hc Hi. unfold stringify.
  repeat first [rewrite utf8_encode_app | rewrite utf8_encode_cons by done].
  rewrite !plain_bytes by done. change (utf8_encode []) with (@nil ascii).
  repeat first [rewrite length_app | progress cbn [length]].
  change (length (chars "createdAt")) with 9%nat. change (length (chars "id")) with 2%nat. lia.
Qed.

Lemma re_match_charset l :
  l <> [] -> Forall (fun c => cursor_char c = true) l ->
  re_match (Plus (Class cursor_char)) (of_chars l) = true.
Proof.
  intros Hne Hall. apply re_match_lang. rewrite chars_of_chars.
  destruct Hall as [|c l Hc Hall]; [done|]. apply (lang_cat _ _ [c] l); [by constructor|].
  clear Hne. induction Hall as [|d l Hd _ IH]; [constructor|].
  apply (lang_star_app _ [d] l); [by constructor|exact IH].
Qed.

Lemma decode_encode date_parses p :
  (length (chars (encodeCursor p)) ≤ CURSOR_MAX_LENGTH)%nat ->
  date_parses (createdAt p) = true ->
  decodeCursor date_parses (encodeCursor p) = Ok p.
Proof.
  intros Hlen Hdate. unfold decodeCursor.
  rewrite bool_decide_eq_false_2 by lia. unfold encodeCursor.
  rewrite re_match_charset, chars_of_chars, b64_roundtrip, utf8_roundtrip;
    [|by unfold stringify|apply b64_encode_charset].
  cbn [negb mbind option_bind]. rewrite json_parse_stringify.
  change (json_field (chars "createdAt") [(chars "createdAt", ?a); (chars "id", ?b)]) with (Some a).
  change (json_field (chars "id") [(chars "createdAt", ?a); (chars "id", ?b)]) with (Some b).
  cbn match. rewrite !of_chars_chars, Hdate. by destruct p.
Qed.

(** Positions whose cursor is always accepted back. *)
Definition cursor_safe (date_parses : string -> bool) (p : CursorPosition) : Prop :=
  plain (createdAt p) = true /\ plain (id p) = true /\
  (length (chars (createdAt p)) + length (chars (id p)) ≤ 167)%nat /\
  date_parses (createdAt p) = true.

Lemma decode_encode_safe date_parses p :
  cursor_safe date_parses p -> decodeCursor date_parses (encodeCursor p) = Ok p.
Proof.
  intros (Hc & Hi & Hlen & Hd). apply decode_encode; [|done].
  unfold encodeCursor. rewrite chars_of_chars.
  pose proof (b64_encode_length (utf8_encode (stringify p))) as Hb.
  rewrite stringify_length in Hb by done. unfold CURSOR_MAX_LENGTH. lia.
Qed.

Lemma parseLimit_range raw n : parseLimit raw = Ok n -> 1 <= n <= CURSOR_MAX_LIMIT.
Proof.
  assert (Hd : 1 <= CURSOR_DEFAULT_LIMIT <= CURSOR_MAX_LIMIT) by (split; vm_compute; discriminate).
  unfold parseLimit. intros H.
  repeat (case_match; simplify_eq/=; try done); bool_to_prop; lia.
Qed.

(** ** Properties *)

(** A cursor the server hands out is accepted back and denotes the same
    position, through JSON, UTF-8 and base64url: for every position whose
    timestamp and id are printable ASCII without quotes or backslashes, together
    at most 167 characters (a timestamp and a UUID are 60), and whose timestamp
    parses. *)
Theorem cursor_roundtrip date_parses p :
  plain (createdAt p) = true -> plain (id p) = true ->
  (length (chars (createdAt p)) + length (chars (id p)) ≤ 167)%nat ->
  date_parses (createdAt p) = true ->
  decodeCursor date_parses (encodeCursor p) = Ok p /\
  resolveCursorQueryParam date_parses (QString (encodeCursor p)) = Ok (Some (encodeCursor p)).
Proof.
  intros Hc Hi Hlen Hd.
  assert (H : decodeCursor date_parses (encodeCursor p) = Ok p) by by apply decode_encode_safe.
  split; [done|]. unfold resolveCursorQueryParam.
  rewrite bool_decide_eq_false_2; [by rewrite H|].
  intros He. rewrite He in H. discriminate H.
Qed.

(** Whatever text a client sends as a cursor, decoding either fails or
    yields a position whose timestamp parses; text over 256 characters or with
    a character outside the base64url alphabet is always refused. *)
Theorem decodeCursor_strict date_parses s :
  match decodeCursor date_parses s with
  | Ok p => date_parses (createdAt p) = true /\
            (length (chars s) ≤ CURSOR_MAX_LENGTH)%nat /\
            chars s <> [] /\ Forall (fun c => cursor_char c = true) (chars s)
  | Err _ => True
  end.
Proof.
  destruct (decodeCursor date_parses s) as [p|] eqn:E; [|done]. revert E. unfold decodeCursor.
  case_bool_decide as Hlen; [done|].
  destruct (re_match (Plus (Class cursor_char)) s) eqn:Hre; [|done]. cbn [negb].
  apply re_match_lang, (lang_plus_forall _ cursor_char) in Hre as [Hne Hall]; [|done].
  intros E. repeat (case_match; simplify_eq/=). split_and!; [done|lia|done|done].
Qed.

(** ** Witnesses *)

Definition iso_shaped (s : string) : bool := bool_decide (length (chars s) = 24%nat).

Definition sample_position : CursorPosition :=
  {| createdAt := "2026-01-15T10:30:00.000Z"; id := "3f2b8c1e-0a4d-4b7e-9c55-1d2e3f4a5b6c" |}.

Lemma cursor_roundtrip_witness :
  decodeCursor iso_shaped (encodeCursor sample_position) = Ok sample_position.
Proof.
  apply (cursor_roundtrip iso_shaped sample_position); try reflexivity.
  vm_compute. lia.
Defined.

Example decodeCursor_rejects :
  decodeCursor iso_shaped "not a cursor" = Err malformed /\
  decodeCursor iso_shaped "bm9wZQ" = Err cannot_decode /\
  decodeCursor iso_shaped "e30" = Err missing_required_fields.
Proof. vm_compute. repeat split. Qed.

End Cursor.
