(* ===== verification/Json.v ===== *)
(** * [JSON.stringify] on dynamic values

    [stringify v] is the text, [None] when the result is [undefined];
    [json_image v] is [JSON.parse(JSON.stringify(v))].  How a finite number is
    written ([Number.prototype.toString]) is a parameter. *)

From stdpp Require Import prelude strings.
From Stdlib Require Import ZArith Lia Ascii.
From S2P Require Import Prelude JsValue JsString Regex Cursor.

Module Json.

Definition quote (s : string) : list ascii := Cursor.print_string (chars s).

Fixpoint join (sep : ascii) (parts : list (list ascii)) : list ascii :=
  match parts with
  | [] => []
  | [p] => p
  | p :: rest => p ++ sep :: join sep rest
  end.

Section Json.
Context (number_text : number -> list ascii).

Fixpoint stringify (v : value) : option (list ascii) :=
  match v with
  | VUndefined => None
  | VNull => Some (chars "null")
  | VBool b => Some (chars (if b then "true" else "false"))
  | VNumber n => Some (if is_finite n then number_text n else chars "null")
  | VString s => Some (quote s)
  | VArray vs =>
      Some ("["%char :: join ","%char (map (fun x => default (chars "null") (stringify x)) vs) ++ ["]"%char])
  | VObject fields =>
      Some ("{"%char ::
        join ","%char (flat_map (fun f => match stringify f.2 with
                                          | None => []
                                          | Some t => [quote f.1 ++ ":"%char :: t]
                                          end) fields) ++ ["}"%char])
  end.

Fixpoint json_image (v : value) : value :=
  match v with
  | VNumber n => if is_finite n then v else VNull
  | VArray vs =>
      VArray (map (fun x => match json_image x with VUndefined => VNull | y => y end) vs)
  | VObject fields =>
      VObject (flat_map (fun f => match json_image f.2 with
                                  | VUndefined => []
                                  | y => [(f.1, y)]
                                  end) fields)
  | _ => v
  end.

(** Induction through the nested lists. *)
Section Induction.
Context (P : value -> Prop).
Hypothesis Hatom : forall v, (forall vs, v <> VArray vs) -> (forall fs, v <> VObject fs) -> P v.
Hypothesis Harray : forall vs, Forall P vs -> P (VArray vs).
Hypothesis Hobject : forall fs, Forall (fun f => P f.2) fs -> P (VObject fs).

Fixpoint value_nested_ind (v : value) : P v :=
  match v with
  | VArray vs => Harray vs ((fix go l : Forall P l :=
      match l with [] => Forall_nil_2 _ | x :: l' => Forall_cons_2 _ _ _ (value_nested_ind x) (go l') end) vs)
  | VObject fs => Hobject fs ((fix go l : Forall (fun f => P f.2) l :=
      match l with [] => Forall_nil_2 _ | x :: l' => Forall_cons_2 _ _ _ (value_nested_ind x.2) (go l') end) fs)
  | VUndefined => Hatom VUndefined ltac:(done) ltac:(done)
  | VNull => Hatom VNull ltac:(done) ltac:(done)
  | VBool b => Hatom (VBool b) ltac:(done) ltac:(done)
  | VNumber n => Hatom (VNumber n) ltac:(done) ltac:(done)
  | VString s => Hatom (VString s) ltac:(done) ltac:(done)
  end.
End Induction.

Lemma image_undefined v : stringify v = None <-> json_image v = VUndefined.
Proof. destruct v; simpl; try done. by destruct (is_finite n). Qed.

(** Parsing what was written and writing it again gives the same text. *)
Lemma stringify_image v : stringify (json_image v) = stringify v.
Proof.
  induction v as [v Ha Ho|vs IH|fs IH] using value_nested_ind.
  - destruct v as [| | |n| |vs|fs]; try done; [|by destruct (Ha vs)|by destruct (Ho fs)].
    simpl. by destruct (is_finite n) eqn:E; simpl; rewrite ?E.
  - simpl. do 3 f_equal. f_equal. rewrite map_map. induction IH as [|x vs Hx _ IH]; simpl; [done|].
    f_equal; [|exact IH]. rewrite <- Hx. by destruct (json_image x).
  - simpl. do 3 f_equal. f_equal. induction IH as [|[k x] fs Hx _ IH]; simpl in *; [done|].
    rewrite flat_map_app, IH. f_equal. pose proof (image_undefined x) as Hu.
    destruct (json_image x) eqn:E; simpl in *; rewrite <- ?Hx; simpl; rewrite ?app_nil_r; try done.
Qed.

Lemma image_idempotent v : json_image (json_image v) = json_image v.
Proof.
  induction v as [v Ha Ho|vs IH|fs IH] using value_nested_ind.
  - destruct v as [| | |n| |vs|fs]; try done; [|by destruct (Ha vs)|by destruct (Ho fs)].
    simpl. by destruct (is_finite n) eqn:E; simpl; rewrite ?E.
  - simpl. f_equal. rewrite map_map. induction IH as [|x vs Hx _ IH]; simpl; [done|].
    f_equal; [|exact IH]. destruct (json_image x); simpl in *; rewrite ?Hx; done.
  - simpl. f_equal. induction IH as [|[k x] fs Hx _ IH]; simpl in *; [done|].
    rewrite flat_map_app, IH. f_equal. destruct (json_image x); simpl in *; rewrite ?Hx; done.
Qed.

End Json.
End Json.
