(* ===== verification/JsonRoundtrip.v ===== *)
(** * JSON texts read back

    [JSON.parse] of what [JSON.stringify] writes, for every dynamic value: the
    parser of Cursor and the printer of Json are inverse up to what the text
    drops (undefined members, the numbers that are not finite).  Two values with
    the same text are therefore the same value to a reader. *)

From stdpp Require Import prelude strings.
From Stdlib Require Import ZArith Lia Ascii.
From S2P Require Import Prelude JsValue JsString Regex Cursor Json.
Import Cursor.

Module JsonRoundtrip.

Lemma print_string_pos k : (0 < length (print_string k))%nat.
Proof. unfold print_string. simpl. lia. Qed.

Lemma print_string_head k : exists t, print_string k = dquote :: t.
Proof. by eexists. Qed.

#[local] Opaque print_string.

(** What a reader of the text sees. *)
Section Read.
Context (number_text : number -> list ascii).

Fixpoint to_json (v : value) : option json :=
  match v with
  | VUndefined => None
  | VNull => Some JNull
  | VBool b => Some (JBool b)
  | VNumber n => Some (if is_finite n then JNum (number_text n) else JNull)
  | VString s => Some (JStr (chars s))
  | VArray vs => Some (JArr (map (fun x => default JNull (to_json x)) vs))
  | VObject fs =>
      Some (JObj (flat_map (fun f => match to_json f.2 with None => [] | Some j => [(chars f.1, j)] end) fs))
  end.

(** A number is written as a JSON number. *)
Definition writes_numbers : Prop :=
  forall n, is_finite n = true -> forallb number_char (number_text n) = true /\ re_match_list number_re (number_text n) = true.

(** The text after a value does not continue a number. *)
Definition stops (r : list ascii) : Prop := match r with [] => True | c :: _ => number_char c = false end.

Definition reads (t : list ascii) (j : json) : Prop :=
  forall fuel r, (length t < fuel)%nat -> stops r -> parse_value fuel (t ++ r) = Some (j, r).

(** A value does not begin with white space or a closing bracket. *)
Definition starts (t : list ascii) : Prop :=
  match t with [] => False | c :: _ => json_space c = false /\ c <> "]"%char /\ c <> "}"%char end.

Lemma starts_app t r : starts t -> skip_ws (t ++ r) = t ++ r.
Proof. destruct t as [|c t]; [done|]. intros (H & _). simpl. by rewrite H. Qed.

Lemma span_all (p : ascii -> bool) t r : forallb p t = true -> match r with [] => True | c :: _ => p c = false end -> span p (t ++ r) = (t, r).
Proof.
  intros Ht Hr. induction t as [|c t IH]; simpl in *.
  - destruct r as [|d r]; [done|]. simpl. by rewrite Hr.
  - apply andb_true_iff in Ht as [Hc Ht]. rewrite Hc. by rewrite IH.
Qed.

Lemma number_char_starts c : number_char c = true ->
  json_space c = false /\ c <> dquote /\ c <> "{"%char /\ c <> "["%char /\ c <> "t"%char /\ c <> "f"%char /\ c <> "n"%char /\
  c <> "]"%char /\ c <> "}"%char.
Proof. destruct c as [[] [] [] [] [] [] [] []]; vm_compute; intros; try discriminate; repeat split; discriminate. Qed.

Lemma number_reads t : forallb number_char t = true -> re_match_list number_re t = true -> reads t (JNum t).
Proof.
  intros Hc Hm [|fuel] r Hf Hr; [lia|]. destruct t as [|c t]; [by vm_compute in Hm|].
  simpl in Hc. apply andb_true_iff in Hc as [H1 H2]. pose proof (number_char_starts c H1) as (Hs & ? & ? & ? & ? & ? & ? & _).
  cbn [parse_value]. simpl app. cbn [skip_ws]. rewrite Hs. rewrite !bool_decide_eq_false_2 by done.
  change (c :: t ++ r) with ((c :: t) ++ r). rewrite span_all; [by rewrite Hm| |done]. simpl. by rewrite H1.
Qed.

Lemma keyword_reads w v : (forall r fuel, parse_value (S fuel) (chars w ++ r) = Some (v, r)) -> reads (chars w) v.
Proof. intros H [|fuel] r Hf _; [lia|]. apply H. Qed.

Lemma string_reads s : reads (Json.quote s) (JStr (chars s)).
Proof. intros [|fuel] r Hf _; [lia|]. unfold Json.quote. rewrite print_string_app. apply parse_value_string. Qed.

Lemma parse_members_one fuel k t r : (S (length t) < fuel)%nat ->
  parse_members fuel (print_string k ++ ":"%char :: t ++ r) =
  match parse_value (fuel - 1) (t ++ r) with
  | Some (v, l4) =>
      match skip_ws l4 with
      | "}"%char :: r => Some ([(k, v)], r)
      | ","%char :: l5 => (fun '(fs, r) => ((k, v) :: fs, r)) <$> parse_members (fuel - 1) l5
      | _ => None
      end
  | None => None
  end.
Proof.
  intros Hf. destruct fuel as [|fuel]; [lia|]. rewrite print_string_app. cbn [parse_members skip_ws].
  change (json_space dquote) with false. cbn match. rewrite bool_decide_eq_true_2, parse_print_string by done. cbn match.
  change (skip_ws (":"%char :: ?l)) with (":"%char :: l). cbn match. by replace (S fuel - 1)%nat with fuel by lia.
Qed.

(** The members of an object, each a key with the text of its value. *)
Definition member_text (m : list ascii * list ascii * json) : list ascii := print_string m.1.1 ++ ":"%char :: m.1.2.

Lemma members_read ms r fuel : ms <> [] -> Forall (fun m => reads m.1.2 m.2) ms ->
  (length (Json.join ","%char (map member_text ms)) < fuel)%nat ->
  parse_members fuel (Json.join ","%char (map member_text ms) ++ "}"%char :: r) = Some (map (fun m => (m.1.1, m.2)) ms, r).
Proof.
  intros Hne Hall. revert fuel. induction Hall as [|[[k t] j] ms Hm Hall IH]; [done|]. intros fuel Hf. simpl in Hm.
  destruct ms as [|m ms].
  - simpl in *. unfold member_text in *. simpl in *. rewrite length_app in Hf. simpl in Hf.
    rewrite <- app_assoc. simpl. pose proof (print_string_pos k).
    rewrite parse_members_one, Hm; [done|lia|done|lia].
  - change (Json.join ","%char (map member_text ((k, t, j) :: m :: ms))) with
      (member_text (k, t, j) ++ ","%char :: Json.join ","%char (map member_text (m :: ms))) in *.
    rewrite length_app in Hf. simpl length in Hf. rewrite <- app_assoc. unfold member_text at 1. unfold member_text in Hf at 1. simpl fst in *. simpl snd in *.
    rewrite length_app in Hf. simpl in Hf. pose proof (print_string_pos k).
    rewrite <- app_assoc. simpl. rewrite parse_members_one, Hm; [|lia|done|lia].
    simpl. by rewrite (IH ltac:(done)) by (simpl; lia).
Qed.

Lemma elements_read (es : list (list ascii * json)) r fuel : es <> [] -> Forall (fun e => reads e.1 e.2) es ->
  (S (length (Json.join ","%char (map fst es))) < fuel)%nat ->
  parse_elements fuel (Json.join ","%char (map fst es) ++ "]"%char :: r) = Some (map snd es, r).
Proof.
  intros Hne Hall. revert fuel. induction Hall as [|[t j] es He Hall IH]; [done|]. intros [|fuel] Hf; [lia|]. simpl in He.
  destruct es as [|e es].
  - simpl in *. rewrite He; [done|lia|done].
  - change (Json.join ","%char (map fst ((t, j) :: e :: es))) with (t ++ ","%char :: Json.join ","%char (map fst (e :: es))) in *.
    rewrite length_app in Hf. simpl length in Hf. rewrite <- app_assoc. cbn [parse_elements]. simpl app.
    rewrite He; [|lia|done]. simpl. by rewrite (IH ltac:(done)) by (simpl; lia).
Qed.

Lemma join_starts sep t ts : starts t -> starts (Json.join sep (t :: ts)).
Proof. intros Ht. destruct t as [|c t]; [done|]. by destruct ts. Qed.

Lemma object_reads ms : Forall (fun m => reads m.1.2 m.2) ms ->
  reads ("{"%char :: Json.join ","%char (map member_text ms) ++ ["}"%char]) (JObj (map (fun m => (m.1.1, m.2)) ms)).
Proof.
  intros Hall [|fuel] r Hf _; [simpl in Hf; lia|]. simpl app. rewrite <- app_assoc. simpl app.
  destruct ms as [|m ms]; [done|].
  assert (Hs : starts (Json.join ","%char (map member_text (m :: ms)))) by (apply join_starts; unfold member_text; by destruct (print_string_head m.1.1) as [t ->]).
  cbn [length] in Hf. rewrite length_app in Hf. cbn [length] in Hf.
  pose proof (members_read (m :: ms) r fuel ltac:(done) Hall ltac:(lia)) as Hp.
  destruct (Json.join ","%char (map member_text (m :: ms))) as [|c t]; [done|]. destruct Hs as (Hw & _ & Hb).
  cbn [parse_value skip_ws]. change (json_space "{") with false. cbn match. rewrite bool_decide_eq_false_2, bool_decide_eq_true_2 by done.
  simpl app. cbn [skip_ws]. rewrite Hw.
  simpl app in Hp. rewrite Hp. simpl. destruct c as [[] [] [] [] [] [] [] []]; try done; by destruct Hb.
Qed.

Lemma array_reads es : Forall (fun e => reads e.1 e.2 /\ starts e.1) es ->
  reads ("["%char :: Json.join ","%char (map fst es) ++ ["]"%char]) (JArr (map snd es)).
Proof.
  intros Hall [|fuel] r Hf _; [simpl in Hf; lia|]. simpl app. rewrite <- app_assoc. simpl app.
  destruct es as [|e es]; [done|].
  assert (Hs : starts (Json.join ","%char (map fst (e :: es)))) by (apply join_starts; inversion Hall; tauto).
  cbn [length] in Hf. rewrite length_app in Hf. cbn [length] in Hf.
  assert (Hr : Forall (fun e => reads e.1 e.2) (e :: es)) by (eapply Forall_impl; [exact Hall|by intros ? [? _]]).
  pose proof (elements_read (e :: es) r fuel ltac:(done) Hr ltac:(lia)) as Hp.
  destruct (Json.join ","%char (map fst (e :: es))) as [|c t]; [done|]. destruct Hs as (Hw & Hb & _).
  cbn [parse_value skip_ws]. change (json_space "[") with false. cbn match. rewrite !bool_decide_eq_false_2, bool_decide_eq_true_2 by done.
  simpl app. cbn [skip_ws]. rewrite Hw.
  simpl app in Hp. rewrite Hp. simpl. destruct c as [[] [] [] [] [] [] [] []]; try done; by destruct Hb.
Qed.

Lemma value_reads (Hn : writes_numbers) v t : Json.stringify number_text v = Some t ->
  exists j, to_json v = Some j /\ reads t j /\ starts t.
Proof.
  revert t. induction v as [v Ha Ho|vs IH|fs IH] using Json.value_nested_ind; intros t Ht.
  - destruct v as [| |b|n|s|vs|fs]; try (exfalso; first [exact (Ha _ eq_refl)|exact (Ho _ eq_refl)]); simpl in Ht; simplify_eq; eexists; (split; [done|]).
    + split; [|done]. by apply (keyword_reads "null").
    + destruct b; (split; [|done]); [by apply (keyword_reads "true")|by apply (keyword_reads "false")].
    + destruct (is_finite n) eqn:E; [|split; [|done]; by apply (keyword_reads "null")].
      destruct (Hn n E) as [Hc Hm]. split; [by apply number_reads|]. destruct (number_text n) as [|c l]; [by vm_compute in Hm|].
      simpl in Hc. apply andb_true_iff in Hc as [Hc _]. by apply number_char_starts in Hc as (? & _ & _ & _ & _ & _ & _ & ? & ?).
    + split; [apply string_reads|]. unfold Json.quote. by destruct (print_string_head (chars s)) as [t ->].
  - cbn [Json.stringify] in Ht. apply (inj Some) in Ht as <-. cbn [to_json]. eexists. split; [done|]. split; [|done].
    set (es := map (fun x => (default (chars "null") (Json.stringify number_text x), default JNull (to_json x))) vs).
    replace (map (fun x => default (chars "null") (Json.stringify number_text x)) vs) with (map fst es) by (unfold es; by rewrite map_map).
    replace (map (fun x => default JNull (to_json x)) vs) with (map snd es) by (unfold es; by rewrite map_map).
    apply array_reads. unfold es. clear es. induction IH as [|x vs Hx _ IHvs]; [constructor|]. simpl. constructor; [|exact IHvs]. simpl.
    destruct (Json.stringify number_text x) as [u|] eqn:E.
    + destruct (Hx u eq_refl) as (j & -> & H). exact H.
    + assert (to_json x = None) as -> by (destruct x; simpl in E; done). split; [|done]. by apply (keyword_reads "null").
  - cbn [Json.stringify] in Ht. apply (inj Some) in Ht as <-. cbn [to_json]. eexists. split; [done|]. split; [|done].
    set (ms := flat_map (fun f : string * value => match Json.stringify number_text f.2, to_json f.2 with
                                    | Some u, Some j => [(chars f.1, u, j)] | _, _ => [] end) fs).
    assert (H : Forall (fun m => reads m.1.2 m.2) ms /\
      map member_text ms = flat_map (fun f => match Json.stringify number_text f.2 with None => [] | Some t => [Json.quote f.1 ++ ":"%char :: t] end) fs /\
      map (fun m => (m.1.1, m.2)) ms = flat_map (fun f => match to_json f.2 with None => [] | Some j => [(chars f.1, j)] end) fs).
    { unfold ms. clear ms. induction IH as [|[k x] fs Hx _ IHfs]; [done|]. simpl in *.
      destruct (Json.stringify number_text x) as [u|] eqn:E.
      - destruct (Hx u eq_refl) as (j & -> & Hr & _). simpl. destruct IHfs as (H1 & H2 & H3). rewrite H2, H3. split; [by constructor|done].
      - assert (to_json x = None) as -> by (destruct x; simpl in E; done). done. }
    destruct H as (H1 & <- & <-). by apply object_reads.
Qed.

(** JSON.parse reads back what JSON.stringify wrote. *)
Lemma parse_stringify (Hn : writes_numbers) v t : Json.stringify number_text v = Some t -> json_parse t = to_json v.
Proof.
  intros Ht. destruct (value_reads Hn v t Ht) as (j & -> & Hr & _). unfold json_parse.
  specialize (Hr (S (S (length t))) [] ltac:(lia) I). rewrite app_nil_r in Hr. by rewrite Hr.
Qed.

(** Equal texts are read as equal values. *)
Lemma stringify_read_inj (Hn : writes_numbers) v w : Json.stringify number_text v = Json.stringify number_text w -> to_json v = to_json w.
Proof.
  intros E. destruct (Json.stringify number_text v) as [t|] eqn:Ev.
  - rewrite <- (parse_stringify Hn v t Ev). symmetry in E. by rewrite <- (parse_stringify Hn w t E).
  - by destruct v, w.
Qed.

End Read.

(** ** A concrete number text

    Integers in binary digits, which JSON reads as a number; it shows that the
    hypotheses on [number_text] can hold. *)
Fixpoint binary_digits (p : positive) : list ascii :=
  match p with xH => ["1"%char] | xO p => binary_digits p ++ ["0"%char] | xI p => binary_digits p ++ ["1"%char] end.

Definition binary_text (n : number) : list ascii :=
  match to_int n with
  | Some (Zpos p) => binary_digits p
  | Some (Zneg p) => "-"%char :: binary_digits p
  | _ => ["0"%char]
  end.

Lemma binary_digits_shape p : exists l, binary_digits p = "1"%char :: l /\ Forall (fun c => is_digit c = true) l.
Proof.
  induction p as [p (l & E & Hl)|p (l & E & Hl)|]; simpl; [..|by exists []]; rewrite E; eexists; (split; [done|]);
    (apply Forall_app; split; [done|]; by constructor).
Qed.

Lemma digits_star l : Forall (fun c => is_digit c = true) l -> lang (Star (Class is_digit)) l.
Proof. induction 1 as [|c l Hc _ IH]; [constructor|]. apply (lang_star_app _ [c] l); [by constructor|done]. Qed.

Lemma binary_writes : writes_numbers binary_text.
Proof.
  assert (Hd : forall p pre, pre = [] \/ pre = ["-"%char] ->
    forallb number_char (pre ++ binary_digits p) = true /\ re_match_list number_re (pre ++ binary_digits p) = true).
  { intros p pre Hpre. destruct (binary_digits_shape p) as (l & -> & Hl). split.
    - destruct Hpre as [->| ->]; simpl; (apply forallb_forall; intros c Hc; apply list_elem_of_In in Hc; rewrite Forall_forall in Hl;
        unfold number_char; by rewrite (Hl c Hc)).
    - rewrite <- (Cursor.chars_of_chars (pre ++ _)). change (re_match number_re (of_chars (pre ++ "1"%char :: l)) = true).
      apply re_match_lang. rewrite Cursor.chars_of_chars. unfold number_re, opt.
      apply lang_cat; [destruct Hpre as [->| ->]; [apply lang_alt_l|apply lang_alt_r]; by constructor|].
      rewrite <- (app_nil_r ("1"%char :: l)). apply lang_cat; [|rewrite <- (app_nil_l []); apply lang_cat; apply lang_alt_l; constructor].
      apply lang_alt_r. apply (lang_cat _ _ ["1"%char] l); [by constructor|by apply digits_star]. }
  intros n _. unfold binary_text. destruct (to_int n) as [[|p|p]|]; try done; [apply (Hd p []); by left|apply (Hd p ["-"%char]); by right].
Qed.

Lemma binary_digits_inj p q : binary_digits p = binary_digits q -> p = q.
Proof.
  revert q. induction p as [p IH|p IH|]; intros [q|q|] E; simpl in E; try done;
    try (apply app_inj_tail in E as [E1 E2]; first [by rewrite (IH q E1)|discriminate E2]);
    exfalso; destruct (binary_digits_shape p) as (l & Hl & _) || destruct (binary_digits_shape q) as (l & Hl & _);
    rewrite Hl in E; by destruct l.
Qed.

Lemma to_int_of_int n : to_int (of_int n) = Some n.
Proof. unfold to_int, of_int. pose proof num_scale_pos. rewrite Z_mod_mult. by rewrite Z.div_mul by lia. Qed.

Lemma binary_text_inj m n : binary_text (of_int m) = binary_text (of_int n) -> m = n.
Proof.
  unfold binary_text. rewrite !to_int_of_int. intros E.
  destruct m as [|p|p], n as [|q|q]; try done;
    try (destruct (binary_digits_shape p) as (l & El & _)); try (destruct (binary_digits_shape q) as (l' & El' & _));
    first [congruence|f_equal; apply binary_digits_inj; congruence].
Qed.

End JsonRoundtrip.
