(* ===== verification/WebhookSigning.v ===== *)
(** * Webhook signatures: src/utils/webhook-signing.util.ts

    HMAC-SHA256 is a parameter: [hmac secret text] is the hexadecimal digest.
    Instants are numbers, as the code compares them. *)

From stdpp Require Import prelude strings.
From Stdlib Require Import ZArith Lia Ascii.
From S2P Require Import Prelude JsValue JsArith JsString Regex Ssrf Cursor Json.
Open Scope Z_scope.

Module Signing.

Definition WEBHOOK_SIGNATURE_MAX_AGE_MS : Z := 5 * 60 * 1000.
Definition WEBHOOK_SIGNATURE_HEX_LENGTH : nat := 64.

Inductive verification : Type :=
| VALID
| TIMESTAMP_EXPIRED
| INVALID_TIMESTAMP
| INVALID_SIGNATURE_FORMAT
| SIGNATURE_MISMATCH
| MISSING_SECRET.

(** The stable machine code of each result. *)
Definition code (r : verification) : string :=
  match r with
  | VALID => "valid"
  | TIMESTAMP_EXPIRED => "unauthorized"
  | INVALID_TIMESTAMP | INVALID_SIGNATURE_FORMAT | MISSING_SECRET => "bad_request"
  | SIGNATURE_MISMATCH => "invalid_webhook_signature"
  end.

Definition is_hex (c : ascii) : bool := in_range 48 57 c || in_range 97 102 c || in_range 65 70 c.

Definition hex_nibble (c : ascii) : option nat :=
  if in_range 48 57 c then Some (nat_of_ascii c - 48)%nat
  else if in_range 97 102 c then Some (nat_of_ascii c - 87)%nat
  else if in_range 65 70 c then Some (nat_of_ascii c - 55)%nat
  else None.

(** [Buffer.from(s, 'hex')]: pairs of digits, up to the first that is not one. *)
Fixpoint hex_bytes (l : list ascii) : list nat :=
  match l with
  | a :: b :: l' =>
      match hex_nibble a, hex_nibble b with
      | Some x, Some y => (16 * x + y)%nat :: hex_bytes l'
      | _, _ => []
      end
  | _ => []
  end.

Definition constantTimeCompareHex (a b : list ascii) : bool :=
  let left := hex_bytes a in
  let right := hex_bytes b in
  if negb (bool_decide (length left = length right)) || bool_decide (length left = 0%nat) then false
  else bool_decide (left = right).

Definition normalizeSignatureHeader (signature : value) : option (list ascii) :=
  match signature with
  | VString s =>
      let trimmed := chars (trim s) in
      if bool_decide (trimmed = []) then None
      else
        let body := if Ssrf.starts_with (chars "sha256=") (chars (to_lower (trim s)))
                    then drop 7 trimmed else trimmed in
        if bool_decide (body = []) || bool_decide (256 < length body)%nat then None
        else if forallb is_hex body then Some (lower_char <$> body) else None
  | _ => None
  end.

Section Signing.
Context (number_text : number -> list ascii) (hmac : string -> list ascii -> list ascii).

Definition canonical (payload : value) (timestamp : number) : list ascii :=
  number_text timestamp ++ "."%char :: default (chars "undefined") (Json.stringify number_text payload).

Definition generateSignature (payload : value) (secret : string) (timestamp : number) : list ascii :=
  hmac secret (canonical payload timestamp).

Record WebhookSignature : Type := { signature : list ascii; timestamp : Z }.

(** [now] is [Date.now()]. *)
Definition createWebhookSignature (payload : value) (secret : string) (now : Z) : WebhookSignature :=
  {| signature := generateSignature payload secret (of_int now); timestamp := now |}.

Definition verifyWebhookSignature (payload sig ts secret : value) (now maxAgeMs : number) : verification :=
  match secret with
  | VString k =>
      if bool_decide (k = EmptyString) then MISSING_SECRET
      else match ts with
      | VNumber t =>
          if negb (is_finite t) || num_leb t (of_int 0) then INVALID_TIMESTAMP
          else if num_gtb (num_sub now t) maxAgeMs then TIMESTAMP_EXPIRED
          else match normalizeSignatureHeader sig with
               | Some h =>
                   if negb (bool_decide (length h = WEBHOOK_SIGNATURE_HEX_LENGTH))
                   then INVALID_SIGNATURE_FORMAT
                   else if constantTimeCompareHex h (generateSignature payload k t) then VALID
                   else SIGNATURE_MISMATCH
               | None => INVALID_SIGNATURE_FORMAT
               end
      | _ => INVALID_TIMESTAMP
      end
  | _ => MISSING_SECRET
  end.

Definition verifySignature (payload : value) (sig : string) (ts : number) (secret : string)
    (now maxAgeMs : number) : bool :=
  match verifyWebhookSignature payload (VString sig) (VNumber ts) (VString secret) now maxAgeMs with
  | VALID => true
  | _ => false
  end.

(** ** Digests *)

(** What [digest('hex')] of a 256-bit HMAC looks like. *)
Definition is_lower_hex (c : ascii) : bool := in_range 48 57 c || in_range 97 102 c.
Definition digest (l : list ascii) : Prop :=
  length l = WEBHOOK_SIGNATURE_HEX_LENGTH /\ Forall (fun c => is_lower_hex c = true) l.

Hypothesis hmac_digest : forall k m, digest (hmac k m).

Lemma lower_hex_facts c : is_lower_hex c = true ->
  is_hex c = true /\ lower_char c = c /\ is_space c = false.
Proof.
  destruct c as [[] [] [] [] [] [] [] []]; intros H; vm_compute in H; try discriminate H; repeat split.
Qed.

Lemma nibble_inj a b : is_lower_hex a = true -> is_lower_hex b = true ->
  hex_nibble a = hex_nibble b -> a = b.
Proof.
  intros Ha Hb. destruct a as [[] [] [] [] [] [] [] []]; vm_compute in Ha; try discriminate Ha;
    destruct b as [[] [] [] [] [] [] [] []]; vm_compute in Hb; try discriminate Hb;
    vm_compute; congruence.
Qed.

Lemma nibble_Some a : is_lower_hex a = true -> exists x, hex_nibble a = Some x /\ (x < 16)%nat.
Proof.
  destruct a as [[] [] [] [] [] [] [] []]; intros H; vm_compute in H; try discriminate H;
    (eexists; split; [vm_compute; reflexivity|lia]).
Qed.

Lemma hex_bytes_length n l : length l = (2 * n)%nat -> Forall (fun c => is_lower_hex c = true) l ->
  length (hex_bytes l) = n.
Proof.
  revert l. induction n as [|n IH]; intros [|a [|b l]] Hn H; simpl in Hn; try lia; [done|].
  apply Forall_cons in H as [Ha H]. apply Forall_cons in H as [Hb H]. simpl.
  destruct (nibble_Some a Ha) as (x & -> & _). destruct (nibble_Some b Hb) as (y & -> & _).
  simpl. rewrite IH; [done|lia|done].
Qed.

(** Decoding is injective on digests. *)
Lemma hex_bytes_inj n l1 l2 :
  length l1 = (2 * n)%nat -> length l2 = (2 * n)%nat ->
  Forall (fun c => is_lower_hex c = true) l1 -> Forall (fun c => is_lower_hex c = true) l2 ->
  hex_bytes l1 = hex_bytes l2 -> l1 = l2.
Proof.
  revert l1 l2. induction n as [|n IH]; intros [|a [|b l1]] [|c [|d l2]] H1 H2 F1 F2 E; simpl in *; try lia; [done|].
  apply Forall_cons in F1 as [Ha F1]. apply Forall_cons in F1 as [Hb F1].
  apply Forall_cons in F2 as [Hc F2]. apply Forall_cons in F2 as [Hd F2].
  destruct (nibble_Some a Ha) as (x & Ex & Hx). destruct (nibble_Some b Hb) as (y & Ey & Hy).
  destruct (nibble_Some c Hc) as (z & Ez & Hz). destruct (nibble_Some d Hd) as (w & Ew & Hw).
  rewrite Ex, Ey, Ez, Ew in E. injection E as E1 E2.
  assert (x = z /\ y = w) as [-> ->] by lia.
  rewrite (nibble_inj a c), (nibble_inj b d) by congruence. do 2 f_equal. apply (IH l1 l2); try done; lia.
Qed.

Lemma compare_digests a b : digest a -> digest b -> constantTimeCompareHex a b = bool_decide (a = b).
Proof.
  intros [La Fa] [Lb Fb]. unfold constantTimeCompareHex.
  rewrite !(hex_bytes_length 32) by done. cbn [negb orb].
  rewrite bool_decide_eq_true_2 by done. simpl. apply bool_decide_ext. split; [|congruence].
  by apply (hex_bytes_inj 32).
Qed.

Lemma lower_hex_of c : is_hex c = true -> is_lower_hex (lower_char c) = true.
Proof. destruct c as [[] [] [] [] [] [] [] []]; intros H; vm_compute in H; try discriminate H; reflexivity. Qed.

Lemma normalized_digest sig h :
  normalizeSignatureHeader sig = Some h -> length h = WEBHOOK_SIGNATURE_HEX_LENGTH -> digest h.
Proof.
  intros Hn Hlen. split; [done|]. unfold normalizeSignatureHeader in Hn. destruct sig; try done.
  repeat (case_bool_decide; [done|]). cbn [orb] in Hn.
  destruct (forallb is_hex _) eqn:E; [|done]. simplify_eq.
  apply Forall_fmap, Forall_forall. intros c Hc. simpl. apply lower_hex_of.
  rewrite forallb_forall in E. apply E. by apply list_elem_of_In.
Qed.

Lemma digest_lower l : digest l -> lower_char <$> l = l.
Proof.
  intros [_ Hl]. induction Hl as [|c l Hc _ IH]; [done|]. cbn [fmap list_fmap].
  apply lower_hex_facts in Hc as (_ & -> & _). by f_equal.
Qed.

(** A delivered header is read back as the digest it carries. *)
Lemma header_normal l : digest l ->
  normalizeSignatureHeader (VString (String.string_of_list_ascii (chars "sha256=" ++ l))) = Some l.
Proof.
  intros Hd. pose proof Hd as [Hlen Hl]. unfold normalizeSignatureHeader.
  assert (Hsp : Forall (fun c => is_space c = false) (chars "sha256=" ++ l)).
  { apply Forall_app. split; [repeat constructor|]. eapply Forall_impl; [exact Hl|].
    intros c Hc. by apply lower_hex_facts in Hc as (_ & _ & ?). }
  assert (Hlow : to_lower (String.string_of_list_ascii (chars "sha256=" ++ l)) =
                 String.string_of_list_ascii (chars "sha256=" ++ l)).
  { unfold to_lower. rewrite String.list_ascii_of_string_of_list_ascii, fmap_app, (digest_lower l Hd). reflexivity. }
  assert (Hch : chars (String.string_of_list_ascii (chars "sha256=" ++ l)) = chars "sha256=" ++ l)
    by apply String.list_ascii_of_string_of_list_ascii.
  rewrite (trim_plain _ Hsp), Hlow, Hch.
  change (drop 7 (chars "sha256=" ++ l)) with l.
  change (Ssrf.starts_with (chars "sha256=") (chars "sha256=" ++ l)) with true.
  cbv iota zeta. rewrite bool_decide_eq_false_2 by done.
  rewrite (bool_decide_eq_false_2 (l = [])) by (intros ->; simpl in Hlen; done).
  rewrite bool_decide_eq_false_2 by (rewrite Hlen; unfold WEBHOOK_SIGNATURE_HEX_LENGTH; lia).
  simpl. assert (Hx : forallb is_hex l = true).
  { apply forallb_forall. intros c Hc. rewrite Forall_forall in Hl.
    by apply lower_hex_facts, Hl, list_elem_of_In. }
  by rewrite Hx, digest_lower.
Qed.

(** Signing and verifying agree whenever the timestamp passes the age test. *)
Lemma own_signature_valid payload secret t now maxAge :
  secret <> EmptyString -> 0 < t -> num_gtb (num_sub (of_int now) (of_int t)) maxAge = false ->
  verifySignature payload
    (String.string_of_list_ascii (chars "sha256=" ++ generateSignature payload secret (of_int t)))
    (of_int t) secret (of_int now) maxAge = true.
Proof.
  intros Hk Ht Hage. unfold verifySignature, verifyWebhookSignature.
  rewrite bool_decide_eq_false_2 by done.
  assert (Hpos : num_leb (of_int t) (of_int 0) = false).
  { change (num_leb (of_int t) (of_int 0)) with (negb (num_gtb (of_int t) (of_int 0))).
    rewrite num_gtb_int. apply negb_false_iff, Z.ltb_lt. lia. }
  change (is_finite (of_int t)) with true. rewrite Hpos, Hage. cbn [negb orb].
  assert (Hd : digest (generateSignature payload secret (of_int t))) by apply hmac_digest.
  rewrite header_normal by done. rewrite bool_decide_eq_true_2 by apply Hd. cbn [negb].
  by rewrite compare_digests, bool_decide_eq_true_2.
Qed.

(** ** Properties *)

(** C9: round trip.  A delivery signed with [createWebhookSignature] verifies
    at the receiver with the same secret, for any payload, within five minutes
    of the instant it was signed. *)
Theorem signature_roundtrip payload secret t now :
  secret <> EmptyString -> 0 < t -> now - t <= WEBHOOK_SIGNATURE_MAX_AGE_MS ->
  let w := createWebhookSignature payload secret t in
  verifySignature payload (String.string_of_list_ascii (chars "sha256=" ++ signature w))
    (of_int (timestamp w)) secret (of_int now) (of_int WEBHOOK_SIGNATURE_MAX_AGE_MS) = true.
Proof.
  intros Hk Ht Hage. unfold createWebhookSignature. cbn [signature timestamp].
  apply own_signature_valid; [done..|].
  rewrite elapsed_above by (unfold WEBHOOK_SIGNATURE_MAX_AGE_MS in *; lia). apply Z.ltb_ge. lia.
Qed.

(** Safety.  Whatever the four inputs are, verification succeeds only with
    a non-empty secret, a positive finite timestamp that is not more than the
    allowed age in the past, and a header that denotes exactly the HMAC of the
    timestamp and the payload under that secret. *)
Theorem verification_sound payload sig ts secret now maxAge :
  verifyWebhookSignature payload sig ts secret now maxAge = VALID ->
  exists k t, secret = VString k /\ k <> EmptyString /\ ts = VNumber t /\ is_finite t = true /\
    num_leb t (of_int 0) = false /\ num_gtb (num_sub now t) maxAge = false /\
    normalizeSignatureHeader sig = Some (generateSignature payload k t).
Proof.
  unfold verifyWebhookSignature. destruct secret as [| | | |k| |]; try done. case_bool_decide; [done|].
  destruct ts as [| | |t| | |]; try done.
  destruct (is_finite t) eqn:Hf; cbn [negb orb]; [|done].
  destruct (num_leb t (of_int 0)) eqn:Hp; [done|].
  destruct (num_gtb (num_sub now t) maxAge) eqn:Ha; [done|].
  destruct (normalizeSignatureHeader sig) as [h|] eqn:Hn; [|done].
  case_bool_decide as Hlen; cbn [negb]; [|done].
  rewrite compare_digests; [|by eapply normalized_digest|apply hmac_digest].
  case_bool_decide as E; [|done]. intros _. exists k, t. split_and!; try done. congruence.
Qed.

(** A timestamp in the future is never too far away: whatever the lead, the
    signature verifies, so the documented window has no upper end. *)
Theorem future_timestamps_accepted payload secret now lead :
  secret <> EmptyString -> 0 < now -> 0 <= lead ->
  verifySignature payload
    (String.string_of_list_ascii (chars "sha256=" ++ generateSignature payload secret (of_int (now + lead))))
    (of_int (now + lead)) secret (of_int now) (of_int WEBHOOK_SIGNATURE_MAX_AGE_MS) = true.
Proof.
  intros Hk Hn Hl. apply own_signature_valid; [done|lia|].
  rewrite elapsed_above by (unfold WEBHOOK_SIGNATURE_MAX_AGE_MS; lia).
  apply Z.ltb_ge. unfold WEBHOOK_SIGNATURE_MAX_AGE_MS. lia.
Qed.

End Signing.

(** ** Witnesses: a stand-in for HMAC with the documented shape of its digests *)

Definition sample_hmac (k : string) (m : list ascii) : list ascii := replicate 64 "a"%char.
Definition sample_text (n : number) : list ascii := chars "0".

Lemma sample_hmac_digest k m : digest (sample_hmac k m).
Proof. split; [reflexivity|]. apply Forall_replicate. reflexivity. Defined.

Lemma signature_roundtrip_witness :
  verifySignature sample_text sample_hmac VNull
    (String.string_of_list_ascii (chars "sha256=" ++ sample_hmac "key" [])) (of_int 1000) "key" (of_int 2000)
    (of_int WEBHOOK_SIGNATURE_MAX_AGE_MS) = true.
Proof.
  apply (signature_roundtrip sample_text sample_hmac sample_hmac_digest VNull "key" 1000 2000).
  - discriminate.
  - lia.
  - vm_compute. discriminate.
Defined.

Lemma verification_sound_witness :
  normalizeSignatureHeader (VString (String.string_of_list_ascii (replicate 64 "A"%char))) =
  Some (sample_hmac "key" []).
Proof.
  destruct (verification_sound sample_text sample_hmac sample_hmac_digest VNull
    (VString (String.string_of_list_ascii (replicate 64 "A"%char))) (VNumber (of_int 1000)) (VString "key")
    (of_int 2000) (of_int WEBHOOK_SIGNATURE_MAX_AGE_MS)) as (k & t & _ & _ & _ & _ & _ & _ & H).
  - vm_compute. reflexivity.
  - exact H.
Defined.

Lemma future_timestamps_accepted_witness :
  verifySignature sample_text sample_hmac VNull
    (String.string_of_list_ascii (chars "sha256=" ++ sample_hmac "key" [])) (of_int (1000 + 10 ^ 12)) "key"
    (of_int 1000) (of_int WEBHOOK_SIGNATURE_MAX_AGE_MS) = true.
Proof.
  apply (future_timestamps_accepted sample_text sample_hmac sample_hmac_digest VNull "key" 1000 (10 ^ 12)).
  - discriminate.
  - lia.
  - lia.
Defined.

End Signing.
