(* ===== verification/Keyset.v ===== *)
(** * Keyset pagination over SQL rows

    The shape shared by [ContractRepository.findPage] and
    [ReputationRepository.findByTargetIdPaginated]: rows ordered by
    (created_at, id) descending, a cursor that carries the position of the last
    row of a page, and one extra row fetched to learn whether more follow.  A
    client that follows the cursors is shown to see every row once, in order. *)

From stdpp Require Import prelude strings sorting.
From Stdlib Require Import ZArith Lia.
From S2P Require Import Prelude JsMap Cursor.
Open Scope Z_scope.

Module Keyset.

(** The two columns a table is paginated by. *)
Class KeysetRow (A : Type) : Type := {
  row_created : A -> string;
  row_key : A -> string;
}.

Inductive page_error : Type :=
| BadLimit (e : Cursor.limit_error)
| BadCursor (e : Cursor.cursor_error).

Definition text_lt (a b : string) : Prop := String.le a b /\ a <> b.
#[global] Instance text_lt_dec : RelDecision text_lt.
Proof. unfold text_lt. intros a b. apply _. Defined.

Section Keyset.
Context {A : Type} {row : KeysetRow A}.

(** ORDER BY created_at DESC, id DESC *)
Definition page_order (a b : A) : Prop :=
  text_lt (row_created b) (row_created a) \/
  (row_created b = row_created a /\ String.le (row_key b) (row_key a)).
#[global] Instance page_order_dec : RelDecision page_order.
Proof. unfold page_order. intros a b. apply _. Defined.

(** WHERE created_at < ? OR (created_at = ? AND id < ?) *)
Definition after (p : Cursor.CursorPosition) (r : A) : Prop :=
  text_lt (row_created r) (Cursor.createdAt p) \/
  (row_created r = Cursor.createdAt p /\ text_lt (row_key r) (Cursor.id p)).
#[global] Instance after_dec p r : Decision (after p r).
Proof. unfold after. apply _. Defined.

Definition row_position (r : A) : Cursor.CursorPosition :=
  {| Cursor.createdAt := row_created r; Cursor.id := row_key r |}.

Record page : Type := {
  page_rows : list A;
  page_next : option string;
  page_more : bool;
  page_limit : Z;
}.

(** The page cut out of the rows after the cursor, in page order; the query
    fetches one row more than the page holds. *)
Definition make_page (n : Z) (selected : list A) : page :=
  let fetched := take (Z.to_nat n + 1) selected in
  let hasNext := bool_decide (n < Z.of_nat (length fetched)) in
  let pageRows := if hasNext then take (Z.to_nat n) fetched else fetched in
  {| page_rows := pageRows;
     page_next := if hasNext
                  then (fun r => Cursor.encodeCursor (row_position r)) <$> last pageRows
                  else None;
     page_more := hasNext;
     page_limit := n |}.

Definition fetch_page (date_parses : string -> bool) (raw : Cursor.raw_limit)
    (cursor : option string) (all : list A) : result page_error page :=
  match Cursor.parseLimit raw with
  | Err e => Err (BadLimit e)
  | Ok n =>
      match cursor with
      | None => Ok (make_page n (merge_sort page_order all))
      | Some c =>
          if bool_decide (c = EmptyString) then Ok (make_page n (merge_sort page_order all))
          else match Cursor.decodeCursor date_parses c with
               | Err e => Err (BadCursor e)
               | Ok p => Ok (make_page n (merge_sort page_order (filter (after p) all)))
               end
      end
  end.

(** A client that follows the cursors. *)
Fixpoint walk_pages (date_parses : string -> bool) (raw : Cursor.raw_limit) (all : list A)
    (fuel : nat) (cursor : option string) : option (list A) :=
  match fuel with
  | O => None
  | S fuel =>
      match fetch_page date_parses raw cursor all with
      | Err _ => None
      | Ok p =>
          match page_next p with
          | None => Some (page_rows p)
          | Some c => app (page_rows p) <$> walk_pages date_parses raw all fuel (Some c)
          end
      end
  end.

(** ** The order *)

Lemma text_lt_trans a b c : text_lt a b -> text_lt b c -> text_lt a c.
Proof.
  intros [H1 N1] [H2 N2]. split; [by etransitivity|]. intros ->.
  apply N2. by apply (anti_symm String.le).
Qed.

Lemma text_lt_asym a b : text_lt a b -> ~ String.le b a.
Proof. intros [H1 N1] H2. apply N1. by apply (anti_symm String.le). Qed.

#[global] Instance page_order_trans : Transitive page_order.
Proof.
  intros a b c [H1|[E1 H1]] [H2|[E2 H2]].
  - left. by eapply text_lt_trans.
  - left. by rewrite E2.
  - left. by rewrite <- E1.
  - right. split; [congruence|by etransitivity].
Qed.

#[global] Instance page_order_total : Total page_order.
Proof.
  intros a b. unfold page_order.
  destruct (decide (row_created a = row_created b)) as [E|N].
  - destruct (total String.le (row_key a) (row_key b)); auto.
  - destruct (total String.le (row_created a) (row_created b)).
    + right; left. by split.
    + left; left. split; congruence.
Qed.

Lemma page_order_same a b : page_order a b -> page_order b a -> row_key a = row_key b.
Proof.
  intros [H1|[E1 H1]] [H2|[E2 H2]].
  - by apply text_lt_asym in H1 as []; apply H2.
  - exfalso. apply (text_lt_asym _ _ H1). by rewrite E2.
  - exfalso. apply (text_lt_asym _ _ H2). by rewrite E1.
  - by apply (anti_symm String.le).
Qed.

(** The rows after a row's own position are those that come later in page
    order. *)
Lemma after_iff a b : row_key a <> row_key b -> after (row_position a) b <-> page_order a b.
Proof. intros Hne. unfold after, page_order, text_lt. simpl. naive_solver. Qed.

Lemma not_after a b : page_order b a -> ~ after (row_position a) b.
Proof.
  intros [H1|[E1 H1]] [H2|[E2 H2]]; simpl in *.
  - by apply (text_lt_asym _ _ H1), H2.
  - destruct H1 as [_ N]. congruence.
  - destruct H2 as [_ N]. congruence.
  - by apply (text_lt_asym _ _ H2).
Qed.

Lemma filter_merge_sort (P : A -> Prop) `{!forall x, Decision (P x)} l :
  (forall a b, a ∈ l -> b ∈ l -> row_key a = row_key b -> a = b) ->
  merge_sort page_order (filter P l) = filter P (merge_sort page_order l).
Proof.
  intros Hkey. apply (StronglySorted_unique_strong page_order).
  - intros a b. rewrite merge_sort_Permutation, !list_elem_of_filter, merge_sort_Permutation.
    intros [_ Ha] [_ Hb] H1 H2. apply Hkey; [done|done|]. by apply page_order_same.
  - apply (StronglySorted_merge_sort _ _).
  - apply filter_StronglySorted, (StronglySorted_merge_sort _ _).
  - by rewrite !merge_sort_Permutation.
Qed.

Lemma filter_after l1 x l2 :
  StronglySorted page_order (l1 ++ x :: l2) -> NoDup (row_key <$> l1 ++ x :: l2) ->
  filter (after (row_position x)) (l1 ++ x :: l2) = l2.
Proof.
  intros Hs Hnd. rewrite filter_app, filter_cons, decide_False by (apply not_after; right; by split).
  assert (filter (after (row_position x)) l1 = []) as ->.
  { apply filter_keep_none. apply Forall_forall. intros y Hy. apply not_after.
    eapply StronglySorted_app_1_elem_of; [exact Hs|done|left]. }
  simpl. apply filter_keep_all. apply Forall_forall. intros y Hy.
  rewrite fmap_app in Hnd. apply NoDup_app in Hnd as (_ & _ & [Hx _]%NoDup_cons).
  apply after_iff.
  - intros E. apply Hx. apply list_elem_of_fmap. eauto.
  - apply StronglySorted_app_1_r, StronglySorted_inv in Hs as [_ Hall].
    by eapply Forall_forall in Hall.
Qed.

(** ** Walking the pages *)

(** Rows selected from a table keep distinct primary keys. *)
Lemma selected_keys (P : A -> Prop) `{!forall r, Decision (P r)} (table : list (string * A)) :
  wf table -> (forall k r, map_get k table = Some r -> row_key r = k) ->
  NoDup (row_key <$> filter P (map_values table)).
Proof.
  intros Hwf Hid. unfold map_values. assert (Hids : row_key <$> table.*2 = table.*1).
  { rewrite <- list_fmap_compose. apply list_fmap_ext. intros i [k r] Hi. simpl.
    apply Hid. apply elem_of_map_get; [done|]. by eapply list_elem_of_lookup_2. }
  assert (Hnd : NoDup (row_key <$> table.*2)) by (rewrite Hids; exact Hwf).
  revert Hnd. generalize (table.*2). induction l as [|r l IH]; [done|].
  cbn [fmap list_fmap]. intros [Hn Hnd]%NoDup_cons. rewrite filter_cons. case_decide; [|by apply IH].
  cbn [fmap list_fmap]. constructor; [|by apply IH].
  rewrite list_elem_of_fmap. intros (q & Eq & [_ Hq]%list_elem_of_filter). apply Hn.
  rewrite Eq. by apply list_elem_of_fmap_2.
Qed.

Section Walk.
Context (date_parses : string -> bool) (raw : Cursor.raw_limit) (n : Z) (all : list A).
Hypothesis Hkeys : NoDup (row_key <$> all).
Hypothesis Hlimit : Cursor.parseLimit raw = Ok n.
Hypothesis Hsafe : forall r, r ∈ all -> Cursor.cursor_safe date_parses (row_position r).

Notation sorted := (merge_sort page_order all).

Lemma rows_by_key a b : a ∈ all -> b ∈ all -> row_key a = row_key b -> a = b.
Proof.
  intros [i Hi]%list_elem_of_lookup [j Hj]%list_elem_of_lookup E.
  assert (i = j) as ->.
  { eapply (NoDup_lookup (row_key <$> all)); [done|rewrite list_lookup_fmap, Hi; done|].
    rewrite list_lookup_fmap, Hj. by rewrite E. }
  congruence.
Qed.

Lemma page_after l1 x l2 :
  sorted = l1 ++ x :: l2 ->
  fetch_page date_parses raw (Some (Cursor.encodeCursor (row_position x))) all = Ok (make_page n l2).
Proof.
  intros Hl. unfold fetch_page. rewrite Hlimit.
  assert (Hx : x ∈ all) by (rewrite <- (merge_sort_Permutation page_order all), Hl; set_solver).
  pose proof (Cursor.decode_encode_safe _ _ (Hsafe x Hx)) as Hdec.
  rewrite bool_decide_eq_false_2; [|intros E; rewrite E in Hdec; discriminate Hdec].
  rewrite Hdec, filter_merge_sort by apply rows_by_key.
  rewrite Hl, filter_after; [done| |].
  - rewrite <- Hl. apply (StronglySorted_merge_sort _ _).
  - rewrite <- Hl, merge_sort_Permutation. exact Hkeys.
Qed.

(** A page is a prefix of the selected rows; when rows are left its cursor is
    the last row of the page. *)
Lemma make_page_cases l :
  (page_rows (make_page n l) = l /\ page_next (make_page n l) = None) \/
  (exists l1 x l2, l = l1 ++ x :: l2 /\ page_rows (make_page n l) = l1 ++ [x] /\
     page_next (make_page n l) = Some (Cursor.encodeCursor (row_position x))).
Proof.
  pose proof (Cursor.parseLimit_range _ _ Hlimit) as [Hn _].
  unfold make_page. simpl. rewrite length_take.
  destruct (decide (Z.of_nat (length l) <= n)) as [Hle|Hgt].
  - left. rewrite bool_decide_eq_false_2 by lia. rewrite take_ge by lia. done.
  - right. rewrite bool_decide_eq_true_2 by lia. rewrite take_take, Nat.min_l by lia.
    destruct (Z.to_nat n) as [|k] eqn:Ek; [lia|].
    destruct (lookup_lt_is_Some_2 l k) as [x Hx]; [lia|].
    exists (take k l), x, (drop (S k) l).
    rewrite (take_S_r l k x) by done. split_and!.
    + by rewrite take_drop_middle.
    + done.
    + by rewrite last_snoc.
Qed.

Lemma walk_suffix fuel l1 x l2 :
  sorted = l1 ++ x :: l2 -> (length l2 < fuel)%nat ->
  walk_pages date_parses raw all fuel (Some (Cursor.encodeCursor (row_position x))) = Some l2.
Proof.
  revert l1 x l2. induction fuel as [|fuel IH]; intros l1 x l2 Hl Hlen; [lia|].
  cbn [walk_pages]. rewrite (page_after l1 x l2) by done.
  destruct (make_page_cases l2) as [[Hd Hn]|(k1 & y & k2 & -> & Hd & Hn)]; rewrite Hn, Hd; [done|].
  rewrite length_app in Hlen. simpl in Hlen.
  rewrite (IH (l1 ++ x :: k1) y k2); [|rewrite Hl, <- app_assoc; done|lia].
  simpl. by rewrite <- app_assoc.
Qed.

Lemma walk_complete fuel :
  (length all < fuel)%nat -> walk_pages date_parses raw all fuel None = Some sorted.
Proof.
  intros Hlen. destruct fuel as [|fuel]; [lia|]. cbn [walk_pages]. unfold fetch_page. rewrite Hlimit.
  destruct (make_page_cases sorted) as [[Hd Hn]|(l1 & x & l2 & Hl & Hd & Hn)]; rewrite Hn, Hd; [done|].
  assert (Hlen2 : length all = (length l1 + S (length l2))%nat).
  { rewrite <- (Permutation_length (merge_sort_Permutation page_order all)), Hl, length_app. done. }
  rewrite (walk_suffix fuel l1 x l2) by (done || lia).
  rewrite Hl. simpl. by rewrite <- app_assoc.
Qed.

Lemma sorted_newest_first : StronglySorted (fun x y => String.le (row_created y) (row_created x)) sorted.
Proof.
  pose proof (StronglySorted_merge_sort page_order all) as Hs.
  induction Hs as [|x l Hs IH Hall]; constructor; [done|]. eapply Forall_impl; [exact Hall|].
  intros y [[H _]|[E _]]; [done|]. by rewrite E.
Qed.

End Walk.
End Keyset.
End Keyset.
