(* ===== verification/SoftDelete.v ===== *)
(** * Soft-delete helpers: src/utils/softDelete.ts

    Instants are epoch milliseconds ([Z]); a record's [deletedAt] is [None]
    for null / undefined / empty string and [Some t] for a date.  Retention
    windows are whole days. *)

From stdpp Require Import prelude strings.
From Stdlib Require Import ZArith Lia.
From S2P Require Import Prelude JsString.
Open Scope Z_scope.

Definition DEFAULT_SOFT_DELETE_RETENTION_DAYS : Z := 30.

Definition day_ms : Z := 24 * 60 * 60 * 1000.

(** Above this an integer literal reads as [Infinity]. *)
Definition max_double : Z := 2 ^ 1024.

Definition parseRetentionDays (envValue : option string) (defaultDays : Z) : Z :=
  match envValue with
  | None => defaultDays
  | Some s =>
      if bool_decide (trim s = EmptyString) then defaultDays
      else match parse_int s with
           | None => defaultDays
           | Some parsed =>
               if bool_decide (max_double ≤ parsed) || bool_decide (parsed ≤ 0)
               then defaultDays else parsed
           end
  end.

Definition isSoftDeleted (deletedAt : option Z) : bool :=
  match deletedAt with Some _ => true | None => false end.

(** [deleted] is [None] when the timestamp does not parse (an Invalid Date). *)
Definition isWithinRetentionWindow (deleted : option Z) (retentionDays now : Z) : bool :=
  match deleted with
  | None => false
  | Some t => bool_decide (now ≤ t + retentionDays * day_ms)
  end.

Definition isPastRetentionWindow (deleted : option Z) (retentionDays now : Z) : bool :=
  negb (isWithinRetentionWindow deleted retentionDays now).

Definition filterNotDeleted {A} (deletedAt : A -> option Z) (items : list A) : list A :=
  filter (fun item => isSoftDeleted (deletedAt item) = false) items.

(** The loop test of every in-memory purge:
    [isSoftDeleted(r.deletedAt) && r.deletedAt && isPastRetentionWindow(...)]. *)
Definition purgeable (deletedAt : option Z) (retentionDays now : Z) : bool :=
  isSoftDeleted deletedAt && isPastRetentionWindow deletedAt retentionDays now.

(** The configured window is always a positive number of days. *)
Lemma parseRetentionDays_pos env d : 0 < d -> 0 < parseRetentionDays env d.
Proof.
  intros Hd. unfold parseRetentionDays. destruct env as [s|]; [|done].
  case_bool_decide; [done|]. destruct (parse_int s) as [n|]; [|done].
  destruct (_ || _) eqn:E; [done|]. bool_to_prop. lia.
Qed.

Lemma isSoftDeleted_true d : isSoftDeleted d = true <-> exists t, d = Some t.
Proof. destruct d; simpl; naive_solver. Qed.

Lemma isSoftDeleted_false d : isSoftDeleted d = false <-> d = None.
Proof. destruct d; simpl; naive_solver. Qed.

Lemma purgeable_true d days now :
  purgeable d days now = true <-> exists t, d = Some t /\ t + days * day_ms < now.
Proof.
  unfold purgeable, isPastRetentionWindow. destruct d as [t|]; simpl; [|naive_solver].
  case_bool_decide; simpl; naive_solver lia.
Qed.

(** Being restorable and being purgeable are complementary. *)
Lemma purgeable_within t days now :
  purgeable (Some t) days now = negb (isWithinRetentionWindow (Some t) days now).
Proof. done. Qed.

Lemma elem_of_filterNotDeleted {A} (f : A -> option Z) items x :
  x ∈ filterNotDeleted f items <-> x ∈ items /\ f x = None.
Proof. unfold filterNotDeleted. rewrite list_elem_of_filter, isSoftDeleted_false. tauto. Qed.
