(* ===== verification/Bounds.v ===== *)
(** * Contract policy bounds: src/contracts/bounds.ts

    [validateContractBounds] guards the escrow contract against malformed or
    oversized input, so its arguments are dynamic values; amounts are IEEE
    doubles.  The theorems say what a [valid] verdict guarantees, and that for
    amounts that are whole stroops the rounding of the running total never
    lets a sum above the cap pass. *)

From stdpp Require Import prelude strings.
From Stdlib Require Import ZArith Lia.
From S2P Require Import Prelude JsValue.
Open Scope Z_scope.

Definition MAX_MILESTONES_PER_CONTRACT : nat := 20.
Definition MAX_AMOUNT : Z := 100000000000000.
Definition MAX_CONTRACT_AMOUNT_STROOPS : number := of_int MAX_AMOUNT.

(** The messages a [ContractBoundsError] can carry. *)
Inductive bounds_error : Type :=
| BudgetNotFinite
| BudgetExceedsMax
| MilestonesNotArray
| TooManyMilestones (count : nat)
| MilestoneMalformed
| MilestoneTotalExceedsMax
| MilestonesExceedBudget (total budget : number).

#[export] Instance bounds_error_eq_dec : EqDecision bounds_error.
Proof. solve_decision. Defined.

(** [!Number.isFinite(total) || total > MAX_CONTRACT_AMOUNT_STROOPS] *)
Definition over_cap (total : number) : bool :=
  negb (is_finite total) || num_gtb total MAX_CONTRACT_AMOUNT_STROOPS.

(** The loop over the milestones, with the running total. *)
Fixpoint check_milestones (total : number) (milestones : list value)
  : result bounds_error unit :=
  match milestones with
  | [] => Ok tt
  | m :: rest =>
      if negb (is_object m) || negb (value_finite (prop m "amount"))
      then Err MilestoneMalformed
      else
        match as_number (prop m "amount") with
        | None => Err MilestoneMalformed
        | Some amount =>
            let total' := num_add total amount in
            if over_cap total' then Err MilestoneTotalExceedsMax
            else check_milestones total' rest
        end
  end.

Definition validateContractBounds (budget milestones : value) : result bounds_error unit :=
  match budget with
  | VNumber b =>
      if negb (is_finite b) then Err BudgetNotFinite
      else if num_gtb b MAX_CONTRACT_AMOUNT_STROOPS then Err BudgetExceedsMax
      else
        match milestones with
        | VUndefined | VNull => Ok tt
        | VArray ms =>
            if bool_decide (MAX_MILESTONES_PER_CONTRACT < length ms)%nat
            then Err (TooManyMilestones (length ms))
            else check_milestones (of_int 0) ms
        | _ => Err MilestonesNotArray
        end
  | _ => Err BudgetNotFinite
  end.

(** [milestones.reduce((sum, m) => sum + m.amount, 0)].  It runs only after the
    validation above, which has established that every amount is a number. *)
Definition total_amount (ms : list value) : number :=
  foldl (fun sum m => num_add sum (default NaN (as_number (prop m "amount")))) (of_int 0) ms.

(** The budget guard that [validateMilestonesAgainstBudget] and
    [createContract] both apply after the policy bounds: the milestones must
    not sum to more than the caller's own budget. *)
Definition check_budget (budget milestones : value) : result bounds_error unit :=
  match budget, milestones with
  | VNumber b, VArray (m :: ms) =>
      let total := total_amount (m :: ms) in
      if num_gtb total b then Err (MilestonesExceedBudget total b) else Ok tt
  | _, _ => Ok tt
  end.

(** ** Specification *)

(** The amount of a well-formed milestone, in units of 2^-1074. *)
Definition milestone_amount (m : value) : option Z :=
  if is_object m
  then match prop m "amount" with VNumber (Fin u) => Some u | _ => None end
  else None.

Fixpoint running_totals (acc : number) (us : list Z) : list number :=
  match us with
  | [] => []
  | u :: us' => num_add acc (Fin u) :: running_totals (num_add acc (Fin u)) us'
  end.

Definition milestones_within (ms : list value) : Prop :=
  (length ms ≤ MAX_MILESTONES_PER_CONTRACT)%nat /\
  exists us, Forall2 (fun m u => milestone_amount m = Some u) ms us /\
             Forall (fun t => over_cap t = false) (running_totals (of_int 0) us).

Definition within_policy (budget milestones : value) : Prop :=
  (exists u, budget = VNumber (Fin u) /\
             num_gtb (Fin u) MAX_CONTRACT_AMOUNT_STROOPS = false) /\
  match milestones with
  | VUndefined | VNull => True
  | VArray ms => milestones_within ms
  | _ => False
  end.

(** The exact sum of whole-stroop amounts. *)
Definition exact_sum (ns : list Z) : Z := foldr Z.add 0 ns.

(** ** Lemmas *)

Lemma max_amount_exact :
  MAX_CONTRACT_AMOUNT_STROOPS = Fin (MAX_AMOUNT * num_scale).
Proof. done. Qed.

#[local] Opaque MAX_CONTRACT_AMOUNT_STROOPS.

Lemma milestone_amount_spec m :
  match milestone_amount m with
  | Some u => is_object m = true /\ prop m "amount" = VNumber (Fin u)
  | None => negb (is_object m) || negb (value_finite (prop m "amount")) = true
  end.
Proof.
  unfold milestone_amount. destruct (is_object m); [|done].
  destruct (prop m "amount") as [| | |[]| | |]; done.
Qed.

Lemma check_milestones_cons total m rest :
  check_milestones total (m :: rest) =
  match milestone_amount m with
  | None => Err MilestoneMalformed
  | Some u =>
      if over_cap (num_add total (Fin u)) then Err MilestoneTotalExceedsMax
      else check_milestones (num_add total (Fin u)) rest
  end.
Proof.
  pose proof (milestone_amount_spec m) as H. simpl.
  destruct (milestone_amount m) as [u|]; [destruct H as [-> ->]|rewrite H]; done.
Qed.

Lemma check_milestones_ok total ms :
  check_milestones total ms = Ok tt <->
  exists us, Forall2 (fun m u => milestone_amount m = Some u) ms us /\
             Forall (fun t => over_cap t = false) (running_totals total us).
Proof.
  revert total. induction ms as [|m ms IH]; intros total.
  - split; [intros _|done]. exists []. split; constructor.
  - rewrite check_milestones_cons. split.
    + destruct (milestone_amount m) as [u|] eqn:Em; [|done].
      destruct (over_cap _) eqn:Ec; [done|]. intros [us [H1 H2]]%IH.
      exists (u :: us). split; constructor; auto.
    + intros [us [H1 H2]]. inversion H1 as [|? u ? us' Em H1']; simplify_eq.
      inversion H2 as [|? ? Ec H2']; simplify_eq. rewrite Em, Ec. apply IH. eauto.
Qed.

Lemma over_cap_int n : 0 <= n < 2 ^ 53 ->
  over_cap (Fin (n * num_scale)) = bool_decide (MAX_AMOUNT < n).
Proof.
  intros Hn. unfold over_cap. rewrite max_amount_exact. rewrite num_gtb_fin. simpl.
  pose proof num_scale_pos.
  case_bool_decide; [apply Z.ltb_lt|apply Z.ltb_ge]; nia.
Qed.

Lemma over_cap_large a n :
  0 <= a -> 0 <= n -> 2 ^ 53 <= a + n ->
  over_cap (num_add (Fin (a * num_scale)) (Fin (n * num_scale))) = true.
Proof.
  intros Ha Hn Hbig. pose proof num_scale_pos.
  destruct (num_add_large (a * num_scale) (n * num_scale) (MAX_AMOUNT * num_scale))
    as [->|(r & -> & Hr)]; try nia.
  - unfold MAX_AMOUNT. nia.
  - done.
  - unfold over_cap. rewrite max_amount_exact. rewrite num_gtb_fin. simpl. by apply Z.ltb_lt.
Qed.

Lemma exact_sum_nonneg ns : Forall (fun n => 0 <= n) ns -> 0 <= exact_sum ns.
Proof. induction 1; simpl; lia. Qed.

(** On whole stroops the checked float sum is the exact sum. *)
Lemma check_milestones_exact ms ns a :
  Forall2 (fun m n => milestone_amount m = Some (n * num_scale)) ms ns ->
  Forall (fun n => 0 <= n) ns -> 0 <= a <= MAX_AMOUNT ->
  check_milestones (Fin (a * num_scale)) ms = Ok tt <-> a + exact_sum ns <= MAX_AMOUNT.
Proof.
  intros Hms Hns. revert a. induction Hms as [|m n ms ns Hm Hms IH]; intros a Ha.
  - simpl. split; [lia|done].
  - apply Forall_cons in Hns as [Hn Hns]. specialize (IH Hns).
    pose proof (exact_sum_nonneg ns Hns). rewrite check_milestones_cons, Hm. simpl.
    destruct (Z.lt_ge_cases (a + n) (2 ^ 53)) as [Hlt|Hge].
    + rewrite num_add_int, over_cap_int by lia. case_bool_decide.
      * split; [done|lia].
      * rewrite IH by lia. lia.
    + rewrite over_cap_large by lia. split; [done|]. unfold MAX_AMOUNT. lia.
Qed.

Lemma total_amount_exact_aux ms ns a :
  Forall2 (fun m n => milestone_amount m = Some (n * num_scale)) ms ns ->
  Forall (fun n => 0 <= n) ns -> 0 <= a -> a + exact_sum ns <= MAX_AMOUNT ->
  foldl (fun sum m => num_add sum (default NaN (as_number (prop m "amount"))))
    (of_int a) ms = of_int (a + exact_sum ns).
Proof.
  intros Hms Hns. revert a. induction Hms as [|m n ms ns Hm Hms IH]; intros a Ha Hsum.
  - simpl. f_equal. lia.
  - apply Forall_cons in Hns as [Hn Hns]. pose proof (exact_sum_nonneg ns Hns).
    pose proof (milestone_amount_spec m) as Hspec. rewrite Hm in Hspec.
    destruct Hspec as [_ Hp]. simpl. rewrite Hp. simpl in *. unfold of_int at 1.
    unfold MAX_AMOUNT in *. rewrite num_add_int by lia.
    change (Fin ((a + n) * num_scale)) with (of_int (a + n)).
    rewrite IH by (done || lia). f_equal. lia.
Qed.

Lemma total_amount_exact ms ns :
  Forall2 (fun m n => milestone_amount m = Some (n * num_scale)) ms ns ->
  Forall (fun n => 0 <= n) ns -> exact_sum ns <= MAX_AMOUNT ->
  total_amount ms = of_int (exact_sum ns).
Proof. intros Hms Hns Hsum. by apply (total_amount_exact_aux ms ns 0). Qed.

Lemma num_gtb_int_decide a b : num_gtb (of_int a) (of_int b) = bool_decide (b < a).
Proof.
  unfold of_int. rewrite num_gtb_fin. pose proof num_scale_pos.
  case_bool_decide; [apply Z.ltb_lt|apply Z.ltb_ge]; nia.
Qed.

Lemma check_budget_exact b ms ns :
  Forall2 (fun m n => milestone_amount m = Some (n * num_scale)) ms ns ->
  Forall (fun n => 0 <= n) ns -> exact_sum ns <= MAX_AMOUNT -> 0 <= b ->
  check_budget (VNumber (of_int b)) (VArray ms) = Ok tt <-> exact_sum ns <= b.
Proof.
  intros Hms Hns Hsum Hb. unfold check_budget. destruct ms as [|m ms].
  - inversion Hms; subst. simpl. split; [lia|done].
  - rewrite (total_amount_exact _ _ Hms Hns Hsum), num_gtb_int_decide.
    case_bool_decide; split; (done || lia).
Qed.

Lemma bounds_exact (b : Z) ms ns :
  0 <= b < 2 ^ 53 ->
  (length ms ≤ MAX_MILESTONES_PER_CONTRACT)%nat ->
  Forall2 (fun m n => milestone_amount m = Some (n * num_scale)) ms ns ->
  Forall (fun n => 0 <= n) ns ->
  validateContractBounds (VNumber (of_int b)) (VArray ms) = Ok tt <->
  b <= MAX_AMOUNT /\ exact_sum ns <= MAX_AMOUNT.
Proof.
  intros Hb Hlen Hms Hns. unfold validateContractBounds.
  change (of_int b) with (Fin (b * num_scale)). cbn [is_finite negb].
  pose proof num_scale_pos.
  replace (num_gtb (Fin (b * num_scale)) MAX_CONTRACT_AMOUNT_STROOPS)
    with (bool_decide (MAX_AMOUNT < b))
    by (rewrite max_amount_exact, num_gtb_fin; case_bool_decide; symmetry;
        [apply Z.ltb_lt|apply Z.ltb_ge]; nia).
  rewrite (bool_decide_eq_false_2 (_ < length ms)%nat) by lia.
  case_bool_decide; [split; [done|lia]|].
  unfold of_int.
  rewrite check_milestones_exact by (done || unfold MAX_AMOUNT; lia).
  lia.
Qed.

(** [validateContractBounds] answers "valid" exactly on finite budgets at
    most the cap with no milestones (absent or null), or with an array of at
    most 20 objects whose amounts are finite numbers and whose running totals
    all stay finite and at most the cap. *)
Theorem validateContractBounds_spec budget milestones :
  validateContractBounds budget milestones = Ok tt <-> within_policy budget milestones.
Proof.
  unfold validateContractBounds, within_policy, milestones_within.
  destruct budget as [| | |b| | |];
    [ | | |destruct b as [| |u]; [| |cbn [is_finite negb]]| | |].
  6: {
  destruct (num_gtb (Fin u) MAX_CONTRACT_AMOUNT_STROOPS) eqn:Eb.
  { split; [intros; discriminate|]. intros [(u' & ? & ?) _]; congruence. }
  assert (Hb : exists u', VNumber (Fin u) = VNumber (Fin u') /\
    num_gtb (Fin u') MAX_CONTRACT_AMOUNT_STROOPS = false) by eauto.
  destruct milestones as [| | | | |ms|]; try tauto; try (split; [done|tauto]).
  case_bool_decide; [split; [done|lia]|].
  rewrite check_milestones_ok. split; [|tauto]. intros Hus. split; [done|].
  split; [lia|done]. }
  all: split; [intros; discriminate|intros [(u' & H1 & _) _]; discriminate H1].
Qed.

(** For a whole-stroop budget and at most 20 whole-stroop, non-negative
    milestone amounts of any size, the verdict is decided by exact integer
    arithmetic: valid iff the budget and the exact sum of the milestones are
    both at most 100000000000000 stroops.  Floating-point rounding of the
    running total can neither admit an oversized sum nor reject a legal one. *)
Theorem validateContractBounds_exact (b : Z) ms ns :
  0 <= b < 2 ^ 53 ->
  (length ms ≤ MAX_MILESTONES_PER_CONTRACT)%nat ->
  Forall2 (fun m n => milestone_amount m = Some (n * num_scale)) ms ns ->
  Forall (fun n => 0 <= n) ns ->
  validateContractBounds (VNumber (of_int b)) (VArray ms) = Ok tt <->
  b <= MAX_AMOUNT /\ exact_sum ns <= MAX_AMOUNT.
Proof. apply bounds_exact. Qed.

Definition sample_milestone (n : Z) : value :=
  VObject [("title", VString "m"); ("amount", VNumber (of_int n))]%string.

Lemma validateContractBounds_exact_witness :
  validateContractBounds (VNumber (of_int 1000))
    (VArray [sample_milestone 400; sample_milestone 600]) = Ok tt <->
  1000 <= MAX_AMOUNT /\ exact_sum [400; 600] <= MAX_AMOUNT.
Proof.
  apply (validateContractBounds_exact 1000 _ [400; 600]).
  - lia.
  - simpl. unfold MAX_MILESTONES_PER_CONTRACT. lia.
  - repeat constructor; vm_compute; reflexivity.
  - repeat constructor; lia.
Defined.
