(* ===== verification/Milestones.v ===== *)
(** * Milestones: src/services/milestones.service.ts

    The module-level [milestoneStore] is a JavaScript [Map] keyed by milestone
    id.  [randomUUID], the clock and the environment variable that sets the
    retention window are arguments; webhook triggers are recorded in the state
    (delivery is fire-and-forget and its outcome is never observed). *)

From stdpp Require Import prelude strings.
From Stdlib Require Import ZArith Lia.
From S2P Require Import Prelude JsMap JsValue SoftDelete Bounds.
Open Scope Z_scope.

Module Milestones.

Record MilestoneRecord : Type := {
  id : string;
  contractId : string;
  title : string;
  description : string;
  amount : number;
  deadline : option string;
  completed : bool;
  createdAt : Z;
  updatedAt : Z;
  deletedAt : option Z;
}.

Record CreateMilestoneInput : Type := {
  in_title : string;
  in_description : option string;
  in_amount : number;
  in_deadline : option string;
  in_completed : option bool;
}.

(** The payload of a [milestone.released] webhook. *)
Record ReleasedEvent : Type := {
  ev_milestoneId : string;
  ev_contractId : string;
  ev_title : string;
  ev_amount : number;
  ev_completedAt : Z;
}.

Inductive error : Type :=
| MilestoneNotFoundError (contractId milestoneId : string)   (* 404 *)
| AlreadySoftDeleted (milestoneId : string)                  (* 409 *)
| NotSoftDeleted (milestoneId : string)                      (* 409 *)
| SoftDeleteRetentionError (milestoneId : string) (days : Z) (* 410 *)
| ContractBoundsError (e : bounds_error).

Record state : Type := {
  milestoneStore : list (string * MilestoneRecord);
  triggered : list ReleasedEvent;
}.

Definition set_store (m : list (string * MilestoneRecord)) (s : state) : state :=
  {| milestoneStore := m; triggered := triggered s |}.

Definition with_deletedAt (d : option Z) (now : Z) (r : MilestoneRecord) : MilestoneRecord :=
  {| id := id r; contractId := contractId r; title := title r;
     description := description r; amount := amount r; deadline := deadline r;
     completed := completed r; createdAt := createdAt r;
     updatedAt := now; deletedAt := d |}.

Section Service.
(** [webhooks]: a webhook service was injected.
    [env]: MILESTONES_SOFT_DELETE_RETENTION_DAYS. *)
Context (webhooks : bool) (env : option string).

Definition getRetentionDays : Z :=
  parseRetentionDays env DEFAULT_SOFT_DELETE_RETENTION_DAYS.

Definition validateBounds (budget milestones : value) : result error unit :=
  match validateContractBounds budget milestones with
  | Ok _ => Ok tt
  | Err e => Err (ContractBoundsError e)
  end.

Definition validateMilestonesAgainstBudget (budget milestones : value) : result error unit :=
  match validateBounds budget milestones with
  | Err e => Err e
  | Ok _ =>
      match check_budget budget milestones with
      | Ok _ => Ok tt
      | Err e => Err (ContractBoundsError e)
      end
  end.

Definition new_record (uuid : string) (now : Z) (cid : string) (input : CreateMilestoneInput)
  : MilestoneRecord :=
  {| id := uuid; contractId := cid; title := in_title input;
     description := default EmptyString (in_description input);
     amount := in_amount input; deadline := in_deadline input;
     completed := default false (in_completed input);
     createdAt := now; updatedAt := now; deletedAt := None |}.

Definition released_event (r : MilestoneRecord) : ReleasedEvent :=
  {| ev_milestoneId := id r; ev_contractId := contractId r; ev_title := title r;
     ev_amount := amount r; ev_completedAt := updatedAt r |}.

Definition create (uuid : string) (now : Z) (cid : string) (input : CreateMilestoneInput)
  : SE state error MilestoneRecord :=
  fun s =>
    let record := new_record uuid now cid input in
    let store' := map_set (id record) record (milestoneStore s) in
    let triggered' :=
      if webhooks && completed record then triggered s ++ [released_event record]
      else triggered s in
    (Ok record, {| milestoneStore := store'; triggered := triggered' |}).

Definition listByContract (cid : string) (includeDeleted : bool) (s : state)
  : list MilestoneRecord :=
  let all := filter (fun m => contractId m = cid) (map_values (milestoneStore s)) in
  let filtered := if includeDeleted then all else filterNotDeleted deletedAt all in
  sort_by createdAt filtered.

(** The lookup shared by every per-milestone operation:
    [if (!record || record.contractId !== contractId) throw ...]. *)
Definition find_record (cid mid : string) : SE state error MilestoneRecord :=
  fun s =>
    match map_get mid (milestoneStore s) with
    | Some r =>
        if bool_decide (contractId r = cid) then (Ok r, s)
        else (Err (MilestoneNotFoundError cid mid), s)
    | None => (Err (MilestoneNotFoundError cid mid), s)
    end.

Definition store_record (mid : string) (r : MilestoneRecord) : SE state error MilestoneRecord :=
  fun s => (Ok r, set_store (map_set mid r (milestoneStore s)) s).

Definition getById (cid mid : string) (includeDeleted : bool) : SE state error MilestoneRecord :=
  let! record := find_record cid mid in
  throw_if (negb includeDeleted && isSoftDeleted (deletedAt record))
    (MilestoneNotFoundError cid mid) ;;
  ret record.

Definition softDelete (cid mid : string) (now : Z) : SE state error MilestoneRecord :=
  let! record := find_record cid mid in
  throw_if (isSoftDeleted (deletedAt record)) (AlreadySoftDeleted mid) ;;
  store_record mid (with_deletedAt (Some now) now record).

Definition restore (cid mid : string) (now : Z) : SE state error MilestoneRecord :=
  let! record := find_record cid mid in
  throw_if (negb (isSoftDeleted (deletedAt record))) (NotSoftDeleted mid) ;;
  throw_if (negb (isWithinRetentionWindow (deletedAt record) getRetentionDays now))
    (SoftDeleteRetentionError mid getRetentionDays) ;;
  store_record mid (with_deletedAt None now record).

Definition purgeExpired (now : Z) : SE state error Z :=
  fun s =>
    let '(store', purged) :=
      map_purge_loop (fun r => purgeable (deletedAt r) getRetentionDays now)
        (milestoneStore s) in
    (Ok purged, set_store store' s).

Definition clearStore : SE state error unit := fun s => (Ok tt, set_store [] s).
Definition storeSize (s : state) : nat := length (milestoneStore s).

(** ** Operations as steps *)

Inductive op : Type :=
| OpCreate (uuid : string) (now : Z) (cid : string) (input : CreateMilestoneInput)
| OpGet (cid mid : string) (includeDeleted : bool)
| OpSoftDelete (cid mid : string) (now : Z)
| OpRestore (cid mid : string) (now : Z)
| OpPurge (now : Z).

Definition exec (o : op) (s : state) : state :=
  match o with
  | OpCreate uuid now cid input => (create uuid now cid input s).2
  | OpGet cid mid b => (getById cid mid b s).2
  | OpSoftDelete cid mid now => (softDelete cid mid now s).2
  | OpRestore cid mid now => (restore cid mid now s).2
  | OpPurge now => (purgeExpired now s).2
  end.

(** [randomUUID] never returns an id that is in the store. *)
Definition fresh_op (o : op) (s : state) : Prop :=
  match o with
  | OpCreate uuid _ _ _ => map_get uuid (milestoneStore s) = None
  | _ => True
  end.

Inductive step : state -> state -> Prop :=
| step_op o s : fresh_op o s -> step s (exec o s).

Definition store_ok (s : state) : Prop :=
  wf (milestoneStore s) /\
  forall k r, map_get k (milestoneStore s) = Some r -> id r = k.

Definition initial : state := {| milestoneStore := []; triggered := [] |}.

(** What a stored milestone says, apart from its soft-delete bookkeeping. *)
Definition content (r : MilestoneRecord) :=
  (id r, contractId r, title r, description r, amount r, deadline r, completed r, createdAt r).

(** ** Lemmas *)

Lemma find_record_cases cid mid s :
  (exists r, map_get mid (milestoneStore s) = Some r /\ contractId r = cid /\
             find_record cid mid s = (Ok r, s)) \/
  ((forall r, map_get mid (milestoneStore s) = Some r -> contractId r <> cid) /\
   find_record cid mid s = (Err (MilestoneNotFoundError cid mid), s)).
Proof.
  unfold find_record. destruct (map_get mid (milestoneStore s)) as [r|]; [|naive_solver].
  case_bool_decide; naive_solver.
Qed.

(** Each mutation of one record: it either leaves the state alone or rewrites
    the soft-delete fields of the record it found. *)
Lemma getById_state cid mid b s : (getById cid mid b s).2 = s.
Proof.
  unfold getById, bind. destruct (find_record_cases cid mid s) as [(r & _ & _ & ->)|[_ ->]]; [|done].
  unfold throw_if. by destruct (_ && _).
Qed.

Lemma softDelete_state cid mid now s :
  (softDelete cid mid now s).2 = s \/
  exists r, map_get mid (milestoneStore s) = Some r /\
    (softDelete cid mid now s).2 =
    set_store (map_set mid (with_deletedAt (Some now) now r) (milestoneStore s)) s.
Proof.
  unfold softDelete, bind.
  destruct (find_record_cases cid mid s) as [(r & Hr & _ & ->)|[_ ->]]; [|by left].
  unfold throw_if. destruct (isSoftDeleted _); [by left|]. right. eauto.
Qed.

Lemma restore_state cid mid now s :
  (restore cid mid now s).2 = s \/
  exists r, map_get mid (milestoneStore s) = Some r /\
    (restore cid mid now s).2 =
    set_store (map_set mid (with_deletedAt None now r) (milestoneStore s)) s.
Proof.
  unfold restore, bind.
  destruct (find_record_cases cid mid s) as [(r & Hr & _ & ->)|[_ ->]]; [|by left].
  unfold throw_if. destruct (negb _); [by left|]. simpl.
  destruct (negb _); [by left|]. right. eauto.
Qed.

Lemma purge_get now s k r :
  wf (milestoneStore s) ->
  map_get k (milestoneStore (purgeExpired now s).2) = Some r <->
  map_get k (milestoneStore s) = Some r /\
  purgeable (deletedAt r) getRetentionDays now = false.
Proof.
  intros Hwf. unfold purgeExpired.
  pose proof (map_get_purge (fun r => purgeable (deletedAt r) getRetentionDays now)
    _ k r Hwf) as H. by destruct (map_purge_loop _ _).
Qed.

Lemma store_ok_set s k r : store_ok s -> id r = k ->
  store_ok (set_store (map_set k r (milestoneStore s)) s).
Proof.
  intros [Hwf Hid] Hr. split; simpl; [by apply wf_set|].
  intros k' r' Hget. simplify_get; eauto.
Qed.

Lemma exec_store_ok o s : store_ok s -> store_ok (exec o s).
Proof.
  intros Hok. pose proof Hok as [Hwf Hid].
  destruct o as [uuid now cid input|cid mid b|cid mid now|cid mid now|now]; simpl.
  - apply (store_ok_set s); done.
  - by rewrite getById_state.
  - destruct (softDelete_state cid mid now s) as [->|(r & Hr & ->)]; [done|].
    apply store_ok_set; [done|]. simpl. eauto.
  - destruct (restore_state cid mid now s) as [->|(r & Hr & ->)]; [done|].
    apply store_ok_set; [done|]. simpl. eauto.
  - split.
    + unfold purgeExpired. pose proof (wf_purge
        (fun r => purgeable (deletedAt r) getRetentionDays now) _ Hwf) as H.
      by destruct (map_purge_loop _ _).
    + intros k r Hget%purge_get; [|done]. naive_solver.
Qed.

Lemma exec_content o s k r :
  store_ok s -> fresh_op o s -> map_get k (milestoneStore s) = Some r ->
  (exists r', map_get k (milestoneStore (exec o s)) = Some r' /\ content r' = content r) \/
  (exists now, o = OpPurge now /\ purgeable (deletedAt r) getRetentionDays now = true).
Proof.
  intros [Hwf Hid] Hfresh Hget.
  destruct o as [uuid now cid input|cid mid b|cid mid now|cid mid now|now]; simpl in *.
  - left. exists r. split; [|done]. rewrite map_get_set_ne; [done|]. congruence.
  - left. rewrite getById_state. eauto.
  - left. destruct (softDelete_state cid mid now s) as [->|(r0 & Hr & ->)]; [eauto|].
    simpl. destruct (decide (mid = k)) as [->|Hne].
    + rewrite map_get_set_eq. naive_solver.
    + rewrite map_get_set_ne by done. eauto.
  - left. destruct (restore_state cid mid now s) as [->|(r0 & Hr & ->)]; [eauto|].
    simpl. destruct (decide (mid = k)) as [->|Hne].
    + rewrite map_get_set_eq. naive_solver.
    + rewrite map_get_set_ne by done. eauto.
  - destruct (purgeable (deletedAt r) getRetentionDays now) eqn:E; [right; eauto|].
    left. exists r. split; [|done]. by apply purge_get.
Qed.

Lemma reachable_store_ok s : rtc step initial s -> store_ok s.
Proof.
  intros Hrtc. assert (Hinit : store_ok initial) by (split; [apply wf_nil|done]).
  revert Hinit. induction Hrtc as [|s1 s2 s3 Hstep _ IH]; [done|].
  intros Hok. destruct Hstep. by apply IH, exec_store_ok.
Qed.

(** Runs of operations, with ids drawn fresh at each creation. *)
Fixpoint run (ops : list op) (s : state) : state :=
  match ops with
  | [] => s
  | o :: ops' => run ops' (exec o s)
  end.

Fixpoint fresh_run (ops : list op) (s : state) : Prop :=
  match ops with
  | [] => True
  | o :: ops' => fresh_op o s /\ fresh_run ops' (exec o s)
  end.

Definition is_purge (o : op) : bool :=
  match o with OpPurge _ => true | _ => false end.

(** ValidateMilestonesAgainstBudget on a whole-stroop budget and at most 20
    non-negative whole-stroop milestone amounts succeeds exactly when the
    budget is within the policy cap and the exact sum of the milestones does
    not exceed the budget: payouts can never overrun the contract. *)
Theorem validateMilestonesAgainstBudget_exact (b : Z) ms ns :
  0 <= b < 2 ^ 53 ->
  (length ms ≤ MAX_MILESTONES_PER_CONTRACT)%nat ->
  Forall2 (fun m n => milestone_amount m = Some (n * num_scale)) ms ns ->
  Forall (fun n => 0 <= n) ns ->
  validateMilestonesAgainstBudget (VNumber (of_int b)) (VArray ms) = Ok tt <->
  b <= MAX_AMOUNT /\ exact_sum ns <= b.
Proof.
  intros Hb Hlen Hms Hns. unfold validateMilestonesAgainstBudget, validateBounds.
  pose proof (bounds_exact b ms ns Hb Hlen Hms Hns) as Hv.
  destruct (validateContractBounds _ _) as [[]|e].
  - destruct Hv as [Hv _]. destruct (Hv eq_refl) as [Hcap Hsum].
    pose proof (check_budget_exact b ms ns Hms Hns Hsum ltac:(lia)) as Hc.
    destruct (check_budget _ _) as [[]|e]; [naive_solver|].
    split; [done|]. intros [_ Hle]. by apply Hc in Hle.
  - split; [done|]. intros [Hcap Hle]. destruct Hv as [_ Hv].
    discriminate Hv. lia.
Qed.

(** From any reachable store, creating, reading, soft-deleting and
    restoring milestones in any order never loses a milestone and never
    changes its id, contract, title, description, amount, deadline, completed
    flag or creation time (ids are drawn fresh). *)
Theorem milestones_never_lost ops s k r :
  rtc step initial s -> fresh_run ops s -> forallb (fun o => negb (is_purge o)) ops = true ->
  map_get k (milestoneStore s) = Some r ->
  exists r', map_get k (milestoneStore (run ops s)) = Some r' /\ content r' = content r.
Proof.
  intros Hreach%reachable_store_ok. revert s r Hreach.
  induction ops as [|o ops IH]; intros s r Hok Hfresh Hnp Hget; simpl in *; [eauto|].
  destruct Hfresh as [Hf Hfr]. apply andb_true_iff in Hnp as [Ho Hnp].
  destruct (exec_content o s k r Hok Hf Hget) as [(r1 & Hr1 & Hc)|(now & -> & _)]; [|done].
  destruct (IH _ r1 (exec_store_ok o s Hok) Hfr Hnp Hr1) as (r2 & Hr2 & Hc2).
  exists r2. split; [done|congruence].
Qed.

(** Soft-delete followed by restore within the retention window is a round
    trip.  In between the milestone answers 404 to default reads but is still
    readable with includeDeleted; afterwards it is the original record with a
    new updatedAt. *)
Theorem softDelete_restore_roundtrip cid mid t1 t2 s r :
  map_get mid (milestoneStore s) = Some r -> contractId r = cid -> deletedAt r = None ->
  t2 <= t1 + getRetentionDays * day_ms ->
  let s1 := (softDelete cid mid t1 s).2 in
  let s2 := (restore cid mid t2 s1).2 in
  let gone := with_deletedAt (Some t1) t1 r in
  let back := with_deletedAt None t2 r in
  (softDelete cid mid t1 s).1 = Ok gone /\
  (getById cid mid false s1).1 = Err (MilestoneNotFoundError cid mid) /\
  (getById cid mid true s1).1 = Ok gone /\
  (restore cid mid t2 s1).1 = Ok back /\
  (getById cid mid false s2).1 = Ok back /\
  content back = content r.
Proof.
  intros Hget Hcid Hdel Hwin.
  unfold softDelete, restore, getById, find_record, store_record, throw_if, bind.
  rewrite Hget, (bool_decide_eq_true_2 _ Hcid), Hdel. simpl.
  rewrite !map_get_set_eq. simpl. rewrite (bool_decide_eq_true_2 _ Hcid). simpl.
  rewrite (bool_decide_eq_true_2 (t2 ≤ _)) by done. simpl.
  rewrite map_get_set_eq. simpl. by rewrite (bool_decide_eq_true_2 _ Hcid).
Qed.

(** Restore and purge never both claim a record.  For a soft-deleted
    milestone of the contract, restore at an instant succeeds exactly when a
    purge at that instant would keep the record; a purge removes nothing else
    and reports exactly how many records it removed. *)
Theorem restorable_iff_not_purged cid mid now s r t :
  wf (milestoneStore s) ->
  map_get mid (milestoneStore s) = Some r -> contractId r = cid -> deletedAt r = Some t ->
  (is_ok (restore cid mid now s).1 = true <->
   map_get mid (milestoneStore (purgeExpired now s).2) = Some r) /\
  (forall k q, map_get k (milestoneStore s) = Some q -> deletedAt q = None ->
     map_get k (milestoneStore (purgeExpired now s).2) = Some q) /\
  (purgeExpired now s).1 =
    Ok (Z.of_nat (storeSize s) - Z.of_nat (storeSize (purgeExpired now s).2)).
Proof.
  intros Hwf Hget Hcid Hdel. split_and!.
  - rewrite purge_get by done. rewrite Hdel, purgeable_within.
    unfold restore, find_record, throw_if, bind.
    rewrite Hget, (bool_decide_eq_true_2 _ Hcid), Hdel. simpl.
    case_bool_decide; simpl; naive_solver.
  - intros k q Hq Hlive. apply purge_get; [done|]. by rewrite Hlive.
  - unfold purgeExpired, storeSize.
    set (test := fun r => purgeable _ _ _).
    rewrite (map_purge_loop_filter test) by done. simpl. f_equal.
    rewrite (length_filter_split test (milestoneStore s)). lia.
Qed.

(** The default listing of a contract returns exactly its milestones that
    are not soft-deleted, in order of creation time, and milestones created at
    the same instant keep their insertion order. *)
Theorem listByContract_spec cid s :
  wf (milestoneStore s) ->
  let listed := listByContract cid false s in
  (forall r, r ∈ listed <-> contractId r = cid /\ deletedAt r = None /\
                            exists k, map_get k (milestoneStore s) = Some r) /\
  key_sorted createdAt listed /\
  (forall t, filter (fun r => createdAt r = t) listed =
     filter (fun r => createdAt r = t)
       (filterNotDeleted deletedAt
          (filter (fun r => contractId r = cid) (map_values (milestoneStore s))))).
Proof.
  intros Hwf. unfold listByContract. split_and!.
  - intros r. rewrite elem_of_sort_by, elem_of_filterNotDeleted, list_elem_of_filter,
      elem_of_map_values by done. naive_solver.
  - apply sort_by_sorted.
  - intros t. apply sort_by_stable.
Qed.

End Service.

(** ** Witnesses *)

Definition sample (k cid : string) (t : Z) (d : option Z) : MilestoneRecord :=
  {| id := k; contractId := cid; title := "design"; description := "";
     amount := of_int 400; deadline := None; completed := false;
     createdAt := t; updatedAt := t; deletedAt := d |}.

Definition sample_input : CreateMilestoneInput :=
  {| in_title := "design"; in_description := None; in_amount := of_int 400;
     in_deadline := None; in_completed := Some true |}.

Definition sample_state : state :=
  {| milestoneStore := [("m1", sample "m1" "c1" 5 None); ("m2", sample "m2" "c1" 3 (Some 10))];
     triggered := [] |}.

Lemma validateMilestonesAgainstBudget_exact_witness :
  validateMilestonesAgainstBudget (VNumber (of_int 1000))
    (VArray [sample_milestone 400; sample_milestone 600]) = Ok tt <->
  1000 <= MAX_AMOUNT /\ exact_sum [400; 600] <= 1000.
Proof.
  apply (validateMilestonesAgainstBudget_exact 1000 _ [400; 600]).
  - lia.
  - simpl. unfold MAX_MILESTONES_PER_CONTRACT. lia.
  - repeat constructor; vm_compute; reflexivity.
  - repeat constructor; lia.
Defined.

Definition sample_ops : list op :=
  [OpSoftDelete "c1" "u1" 20; OpCreate "u2" 21 "c1" sample_input; OpRestore "c1" "u1" 30].

Lemma milestones_never_lost_witness :
  exists r', map_get "u1"
      (milestoneStore (run true None sample_ops (exec true None (OpCreate "u1" 7 "c1" sample_input) initial)))
      = Some r' /\ content r' = content (new_record "u1" 7 "c1" sample_input).
Proof.
  apply (milestones_never_lost true None sample_ops).
  - eapply rtc_l; [|apply rtc_refl]. constructor. vm_compute. reflexivity.
  - vm_compute. auto.
  - reflexivity.
  - vm_compute. reflexivity.
Defined.

Lemma softDelete_restore_roundtrip_witness :
  (restore None "c1" "m1" 500 (softDelete "c1" "m1" 100 sample_state).2).1 =
  Ok (with_deletedAt None 500 (sample "m1" "c1" 5 None)).
Proof.
  apply (softDelete_restore_roundtrip None "c1" "m1" 100 500 sample_state
           (sample "m1" "c1" 5 None)); try (vm_compute; reflexivity).
  vm_compute. discriminate.
Defined.

Lemma restorable_iff_not_purged_witness :
  is_ok (restore None "c1" "m2" 11 sample_state).1 = true <->
  map_get "m2" (milestoneStore (purgeExpired None 11 sample_state).2) =
  Some (sample "m2" "c1" 3 (Some 10)).
Proof.
  apply (restorable_iff_not_purged None "c1" "m2" 11 sample_state
           (sample "m2" "c1" 3 (Some 10)) 10); try reflexivity.
  vm_compute. repeat constructor; set_solver.
Defined.

Lemma listByContract_spec_witness :
  key_sorted createdAt (listByContract "c1" false sample_state).
Proof.
  apply (listByContract_spec "c1" sample_state).
  vm_compute. repeat constructor; set_solver.
Defined.

End Milestones.
