(* ===== verification/Notifications.v ===== *)
(** * Notifications: src/services/notification.service.ts,
    src/repositories/notificationRepository.ts and src/hooks/escrow.hooks.ts

    The world of this component is the SQLite [notifications] table together
    with what was handed to the email and web transports.  The transports are
    network code: each is a function from payload to outcome, which may reject.
    [json] is [JSON.stringify(data || {})] and [db_error] the message of the
    exception the database raises, if any. *)

From stdpp Require Import prelude strings.
From Stdlib Require Import ZArith Lia Ascii.
From S2P Require Import Prelude JsString Regex.
Open Scope Z_scope.

Module Notifications.

Inductive KeyEscrowEvent : Type :=
| ESCROW_INITIALIZED | FUNDS_DEPOSITED | MILESTONE_APPROVED
| DISPUTE_RAISED | ESCROW_RESOLVED | ESCROW_CANCELLED.

Definition event_name (e : KeyEscrowEvent) : string :=
  match e with
  | ESCROW_INITIALIZED => "ESCROW_INITIALIZED"
  | FUNDS_DEPOSITED => "FUNDS_DEPOSITED"
  | MILESTONE_APPROVED => "MILESTONE_APPROVED"
  | DISPUTE_RAISED => "DISPUTE_RAISED"
  | ESCROW_RESOLVED => "ESCROW_RESOLVED"
  | ESCROW_CANCELLED => "ESCROW_CANCELLED"
  end.

Record EmailPayload : Type := { to : string; subject : string; body : string }.
Record WebPayload : Type := { web_userId : string; web_title : string; web_message : string }.
Record NotificationResult : Type := { success : bool; message : option string }.

Record NotificationRow : Type := {
  row_id : string;
  row_user_id : string;
  row_title : string;
  row_message : string;
  row_created_at : Z;
}.

Record world : Type := {
  notifications : list NotificationRow;
  sent_emails : list EmailPayload;
  sent_web : list WebPayload;
}.

(** A transport method: absent, or a call that returns a result or rejects
    with an error message. *)
Definition transport (P : Type) : Type := option (P -> result string NotificationResult).

(** ** Repository *)

Definition saveWebNotification (db_error : option string) (uuid : string) (now : Z)
    (userId title msg : string) : SE world string string :=
  fun w =>
    match db_error with
    | Some e => (Err e, w)
    | None =>
        (Ok uuid,
         {| notifications := notifications w ++
              [{| row_id := uuid; row_user_id := userId; row_title := title;
                  row_message := msg; row_created_at := now |}];
            sent_emails := sent_emails w; sent_web := sent_web w |})
    end.

Definition findByUser (userId : string) (w : world) : list NotificationRow :=
  sort_by (fun r => - row_created_at r)
    (filter (fun r => row_user_id r = userId) (notifications w)).

(** ** Recipient validation *)

Definition is_control (c : ascii) : bool := in_range 0 31 c || (char_code c =? 127).
Definition is_separator (c : ascii) : bool := one_of ",;" c.
Definition is_quoting (c : ascii) : bool := (char_code c =? 34) || is_char "\" c.
Definition is_bracket (c : ascii) : bool := one_of "<>()[]" c.

Definition email_local (c : ascii) : bool :=
  is_alpha c || is_digit c || one_of "!#$%&'*+/=?^_`{|}~.-" c.
Definition email_label (c : ascii) : bool := is_alpha c || is_digit c || is_char "-" c.

Definition dotted_label : regex := Cat (Class (is_char ".")) (Plus (Class email_label)).

Definition email_re : regex :=
  Cat (Plus (Class email_local))
    (Cat (Class (is_char "@"))
      (Cat (Plus (Class email_label))
        (Cat (Star dotted_label)
          (Cat (Class (is_char ".")) (AtLeast 2 (Class is_alpha)))))).

(** [s.split(c)] *)
Fixpoint split_on (c : ascii) (l : list ascii) : list (list ascii) :=
  match l with
  | [] => [[]]
  | a :: l' =>
      if is_char c a then [] :: split_on c l'
      else match split_on c l' with
           | [] => [[a]]
           | p :: ps => (a :: p) :: ps
           end
  end.

Definition isValidEmail (address : string) : bool :=
  if bool_decide (address = EmptyString) then false
  else if re_search_class is_control address then false
  else if re_search_class is_separator address then false
  else if re_search_class is_quoting address then false
  else if re_search_class is_bracket address then false
  else match split_on "@" (chars address) with
       | [local; domain] =>
           if bool_decide (local = []) || bool_decide (domain = []) then false
           else re_match email_re address
       | _ => false
       end.

(** ** Service *)

Definition log_email (p : EmailPayload) (w : world) : world :=
  {| notifications := notifications w; sent_emails := sent_emails w ++ [p];
     sent_web := sent_web w |}.
Definition log_web (p : WebPayload) (w : world) : world :=
  {| notifications := notifications w; sent_emails := sent_emails w;
     sent_web := sent_web w ++ [p] |}.

Definition failure (msg : string) : NotificationResult :=
  {| success := false; message := Some msg |}.

Definition sendEmail (emailTransport : transport EmailPayload)
    (addr : string) (event : KeyEscrowEvent) (json : string) (w : world)
  : NotificationResult * world :=
  if negb (isValidEmail addr) then (failure "Invalid email address", w)
  else
    let payload :=
      {| to := addr;
         subject := "Notification: " +:+ event_name event;
         body := "Event " +:+ event_name event +:+ " has occurred with data: " +:+ json |} in
    match emailTransport with
    | Some send =>
        (match send payload with Ok res => res | Err e => failure e end, log_email payload w)
    | None => ({| success := true; message := None |}, w)
    end.

Definition is_crlf (c : ascii) : bool := (char_code c =? 13) || (char_code c =? 10).

Definition sendWebNotification (webTransport : transport WebPayload)
    (db_error : option string) (uuid : string) (now : Z)
    (userId : string) (event : KeyEscrowEvent) (json : string) (w : world)
  : NotificationResult * world :=
  if bool_decide (userId = EmptyString) || re_search_class is_crlf userId
  then (failure "Invalid user ID", w)
  else
    let payload :=
      {| web_userId := userId;
         web_title := "Alert: " +:+ event_name event;
         web_message := "Details: " +:+ json |} in
    match saveWebNotification db_error uuid now userId (web_title payload) (web_message payload) w with
    | (Err e, w1) => (failure ("Persistence failure: " +:+ e), w1)
    | (Ok _, w1) =>
        match webTransport with
        | Some send =>
            (match send payload with Ok res => res | Err e => failure e end, log_web payload w1)
        | None => ({| success := true; message := None |}, w1)
        end
    end.

(** ** Escrow hooks *)

Record EscrowEventPayload : Type := {
  contractId : string;
  userEmail : string;
  userId : string;
  amount : option string;
  reason : option string;
}.

Inductive channel_name : Type := email | web.

Record EscrowChannelResult : Type := {
  channel : channel_name;
  ch_success : bool;
  ch_message : option string;
}.

Record EscrowDispatchResult : Type := {
  allSucceeded : bool;
  anySucceeded : bool;
  channels : list EscrowChannelResult;
}.

(** The outcome of a settled promise: fulfilled with a result, or rejected with
    an error message. *)
Definition settled : Type := result string NotificationResult.

Definition resolveChannelResult (ch : channel_name) (outcome : settled) : EscrowChannelResult :=
  match outcome with
  | Ok r =>
      if success r then {| channel := ch; ch_success := true; ch_message := None |}
      else {| channel := ch; ch_success := false; ch_message := message r |}
  | Err e => {| channel := ch; ch_success := false; ch_message := Some e |}
  end.

Definition dispatch_result (emailOutcome webOutcome : settled) : EscrowDispatchResult :=
  let chs := [resolveChannelResult email emailOutcome; resolveChannelResult web webOutcome] in
  {| allSucceeded := forallb ch_success chs;
     anySucceeded := existsb ch_success chs;
     channels := chs |}.

Section Hooks.
Context (emailTransport : transport EmailPayload) (webTransport : transport WebPayload).
(** [db_error], [uuid] and [now] of the one notification row a dispatch may
    write; [json] of its payload. *)
Context (db_error : option string) (uuid : string) (now : Z) (json : EscrowEventPayload -> string).

(** [Promise.allSettled]: both sends are started, in order, and both outcomes
    are awaited. *)
Definition onEscrowEvent (event : KeyEscrowEvent) (payload : EscrowEventPayload) (w : world)
  : EscrowDispatchResult * world :=
  let '(e, w1) := sendEmail emailTransport (userEmail payload) event (json payload) w in
  let '(r, w2) :=
    sendWebNotification webTransport db_error uuid now (userId payload) event (json payload) w1 in
  (dispatch_result (Ok e) (Ok r), w2).

Definition transition_event (oldStatus newStatus : string) : option KeyEscrowEvent :=
  if bool_decide (oldStatus = "draft") && bool_decide (newStatus = "active")
  then Some FUNDS_DEPOSITED
  else if bool_decide (oldStatus = "active") && bool_decide (newStatus = "completed")
  then Some ESCROW_RESOLVED
  else if bool_decide (oldStatus = "active") && bool_decide (newStatus = "disputed")
  then Some DISPUTE_RAISED
  else None.

Definition onStateTransition (oldStatus newStatus : string) (payload : EscrowEventPayload)
    (w : world) : option EscrowDispatchResult * world :=
  if bool_decide (oldStatus = EmptyString) || bool_decide (newStatus = EmptyString)
     || bool_decide (oldStatus = newStatus)
  then (None, w)
  else match transition_event oldStatus newStatus with
       | None => (None, w)
       | Some event =>
           let '(r, w') := onEscrowEvent event payload w in (Some r, w')
       end.

End Hooks.

(** ** Lemmas *)

Lemma split_on_nonempty c l : split_on c l <> [].
Proof. destruct l as [|a l]; simpl; [done|]. destruct (is_char c a); [done|]. by destruct (split_on c l). Qed.

(** Splitting counts separators. *)
Lemma length_split_on c l :
  length (split_on c l) = S (length (filter (fun a => is_char c a = true) l)).
Proof.
  induction l as [|a l IH]; simpl; [done|]. rewrite filter_cons.
  destruct (is_char c a) eqn:E.
  - rewrite decide_True by done. simpl. by rewrite IH.
  - rewrite decide_False by congruence. rewrite <- IH.
    pose proof (split_on_nonempty c l). by destruct (split_on c l).
Qed.

Definition safe_char (c : ascii) : bool :=
  negb (is_control c || is_separator c || is_quoting c || is_bracket c || is_space c).

Lemma email_local_safe c : email_local c = true -> safe_char c || is_char "@" c = true.
Proof. destruct c as [[] [] [] [] [] [] [] []]; vm_compute; intros; congruence. Qed.

Lemma email_label_safe c : email_label c = true -> safe_char c || is_char "@" c = true.
Proof. destruct c as [[] [] [] [] [] [] [] []]; vm_compute; intros; congruence. Qed.

Lemma is_alpha_label c : is_alpha c = true -> email_label c = true.
Proof. unfold email_label. by intros ->. Qed.

Lemma dot_class c : is_char "." c = true -> (email_label c || is_char "." c) = true.
Proof. intros ->. apply orb_true_r. Qed.

Lemma label_or_dot c : email_label c = true -> (email_label c || is_char "." c) = true.
Proof. by intros ->. Qed.

(** What the shape test of an address means: a non-empty local part, one
    [@], and a domain of labels that ends in an alphabetic TLD of at least two
    letters. *)
Lemma email_re_shape s :
  re_match email_re s = true ->
  exists l d a b rest, chars s = l ++ "@"%char :: d ++ "."%char :: a :: b :: rest /\
    l <> [] /\ Forall (fun c => email_local c = true) l /\
    d <> [] /\ Forall (fun c => (email_label c || is_char "." c) = true) d /\
    Forall (fun c => is_alpha c = true) (a :: b :: rest).
Proof.
  intros Hm%re_match_lang. unfold email_re in Hm.
  apply lang_cat_inv in Hm as (l & k1 & -> & Hl & Hm).
  apply lang_cat_inv in Hm as (at_ & k2 & -> & Hat & Hm).
  apply lang_cat_inv in Hm as (d1 & k3 & -> & Hd1 & Hm).
  apply lang_cat_inv in Hm as (d2 & k4 & -> & Hd2 & Hm).
  apply lang_cat_inv in Hm as (dot & tld & -> & Hdot & Htld).
  apply lang_class_inv in Hat as (x & -> & <-%Ascii.eqb_eq).
  apply lang_class_inv in Hdot as (y & -> & <-%Ascii.eqb_eq).
  apply lang_cat_inv in Htld as (t1 & t2 & -> & Ht1 & Htld).
  apply lang_cat_inv in Htld as (t3 & t4 & -> & Ht3 & Ht4).
  apply lang_class_inv in Ht1 as (a & -> & Ha).
  apply lang_class_inv in Ht3 as (b & -> & Hb).
  apply (lang_plus_forall _ email_local) in Hl as [Hl1 Hl2]; [|done].
  apply (lang_plus_forall _ (fun c => email_label c || is_char "." c)) in Hd1 as [Hd11 Hd12];
    [|apply label_or_dot].
  apply (lang_star_forall (fun c => email_label c || is_char "." c)) in Hd2.
  - exists l, (d1 ++ d2), a, b, t4. split_and!; try done.
    + simpl. by rewrite <- app_assoc.
    + by destruct d1.
    + by apply Forall_app.
    + do 2 (constructor; [done|]). eapply lang_star_forall; [|exact Ht4].
      intros k. by apply lang_class_forall.
  - intros k (k1 & k2 & -> & H1 & H2)%lang_cat_inv. apply Forall_app. split.
    + eapply lang_class_forall; [|exact H1]. apply dot_class.
    + apply (lang_plus_forall _ (fun c => email_label c || is_char "." c)) in H2 as [_ ?];
        [done|apply label_or_dot].
Qed.

(** A single recipient: one [@], a dotted domain, and no character that a mail
    server could read as a header break, a second recipient or a quoted or
    bracketed form. *)
Definition safe_recipient (a : string) : Prop :=
  exists l d, chars a = l ++ "@"%char :: d /\ l <> [] /\ "."%char ∈ d /\
    Forall (fun c => safe_char c = true /\ c <> "@"%char) (l ++ d).

Lemma isValidEmail_one_at a :
  isValidEmail a = true -> length (filter (fun c => is_char "@" c = true) (chars a)) = 1%nat.
Proof.
  unfold isValidEmail. case_bool_decide; [done|].
  do 4 (destruct (re_search_class _ _); [done|]).
  pose proof (length_split_on "@" (chars a)) as Hlen.
  destruct (split_on "@" (chars a)) as [|p1 [|p2 [|p3 ps]]]; try done.
  cbn [length] in Hlen. lia.
Qed.

Lemma isValidEmail_shape a : isValidEmail a = true -> re_match email_re a = true.
Proof.
  unfold isValidEmail. case_bool_decide; [done|].
  do 4 (destruct (re_search_class _ _); [done|]).
  destruct (split_on "@" (chars a)) as [|p1 [|p2 [|p3 ps]]]; try done.
  by destruct (_ || _).
Qed.

Lemma isValidEmail_safe a : isValidEmail a = true -> safe_recipient a.
Proof.
  intros Hv. pose proof (isValidEmail_one_at a Hv) as Hone.
  apply isValidEmail_shape, email_re_shape in Hv
    as (l & d & x & y & rest & Ha & Hl & Hloc & Hd & Hdom & Halpha).
  exists l, (d ++ "."%char :: x :: y :: rest). split_and!; [done|done|set_solver|].
  assert (Hdom' : Forall (fun c => safe_char c || is_char "@" c = true)
                    (l ++ d ++ "."%char :: x :: y :: rest)).
  { apply Forall_app; split; [eapply Forall_impl; [exact Hloc|]; apply email_local_safe|].
    apply Forall_app; split.
    - eapply Forall_impl; [exact Hdom|]. intros c [Hc|Hc]%orb_true_iff.
      + by apply email_label_safe.
      + apply Ascii.eqb_eq in Hc as <-. reflexivity.
    - constructor; [done|]. eapply Forall_impl; [exact Halpha|].
      intros c Hc. by apply email_label_safe, is_alpha_label. }
  assert (Hno : forall c, c ∈ l ++ d ++ "."%char :: x :: y :: rest -> c <> "@"%char).
  { intros c Hc ->. rewrite Ha in Hone.
    rewrite <- (Permutation_middle l), filter_cons, decide_True in Hone by done. cbn [length] in Hone.
    apply Nat.succ_inj, nil_length_inv in Hone as Hnil.
    assert (Hin : "@"%char ∈ filter (fun c => is_char "@" c = true) (l ++ d ++ "."%char :: x :: y :: rest))
      by (by apply list_elem_of_filter).
    rewrite Hnil in Hin. set_solver. }
  apply Forall_forall. intros c Hc. split; [|by apply Hno].
  rewrite Forall_forall in Hdom'. specialize (Hdom' c Hc).
  apply orb_true_iff in Hdom' as [?|Hat]; [done|].
  apply Ascii.eqb_eq in Hat. exfalso. by apply (Hno c Hc).
Qed.

Lemma sendEmail_table t a e j w :
  notifications (sendEmail t a e j w).2 = notifications w /\
  sent_web (sendEmail t a e j w).2 = sent_web w.
Proof.
  unfold sendEmail. destruct (negb _); [done|]. by destruct t as [send|].
Qed.

(** The web channel only looks at the table and the web log. *)
Lemma sendWebNotification_independent t db uuid now u e j w w' :
  notifications w = notifications w' -> sent_web w = sent_web w' ->
  (sendWebNotification t db uuid now u e j w).1 = (sendWebNotification t db uuid now u e j w').1 /\
  notifications (sendWebNotification t db uuid now u e j w).2 =
  notifications (sendWebNotification t db uuid now u e j w').2.
Proof.
  intros Hn Hw. unfold sendWebNotification, saveWebNotification.
  destruct (_ || _); [done|]. destruct db; [done|]. simpl.
  destruct t as [send|]; simpl; by rewrite Hn.
Qed.

Lemma transition_event_Some o n e :
  transition_event o n = Some e ->
  (o, n, e) ∈ [("draft", "active", FUNDS_DEPOSITED); ("active", "completed", ESCROW_RESOLVED);
               ("active", "disputed", DISPUTE_RAISED)].
Proof.
  unfold transition_event. intros H.
  repeat case_bool_decide; simplify_eq/=; set_solver.
Qed.

(** ** Properties *)

(** Whatever the transport does, sendEmail hands it only single, safe
    recipients: exactly one @, a dotted domain, no control character or line
    break (header injection), no comma or semicolon (extra recipients), no
    quoting, bracket or white-space character. *)
Theorem sendEmail_safe_recipient t a e j w p :
  p ∈ sent_emails (sendEmail t a e j w).2 -> p ∈ sent_emails w \/ safe_recipient (to p).
Proof.
  unfold sendEmail. destruct (isValidEmail a) eqn:Hv; simpl; [|by left].
  destruct t as [send|]; simpl; [|by left].
  intros [?|Hp]%elem_of_app; [by left|]. right.
  apply list_elem_of_singleton in Hp as ->. by apply isValidEmail_safe.
Qed.

(** One notification channel never affects the other.  Whatever the email
    transport does (also when it rejects), the web channel reports what it
    would have reported alone and writes the same rows; a dispatch is
    all-succeeded exactly when both channels succeeded and any-succeeded
    exactly when one did. *)
Theorem onEscrowEvent_isolated et wt db uuid now json ev p w :
  let d := onEscrowEvent et wt db uuid now json ev p w in
  let em := (sendEmail et (userEmail p) ev (json p) w).1 in
  let wb := (sendWebNotification wt db uuid now (userId p) ev (json p) w).1 in
  channels d.1 = [resolveChannelResult email (Ok em); resolveChannelResult web (Ok wb)] /\
  (allSucceeded d.1 = true <-> success em = true /\ success wb = true) /\
  (anySucceeded d.1 = true <-> success em = true \/ success wb = true) /\
  notifications d.2 =
    notifications (sendWebNotification wt db uuid now (userId p) ev (json p) w).2.
Proof.
  unfold onEscrowEvent.
  pose proof (sendEmail_table et (userEmail p) ev (json p) w) as [Hn Hw].
  destruct (sendEmail et (userEmail p) ev (json p) w) as [em w1] eqn:Ee; simpl in *.
  pose proof (sendWebNotification_independent wt db uuid now (userId p) ev (json p) w1 w Hn Hw)
    as [H1 H2].
  destruct (sendWebNotification wt db uuid now (userId p) ev (json p) w1) as [wb w2]; simpl in *.
  rewrite H1 in *. split_and!; [done| | |done];
    destruct (success em), (success _); simpl; naive_solver.
Qed.

(** A web notification that was accepted is the newest or an equally new
    row of its user's inbox and of nobody else's. *)
Theorem sendWebNotification_inbox wt uuid now u e j w :
  u <> EmptyString -> re_search_class is_crlf u = false ->
  let w' := (sendWebNotification wt None uuid now u e j w).2 in
  (exists r, r ∈ findByUser u w' /\ row_id r = uuid /\ row_created_at r = now /\
     findByUser u w' ≡ₚ r :: findByUser u w) /\
  key_sorted (fun r => - row_created_at r) (findByUser u w') /\
  (forall v, v <> u -> findByUser v w' = findByUser v w).
Proof.
  intros Hu Hcr. unfold sendWebNotification, saveWebNotification.
  rewrite bool_decide_eq_false_2, Hcr by done. simpl.
  set (row := Build_NotificationRow _ _ _ _ _).
  assert (Hn : forall r : NotificationResult, notifications (match wt with
      | Some send => (match send {| web_userId := u; web_title := "Alert: " +:+ event_name e;
                          web_message := "Details: " +:+ j |} with Ok res => res | Err e => failure e end,
          log_web {| web_userId := u; web_title := "Alert: " +:+ event_name e;
                          web_message := "Details: " +:+ j |}
            {| notifications := notifications w ++ [row]; sent_emails := sent_emails w; sent_web := sent_web w |})
      | None => (r, {| notifications := notifications w ++ [row]; sent_emails := sent_emails w; sent_web := sent_web w |})
      end).2 = notifications w ++ [row]) by (intros; by destruct wt).
  unfold findByUser. rewrite Hn. split_and!.
  - exists row. rewrite elem_of_sort_by, !sort_by_perm, filter_app, filter_cons, decide_True by done.
    split_and!; [set_solver|done|done|]. by rewrite Permutation_app_comm.
  - apply sort_by_sorted.
  - intros v Hv. by rewrite filter_app, filter_cons, decide_False, app_nil_r by (simpl; congruence).
Qed.

(** ** Witnesses *)

Definition empty_world : world := {| notifications := []; sent_emails := []; sent_web := [] |}.

Definition failing_email : transport EmailPayload := Some (fun _ => Err "smtp down"%string).

Lemma sendEmail_safe_recipient_witness :
  let p := {| to := "ada@talent.io"; subject := "Notification: DISPUTE_RAISED";
              body := "Event DISPUTE_RAISED has occurred with data: {}" |} in
  p ∈ sent_emails empty_world \/ safe_recipient (to p).
Proof.
  apply (sendEmail_safe_recipient failing_email "ada@talent.io" DISPUTE_RAISED "{}" empty_world).
  vm_compute. constructor.
Defined.

Lemma sendWebNotification_inbox_witness :
  exists r, r ∈ findByUser "u1"
    (sendWebNotification None None "n1" 5 "u1" DISPUTE_RAISED "{}" empty_world).2 /\ row_id r = "n1"%string.
Proof.
  destruct (sendWebNotification_inbox None "n1" 5 "u1" DISPUTE_RAISED "{}" empty_world)
    as [(r & Hr & Hid & _) _]; [done|reflexivity|]. exists r. split; [exact Hr|exact Hid].
Defined.

(** Addresses the validator accepts and rejects. *)
Example isValidEmail_cases :
  isValidEmail "ada.l+x@mail.talent.io" = true /\
  isValidEmail "a@b.com,c@d.com" = false /\
  isValidEmail "a@b" = false /\
  isValidEmail "a@b.c" = false /\
  isValidEmail "a@@b.com" = false /\
  isValidEmail "Ada <a@b.com>" = false.
Proof. vm_compute. repeat split. Qed.

End Notifications.
