(* ===== verification/Disputes.v ===== *)
(** * Disputes: src/services/disputes.service.ts

    The module-level [disputeStore] is a [Map] keyed by dispute id; the state
    also carries the world of the notification component, which
    [updateDispute] reaches through [EscrowHooks.onStateTransition].  The part
    of [updateDispute] before its [await] runs without interruption, so one
    operation is one step. *)

From stdpp Require Import prelude strings.
From Stdlib Require Import ZArith Lia.
From S2P Require Import Prelude JsMap SoftDelete Notifications.
Open Scope Z_scope.

Module Disputes.

Inductive DisputeStatus : Type := open | under_review | resolved | escalated.

#[export] Instance DisputeStatus_eq_dec : EqDecision DisputeStatus.
Proof. solve_decision. Defined.

Definition status_name (st : DisputeStatus) : string :=
  match st with
  | open => "open"
  | under_review => "under_review"
  | resolved => "resolved"
  | escalated => "escalated"
  end.

Record DisputeRecord : Type := {
  id : string;
  contractId : string;
  status : DisputeStatus;
  resolution : option string;
  reason : option string;
  raisedBy : option string;
  createdAt : Z;
  updatedAt : Z;
  deletedAt : option Z;
}.

Record CreateDisputeInput : Type := {
  in_contractId : string;
  in_reason : option string;
  in_raisedBy : option string;
  in_status : option DisputeStatus;
}.

Record UpdateDisputePayload : Type := {
  up_status : option DisputeStatus;
  up_resolution : option string;
}.

Record BatchDisputeOperation : Type := {
  b_id : string;
  b_status : option DisputeStatus;
  b_resolution : option string;
}.

(** The errors a call can raise: the [code] of a [DisputeError], or a
    [SoftDeleteRetentionError]. *)
Inductive error : Type :=
| dispute_not_found (id : string)                               (* 404 *)
| dispute_already_deleted (id : string)                         (* 409 *)
| dispute_not_deleted (id : string)                             (* 409 *)
| invalid_state_transition (from to : DisputeStatus)            (* 400 *)
| SoftDeleteRetentionError (id : string) (days : Z).            (* 410 *)

Record BatchOperationResult : Type := {
  index : nat;
  outcome : result error DisputeRecord;
}.

Record state : Type := {
  disputeStore : list (string * DisputeRecord);
  outbox : Notifications.world;
}.

Definition set_store (m : list (string * DisputeRecord)) (s : state) : state :=
  {| disputeStore := m; outbox := outbox s |}.

(** [VALID_TRANSITIONS[from]] *)
Definition VALID_TRANSITIONS (from : DisputeStatus) : list DisputeStatus :=
  match from with
  | open => [under_review; resolved; escalated]
  | under_review => [resolved; escalated]
  | resolved => []
  | escalated => [resolved]
  end.

Definition validateTransition (from to : DisputeStatus) : result error unit :=
  if bool_decide (from = to) then Ok tt
  else if bool_decide (to ∈ VALID_TRANSITIONS from) then Ok tt
  else Err (invalid_state_transition from to).

Definition with_deletedAt (d : option Z) (now : Z) (r : DisputeRecord) : DisputeRecord :=
  {| id := id r; contractId := contractId r; status := status r;
     resolution := resolution r; reason := reason r; raisedBy := raisedBy r;
     createdAt := createdAt r; updatedAt := now; deletedAt := d |}.

Definition or_else {A} (a b : option A) : option A :=
  match a with Some _ => a | None => b end.

Definition apply_update (updates : UpdateDisputePayload) (now : Z) (r : DisputeRecord)
  : DisputeRecord :=
  {| id := id r; contractId := contractId r;
     status := default (status r) (up_status updates);
     resolution := or_else (up_resolution updates) (resolution r);
     reason := reason r; raisedBy := raisedBy r;
     createdAt := createdAt r; updatedAt := now; deletedAt := deletedAt r |}.

Section Service.
(** The environment variable that sets the retention window, and the
    arguments of the notification hook. *)
Context (env : option string).
Context (et : Notifications.transport Notifications.EmailPayload)
        (wt : Notifications.transport Notifications.WebPayload)
        (db_error : option string) (uuid : string)
        (json : Notifications.EscrowEventPayload -> string).

Definition getRetentionDays : Z :=
  parseRetentionDays env DEFAULT_SOFT_DELETE_RETENTION_DAYS.

Definition find_dispute (i : string) : SE state error DisputeRecord :=
  fun s =>
    match map_get i (disputeStore s) with
    | Some r => (Ok r, s)
    | None => (Err (dispute_not_found i), s)
    end.

Definition store_dispute (i : string) (r : DisputeRecord) : SE state error DisputeRecord :=
  fun s => (Ok r, set_store (map_set i r (disputeStore s)) s).

Definition getDisputeById (i : string) (includeDeleted : bool) : SE state error DisputeRecord :=
  let! dispute := find_dispute i in
  throw_if (negb includeDeleted && isSoftDeleted (deletedAt dispute)) (dispute_not_found i) ;;
  ret dispute.

Definition listDisputes (includeDeleted : bool) (s : state) : list DisputeRecord :=
  let all := map_values (disputeStore s) in
  let filtered := if includeDeleted then all else filterNotDeleted deletedAt all in
  sort_by (fun r => - createdAt r) filtered.

Definition createDispute (newId : string) (now : Z) (input : CreateDisputeInput)
  : SE state error DisputeRecord :=
  store_dispute newId
    {| id := newId; contractId := in_contractId input;
       status := default open (in_status input); resolution := None;
       reason := in_reason input; raisedBy := in_raisedBy input;
       createdAt := now; updatedAt := now; deletedAt := None |}.

Definition softDeleteDispute (i : string) (now : Z) : SE state error DisputeRecord :=
  let! dispute := find_dispute i in
  throw_if (isSoftDeleted (deletedAt dispute)) (dispute_already_deleted i) ;;
  store_dispute i (with_deletedAt (Some now) now dispute).

Definition restoreDispute (i : string) (now : Z) : SE state error DisputeRecord :=
  let! dispute := find_dispute i in
  throw_if (negb (isSoftDeleted (deletedAt dispute))) (dispute_not_deleted i) ;;
  throw_if (negb (isWithinRetentionWindow (deletedAt dispute) getRetentionDays now))
    (SoftDeleteRetentionError i getRetentionDays) ;;
  store_dispute i (with_deletedAt None now dispute).

Definition purgeExpiredDisputes (now : Z) : SE state error Z :=
  fun s =>
    let '(store', purged) :=
      map_purge_loop (fun r => purgeable (deletedAt r) getRetentionDays now) (disputeStore s) in
    (Ok purged, set_store store' s).

Definition clearStore : SE state error unit := fun s => (Ok tt, set_store [] s).
Definition storeSize (s : state) : nat := length (disputeStore s).

(** The fire-and-forget side effects of a status change. *)
Definition cascade (now : Z) (dispute : DisputeRecord) (newStatus : DisputeStatus)
    (updates : UpdateDisputePayload) : SE state error unit :=
  fun s =>
    if bool_decide (status dispute = newStatus) then (Ok tt, s)
    else
      let payload :=
        {| Notifications.contractId := contractId dispute;
           Notifications.userEmail := "admin@talenttrust.example";
           Notifications.userId := "admin-id";
           Notifications.amount := None;
           Notifications.reason := up_resolution updates |} in
      let '(_, w) :=
        Notifications.onStateTransition et wt db_error uuid now json
          (status_name (status dispute)) (status_name newStatus) payload (outbox s) in
      (Ok tt, {| disputeStore := disputeStore s; outbox := w |}).

Definition lift {A} (r : result error A) : SE state error A := fun s => (r, s).

Definition updateDispute (i : string) (updates : UpdateDisputePayload) (now : Z)
  : SE state error DisputeRecord :=
  let! dispute := getDisputeById i false in
  lift (match up_status updates with
        | Some st => validateTransition (status dispute) st
        | None => Ok tt
        end) ;;
  let! updated := store_dispute i (apply_update updates now dispute) in
  cascade now dispute (status updated) updates ;;
  ret updated.

(** The batch loop; each operation comes with the instant it runs at. *)
Fixpoint batch_loop (n : nat) (ops : list (BatchDisputeOperation * Z)) (s : state)
  : list BatchOperationResult * state :=
  match ops with
  | [] => ([], s)
  | (o, now) :: ops' =>
      let '(r, s1) :=
        updateDispute (b_id o)
          {| up_status := b_status o; up_resolution := b_resolution o |} now s in
      let '(rs, s2) := batch_loop (S n) ops' s1 in
      ({| index := n; outcome := r |} :: rs, s2)
  end.

Definition processBatch (ops : list (BatchDisputeOperation * Z)) (s : state)
  : list BatchOperationResult * state := batch_loop 0 ops s.

Definition demo_dispute (i cid : string) (st : DisputeStatus) (created updated : Z) : DisputeRecord :=
  {| id := i; contractId := cid; status := st; resolution := None; reason := None;
     raisedBy := None; createdAt := created; updatedAt := updated; deletedAt := None |}.

Definition seedDemoDisputes (now : Z) : SE state error unit :=
  store_dispute "dispute-001"
    (demo_dispute "dispute-001" "contract-001" open (now - 86400000) (now - 86400000)) ;;
  store_dispute "dispute-002"
    (demo_dispute "dispute-002" "contract-002" under_review (now - 172800000) (now - 3600000)) ;;
  ret tt.

(** ** Operations as steps (the demo seeding and the test helpers apart) *)

Inductive op : Type :=
| OpCreate (newId : string) (now : Z) (input : CreateDisputeInput)
| OpUpdate (i : string) (updates : UpdateDisputePayload) (now : Z)
| OpBatch (ops : list (BatchDisputeOperation * Z))
| OpSoftDelete (i : string) (now : Z)
| OpRestore (i : string) (now : Z)
| OpPurge (now : Z).

Definition exec (o : op) (s : state) : state :=
  match o with
  | OpCreate n now input => (createDispute n now input s).2
  | OpUpdate i u now => (updateDispute i u now s).2
  | OpBatch ops => (processBatch ops s).2
  | OpSoftDelete i now => (softDeleteDispute i now s).2
  | OpRestore i now => (restoreDispute i now s).2
  | OpPurge now => (purgeExpiredDisputes now s).2
  end.

Definition run (ops : list op) (s : state) : state := foldl (fun s o => exec o s) s ops.

(** [randomUUID] does not return the id of the dispute that is followed. *)
Definition does_not_create (i : string) (o : op) : Prop :=
  match o with OpCreate n _ _ => n <> i | _ => True end.

(** The state machine the transition table describes. *)
Definition moves (from to : DisputeStatus) : Prop := to ∈ VALID_TRANSITIONS from.

(** What never changes in a dispute. *)
Definition identity (r : DisputeRecord) :=
  (id r, contractId r, reason r, raisedBy r, createdAt r).

(** [evolves r r']: one or more operations turned [r] into [r']. *)
Definition evolves (r r' : DisputeRecord) : Prop :=
  identity r' = identity r /\ rtc moves (status r) (status r').

(** ** Lemmas *)

#[local] Instance evolves_preorder : PreOrder evolves.
Proof.
  split; [split; reflexivity|].
  intros a b c [H1 H2] [H3 H4]. split; [congruence|by etransitivity].
Qed.

Lemma moves_rank a b : rtc moves a b -> a = b \/ b <> open.
Proof.
  induction 1 as [|a b c Hab _ IH]; [by left|]. right. destruct IH as [<-|]; [|done].
  unfold moves in Hab. destruct a; simpl in Hab; set_solver.
Qed.

Lemma moves_resolved a b : rtc moves a b -> a = resolved -> b = resolved.
Proof. induction 1 as [|a b c Hab _ IH]; [done|]. intros ->. unfold moves in Hab. set_solver. Qed.

(** The statuses of a dispute never name a transition that notifies. *)
Lemma onStateTransition_dispute e w' d u now j a b p w :
  Notifications.onStateTransition e w' d u now j (status_name a) (status_name b) p w = (None, w).
Proof.
  unfold Notifications.onStateTransition. destruct (_ || _); [done|]. by destruct a, b.
Qed.

Lemma cascade_id now r st u s : cascade now r st u s = (Ok tt, s).
Proof.
  unfold cascade. case_bool_decide; [done|]. rewrite onStateTransition_dispute. by destruct s.
Qed.

(** Complete description of an update. *)
Lemma updateDispute_eq i u now s :
  updateDispute i u now s =
  match map_get i (disputeStore s) with
  | None => (Err (dispute_not_found i), s)
  | Some r =>
      if isSoftDeleted (deletedAt r) then (Err (dispute_not_found i), s)
      else match (match up_status u with Some st => validateTransition (status r) st | None => Ok tt end) with
           | Err e => (Err e, s)
           | Ok _ => (Ok (apply_update u now r),
                      set_store (map_set i (apply_update u now r) (disputeStore s)) s)
           end
  end.
Proof.
  unfold updateDispute, getDisputeById, find_dispute, lift, throw_if, bind.
  destruct (map_get i (disputeStore s)) as [r|]; [|done]. simpl.
  destruct (isSoftDeleted _); [done|]. simpl.
  destruct (match up_status u with Some _ => _ | None => _ end); [|done]. simpl.
  by rewrite cascade_id.
Qed.

Lemma updateDispute_err i u now s e :
  (updateDispute i u now s).1 = Err e -> (updateDispute i u now s).2 = s.
Proof. rewrite updateDispute_eq. repeat (case_match; simpl); congruence. Qed.

Lemma validateTransition_moves a b :
  validateTransition a b = Ok tt <-> a = b \/ moves a b.
Proof.
  unfold validateTransition, moves. repeat case_bool_decide; naive_solver.
Qed.

Lemma apply_update_evolves u now r :
  (match up_status u with Some st => validateTransition (status r) st | None => Ok tt end) = Ok tt ->
  evolves r (apply_update u now r).
Proof.
  intros Hv. split; [done|]. simpl. destruct (up_status u) as [st|]; simpl; [|reflexivity].
  apply validateTransition_moves in Hv as [<-|Hm]; [reflexivity|by apply rtc_once].
Qed.

(** [opt_evolves o o']: what the store holds afterwards it held before, and
    it evolved. *)
Definition opt_evolves (o o' : option DisputeRecord) : Prop :=
  forall r', o' = Some r' -> exists r, o = Some r /\ evolves r r'.

#[local] Instance opt_evolves_preorder : PreOrder opt_evolves.
Proof.
  split.
  - intros o r' ->. exists r'. by split.
  - intros a b c Hab Hbc r Hr. destruct (Hbc r Hr) as (q & Hq & E).
    destruct (Hab q Hq) as (p & Hp & E'). exists p. split; [done|by etransitivity].
Qed.

Lemma set_evolves (s : state) i k q v :
  map_get i (disputeStore s) = Some q -> evolves q v ->
  opt_evolves (map_get k (disputeStore s))
    (map_get k (disputeStore (set_store (map_set i v (disputeStore s)) s))).
Proof.
  intros Hi Hev. simpl. destruct (decide (i = k)) as [->|Hne].
  - rewrite map_get_set_eq. intros r' [= <-]. eauto.
  - by rewrite map_get_set_ne.
Qed.

Lemma update_evolves i u now s k :
  opt_evolves (map_get k (disputeStore s)) (map_get k (disputeStore (updateDispute i u now s).2)).
Proof.
  rewrite updateDispute_eq. destruct (map_get i (disputeStore s)) as [q|] eqn:Hi; [|done].
  destruct (isSoftDeleted _); [done|].
  destruct (match up_status u with Some _ => _ | None => _ end) as [[]|e] eqn:Hv; [|done].
  eapply set_evolves; [done|]. by apply apply_update_evolves.
Qed.

Lemma batch_evolves n ops s k :
  opt_evolves (map_get k (disputeStore s)) (map_get k (disputeStore (batch_loop n ops s).2)).
Proof.
  revert n s. induction ops as [|[o now] ops IH]; intros n s; simpl; [done|].
  pose proof (update_evolves (b_id o)
    {| up_status := b_status o; up_resolution := b_resolution o |} now s k) as H1.
  destruct (updateDispute _ _ _ _) as [x s1]. specialize (IH (S n) s1).
  destruct (batch_loop _ _ _) as [rs s2]. simpl in *. by etransitivity.
Qed.

Lemma softDelete_evolves i now s k :
  opt_evolves (map_get k (disputeStore s)) (map_get k (disputeStore (softDeleteDispute i now s).2)).
Proof.
  unfold softDeleteDispute, find_dispute, throw_if, bind.
  destruct (map_get i (disputeStore s)) as [q|] eqn:Hi; [|done].
  destruct (isSoftDeleted _); [done|]. by apply (set_evolves s i k q).
Qed.

Lemma restore_evolves i now s k :
  opt_evolves (map_get k (disputeStore s)) (map_get k (disputeStore (restoreDispute i now s).2)).
Proof.
  unfold restoreDispute, find_dispute, throw_if, bind.
  destruct (map_get i (disputeStore s)) as [q|] eqn:Hi; [|done].
  destruct (negb _); [done|]. simpl. destruct (negb _); [done|]. by apply (set_evolves s i k q).
Qed.

Lemma purge_evolves now s k :
  opt_evolves (map_get k (disputeStore s)) (map_get k (disputeStore (purgeExpiredDisputes now s).2)).
Proof.
  unfold purgeExpiredDisputes.
  pose proof (map_get_purge_sub (fun r => purgeable (deletedAt r) getRetentionDays now)
    (disputeStore s) k) as H.
  destruct (map_purge_loop _ _) as [m' n]. simpl in *.
  intros r' Hr'. exists r'. split; [by apply H|done].
Qed.

Lemma exec_evolves o s k :
  does_not_create k o ->
  opt_evolves (map_get k (disputeStore s)) (map_get k (disputeStore (exec o s))).
Proof.
  intros Hc. destruct o as [n now input|i u now|ops|i now|i now|now]; simpl in *.
  - by rewrite map_get_set_ne.
  - apply update_evolves.
  - apply batch_evolves.
  - apply softDelete_evolves.
  - apply restore_evolves.
  - apply purge_evolves.
Qed.

Lemma run_evolves ops s k :
  Forall (does_not_create k) ops ->
  opt_evolves (map_get k (disputeStore s)) (map_get k (disputeStore (run ops s))).
Proof.
  intros H. revert s. induction H as [|o ops Ho _ IH]; intros s; simpl; [done|].
  etransitivity; [by apply exec_evolves|apply IH].
Qed.

(** Dropping the failed items of a batch does not change what it does. *)
Definition succeeded (ops : list (BatchDisputeOperation * Z)) (rs : list BatchOperationResult)
  : list (BatchDisputeOperation * Z) :=
  (filter (fun p => is_ok (outcome p.2) = true) (zip ops rs)).*1.

Lemma batch_results n ops s :
  length (batch_loop n ops s).1 = length ops /\
  forall i r, (batch_loop n ops s).1 !! i = Some r -> index r = (n + i)%nat.
Proof.
  revert n s. induction ops as [|[o now] ops IH]; intros n s; simpl; [done|].
  destruct (updateDispute _ _ _ _) as [x s1]. destruct (IH (S n) s1) as [Hl Hi].
  destruct (batch_loop _ _ _) as [rs s2]. simpl in *. split; [by f_equal|].
  intros [|i] r Hr; simpl in Hr; simplify_eq/=; [lia|]. apply Hi in Hr. lia.
Qed.

Lemma batch_prefix n ops s i o now :
  ops !! i = Some (o, now) ->
  (batch_loop n ops s).1 !! i =
  Some {| index := (n + i)%nat;
          outcome := (updateDispute (b_id o)
                       {| up_status := b_status o; up_resolution := b_resolution o |} now
                       (batch_loop n (take i ops) s).2).1 |}.
Proof.
  revert n s i. induction ops as [|[o' now'] ops IH]; intros n s [|i] Hi; simplify_eq/=.
  - destruct (updateDispute _ _ _ _) as [x s1]. destruct (batch_loop _ _ _) as [rs s2].
    simpl. repeat f_equal. lia.
  - destruct (updateDispute _ _ _ _) as [x s1]. specialize (IH (S n) s1 i Hi).
    destruct (batch_loop (S n) ops s1) as [rs s2], (batch_loop (S n) (take i ops) s1) as [rs' s2'].
    simpl in *. rewrite IH. repeat f_equal. lia.
Qed.

Lemma batch_succeeded n m ops s :
  (batch_loop m (succeeded ops (batch_loop n ops s).1) s).2 = (batch_loop n ops s).2.
Proof.
  revert n m s. induction ops as [|[o now] ops IH]; intros n m s; simpl; [done|].
  pose proof (updateDispute_err (b_id o)
    {| up_status := b_status o; up_resolution := b_resolution o |} now s) as Herr.
  destruct (updateDispute _ _ now s) as [x s1] eqn:Eu. simpl in Herr.
  specialize (IH (S n)). destruct (batch_loop (S n) ops s1) as [rs s2] eqn:Eb. simpl.
  unfold succeeded. simpl. rewrite filter_cons. simpl. destruct x as [r|e]; simpl.
  - rewrite Eu.
    specialize (IH (S m) s1). rewrite Eb in IH. unfold succeeded in IH. simpl in IH.
    by destruct (batch_loop _ _ s1).
  - rewrite (Herr e eq_refl) in *.
    specialize (IH m s). rewrite Eb in IH. exact IH.
Qed.

(** ** Properties *)

(** C13: over any sequence of operations a dispute only moves along the
    transition table: a resolved dispute stays resolved, a dispute that left
    the open state never returns to it, and its id, contract, reason, raiser
    and creation time never change. *)
Theorem dispute_lifecycle ops s k r r' :
  Forall (does_not_create k) ops ->
  map_get k (disputeStore s) = Some r ->
  map_get k (disputeStore (run ops s)) = Some r' ->
  rtc moves (status r) (status r') /\
  (status r = resolved -> status r' = resolved) /\
  (status r <> open -> status r' <> open) /\
  identity r' = identity r.
Proof.
  intros Hc Hr Hr'. destruct (run_evolves ops s k Hc r' Hr') as (q & Hq & Hid & Hm).
  assert (q = r) as -> by congruence. split_and!; [done| | |done].
  - by apply moves_resolved.
  - intros Hne. destruct (moves_rank _ _ Hm); congruence.
Qed.

(** UpdateDispute succeeds exactly on a live dispute whose requested status
    is absent, unchanged or allowed by the table; it then rewrites only the
    status, resolution and update time of that dispute.  Otherwise nothing
    changes. *)
Theorem updateDispute_spec i u now s :
  match updateDispute i u now s with
  | (Ok q, s') =>
      exists r, map_get i (disputeStore s) = Some r /\ deletedAt r = None /\
        (forall st, up_status u = Some st -> st = status r \/ moves (status r) st) /\
        q = apply_update u now r /\
        s' = set_store (map_set i q (disputeStore s)) s
  | (Err e, s') =>
      s' = s /\
      (map_get i (disputeStore s) = None \/
       (exists r, map_get i (disputeStore s) = Some r /\ deletedAt r <> None) \/
       (exists r st, map_get i (disputeStore s) = Some r /\ up_status u = Some st /\
          st <> status r /\ ~ moves (status r) st /\
          e = invalid_state_transition (status r) st))
  end.
Proof.
  rewrite updateDispute_eq. destruct (map_get i (disputeStore s)) as [r|] eqn:Hi; [|by auto].
  destruct (isSoftDeleted (deletedAt r)) eqn:Hd.
  { apply isSoftDeleted_true in Hd as [t Ht]. split; [done|]. right; left.
    exists r. split; [done|]. by rewrite Ht. }
  apply isSoftDeleted_false in Hd. destruct (up_status u) as [st|] eqn:Hst.
  - destruct (validateTransition (status r) st) as [[]|e] eqn:Hv.
    + apply validateTransition_moves in Hv. exists r. split_and!; try done.
      intros st' [= <-]. destruct Hv; auto.
    + split; [done|]. right; right. exists r, st. unfold validateTransition in Hv.
      repeat case_bool_decide; simplify_eq. split_and!; auto.
  - exists r. split_and!; try done.
Qed.

(** A batch processes its items in isolation.  There is one result per
    item, labelled with its position; each item sees exactly the effects of
    the items before it; and the failed items leave no trace: the batch of the
    successful items alone ends in the same state. *)
Theorem processBatch_isolated ops s :
  let '(rs, s') := processBatch ops s in
  length rs = length ops /\
  (forall i o now, ops !! i = Some (o, now) ->
     rs !! i = Some {| index := i;
       outcome := (updateDispute (b_id o)
                     {| up_status := b_status o; up_resolution := b_resolution o |} now
                     (processBatch (take i ops) s).2).1 |}) /\
  (processBatch (succeeded ops rs) s).2 = s'.
Proof.
  unfold processBatch.
  pose proof (batch_results 0 ops s) as [Hlen _].
  pose proof (batch_prefix 0 ops s) as Hp.
  pose proof (batch_succeeded 0 0 ops s) as Hs.
  destruct (batch_loop 0 ops s) as [rs s']. split_and!; [done| |done].
  intros i o now Hi. by apply Hp.
Qed.

(** No dispute operation ever notifies anyone: the statuses of a dispute
    are none of the contract statuses the notification hook reacts to, so the
    cascade of a status change is always empty. *)
Theorem dispute_cascade_silent ops s : outbox (run ops s) = outbox s.
Proof.
  assert (Hup : forall i u now s, outbox (updateDispute i u now s).2 = outbox s).
  { intros. rewrite updateDispute_eq. by repeat case_match. }
  assert (Hexec : forall o s, outbox (exec o s) = outbox s).
  { intros o s'. destruct o as [n now input|i u now|bs|i now|i now|now]; simpl; auto.
    - unfold processBatch. generalize 0%nat. revert s'.
      induction bs as [|[b now] bs IH]; intros s' n; simpl; [done|].
      specialize (Hup (b_id b) {| up_status := b_status b; up_resolution := b_resolution b |} now s').
      destruct (updateDispute _ _ _ _) as [x s1]. specialize (IH s1 (S n)).
      destruct (batch_loop _ _ _). simpl in *. congruence.
    - unfold softDeleteDispute, find_dispute, throw_if, bind.
      destruct (map_get i _) as [q|]; [|done]. by destruct (isSoftDeleted _).
    - unfold restoreDispute, find_dispute, throw_if, bind.
      destruct (map_get i _) as [q|]; [|done]. destruct (negb _); [done|]. simpl. by destruct (negb _).
    - unfold purgeExpiredDisputes. by destruct (map_purge_loop _ _). }
  revert s. induction ops as [|o ops IH]; intros s; simpl; [done|].
  change (outbox (run ops (exec o s)) = outbox s). by rewrite IH.
Qed.

End Service.

(** ** Witnesses *)

Definition sample_state : state :=
  {| disputeStore := [("d1"%string, demo_dispute "d1" "c1" under_review 5 5)];
     outbox := Notifications.empty_world |}.

Definition sample_ops : list op :=
  [OpUpdate "d1" {| up_status := Some resolved; up_resolution := Some "split"%string |} 10;
   OpUpdate "d1" {| up_status := Some escalated; up_resolution := None |} 11;
   OpSoftDelete "d1" 12; OpRestore "d1" 13].

Lemma dispute_lifecycle_witness :
  exists r', map_get "d1" (disputeStore
      (run None None None None "u" (fun _ => ""%string) sample_ops sample_state)) = Some r' /\
    status r' = resolved /\ status r' <> open.
Proof.
  eexists. split; [vm_compute; reflexivity|].
  split; [reflexivity|].
  eapply (dispute_lifecycle None None None None "u" (fun _ => ""%string) sample_ops sample_state "d1"
            (demo_dispute "d1" "c1" under_review 5 5)).
  - repeat constructor.
  - reflexivity.
  - vm_compute. reflexivity.
  - discriminate.
Defined.

End Disputes.
