(* ===== verification/Contracts.v ===== *)
(** * Contracts: the data model of src/db/types.ts and the repository interface
    [IContractRepository] of src/repositories/contractRepository.ts

    The interface is the class [ContractRepo]; what an implementation promises
    is the class [ContractRepoLaws], stated against an abstract store, a finite
    map from ids to contracts.  The SQLite and the in-memory repository are
    instances; the contract service is verified against the laws only.

    [createdAt] is ISO-8601 text and is ordered as text, as SQL and JavaScript
    do; [deletedAt] is an instant in milliseconds (ISO-8601 texts of one format
    compare like the instants they name). *)

From stdpp Require Import prelude gmap strings.
From Stdlib Require Import ZArith Lia.
From S2P Require Import Prelude JsMap JsValue SoftDelete Cursor Keyset.
Import Keyset.
Open Scope Z_scope.

Module Contracts.

Record Contract : Type := {
  id : string;
  title : string;
  clientId : string;
  freelancerId : string;
  amount : number;
  status : string;
  createdAt : string;
  version : Z;
  deletedAt : option Z;
}.

Record CreateContractInput : Type := {
  in_title : string;
  in_clientId : string;
  in_freelancerId : option string;
  in_amount : number;
  in_status : option string;
}.

(** [Partial<Omit<Contract, 'id' | 'createdAt' | 'version'>>] *)
Record ContractFields : Type := {
  f_title : option string;
  f_clientId : option string;
  f_freelancerId : option string;
  f_amount : option number;
  f_status : option string;
  f_deletedAt : option (option Z);
}.

(** The patches the contract service sends: it never sets the client or the
    deletion time. *)
Definition service_fields (f : ContractFields) : Prop :=
  f_clientId f = None /\ f_deletedAt f = None.

Inductive error : Type :=
| NotFoundError (id : string)
| VersionConflictError
| InvalidContractStatus (status : string)
| NotSoftDeleted (id : string)
| SoftDeleteRetentionError (id : string) (days : Z)
| StorageError.   (* a constraint of the database is violated *)

Record CursorPage : Type := {
  data : list Contract;
  nextCursor : option string;
  hasNextPage : bool;
  limit : Z;
}.

Definition VALID_CONTRACT_STATUSES : list string :=
  ["draft"; "active"; "completed"; "disputed"; "cancelled"].

Definition assertValidContractStatus (st : string) : bool :=
  bool_decide (st ∈ VALID_CONTRACT_STATUSES).

(** The contract a creation stores and returns (both repositories). *)
Definition new_contract (uuid now : string) (input : CreateContractInput) : Contract :=
  {| id := uuid; title := in_title input; clientId := in_clientId input;
     freelancerId := default EmptyString (in_freelancerId input);
     amount := in_amount input; status := default "draft" (in_status input);
     createdAt := now; version := 0; deletedAt := None |}.

Definition with_deletedAt (d : option Z) (c : Contract) : Contract :=
  {| id := id c; title := title c; clientId := clientId c; freelancerId := freelancerId c;
     amount := amount c; status := status c; createdAt := createdAt c;
     version := version c; deletedAt := d |}.

(** [{ ...existing, ...fields, version: existing.version + 1 }] *)
Definition merge_fields (f : ContractFields) (c : Contract) : Contract :=
  {| id := id c;
     title := default (title c) (f_title f);
     clientId := default (clientId c) (f_clientId f);
     freelancerId := default (freelancerId c) (f_freelancerId f);
     amount := default (amount c) (f_amount f);
     status := default (status c) (f_status f);
     createdAt := createdAt c;
     version := version c + 1;
     deletedAt := default (deletedAt c) (f_deletedAt f) |}.

(** ** The interface *)

Class ContractRepo (S : Type) : Type := {
  create : string -> string -> CreateContractInput -> SE S error Contract;
  findById : string -> bool -> S -> option Contract;
  findAll : bool -> S -> list Contract;
  findByClientId : string -> bool -> S -> list Contract;
  findPage : (string -> bool) -> Cursor.raw_limit -> option string -> bool -> S ->
    result page_error CursorPage;
  updateWithVersion : string -> ContractFields -> Z -> SE S error Contract;
  delete : string -> Z -> SE S error bool;
  restore : string -> Z -> Z -> SE S error Contract;
  purgeExpired : Z -> Z -> SE S error Z;
}.

(** A client that follows [nextCursor] from the first page to the last. *)
Fixpoint walk {S : Type} `{!ContractRepo S} (date_parses : string -> bool)
    (raw : Cursor.raw_limit) (includeDeleted : bool) (s : S) (fuel : nat)
    (cursor : option string) : option (list Contract) :=
  match fuel with
  | O => None
  | Datatypes.S fuel =>
      match findPage date_parses raw cursor includeDeleted s with
      | Err _ => None
      | Ok p =>
          match nextCursor p with
          | None => Some (data p)
          | Some c => app (data p) <$> walk date_parses raw includeDeleted s fuel (Some c)
          end
      end
  end.

(** ** Abstract specification on a finite map *)

Notation store := (gmap string Contract).

Definition visible (includeDeleted : bool) (c : Contract) : bool :=
  includeDeleted || negb (isSoftDeleted (deletedAt c)).

Definition spec_find (m : store) (i : string) (includeDeleted : bool) : option Contract :=
  c ← m !! i; if visible includeDeleted c then Some c else None.

Definition spec_update (m : store) (i : string) (f : ContractFields) (expected : Z)
  : result error Contract :=
  match spec_find m i false with
  | None => Err (NotFoundError i)
  | Some c => if bool_decide (version c = expected) then Ok (merge_fields f c)
              else Err VersionConflictError
  end.

Definition spec_restore (m : store) (i : string) (now days : Z) : result error Contract :=
  match m !! i with
  | None => Err (NotFoundError i)
  | Some c =>
      match deletedAt c with
      | None => Err (NotSoftDeleted i)
      | Some t =>
          if isPastRetentionWindow (Some t) days now
          then Err (SoftDeleteRetentionError i days) else Ok (with_deletedAt None c)
      end
  end.

(** The laws: each operation refines its specification; a repository may refuse
    a write because of a storage constraint, and then nothing changes. *)
Class ContractRepoLaws (S : Type) `{!ContractRepo S} : Type := {
  repo_ok : S -> Prop;
  view : S -> store;
  create_law uuid now input s : repo_ok s -> view s !! uuid = None ->
    match create uuid now input s with
    | (Ok c, s') => repo_ok s' /\ c = new_contract uuid now input /\
                    status c ∈ VALID_CONTRACT_STATUSES /\ view s' = <[uuid := c]> (view s)
    | (Err e, s') => repo_ok s' /\ view s' = view s
    end;
  findById_law i b s : repo_ok s -> findById i b s = spec_find (view s) i b;
  findAll_law b s c : repo_ok s ->
    c ∈ findAll b s <-> exists i, view s !! i = Some c /\ visible b c = true;
  update_law i f v s : repo_ok s -> service_fields f ->
    match updateWithVersion i f v s with
    | (Ok c, s') => repo_ok s' /\ spec_update (view s) i f v = Ok c /\
                    view s' = <[i := c]> (view s)
    | (Err e, s') => repo_ok s' /\ view s' = view s /\
                     (spec_update (view s) i f v = Err e \/ e = StorageError)
    end;
  delete_law i now s : repo_ok s ->
    match delete i now s with
    | (Ok b, s') => repo_ok s' /\
        match spec_find (view s) i false with
        | Some c => b = true /\ view s' = <[i := with_deletedAt (Some now) c]> (view s)
        | None => b = false /\ view s' = view s
        end
    | (Err e, s') => False
    end;
  restore_law i now days s : repo_ok s ->
    match restore i now days s with
    | (Ok c, s') => repo_ok s' /\ spec_restore (view s) i now days = Ok c /\
                    view s' = <[i := c]> (view s)
    | (Err e, s') => repo_ok s' /\ view s' = view s /\ spec_restore (view s) i now days = Err e
    end;
  (** A purge removes every contract strictly past its window, nothing that is
      live or strictly inside it; the boundary instant is implementation
      defined. *)
  purge_law now days s : repo_ok s ->
    match purgeExpired now days s with
    | (Ok n, s') => repo_ok s' /\ view s' ⊆ view s /\
        n = Z.of_nat (size (view s)) - Z.of_nat (size (view s')) /\
        (forall i c, view s !! i = Some c -> view s' !! i = None ->
           exists t, deletedAt c = Some t /\ t + days * day_ms <= now) /\
        (forall i c t, view s' !! i = Some c -> deletedAt c = Some t -> now <= t + days * day_ms)
    | (Err e, s') => s' = s
    end;
}.

(** The abstract machine: a finite map of contracts in which contracts are
    created as version 0, updated only while live and then one version up,
    marked deleted, unmarked within their retention window, and forgotten only
    while marked. *)
Inductive spec_step (m : store) : store -> Prop :=
| SpecCreate i c :
    m !! i = None -> version c = 0 -> deletedAt c = None -> status c ∈ VALID_CONTRACT_STATUSES ->
    spec_step m (<[i := c]> m)
| SpecUpdate i c f :
    m !! i = Some c -> deletedAt c = None -> spec_step m (<[i := merge_fields f c]> m)
| SpecDelete i c t :
    m !! i = Some c -> deletedAt c = None -> spec_step m (<[i := with_deletedAt (Some t) c]> m)
| SpecRestore i c t now days :
    m !! i = Some c -> deletedAt c = Some t -> now <= t + days * day_ms ->
    spec_step m (<[i := with_deletedAt None c]> m)
| SpecPurge m' :
    m' ⊆ m -> (forall i c, m !! i = Some c -> m' !! i = None -> is_Some (deletedAt c)) ->
    spec_step m m'.

(** ** What follows from the laws alone *)

Section Client.
Context {S : Type} `{!ContractRepo S} `{!ContractRepoLaws S}.

Inductive op : Type :=
| OpCreate (uuid now : string) (input : CreateContractInput)
| OpUpdate (i : string) (f : ContractFields) (expected : Z)
| OpDelete (i : string) (now : Z)
| OpRestore (i : string) (now days : Z)
| OpPurge (now days : Z).

Definition exec (o : op) (s : S) : S :=
  match o with
  | OpCreate uuid now input => (create uuid now input s).2
  | OpUpdate i f v => (updateWithVersion i f v s).2
  | OpDelete i now => (delete i now s).2
  | OpRestore i now days => (restore i now days s).2
  | OpPurge now days => (purgeExpired now days s).2
  end.

Definition run (ops : list op) (s : S) : S := foldl (fun s o => exec o s) s ops.

(** Ids are fresh when drawn, and updates come from the service. *)
Definition fair_op (s : S) (o : op) : Prop :=
  match o with
  | OpCreate uuid _ _ => view s !! uuid = None
  | OpUpdate _ f _ => service_fields f
  | _ => True
  end.

Fixpoint fair_run (ops : list op) (s : S) : Prop :=
  match ops with
  | [] => True
  | o :: ops' => fair_op s o /\ fair_run ops' (exec o s)
  end.

Definition does_not_create (i : string) (o : op) : Prop :=
  match o with OpCreate uuid _ _ => uuid <> i | _ => True end.

Lemma spec_find_Some m i b c :
  spec_find m i b = Some c <-> m !! i = Some c /\ visible b c = true.
Proof.
  unfold spec_find. destruct (m !! i) as [d|]; simpl; [|naive_solver].
  destruct (visible b d) eqn:E; split.
  - by intros [= <-].
  - by intros [[= <-] _].
  - done.
  - intros [[= <-] ?]. congruence.
Qed.

Lemma spec_update_Ok m i f v c :
  spec_update m i f v = Ok c <->
  exists d, m !! i = Some d /\ deletedAt d = None /\ version d = v /\ c = merge_fields f d.
Proof.
  unfold spec_update. destruct (spec_find m i false) as [d|] eqn:E.
  - apply spec_find_Some in E as [Hd Hv]. unfold visible in Hv. simpl in Hv.
    apply negb_true_iff, isSoftDeleted_false in Hv. case_bool_decide; naive_solver.
  - split; [done|]. intros (d & Hd & Hl & _ & _).
    assert (spec_find m i false = Some d) as H; [|congruence].
    apply spec_find_Some. split; [done|]. unfold visible. by rewrite Hl.
Qed.

Lemma spec_restore_Ok m i now days c :
  spec_restore m i now days = Ok c <->
  exists d t, m !! i = Some d /\ deletedAt d = Some t /\ now <= t + days * day_ms /\
              c = with_deletedAt None d.
Proof.
  unfold spec_restore, isPastRetentionWindow. destruct (m !! i) as [d|]; [|naive_solver].
  destruct (deletedAt d) as [t|] eqn:Ht; [|naive_solver]. simpl.
  case_bool_decide; simpl; naive_solver.
Qed.

(** One operation: a contract that is there afterwards was there before, with a
    version that is not larger, unless it was just created. *)
Lemma exec_version o s k c' :
  repo_ok s -> fair_op s o -> does_not_create k o ->
  view (exec o s) !! k = Some c' ->
  exists c, view s !! k = Some c /\ version c <= version c'.
Proof.
  intros Hok Hfair Hk Hc'. destruct o as [uuid now input|i f v|i now|i now days|now days]; cbn [exec fair_op does_not_create] in *.
  - pose proof (create_law uuid now input s Hok Hfair) as L.
    destruct (create uuid now input s) as [[c|e] s']; cbn [snd] in *.
    + destruct L as (_ & _ & _ & Hv). rewrite Hv, lookup_insert_ne in Hc' by done. eauto with lia.
    + destruct L as (_ & Hv). rewrite Hv in Hc'. eauto with lia.
  - pose proof (update_law i f v s Hok Hfair) as L.
    destruct (updateWithVersion i f v s) as [[c|e] s']; cbn [snd] in *.
    + destruct L as (_ & (d & Hd & _ & _ & ->)%spec_update_Ok & Hv). rewrite Hv in Hc'.
      destruct (decide (i = k)) as [->|Hne].
      * rewrite lookup_insert_eq in Hc'. simplify_eq. exists d. simpl. split; [done|lia].
      * rewrite lookup_insert_ne in Hc' by done. eauto with lia.
    + destruct L as (_ & Hv & _). rewrite Hv in Hc'. eauto with lia.
  - pose proof (delete_law i now s Hok) as L.
    destruct (delete i now s) as [[b|e] s']; cbn [snd] in *; [|done]. destruct L as [_ L].
    destruct (spec_find (view s) i false) as [c|] eqn:Hf; destruct L as [_ Hv]; rewrite Hv in Hc';
      [|eauto with lia].
    apply spec_find_Some in Hf as [Hi _]. destruct (decide (i = k)) as [->|Hne].
    + rewrite lookup_insert_eq in Hc'. simplify_eq. exists c. split; [done|simpl; lia].
    + rewrite lookup_insert_ne in Hc' by done. eauto with lia.
  - pose proof (restore_law i now days s Hok) as L.
    destruct (restore i now days s) as [[c|e] s']; cbn [snd] in *.
    + destruct L as (_ & (d & t & Hd & _ & _ & ->)%spec_restore_Ok & Hv). rewrite Hv in Hc'.
      destruct (decide (i = k)) as [->|Hne].
      * rewrite lookup_insert_eq in Hc'. simplify_eq. exists d. split; [done|simpl; lia].
      * rewrite lookup_insert_ne in Hc' by done. eauto with lia.
    + destruct L as (_ & Hv & _). rewrite Hv in Hc'. eauto with lia.
  - pose proof (purge_law now days s Hok) as L.
    destruct (purgeExpired now days s) as [[n|e] s']; cbn [snd] in *.
    + destruct L as (_ & Hsub & _). exists c'. split; [|lia].
      by eapply lookup_weaken.
    + subst s'. eauto with lia.
Qed.

Lemma exec_ok o s : repo_ok s -> fair_op s o -> repo_ok (exec o s).
Proof.
  intros Hok Hfair. destruct o as [uuid now input|i f v|i now|i now days|now days]; cbn [exec fair_op does_not_create] in *.
  - pose proof (create_law uuid now input s Hok Hfair) as L.
    destruct (create uuid now input s) as [[c|e] s']; cbn [snd]; tauto.
  - pose proof (update_law i f v s Hok Hfair) as L.
    destruct (updateWithVersion i f v s) as [[c|e] s']; cbn [snd]; tauto.
  - pose proof (delete_law i now s Hok) as L.
    destruct (delete i now s) as [[b|e] s']; cbn [snd]; tauto.
  - pose proof (restore_law i now days s Hok) as L.
    destruct (restore i now days s) as [[c|e] s']; cbn [snd]; tauto.
  - pose proof (purge_law now days s Hok) as L.
    destruct (purgeExpired now days s) as [[n|e] s']; cbn [snd] in *; [tauto|congruence].
Qed.

Lemma run_version ops s k c' :
  repo_ok s -> fair_run ops s -> Forall (does_not_create k) ops ->
  view (run ops s) !! k = Some c' ->
  exists c, view s !! k = Some c /\ version c <= version c'.
Proof.
  intros Hok Hfair Hk. revert s Hok Hfair. induction Hk as [|o ops Ho Hk IH]; simpl;
    intros s Hok Hfair Hc'; [eauto with lia|].
  destruct Hfair as [Hf Hfs].
  destruct (IH (exec o s) (exec_ok o s Hok Hf) Hfs Hc') as (c1 & H1 & L1).
  destruct (exec_version o s k c1 Hok Hf Ho H1) as (c & Hc & L). exists c. split; [done|lia].
Qed.

Lemma run_ok ops s : repo_ok s -> fair_run ops s -> repo_ok (run ops s).
Proof.
  revert s. induction ops as [|o ops IH]; simpl; intros s Hok Hf; [done|].
  destruct Hf as [Hf Hfs]. apply IH; [by apply exec_ok|done].
Qed.

(** Every operation is one step of the abstract machine or leaves the map as it
    is. *)
Lemma exec_refines o s :
  repo_ok s -> fair_op s o ->
  view (exec o s) = view s \/ spec_step (view s) (view (exec o s)).
Proof.
  intros Hok Hfair. destruct o as [uuid now input|i f v|i now|i now days|now days]; cbn [exec fair_op] in *.
  - pose proof (create_law uuid now input s Hok Hfair) as L.
    destruct (create uuid now input s) as [[c|e] s']; cbn [snd]; [right|left; tauto].
    destruct L as (_ & -> & Hst & ->). by apply SpecCreate.
  - pose proof (update_law i f v s Hok Hfair) as L.
    destruct (updateWithVersion i f v s) as [[c|e] s']; cbn [snd]; [right|left; tauto].
    destruct L as (_ & (d & Hd & Hdel & _ & ->)%spec_update_Ok & ->). by apply SpecUpdate.
  - pose proof (delete_law i now s Hok) as L.
    destruct (delete i now s) as [[b|e] s']; cbn [snd]; [|done]. destruct L as [_ L].
    destruct (spec_find (view s) i false) as [c|] eqn:Hf; destruct L as [_ ->]; [right|by left].
    apply spec_find_Some in Hf as [Hi Hv]. apply SpecDelete; [done|].
    unfold visible in Hv. simpl in Hv. by apply negb_true_iff, isSoftDeleted_false in Hv.
  - pose proof (restore_law i now days s Hok) as L.
    destruct (restore i now days s) as [[c|e] s']; cbn [snd]; [right|left; tauto].
    destruct L as (_ & (d & t & Hd & Ht & Hle & ->)%spec_restore_Ok & ->). by eapply SpecRestore.
  - pose proof (purge_law now days s Hok) as L.
    destruct (purgeExpired now days s) as [[n|e] s']; cbn [snd] in *; [right|left; congruence].
    destruct L as (_ & Hsub & _ & Hgone & _). apply SpecPurge; [done|].
    intros i c Hi Hn. destruct (Hgone i c Hi Hn) as (t & Ht & _). by rewrite Ht.
Qed.

(** ** Properties *)

(** C4: refinement.  Whatever operations a client issues, the contracts a
    repository that satisfies the laws holds evolve exactly as the abstract
    contract machine allows: created at version 0 with a valid status, changed
    only while live and one version at a time, deleted by marking, restored
    only within the retention window, forgotten only while marked. *)
Theorem repo_refines_spec ops s :
  repo_ok s -> fair_run ops s -> rtc spec_step (view s) (view (run ops s)).
Proof.
  revert s. induction ops as [|o ops IH]; intros s Hok Hfair; [by apply rtc_refl|].
  destruct Hfair as [Hf Hfs]. simpl. pose proof (IH (exec o s) (exec_ok o s Hok Hf) Hfs) as IH'.
  destruct (exec_refines o s Hok Hf) as [<-|Hstep]; [done|by eapply rtc_l].
Qed.


(** The version of a contract never decreases and counts its successful
    updates: an update raises it by exactly one, and no operation lowers it. *)
Theorem version_monotone ops s k c c' :
  repo_ok s -> fair_run ops s -> Forall (does_not_create k) ops ->
  view s !! k = Some c -> view (run ops s) !! k = Some c' ->
  version c <= version c' /\
  (forall f v d s2, service_fields f -> updateWithVersion k f v (run ops s) = (Ok d, s2) ->
     v = version c' /\ version d = version c' + 1).
Proof.
  intros Hok Hfair Hk Hc Hc'. split.
  - destruct (run_version ops s k c' Hok Hfair Hk Hc') as (c0 & Hc0 & Hle). congruence.
  - intros f v d s2 Hf Hup.
    pose proof (update_law k f v (run ops s) (run_ok ops s Hok Hfair) Hf) as L. rewrite Hup in L.
    destruct L as (_ & (d0 & Hd0 & _ & Hv & ->)%spec_update_Ok & _).
    assert (d0 = c') as -> by congruence. split; [done|]. done.
Qed.

End Client.

End Contracts.
