(* ===== verification/SqliteContracts.v ===== *)
(** * The SQLite contract repository: class [ContractRepository] of
    src/repositories/contractRepository.ts

    The [contracts] table is a list of rows keyed by primary key, in rowid
    order; the schema's constraints (src/db/migrations.ts: foreign keys to
    [users], CHECKs on amount and status, and the foreign key from
    [reputation_entries.context_id] to [contracts.id]) are enforced by each
    statement, which then has no effect.  The table is taken to have the column
    deleted_at that the statements of the repository name; Schema shows that the
    migrations do not create it. *)

From stdpp Require Import prelude gmap strings sorting.
From Stdlib Require Import ZArith Lia.
From S2P Require Import Prelude JsMap JsValue SoftDelete Regex Cursor Keyset Contracts.
Import Keyset.
Import Contracts.
Open Scope Z_scope.

Module Sqlite.

Record ContractRow : Type := {
  r_id : string;
  r_title : string;
  r_client_id : string;
  r_freelancer_id : string;
  r_amount : number;
  r_status : string;
  r_version : Z;
  r_created_at : string;
  r_deleted_at : option Z;
}.

Record db : Type := {
  contracts : list (string * ContractRow);
  users : list string;         (* ids in the users table *)
  context_refs : list string;  (* contract ids referenced by reputation_entries *)
}.

Definition set_contracts (m : list (string * ContractRow)) (d : db) : db :=
  {| contracts := m; users := users d; context_refs := context_refs d |}.

Definition toContract (r : ContractRow) : Contract :=
  {| id := r_id r; title := r_title r; clientId := r_client_id r;
     freelancerId := r_freelancer_id r; amount := r_amount r; status := r_status r;
     createdAt := r_created_at r; version := r_version r; deletedAt := r_deleted_at r |}.

(** Foreign keys and CHECK constraints of one row. *)
Definition row_constraints (d : db) (r : ContractRow) : bool :=
  bool_decide (r_client_id r ∈ users d) && bool_decide (r_freelancer_id r ∈ users d) &&
  num_leb (of_int 0) (r_amount r) && bool_decide (r_status r ∈ VALID_CONTRACT_STATUSES) &&
  bool_decide (0 <= r_version r).

Definition rows (includeDeleted : bool) (d : db) : list ContractRow :=
  filter (fun r => includeDeleted || negb (isSoftDeleted (r_deleted_at r)) = true)
    (map_values (contracts d)).

(** ORDER BY created_at DESC *)
Definition newer (a b : ContractRow) : Prop := String.le (r_created_at b) (r_created_at a).
#[export] Instance newer_dec : RelDecision newer.
Proof. unfold newer. intros a b. apply _. Defined.

Definition findAll (includeDeleted : bool) (d : db) : list Contract :=
  toContract <$> merge_sort newer (rows includeDeleted d).

Definition findById (i : string) (includeDeleted : bool) (d : db) : option Contract :=
  match map_get i (contracts d) with
  | Some r => if includeDeleted || negb (isSoftDeleted (r_deleted_at r))
              then Some (toContract r) else None
  | None => None
  end.

Definition findByClientId (cid : string) (includeDeleted : bool) (d : db) : list Contract :=
  toContract <$> merge_sort newer (filter (fun r => r_client_id r = cid) (rows includeDeleted d)).

Definition new_row (uuid now : string) (input : CreateContractInput) : ContractRow :=
  {| r_id := uuid; r_title := in_title input; r_client_id := in_clientId input;
     r_freelancer_id := default EmptyString (in_freelancerId input);
     r_amount := in_amount input; r_status := default "draft" (in_status input);
     r_version := 0; r_created_at := now; r_deleted_at := None |}.

(** INSERT INTO contracts *)
Definition insert_row (r : ContractRow) : SE db error unit :=
  fun d =>
    if map_has (r_id r) (contracts d) || negb (row_constraints d r) then (Err StorageError, d)
    else (Ok tt, set_contracts (map_set (r_id r) r (contracts d)) d).

Definition create (uuid now : string) (input : CreateContractInput) : SE db error Contract :=
  throw_if (negb (assertValidContractStatus (default "draft"%string (in_status input))))
    (InvalidContractStatus (default "draft"%string (in_status input))) ;;
  insert_row (new_row uuid now input) ;;
  ret (new_contract uuid now input).

(** The SET clause: COALESCE keeps a column when the field is absent. *)
Definition set_clause (f : ContractFields) (r : ContractRow) : ContractRow :=
  {| r_id := r_id r; r_title := default (r_title r) (f_title f);
     r_client_id := r_client_id r;
     r_freelancer_id := default (r_freelancer_id r) (f_freelancerId f);
     r_amount := default (r_amount r) (f_amount f);
     r_status := default (r_status r) (f_status f);
     r_version := r_version r + 1; r_created_at := r_created_at r;
     r_deleted_at := r_deleted_at r |}.

(** UPDATE contracts SET ... WHERE id = ? AND version = ? AND deleted_at IS
    NULL; returns the number of changed rows. *)
Definition update_row (i : string) (f : ContractFields) (expected : Z) : SE db error Z :=
  fun d =>
    match map_get i (contracts d) with
    | Some r =>
        if bool_decide (r_version r = expected) && negb (isSoftDeleted (r_deleted_at r)) then
          if row_constraints d (set_clause f r)
          then (Ok 1, set_contracts (map_set i (set_clause f r) (contracts d)) d)
          else (Err StorageError, d)
        else (Ok 0, d)
    | None => (Ok 0, d)
    end.

(** [updateWithVersion] is three statements; the reads do not write.  The last
    read always finds the row that was just updated. *)
Definition updateWithVersion (i : string) (f : ContractFields) (expected : Z)
  : SE db error Contract :=
  let! d := get in
  throw_if (bool_decide (findById i false d = None)) (NotFoundError i) ;;
  let! changes := update_row i f expected in
  throw_if (changes =? 0) VersionConflictError ;;
  let! d' := get in
  match findById i false d' with
  | Some c => ret c
  | None => throw (NotFoundError i)
  end.

Definition set_deleted_at (t : option Z) (r : ContractRow) : ContractRow :=
  {| r_id := r_id r; r_title := r_title r; r_client_id := r_client_id r;
     r_freelancer_id := r_freelancer_id r; r_amount := r_amount r; r_status := r_status r;
     r_version := r_version r; r_created_at := r_created_at r; r_deleted_at := t |}.

Definition delete (i : string) (now : Z) : SE db error bool :=
  fun d =>
    match map_get i (contracts d) with
    | Some r =>
        if isSoftDeleted (r_deleted_at r) then (Ok false, d)
        else (Ok true, set_contracts (map_set i (set_deleted_at (Some now) r) (contracts d)) d)
    | None => (Ok false, d)
    end.

Definition restore (i : string) (now days : Z) : SE db error Contract :=
  fun d =>
    match findById i true d with
    | None => (Err (NotFoundError i), d)
    | Some c =>
        if negb (isSoftDeleted (deletedAt c)) then (Err (NotSoftDeleted i), d)
        else if isPastRetentionWindow (deletedAt c) days now
        then (Err (SoftDeleteRetentionError i days), d)
        else
          let d' :=
            match map_get i (contracts d) with
            | Some r => set_contracts (map_set i (set_deleted_at None r) (contracts d)) d
            | None => d
            end in
          match findById i true d' with
          | Some c' => (Ok c', d')
          | None => (Err (NotFoundError i), d')
          end
    end.

(** DELETE ... WHERE deleted_at IS NOT NULL AND deleted_at <= cutoff *)
Definition expired (cutoff : Z) (r : ContractRow) : bool :=
  match r_deleted_at r with
  | Some t => bool_decide (t <= cutoff)
  | None => false
  end.

Definition purgeExpired (now days : Z) : SE db error Z :=
  fun d =>
    let cutoff := now - days * day_ms in
    let gone := filter (fun e => expired cutoff e.2 = true) (contracts d) in
    let kept := filter (fun e => expired cutoff e.2 = false) (contracts d) in
    if existsb (fun k => bool_decide (k ∈ context_refs d)) (map_keys gone)
    then (Err StorageError, d)
    else (Ok (Z.of_nat (length gone)), set_contracts kept d).

#[global] Instance contract_keyset : KeysetRow ContractRow :=
  {| row_created := r_created_at; row_key := r_id |}.

Definition to_page (p : page (A := ContractRow)) : CursorPage :=
  {| data := toContract <$> page_rows p; nextCursor := page_next p;
     hasNextPage := page_more p; limit := page_limit p |}.

Definition findPage (date_parses : string -> bool) (raw : Cursor.raw_limit)
    (cursor : option string) (includeDeleted : bool) (d : db) : result page_error CursorPage :=
  match fetch_page date_parses raw cursor (rows includeDeleted d) with
  | Ok p => Ok (to_page p)
  | Err e => Err e
  end.

#[global] Instance sqlite_repo : ContractRepo db := {|
  Contracts.create := create;
  Contracts.findById := findById;
  Contracts.findAll := findAll;
  Contracts.findByClientId := findByClientId;
  Contracts.findPage := findPage;
  Contracts.updateWithVersion := updateWithVersion;
  Contracts.delete := delete;
  Contracts.restore := restore;
  Contracts.purgeExpired := purgeExpired;
|}.

(** ** The laws *)

Definition db_ok (d : db) : Prop :=
  wf (contracts d) /\ forall k r, map_get k (contracts d) = Some r -> r_id r = k.

Definition db_view (d : db) : gmap string Contract := toContract <$> to_gmap (contracts d).

Lemma db_view_lookup d k : db_view d !! k = toContract <$> map_get k (contracts d).
Proof. unfold db_view. by rewrite lookup_fmap, to_gmap_lookup. Qed.

Lemma db_view_set d i r :
  db_view (set_contracts (map_set i r (contracts d)) d) = <[i := toContract r]> (db_view d).
Proof. unfold db_view. simpl. by rewrite to_gmap_set, fmap_insert. Qed.

Lemma db_ok_set d i r : db_ok d -> r_id r = i -> db_ok (set_contracts (map_set i r (contracts d)) d).
Proof.
  intros [Hwf Hid] Hr. split; simpl; [by apply wf_set|].
  intros k q Hk. destruct (decide (i = k)) as [->|Hne].
  - rewrite map_get_set_eq in Hk. congruence.
  - rewrite map_get_set_ne in Hk by done. eauto.
Qed.

Lemma findById_spec i b d : findById i b d = spec_find (db_view d) i b.
Proof.
  unfold findById, spec_find. rewrite db_view_lookup.
  by destruct (map_get i (contracts d)).
Qed.

Lemma elem_of_rows b d r :
  wf (contracts d) ->
  r ∈ rows b d <-> (exists k, map_get k (contracts d) = Some r) /\
                   (b || negb (isSoftDeleted (r_deleted_at r))) = true.
Proof.
  intros Hwf. unfold rows. rewrite list_elem_of_filter, elem_of_map_values by done. tauto.
Qed.

Lemma update_row_spec i f v d :
  service_fields f ->
  match update_row i f v d with
  | (Ok n, d') =>
      (n = 0 /\ d' = d /\ (forall c, spec_update (db_view d) i f v <> Ok c)) \/
      (n = 1 /\ exists r, map_get i (contracts d) = Some r /\ r_deleted_at r = None /\
                 d' = set_contracts (map_set i (set_clause f r) (contracts d)) d /\
                 spec_update (db_view d) i f v = Ok (toContract (set_clause f r)))
  | (Err e, d') => e = StorageError /\ d' = d
  end.
Proof.
  intros [Hf1 Hf2]. unfold update_row.
  destruct (map_get i (contracts d)) as [r|] eqn:Hi.
  - destruct (bool_decide (r_version r = v) && negb (isSoftDeleted (r_deleted_at r))) eqn:E.
    + bool_to_prop. destruct (row_constraints _ _); [|done]. right.
      match goal with H : isSoftDeleted _ = false |- _ => apply isSoftDeleted_false in H end.
      split; [done|]. exists r. split_and!; try done.
      apply spec_update_Ok. exists (toContract r). rewrite db_view_lookup, Hi. split_and!; try done.
      unfold toContract, merge_fields. simpl. by rewrite Hf1, Hf2.
    + left. split_and!; try done. intros c (q & Hq & Hl & Hv & _)%spec_update_Ok.
      rewrite db_view_lookup, Hi in Hq. simpl in Hq. simplify_eq/=.
      rewrite Hl in E. rewrite bool_decide_eq_true_2 in E by done. done.
  - left. split_and!; try done. intros c (q & Hq & _)%spec_update_Ok.
    by rewrite db_view_lookup, Hi in Hq.
Qed.

Lemma update_spec i f v d :
  db_ok d -> service_fields f ->
  match updateWithVersion i f v d with
  | (Ok c, d') => db_ok d' /\ spec_update (db_view d) i f v = Ok c /\ db_view d' = <[i := c]> (db_view d)
  | (Err e, d') => db_ok d' /\ db_view d' = db_view d /\
                   (spec_update (db_view d) i f v = Err e \/ e = StorageError)
  end.
Proof.
  intros Hok Hf. unfold updateWithVersion, bind, get, throw_if, ret, throw.
  case_bool_decide as Hfind.
  { split_and!; [done|done|]. left. unfold spec_update. by rewrite <- findById_spec, Hfind. }
  pose proof (update_row_spec i f v d Hf) as Hu.
  destruct (update_row i f v d) as [[n|e] d'].
  - destruct Hu as [(-> & -> & Hno)|(-> & r & Hr & Hl & -> & Hspec)]; simpl.
    + split_and!; [done|done|]. left. unfold spec_update in *. rewrite <- findById_spec in *.
      destruct (findById i false d) as [c|]; [|done]. case_bool_decide; [|done].
      exfalso. by eapply Hno.
    + unfold findById. simpl. rewrite map_get_set_eq. simpl. rewrite Hl. simpl.
      split_and!; [|done|apply db_view_set].
      apply db_ok_set; [done|]. simpl. by apply Hok.
  - destruct Hu as [-> ->]. split_and!; auto.
Qed.

Lemma size_db_view d : wf (contracts d) -> size (db_view d) = length (contracts d).
Proof.
  intros Hwf. unfold db_view, to_gmap. rewrite map_size_fmap. by apply map_size_list_to_map.
Qed.

Lemma delete_spec i now d :
  db_ok d ->
  match delete i now d with
  | (Ok b, d') => db_ok d' /\
      match spec_find (db_view d) i false with
      | Some c => b = true /\ db_view d' = <[i := with_deletedAt (Some now) c]> (db_view d)
      | None => b = false /\ db_view d' = db_view d
      end
  | (Err e, d') => False
  end.
Proof.
  intros Hok. unfold delete. rewrite <- findById_spec. unfold findById.
  destruct (map_get i (contracts d)) as [r|] eqn:Hi; [|by auto]. simpl.
  destruct (isSoftDeleted (r_deleted_at r)); simpl; [by auto|]. split.
  - apply db_ok_set; [done|]. simpl. by apply Hok.
  - split; [done|]. by rewrite db_view_set.
Qed.

Lemma restore_spec i now days d :
  db_ok d ->
  match restore i now days d with
  | (Ok c, d') => db_ok d' /\ spec_restore (db_view d) i now days = Ok c /\
                  db_view d' = <[i := c]> (db_view d)
  | (Err e, d') => db_ok d' /\ db_view d' = db_view d /\ spec_restore (db_view d) i now days = Err e
  end.
Proof.
  intros Hok. unfold restore, findById, spec_restore. rewrite db_view_lookup.
  destruct (map_get i (contracts d)) as [r|] eqn:Hi; [|done]. simpl.
  destruct (r_deleted_at r) as [t|] eqn:Ht; simpl; [|done].
  destruct (isPastRetentionWindow (Some t) days now); [done|].
  rewrite map_get_set_eq. split_and!.
  - apply db_ok_set; [done|]. simpl. by apply Hok.
  - done.
  - by rewrite db_view_set.
Qed.

Lemma purge_lookup cutoff d k r :
  wf (contracts d) ->
  map_get k (filter (fun e => expired cutoff e.2 = false) (contracts d)) = Some r <->
  map_get k (contracts d) = Some r /\ expired cutoff r = false.
Proof. intros Hwf. by rewrite map_get_filter. Qed.

Lemma expired_true cutoff r :
  expired cutoff r = true <-> exists t, r_deleted_at r = Some t /\ t <= cutoff.
Proof.
  unfold expired. destruct (r_deleted_at r) as [t|]; [|naive_solver].
  rewrite bool_decide_eq_true. naive_solver.
Qed.

Lemma purge_spec now days d :
  db_ok d ->
  match purgeExpired now days d with
  | (Ok n, d') => db_ok d' /\ db_view d' ⊆ db_view d /\
      n = Z.of_nat (size (db_view d)) - Z.of_nat (size (db_view d')) /\
      (forall i c, db_view d !! i = Some c -> db_view d' !! i = None ->
         exists t, deletedAt c = Some t /\ t + days * day_ms <= now) /\
      (forall i c t, db_view d' !! i = Some c -> deletedAt c = Some t -> now <= t + days * day_ms)
  | (Err e, d') => d' = d
  end.
Proof.
  intros [Hwf Hid]. unfold purgeExpired. set (cutoff := now - days * day_ms).
  destruct (existsb _ _); [done|].
  assert (Hwf' : wf (filter (fun e => expired cutoff e.2 = false) (contracts d))) by by apply wf_filter.
  split_and!.
  - split; [done|]. intros k r [Hk _]%purge_lookup; eauto.
  - apply map_subseteq_spec. intros k c. rewrite !db_view_lookup. simpl.
    intros (r & [Hr _]%purge_lookup & ->)%fmap_Some; [|done]. by rewrite Hr.
  - rewrite !size_db_view by done. simpl.
    rewrite (length_filter_split (expired cutoff) (contracts d)). lia.
  - intros i c. rewrite !db_view_lookup. simpl. intros (r & Hr & ->)%fmap_Some Hnone%fmap_None.
    destruct (expired cutoff r) eqn:E.
    + apply expired_true in E as (t & Ht & Hle). exists t. split; [done|]. unfold cutoff in Hle. lia.
    + assert (map_get i (filter (fun e => expired cutoff e.2 = false) (contracts d)) = Some r)
        by (by apply purge_lookup). congruence.
  - intros i c t. rewrite db_view_lookup. simpl.
    intros (r & Hr & ->)%fmap_Some Ht. apply purge_lookup in Hr as [Hr He]; [|done]. simpl in Ht.
    unfold expired in He. rewrite Ht in He. bool_to_prop. unfold cutoff in *. lia.
Qed.

Lemma create_spec uuid now input d :
  db_ok d -> db_view d !! uuid = None ->
  match create uuid now input d with
  | (Ok c, d') => db_ok d' /\ c = new_contract uuid now input /\
                  status c ∈ VALID_CONTRACT_STATUSES /\ db_view d' = <[uuid := c]> (db_view d)
  | (Err e, d') => db_ok d' /\ db_view d' = db_view d
  end.
Proof.
  intros Hok Hfresh. unfold create, insert_row, throw_if, bind, ret, throw, assertValidContractStatus.
  case_bool_decide as Hst; [|done]. cbn [negb].
  destruct (_ || _) eqn:E; [done|]. split_and!; [|done|done|].
  - by apply db_ok_set.
  - by rewrite db_view_set.
Qed.

Lemma findAll_spec b d c :
  db_ok d -> c ∈ findAll b d <-> exists i, db_view d !! i = Some c /\ visible b c = true.
Proof.
  intros [Hwf Hid]. unfold findAll. rewrite list_elem_of_fmap. split.
  - intros (r & -> & Hr). rewrite merge_sort_Permutation in Hr.
    apply elem_of_rows in Hr as [[k Hk] Hv]; [|done]. exists k.
    rewrite db_view_lookup, Hk. split; [done|]. exact Hv.
  - intros (k & Hk & Hv). rewrite db_view_lookup in Hk.
    apply fmap_Some in Hk as (r & Hr & ->). exists r. split; [done|].
    rewrite merge_sort_Permutation, elem_of_rows by done. eauto.
Qed.

#[global] Instance sqlite_laws : ContractRepoLaws db := {|
  repo_ok := db_ok;
  view := db_view;
  create_law := create_spec;
  findById_law i b d _ := findById_spec i b d;
  findAll_law := findAll_spec;
  update_law := update_spec;
  delete_law := delete_spec;
  restore_law := restore_spec;
  purge_law := purge_spec;
|}.

(** ** Referential integrity

    A contract that a reputation entry refers to is never removed. *)

Lemma is_Some_map_set (m : list (string * ContractRow)) k i r :
  is_Some (map_get k m) -> is_Some (map_get k (map_set i r m)).
Proof.
  intros Hk. destruct (decide (i = k)) as [->|]; [by rewrite map_get_set_eq|by rewrite map_get_set_ne].
Qed.

Definition keeps_references (d d' : db) : Prop :=
  context_refs d' = context_refs d /\
  forall k, k ∈ context_refs d -> is_Some (map_get k (contracts d)) -> is_Some (map_get k (contracts d')).

Lemma keeps_refl d : keeps_references d d.
Proof. by split. Qed.

Lemma keeps_set d i r : keeps_references d (set_contracts (map_set i r (contracts d)) d).
Proof. split; [done|]. intros k _ Hk. by apply is_Some_map_set. Qed.

Ltac solve_keeps := first [apply keeps_refl | apply keeps_set].

Lemma purge_keeps now days d : wf (contracts d) -> keeps_references d (purgeExpired now days d).2.
Proof.
  intros Hwf. unfold purgeExpired. destruct (existsb _ _) eqn:E; [apply keeps_refl|].
  split; [done|]. simpl. intros k Hk [r Hr]. exists r.
  apply map_get_filter; [done|]. split; [done|]. simpl. apply not_true_iff_false. intros Hexp.
  apply not_true_iff_false in E. apply E. apply existsb_exists. exists k. split; [|by apply bool_decide_eq_true].
  apply list_elem_of_In. unfold map_keys. apply list_elem_of_fmap. exists (k, r). split; [done|].
  apply list_elem_of_filter. split; [done|]. by apply map_get_elem_of.
Qed.

Lemma exec_keeps_references o d : wf (contracts d) -> keeps_references d (exec o d).
Proof.
  intros Hwf. destruct o; simpl.
  - unfold create, insert_row. split_tests; solve_keeps.
  - unfold updateWithVersion, update_row. split_tests; solve_keeps.
  - unfold delete. repeat case_match; simplify_eq/=; solve_keeps.
  - unfold restore. repeat case_match; simplify_eq/=; solve_keeps.
  - by apply purge_keeps.
Qed.

Lemma exec_wf o d : wf (contracts d) -> wf (contracts (exec o d)).
Proof.
  intros Hwf. destruct o; simpl;
    unfold create, insert_row, updateWithVersion, update_row, delete, restore, purgeExpired;
    split_tests; first [done | by apply wf_set | by apply wf_filter].
Qed.

(** ** Pagination *)

Lemma rows_keys b d : db_ok d -> NoDup (row_key <$> rows b d).
Proof. intros [Hwf Hid]. by apply selected_keys. Qed.

(** The contract walk is the keyset walk over the visible rows. *)
Lemma walk_rows date_parses raw b d fuel cursor :
  walk date_parses raw b d fuel cursor =
  option_map (map toContract) (walk_pages date_parses raw (rows b d) fuel cursor).
Proof.
  revert cursor. induction fuel as [|fuel IH]; intros cursor; [done|].
  cbn [walk walk_pages Contracts.findPage sqlite_repo]. unfold findPage.
  destruct (fetch_page date_parses raw cursor (rows b d)) as [p|e]; [|done].
  cbn [to_page nextCursor data]. destruct (page_next p) as [c|]; [|done].
  rewrite IH. destruct (walk_pages _ _ _ fuel (Some c)); [|done]. simpl. by rewrite map_app.
Qed.

Lemma rows_length b d : (length (rows b d) ≤ length (contracts d))%nat.
Proof. unfold rows, map_values. etransitivity; [apply length_filter|]. by rewrite length_fmap. Qed.

(** ** Interleaving

    Every SQL statement is atomic, and an async method may be suspended between
    its statements, so concurrent requests are sequences of statements. *)

Inductive stmt : Type :=
| SInsert (r : ContractRow)
| SUpdate (i : string) (f : ContractFields) (expected : Z)
| SSetDeletedAt (i : string) (t : option Z)
| SPurge (now days : Z).

Definition exec_stmt (q : stmt) (d : db) : db :=
  match q with
  | SInsert r => (insert_row r d).2
  | SUpdate i f v => (update_row i f v d).2
  | SSetDeletedAt i t =>
      match map_get i (contracts d) with
      | Some r => set_contracts (map_set i (set_deleted_at t r) (contracts d)) d
      | None => d
      end
  | SPurge now days => (purgeExpired now days d).2
  end.

Definition inserts (i : string) (q : stmt) : bool :=
  match q with SInsert r => bool_decide (r_id r = i) | _ => false end.

Lemma set_version d i r k c :
  map_get i (contracts d) = Some r ->
  forall v, r_version r <= r_version v ->
  map_get k (contracts (set_contracts (map_set i v (contracts d)) d)) = Some c ->
  exists c0, map_get k (contracts d) = Some c0 /\ r_version c0 <= r_version c.
Proof.
  intros Hi v Hv. simpl. destruct (decide (i = k)) as [->|Hne].
  - rewrite map_get_set_eq. intros [= <-]. eauto.
  - rewrite map_get_set_ne by done. eauto with lia.
Qed.

Lemma stmt_version q d k c :
  inserts k q = false -> wf (contracts d) ->
  map_get k (contracts (exec_stmt q d)) = Some c ->
  exists c0, map_get k (contracts d) = Some c0 /\ r_version c0 <= r_version c.
Proof.
  intros Hins Hwf. destruct q as [r|i f v|i t|now days]; simpl.
  - unfold insert_row. destruct (_ || _); simpl; [eauto with lia|].
    simpl in Hins. bool_to_prop. rewrite map_get_set_ne by done. eauto with lia.
  - unfold update_row. destruct (map_get i (contracts d)) as [r|] eqn:Hi; [|simpl; eauto with lia].
    destruct (_ && _); [|simpl; eauto with lia].
    destruct (row_constraints _ _); [|simpl; eauto with lia].
    apply (set_version d i r k c Hi). simpl. lia.
  - destruct (map_get i (contracts d)) as [r|] eqn:Hi; [|eauto with lia].
    apply (set_version d i r k c Hi). simpl. lia.
  - unfold purgeExpired. destruct (existsb _ _); simpl; [eauto with lia|].
    intros [H _]%purge_lookup; [|done]. eauto with lia.
Qed.

Lemma stmt_wf q d : wf (contracts d) -> wf (contracts (exec_stmt q d)).
Proof.
  intros Hwf. destruct q as [r|i f v|i t|now days]; simpl.
  - unfold insert_row. destruct (_ || _); simpl; [done|]. by apply wf_set.
  - unfold update_row. repeat (case_match; simpl; try done). by apply wf_set.
  - destruct (map_get i (contracts d)); simpl; [by apply wf_set|done].
  - unfold purgeExpired. destruct (existsb _ _); simpl; [done|]. by apply wf_filter.
Qed.

Lemma run_stmts_version qs d k c :
  forallb (fun q => negb (inserts k q)) qs = true -> wf (contracts d) ->
  map_get k (contracts (foldl (fun d q => exec_stmt q d) d qs)) = Some c ->
  exists c0, map_get k (contracts d) = Some c0 /\ r_version c0 <= r_version c.
Proof.
  revert d. induction qs as [|q qs IH]; intros d Hins Hwf Hget; [eauto with lia|].
  simpl in *. apply andb_true_iff in Hins as [Hq%negb_true_iff Hqs].
  destruct (IH _ Hqs (stmt_wf q d Hwf) Hget) as (c1 & H1 & L1).
  destruct (stmt_version q d k c1 Hq Hwf H1) as (c0 & H0 & L0). exists c0. split; [done|lia].
Qed.

(** ** Properties *)

(** C3: following nextCursor from the first page to the last enumerates every
    visible contract exactly once, newest first, for every page size the API
    accepts, even when contracts share a creation timestamp.  The walk ends:
    one more request than there are contracts always suffices. *)
Theorem pagination_complete date_parses raw n b d :
  db_ok d -> Cursor.parseLimit raw = Ok n ->
  (forall k r, map_get k (contracts d) = Some r -> Cursor.cursor_safe date_parses (row_position r)) ->
  exists all, walk date_parses raw b d (Datatypes.S (length (contracts d))) None = Some all /\
    (forall c, c ∈ all <-> exists i, db_view d !! i = Some c /\ visible b c = true) /\
    NoDup (id <$> all) /\
    StronglySorted (fun x y => String.le (createdAt y) (createdAt x)) all.
Proof.
  intros Hok Hlimit Hsafe. exists (toContract <$> merge_sort page_order (rows b d)).
  assert (Hin : forall r, r ∈ rows b d <-> (exists k, map_get k (contracts d) = Some r) /\
    (b || negb (isSoftDeleted (r_deleted_at r))) = true) by (intros r; by apply elem_of_rows, Hok).
  split_and!.
  - rewrite walk_rows, (walk_complete date_parses raw n); [done|by apply rows_keys|done| |].
    + intros r [[k Hk] _]%Hin. by eapply Hsafe.
    + pose proof (rows_length b d). lia.
  - intros c. rewrite list_elem_of_fmap. setoid_rewrite merge_sort_Permutation. split.
    + intros (r & -> & [[k Hk] Hv]%Hin). exists k. rewrite db_view_lookup, Hk. by split.
    + intros (k & Hk & Hv). rewrite db_view_lookup in Hk. apply fmap_Some in Hk as (r & Hr & ->).
      exists r. split; [done|]. apply Hin; eauto.
  - rewrite <- list_fmap_compose. change (NoDup (row_key <$> merge_sort page_order (rows b d))).
    rewrite merge_sort_Permutation. by apply rows_keys.
  - eapply (StronglySorted_fmap _ page_order); [|apply (StronglySorted_merge_sort _ _)].
    intros x y [[H _]|[E _]]; simpl; [done|]. simpl in E. by rewrite E.
Qed.

(** Concurrent writers on SQLite.  However the statements of concurrent
    requests interleave, at most one UPDATE per contract and expected version
    takes effect: after one has, every later one with the same expected version
    changes nothing (the primary key is not inserted again). *)
Theorem update_row_at_most_once i f v d d1 qs f' :
  wf (contracts d) -> update_row i f v d = (Ok 1, d1) ->
  forallb (fun q => negb (inserts i q)) qs = true ->
  let d2 := foldl (fun d q => exec_stmt q d) d1 qs in
  update_row i f' v d2 = (Ok 0, d2).
Proof.
  intros Hwf Hup Hqs d2. unfold update_row.
  destruct (map_get i (contracts d2)) as [r2|] eqn:H2; [|done].
  assert (Hd1 : exists r, map_get i (contracts d1) = Some r /\ r_version r = v + 1 /\ wf (contracts d1)).
  { revert Hup. unfold update_row. destruct (map_get i (contracts d)) as [r|]; [|done].
    destruct (_ && _) eqn:E; [|done]. destruct (row_constraints _ _); [|done].
    intros [= <-]. exists (set_clause f r). simpl. rewrite map_get_set_eq. bool_to_prop.
    split_and!; [done|lia|by apply wf_set]. }
  destruct Hd1 as (r & Hr & Hv & Hwf1).
  destruct (run_stmts_version qs d1 i r2 Hqs Hwf1 H2) as (r0 & Hr0 & Hle).
  rewrite bool_decide_eq_false_2; [done|]. simplify_eq. lia.
Qed.

(** Creating a contract without a freelancer always fails on SQLite: the
    repository stores the empty string, which violates the foreign key to the
    users table unless a user with an empty id exists.  Nothing is stored. *)
Theorem create_without_freelancer_fails uuid now input d :
  in_freelancerId input = None -> EmptyString ∉ users d ->
  exists e, create uuid now input d = (Err e, d).
Proof.
  intros Hf Hu. unfold create, insert_row, throw_if, bind, throw, ret.
  destruct (negb _); [eauto|].
  assert (Hc : row_constraints d (new_row uuid now input) = false).
  { unfold row_constraints. simpl. rewrite Hf. simpl.
    rewrite (bool_decide_eq_false_2 (EmptyString ∈ users d)) by done.
    by rewrite andb_false_r. }
  rewrite Hc, orb_true_r. eauto.
Qed.

(** One expired contract that a reputation entry refers to blocks the whole
    purge: the DELETE violates the foreign key and no contract is removed. *)
Theorem purge_blocked_by_reputation now days d i r t :
  db_ok d -> map_get i (contracts d) = Some r -> r_deleted_at r = Some t ->
  t + days * day_ms <= now -> i ∈ context_refs d ->
  purgeExpired now days d = (Err StorageError, d).
Proof.
  intros [Hwf Hid] Hget Hdel Hpast Href. unfold purgeExpired.
  assert (Hex : existsb (fun k => bool_decide (k ∈ context_refs d))
    (map_keys (filter (fun e => expired (now - days * day_ms) e.2 = true) (contracts d))) = true).
  { apply existsb_exists. exists i. split; [|by apply bool_decide_eq_true].
    apply list_elem_of_In. unfold map_keys. apply list_elem_of_fmap.
    exists (i, r). split; [done|]. apply list_elem_of_filter. split.
    - simpl. apply expired_true. exists t. split; [done|lia].
    - by apply map_get_elem_of. }
  by rewrite Hex.
Qed.

(** At the last instant of the retention window the two maintenance paths
    disagree: restore still succeeds while a purge at the same instant removes
    the contract. *)
Theorem purge_boundary_overlap days d i r t :
  db_ok d -> map_get i (contracts d) = Some r -> r_deleted_at r = Some t -> context_refs d = [] ->
  let now := t + days * day_ms in
  is_ok (restore i now days d).1 = true /\
  map_get i (contracts (purgeExpired now days d).2) = None.
Proof.
  intros [Hwf Hid] Hget Hdel Hrefs now. split.
  - unfold restore, findById. rewrite Hget. simpl. rewrite Hdel. simpl.
    unfold isPastRetentionWindow. simpl. rewrite bool_decide_eq_true_2 by (unfold now; lia). simpl.
    by rewrite map_get_set_eq.
  - unfold purgeExpired. rewrite Hrefs.
    assert (Hex : forall l : list string, existsb (fun k => bool_decide (k ∈ @nil string)) l = false).
    { induction l as [|k l IH]; [done|]. cbn [existsb]. rewrite IH, bool_decide_eq_false_2; [done|].
      apply not_elem_of_nil. }
    rewrite Hex. cbn [snd].
    destruct (map_get i (contracts (set_contracts _ d))) as [q|] eqn:Hq; [|done].
    simpl in Hq. apply purge_lookup in Hq as [Hq He]; [|done]. simplify_eq.
    unfold expired in He. rewrite Hdel in He. bool_to_prop. unfold now in *. lia.
Qed.

(** ** Witnesses *)

Definition sample_row (i : string) (created : string) (del : option Z) : ContractRow :=
  {| r_id := i; r_title := "site"; r_client_id := "ann"; r_freelancer_id := "bob";
     r_amount := of_int 500; r_status := "draft"; r_version := 0;
     r_created_at := created; r_deleted_at := del |}.

Definition sample_db : db :=
  {| contracts := [("k1"%string, sample_row "k1" "2026-01-01T00:00:00.000Z" None);
                   ("k2"%string, sample_row "k2" "2026-01-01T00:00:00.000Z" None);
                   ("k3"%string, sample_row "k3" "2026-01-02T00:00:00.000Z" (Some 1000))];
     users := ["ann"; "bob"]; context_refs := [] |}.

Definition sample_fields : ContractFields :=
  {| f_title := Some "shop"%string; f_clientId := None; f_freelancerId := None;
     f_amount := None; f_status := Some "active"%string; f_deletedAt := None |}.

Lemma sample_db_ok : db_ok sample_db.
Proof.
  split; [vm_compute; repeat constructor; set_solver|].
  intros k r Hk. apply map_get_elem_of in Hk. simpl in Hk.
  rewrite !elem_of_cons in Hk.
  destruct Hk as [[= -> ->]|[[= -> ->]|[[= -> ->]|[]%not_elem_of_nil]]]; reflexivity.
Defined.

Lemma pagination_complete_witness :
  exists all, walk Cursor.iso_shaped (Cursor.LNumber 1) false sample_db 4 None = Some all /\
    NoDup (id <$> all).
Proof.
  destruct (pagination_complete Cursor.iso_shaped (Cursor.LNumber 1) 1 false sample_db)
    as (all & Hw & _ & Hnd & _).
  - apply sample_db_ok.
  - reflexivity.
  - intros k r Hk. apply map_get_elem_of in Hk. simpl in Hk. rewrite !elem_of_cons in Hk.
    destruct Hk as [[= -> ->]|[[= -> ->]|[[= -> ->]|[]%not_elem_of_nil]]];
      (split_and!; try reflexivity; vm_compute; lia).
  - exists all. split; [exact Hw|exact Hnd].
Defined.


Lemma repo_refines_spec_witness :
  rtc spec_step (view sample_db)
    (view (run [OpUpdate "k1" sample_fields 0; OpDelete "k1" 9; OpPurge 10 30] sample_db)).
Proof.
  apply (repo_refines_spec [OpUpdate "k1" sample_fields 0; OpDelete "k1" 9; OpPurge 10 30] sample_db).
  - apply sample_db_ok.
  - repeat split.
Defined.

Lemma version_monotone_witness :
  0 <= version (merge_fields sample_fields (toContract (sample_row "k1" "2026-01-01T00:00:00.000Z" None))).
Proof.
  apply (version_monotone [OpUpdate "k1" sample_fields 0] sample_db "k1"
    (toContract (sample_row "k1" "2026-01-01T00:00:00.000Z" None))).
  - apply sample_db_ok.
  - split; [by split|done].
  - repeat constructor.
  - vm_compute. reflexivity.
  - vm_compute. reflexivity.
Defined.

Lemma update_row_at_most_once_witness :
  let d1 := (update_row "k1" sample_fields 0 sample_db).2 in
  let d2 := foldl (fun d q => exec_stmt q d) d1 [SSetDeletedAt "k1" (Some 3); SSetDeletedAt "k1" None] in
  update_row "k1" sample_fields 0 d2 = (Ok 0, d2).
Proof.
  apply (update_row_at_most_once "k1" sample_fields 0 sample_db).
  - apply sample_db_ok.
  - vm_compute. reflexivity.
  - reflexivity.
Defined.

Definition sample_input : CreateContractInput :=
  {| in_title := "site"; in_clientId := "ann"; in_freelancerId := None;
     in_amount := of_int 500; in_status := None |}.

Lemma create_without_freelancer_fails_witness :
  exists e, create "k9" "2026-01-03T00:00:00.000Z" sample_input sample_db = (Err e, sample_db).
Proof.
  apply (create_without_freelancer_fails "k9" "2026-01-03T00:00:00.000Z" sample_input sample_db).
  - reflexivity.
  - simpl. set_solver.
Defined.

Lemma purge_blocked_by_reputation_witness :
  let d := {| contracts := contracts sample_db; users := users sample_db; context_refs := ["k3"%string] |} in
  purgeExpired 99999999999 30 d = (Err StorageError, d).
Proof.
  apply (purge_blocked_by_reputation 99999999999 30 _ "k3"
    (sample_row "k3" "2026-01-02T00:00:00.000Z" (Some 1000)) 1000).
  - apply sample_db_ok.
  - reflexivity.
  - reflexivity.
  - vm_compute. discriminate.
  - simpl. set_solver.
Defined.

Lemma purge_boundary_overlap_witness :
  is_ok (restore "k3" (1000 + 30 * day_ms) 30 sample_db).1 = true /\
  map_get "k3" (contracts (purgeExpired (1000 + 30 * day_ms) 30 sample_db).2) = None.
Proof.
  apply (purge_boundary_overlap 30 sample_db "k3"
    (sample_row "k3" "2026-01-02T00:00:00.000Z" (Some 1000)) 1000).
  - apply sample_db_ok.
  - reflexivity.
  - reflexivity.
  - reflexivity.
Defined.

End Sqlite.
