(* ===== verification/Reputation.v ===== *)
(** * Reputation: [ReputationService] of src/services/reputation.service.ts on
    [ReputationRepository] of src/repositories/reputationRepository.ts

    The state is the SQLite database of the contract repository, the
    [reputation_entries] table (rows by primary key, in rowid order, with the
    constraints of src/db/migrations.ts), the audit log and the webhook
    notifications handed to the webhook service.  What a call observes of its
    surroundings (environment, clock, fresh id, whether the audit store and the
    webhook service answer) is the record [Env]; [Date.parse], [Math.exp] and
    SHA-256 are parameters. *)

From stdpp Require Import prelude gmap strings sorting.
From Stdlib Require Import ZArith Lia.
From S2P Require Import Prelude JsMap JsValue JsArith JsString SoftDelete Cursor Keyset Contracts SqliteContracts.
Import Keyset.
Open Scope Z_scope.

Module Reputation.

Record ReputationRow : Type := {
  id : string;
  reviewer_id : string;
  target_id : string;
  rating : number;
  comment : option string;
  context_id : string;
  created_at : string;
}.

Record ReputationEntry : Type := {
  e_id : string;
  e_reviewerId : string;
  e_targetId : string;
  e_rating : number;
  e_comment : option string;
  e_contextId : string;
  e_createdAt : string;
}.

Definition toReputationEntry (r : ReputationRow) : ReputationEntry :=
  {| e_id := id r; e_reviewerId := reviewer_id r; e_targetId := target_id r;
     e_rating := rating r; e_comment := comment r; e_contextId := context_id r;
     e_createdAt := created_at r |}.

Record audit_entry : Type := {
  a_actor : string;
  a_resourceId : string;
  a_entryId : string;
  a_contextId : string;
  a_before_total : Z;
  a_after_total : Z;
  a_rating : number;
  a_comment_hash : option string;
  a_correlationId : option string;
}.

Record rating_event : Type := {
  w_entry : ReputationEntry;
  w_score : number;
  w_totalRatings : Z;
  w_weightedScore : number;
  w_scoreAlgorithm : string;
}.

Record state : Type := {
  base : Sqlite.db;
  entries : list (string * ReputationRow);
  audit_log : list audit_entry;
  webhooks : list rating_event;
}.

(** Exceptions, by class. *)
Inductive error : Type :=
| ForbiddenError (message : string)
| ConflictError
| ValidationError (message : string)
| BadRequest (message : string)
| NotInitialized
| AuditTrailError
| StorageError.

Inductive read_error : Type :=
| Service (e : error)
| Page (e : page_error).

(** The fields of the validated environment the service reads. *)
Record Config : Type := {
  REPUTATION_ENABLED : bool;
  REPUTATION_DECAY_LAMBDA : number;
  REPUTATION_SCORE_ALGORITHM_VERSION : string;
}.

Record Env : Type := {
  config : option Config;   (* [None]: validateEnv throws *)
  initialized : bool;
  uuid : string;
  now_iso : string;
  now_ms : Z;
  audit_up : bool;
  webhook_up : bool;
}.

Definition isReputationEnabled (v : Env) : bool :=
  match config v with Some c => REPUTATION_ENABLED c | None => false end.

(** ** The repository *)

Definition repo_rows (s : state) : list ReputationRow := map_values (entries s).

Definition same_triple (a b c : string) (r : ReputationRow) : bool :=
  bool_decide (reviewer_id r = a) && bool_decide (target_id r = b) && bool_decide (context_id r = c).

(** SQLite's [length]: the characters before the first NUL. *)
Fixpoint text_length (l : list Ascii.ascii) : nat :=
  match l with
  | [] => 0
  | c :: l' => if Ascii.eqb c Ascii.zero then 0 else S (text_length l')
  end%nat.

(** The CHECK constraints of the table (NaN is bound as NULL, which NOT NULL
    refuses). *)
Definition checks (r : ReputationRow) : bool :=
  num_leb (of_int 1) (rating r) && num_leb (rating r) (of_int 5) &&
  match comment r with
  | Some t => bool_decide (text_length (String.list_ascii_of_string t) ≤ 1000)%nat
  | None => true
  end.

Definition references (d : Sqlite.db) (r : ReputationRow) : bool :=
  bool_decide (reviewer_id r ∈ Sqlite.users d) && bool_decide (target_id r ∈ Sqlite.users d) &&
  map_has (context_id r) (Sqlite.contracts d).

Definition add_reference (c : string) (d : Sqlite.db) : Sqlite.db :=
  {| Sqlite.contracts := Sqlite.contracts d; Sqlite.users := Sqlite.users d;
     Sqlite.context_refs := c :: Sqlite.context_refs d |}.

(** INSERT INTO reputation_entries: CHECKs, then uniqueness, then foreign keys. *)
Definition insert_entry (r : ReputationRow) : SE state error unit :=
  fun s =>
    if negb (checks r) then (Err StorageError, s)
    else if map_has (id r) (entries s) ||
            existsb (same_triple (reviewer_id r) (target_id r) (context_id r)) (repo_rows s)
    then (Err ConflictError, s)
    else if negb (references (base s) r) then (Err StorageError, s)
    else (Ok tt, {| base := add_reference (context_id r) (base s);
                    entries := map_set (id r) r (entries s);
                    audit_log := audit_log s; webhooks := webhooks s |}).

Definition rating_row (v : Env) (reviewerId targetId : string) (rate : number)
    (contextId : string) (text : option string) : ReputationRow :=
  {| id := uuid v; reviewer_id := reviewerId; target_id := targetId; rating := rate;
     comment := text; context_id := contextId; created_at := now_iso v |}.

Definition create (v : Env) (reviewerId targetId : string) (rate : number)
    (text : option string) (contextId : string) : SE state error ReputationEntry :=
  let row := rating_row v reviewerId targetId rate contextId text in
  insert_entry row ;; ret (toReputationEntry row).

Definition findByReviewerTargetContext (a b c : string) (s : state) : option ReputationEntry :=
  toReputationEntry <$> head (filter (fun r => same_triple a b c r = true) (repo_rows s)).

Definition target_rows (targetId : string) (s : state) : list ReputationRow :=
  filter (fun r => target_id r = targetId) (repo_rows s).

(** ORDER BY created_at DESC *)
Definition newer (a b : ReputationRow) : Prop := String.le (created_at b) (created_at a).
#[export] Instance newer_dec : RelDecision newer.
Proof. unfold newer. intros a b. apply _. Defined.

Definition findByTargetId (targetId : string) (s : state) : list ReputationEntry :=
  toReputationEntry <$> merge_sort newer (target_rows targetId s).

#[global] Instance reputation_keyset : KeysetRow ReputationRow :=
  {| row_created := created_at; row_key := id |}.

Record entry_page : Type := {
  data : list ReputationEntry;
  nextCursor : option string;
  hasNextPage : bool;
  limit : Z;
}.

Definition to_entry_page (p : page (A := ReputationRow)) : entry_page :=
  {| data := toReputationEntry <$> page_rows p; nextCursor := page_next p;
     hasNextPage := page_more p; limit := page_limit p |}.

Definition findByTargetIdPaginated (date_parses : string -> bool) (targetId : string)
    (raw : Cursor.raw_limit) (cursor : option string) (s : state) : result page_error entry_page :=
  match fetch_page date_parses raw cursor (target_rows targetId s) with
  | Ok p => Ok (to_entry_page p)
  | Err e => Err e
  end.

(** SELECT COUNT... WHERE id = ? AND (client_id = ? OR freelancer_id = ?):
    soft-deleted contracts count too. *)
Definition verifyContractParticipation (contractId userId : string) (s : state) : bool :=
  match map_get contractId (Sqlite.contracts (base s)) with
  | Some c => bool_decide (Sqlite.r_client_id c = userId) ||
              bool_decide (Sqlite.r_freelancer_id c = userId)
  | None => false
  end.

Definition findById (i : string) (s : state) : option ReputationEntry :=
  toReputationEntry <$> map_get i (entries s).

Definition count (s : state) : Z := Z.of_nat (length (entries s)).

(** SELECT DISTINCT target_id ... ORDER BY target_id LIMIT ? OFFSET ? (a
    negative limit is no limit). *)
Definition distinct_targets (s : state) : list string :=
  merge_sort String.le (remove_dups (target_id <$> repo_rows s)).

Definition getDistinctTargetIdPage (lim offset : Z) (s : state) : list string :=
  let rest := drop (Z.to_nat offset) (distinct_targets s) in
  if lim <? 0 then rest else take (Z.to_nat lim) rest.

(** ** The service *)

Definition isValidReputationRatingPayload (payload : value) : bool :=
  is_object payload &&
  match prop payload "reviewerId", prop payload "rating" with
  | VString r, VNumber n =>
      negb (String.eqb r EmptyString) && is_finite n && is_integer n &&
      num_leb (of_int 1) n && num_leb n (of_int 5)
  | _, _ => false
  end.

Section Service.
Context (date_value : string -> option Z) (* new Date(s).getTime(); None is NaN *)
        (exp : number -> number)          (* Math.exp *)
        (sha256 : string -> string).      (* hex digest *)

Definition day_length : number := of_int (1000 * 60 * 60 * 24).

Definition age_in_days (now created : Z) : number :=
  num_max0 (num_div (num_sub (of_int now) (of_int created)) day_length).

Definition decay_weight (lambda age : number) : number := exp (num_mul (num_neg lambda) age).

(** One iteration of the accumulation loop. *)
Definition weigh (now : Z) (lambda : number) (acc : number * number) (e : ReputationEntry)
  : number * number :=
  match date_value (e_createdAt e) with
  | None => acc
  | Some created =>
      if negb (is_finite (e_rating e)) then acc
      else
        let w := decay_weight lambda (age_in_days now created) in
        (num_add acc.1 (num_mul (e_rating e) w), num_add acc.2 w)
  end.

Definition computeWeightedReputationScore (ratings : list ReputationEntry) (now : Z)
    (lambda : number) : number :=
  match ratings with
  | [] => of_int 0
  | _ =>
      let acc := foldl (weigh now (num_max0 lambda)) (of_int 0, of_int 0) ratings in
      if num_zero acc.2 then of_int 0 else num_div acc.1 acc.2
  end.

Record Review : Type := {
  v_reviewerId : string;
  v_rating : number;
  v_comment : option string;
  v_createdAt : string;
}.

Definition to_review (e : ReputationEntry) : Review :=
  {| v_reviewerId := e_reviewerId e; v_rating := e_rating e; v_comment := e_comment e;
     v_createdAt := e_createdAt e |}.

Record ReputationProfile : Type := {
  freelancerId : string;
  score : number;
  jobsCompleted : Z;
  totalRatings : Z;
  reviews : list Review;
  lastUpdated : string;
  weightedScore : number;
  scoreAlgorithm : string;
}.

Definition rating_sum (es : list ReputationEntry) : number :=
  foldl (fun sum e => num_add sum (e_rating e)) (of_int 0) es.

Definition mean_score (es : list ReputationEntry) : number :=
  match es with
  | [] => of_int 0
  | _ => num_div (rating_sum es) (of_int (Z.of_nat (length es)))
  end.

Definition default_lambda : number := of_ratio (5 * num_scale) 1000.

Definition buildProfile (v : Env) (targetId : string) (es : list ReputationEntry)
  : ReputationProfile :=
  let lambda := match config v with Some c => REPUTATION_DECAY_LAMBDA c | None => default_lambda end in
  let algorithm := match config v with
                   | Some c => REPUTATION_SCORE_ALGORITHM_VERSION c
                   | None => "exp-decay-v1"%string
                   end in
  {| freelancerId := targetId;
     score := round2 (mean_score es);
     jobsCompleted := 0;
     totalRatings := Z.of_nat (length es);
     reviews := to_review <$> es;
     lastUpdated := match es with e :: _ => e_createdAt e | [] => now_iso v end;
     weightedScore := round2 (computeWeightedReputationScore es (now_ms v) lambda);
     scoreAlgorithm := algorithm |}.

Definition getProfile (v : Env) (targetId : string) : SE state error ReputationProfile :=
  throw_if (negb (isReputationEnabled v)) (ForbiddenError "Reputation system is currently disabled") ;;
  throw_if (negb (initialized v)) NotInitialized ;;
  throw_if (String.eqb targetId EmptyString) (BadRequest "Freelancer ID is required") ;;
  let! s := get in
  ret (buildProfile v targetId (findByTargetId targetId s)).

Definition set_reviews (rs : list Review) (p : ReputationProfile) : ReputationProfile :=
  {| freelancerId := freelancerId p; score := score p; jobsCompleted := jobsCompleted p;
     totalRatings := totalRatings p; reviews := rs; lastUpdated := lastUpdated p;
     weightedScore := weightedScore p; scoreAlgorithm := scoreAlgorithm p |}.

(** Two statements and no feature-flag test. *)
Definition getProfilePaginated (date_parses : string -> bool) (v : Env) (targetId : string)
    (raw : Cursor.raw_limit) (cursor : option string) (s : state)
  : result read_error (ReputationProfile * entry_page) :=
  if negb (initialized v) then Err (Service NotInitialized)
  else if String.eqb targetId EmptyString then Err (Service (BadRequest "Target ID is required"))
  else match findByTargetIdPaginated date_parses targetId raw cursor s with
       | Err e => Err (Page e)
       | Ok p => Ok (set_reviews (to_review <$> data p)
                       (buildProfile v targetId (findByTargetId targetId s)), p)
       end.

(** ** Comments *)

(** [charCount[char] = (charCount[char] || 0) + 1] *)
Definition char_counts (l : list Ascii.ascii) : list (Ascii.ascii * Z) :=
  foldl (fun counts c => map_set c (default 0 (map_get c counts) + 1) counts) [] l.

Definition max_count (counts : list (Ascii.ascii * Z)) : Z := foldr Z.max 0 (map_values counts).



Definition validateComment (text : string) : result error unit :=
  let l := String.list_ascii_of_string text in
  if 1000 <? Z.of_nat (length l) then
    Err (ValidationError "Comment exceeds maximum length of 1000 characters")
  else if (0 <? Z.of_nat (length l)) && String.eqb (trim text) EmptyString then
    Err (ValidationError "Comment cannot be empty or whitespace-only")
  else if (0 <? Z.of_nat (length l)) &&
          num_gtb (num_div (of_int (max_count (char_counts l))) (of_int (Z.of_nat (length l)))) one_half then
    Err (ValidationError "Comment contains excessive repetitive content")
  else Ok tt.

(** [if (comment) this.validateComment(comment)] *)
Definition check_comment (text : option string) : SE state error unit :=
  match text with
  | Some t =>
      if String.eqb t EmptyString then ret tt
      else match validateComment t with Ok _ => ret tt | Err e => throw e end
  | None => ret tt
  end.

Definition truthy (text : option string) : option string :=
  match text with Some t => if String.eqb t EmptyString then None else Some t | None => None end.

(** ** Writing a rating *)

Definition log_rating (v : Env) (before : Z) (e : ReputationEntry) (correlation : option string)
  : SE state error unit :=
  fun s =>
    if audit_up v then
      (Ok tt, {| base := base s; entries := entries s;
                 audit_log := audit_log s ++
                   [{| a_actor := e_reviewerId e; a_resourceId := e_targetId e; a_entryId := e_id e;
                       a_contextId := e_contextId e; a_before_total := before;
                       a_after_total := before + 1; a_rating := e_rating e;
                       a_comment_hash := sha256 <$> truthy (e_comment e);
                       a_correlationId := correlation |}];
                 webhooks := webhooks s |})
    else (Err AuditTrailError, s).

(** Fire and forget: nothing here can fail the call. *)
Definition notify (v : Env) (e : ReputationEntry) : SE state error unit :=
  fun s =>
    if webhook_up v then
      match getProfile v (e_targetId e) s with
      | (Ok p, _) =>
          (Ok tt, {| base := base s; entries := entries s; audit_log := audit_log s;
                     webhooks := webhooks s ++
                       [{| w_entry := e; w_score := score p; w_totalRatings := totalRatings p;
                           w_weightedScore := weightedScore p;
                           w_scoreAlgorithm := scoreAlgorithm p |}] |})
      | (Err _, _) => (Ok tt, s)
      end
    else (Ok tt, s).

Definition createRating (v : Env) (reviewerId targetId : string) (rate : number)
    (contextId : string) (text correlation : option string) : SE state error ReputationEntry :=
  throw_if (negb (isReputationEnabled v)) (ForbiddenError "Reputation system is currently disabled") ;;
  throw_if (negb (initialized v)) NotInitialized ;;
  throw_if (bool_decide (reviewerId = targetId)) (ForbiddenError "Users cannot rate themselves") ;;
  let! s := get in
  throw_if (match findByReviewerTargetContext reviewerId targetId contextId s with
            | Some _ => true | None => false end) ConflictError ;;
  throw_if (negb (verifyContractParticipation contextId reviewerId s) ||
            negb (verifyContractParticipation contextId targetId s))
    (ForbiddenError "Only contract participants can submit ratings") ;;
  check_comment text ;;
  let before := Z.of_nat (length (findByTargetId targetId s)) in
  let! e := create v reviewerId targetId rate text contextId in
  log_rating v before e correlation ;;
  notify v e ;;
  ret e.

(** [text] is [payload.comment], passed on with its declared type. *)
Definition updateProfile (v : Env) (targetId : string) (payload : value)
    (text correlation : option string) : SE state error ReputationProfile :=
  throw_if (negb (initialized v)) NotInitialized ;;
  throw_if (String.eqb targetId EmptyString) (BadRequest "Freelancer ID is required") ;;
  throw_if (negb (isValidReputationRatingPayload payload))
    (BadRequest "Invalid payload: reviewerId and a valid integer rating are required") ;;
  match prop payload "reviewerId", prop payload "rating" with
  | VString reviewer, VNumber rate =>
      createRating v reviewer targetId rate
        (default EmptyString (as_string (prop payload "contextId"))) text correlation ;;
      getProfile v targetId
  | _, _ => throw (BadRequest "unreachable")
  end.

Record bulk_item : Type := {
  i_env : Env;   (* the id and the time drawn for this item *)
  i_reviewerId : string;
  i_targetId : string;
  i_rating : number;
  i_contextId : string;
  i_comment : option string;
}.

Definition rate_item (correlation : option string) (it : bulk_item) : SE state error ReputationEntry :=
  createRating (i_env it) (i_reviewerId it) (i_targetId it) (i_rating it) (i_contextId it)
    (i_comment it) correlation.

Definition error_code (e : error) : string :=
  match e with
  | ForbiddenError _ => "forbidden"
  | ConflictError => "conflict"
  | ValidationError _ => "validation_error"
  | _ => "internal_error"
  end.

Record bulk_result : Type := {
  index : Z;
  outcome : result (string * error) ReputationEntry;
}.

Fixpoint bulk_loop (correlation : option string) (i : Z) (items : list bulk_item) (s : state)
  : list bulk_result * state :=
  match items with
  | [] => ([], s)
  | it :: rest =>
      let '(r, s') := rate_item correlation it s in
      let out := match r with Ok e => Ok e | Err e => Err (error_code e, e) end in
      let '(rs, s'') := bulk_loop correlation (i + 1) rest s' in
      ({| index := i; outcome := out |} :: rs, s'')
  end.

Definition createBulkRatings (v : Env) (items : list bulk_item) (correlation : option string)
  : SE state error (list bulk_result) :=
  fun s => if negb (initialized v) then (Err NotInitialized, s)
           else let '(rs, s') := bulk_loop correlation 0 items s in (Ok rs, s').

#[local] Arguments weigh : simpl never.

(** ** Runs *)

Inductive op : Type :=
| OpRate (v : Env) (reviewer target : string) (rate : number) (context : string)
    (text correlation : option string)
| OpUpdate (v : Env) (target : string) (payload : value) (text correlation : option string)
| OpBulk (v : Env) (items : list bulk_item) (correlation : option string)
| OpContract (o : Contracts.op).

Definition with_base (d : Sqlite.db) (s : state) : state :=
  {| base := d; entries := entries s; audit_log := audit_log s; webhooks := webhooks s |}.

Definition exec (o : op) (s : state) : state :=
  match o with
  | OpRate v a b n c t k => (createRating v a b n c t k s).2
  | OpUpdate v b p t k => (updateProfile v b p t k s).2
  | OpBulk v items k => (createBulkRatings v items k s).2
  | OpContract o => with_base (Contracts.exec o (base s)) s
  end.

Definition run (ops : list op) (s : state) : state := foldl (fun s o => exec o s) s ops.

Record row_ok (d : Sqlite.db) (k : string) (r : ReputationRow) : Prop := {
  row_id : id r = k;
  row_parties : reviewer_id r <> target_id r;
  row_rating : between 1 (rating r) 5;
  row_tracked : context_id r ∈ Sqlite.context_refs d;
  row_context : is_Some (map_get (context_id r) (Sqlite.contracts d));
}.

Definition triple (r : ReputationRow) : string * string * string :=
  (reviewer_id r, target_id r, context_id r).

Record rep_ok (s : state) : Prop := {
  ok_base : wf (Sqlite.contracts (base s));
  ok_wf : wf (entries s);
  ok_rows : forall k r, map_get k (entries s) = Some r -> row_ok (base s) k r;
  ok_unique : forall k1 k2 r1 r2, map_get k1 (entries s) = Some r1 ->
    map_get k2 (entries s) = Some r2 -> triple r1 = triple r2 -> k1 = k2;
}.

Lemma same_triple_true a b c r : same_triple a b c r = true <-> triple r = (a, b, c).
Proof.
  unfold same_triple, triple. rewrite !andb_true_iff, !bool_decide_eq_true. naive_solver.
Qed.

Lemma elem_of_repo_rows s r : wf (entries s) -> r ∈ repo_rows s <-> exists k, map_get k (entries s) = Some r.
Proof. apply elem_of_map_values. Qed.

Lemma find_triple_None a b c s :
  findByReviewerTargetContext a b c s = None <-> Forall (fun r => triple r <> (a, b, c)) (repo_rows s).
Proof.
  unfold findByReviewerTargetContext. induction (repo_rows s) as [|r l IH]; [by split|].
  rewrite filter_cons, Forall_cons. destruct (decide _) as [H|H]; simpl.
  - apply same_triple_true in H. naive_solver.
  - rewrite IH. rewrite same_triple_true in H. naive_solver.
Qed.

(** INSERT: what a successful insertion means. *)
Lemma insert_entry_cases r s :
  match insert_entry r s with
  | (Ok _, s') =>
      checks r = true /\ map_get (id r) (entries s) = None /\
      Forall (fun q => triple q <> triple r) (repo_rows s) /\ references (base s) r = true /\
      s' = {| base := add_reference (context_id r) (base s); entries := entries s ++ [(id r, r)];
              audit_log := audit_log s; webhooks := webhooks s |}
  | (Err e, s') => s' = s /\ e <> AuditTrailError
  end.
Proof.
  unfold insert_entry. destruct (checks r); simpl; [|by split].
  destruct (map_has (id r) (entries s)) eqn:Hid; simpl; [by split|].
  destruct (existsb _ _) eqn:Hex; simpl; [by split|].
  destruct (references (base s) r) eqn:Hr; simpl; [|by split].
  apply map_has_false in Hid. rewrite map_set_None by done. split_and!; try done.
  apply Forall_forall. intros q Hq Ht. apply not_true_iff_false in Hex. apply Hex.
  apply existsb_exists. exists q. split; [by apply list_elem_of_In|]. by apply same_triple_true.
Qed.

Lemma notify_quiet v e s :
  exists ws, notify v e s =
    (Ok tt, {| base := base s; entries := entries s; audit_log := audit_log s; webhooks := ws |}).
Proof.
  unfold notify. destruct (webhook_up v); [destruct (getProfile v (e_targetId e) s) as [[p|x] q]|].
  all: try (exists (webhooks s); by destruct s). eexists. reflexivity.
Qed.

Lemma check_comment_state t s : exists r, check_comment t s = (r, s) /\
  (r = Ok tt \/ exists m, r = Err (ValidationError m)).
Proof.
  unfold check_comment. destruct t as [t|]; [|by eauto]. destruct (String.eqb t EmptyString); [by eauto|].
  unfold validateComment. repeat case_match; run_se; simplify_eq/=; eauto.
Qed.

(** The audit entry of a successful rating. *)
Definition rating_audit (before : Z) (e : ReputationEntry) (correlation : option string) : audit_entry :=
  {| a_actor := e_reviewerId e; a_resourceId := e_targetId e; a_entryId := e_id e;
     a_contextId := e_contextId e; a_before_total := before; a_after_total := before + 1;
     a_rating := e_rating e; a_comment_hash := sha256 <$> truthy (e_comment e);
     a_correlationId := correlation |}.

(** Every branch of [createRating]. *)
Lemma createRating_cases v a b n c t k s :
  let row := rating_row v a b n c t in
  let s1 := {| base := add_reference c (base s); entries := entries s ++ [(uuid v, row)];
               audit_log := audit_log s; webhooks := webhooks s |} in
  let persisted :=
    a <> b /\ verifyContractParticipation c a s = true /\ verifyContractParticipation c b s = true /\
    checks row = true /\ map_get (uuid v) (entries s) = None /\
    Forall (fun q => triple q <> triple row) (repo_rows s) in
  match createRating v a b n c t k s with
  | (Ok e, s') =>
      persisted /\ e = toReputationEntry row /\ base s' = base s1 /\ entries s' = entries s1 /\
      audit_log s' = audit_log s ++ [rating_audit (Z.of_nat (length (target_rows b s))) e k]
  | (Err AuditTrailError, s') => persisted /\ audit_up v = false /\ s' = s1
  | (Err _, s') => s' = s
  end.
Proof.
  intros row s1 persisted. unfold createRating, create.
  unfold bind at 1, throw_if at 1, throw, ret at 1. destruct (isReputationEnabled v); simpl; [|done].
  unfold bind at 1, throw_if at 1, throw, ret at 1. destruct (initialized v); simpl; [|done].
  unfold bind at 1, throw_if at 1, throw, ret at 1. case_bool_decide as Hab; [done|].
  unfold bind at 1, get. unfold bind at 1, throw_if at 1, throw, ret at 1.
  destruct (findByReviewerTargetContext a b c s); simpl; [done|].
  unfold bind at 1, throw_if at 1, throw, ret at 1.
  destruct (verifyContractParticipation c a s) eqn:Ha; simpl; [|done].
  destruct (verifyContractParticipation c b s) eqn:Hb; simpl; [|done].
  unfold bind at 1. destruct (check_comment_state t s) as (r & -> & [->|[m ->]]); [|done].
  unfold bind at 1. fold row. unfold bind at 1. pose proof (insert_entry_cases row s) as Hins.
  destruct (insert_entry row s) as [[[]|e] s']; [|destruct Hins as [-> Hne]; by destruct e; simpl].
  destruct Hins as (Hc & Hid & Hu & Hr & ->). simpl. fold s1.
  assert (Hp : persisted) by (unfold persisted; split_and!; done).
  unfold bind at 1, log_rating. destruct (audit_up v) eqn:Hau; simpl; [|done].
  unfold bind at 1. destruct (notify_quiet v (toReputationEntry row)
    {| base := base s1; entries := entries s1; audit_log := audit_log s ++ [rating_audit
         (Z.of_nat (length (findByTargetId b s))) (toReputationEntry row) k];
       webhooks := webhooks s |}) as [ws E].
  unfold rating_audit in E. simpl in E. rewrite E. simpl. split_and!; try done.
  unfold rating_audit. simpl. repeat f_equal; unfold findByTargetId; by rewrite length_fmap, merge_sort_Permutation.
Qed.

Lemma rep_ok_ext s s' : base s' = base s -> entries s' = entries s -> rep_ok s -> rep_ok s'.
Proof. intros Hb He [Hd Hwf Hr Hu]. split; [by rewrite Hb|by rewrite He|rewrite He, Hb; exact Hr|rewrite He; exact Hu]. Qed.

Lemma participation_context c u s :
  verifyContractParticipation c u s = true -> is_Some (map_get c (Sqlite.contracts (base s))).
Proof. unfold verifyContractParticipation. by destruct (map_get c _). Qed.

Lemma row_ok_tracked d c k r : row_ok d k r -> row_ok (add_reference c d) k r.
Proof. intros [H1 H2 H3 H4 H5]. split; try done. by right. Qed.

Lemma map_get_snoc (m : list (string * ReputationRow)) k0 r0 k r :
  map_get k0 m = None -> map_get k (m ++ [(k0, r0)]) = Some r ->
  (k = k0 /\ r = r0) \/ map_get k m = Some r.
Proof.
  intros H0 Hk. rewrite <- (map_set_None m k0 r0) in Hk by done.
  destruct (decide (k0 = k)) as [->|Hne].
  - rewrite map_get_set_eq in Hk. left. by simplify_eq.
  - right. by rewrite map_get_set_ne in Hk.
Qed.

(** Inserting a row that passed the guards keeps the invariant. *)
Lemma rep_ok_insert r s :
  rep_ok s -> checks r = true -> reviewer_id r <> target_id r ->
  map_get (id r) (entries s) = None -> Forall (fun q => triple q <> triple r) (repo_rows s) ->
  is_Some (map_get (context_id r) (Sqlite.contracts (base s))) ->
  rep_ok {| base := add_reference (context_id r) (base s); entries := entries s ++ [(id r, r)];
            audit_log := audit_log s; webhooks := webhooks s |}.
Proof.
  intros [Hd Hwf Hrows Huniq] Hc Hab Hid Hnew Hctx. rewrite Forall_forall in Hnew.
  assert (Hother : forall k q, map_get k (entries s) = Some q -> triple q <> triple r).
  { intros k q Hq. apply Hnew. apply elem_of_repo_rows; eauto. }
  split; simpl; [done|..].
  - rewrite <- map_set_None by done. by apply wf_set.
  - intros k q Hq. apply map_get_snoc in Hq as [[-> ->]|Hq]; [|by apply row_ok_tracked, Hrows|done].
    unfold checks in Hc. bool_to_prop. split; try done; [by apply num_leb_between|by left].
  - intros k1 k2 r1 r2 H1 H2 Ht.
    apply map_get_snoc in H1 as [[-> ->]|H1]; apply map_get_snoc in H2 as [[-> ->]|H2]; try done.
    + by apply Hother in H2 as [].
    + by apply Hother in H1 as [].
    + by eapply Huniq.
Qed.

Lemma createRating_ok v a b n c t k s : rep_ok s -> rep_ok (createRating v a b n c t k s).2.
Proof.
  intros Hok. pose proof (createRating_cases v a b n c t k s) as H. cbv zeta in H.
  assert (Hins : a <> b /\ verifyContractParticipation c a s = true /\
    verifyContractParticipation c b s = true /\ checks (rating_row v a b n c t) = true /\
    map_get (uuid v) (entries s) = None /\
    Forall (fun q => triple q <> triple (rating_row v a b n c t)) (repo_rows s) ->
    rep_ok {| base := add_reference c (base s);
              entries := entries s ++ [(uuid v, rating_row v a b n c t)];
              audit_log := audit_log s; webhooks := webhooks s |}).
  { intros (Hab & Ha & _ & Hc & Hid & Hu). apply (rep_ok_insert (rating_row v a b n c t)); try done.
    by apply participation_context in Ha. }
  destruct (createRating v a b n c t k s) as [[e|e] s'].
  - destruct H as (Hp & _ & Hb & He & _). by apply (rep_ok_ext _ _ Hb He), Hins.
  - destruct e; try (by subst s'). destruct H as (Hp & _ & ->). by apply Hins.
Qed.

Lemma bulk_loop_ok k i items s : rep_ok s -> rep_ok (bulk_loop k i items s).2.
Proof.
  revert i s. induction items as [|it items IH]; intros i s Hok; [done|]. simpl.
  pose proof (createRating_ok (i_env it) (i_reviewerId it) (i_targetId it) (i_rating it)
    (i_contextId it) (i_comment it) k s Hok) as H1. unfold rate_item.
  destruct (createRating _ _ _ _ _ _ _ s) as [r s1]. specialize (IH (i + 1) s1 H1).
  by destruct (bulk_loop k (i + 1) items s1).
Qed.

Lemma getProfile_state v b s : (getProfile v b s).2 = s.
Proof.
  unfold getProfile, bind, throw_if, throw, ret, get.
  destruct (isReputationEnabled v); simpl; [|done]. destruct (initialized v); simpl; [|done].
  by destruct (String.eqb b EmptyString).
Qed.

Lemma updateProfile_ok v b p t k s : rep_ok s -> rep_ok (updateProfile v b p t k s).2.
Proof.
  intros Hok. unfold updateProfile, bind, throw_if, throw, ret.
  destruct (initialized v); simpl; [|done]. destruct (String.eqb b EmptyString); simpl; [done|].
  destruct (isValidReputationRatingPayload p); simpl; [|done].
  destruct (prop p "reviewerId"); try done. destruct (prop p "rating"); try done.
  pose proof (createRating_ok v s0 b n (default EmptyString (as_string (prop p "contextId"))) t k s Hok).
  destruct (createRating _ _ _ _ _ _ _ s) as [[e|e] s']; [by rewrite getProfile_state|done].
Qed.

Lemma exec_rep_ok o s : rep_ok s -> rep_ok (exec o s).
Proof.
  intros Hok. destruct o; simpl.
  - by apply createRating_ok.
  - by apply updateProfile_ok.
  - unfold createBulkRatings. destruct (initialized v); simpl; [|done].
    pose proof (bulk_loop_ok correlation 0 items s Hok). by destruct (bulk_loop _ _ _ _).
  - destruct Hok as [H0 H1 H2 H3].
    destruct (Sqlite.exec_keeps_references o (base s) H0) as [Href Hkeep].
    split; simpl; [by apply Sqlite.exec_wf|done| |done].
    intros k r Hr. destruct (H2 k r Hr) as [R1 R2 R3 R4 R5]. split; try done; [by rewrite Href|auto].
Qed.

(** *** Scores *)

Lemma rating_sum_between es acc lo hi :
  Forall (fun e => between 1 (e_rating e) 5) es ->
  0 <= lo -> hi + 5 * Z.of_nat (length es) <= 2 ^ 52 -> between lo acc hi ->
  between (lo + Z.of_nat (length es)) (foldl (fun sum e => num_add sum (e_rating e)) acc es)
    (hi + 5 * Z.of_nat (length es)).
Proof.
  intros Hes. revert acc lo hi. induction Hes as [|e es He _ IH]; intros acc lo hi Hlo Hhi Hacc; simpl.
  - by rewrite !Z.add_0_r.
  - cbn [length] in Hhi. rewrite Nat2Z.inj_succ in *.
    replace (lo + Z.succ (Z.of_nat (length es))) with ((lo + 1) + Z.of_nat (length es)) by lia.
    replace (hi + 5 * Z.succ (Z.of_nat (length es))) with ((hi + 5) + 5 * Z.of_nat (length es)) by lia.
    apply IH; [lia|lia|]. by apply num_add_between; try lia.
Qed.

Lemma mean_score_between es :
  es <> [] -> Forall (fun e => between 1 (e_rating e) 5) es -> Z.of_nat (length es) <= 2 ^ 40 ->
  between 1 (mean_score es) 5.
Proof.
  intros Hne Hes Hlen. unfold mean_score. destruct es as [|e es]; [done|].
  apply num_div_between; [lia|lia|simpl; lia|].
  pose proof (rating_sum_between (e :: es) (of_int 0) 0 0 Hes ltac:(lia) ltac:(lia)
    (of_int_between 0 0 0 ltac:(lia))) as H.
  rewrite Z.mul_1_l. by rewrite !Z.add_0_l in H.
Qed.

(** Multiplying an integer rating by the weight one is exact. *)
Lemma num_mul_one n : 0 <= n <= 2 ^ 52 -> num_mul (of_int n) (of_int 1) = of_int n.
Proof.
  intros Hn. pose proof num_scale_pos as Hs. unfold num_mul, of_int.
  rewrite Z.mul_1_l, (of_ratio_small _ _ n) by nia. f_equal. by apply round_ratio_int.
Qed.

(** A moment between 1970 and year 144,000, in milliseconds. *)
Definition epoch_time (t : Z) : Prop := 0 <= t <= 2 ^ 52.

(** Ages are finite, and zero for a rating dated now or later. *)
Lemma age_cases now t :
  epoch_time now -> epoch_time t ->
  exists u, age_in_days now t = Fin u /\ (now <= t -> u = 0).
Proof.
  intros Hn Ht. pose proof num_scale_pos as Hs. unfold age_in_days, epoch_time in *.
  destruct (Z.le_gt_cases now t) as [Hle|Hgt].
  - exists 0. split; [|done]. apply num_max0_nonpositive.
    pose proof (num_sub_nonpositive now t Hle) as Hx.
    unfold num_div, day_length, of_int at 3 4. destruct (num_sub _ _) as [|b|u]; simpl in Hx; [done| |].
    + subst b. simpl. by replace (1000 * 60 * 60 * 24 * num_scale <? 0) with false
        by (symmetry; apply Z.ltb_ge; lia).
    + replace (1000 * 60 * 60 * 24 * num_scale =? 0) with false by (symmetry; apply Z.eqb_neq; lia).
      apply of_ratio_nonpositive; nia.
  - rewrite num_sub_int by lia.
    destruct (num_div_between (of_int (now - t)) (1000 * 60 * 60 * 24) 0 (2 ^ 52)) as (u & E & Hu); try lia.
    { apply of_int_between. lia. }
    exists u. unfold day_length. rewrite E. split; [|lia]. unfold num_max0. simpl.
    by destruct (Z.ltb_spec u 0); [lia|].
Qed.

(** *** Comments *)

Definition occurrences (c : Ascii.ascii) (l : list Ascii.ascii) : Z :=
  Z.of_nat (length (filter (fun x => x = c) l)).

Lemma occurrences_snoc c x l :
  occurrences c (l ++ [x]) = occurrences c l + (if decide (x = c) then 1 else 0).
Proof.
  unfold occurrences. rewrite filter_app, length_app. simpl. rewrite filter_cons.
  case_decide; simpl; lia.
Qed.

Lemma char_counts_wf l : wf (char_counts l).
Proof.
  induction l as [|x l IH] using rev_ind; [constructor|].
  unfold char_counts in *. rewrite foldl_snoc. by apply wf_set.
Qed.

Lemma char_counts_get c l :
  map_get c (char_counts l) = if 0 <? occurrences c l then Some (occurrences c l) else None.
Proof.
  induction l as [|x l IH] using rev_ind; [done|].
  unfold char_counts. rewrite foldl_snoc. fold (char_counts l). rewrite occurrences_snoc.
  assert (0 <= occurrences c l) by (unfold occurrences; lia).
  destruct (decide (x = c)) as [->|Hne].
  - rewrite map_get_set_eq, IH. replace (0 <? occurrences c l + 1) with true by (symmetry; apply Z.ltb_lt; lia).
    destruct (Z.ltb_spec 0 (occurrences c l)); simpl; f_equal; lia.
  - by rewrite map_get_set_ne, IH, Z.add_0_r.
Qed.

Lemma max_fold_ge (l : list Z) x : x ∈ l -> x <= foldr Z.max 0 l.
Proof. induction 1; simpl; lia. Qed.

Lemma max_fold_in (l : list Z) : foldr Z.max 0 l = 0 \/ foldr Z.max 0 l ∈ l.
Proof.
  induction l as [|x l IH]; [by left|]. simpl.
  destruct (Z.max_spec x (foldr Z.max 0 l)) as [[_ ->]|[_ ->]]; [|right; left].
  destruct IH as [->|IH]; [by left|right; by right].
Qed.

Lemma max_count_spec l :
  (forall c, occurrences c l <= max_count (char_counts l)) /\
  (max_count (char_counts l) = 0 \/ exists c, max_count (char_counts l) = occurrences c l).
Proof.
  unfold max_count. split.
  - intros c. destruct (Z.ltb_spec 0 (occurrences c l)) as [H|H].
    + apply max_fold_ge. apply elem_of_map_values; [apply char_counts_wf|]. exists c.
      rewrite char_counts_get. by apply Z.ltb_lt in H as ->.
    + assert (0 <= foldr Z.max 0 (map_values (char_counts l))); [|lia].
      induction (map_values (char_counts l)); simpl; lia.
  - destruct (max_fold_in (map_values (char_counts l))) as [->|Hin]; [by left|right].
    apply elem_of_map_values in Hin as [c Hc]; [|apply char_counts_wf].
    rewrite char_counts_get in Hc. exists c. by destruct (0 <? occurrences c l); simplify_eq.
Qed.

Lemma occurrences_le c l : occurrences c l <= Z.of_nat (length l).
Proof. unfold occurrences. pose proof (length_filter (fun x => x = c) l). lia. Qed.

(** The integer test the quotient implements. *)
Lemma repetitive_iff l :
  (0 < length l ≤ 1000)%nat ->
  num_gtb (num_div (of_int (max_count (char_counts l))) (of_int (Z.of_nat (length l)))) one_half = true <->
  exists c, Z.of_nat (length l) < 2 * occurrences c l.
Proof.
  intros Hl. destruct (max_count_spec l) as [Hge Hmax].
  assert (Hr : 0 <= max_count (char_counts l) <= Z.of_nat (length l)).
  { destruct Hmax as [->|[c ->]]; [lia|]. pose proof (occurrences_le c l). unfold occurrences in *. lia. }
  rewrite above_half, Z.ltb_lt by lia. split.
  - intros H. destruct Hmax as [E|[c E]]; [lia|]. exists c. lia.
  - intros [c Hc]. specialize (Hge c). lia.
Qed.

(** *** Accumulating with weight one *)

Lemma decay_one l now t :
  exp (of_int 0) = of_int 1 -> epoch_time now -> epoch_time t -> (l <= 0 \/ now <= t) ->
  decay_weight (num_max0 (Fin l)) (age_in_days now t) = of_int 1.
Proof.
  intros Hexp Hn Ht Hor. destruct (age_cases now t Hn Ht) as (u & -> & Hu).
  unfold decay_weight. rewrite <- Hexp. f_equal. unfold of_int. rewrite Z.mul_0_l.
  destruct Hor as [Hl|Hnow].
  - rewrite num_max0_nonpositive by done. apply num_mul_zero_l.
  - rewrite (Hu Hnow). destruct (num_max0 (Fin l)) as [| |m] eqn:E; [| |apply num_mul_zero_r];
      unfold num_max0 in E; simpl in E; by destruct (l <? 0).
Qed.

Definition plain_entry (l now : Z) (e : ReputationEntry) : Prop :=
  exists t r, date_value (e_createdAt e) = Some t /\ epoch_time t /\ (l <= 0 \/ now <= t) /\
              e_rating e = of_int r /\ 1 <= r <= 5.

Lemma weigh_plain l now e sum k :
  exp (of_int 0) = of_int 1 -> epoch_time now -> plain_entry l now e -> 0 <= k < 2 ^ 50 ->
  weigh now (num_max0 (Fin l)) (sum, of_int k) e = (num_add sum (e_rating e), of_int (k + 1)).
Proof.
  intros Hexp Hn (t & r & Hd & Ht & Hor & Hr & Hr5) Hk. unfold weigh. rewrite Hd, Hr.
  change (negb (is_finite (of_int r))) with false. cbv iota zeta. cbn [fst snd].
  rewrite decay_one by done. rewrite num_mul_one by lia. f_equal. by apply num_add_int; lia.
Qed.

Lemma weigh_fold l now es sum k :
  exp (of_int 0) = of_int 1 -> epoch_time now -> Forall (plain_entry l now) es ->
  0 <= k -> k + Z.of_nat (length es) < 2 ^ 50 ->
  foldl (weigh now (num_max0 (Fin l))) (sum, of_int k) es =
  (foldl (fun sum e => num_add sum (e_rating e)) sum es, of_int (k + Z.of_nat (length es))).
Proof.
  intros Hexp Hn Hes. revert sum k. induction Hes as [|e es He _ IH]; intros sum k Hk Hlen; simpl.
  - by rewrite Z.add_0_r.
  - cbn [length] in Hlen. rewrite weigh_plain by (done || lia). rewrite IH by lia. do 2 f_equal. lia.
Qed.

(** *** Bulk submission *)

Definition succeeded (items : list bulk_item) (rs : list bulk_result) : list bulk_item :=
  omap (fun p => if is_ok (outcome p.2) then Some p.1 else None) (zip items rs).

Lemma rate_item_failed k it s e s' :
  audit_up (i_env it) = true -> rate_item k it s = (Err e, s') -> s' = s.
Proof.
  intros Hup Hr. pose proof (createRating_cases (i_env it) (i_reviewerId it) (i_targetId it) (i_rating it)
    (i_contextId it) (i_comment it) k s) as H. cbv zeta in H. unfold rate_item in Hr. rewrite Hr in H.
  destruct e; try done. destruct H as (_ & Hdown & _). congruence.
Qed.

Lemma bulk_skip_failures k items s :
  Forall (fun it => audit_up (i_env it) = true) items ->
  forall i j, (bulk_loop k j (succeeded items (bulk_loop k i items s).1) s).2 = (bulk_loop k i items s).2.
Proof.
  intros Hup. revert s. induction Hup as [|it items Hit _ IH]; intros s i j; [done|]. simpl.
  destruct (rate_item k it s) as [[e|e] s1] eqn:E.
  - specialize (IH s1 (i + 1) (j + 1)). destruct (bulk_loop k (i + 1) items s1) as [rs s2].
    simpl in *. rewrite E. unfold succeeded in IH.
    destruct (bulk_loop k (j + 1) _ s1) as [rs' s3]. exact IH.
  - apply rate_item_failed in E as ->; [|done]. specialize (IH s (i + 1) j).
    destruct (bulk_loop k (i + 1) items s) as [rs s2]. exact IH.
Qed.

Lemma bulk_indices k i items s :
  index <$> (bulk_loop k i items s).1 = (fun n => i + Z.of_nat n) <$> seq 0 (length items).
Proof.
  revert i s. induction items as [|it items IH]; intros i s; [done|]. simpl.
  destruct (rate_item k it s) as [r s1]. specialize (IH (i + 1) s1).
  destruct (bulk_loop k (i + 1) items s1) as [rs s2]. cbn [fst fmap list_fmap index] in *. rewrite IH. cbn [length seq fmap list_fmap].
  f_equal; [lia|]. rewrite <- (fmap_S_seq 0), <- list_fmap_compose. apply list_fmap_ext.
  intros ?? _. simpl. lia.
Qed.

(** ** Properties *)

(** C5: every branch of [createRating].  It succeeds only for two different
    users who are both parties to the contract, on their first rating in that
    contract, with a rating in [1, 5]; then exactly one entry, the returned
    one, and exactly one audit record, with the target's rating counts before
    and after, are added.  A failure changes nothing, except that when the
    audit store is down the entry has already been written. *)
Theorem createRating_spec v a b n c t k s :
  rep_ok s ->
  match createRating v a b n c t k s with
  | (Ok e, s') =>
      a <> b /\ verifyContractParticipation c a s = true /\
      verifyContractParticipation c b s = true /\
      findByReviewerTargetContext a b c s = None /\ between 1 n 5 /\
      findById (e_id e) s = None /\ entries s' = entries s ++ [(e_id e, rating_row v a b n c t)] /\
      findById (e_id e) s' = Some e /\
      audit_log s' = audit_log s ++ [rating_audit (Z.of_nat (length (findByTargetId b s))) e k] /\
      length (findByTargetId b s') = S (length (findByTargetId b s))
  | (Err AuditTrailError, s') =>
      audit_up v = false /\ audit_log s' = audit_log s /\ count s' = count s + 1
  | (Err _, s') => s' = s
  end.
Proof.
  intros Hok. pose proof (createRating_cases v a b n c t k s) as H. cbv zeta in H.
  destruct (createRating v a b n c t k s) as [[e|e] s'].
  - destruct H as ((Hab & Ha & Hb & Hc & Hid & Hu) & -> & _ & He & Hlog).
    cbn [entries] in He. split_and!; try done.
    + by apply find_triple_None.
    + unfold checks in Hc. bool_to_prop. by apply num_leb_between.
    + unfold findById. simpl. by rewrite Hid.
    + unfold findById. simpl. rewrite He, <- map_set_None by done. by rewrite map_get_set_eq.
    + rewrite Hlog. unfold findByTargetId. by rewrite length_fmap, merge_sort_Permutation.
    + unfold findByTargetId. rewrite !length_fmap, !merge_sort_Permutation.
      unfold target_rows, repo_rows, map_values. rewrite He, fmap_app, filter_app, length_app. simpl.
      rewrite filter_cons_True by done. simpl. lia.
  - destruct e; try done. destruct H as (_ & Hup & ->). split_and!; try done.
    unfold count. simpl. rewrite length_app. simpl. lia.
Qed.

(** C6: invariant.  Whatever ratings, profile updates, bulk submissions and
    contract operations (deletion, restoration and purge included) are run, at
    most one entry exists per reviewer, target and contract, nobody has rated
    themselves, every stored rating lies in [1, 5] and the contract of every
    entry still exists. *)
Theorem reputation_invariant ops s : rep_ok s -> rep_ok (run ops s).
Proof.
  revert s. induction ops as [|o ops IH]; intros s Hok; [done|]. by apply IH, exec_rep_ok.
Qed.

(** Bounds.  In every state that satisfies the invariant, the profile of a
    user with at least one rating (and fewer than 2^40) shows a score in
    [1, 5], in spite of the rounding of the sum, of the mean and of
    [toFixed(2)]. *)
Theorem profile_score_range v b s p s' :
  rep_ok s -> getProfile v b s = (Ok p, s') -> findByTargetId b s <> [] ->
  Z.of_nat (length (findByTargetId b s)) <= 2 ^ 40 ->
  between 1 (score p) 5 /\ totalRatings p = Z.of_nat (length (findByTargetId b s)).
Proof.
  intros Hok Hp Hne Hlen. unfold getProfile, bind, throw_if, throw, ret, get in Hp.
  destruct (isReputationEnabled v); simpl in Hp; [|done]. destruct (initialized v); simpl in Hp; [|done].
  destruct (String.eqb b EmptyString); [done|]. simplify_eq. simpl. split; [|done].
  apply round2_between; [lia|lia|]. apply mean_score_between; [done| |done].
  apply Forall_fmap, Forall_forall. intros r Hr. rewrite merge_sort_Permutation in Hr.
  apply list_elem_of_filter in Hr as [_ Hr]. apply elem_of_repo_rows in Hr as [q Hq]; [|apply Hok].
  apply (row_rating _ _ _ (ok_rows _ Hok q r Hq)).
Qed.

(** Equivalence.  The recency-weighted score is the plain mean, to the last
    bit, when nothing decays: the decay constant is not positive (it is clamped
    to zero) or no rating is older than the reference date. *)
Theorem undecayed_score_is_mean es now l :
  exp (of_int 0) = of_int 1 -> epoch_time now -> Forall (plain_entry l now) es ->
  Z.of_nat (length es) < 2 ^ 40 ->
  computeWeightedReputationScore es now (Fin l) = mean_score es.
Proof.
  intros Hexp Hn Hes Hlen. destruct es as [|e es]; [done|].
  unfold computeWeightedReputationScore, mean_score, rating_sum.
  rewrite (weigh_fold l now (e :: es)) by (done || lia). cbn [fst snd]. rewrite Z.add_0_l.
  replace (num_zero (of_int (Z.of_nat (length (e :: es))))) with false; [done|].
  symmetry. unfold num_zero, of_int. apply Z.eqb_neq. pose proof num_scale_pos. simpl. lia.
Qed.

(** A bulk submission reports one result per item, in order, and ends in
    the state reached by submitting only the items that succeeded: a failed
    item leaves no trace and stops none of the others. *)
Theorem bulk_failures_isolated v k items s :
  initialized v = true -> Forall (fun it => audit_up (i_env it) = true) items ->
  exists rs s', createBulkRatings v items k s = (Ok rs, s') /\
    index <$> rs = Z.of_nat <$> seq 0 (length items) /\
    createBulkRatings v (succeeded items rs) k s = (Ok (bulk_loop k 0 (succeeded items rs) s).1, s').
Proof.
  intros Hv Hup. exists (bulk_loop k 0 items s).1, (bulk_loop k 0 items s).2.
  unfold createBulkRatings. rewrite Hv. simpl. split_and!.
  - by destruct (bulk_loop k 0 items s).
  - by rewrite bulk_indices.
  - rewrite <- (bulk_skip_failures k items s Hup 0 0). by destruct (bulk_loop k 0 (succeeded _ _) s).
Qed.

(** The comment policy is the integer statement its floating-point test
    stands for: at most a thousand characters, not blank, and no character
    makes up more than half of the text. *)
Theorem comment_policy t :
  validateComment t = Ok tt <->
  t = EmptyString \/
  (length (String.list_ascii_of_string t) ≤ 1000)%nat /\ trim t <> EmptyString /\
  forall c, 2 * occurrences c (String.list_ascii_of_string t) <=
            Z.of_nat (length (String.list_ascii_of_string t)).
Proof.
  unfold validateComment. destruct t as [|x t']; [simpl; tauto|].
  set (t := String.String x t'). set (l := String.list_ascii_of_string t).
  assert (Hl : (0 < length l)%nat) by (simpl; lia).
  replace (0 <? Z.of_nat (length l)) with true by (symmetry; apply Z.ltb_lt; lia). cbn [andb].
  destruct (Z.ltb_spec 1000 (Z.of_nat (length l))); [split; [done|intros [|[]]; [done|lia]]|].
  destruct (String.eqb_spec (trim t) EmptyString); [split; [done|naive_solver]|].
  pose proof (repetitive_iff l ltac:(lia)) as Hrep.
  destruct (num_gtb _ one_half) eqn:E; clear E.
  - split; [discriminate|]. intros [|(_ & _ & Hall)]; [done|]. destruct (proj1 Hrep eq_refl) as [c Hc]. specialize (Hall c). lia.
  - split; [intros _; right|done]. split_and!; [lia|done|]. intros c. apply Z.nlt_ge. intros Hc.
    destruct Hrep as [_ Hrep]. discriminate Hrep. by exists c.
Qed.

(** A failed audit write.  The call reports that the rating was not
    persisted, but the entry is stored, counts in the target's profile, and
    a retry is refused as a duplicate. *)
Theorem audit_failure_keeps_rating v a b n c t k s s' :
  rep_ok s -> createRating v a b n c t k s = (Err AuditTrailError, s') ->
  findById (uuid v) s' = Some (toReputationEntry (rating_row v a b n c t)) /\
  forall v' n' t' k', isReputationEnabled v' = true -> initialized v' = true ->
    createRating v' a b n' c t' k' s' = (Err ConflictError, s').
Proof.
  intros Hok Hc. pose proof (createRating_cases v a b n c t k s) as H. cbv zeta in H.
  rewrite Hc in H. destruct H as ((Hab & _ & _ & _ & Hid & _) & _ & ->). split.
  - unfold findById. simpl. rewrite <- map_set_None by done. by rewrite map_get_set_eq.
  - intros v' n' t' k' He Hi. unfold createRating, bind, throw_if, throw, ret, get.
    rewrite He, Hi. simpl. rewrite bool_decide_eq_false_2 by done.
    destruct (findByReviewerTargetContext a b c _) eqn:E; [done|].
    apply find_triple_None in E. unfold repo_rows, map_values in E. simpl in E.
    rewrite fmap_app, Forall_app in E. destruct E as [_ E]. by apply Forall_inv in E as [].
Qed.

(** The weighted score can leave the range of the ratings.  When the decay
    underflows ([Math.exp] returns 0, as for a rating of three years under the
    largest decay constant the configuration allows), the weighted score of a
    user whose only rating is old is 0. *)
Theorem weighted_score_underflow e now l t :
  date_value (e_createdAt e) = Some t -> is_finite (e_rating e) = true ->
  exp (num_mul (num_neg (num_max0 l)) (age_in_days now t)) = of_int 0 ->
  computeWeightedReputationScore [e] now l = of_int 0.
Proof.
  intros Hd Hr Hexp. unfold computeWeightedReputationScore, foldl, weigh, decay_weight.
  rewrite Hd, Hr, Hexp. cbn [negb fst snd].
  assert (E : num_add (of_int 0) (of_int 0) = of_int 0) by (apply (num_add_int 0 0); lia).
  by rewrite E.
Qed.

End Service.

(** A client that follows the cursors of [findByTargetIdPaginated]. *)
Fixpoint walk_reviews (date_parses : string -> bool) (raw : Cursor.raw_limit) (b : string)
    (s : state) (fuel : nat) (cursor : option string) : option (list ReputationEntry) :=
  match fuel with
  | O => None
  | S fuel =>
      match findByTargetIdPaginated date_parses b raw cursor s with
      | Err _ => None
      | Ok p =>
          match nextCursor p with
          | None => Some (data p)
          | Some c => app (data p) <$> walk_reviews date_parses raw b s fuel (Some c)
          end
      end
  end.

Lemma walk_reviews_rows date_parses raw b s fuel cursor :
  walk_reviews date_parses raw b s fuel cursor =
  option_map (map toReputationEntry) (walk_pages date_parses raw (target_rows b s) fuel cursor).
Proof.
  revert cursor. induction fuel as [|fuel IH]; intros cursor; [done|].
  cbn [walk_reviews walk_pages]. unfold findByTargetIdPaginated.
  destruct (fetch_page date_parses raw cursor (target_rows b s)) as [p|e]; [|done].
  cbn [to_entry_page nextCursor data]. destruct (page_next p) as [c|]; [|done].
  rewrite IH. destruct (walk_pages _ _ _ fuel (Some c)); [|done]. simpl. by rewrite map_app.
Qed.

(** A client that follows the review cursors of a user, with any page size
    the service accepts, gets every entry about that user exactly once, newest
    first, and the pages end. *)
Theorem reviews_pagination_complete date_parses raw n b s :
  rep_ok s -> Cursor.parseLimit raw = Ok n ->
  (forall k r, map_get k (entries s) = Some r -> Cursor.cursor_safe date_parses (row_position r)) ->
  exists all, walk_reviews date_parses raw b s (S (length (entries s))) None = Some all /\
    all ≡ₚ findByTargetId b s /\ NoDup (e_id <$> all) /\
    StronglySorted (fun x y => String.le (e_createdAt y) (e_createdAt x)) all.
Proof.
  intros Hok Hlimit Hsafe. exists (toReputationEntry <$> merge_sort page_order (target_rows b s)).
  assert (Hkeys : NoDup (row_key <$> target_rows b s)).
  { apply selected_keys; [apply Hok|]. intros k r Hr. apply (ok_rows _ Hok k r Hr). }
  split_and!.
  - rewrite walk_reviews_rows, (walk_complete date_parses raw n); [done..| |].
    + intros r [_ Hr]%list_elem_of_filter. apply elem_of_repo_rows in Hr as [k Hk]; [|apply Hok].
      by eapply Hsafe.
    + unfold target_rows, repo_rows, map_values. pose proof (length_filter (fun r => target_id r = b) (entries s).*2).
      rewrite length_fmap in *. lia.
  - unfold findByTargetId. by rewrite !merge_sort_Permutation.
  - rewrite <- list_fmap_compose. change (NoDup (row_key <$> merge_sort page_order (target_rows b s))).
    by rewrite merge_sort_Permutation.
  - eapply (StronglySorted_fmap _ page_order); [|apply (StronglySorted_merge_sort _ _)].
    intros x y [[H _]|[E _]]; simpl; [done|]. simpl in E. by rewrite E.
Qed.

(** ** Witnesses *)

Definition sample_env (u : string) : Env :=
  {| config := Some {| REPUTATION_ENABLED := true; REPUTATION_DECAY_LAMBDA := default_lambda;
                       REPUTATION_SCORE_ALGORITHM_VERSION := "exp-decay-v1" |};
     initialized := true; uuid := u; now_iso := "2026-01-02T00:00:00.000Z"; now_ms := 1767312000000;
     audit_up := true; webhook_up := false |}.

Definition audit_down (v : Env) : Env :=
  {| config := config v; initialized := initialized v; uuid := uuid v; now_iso := now_iso v;
     now_ms := now_ms v; audit_up := false; webhook_up := webhook_up v |}.

Definition empty_state : state :=
  {| base := Sqlite.sample_db; entries := []; audit_log := []; webhooks := [] |}.

(** Stand-ins for the library functions, at the arguments that matter here. *)
Definition sample_date (_ : string) : option Z := Some 1767312000000.
Definition sample_exp (x : number) : number := if num_zero x then of_int 1 else of_int 0.
Definition sample_sha (t : string) : string := t.

Notation rate := (createRating sample_date sample_exp sample_sha).

Lemma empty_state_ok : rep_ok empty_state.
Proof. split; [apply Sqlite.sample_db_ok|constructor|done|done]. Defined.

Lemma createRating_spec_witness :
  exists e s', rate (sample_env "e1") "ann" "bob" (of_int 4) "k1" None None empty_state = (Ok e, s') /\
    findById (e_id e) s' = Some e.
Proof.
  pose proof (createRating_spec sample_date sample_exp sample_sha (sample_env "e1") "ann" "bob" (of_int 4)
    "k1" None None empty_state empty_state_ok) as H.
  destruct (rate (sample_env "e1") "ann" "bob" (of_int 4) "k1" None None empty_state) as [[e|e] s'] eqn:E.
  - exists e, s'. split; [done|]. apply H.
  - vm_compute in E. discriminate E.
Defined.

Definition one_rating : state :=
  (rate (sample_env "e1") "ann" "bob" (of_int 4) "k1" None None empty_state).2.

Lemma reputation_invariant_witness : rep_ok (run sample_date sample_exp sample_sha
  [OpRate (sample_env "e1") "ann" "bob" (of_int 4) "k1" None None;
   OpContract (Contracts.OpDelete "k1" 5); OpContract (Contracts.OpPurge 9999999999999 30)] empty_state).
Proof. apply reputation_invariant. exact empty_state_ok. Defined.

Lemma profile_score_range_witness :
  between 1 (score (buildProfile sample_date sample_exp (sample_env "q") "bob"
                      (findByTargetId "bob" one_rating))) 5.
Proof.
  apply (profile_score_range sample_date sample_exp (sample_env "q") "bob" one_rating _ one_rating).
  - unfold one_rating. apply createRating_ok. exact empty_state_ok.
  - reflexivity.
  - discriminate.
  - vm_compute. discriminate.
Defined.

Definition sample_entry (r : Z) : ReputationEntry :=
  {| e_id := "e1"; e_reviewerId := "ann"; e_targetId := "bob"; e_rating := of_int r;
     e_comment := None; e_contextId := "k1"; e_createdAt := "2026-01-02T00:00:00.000Z" |}.

Lemma undecayed_score_is_mean_witness :
  computeWeightedReputationScore sample_date sample_exp [sample_entry 4; sample_entry 1] 1767312000000
    (of_int 1) = mean_score [sample_entry 4; sample_entry 1].
Proof.
  apply undecayed_score_is_mean.
  - reflexivity.
  - unfold epoch_time. lia.
  - repeat constructor; [exists 1767312000000, 4|exists 1767312000000, 1];
      split_and!; try reflexivity; unfold epoch_time; lia.
  - simpl. lia.
Defined.

Definition sample_items : list bulk_item :=
  [{| i_env := sample_env "e1"; i_reviewerId := "ann"; i_targetId := "bob"; i_rating := of_int 4;
      i_contextId := "k1"; i_comment := None |};
   {| i_env := sample_env "e2"; i_reviewerId := "ann"; i_targetId := "ann"; i_rating := of_int 4;
      i_contextId := "k1"; i_comment := None |}].

Lemma bulk_failures_isolated_witness :
  exists rs s', createBulkRatings sample_date sample_exp sample_sha (sample_env "q") sample_items None empty_state
    = (Ok rs, s').
Proof.
  destruct (bulk_failures_isolated sample_date sample_exp sample_sha (sample_env "q") None sample_items empty_state)
    as (rs & s' & H & _).
  - reflexivity.
  - repeat constructor.
  - exists rs, s'. exact H.
Defined.

Lemma audit_failure_keeps_rating_witness :
  exists s', rate (audit_down (sample_env "e1")) "ann" "bob" (of_int 4) "k1" None None empty_state
    = (Err AuditTrailError, s') /\
  rate (sample_env "e2") "ann" "bob" (of_int 4) "k1" None None s' = (Err ConflictError, s').
Proof.
  exists (rate (audit_down (sample_env "e1")) "ann" "bob" (of_int 4) "k1" None None empty_state).2.
  split; [vm_compute; reflexivity|].
  apply (audit_failure_keeps_rating sample_date sample_exp sample_sha (audit_down (sample_env "e1")) "ann" "bob"
    (of_int 4) "k1" None None empty_state).
  - exact empty_state_ok.
  - vm_compute. reflexivity.
  - reflexivity.
  - reflexivity.
Defined.

Lemma weighted_score_underflow_witness :
  computeWeightedReputationScore sample_date sample_exp [sample_entry 5] (1767312000000 + 86400000000)
    (of_int 1) = of_int 0.
Proof.
  apply (weighted_score_underflow sample_date sample_exp (sample_entry 5) (1767312000000 + 86400000000)
    (of_int 1) 1767312000000).
  - reflexivity.
  - reflexivity.
  - vm_compute. reflexivity.
Defined.

Lemma reviews_pagination_complete_witness :
  exists all, walk_reviews Cursor.iso_shaped (Cursor.LNumber 1) "bob" one_rating 2 None = Some all /\
    NoDup (e_id <$> all).
Proof.
  destruct (reviews_pagination_complete Cursor.iso_shaped (Cursor.LNumber 1) 1 "bob" one_rating)
    as (all & Hw & _ & Hnd & _).
  - unfold one_rating. apply createRating_ok. exact empty_state_ok.
  - reflexivity.
  - intros k r Hk. apply map_get_elem_of in Hk.
    assert (E : entries one_rating = [("e1"%string, rating_row (sample_env "e1") "ann" "bob" (of_int 4) "k1" None)])
      by (vm_compute; reflexivity).
    rewrite E, elem_of_cons in Hk. destruct Hk as [[= -> ->]|[]%not_elem_of_nil]. split_and!; try reflexivity; vm_compute; lia.
  - exists all. split; [exact Hw|exact Hnd].
Defined.

End Reputation.
