(* ===== verification/MemoryContracts.v ===== *)
(** * The in-memory contract repository: class [InMemoryContractRepository] of
    src/repositories/contractRepository.ts

    [contracts] and [insertionOrder] are JavaScript Maps.  [updateWithVersion]
    awaits its own [findById] before it checks the version, so it is modelled
    in two steps, [update_begin] and [update_finish], between which other
    requests may run; [updateWithVersion] is their uninterrupted sequence. *)

From stdpp Require Import prelude gmap strings sorting.
From Stdlib Require Import ZArith Lia.
From S2P Require Import Prelude JsMap JsValue SoftDelete Cursor Keyset Contracts SqliteContracts.
Import Keyset.
Import Contracts.
Open Scope Z_scope.

Module Memory.

Record repo : Type := {
  contracts : list (string * Contract);
  insertionSeq : Z;
  insertionOrder : list (string * Z);
}.

Definition set_contracts (m : list (string * Contract)) (s : repo) : repo :=
  {| contracts := m; insertionSeq := insertionSeq s; insertionOrder := insertionOrder s |}.

Definition create (uuid now : string) (input : CreateContractInput) : SE repo error Contract :=
  throw_if (negb (assertValidContractStatus (default "draft"%string (in_status input))))
    (InvalidContractStatus (default "draft"%string (in_status input))) ;;
  let contract := new_contract uuid now input in
  fun s => (Ok contract,
    {| contracts := map_set uuid contract (contracts s);
       insertionSeq := insertionSeq s + 1;
       insertionOrder := map_set uuid (insertionSeq s) (insertionOrder s) |}).

Definition findById (i : string) (includeDeleted : bool) (s : repo) : option Contract :=
  match map_get i (contracts s) with
  | None => None
  | Some r => if negb includeDeleted && isSoftDeleted (deletedAt r) then None else Some r
  end.

Definition order_of (s : repo) (c : Contract) : Z := default 0 (map_get (id c) (insertionOrder s)).

(** Newest first; the later insertion first among equal timestamps. *)
Definition newer (s : repo) (a b : Contract) : Prop :=
  Keyset.text_lt (createdAt b) (createdAt a) \/
  (createdAt b = createdAt a /\ order_of s b <= order_of s a).
#[export] Instance newer_dec s : RelDecision (newer s).
Proof. unfold newer. intros a b. apply _. Defined.

Definition findAll (includeDeleted : bool) (s : repo) : list Contract :=
  let all := merge_sort (newer s) (map_values (contracts s)) in
  if includeDeleted then all else filterNotDeleted deletedAt all.

Definition findByClientId (cid : string) (includeDeleted : bool) (s : repo) : list Contract :=
  let all := filter (fun c => clientId c = cid) (map_values (contracts s)) in
  if includeDeleted then all else filterNotDeleted deletedAt all.

Definition position (c : Contract) : Cursor.CursorPosition :=
  {| Cursor.createdAt := createdAt c; Cursor.id := id c |}.

Definition after (p : Cursor.CursorPosition) (c : Contract) : Prop :=
  Keyset.text_lt (createdAt c) (Cursor.createdAt p) \/
  (createdAt c = Cursor.createdAt p /\ Keyset.text_lt (id c) (Cursor.id p)).
#[export] Instance after_dec p c : Decision (after p c).
Proof. unfold after. apply _. Defined.

Definition memory_page (n : Z) (sorted : list Contract) : CursorPage :=
  let page := take (Z.to_nat n) sorted in
  let hasNext := bool_decide (n < Z.of_nat (length sorted)) in
  {| data := page;
     nextCursor := if hasNext then (fun c => Cursor.encodeCursor (position c)) <$> last page else None;
     hasNextPage := hasNext;
     limit := n |}.

Definition findPage (date_parses : string -> bool) (raw : Cursor.raw_limit)
    (cursor : option string) (includeDeleted : bool) (s : repo) : result page_error CursorPage :=
  match Cursor.parseLimit raw with
  | Err e => Err (BadLimit e)
  | Ok n =>
      let sorted := findAll includeDeleted s in
      match cursor with
      | None => Ok (memory_page n sorted)
      | Some c =>
          if bool_decide (c = EmptyString) then Ok (memory_page n sorted)
          else match Cursor.decodeCursor date_parses c with
               | Err e => Err (BadCursor e)
               | Ok p => Ok (memory_page n (filter (after p) sorted))
               end
      end
  end.

(** Before the [await]: the contract as it was then. *)
Definition update_begin (i : string) (s : repo) : option Contract := findById i false s.

(** After the [await], with the contract read before it. *)
Definition update_finish (i : string) (f : ContractFields) (expected : Z)
    (existing : option Contract) : SE repo error Contract :=
  match existing with
  | None => throw (NotFoundError i)
  | Some c =>
      throw_if (negb (bool_decide (version c = expected))) VersionConflictError ;;
      let updated := merge_fields f c in
      fun s => (Ok updated, set_contracts (map_set i updated (contracts s)) s)
  end.

Definition updateWithVersion (i : string) (f : ContractFields) (expected : Z)
  : SE repo error Contract :=
  fun s => update_finish i f expected (update_begin i s) s.

Definition delete (i : string) (now : Z) : SE repo error bool :=
  fun s =>
    match map_get i (contracts s) with
    | None => (Ok false, s)
    | Some r =>
        if isSoftDeleted (deletedAt r) then (Ok false, s)
        else (Ok true, set_contracts (map_set i (with_deletedAt (Some now) r) (contracts s)) s)
    end.

Definition restore (i : string) (now days : Z) : SE repo error Contract :=
  fun s =>
    match map_get i (contracts s) with
    | None => (Err (NotFoundError i), s)
    | Some r =>
        if negb (isSoftDeleted (deletedAt r)) then (Err (NotSoftDeleted i), s)
        else if isPastRetentionWindow (deletedAt r) days now
        then (Err (SoftDeleteRetentionError i days), s)
        else let restored := with_deletedAt None r in
             (Ok restored, set_contracts (map_set i restored (contracts s)) s)
    end.

(** The purge loop deletes from both maps. *)
Definition purgeExpired (now days : Z) : SE repo error Z :=
  fun s =>
    let test c := purgeable (deletedAt c) days now in
    let '(store', purged) := map_purge_loop test (contracts s) in
    let order' := foldl (fun m e => if test e.2 then map_delete e.1 m else m)
                    (insertionOrder s) (contracts s) in
    (Ok purged, {| contracts := store'; insertionSeq := insertionSeq s; insertionOrder := order' |}).

Definition clear : SE repo error unit :=
  fun _ => (Ok tt, {| contracts := []; insertionSeq := 0; insertionOrder := [] |}).

#[global] Instance memory_repo : ContractRepo repo := {|
  Contracts.create := create;
  Contracts.findById := findById;
  Contracts.findAll := findAll;
  Contracts.findByClientId := findByClientId;
  Contracts.findPage := findPage;
  Contracts.updateWithVersion := updateWithVersion;
  Contracts.delete := delete;
  Contracts.restore := restore;
  Contracts.purgeExpired := purgeExpired;
|}.

(** ** The laws *)

Definition mem_ok (s : repo) : Prop := wf (contracts s).
Definition mem_view (s : repo) : gmap string Contract := to_gmap (contracts s).

Lemma mem_view_lookup s k : mem_view s !! k = map_get k (contracts s).
Proof. apply to_gmap_lookup. Qed.

Lemma mem_view_set s i c :
  mem_view (set_contracts (map_set i c (contracts s)) s) = <[i := c]> (mem_view s).
Proof. apply to_gmap_set. Qed.

Lemma visible_eq b c : visible b c = negb (negb b && isSoftDeleted (deletedAt c)).
Proof. unfold visible. by destruct b, (isSoftDeleted _). Qed.

Lemma mem_findById_spec i b s : findById i b s = spec_find (mem_view s) i b.
Proof.
  unfold findById, spec_find. rewrite mem_view_lookup.
  destruct (map_get i (contracts s)) as [c|]; [|done]. simpl. rewrite visible_eq.
  by destruct (negb b && _).
Qed.

Lemma mem_findAll_spec b s c :
  mem_ok s -> c ∈ findAll b s <-> exists i, mem_view s !! i = Some c /\ visible b c = true.
Proof.
  intros Hwf.
  assert (Hall : c ∈ merge_sort (newer s) (map_values (contracts s)) <->
                 exists i, mem_view s !! i = Some c).
  { setoid_rewrite mem_view_lookup. by rewrite merge_sort_Permutation, elem_of_map_values. }
  unfold findAll, visible. destruct b; cbn [orb].
  - rewrite Hall. firstorder.
  - rewrite elem_of_filterNotDeleted, Hall, <- isSoftDeleted_false, <- negb_true_iff. firstorder.
Qed.

Lemma mem_create_spec uuid now input s :
  mem_ok s -> mem_view s !! uuid = None ->
  match create uuid now input s with
  | (Ok c, s') => mem_ok s' /\ c = new_contract uuid now input /\
                  status c ∈ VALID_CONTRACT_STATUSES /\ mem_view s' = <[uuid := c]> (mem_view s)
  | (Err e, s') => mem_ok s' /\ mem_view s' = mem_view s
  end.
Proof.
  intros Hok _. unfold create, throw_if, bind, ret, throw, assertValidContractStatus.
  case_bool_decide as Hst; [|done]. cbn [negb].
  split_and!; [by apply wf_set|done|done|apply to_gmap_set].
Qed.

Lemma mem_update_spec i f v s :
  mem_ok s -> service_fields f ->
  match updateWithVersion i f v s with
  | (Ok c, s') => mem_ok s' /\ spec_update (mem_view s) i f v = Ok c /\
                  mem_view s' = <[i := c]> (mem_view s)
  | (Err e, s') => mem_ok s' /\ mem_view s' = mem_view s /\
                   (spec_update (mem_view s) i f v = Err e \/ e = StorageError)
  end.
Proof.
  intros Hok _. unfold updateWithVersion, update_begin, update_finish, spec_update.
  rewrite <- mem_findById_spec. destruct (findById i false s) as [c|]; [|by simpl; auto].
  unfold throw_if, bind, throw, ret. case_bool_decide; simpl; [|by auto].
  split_and!; [by apply wf_set|done|apply to_gmap_set].
Qed.

Lemma mem_delete_spec i now s :
  mem_ok s ->
  match delete i now s with
  | (Ok b, s') => mem_ok s' /\
      match spec_find (mem_view s) i false with
      | Some c => b = true /\ mem_view s' = <[i := with_deletedAt (Some now) c]> (mem_view s)
      | None => b = false /\ mem_view s' = mem_view s
      end
  | (Err e, s') => False
  end.
Proof.
  intros Hok. unfold delete. rewrite <- mem_findById_spec. unfold findById.
  destruct (map_get i (contracts s)) as [r|] eqn:Hi; [|by auto]. simpl.
  destruct (isSoftDeleted (deletedAt r)); simpl; [by auto|].
  split_and!; [by apply wf_set|done|apply to_gmap_set].
Qed.

Lemma mem_restore_spec i now days s :
  mem_ok s ->
  match restore i now days s with
  | (Ok c, s') => mem_ok s' /\ spec_restore (mem_view s) i now days = Ok c /\
                  mem_view s' = <[i := c]> (mem_view s)
  | (Err e, s') => mem_ok s' /\ mem_view s' = mem_view s /\
                   spec_restore (mem_view s) i now days = Err e
  end.
Proof.
  intros Hok. unfold restore, spec_restore. rewrite mem_view_lookup.
  destruct (map_get i (contracts s)) as [r|] eqn:Hi; [|done].
  destruct (deletedAt r) as [t|] eqn:Ht; simpl; [|done].
  destruct (isPastRetentionWindow (Some t) days now); [done|].
  split_and!; [by apply wf_set|done|apply to_gmap_set].
Qed.

Lemma mem_purge_spec now days s :
  mem_ok s ->
  match purgeExpired now days s with
  | (Ok n, s') => mem_ok s' /\ mem_view s' ⊆ mem_view s /\
      n = Z.of_nat (size (mem_view s)) - Z.of_nat (size (mem_view s')) /\
      (forall i c, mem_view s !! i = Some c -> mem_view s' !! i = None ->
         exists t, deletedAt c = Some t /\ t + days * day_ms <= now) /\
      (forall i c t, mem_view s' !! i = Some c -> deletedAt c = Some t -> now <= t + days * day_ms)
  | (Err e, s') => s' = s
  end.
Proof.
  intros Hwf. unfold purgeExpired. set (test := fun c : Contract => purgeable (deletedAt c) days now).
  pose proof (map_get_purge test (contracts s)) as Hget.
  pose proof (wf_purge test _ Hwf) as Hwf'.
  rewrite (map_purge_loop_filter test) in * by done. simpl in Hget, Hwf'. split_and!.
  - done.
  - apply map_subseteq_spec. intros k c. rewrite !mem_view_lookup. simpl.
    intros [H _]%Hget; [done|done].
  - unfold mem_view, to_gmap. rewrite !map_size_list_to_map by done. simpl.
    rewrite (length_filter_split test (contracts s)). lia.
  - intros i c. rewrite !mem_view_lookup. simpl. intros Hc Hnone.
    destruct (test c) eqn:E.
    + apply purgeable_true in E as (t & Ht & Hlt). exists t. split; [done|lia].
    + pose proof (proj2 (Hget i c Hwf) (conj Hc E)). congruence.
  - intros i c t. rewrite mem_view_lookup. simpl. intros Hc Ht.
    apply Hget in Hc as [_ Htest]; [|done]. unfold test in Htest.
    rewrite Ht, purgeable_within in Htest. simpl in Htest. bool_to_prop. lia.
Qed.

#[global] Instance memory_laws : ContractRepoLaws repo := {|
  repo_ok := mem_ok;
  view := mem_view;
  create_law := mem_create_spec;
  findById_law i b s _ := mem_findById_spec i b s;
  findAll_law := mem_findAll_spec;
  update_law := mem_update_spec;
  delete_law := mem_delete_spec;
  restore_law := mem_restore_spec;
  purge_law := mem_purge_spec;
|}.

(** ** Properties *)

(** Unlike the SQLite repository, the in-memory one loses updates.  Two
    requests that both read a live contract before either writes both succeed
    with the same expected version, and the first request's changes are
    overwritten. *)
Theorem memory_lost_update i c f1 f2 s :
  map_get i (contracts s) = Some c -> deletedAt c = None ->
  let read1 := update_begin i s in
  let read2 := update_begin i s in
  let '(r1, s1) := update_finish i f1 (version c) read1 s in
  let '(r2, s2) := update_finish i f2 (version c) read2 s1 in
  r1 = Ok (merge_fields f1 c) /\ r2 = Ok (merge_fields f2 c) /\
  map_get i (contracts s2) = Some (merge_fields f2 c) /\
  version (merge_fields f2 c) = version c + 1.
Proof.
  intros Hget Hlive. unfold update_begin, findById. rewrite Hget, Hlive. simpl.
  unfold throw_if, bind. rewrite bool_decide_eq_true_2 by done. simpl.
  by rewrite map_get_set_eq.
Qed.

(** Two contracts created in the same millisecond, ids in descending order. *)
Definition same_instant : repo :=
  (run [OpCreate "z" "2026-01-01T00:00:00.000Z"
          {| in_title := "first"; in_clientId := "ann"; in_freelancerId := None;
             in_amount := of_int 1; in_status := None |};
        OpCreate "a" "2026-01-01T00:00:00.000Z"
          {| in_title := "second"; in_clientId := "ann"; in_freelancerId := None;
             in_amount := of_int 2; in_status := None |}]
     {| contracts := []; insertionSeq := 0; insertionOrder := [] |}).

(** Unlike the SQLite repository, the in-memory one pages incorrectly over
    contracts with equal timestamps: it sorts by insertion order but resumes by
    id, so a walk over the pages can miss a live contract that findAll
    returns. *)
Theorem memory_pagination_skips :
  map id (findAll false same_instant) = ["a"; "z"]%string /\
  option_map (map id) (walk Cursor.iso_shaped (Cursor.LNumber 1) false same_instant 5 None) =
  Some ["a"]%string.
Proof. vm_compute. split; reflexivity. Qed.

(** ** Witnesses *)

Lemma memory_lost_update_witness :
  exists c, map_get "z" (contracts same_instant) = Some c /\
    let '(r1, s1) := update_finish "z" Sqlite.sample_fields 0 (update_begin "z" same_instant) same_instant in
    let '(r2, s2) := update_finish "z" Sqlite.sample_fields 0 (update_begin "z" same_instant) s1 in
    is_ok r1 = true /\ is_ok r2 = true.
Proof.
  eexists. split; [vm_compute; reflexivity|].
  pose proof (memory_lost_update "z"
    (new_contract "z" "2026-01-01T00:00:00.000Z"
       {| in_title := "first"; in_clientId := "ann"; in_freelancerId := None;
          in_amount := of_int 1; in_status := None |})
    Sqlite.sample_fields Sqlite.sample_fields same_instant eq_refl eq_refl) as H.
  cbv zeta in H.
  change (version (new_contract _ _ _)) with 0 in H.
  destruct (update_finish "z" Sqlite.sample_fields 0 (update_begin "z" same_instant) same_instant) as [r1 s1].
  destruct (update_finish "z" Sqlite.sample_fields 0 (update_begin "z" same_instant) s1) as [r2 s2].
  destruct H as (-> & -> & _). split; reflexivity.
Defined.

End Memory.
