(* ===== verification/ContractsService.v ===== *)
(** * The contract service: src/services/contracts.service.ts

    The service is written against the repository interface, so the whole file
    is a section over an arbitrary [ContractRepo] that satisfies its laws.  The
    service's optional cache is never set by its constructor and so is absent.
    The Soroban call is recorded with its arguments; its outcome is caught and
    logged and influences nothing. *)

From stdpp Require Import prelude gmap strings.
From Stdlib Require Import ZArith Lia.
From S2P Require Import Prelude JsMap JsValue SoftDelete Bounds Cursor Keyset Contracts SqliteContracts.
Import Keyset.
Import Contracts.
Open Scope Z_scope.

Module Service.

Record CreateContractDto : Type := {
  c_title : string;
  c_description : string;
  c_freelancerId : option string;
  c_clientId : string;
  c_budget : number;
  c_deadline : option string;
  c_status : option string;
  c_terms : option string;
  c_milestones : value;       (* undefined or an array *)
}.

(** Fields that may be null as well as absent are options of options. *)
Record UpdateContractDto : Type := {
  u_version : value;
  u_title : option string;
  u_description : option string;
  u_freelancerId : option (option string);
  u_clientId : option string;
  u_budget : option number;
  u_deadline : option (option string);
  u_status : option string;
  u_terms : option (option string);
  u_milestones : value;
}.

Inductive svc_error : Type :=
| RepoError (e : error)
| ContractBoundsError (e : bounds_error)
| MissingVersionError
| InvalidVersionError
| EmptyUpdate.    (* "At least one field must be provided for an update." *)

Record svc (S : Type) : Type := {
  repo : S;
  prepared : list (string * number);   (* prepareEscrow(id, budget) calls *)
}.
Arguments repo {S} s.
Arguments prepared {S} s.

Record stats : Type := {
  total : nat;
  totalBudget : number;
  byStatus : list (string * Z);
}.

Definition defined {A} (o : option A) : bool := match o with Some _ => true | None => false end.

(** [{ ...data, milestones: undefined }] when the feature is off. *)
Definition effective_milestones (milestonesEnabled : bool) (milestones : value) : value :=
  if milestonesEnabled then milestones else VUndefined.

(** [Object.keys(fields).some(k => fields[k] !== undefined)] *)
Definition has_fields (milestonesEnabled : bool) (dto : UpdateContractDto) : bool :=
  defined (u_title dto) || defined (u_description dto) || defined (u_freelancerId dto) ||
  defined (u_clientId dto) || defined (u_budget dto) || defined (u_deadline dto) ||
  defined (u_status dto) || defined (u_terms dto) ||
  match effective_milestones milestonesEnabled (u_milestones dto) with
  | VUndefined => false
  | _ => true
  end.

(** [!Number.isInteger(version) || version < 0], else the integer. *)
Definition check_version (v : value) : result svc_error Z :=
  match v with
  | VUndefined | VNull => Err MissingVersionError
  | VNumber n =>
      match to_int n with
      | Some z => if bool_decide (z < 0) then Err InvalidVersionError else Ok z
      | None => Err InvalidVersionError
      end
  | _ => Err InvalidVersionError
  end.

(** The columns an update maps into the repository. *)
Definition update_fields (dto : UpdateContractDto) : ContractFields :=
  {| f_title := u_title dto; f_clientId := None;
     f_freelancerId := default EmptyString <$> u_freelancerId dto;
     f_amount := u_budget dto; f_status := u_status dto; f_deletedAt := None |}.

(** [acc[c.status] = (acc[c.status] || 0) + 1] *)
Definition count_status (acc : list (string * Z)) (c : Contract) : list (string * Z) :=
  map_set (status c) (default 0 (map_get (status c) acc) + 1) acc.

Definition to_stats (all : list Contract) : stats :=
  {| total := length all;
     totalBudget := foldl (fun sum c => num_add sum (amount c)) (of_int 0) all;
     byStatus := foldl count_status [] all |}.

Section Service.
Context {S : Type} `{!ContractRepo S}.
(** MILESTONES_ENABLED and CONTRACTS_SOFT_DELETE_RETENTION_DAYS *)
Context (milestonesEnabled : bool) (env : option string).

Definition lift_repo {A} (c : SE S error A) : SE (svc S) svc_error A :=
  fun s =>
    let '(r, s') := c (repo s) in
    (match r with Ok a => Ok a | Err e => Err (RepoError e) end,
     {| repo := s'; prepared := prepared s |}).

Definition lift_result {A} (r : result svc_error A) : SE (svc S) svc_error A := fun s => (r, s).

Definition bounds_guard (r : result bounds_error unit) : SE (svc S) svc_error unit :=
  lift_result (match r with Ok _ => Ok tt | Err e => Err (ContractBoundsError e) end).

Definition getRetentionDays : Z := parseRetentionDays env DEFAULT_SOFT_DELETE_RETENTION_DAYS.

Definition getAllContracts (includeDeleted : bool) (s : svc S) : list Contract :=
  findAll includeDeleted (repo s).

Definition getContractById (i : string) (includeDeleted : bool) (s : svc S) : option Contract :=
  findById i includeDeleted (repo s).

Definition getContractsPage (date_parses : string -> bool) (raw : Cursor.raw_limit)
    (cursor : option string) (includeDeleted : bool) (s : svc S) : result page_error CursorPage :=
  findPage date_parses raw cursor includeDeleted (repo s).

Definition prepareEscrow (i : string) (budget : number) : SE (svc S) svc_error unit :=
  fun s => (Ok tt, {| repo := repo s; prepared := prepared s ++ [(i, budget)] |}).

(** [status || "draft"]: an empty status counts as absent. *)
Definition status_or_draft (st : option string) : string :=
  match st with
  | Some s => if bool_decide (s = EmptyString) then "draft" else s
  | None => "draft"
  end.

Definition create_input (data : CreateContractDto) : CreateContractInput :=
  {| in_title := c_title data; in_clientId := c_clientId data;
     in_freelancerId := Some (default EmptyString (c_freelancerId data));
     in_amount := c_budget data; in_status := Some (status_or_draft (c_status data)) |}.

Definition createContract (uuid now : string) (data : CreateContractDto)
  : SE (svc S) svc_error Contract :=
  let milestones := effective_milestones milestonesEnabled (c_milestones data) in
  let budget := VNumber (c_budget data) in
  bounds_guard (validateContractBounds budget milestones) ;;
  bounds_guard (check_budget budget milestones) ;;
  let! newContract := lift_repo (create uuid now (create_input data)) in
  prepareEscrow (id newContract) (c_budget data) ;;
  ret newContract.

(** The bounds check of an update runs when the budget or the milestones are
    part of the patch, with budget 0 standing in for an absent one. *)
Definition update_bounds (dto : UpdateContractDto) : result bounds_error unit :=
  let milestones := effective_milestones milestonesEnabled (u_milestones dto) in
  match u_budget dto, milestones with
  | None, VUndefined => Ok tt
  | b, _ => validateContractBounds (VNumber (default (of_int 0) b)) milestones
  end.

Definition updateContract (i : string) (dto : UpdateContractDto) : SE (svc S) svc_error Contract :=
  let! version := lift_result (check_version (u_version dto)) in
  throw_if (negb (has_fields milestonesEnabled dto)) EmptyUpdate ;;
  bounds_guard (update_bounds dto) ;;
  lift_repo (updateWithVersion i (update_fields dto) version).

Definition deleteContract (i : string) (now : Z) : SE (svc S) svc_error unit :=
  let! deleted := lift_repo (delete i now) in
  throw_if (negb deleted) (RepoError (NotFoundError i)).

Definition restoreContract (i : string) (now : Z) : SE (svc S) svc_error Contract :=
  lift_repo (restore i now getRetentionDays).

Definition purgeExpiredContracts (now : Z) : SE (svc S) svc_error Z :=
  lift_repo (purgeExpired now getRetentionDays).

Definition getContractStats (s : svc S) : stats := to_stats (findAll false (repo s)).

Definition getBounds : nat * number := (MAX_MILESTONES_PER_CONTRACT, MAX_CONTRACT_AMOUNT_STROOPS).

Definition getContractHistory (i : string) : list unit := [].

(** ** Lemmas *)

Context `{!ContractRepoLaws S}.

Lemma service_update_fields dto : service_fields (update_fields dto).
Proof. by split. Qed.

Lemma check_version_Ok v z : check_version v = Ok z -> 0 <= z /\ exists n, v = VNumber n /\ to_int n = Some z.
Proof.
  unfold check_version. destruct v; try done. destruct (to_int n) as [k|] eqn:E; [|done].
  case_bool_decide; [done|]. intros [= <-]. split; [lia|eauto].
Qed.

(** A count per status. *)
Lemma count_status_spec all acc st :
  default 0 (map_get st (foldl count_status acc all)) =
  default 0 (map_get st acc) + Z.of_nat (length (filter (fun c => status c = st) all)).
Proof.
  revert acc. induction all as [|c all IH]; intros acc; cbn [foldl]; [cbn; lia|].
  rewrite IH, filter_cons. unfold count_status at 1. case_decide as E.
  - rewrite E, map_get_set_eq. cbn [from_option length]. rewrite Nat2Z.inj_succ. unfold Datatypes.id. lia.
  - rewrite map_get_set_ne by done. lia.
Qed.

(** ** Properties *)


(** An update only succeeds on the exact version the caller observed.  If
    updateContract succeeds, the request carried a non-negative integer version
    equal to the version of the live stored contract, the new contract is the
    stored one with the mapped fields replaced and the version raised by one,
    and no other contract changed.  If it fails, nothing changed. *)
Theorem updateContract_occ i dto s :
  repo_ok (repo s) ->
  match updateContract i dto s with
  | (Ok c, s') =>
      exists v n d, u_version dto = VNumber n /\ to_int n = Some v /\ 0 <= v /\
        view (repo s) !! i = Some d /\ deletedAt d = None /\ version d = v /\
        c = merge_fields (update_fields dto) d /\ version c = v + 1 /\
        view (repo s') = <[i := c]> (view (repo s))
  | (Err e, s') => view (repo s') = view (repo s)
  end.
Proof.
  intros Hok. unfold updateContract, lift_result, bounds_guard, throw_if, bind, throw, ret.
  destruct (check_version (u_version dto)) as [v|e] eqn:Hv; [|done].
  apply check_version_Ok in Hv as (Hpos & n & Hn & Hint).
  destruct (has_fields milestonesEnabled dto); [|done]. cbn [negb].
  unfold lift_result. destruct (update_bounds dto) as [[]|e]; [|done].
  unfold lift_repo.
  pose proof (update_law i (update_fields dto) v (repo s) Hok (service_update_fields dto)) as L.
  destruct (updateWithVersion _ _ _ _) as [[c|e] r']; cbn.
  - destruct L as (_ & (d & Hd & Hl & Hver & ->)%spec_update_Ok & Hview).
    exists v, n, d. split_and!; try done. cbn. lia.
  - destruct L as (_ & Hview & _). exact Hview.
Qed.

(** A patch that only names fields the service does not map (description,
    client, deadline, terms or milestones) is accepted on the current version
    and consumes it: the contract is unchanged except for its version. *)
Theorem update_unmapped_fields_noop i dto d s :
  repo_ok (repo s) -> view (repo s) !! i = Some d -> deletedAt d = None ->
  u_version dto = VNumber (of_int (version d)) -> 0 <= version d < 2 ^ 53 ->
  u_description dto <> None ->
  u_title dto = None -> u_freelancerId dto = None -> u_budget dto = None ->
  u_status dto = None -> u_milestones dto = VUndefined ->
  match updateContract i dto s with
  | (Ok c, s') => version c = version d + 1 /\ title c = title d /\ clientId c = clientId d /\
      freelancerId c = freelancerId d /\ amount c = amount d /\ status c = status d /\
      createdAt c = createdAt d /\ deletedAt c = deletedAt d
  | (Err e, _) => e = RepoError StorageError
  end.
Proof.
  intros Hok Hd Hlive Hver Hrange Hdesc Ht Hf Hb Hst Hms.
  assert (Hcv : check_version (u_version dto) = Ok (version d)).
  { rewrite Hver. unfold check_version, to_int, of_int.
    rewrite Z.mod_mul, Z.div_mul by (pose proof num_scale_pos; lia).
    cbn [Z.eqb]. by rewrite bool_decide_eq_false_2 by lia. }
  assert (Hhas : has_fields milestonesEnabled dto = true).
  { unfold has_fields. destruct (u_description dto); [|done]. rewrite Ht. reflexivity. }
  assert (Hbounds : update_bounds dto = Ok tt).
  { unfold update_bounds. rewrite Hb, Hms. unfold effective_milestones. by destruct milestonesEnabled. }
  unfold updateContract, lift_result, bounds_guard, throw_if, bind, throw, ret, lift_result.
  rewrite Hcv, Hhas, Hbounds. cbn [negb]. unfold lift_repo.
  pose proof (update_law i (update_fields dto) (version d) (repo s) Hok (service_update_fields dto)) as L.
  destruct (updateWithVersion _ _ _ _) as [[c|e] r']; cbn.
  - destruct L as (_ & (d' & Hd' & _ & _ & ->)%spec_update_Ok & _).
    assert (d' = d) as -> by congruence. cbn. rewrite Ht, Hf, Hb, Hst. cbn. auto 10.
  - destruct L as (_ & _ & [Hspec| ->]); [|done].
    assert (spec_update (view (repo s)) i (update_fields dto) (version d) =
            Ok (merge_fields (update_fields dto) d)) by (apply spec_update_Ok; eauto 10).
    congruence.
Qed.

(** Deleting a contract and restoring it within the retention window is a
    round trip through the service: in between it is hidden from default reads
    but visible with includeDeleted; afterwards the store is as before. *)
Theorem contract_delete_restore i t1 t2 d s :
  repo_ok (repo s) -> view (repo s) !! i = Some d -> deletedAt d = None ->
  t2 <= t1 + getRetentionDays * day_ms ->
  let '(r1, s1) := deleteContract i t1 s in
  let '(r2, s2) := restoreContract i t2 s1 in
  r1 = Ok tt /\ getContractById i false s1 = None /\
  getContractById i true s1 = Some (with_deletedAt (Some t1) d) /\
  r2 = Ok d /\ getContractById i false s2 = Some d /\ view (repo s2) = view (repo s).
Proof.
  intros Hok Hd Hlive Hwin.
  assert (Hback : with_deletedAt None (with_deletedAt (Some t1) d) = d).
  { destruct d. cbn in *. by subst. }
  unfold deleteContract, restoreContract, lift_repo, throw_if, bind, throw, ret, getContractById.
  pose proof (delete_law i t1 (repo s) Hok) as L.
  assert (Hf : spec_find (view (repo s)) i false = Some d).
  { apply spec_find_Some. split; [done|]. unfold visible. by rewrite Hlive. }
  rewrite Hf in L. destruct (delete i t1 (repo s)) as [[b|e] r1]; [|done].
  destruct L as (Hok1 & -> & Hv1). cbn [negb repo].
  pose proof (restore_law i t2 getRetentionDays r1 Hok1) as L2.
  assert (Hr : spec_restore (view r1) i t2 getRetentionDays = Ok d).
  { apply spec_restore_Ok. exists (with_deletedAt (Some t1) d), t1.
    rewrite Hv1, lookup_insert_eq. split_and!; done. }
  rewrite Hr in L2. destruct (restore i t2 getRetentionDays r1) as [[c|e] r2] eqn:E.
  2: { destruct L2 as (_ & _ & ?). done. }
  destruct L2 as (Hok2 & [= <-] & Hv2). cbn [repo].
  assert (Hv : view r2 = view (repo s)).
  { rewrite Hv2, Hv1, insert_insert_eq. by apply insert_id. }
  split_and!; try done.
  - rewrite findById_law, Hv1 by done. unfold spec_find. by rewrite lookup_insert_eq.
  - rewrite findById_law, Hv1 by done. unfold spec_find. by rewrite lookup_insert_eq.
  - by rewrite findById_law, Hv by done.
Qed.

(** The statistics count every live contract under exactly its own status:
    the count of a status is the number of live contracts that have it. *)
Theorem getContractStats_counts s st :
  total (getContractStats s) = length (getAllContracts false s) /\
  default 0 (map_get st (byStatus (getContractStats s))) =
    Z.of_nat (length (filter (fun c => status c = st) (getAllContracts false s))).
Proof.
  split; [done|]. unfold getContractStats, to_stats, getAllContracts. cbn [byStatus].
  rewrite count_status_spec. cbn. lia.
Qed.

End Service.

(** ** Witnesses *)

Definition sample_dto : CreateContractDto :=
  {| c_title := "site"; c_description := "a web site"; c_freelancerId := Some "bob"%string;
     c_clientId := "ann"; c_budget := of_int 1000; c_deadline := None; c_status := None;
     c_terms := None; c_milestones := VArray [sample_milestone 400; sample_milestone 600] |}.

Definition sample_svc : svc Sqlite.db := {| repo := Sqlite.sample_db; prepared := [] |}.


Definition sample_patch : UpdateContractDto :=
  {| u_version := VNumber (of_int 0); u_title := Some "shop"%string; u_description := None;
     u_freelancerId := None; u_clientId := None; u_budget := None; u_deadline := None;
     u_status := None; u_terms := None; u_milestones := VUndefined |}.

Lemma updateContract_occ_witness :
  exists c s', updateContract true "k1" sample_patch sample_svc = (Ok c, s') /\ version c = 1.
Proof.
  pose proof (updateContract_occ true "k1" sample_patch sample_svc Sqlite.sample_db_ok) as H.
  destruct (updateContract true "k1" sample_patch sample_svc) as [[c|e] s'] eqn:E.
  - exists c, s'. split; [reflexivity|]. destruct H as (v & n & d & Hn & Hv & _ & _ & _ & _ & _ & Hver & _).
    rewrite Hver. injection Hn as <-. vm_compute in Hv. injection Hv as <-. reflexivity.
  - exfalso. vm_compute in E. discriminate E.
Defined.

Definition description_patch : UpdateContractDto :=
  {| u_version := VNumber (of_int 0); u_title := None; u_description := Some "new text"%string;
     u_freelancerId := None; u_clientId := None; u_budget := None; u_deadline := None;
     u_status := None; u_terms := None; u_milestones := VUndefined |}.

Lemma update_unmapped_fields_noop_witness :
  match updateContract true "k1" description_patch sample_svc with
  | (Ok c, _) => version c = 1 /\ title c = "site"%string
  | (Err e, _) => e = RepoError StorageError
  end.
Proof.
  pose proof (update_unmapped_fields_noop true "k1" description_patch
    (Sqlite.toContract (Sqlite.sample_row "k1" "2026-01-01T00:00:00.000Z" None)) sample_svc
    Sqlite.sample_db_ok eq_refl eq_refl eq_refl ltac:(cbn; lia) ltac:(discriminate)
    eq_refl eq_refl eq_refl eq_refl eq_refl) as H.
  destruct (updateContract true "k1" description_patch sample_svc) as [[c|e] s'];
    [|exact H]. destruct H as (Hv & Ht & _). split; [exact Hv|exact Ht].
Defined.

Lemma contract_delete_restore_witness :
  let '(r1, s1) := deleteContract "k1" 100 sample_svc in
  let '(r2, s2) := restoreContract None "k1" 200 s1 in
  r2 = Ok (Sqlite.toContract (Sqlite.sample_row "k1" "2026-01-01T00:00:00.000Z" None)).
Proof.
  pose proof (contract_delete_restore None "k1" 100 200
    (Sqlite.toContract (Sqlite.sample_row "k1" "2026-01-01T00:00:00.000Z" None)) sample_svc
    Sqlite.sample_db_ok eq_refl eq_refl ltac:(vm_compute; discriminate)) as H.
  destruct (deleteContract "k1" 100 sample_svc) as [r1 s1].
  destruct (restoreContract None "k1" 200 s1) as [r2 s2]. apply H.
Defined.

End Service.
