(* ===== verification/CircuitBreaker.v ===== *)
(** * Circuit breaker: src/circuit-breaker/CircuitBreaker.ts and registry.ts

    [execute] awaits the guarded call, so it is two atomic steps: [begin], up
    to the [await], and [finish], after it.  Concurrent calls interleave these
    steps; the system state counts the calls in flight, and [step] is one event
    of any interleaving.  Instants are milliseconds, [Date.now()] is an
    argument. *)

From stdpp Require Import prelude strings.
From Stdlib Require Import ZArith Lia.
From S2P Require Import Prelude JsMap.
Open Scope Z_scope.

Module Breaker.

Inductive CircuitState : Type := CLOSED | OPEN | HALF_OPEN.

#[export] Instance CircuitState_eq_dec : EqDecision CircuitState.
Proof. solve_decision. Defined.

Record options : Type := {
  failureThreshold : Z;
  successThreshold : Z;
  timeout : Z;
}.

(** Options as a caller gives them; the constructor fills in the defaults. *)
Record raw_options : Type := {
  o_failureThreshold : option Z;
  o_successThreshold : option Z;
  o_timeout : option Z;
}.

Definition defaults (o : raw_options) : options :=
  {| failureThreshold := default 5 (o_failureThreshold o);
     successThreshold := default 1 (o_successThreshold o);
     timeout := default 30000 (o_timeout o) |}.

Record breaker : Type := {
  state : CircuitState;
  failureCount : Z;
  successCount : Z;
  lastFailureTime : option Z;
  probeInFlight : bool;
}.

Record CircuitStats : Type := {
  st_state : CircuitState;
  st_failureCount : Z;
  st_successCount : Z;
  st_lastFailureTime : option Z;
}.

Definition initial : breaker :=
  {| state := CLOSED; failureCount := 0; successCount := 0;
     lastFailureTime := None; probeInFlight := false |}.

Definition set_probe (p : bool) (b : breaker) : breaker :=
  {| state := state b; failureCount := failureCount b; successCount := successCount b;
     lastFailureTime := lastFailureTime b; probeInFlight := p |}.

Definition toClosed (b : breaker) : breaker :=
  {| state := CLOSED; failureCount := 0; successCount := 0;
     lastFailureTime := lastFailureTime b; probeInFlight := probeInFlight b |}.

Definition toOpen (b : breaker) : breaker :=
  {| state := OPEN; failureCount := failureCount b; successCount := successCount b;
     lastFailureTime := lastFailureTime b; probeInFlight := probeInFlight b |}.

Definition toHalfOpen (b : breaker) : breaker :=
  {| state := HALF_OPEN; failureCount := failureCount b; successCount := 0;
     lastFailureTime := lastFailureTime b; probeInFlight := false |}.

Section Options.
Context (o : options).

Definition transitionIfNeeded (now : Z) (b : breaker) : breaker :=
  match state b, lastFailureTime b with
  | OPEN, Some t => if bool_decide (timeout o <= now - t) then toHalfOpen b else b
  | _, _ => b
  end.

Definition onSuccess (b : breaker) : breaker :=
  let b1 := {| state := state b; failureCount := 0; successCount := successCount b;
               lastFailureTime := lastFailureTime b; probeInFlight := probeInFlight b |} in
  match state b with
  | HALF_OPEN =>
      let b2 := {| state := HALF_OPEN; failureCount := 0; successCount := successCount b + 1;
                   lastFailureTime := lastFailureTime b; probeInFlight := probeInFlight b |} in
      if bool_decide (successThreshold o <= successCount b2) then toClosed b2 else b2
  | _ => b1
  end.

Definition onFailure (now : Z) (b : breaker) : breaker :=
  let b1 := {| state := state b; failureCount := failureCount b; successCount := 0;
               lastFailureTime := Some now; probeInFlight := probeInFlight b |} in
  match state b with
  | HALF_OPEN => toOpen b1
  | _ =>
      let b2 := {| state := state b; failureCount := failureCount b + 1; successCount := 0;
                   lastFailureTime := Some now; probeInFlight := probeInFlight b |} in
      if bool_decide (failureThreshold o <= failureCount b2) then toOpen b2 else b2
  end.

(** [execute] up to the [await]: rejected with [CircuitOpenError], or admitted
    as an ordinary call or as a probe. *)
Inductive admission : Type := Rejected | Admitted_normal | Admitted_probe.

Definition begin (now : Z) (b : breaker) : admission * breaker :=
  let b := transitionIfNeeded now b in
  match state b with
  | OPEN => (Rejected, b)
  | HALF_OPEN => if probeInFlight b then (Rejected, b) else (Admitted_probe, set_probe true b)
  | CLOSED => (Admitted_normal, b)
  end.

(** [execute] after the [await], with the outcome of the guarded call; the
    [finally] block clears the probe flag on both paths. *)
Definition finish (ok : bool) (now : Z) (b : breaker) : breaker :=
  set_probe false (if ok then onSuccess b else onFailure now b).

(** One uninterrupted call. *)
Definition execute (ok : bool) (now1 now2 : Z) (b : breaker) : result unit bool * breaker :=
  match begin now1 b with
  | (Rejected, b') => (Err tt, b')
  | (_, b') => (Ok ok, finish ok now2 b')
  end.

Definition getState (now : Z) (b : breaker) : CircuitState * breaker :=
  let b := transitionIfNeeded now b in (state b, b).

Definition getStats (now : Z) (b : breaker) : CircuitStats * breaker :=
  let b := transitionIfNeeded now b in
  ({| st_state := state b; st_failureCount := failureCount b;
      st_successCount := successCount b; st_lastFailureTime := lastFailureTime b |}, b).

Definition reset (b : breaker) : breaker := initial.

(** ** Interleavings *)

Record system : Type := {
  br : breaker;
  normals : nat;   (* calls in flight that were admitted while CLOSED *)
  probes : nat;    (* calls in flight that were admitted while HALF_OPEN *)
}.

Inductive event : Type :=
| EBegin (now : Z)
| EFinish (probe ok : bool) (now : Z)
| EQuery (now : Z)
| EReset.

Definition apply_event (e : event) (s : system) : system :=
  match e with
  | EBegin now =>
      match begin now (br s) with
      | (Rejected, b) => {| br := b; normals := normals s; probes := probes s |}
      | (Admitted_normal, b) => {| br := b; normals := S (normals s); probes := probes s |}
      | (Admitted_probe, b) => {| br := b; normals := normals s; probes := S (probes s) |}
      end
  | EFinish true ok now =>
      {| br := finish ok now (br s); normals := normals s; probes := pred (probes s) |}
  | EFinish false ok now =>
      {| br := finish ok now (br s); normals := pred (normals s); probes := probes s |}
  | EQuery now => {| br := (getState now (br s)).2; normals := normals s; probes := probes s |}
  | EReset => {| br := reset (br s); normals := normals s; probes := probes s |}
  end.

(** Only a call in flight can finish. *)
Definition enabled (e : event) (s : system) : Prop :=
  match e with
  | EFinish true _ _ => (0 < probes s)%nat
  | EFinish false _ _ => (0 < normals s)%nat
  | _ => True
  end.

Inductive step : system -> system -> Prop :=
| step_event e s : enabled e s -> step s (apply_event e s).

Definition start : system := {| br := initial; normals := 0; probes := 0 |}.

Definition run (es : list event) (s : system) : system := foldl (fun s e => apply_event e s) s es.

(** An event is stale when a call admitted while CLOSED finishes after the
    breaker went HALF_OPEN. *)
Definition stale (e : event) (s : system) : bool :=
  match e with
  | EFinish false _ _ => bool_decide (state (br s) = HALF_OPEN)
  | _ => false
  end.

(** Runs of enabled events without resets and stale finishes. *)
Fixpoint orderly (es : list event) (s : system) : Prop :=
  match es with
  | [] => True
  | e :: es' => enabled e s /\ e <> EReset /\ stale e s = false /\ orderly es' (apply_event e s)
  end.

Definition breaker_ok (b : breaker) : Prop :=
  match state b with
  | CLOSED => 0 <= failureCount b < failureThreshold o
  | OPEN => lastFailureTime b <> None /\ 0 <= failureCount b
  | HALF_OPEN => 0 <= successCount b < successThreshold o /\ 0 <= failureCount b /\
                 lastFailureTime b <> None
  end.

(** ** Lemmas *)

Hypothesis Hfail : 1 <= failureThreshold o.
Hypothesis Hsucc : 1 <= successThreshold o.

Lemma transition_ok now b : breaker_ok b -> breaker_ok (transitionIfNeeded now b).
Proof.
  destruct b as [[] fc sc [t|] p]; unfold transitionIfNeeded, breaker_ok; simpl; try done.
  case_bool_decide; simpl; [|done]. intros [_ ?]. split_and!; [lia|lia|lia|done].
Qed.

Lemma finish_ok ok now b : breaker_ok b -> breaker_ok (finish ok now b).
Proof.
  destruct b as [[] fc sc lf p], ok; unfold finish, onSuccess, onFailure, breaker_ok; simpl;
    intros Hb; try case_bool_decide; simpl; naive_solver lia.
Qed.

Lemma begin_ok now b : breaker_ok b -> breaker_ok (begin now b).2.
Proof.
  intros Hb. apply (transition_ok now) in Hb. unfold begin. revert Hb.
  destruct (transitionIfNeeded now b) as [st fc sc lf p]. unfold breaker_ok. simpl.
  destruct st; simpl; [done|done|]. by destruct p.
Qed.

Lemma apply_event_ok e s : breaker_ok (br s) -> breaker_ok (br (apply_event e s)).
Proof.
  intros Hb. destruct e as [now|[] ok now|now|]; simpl.
  - pose proof (begin_ok now (br s) Hb). by destruct (begin now (br s)) as [[] b].
  - by apply finish_ok.
  - by apply finish_ok.
  - by apply transition_ok.
  - unfold breaker_ok. simpl. lia.
Qed.

(** While OPEN with the last failure not before [t], nothing is admitted before
    [t + timeout]. *)
Definition shut (t : Z) (b : breaker) : Prop :=
  state b = OPEN /\ exists u, lastFailureTime b = Some u /\ t <= u.

Definition event_time (e : event) : option Z :=
  match e with
  | EBegin now | EFinish _ _ now | EQuery now => Some now
  | EReset => None
  end.

(** Events inside [t, t + timeout); a reset has no time and is excluded. *)
Definition within (t : Z) (e : event) : Prop :=
  exists now, event_time e = Some now /\ t <= now < t + timeout o.

Lemma shut_transition t now b :
  shut t b -> now < t + timeout o -> transitionIfNeeded now b = b.
Proof.
  intros [Hs (u & Hu & Hle)] Hnow. unfold transitionIfNeeded. rewrite Hs, Hu.
  by rewrite bool_decide_eq_false_2 by lia.
Qed.

Lemma shut_finish t ok now b : shut t b -> t <= now -> shut t (finish ok now b).
Proof.
  intros [Hs (u & Hu & Hle)] Hnow. unfold finish, onSuccess, onFailure. rewrite Hs.
  destruct ok; [split; [done|eauto]|]. case_bool_decide; (split; [done|eauto]).
Qed.

Lemma shut_event t e s :
  shut t (br s) -> within t e ->
  shut t (br (apply_event e s)) /\
  (normals (apply_event e s) ≤ normals s)%nat /\ (probes (apply_event e s) ≤ probes s)%nat.
Proof.
  intros Hshut (now & Ht & Hge & Hlt). pose proof (shut_transition t now (br s) Hshut Hlt) as Htr.
  destruct e as [n|[] ok n|n|]; simpl in *; simplify_eq.
  - unfold begin. rewrite Htr. destruct Hshut as [Hs Hl]. rewrite Hs. split; [by split|]. simpl. lia.
  - split; [by apply shut_finish|lia].
  - split; [by apply shut_finish|lia].
  - rewrite Htr. split; [done|lia].
Qed.

(** The invariant of orderly runs. *)
Definition one_probe (s : system) : Prop :=
  match state (br s) with
  | HALF_OPEN => (probes s ≤ 1)%nat /\ probeInFlight (br s) = bool_decide (probes s = 1%nat)
  | _ => probes s = 0%nat
  end.

Lemma one_probe_transition now s :
  one_probe s ->
  one_probe {| br := transitionIfNeeded now (br s); normals := normals s; probes := probes s |}.
Proof.
  destruct s as [[[] fc sc [t|] p] n q]; unfold one_probe, transitionIfNeeded; simpl; try done.
  case_bool_decide; simpl; [|done]. intros ->. split; [lia|done].
Qed.

Lemma one_probe_begin now s : one_probe s -> one_probe (apply_event (EBegin now) s).
Proof.
  intros Hs. apply (one_probe_transition now) in Hs. unfold apply_event, begin. revert Hs.
  destruct (transitionIfNeeded now (br s)) as [st fc sc lf p]. unfold one_probe. simpl.
  destruct st; simpl; [done|done|]. intros [Hle Hp]. destruct p; simpl; [done|].
  symmetry in Hp. apply bool_decide_eq_false in Hp.
  assert (probes s = 0%nat) as -> by lia. done.
Qed.

Lemma one_probe_finish probe ok now s :
  one_probe s -> enabled (EFinish probe ok now) s -> stale (EFinish probe ok now) s = false ->
  one_probe (apply_event (EFinish probe ok now) s).
Proof.
  destruct s as [[st fc sc lf p] n q].
  unfold one_probe, apply_event, finish, onSuccess, onFailure, enabled, stale.
  destruct probe; simpl; intros Hs Hen Hst.
  - destruct st; [lia|lia|]. assert (q = 1%nat) as -> by lia.
    destruct ok; [destruct (bool_decide (successThreshold o <= sc + 1))|]; simpl; auto.
  - apply bool_decide_eq_false in Hst.
    destruct st, ok; try done; simpl; destruct (bool_decide (failureThreshold o <= fc + 1)); done.
Qed.

Lemma one_probe_event e s :
  one_probe s -> enabled e s -> e <> EReset -> stale e s = false -> one_probe (apply_event e s).
Proof.
  intros Hs Hen Hr Hst. destruct e as [now|probe ok now|now|]; [| | |done].
  - by apply one_probe_begin.
  - by apply one_probe_finish.
  - by apply one_probe_transition.
Qed.

Fixpoint all_enabled (es : list event) (s : system) : Prop :=
  match es with
  | [] => True
  | e :: es' => enabled e s /\ all_enabled es' (apply_event e s)
  end.

Lemma run_reachable es s : all_enabled es s -> rtc step s (run es s).
Proof.
  revert s. induction es as [|e es IH]; intros s Hen; [apply rtc_refl|].
  destruct Hen as [He Hes]. eapply rtc_l; [by apply (step_event e)|]. by apply IH.
Qed.

(** [n] failing calls in a row. *)
Fixpoint fail_times (n : nat) (now : Z) (b : breaker) : breaker :=
  match n with
  | O => b
  | S n' => fail_times n' now (execute false now now b).2
  end.

Fixpoint succeed_times (n : nat) (now : Z) (b : breaker) : breaker :=
  match n with
  | O => b
  | S n' => succeed_times n' now (execute true now now b).2
  end.

Lemma execute_fail_closed now b :
  state b = CLOSED -> failureCount b + 1 < failureThreshold o ->
  let b' := (execute false now now b).2 in state b' = CLOSED /\ failureCount b' = failureCount b + 1.
Proof.
  intros Hs Hlt. unfold execute, begin, transitionIfNeeded. rewrite Hs. rewrite Hs. simpl.
  unfold finish, onFailure. rewrite Hs. simpl. rewrite bool_decide_eq_false_2 by lia. done.
Qed.

Lemma execute_fail_trip now b :
  state b = CLOSED -> failureThreshold o <= failureCount b + 1 ->
  let b' := (execute false now now b).2 in state b' = OPEN /\ lastFailureTime b' = Some now.
Proof.
  intros Hs Hlt. unfold execute, begin, transitionIfNeeded. rewrite Hs. rewrite Hs. simpl.
  unfold finish, onFailure. rewrite Hs. simpl. by rewrite bool_decide_eq_true_2 by lia.
Qed.

Lemma execute_succeed_half now b :
  state b = HALF_OPEN -> probeInFlight b = false ->
  let b' := (execute true now now b).2 in
  if bool_decide (successThreshold o <= successCount b + 1) then state b' = CLOSED
  else state b' = HALF_OPEN /\ probeInFlight b' = false /\ successCount b' = successCount b + 1.
Proof.
  intros Hs Hp. unfold execute, begin, transitionIfNeeded. rewrite Hs. rewrite Hs, Hp. simpl.
  unfold finish, onSuccess. simpl. rewrite Hs. simpl.
  by case_bool_decide.
Qed.

Lemma succeed_closed n now b : state b = CLOSED -> state (succeed_times n now b) = CLOSED.
Proof.
  revert b. induction n as [|n IH]; intros b Hs; [done|]. simpl. apply IH.
  unfold execute, begin, transitionIfNeeded. rewrite Hs. rewrite Hs. simpl.
  unfold finish, onSuccess. by rewrite Hs.
Qed.

Lemma succeed_half n now b :
  state b = HALF_OPEN -> probeInFlight b = false ->
  successThreshold o <= successCount b + Z.of_nat n -> successCount b < successThreshold o ->
  state (succeed_times n now b) = CLOSED.
Proof.
  revert b. induction n as [|n IH]; intros b Hs Hp Hn Hlt; [lia|]. simpl.
  pose proof (execute_succeed_half now b Hs Hp) as H. simpl in H. case_bool_decide.
  - by apply succeed_closed.
  - destruct H as (H1 & H2 & H3). apply IH; [done|done|lia|lia].
Qed.

(** ** Properties *)

(** After any interleaving of calls, outcomes, queries and resets, a closed
    breaker has seen fewer consecutive failures than its threshold, a half-open
    one fewer successes than needed to close, and an open or half-open breaker
    remembers when it failed, so it can always recover. *)
Theorem breaker_invariant s : rtc step start s -> breaker_ok (br s).
Proof.
  intros Hr. assert (H0 : breaker_ok (br start)) by (unfold breaker_ok; simpl; lia).
  revert H0. induction Hr as [|s1 s2 s3 Hstep _ IH]; [done|].
  intros H. apply IH. destruct Hstep. by apply apply_event_ok.
Qed.

(** C16: fail fast.  Once the breaker is open with its last failure at time t,
    no call is admitted before t + timeout, in any interleaving with the calls
    still in flight, whether they succeed or fail. *)
Theorem open_rejects t es s :
  state (br s) = OPEN -> lastFailureTime (br s) = Some t -> Forall (within t) es ->
  state (br (run es s)) = OPEN /\
  (normals (run es s) ≤ normals s)%nat /\ (probes (run es s) ≤ probes s)%nat /\
  (forall now, t <= now < t + timeout o -> (begin now (br (run es s))).1 = Rejected).
Proof.
  intros Hs Ht Hes. assert (Hshut : shut t (br s)) by (split; [done|exists t; split; [done|lia]]).
  clear Hs Ht.
  assert (H : shut t (br (run es s)) /\ (normals (run es s) ≤ normals s)%nat /\
              (probes (run es s) ≤ probes s)%nat).
  { revert s Hshut. induction Hes as [|e es He _ IH]; intros s Hshut; [done|]. simpl.
    destruct (shut_event t e s Hshut He) as (H1 & H2 & H3).
    destruct (IH _ H1) as (H4 & H5 & H6). split_and!; [done|lia|lia]. }
  destruct H as (Hsh & Hn & Hp). split_and!; [apply Hsh|done|done|].
  intros now [_ Hlt]. unfold begin. rewrite (shut_transition t now _ Hsh Hlt).
  destruct Hsh as [-> _]. done.
Qed.

(** The breaker trips on exactly the configured number of consecutive
    failures: fewer leave a fresh breaker closed with an exact count, and that
    many open it. *)
Theorem trips_at_threshold n now :
  (Z.of_nat n < failureThreshold o ->
     state (fail_times n now initial) = CLOSED /\
     failureCount (fail_times n now initial) = Z.of_nat n) /\
  (Z.of_nat n = failureThreshold o ->
     state (fail_times n now initial) = OPEN /\
     lastFailureTime (fail_times n now initial) = Some now).
Proof.
  assert (H : forall n b, state b = CLOSED -> failureCount b + Z.of_nat n < failureThreshold o ->
    state (fail_times n now b) = CLOSED /\ failureCount (fail_times n now b) = failureCount b + Z.of_nat n).
  { clear n. induction n as [|n IH]; intros b Hs Hlt; [simpl; split; [done|lia]|].
    cbn [fail_times]. destruct (execute_fail_closed now b Hs ltac:(lia)) as [H1 H2].
    destruct (IH _ H1 ltac:(lia)) as [H3 H4]. split; [done|lia]. }
  assert (Hlast : forall n b, fail_times (S n) now b = (execute false now now (fail_times n now b)).2).
  { clear n. induction n as [|n IH]; intros b; [done|]. cbn [fail_times]. apply IH. }
  split; [intros Hlt; destruct (H n initial eq_refl Hlt) as [H1 H2]; split; [done|simpl in H2; lia]|].
  intros Heq. destruct n as [|n]; [lia|]. rewrite Hlast.
  destruct (H n initial eq_refl) as [H1 H2]; [simpl; lia|].
  apply execute_fail_trip; [done|]. rewrite H2. simpl. lia.
Qed.

(** Recovery.  From an open breaker, once the timeout has elapsed,
    successThreshold successful calls in a row close it, however often it
    failed before. *)
Theorem recovers_after_timeout t now b :
  state b = OPEN -> lastFailureTime b = Some t -> timeout o <= now - t ->
  state (succeed_times (Z.to_nat (successThreshold o)) now b) = CLOSED.
Proof.
  intros Hs Ht Hto. destruct (Z.to_nat (successThreshold o)) as [|n] eqn:En; [lia|].
  assert (Hex : execute true now now b = execute true now now (toHalfOpen b)).
  { assert (Htr : transitionIfNeeded now b = toHalfOpen b).
    { unfold transitionIfNeeded. rewrite Hs, Ht. by rewrite bool_decide_eq_true_2. }
    unfold execute, begin. by rewrite Htr. }
  cbn [succeed_times]. rewrite Hex.
  change (state (succeed_times (S n) now (toHalfOpen b)) = CLOSED).
  apply succeed_half; [done|done|simpl; lia|simpl; lia].
Qed.

(** As long as no call admitted before the circuit opened finishes after it
    went half-open, and nobody resets the breaker, there is never more than one
    probe in flight. *)
Theorem single_probe_orderly es : orderly es start -> (probes (run es start) ≤ 1)%nat.
Proof.
  assert (H : forall s, one_probe s -> orderly es s -> one_probe (run es s)).
  { induction es as [|e es IH]; intros s Hs Ho; [done|]. destruct Ho as (H1 & H2 & H3 & H4).
    simpl. apply IH; [by apply one_probe_event|done]. }
  intros Ho. specialize (H start ltac:(done) Ho). unfold one_probe in H.
  destruct (state _); [lia|lia|]. apply H.
Qed.

End Options.

(** A slow call is admitted; another call fails and opens the circuit; after
    the timeout a probe is admitted; the slow call then succeeds. *)
Definition stale_trace : list event :=
  [EBegin 0; EBegin 1; EFinish false false 2; EBegin 10; EFinish false true 11; EBegin 12].

(** In general the breaker does let two probes run at once, against its own
    comment: a stale call that finishes while a probe is in flight clears the
    probe flag, and the next call is admitted as a second probe. *)
Theorem two_probes_in_flight :
  let o := {| failureThreshold := 1; successThreshold := 2; timeout := 5 |} in
  rtc (step o) start (run o stale_trace start) /\
  state (br (run o stale_trace start)) = HALF_OPEN /\ probes (run o stale_trace start) = 2%nat.
Proof.
  cbv zeta. split; [|vm_compute; done].
  apply run_reachable. vm_compute. auto 10 with arith.
Qed.

(** ** Registry *)

Record registry : Type := {
  breakers : list (string * (options * breaker));
  configs : list (string * options);
  audited : list (string * string);   (* (performedBy, breaker) of admin resets *)
}.

Definition getOrCreate (name : string) (raw : raw_options) (r : registry)
  : option (options * breaker) * registry :=
  let r' :=
    if map_has name (breakers r) then r
    else {| breakers := map_set name (defaults raw, initial) (breakers r);
            configs := map_set name (defaults raw) (configs r);
            audited := audited r |} in
  (map_get name (breakers r'), r').

(** Every [getStats] may move its breaker from OPEN to HALF_OPEN. *)
Definition getAll (now : Z) (r : registry)
  : list (string * CircuitStats * option options) * registry :=
  (map (fun e => (e.1, (getStats e.2.1 now e.2.2).1, map_get e.1 (configs r))) (breakers r),
   {| breakers := map (fun e => (e.1, (e.2.1, (getStats e.2.1 now e.2.2).2))) (breakers r);
      configs := configs r; audited := audited r |}).

Definition reset_named (name : string) (r : registry) : bool * registry :=
  match map_get name (breakers r) with
  | None => (false, r)
  | Some (o, b) =>
      (true, {| breakers := map_set name (o, reset b) (breakers r);
                configs := configs r; audited := audited r |})
  end.

Definition resetBreaker (name performedBy : string) (r : registry) : result unit unit * registry :=
  let '(found, r') := reset_named name r in
  if found
  then (Ok tt, {| breakers := breakers r'; configs := configs r';
                  audited := audited r' ++ [(performedBy, name)] |})
  else (Err tt, r').

Definition clear (r : registry) : registry :=
  {| breakers := []; configs := []; audited := audited r |}.

(** Each breaker's reported configuration is the one it runs with. *)
Definition registry_ok (r : registry) : Prop :=
  forall name, map_get name (configs r) = fst <$> map_get name (breakers r).

Inductive registry_step : registry -> registry -> Prop :=
| rs_getOrCreate name raw r : registry_step r (getOrCreate name raw r).2
| rs_getAll now r : registry_step r (getAll now r).2
| rs_reset name who r : registry_step r (resetBreaker name who r).2
| rs_clear r : registry_step r (clear r).

Lemma map_get_map {K A B} `{EqDecision K} (f : A -> B) (m : list (K * A)) k :
  map_get k (map (fun e => (e.1, f e.2)) m) = f <$> map_get k m.
Proof. induction m as [|[k' v] m IH]; simpl; [done|]. by case_bool_decide || case_decide. Qed.

Lemma reset_named_ok name r : registry_ok r -> registry_ok (reset_named name r).2.
Proof.
  intros Hok. unfold reset_named. destruct (map_get name (breakers r)) as [[o b]|] eqn:E; [|done].
  intros k. simpl. rewrite Hok. destruct (decide (name = k)) as [->|Hne].
  - by rewrite map_get_set_eq, E.
  - by rewrite map_get_set_ne.
Qed.

Lemma registry_step_ok r r' : registry_ok r -> registry_step r r' -> registry_ok r'.
Proof.
  intros Hok Hstep. destruct Hstep as [name raw r|now r|name who r|r].
  - unfold getOrCreate. simpl. destruct (map_has name (breakers r)); [done|].
    intros k. simpl. destruct (decide (name = k)) as [->|Hne].
    + by rewrite !map_get_set_eq.
    + by rewrite !map_get_set_ne.
  - intros k. cbn [getAll snd breakers configs].
    rewrite (map_get_map (fun v => (v.1, (getStats v.1 now v.2).2))), Hok.
    by destruct (map_get k (breakers r)) as [[o b]|].
  - unfold resetBreaker. pose proof (reset_named_ok name r Hok) as H.
    by destruct (reset_named name r) as [[] r1].
  - done.
Qed.

(** The registry hands out one breaker per name: asking again, with any
    options, returns the same breaker in its current state and changes nothing;
    and after any sequence of registry operations the configuration reported
    for a breaker is the one it runs with. *)
Theorem registry_singleton r name raw raw' :
  rtc registry_step {| breakers := []; configs := []; audited := [] |} r ->
  let '(b1, r1) := getOrCreate name raw r in
  getOrCreate name raw' r1 = (b1, r1) /\ (exists b, b1 = Some b) /\ registry_ok r1.
Proof.
  intros Hr. assert (Hok : registry_ok r).
  { assert (H0 : registry_ok {| breakers := []; configs := []; audited := [] |}) by done.
    revert H0. induction Hr as [|r1 r2 r3 Hs _ IH]; [done|].
    intros H. by apply IH, (registry_step_ok r1). }
  pose proof (registry_step_ok r _ Hok (rs_getOrCreate name raw r)) as Hok1.
  assert (Hhas : map_has name (breakers (getOrCreate name raw r).2) = true).
  { unfold getOrCreate. simpl. destruct (map_has name (breakers r)) eqn:E; [done|].
    apply map_has_true. simpl. rewrite map_get_set_eq. eauto. }
  unfold getOrCreate at 1. cbn zeta.
  set (r1 := if map_has name (breakers r) then r else _) in *.
  change ((getOrCreate name raw r).2) with r1 in *.
  split_and!; [|by apply map_has_true in Hhas|done].
  unfold getOrCreate. by rewrite Hhas.
Qed.

(** ** Witnesses *)

Definition sample_options : options :=
  {| failureThreshold := 2; successThreshold := 1; timeout := 100 |}.

Definition opened : system :=
  {| br := fail_times sample_options 2 7 initial; normals := 1; probes := 0 |}.

Lemma breaker_invariant_witness :
  breaker_ok sample_options (br (run sample_options [EBegin 1; EFinish false false 2] start)).
Proof.
  apply (breaker_invariant sample_options); [vm_compute; discriminate|vm_compute; discriminate|].
  apply run_reachable. vm_compute. auto with arith.
Defined.

Lemma open_rejects_witness :
  state (br (run sample_options [EBegin 50; EFinish false false 60; EBegin 90] opened)) = OPEN.
Proof.
  apply (open_rejects sample_options 7).
  - vm_compute. reflexivity.
  - vm_compute. reflexivity.
  - repeat constructor; eexists; (split; [reflexivity|vm_compute; split; [discriminate|reflexivity]]).
Defined.

Lemma trips_at_threshold_witness :
  state (fail_times sample_options 2 7 initial) = OPEN.
Proof.
  apply (trips_at_threshold sample_options ltac:(vm_compute; discriminate) 2 7). reflexivity.
Defined.

Lemma recovers_after_timeout_witness :
  state (succeed_times sample_options 1 107 (br opened)) = CLOSED.
Proof.
  apply (recovers_after_timeout sample_options ltac:(vm_compute; discriminate) 7 107 (br opened)).
  - vm_compute. reflexivity.
  - vm_compute. reflexivity.
  - vm_compute. discriminate.
Defined.

Lemma single_probe_orderly_witness :
  (probes (run sample_options [EBegin 0; EFinish false false 1; EBegin 2; EFinish false false 3;
     EBegin 200; EBegin 201] start) ≤ 1)%nat.
Proof.
  apply (single_probe_orderly sample_options).
  vm_compute. repeat split; auto with arith; discriminate.
Defined.

Lemma registry_singleton_witness :
  let o3 := {| o_failureThreshold := Some 3; o_successThreshold := None; o_timeout := None |} in
  let o9 := {| o_failureThreshold := Some 9; o_successThreshold := None; o_timeout := None |} in
  let '(b1, r1) := getOrCreate "rpc" o3 {| breakers := []; configs := []; audited := [] |} in
  (getOrCreate "rpc" o9 r1).1 = b1.
Proof.
  pose proof (registry_singleton {| breakers := []; configs := []; audited := [] |} "rpc"
    {| o_failureThreshold := Some 3; o_successThreshold := None; o_timeout := None |}
    {| o_failureThreshold := Some 9; o_successThreshold := None; o_timeout := None |}
    (rtc_refl _ _)) as H.
  cbv zeta. destruct (getOrCreate "rpc" _ {| breakers := []; configs := []; audited := [] |}) as [b1 r1].
  destruct H as [H _]. by rewrite H.
Defined.

End Breaker.
