(* ===== verification/AccountLockout.v ===== *)
(** * Account lockout: src/auth/accountLockout.ts

    [records] is a Map keyed by the SHA-256 of the normalized email; the hash
    function is an argument.  Each method reads the clock within one
    synchronous call, so it takes one instant [now] (milliseconds).  Audit
    entries are recorded in the state.  Delays are integers: with a cap below
    2^53 the product [base * multiplier^(n-1)] is exact wherever it is below
    the cap. *)

From stdpp Require Import prelude strings.
From Stdlib Require Import ZArith Lia.
From S2P Require Import Prelude JsMap JsString.
Open Scope Z_scope.

Module Lockout.

Record AccountLockoutConfig : Type := {
  enabled : bool;
  maxFailures : Z;
  decayWindowMs : Z;
  lockoutDurationMs : Z;
  baseDelayMs : Z;
  delayMultiplier : Z;
  maxDelayMs : Z;
}.

Definition DEFAULT_ACCOUNT_LOCKOUT_CONFIG : AccountLockoutConfig :=
  {| enabled := true; maxFailures := 5; decayWindowMs := 15 * 60 * 1000;
     lockoutDurationMs := 15 * 60 * 1000; baseDelayMs := 250; delayMultiplier := 2;
     maxDelayMs := 5000 |}.

Record FailureRecord : Type := {
  failed : Z;
  firstFailureAt : Z;
  lastFailureAt : Z;
  lockedUntil : Z;
}.

Record AccountAssessment : Type := {
  isLocked : bool;
  failures : Z;
  remainingLockoutMs : Z;
  preDelayMs : Z;
}.

Record FailureRecordResult : Type := {
  isNowLocked : bool;
  fr_failures : Z;
  waitMs : Z;
  triggeredLockout : bool;
}.

Record SuccessRecordResult : Type := {
  releasedLockout : bool;
  previousFailures : Z;
}.

Inductive audit_entry : Type :=
| AUTH_LOCKOUT_TRIGGERED (actor : string) (failures lockedUntil : Z)
| AUTH_LOCKOUT_RELEASED (actor : string) (previousFailures : Z).

Record tracker : Type := {
  records : list (string * FailureRecord);
  audits : list audit_entry;
}.

Definition emptyRecord : FailureRecord :=
  {| failed := 0; firstFailureAt := 0; lastFailureAt := 0; lockedUntil := 0 |}.

Definition zeroAssessment : AccountAssessment :=
  {| isLocked := false; failures := 0; remainingLockoutMs := 0; preDelayMs := 0 |}.

Section Tracker.
Context (config : AccountLockoutConfig) (sha256 : string -> string).

Definition keyFor (raw : string) : option string :=
  let norm := normalizeEmail raw in
  if bool_decide (norm = EmptyString) then None else Some (sha256 norm).

Definition computeDelay (n : Z) : Z :=
  if bool_decide (n <= 0) then 0
  else Z.min (baseDelayMs config * delayMultiplier config ^ (n - 1)) (maxDelayMs config).

(** [record.lockedUntil > 0 && now < record.lockedUntil] *)
Definition locked_at (now : Z) (r : FailureRecord) : bool :=
  bool_decide (0 < lockedUntil r) && bool_decide (now < lockedUntil r).

(** [record.lockedUntil > 0 && now >= record.lockedUntil] *)
Definition lockout_expired (now : Z) (r : FailureRecord) : bool :=
  bool_decide (0 < lockedUntil r) && bool_decide (lockedUntil r <= now).

Definition decayed (now : Z) (r : FailureRecord) : bool :=
  bool_decide (0 < failed r) && bool_decide (0 < lastFailureAt r) &&
  bool_decide (decayWindowMs config < now - lastFailureAt r).

Definition assess (now : Z) (rawEmail : string) (s : tracker) : AccountAssessment :=
  if negb (enabled config) then zeroAssessment
  else match keyFor rawEmail with
       | None => zeroAssessment
       | Some key =>
           match map_get key (records s) with
           | None => zeroAssessment
           | Some r =>
               let locked := locked_at now r in
               let live := if lockout_expired now r then 0
                           else if decayed now r then 0 else failed r in
               {| isLocked := locked; failures := live;
                  remainingLockoutMs := if locked then lockedUntil r - now else 0;
                  preDelayMs := if locked then maxDelayMs config else computeDelay live |}
           end
       end.

Definition refreshInPlace (now : Z) (r : FailureRecord) : FailureRecord :=
  if lockout_expired now r then emptyRecord
  else if decayed now r then emptyRecord else r.

(** The actor of an audit entry: the normalized email, or a placeholder. *)
Definition audit_actor (rawEmail : string) : string :=
  let norm := normalizeEmail rawEmail in
  if bool_decide (norm = EmptyString) then "unknown" else norm.

Definition noFailure : FailureRecordResult :=
  {| isNowLocked := false; fr_failures := 0; waitMs := 0; triggeredLockout := false |}.

Definition recordFailure (now : Z) (rawEmail : string) (s : tracker)
  : FailureRecordResult * tracker :=
  if negb (enabled config) then (noFailure, s)
  else match keyFor rawEmail with
       | None => (noFailure, s)
       | Some key =>
           let r0 := refreshInPlace now (default emptyRecord (map_get key (records s))) in
           if locked_at now r0 then
             ({| isNowLocked := true; fr_failures := failed r0; waitMs := maxDelayMs config;
                 triggeredLockout := false |},
              {| records := map_set key r0 (records s); audits := audits s |})
           else
             let n := failed r0 + 1 in
             let triggered := bool_decide (n = maxFailures config) in
             let r1 :=
               {| failed := n;
                  firstFailureAt := if bool_decide (firstFailureAt r0 = 0) then now
                                    else firstFailureAt r0;
                  lastFailureAt := now;
                  lockedUntil := if triggered then now + lockoutDurationMs config
                                 else lockedUntil r0 |} in
             ({| isNowLocked := locked_at now r1; fr_failures := n;
                 waitMs := if triggered then maxDelayMs config else computeDelay n;
                 triggeredLockout := triggered |},
              {| records := map_set key r1 (records s);
                 audits := if triggered
                           then audits s ++ [AUTH_LOCKOUT_TRIGGERED (audit_actor rawEmail) n (lockedUntil r1)]
                           else audits s |})
       end.

Definition recordSuccess (rawEmail : string) (s : tracker) : SuccessRecordResult * tracker :=
  let none := {| releasedLockout := false; previousFailures := 0 |} in
  if negb (enabled config) then (none, s)
  else match keyFor rawEmail with
       | None => (none, s)
       | Some key =>
           match map_get key (records s) with
           | None => (none, s)
           | Some r =>
               let wasLocked := bool_decide (0 < lockedUntil r) in
               ({| releasedLockout := wasLocked; previousFailures := failed r |},
                {| records := map_delete key (records s);
                   audits := if wasLocked
                             then audits s ++ [AUTH_LOCKOUT_RELEASED (audit_actor rawEmail) (failed r)]
                             else audits s |})
           end
       end.

(** The sweep's own tests: the decay test does not ask for a positive
    [lastFailureAt]. *)
Definition sweepable (now : Z) (r : FailureRecord) : bool :=
  lockout_expired now r ||
  (bool_decide (0 < failed r) && bool_decide (lastFailureAt r < now - decayWindowMs config)).

Definition sweep (now : Z) (s : tracker) : Z * tracker :=
  let '(m, removed) := map_purge_loop (sweepable now) (records s) in
  (removed, {| records := m; audits := audits s |}).

Definition reset (s : tracker) : tracker := {| records := []; audits := audits s |}.

Definition size (s : tracker) : nat := length (records s).

(** ** Operations as events *)

Inductive event : Type :=
| Assess (now : Z) (email : string)
| Failure (now : Z) (email : string)
| Success (now : Z) (email : string)
| Sweep (now : Z).

Definition event_time (e : event) : Z :=
  match e with
  | Assess now _ | Failure now _ | Success now _ | Sweep now => now
  end.

Definition apply_event (e : event) (s : tracker) : tracker :=
  match e with
  | Assess _ _ => s
  | Failure now email => (recordFailure now email s).2
  | Success _ email => (recordSuccess email s).2
  | Sweep now => (sweep now s).2
  end.

Definition run (es : list event) (s : tracker) : tracker := foldl (fun s e => apply_event e s) s es.

Definition succeeds_for (key : string) (e : event) : Prop :=
  match e with
  | Success _ email => keyFor email = Some key
  | _ => False
  end.

(** A record whose lockout was triggered by its last failure. *)
Definition locked_record (r : FailureRecord) : Prop :=
  0 < failed r /\ 0 < lastFailureAt r /\ lockedUntil r = lastFailureAt r + lockoutDurationMs config.

(** ** Lemmas *)

Lemma locked_at_true now r : locked_at now r = true <-> 0 < lockedUntil r /\ now < lockedUntil r.
Proof. unfold locked_at. rewrite andb_true_iff, !bool_decide_eq_true. done. Qed.

Lemma lockout_expired_false now r : now < lockedUntil r -> lockout_expired now r = false.
Proof.
  intros H. unfold lockout_expired. apply andb_false_iff. right.
  apply bool_decide_eq_false. lia.
Qed.

Lemma not_decayed now r : now - lastFailureAt r <= decayWindowMs config -> decayed now r = false.
Proof. intros H. unfold decayed. apply andb_false_iff. right. apply bool_decide_eq_false. lia. Qed.

Lemma refresh_locked now r :
  now < lockedUntil r -> now - lastFailureAt r <= decayWindowMs config -> refreshInPlace now r = r.
Proof. intros H1 H2. unfold refreshInPlace. by rewrite lockout_expired_false, not_decayed. Qed.

Lemma sweepable_locked now r :
  now < lockedUntil r -> now - lastFailureAt r <= decayWindowMs config -> sweepable now r = false.
Proof.
  intros H1 H2. unfold sweepable. rewrite lockout_expired_false by done.
  apply andb_false_iff. right. apply bool_decide_eq_false. lia.
Qed.

Lemma records_failure now email s key :
  keyFor email <> Some key ->
  map_get key (records (recordFailure now email s).2) = map_get key (records s).
Proof.
  intros Hk. unfold recordFailure. destruct (negb _); [done|].
  destruct (keyFor email) as [k|]; [|done]. destruct (locked_at _ _); simpl;
    rewrite map_get_set_ne; congruence.
Qed.

Lemma records_success email s key :
  keyFor email <> Some key ->
  map_get key (records (recordSuccess email s).2) = map_get key (records s).
Proof.
  intros Hk. unfold recordSuccess. destruct (negb _); [done|].
  destruct (keyFor email) as [k|]; [|done]. destruct (map_get k (records s)); [|done].
  simpl. rewrite map_get_delete_ne; congruence.
Qed.

Lemma apply_event_wf e s : wf (records s) -> wf (records (apply_event e s)).
Proof.
  intros Hwf. destruct e as [now email|now email|now email|now]; simpl; [done| | |].
  - unfold recordFailure. destruct (negb _); [done|]. destruct (keyFor email); [|done].
    destruct (locked_at _ _); by apply wf_set.
  - unfold recordSuccess. destruct (negb _); [done|]. destruct (keyFor email) as [k|]; [|done].
    destruct (map_get k (records s)); [|done]. by apply wf_delete.
  - unfold sweep. pose proof (wf_purge (sweepable now) _ Hwf). by destruct (map_purge_loop _ _).
Qed.

(** One event at an instant inside the lockout leaves the locked record as it
    is. *)
Lemma locked_step e s key r :
  lockoutDurationMs config <= decayWindowMs config ->
  wf (records s) -> map_get key (records s) = Some r -> locked_record r ->
  lastFailureAt r <= event_time e < lockedUntil r -> ~ succeeds_for key e ->
  map_get key (records (apply_event e s)) = Some r.
Proof.
  intros Hcfg Hwf Hget (Hf & Hl & Hu) [Hge Hlt] Hns.
  destruct e as [now email|now email|now email|now]; simpl in *; [done| | |].
  - destruct (decide (keyFor email = Some key)) as [Hk|Hk]; [|by rewrite records_failure].
    unfold recordFailure. destruct (negb _); [done|]. rewrite Hk, Hget. simpl.
    rewrite refresh_locked by lia.
    assert (locked_at now r = true) as -> by (apply locked_at_true; lia).
    simpl. apply map_get_set_eq.
  - by rewrite records_success.
  - unfold sweep. pose proof (map_get_purge (sweepable now) (records s) key r Hwf) as H.
    destruct (map_purge_loop _ _) as [m n]. simpl in *. apply H.
    split; [done|]. apply sweepable_locked; lia.
Qed.

(** One failure of a fresh or running streak below the threshold. *)
Lemma failure_counts now email s key k t :
  enabled config = true -> keyFor email = Some key -> 0 < now ->
  (map_get key (records s) = None /\ k = 0) \/
  (exists r, map_get key (records s) = Some r /\ failed r = k /\ lastFailureAt r = t /\
             lockedUntil r = 0 /\ now - t <= decayWindowMs config) ->
  let '(res, s') := recordFailure now email s in
  exists r', map_get key (records s') = Some r' /\ failed r' = k + 1 /\ lastFailureAt r' = now /\
    fr_failures res = k + 1 /\
    if bool_decide (k + 1 = maxFailures config)
    then triggeredLockout res = true /\ lockedUntil r' = now + lockoutDurationMs config /\
         audits s' = audits s ++ [AUTH_LOCKOUT_TRIGGERED (audit_actor email) (k + 1) (lockedUntil r')]
    else triggeredLockout res = false /\ isNowLocked res = false /\ lockedUntil r' = 0 /\
         audits s' = audits s.
Proof.
  intros Hen Hk Hnow Hcase. unfold recordFailure. rewrite Hen, Hk. cbn [negb].
  assert (Hr0 : exists r0, refreshInPlace now (default emptyRecord (map_get key (records s))) = r0 /\
                           failed r0 = k /\ lockedUntil r0 = 0).
  { destruct Hcase as [[Hnone ->]|(r & Hr & Hf & Ht & Hl & Hd)].
    - rewrite Hnone. exists emptyRecord. done.
    - rewrite Hr. exists r. split; [|done]. simpl. unfold refreshInPlace.
      assert (lockout_expired now r = false) as ->.
      { unfold lockout_expired. rewrite Hl. done. }
      by rewrite not_decayed by lia. }
  destruct Hr0 as (r0 & -> & Hf & Hl).
  assert (locked_at now r0 = false) as -> by (unfold locked_at; rewrite Hl; done).
  rewrite Hf, Hl. eexists. split; [apply map_get_set_eq|]. simpl.
  case_bool_decide; simpl; split_and!; done.
Qed.

(** A run of failures for one email, oldest first. *)
Fixpoint failures_at (ts : list Z) (email : string) (s : tracker) : tracker :=
  match ts with
  | [] => s
  | t :: ts' => failures_at ts' email (recordFailure t email s).2
  end.

(** Each attempt comes no later than the decay window after the previous one. *)
Fixpoint paced (prev : Z) (ts : list Z) : Prop :=
  match ts with
  | [] => True
  | t :: ts' => 0 < t /\ t - prev <= decayWindowMs config /\ paced t ts'
  end.

Lemma failures_trigger ts email key s k t0 :
  enabled config = true -> keyFor email = Some key ->
  Z.of_nat (length ts) + k = maxFailures config -> ts <> [] -> paced t0 ts ->
  (map_get key (records s) = None /\ k = 0) \/
  (exists r, map_get key (records s) = Some r /\ failed r = k /\ lastFailureAt r = t0 /\
             lockedUntil r = 0) ->
  exists r, map_get key (records (failures_at ts email s)) = Some r /\
    failed r = maxFailures config /\ lastFailureAt r = List.last ts 0 /\
    lockedUntil r = List.last ts 0 + lockoutDurationMs config /\
    audits (failures_at ts email s) =
      audits s ++ [AUTH_LOCKOUT_TRIGGERED (audit_actor email) (maxFailures config) (lockedUntil r)].
Proof.
  intros Hen Hk. revert s k t0. induction ts as [|t ts IH]; [done|].
  intros s k t0 Hlen _ [Ht [Hd Hp]] Hcase. cbn [failures_at length] in *.
  pose proof (failure_counts t email s key k t0 Hen Hk Ht) as Hstep.
  destruct (recordFailure t email s) as [res s'].
  destruct Hstep as (r' & Hr' & Hf & Hl & _ & Hrest).
  { destruct Hcase as [?|(r & H1 & H2 & H3 & H4)]; [by left|right; exists r; naive_solver]. }
  cbn [snd]. destruct ts as [|t' ts].
  - cbn [length] in Hlen. rewrite bool_decide_eq_true_2 in Hrest by lia.
    destruct Hrest as (_ & Hlu & Hau). exists r'. cbn [failures_at List.last].
    assert (k + 1 = maxFailures config) as <- by lia. done.
  - cbn [length] in Hlen. rewrite bool_decide_eq_false_2 in Hrest by lia.
    destruct Hrest as (_ & _ & Hlu & Hau).
    destruct (IH s' (k + 1) t) as (r & H1 & H2 & H3 & H4 & H5).
    + cbn [length]. lia.
    + done.
    + done.
    + right. eauto.
    + exists r. rewrite Hau in H5. split_and!; done.
Qed.

(** ** Properties *)

(** C15: a lockout holds to its deadline.  With the lockout no longer than the
    decay window, once an account is locked, no failed attempt, check or sweep
    of any account and no success of another account changes its record before
    the deadline: the deadline is never extended or shortened, the account is
    reported locked with the exact remaining time, and a further failure
    triggers no new lockout and writes no audit entry. *)
Theorem lockout_holds es email key r s now :
  enabled config = true -> lockoutDurationMs config <= decayWindowMs config ->
  keyFor email = Some key -> wf (records s) ->
  map_get key (records s) = Some r -> locked_record r ->
  Forall (fun e => lastFailureAt r <= event_time e < lockedUntil r /\ ~ succeeds_for key e) es ->
  lastFailureAt r <= now < lockedUntil r ->
  map_get key (records (run es s)) = Some r /\
  isLocked (assess now email (run es s)) = true /\
  remainingLockoutMs (assess now email (run es s)) = lockedUntil r - now /\
  (let '(res, s') := recordFailure now email (run es s) in
   isNowLocked res = true /\ triggeredLockout res = false /\ waitMs res = maxDelayMs config /\
   audits s' = audits (run es s)).
Proof.
  intros Hen Hcfg Hk Hwf Hget Hlr Hes [Hge Hlt].
  assert (Hrun : map_get key (records (run es s)) = Some r).
  { clear Hge Hlt. revert s Hwf Hget. induction Hes as [|e es [Ht Hns] _ IH]; intros s Hwf Hget; [done|].
    simpl. apply IH; [by apply apply_event_wf|]. by apply locked_step. }
  destruct Hlr as (Hf & Hl & Hu).
  assert (Hlock : locked_at now r = true) by (apply locked_at_true; lia).
  split; [done|]. unfold assess, recordFailure. rewrite Hen, Hk, Hrun. cbn [negb from_option].
  unfold Datatypes.id. rewrite refresh_locked, Hlock by lia. done.
Qed.

(** Exactly the configured number of consecutive failures locks an account.
    A run of maxFailures attempts on an account without history, each within
    the decay window of the previous one, ends locked until the last attempt
    plus the lockout duration and writes exactly one trigger audit entry. *)
Theorem lockout_triggers_once ts email key s :
  enabled config = true -> keyFor email = Some key -> 1 <= maxFailures config ->
  Z.of_nat (length ts) = maxFailures config -> 0 < lockoutDurationMs config ->
  paced (hd 0 ts) ts -> map_get key (records s) = None ->
  let s' := failures_at ts email s in
  let deadline := List.last ts 0 + lockoutDurationMs config in
  isLocked (assess (List.last ts 0) email s') = true /\
  remainingLockoutMs (assess (List.last ts 0) email s') = lockoutDurationMs config /\
  audits s' = audits s ++ [AUTH_LOCKOUT_TRIGGERED (audit_actor email) (maxFailures config) deadline].
Proof.
  intros Hen Hk Hmax Hlen Hdur Hp Hnone. destruct ts as [|t ts]; [simpl in Hlen; lia|].
  destruct (failures_trigger (t :: ts) email key s 0 t) as (r & Hr & Hf & Hl & Hu & Ha);
    [done|done|lia|done|done|by left|].
  assert (Hpos : 0 < List.last (t :: ts) 0).
  { clear -Hp. simpl hd in Hp. revert Hp. generalize t at 1. revert t.
    induction ts as [|t' ts IH]; intros t p (H1 & H2 & H3); [done|].
    change (List.last (t :: t' :: ts) 0) with (List.last (t' :: ts) 0). by eapply IH. }
  cbv zeta. unfold assess. rewrite Hen, Hk, Hr. cbn [negb].
  assert (Hlock : locked_at (List.last (t :: ts) 0) r = true) by (apply locked_at_true; lia).
  rewrite Hlock. cbn [isLocked remainingLockoutMs]. split_and!; [done|lia|].
  by rewrite <- Hu.
Qed.

(** The lockout follows the identity, not its spelling: attempts under any
    two spellings of an email that normalize alike have the same results and
    the same effects, audit entries included. *)
Theorem lockout_by_identity now e1 e2 s :
  normalizeEmail e1 = normalizeEmail e2 ->
  assess now e1 s = assess now e2 s /\
  recordFailure now e1 s = recordFailure now e2 s /\ recordSuccess e1 s = recordSuccess e2 s.
Proof.
  intros Hn. unfold assess, recordFailure, recordSuccess, keyFor, audit_actor. by rewrite Hn.
Qed.

(** The response delay is bounded by the cap, is zero without failures, and
    never decreases from one failure to the next. *)
Theorem computeDelay_curve n m :
  0 <= baseDelayMs config -> 1 <= delayMultiplier config -> 0 <= maxDelayMs config -> n <= m ->
  0 <= computeDelay n <= maxDelayMs config /\ computeDelay n <= computeDelay m /\
  computeDelay 0 = 0.
Proof.
  intros Hb Hm Hmax Hnm.
  assert (Hpos : forall k, 0 <= k -> 0 <= baseDelayMs config * delayMultiplier config ^ k) by
    (intros; apply Z.mul_nonneg_nonneg; [lia|]; apply Z.pow_nonneg; lia).
  unfold computeDelay. split_and!; try done.
  - case_bool_decide; [done|]. specialize (Hpos (n - 1)). lia.
  - case_bool_decide; [done|]. lia.
  - case_bool_decide.
    + case_bool_decide; [lia|]. specialize (Hpos (m - 1)). lia.
    + rewrite bool_decide_eq_false_2 by lia. apply Z.min_le_compat_r.
      apply Z.mul_le_mono_nonneg_l; [done|]. apply Z.pow_le_mono_r; lia.
Qed.

(** When the lockout is configured longer than the decay window, it can be
    ended early by the attacker: a failed attempt made after the decay window
    but before the deadline resets the record, and the account is no longer
    locked. *)
Theorem lockout_ended_by_failure now email key r s :
  enabled config = true -> 1 < maxFailures config -> keyFor email = Some key ->
  map_get key (records s) = Some r -> 0 < failed r -> 0 < lastFailureAt r ->
  decayWindowMs config < now - lastFailureAt r -> now < lockedUntil r ->
  isLocked (assess now email s) = (bool_decide (0 < lockedUntil r)) /\
  let '(res, s') := recordFailure now email s in
  isNowLocked res = false /\ isLocked (assess now email s') = false.
Proof.
  intros Hen Hmax Hk Hget Hf Hl Hdec Hlt.
  assert (Href : refreshInPlace now r = emptyRecord).
  { unfold refreshInPlace, decayed. rewrite lockout_expired_false by done.
    rewrite !bool_decide_eq_true_2 by lia. done. }
  split.
  { unfold assess. rewrite Hen, Hk, Hget. cbn [negb isLocked]. unfold locked_at.
    rewrite (bool_decide_eq_true_2 (now < lockedUntil r)) by done. apply andb_true_r. }
  unfold recordFailure. rewrite Hen, Hk, Hget. cbn [negb from_option]. unfold Datatypes.id. rewrite Href.
  rewrite (bool_decide_eq_false_2 (failed emptyRecord + 1 = maxFailures config)) by (simpl; lia).
  split; [done|]. unfold assess. rewrite Hen, Hk. cbn [negb records]. by rewrite map_get_set_eq.
Qed.

End Tracker.

(** ** Witnesses *)

Definition sample_config : AccountLockoutConfig := DEFAULT_ACCOUNT_LOCKOUT_CONFIG.
Definition sample_hash (s : string) : string := ("h:" +:+ s).
Definition empty_tracker : tracker := {| records := []; audits := [] |}.

(** Five failures in five seconds. *)
Definition locked_tracker : tracker :=
  failures_at sample_config sample_hash [1000; 2000; 3000; 4000; 5000] "Ann@x.io" empty_tracker.

Definition locked_sample : FailureRecord :=
  {| failed := 5; firstFailureAt := 1000; lastFailureAt := 5000; lockedUntil := 905000 |}.

Lemma lockout_holds_witness :
  isLocked (assess sample_config sample_hash 800000 " ann@X.io"
    (run sample_config sample_hash
       [Failure 6000 "ann@x.io"; Success 7000 "bob@x.io"; Sweep 700000] locked_tracker)) = true.
Proof.
  destruct (lockout_holds sample_config sample_hash
    [Failure 6000 "ann@x.io"; Success 7000 "bob@x.io"; Sweep 700000] " ann@X.io" "h:ann@x.io"
    locked_sample locked_tracker 800000) as (_ & H & _).
  - reflexivity.
  - vm_compute. discriminate.
  - vm_compute. reflexivity.
  - vm_compute. repeat constructor; set_solver.
  - vm_compute. reflexivity.
  - vm_compute. auto.
  - repeat constructor; try (vm_compute; congruence).
  - vm_compute. split; congruence.
  - exact H.
Defined.

Lemma lockout_triggers_once_witness :
  isLocked (assess sample_config sample_hash 5000 "Ann@x.io" locked_tracker) = true.
Proof.
  refine (proj1 (lockout_triggers_once sample_config sample_hash [1000; 2000; 3000; 4000; 5000]
    "Ann@x.io" "h:ann@x.io" empty_tracker eq_refl _ _ eq_refl _ _ eq_refl));
    [vm_compute; reflexivity|vm_compute; discriminate|vm_compute; reflexivity|].
  vm_compute. repeat split; congruence.
Defined.

Lemma lockout_by_identity_witness :
  recordFailure sample_config sample_hash 9 "Ann@x.io" empty_tracker =
  recordFailure sample_config sample_hash 9 "  ann@X.IO " empty_tracker.
Proof. apply (lockout_by_identity sample_config sample_hash 9). vm_compute. reflexivity. Defined.

Lemma computeDelay_curve_witness : computeDelay sample_config 2 <= computeDelay sample_config 9.
Proof. apply (computeDelay_curve sample_config); vm_compute; discriminate. Defined.

(** A one-hour lockout with a one-minute decay window. *)
Definition long_lockout : AccountLockoutConfig :=
  {| enabled := true; maxFailures := 2; decayWindowMs := 60000; lockoutDurationMs := 3600000;
     baseDelayMs := 250; delayMultiplier := 2; maxDelayMs := 5000 |}.

Lemma lockout_ended_by_failure_witness :
  let s := failures_at long_lockout sample_hash [1000; 2000] "ann@x.io" empty_tracker in
  isLocked (assess long_lockout sample_hash 70000 "ann@x.io" s) = true /\
  isNowLocked (recordFailure long_lockout sample_hash 70000 "ann@x.io" s).1 = false.
Proof.
  cbv zeta.
  pose proof (lockout_ended_by_failure long_lockout sample_hash 70000 "ann@x.io" "h:ann@x.io"
    {| failed := 2; firstFailureAt := 1000; lastFailureAt := 2000; lockedUntil := 3602000 |}
    (failures_at long_lockout sample_hash [1000; 2000] "ann@x.io" empty_tracker)
    eq_refl ltac:(vm_compute; reflexivity) ltac:(vm_compute; reflexivity) ltac:(vm_compute; reflexivity)
    ltac:(reflexivity) ltac:(reflexivity) ltac:(vm_compute; reflexivity) ltac:(vm_compute; reflexivity)) as [H1 H2].
  split; [rewrite H1; reflexivity|].
  destruct (recordFailure _ _ _ _ _) as [res s']. apply H2.
Defined.

End Lockout.
