(* ===== verification/RateLimiter.v ===== *)
(** * Rate limiting: src/lib/rateLimitStore.ts and src/middleware/rateLimiter.ts

    The store keeps fixed-window counters and token buckets in two Maps keyed by
    the SHA-256 of the raw key; the hash function is an argument.  The
    middleware is a function from a request (its key and the instant it
    arrives) to its response; it mutates the counter entry it read in place,
    which is the write to the same key.  [Math.ceil(x / 1000)] on milliseconds
    is [ceil_sec]. *)

From stdpp Require Import prelude strings.
From Stdlib Require Import ZArith Lia.
From S2P Require Import Prelude JsMap JsValue.
Open Scope Z_scope.

Module RateLimit.

Record RateLimitEntry : Type := {
  count : Z;
  windowStart : Z;
  blocked : bool;
  blockedUntil : Z;
}.

(** [queue] holds the identities of the waiting callbacks. *)
Record TokenBucketEntry : Type := {
  tokens : number;
  lastRefillMs : Z;
  queue : list nat;
}.

Record RateLimitStore : Type := {
  counters : list (string * RateLimitEntry);
  tokenBuckets : list (string * TokenBucketEntry);
  destroyed : bool;
}.

Record AbuseRecord : Type := {
  violations : Z;
  firstViolation : Z;
  blockDuration : Z;
}.

Record RateLimiterConfig : Type := {
  maxRequests : Z;
  windowMs : Z;
  abuseThreshold : Z;
  blockWindowMs : Z;
  blockDurationMs : Z;
  maxBlockDurationMs : Z;
}.

Definition default_config : RateLimiterConfig :=
  {| maxRequests := 100; windowMs := 60000; abuseThreshold := 5; blockWindowMs := 300000;
     blockDurationMs := 600000; maxBlockDurationMs := 86400000 |}.

(** What the middleware does with a request: it calls [next()], answers 429
    because the key is hard-blocked (with the block's duration when this request
    caused it), or answers 429 for exceeding the window. *)
Inductive response : Type :=
| Next (remaining resetSec : Z)
| StillBlocked (retryAfterSec : Z)
| NowBlocked (duration retryAfterSec : Z)
| Limited (retryAfterSec : Z).

Definition admitted (r : response) : bool := match r with Next _ _ => true | _ => false end.

Definition ceil_sec (ms : Z) : Z := - ((- ms) / 1000).

Section Store.
Context (hashKey : string -> string).

Definition get (rawKey : string) (s : RateLimitStore) : option RateLimitEntry :=
  map_get (hashKey rawKey) (counters s).

Definition set (rawKey : string) (e : RateLimitEntry) (s : RateLimitStore) : RateLimitStore :=
  {| counters := map_set (hashKey rawKey) e (counters s);
     tokenBuckets := tokenBuckets s; destroyed := destroyed s |}.

Definition delete (rawKey : string) (s : RateLimitStore) : RateLimitStore :=
  {| counters := map_delete (hashKey rawKey) (counters s);
     tokenBuckets := map_delete (hashKey rawKey) (tokenBuckets s); destroyed := destroyed s |}.

Definition getTokenBucket (rawKey : string) (s : RateLimitStore) : option TokenBucketEntry :=
  map_get (hashKey rawKey) (tokenBuckets s).

Definition setTokenBucket (rawKey : string) (e : TokenBucketEntry) (s : RateLimitStore)
  : RateLimitStore :=
  {| counters := counters s; tokenBuckets := map_set (hashKey rawKey) e (tokenBuckets s);
     destroyed := destroyed s |}.

Definition size (s : RateLimitStore) : nat := length (counters s).
Definition tokenBucketSize (s : RateLimitStore) : nat := length (tokenBuckets s).

Definition sweepable (now w : Z) (e : RateLimitEntry) : bool :=
  bool_decide (w < now - windowStart e) &&
  (negb (blocked e) || bool_decide (blockedUntil e < now)).

Definition sweep (now w : Z) (s : RateLimitStore) : RateLimitStore :=
  if destroyed s then s
  else {| counters := (map_purge_loop (sweepable now w) (counters s)).1;
          tokenBuckets := tokenBuckets s; destroyed := destroyed s |}.

Definition clear (s : RateLimitStore) : RateLimitStore :=
  {| counters := []; tokenBuckets := []; destroyed := destroyed s |}.

Definition destroy (s : RateLimitStore) : RateLimitStore :=
  {| counters := []; tokenBuckets := []; destroyed := true |}.

(** ** The middleware *)

Record limiter : Type := {
  store : RateLimitStore;
  abuseMap : list (string * AbuseRecord);
}.

Context (cfg : RateLimiterConfig).

(** The counter after this request, with the window rolled when it elapsed. *)
Definition bump (now : Z) (existing : option RateLimitEntry) : RateLimitEntry :=
  let entry := default {| count := 0; windowStart := now; blocked := false; blockedUntil := 0 |} existing in
  let rolled := bool_decide (windowMs cfg < now - windowStart entry) in
  {| count := (if rolled then 0 else count entry) + 1;
     windowStart := if rolled then now else windowStart entry;
     blocked := blocked entry; blockedUntil := blockedUntil entry |}.

(** The violation record after this violation. *)
Definition violate (now : Z) (existing : option AbuseRecord) : AbuseRecord :=
  let fresh := {| violations := 0; firstViolation := now; blockDuration := blockDurationMs cfg |} in
  let a := default fresh existing in
  let a := if bool_decide (blockWindowMs cfg < now - firstViolation a) then fresh else a in
  {| violations := violations a + 1; firstViolation := firstViolation a;
     blockDuration := blockDuration a |}.

Definition set_block (e : RateLimitEntry) (until : Z) : RateLimitEntry :=
  {| count := count e; windowStart := windowStart e; blocked := true; blockedUntil := until |}.

Definition double_block (a : AbuseRecord) : AbuseRecord :=
  {| violations := violations a; firstViolation := firstViolation a;
     blockDuration := Z.min (blockDuration a * 2) (maxBlockDurationMs cfg) |}.

(** The part of the middleware after the hard-block check. *)
Definition count_request (now : Z) (rawKey : string) (s : limiter) : response * limiter :=
  let key := hashKey rawKey in
  let entry := bump now (get rawKey (store s)) in
  let store1 := set rawKey entry (store s) in
  let resetSec := ceil_sec (windowStart entry + windowMs cfg - now) in
  if bool_decide (maxRequests cfg < count entry) then
    let abuse := violate now (map_get key (abuseMap s)) in
    if bool_decide (abuseThreshold cfg <= violations abuse) then
      let duration := Z.min (blockDuration abuse) (maxBlockDurationMs cfg) in
      (NowBlocked duration (ceil_sec duration),
       {| store := set rawKey (set_block entry (now + duration)) store1;
          abuseMap := map_set key (double_block abuse) (abuseMap s) |})
    else
      (Limited resetSec, {| store := store1; abuseMap := map_set key abuse (abuseMap s) |})
  else
    (Next (Z.max 0 (maxRequests cfg - count entry)) resetSec,
     {| store := store1; abuseMap := abuseMap s |}).

Definition rateLimiterMiddleware (now : Z) (rawKey : string) (s : limiter) : response * limiter :=
  match get rawKey (store s) with
  | Some existing =>
      if blocked existing then
        if bool_decide (now < blockedUntil existing)
        then (StillBlocked (ceil_sec (blockedUntil existing - now)), s)
        else count_request now rawKey
               {| store := delete rawKey (store s);
                  abuseMap := map_delete (hashKey rawKey) (abuseMap s) |}
      else count_request now rawKey s
  | None => count_request now rawKey s
  end.

(** ** Runs: requests of any keys and background sweeps *)

Inductive event : Type :=
| Request (now : Z) (rawKey : string)
| SweepTick (now w : Z).

Definition event_time (e : event) : Z :=
  match e with Request now _ | SweepTick now _ => now end.

Definition apply_event (e : event) (s : limiter) : option response * limiter :=
  match e with
  | Request now k => let '(r, s') := rateLimiterMiddleware now k s in (Some r, s')
  | SweepTick now w => (None, {| store := sweep now w (store s); abuseMap := abuseMap s |})
  end.

(** The responses of a run, with the hashed key of each. *)
Fixpoint run (es : list event) (s : limiter) : list (string * response) * limiter :=
  match es with
  | [] => ([], s)
  | e :: es' =>
      let '(r, s1) := apply_event e s in
      let '(rs, s2) := run es' s1 in
      (match e, r with
       | Request _ k, Some r => (hashKey k, r) :: rs
       | _, _ => rs
       end, s2)
  end.

Definition admitted_for (h : string) (rs : list (string * response)) : Z :=
  Z.of_nat (length (filter (fun p => p.1 = h /\ admitted p.2 = true) rs)).

Definition lookup (h : string) (s : limiter) : option RateLimitEntry := map_get h (counters (store s)).

(** ** Lemmas *)

Lemma lookup_other now k h s :
  hashKey k <> h -> lookup h (rateLimiterMiddleware now k s).2 = lookup h s.
Proof.
  intros Hne. unfold rateLimiterMiddleware, lookup.
  assert (Hc : forall s, map_get h (counters (store (count_request now k s).2)) =
                         map_get h (counters (store s))).
  { intros s0. unfold count_request.
    case_bool_decide; [case_bool_decide|]; simpl; by rewrite !map_get_set_ne. }
  destruct (get k (store s)) as [e|]; [|by rewrite Hc]. destruct (blocked e); [|by rewrite Hc].
  case_bool_decide; [done|]. rewrite Hc. simpl. by rewrite map_get_delete_ne.
Qed.

(** The shortest block the middleware can impose. *)
Definition base_block : Z := Z.min (blockDurationMs cfg) (maxBlockDurationMs cfg).

(** How a request that passes the hard-block check moves its counter. *)
Lemma count_request_cases now k s :
  let e := bump now (get k (store s)) in
  let a := violate now (map_get (hashKey k) (abuseMap s)) in
  let '(r, s') := count_request now k s in
  (count e <= maxRequests cfg /\ admitted r = true /\ lookup (hashKey k) s' = Some e /\
   abuseMap s' = abuseMap s) \/
  (maxRequests cfg < count e /\ violations a < abuseThreshold cfg /\
   (exists sec, r = Limited sec) /\ lookup (hashKey k) s' = Some e /\
   abuseMap s' = map_set (hashKey k) a (abuseMap s)) \/
  (maxRequests cfg < count e /\ abuseThreshold cfg <= violations a /\
   let d := Z.min (blockDuration a) (maxBlockDurationMs cfg) in
   r = NowBlocked d (ceil_sec d) /\ lookup (hashKey k) s' = Some (set_block e (now + d)) /\
   abuseMap s' = map_set (hashKey k) (double_block a) (abuseMap s)).
Proof.
  cbv zeta. unfold count_request, lookup.
  generalize (bump now (get k (store s))) as e. intros e.
  generalize (violate now (map_get (hashKey k) (abuseMap s))) as a. intros a.
  case_bool_decide; [case_bool_decide|]; cbn -[map_get map_set Z.min].
  - right; right. rewrite map_get_set_eq. done.
  - right; left. rewrite map_get_set_eq. split_and!; eauto with lia.
  - left. rewrite map_get_set_eq. split_and!; eauto with lia.
Qed.

(** The counter entry of a key that is read again within its window. *)
Lemma bump_in_window now e :
  now - windowStart e <= windowMs cfg ->
  count (bump now (Some e)) = count e + 1 /\ windowStart (bump now (Some e)) = windowStart e /\
  blocked (bump now (Some e)) = blocked e.
Proof. intros H. unfold bump. simpl. rewrite bool_decide_eq_false_2 by lia. done. Qed.

Lemma sweep_lookup now w h s :
  wf (counters (store s)) ->
  lookup h {| store := sweep now w (store s); abuseMap := abuseMap s |} = lookup h s \/
  exists e, lookup h s = Some e /\ sweepable now w e = true /\ destroyed (store s) = false /\
    lookup h {| store := sweep now w (store s); abuseMap := abuseMap s |} = None.
Proof.
  intros Hwf. unfold lookup, sweep. simpl. destruct (destroyed (store s)); [by left|]. simpl.
  destruct (map_get h (counters (store s))) as [e|] eqn:He.
  - destruct (sweepable now w e) eqn:Es.
    + right. exists e. split_and!; try done.
      destruct (map_get h (map_purge_loop (sweepable now w) (counters (store s))).1) as [e'|] eqn:E; [|done].
      apply (map_get_purge (sweepable now w)) in E as [E1 E2]; [|done]. congruence.
    + left. by apply (map_get_purge (sweepable now w)).
  - left. destruct (map_get h (map_purge_loop (sweepable now w) (counters (store s))).1) as [e'|] eqn:E; [|done].
    apply (map_get_purge (sweepable now w)) in E as [E1 _]; [|done]. congruence.
Qed.

Lemma limiter_event_wf e s : wf (counters (store s)) -> wf (counters (store (apply_event e s).2)).
Proof.
  intros Hwf. destruct e as [now k|now w]; cbn [apply_event].
  - assert (Hc : forall s, wf (counters (store s)) -> wf (counters (store (count_request now k s).2))).
    { intros s0 H0. unfold count_request. case_bool_decide; [case_bool_decide|]; simpl;
        repeat apply wf_set; done. }
    unfold rateLimiterMiddleware.
    destruct (get k (store s)) as [e|]; [|specialize (Hc s Hwf); by destruct (count_request _ _ _)].
    destruct (blocked e); [|specialize (Hc s Hwf); by destruct (count_request _ _ _)].
    case_bool_decide; [done|].
    match goal with |- context [count_request now k ?s'] =>
      specialize (Hc s' ltac:(by apply wf_delete)); by destruct (count_request now k s') end.
  - simpl. unfold sweep. destruct (destroyed _); [done|]. by apply wf_purge.
Qed.

Lemma abuse_other now k h s :
  hashKey k <> h -> map_get h (abuseMap (rateLimiterMiddleware now k s).2) = map_get h (abuseMap s).
Proof.
  intros Hne. unfold rateLimiterMiddleware.
  assert (Hc : forall s, map_get h (abuseMap (count_request now k s).2) = map_get h (abuseMap s)).
  { intros s0. unfold count_request.
    case_bool_decide; [case_bool_decide|]; simpl; by rewrite ?map_get_set_ne. }
  destruct (get k (store s)) as [e|]; [|by rewrite Hc]. destruct (blocked e); [|by rewrite Hc].
  case_bool_decide; [done|]. rewrite Hc. simpl. by rewrite map_get_delete_ne.
Qed.

(** Requests of one key in a list of events. *)
Definition is_request (h : string) (e : event) : bool :=
  match e with Request _ k => bool_decide (hashKey k = h) | _ => false end.

Definition requests_for (h : string) (es : list event) : Z :=
  Z.of_nat (length (filter (fun e => is_request h e = true) es)).

(** Every event lies in one window, and sweeps use at least the limiter's own
    window. *)
Definition in_window (t0 : Z) (e : event) : Prop :=
  t0 <= event_time e <= t0 + windowMs cfg /\
  match e with SweepTick _ w => windowMs cfg <= w | _ => True end.

(** The invariant inside one window: [q] requests of the key so far. *)
Definition counted (h : string) (t0 q : Z) (s : limiter) : Prop :=
  wf (counters (store s)) /\
  (forall a, map_get h (abuseMap s) = Some a -> base_block <= blockDuration a) /\
  match lookup h s with
  | None => q = 0
  | Some e => t0 <= windowStart e /\ 1 <= count e <= q /\
      (blocked e = false -> count e = q) /\
      (blocked e = true -> maxRequests cfg < count e /\ t0 + windowMs cfg < blockedUntil e)
  end.

Section Window.
Hypothesis Hmax : 0 <= maxRequests cfg.
Hypothesis Hwindow : 0 <= windowMs cfg.
Hypothesis Hblock : windowMs cfg < base_block.

Lemma violate_duration now o :
  (forall a, o = Some a -> base_block <= blockDuration a) ->
  base_block <= blockDuration (violate now o).
Proof.
  intros Ho. unfold violate. destruct o as [a|]; simpl.
  - case_bool_decide; simpl; [unfold base_block; lia|]. by apply Ho.
  - case_bool_decide; simpl; unfold base_block; lia.
Qed.

Lemma counted_request h t0 q now k s :
  counted h t0 q s -> hashKey k = h -> t0 <= now <= t0 + windowMs cfg ->
  let '(r, s') := rateLimiterMiddleware now k s in
  counted h t0 (q + 1) s' /\ admitted r = bool_decide (q + 1 <= maxRequests cfg).
Proof.
  intros (Hwf & Hab & Hq) Hk Hnow.
  pose proof (limiter_event_wf (Request now k) s Hwf) as Hwf'. cbn [apply_event] in Hwf'.
  assert (Hcr : (forall e, lookup h s = Some e -> blocked e = false) ->
    let '(r, s') := count_request now k s in
    wf (counters (store s')) ->
    counted h t0 (q + 1) s' /\ admitted r = bool_decide (q + 1 <= maxRequests cfg)).
  { intros Hnb. pose proof (count_request_cases now k s) as Hc. cbv zeta in Hc.
    assert (He : count (bump now (get k (store s))) = q + 1 /\ 1 <= q + 1 /\
                 t0 <= windowStart (bump now (get k (store s))) /\
                 blocked (bump now (get k (store s))) = false).
    { unfold get. rewrite Hk. change (map_get h (counters (store s))) with (lookup h s).
      destruct (lookup h s) as [e|] eqn:El.
      - destruct Hq as (H1 & H2 & H3 & _).
        destruct (bump_in_window now e ltac:(lia)) as (-> & -> & ->).
        specialize (Hnb e eq_refl). rewrite H3 by done. split_and!; [lia|lia|lia|done].
      - subst q. unfold bump. simpl. rewrite bool_decide_eq_false_2 by lia. simpl. split_and!; lia || done. }
    pose proof (violate_duration now (map_get h (abuseMap s)) Hab) as Hd.
    revert Hc He. rewrite Hk. generalize (bump now (get k (store s))) as e. intros e.
    revert Hd. generalize (violate now (map_get h (abuseMap s))) as a. intros a Hd.
    destruct (count_request now k s) as [r s']. intros Hc (He1 & He2 & He3 & He4) Hwf1.
    unfold counted.
    destruct Hc as [(Hle & Hr & Hl & Ha)|[(Hgt & _ & (sec & ->) & Hl & Ha)|(Hgt & _ & -> & Hl & Ha)]];
      rewrite Hl; cbn [admitted count windowStart blocked blockedUntil set_block].
    - rewrite Hr, Ha. split; [split_and!; try done; try lia; rewrite He4; done|].
      symmetry. apply bool_decide_eq_true. lia.
    - split; [split_and!; try done; try lia|symmetry; apply bool_decide_eq_false; lia].
      + rewrite Ha. intros a'. rewrite map_get_set_eq. by intros [= <-].
      + rewrite He4. done.
    - split; [split_and!; try done; try lia|symmetry; apply bool_decide_eq_false; lia].
      + rewrite Ha. intros a'. rewrite map_get_set_eq. intros [= <-]. simpl. unfold base_block in *. lia.
      + intros _. assert (base_block <= Z.min (blockDuration a) (maxBlockDurationMs cfg))
          by (unfold base_block in *; lia). split; lia. }
  unfold rateLimiterMiddleware in *. unfold get at 1. unfold get at 1 in Hwf'. rewrite Hk in *.
  change (map_get h (counters (store s))) with (lookup h s) in *.
  destruct (lookup h s) as [e|] eqn:El.
  2: { destruct (count_request now k s) as [r s']. apply Hcr; [done|]. exact Hwf'. }
  destruct (blocked e) eqn:Eb.
  2: { destruct (count_request now k s) as [r s']. apply Hcr; [|exact Hwf']. by intros ? [= <-]. }
  destruct Hq as (H1 & H2 & H3 & H4). destruct (H4 eq_refl) as [H5 H6].
  rewrite bool_decide_eq_true_2 by lia. split.
  - split; [done|]. split; [done|]. rewrite El. split_and!; lia || congruence || done.
  - symmetry. apply bool_decide_eq_false. lia.
Qed.

Lemma counted_other h t0 q e s :
  counted h t0 q s -> in_window t0 e ->
  match e with Request _ k => hashKey k <> h | _ => True end ->
  counted h t0 q (apply_event e s).2.
Proof.
  intros (Hwf & Hab & Hq) [Ht Hw] Hne. pose proof (limiter_event_wf e s Hwf) as Hwf'.
  destruct e as [now k|now w]; cbn [apply_event] in *.
  - pose proof (lookup_other now k h s Hne) as Hl. pose proof (abuse_other now k h s Hne) as Ha.
    destruct (rateLimiterMiddleware now k s) as [r s']. cbn [snd] in *.
    split; [done|]. split; [by rewrite Ha|]. by rewrite Hl.
  - cbn [snd] in *. split; [done|]. split; [done|].
    destruct (sweep_lookup now w h s Hwf) as [->|(e & He & Hs & _ & _)]; [done|].
    exfalso. rewrite He in Hq. unfold sweepable in Hs. bool_to_prop. simpl in Ht. lia.
Qed.

Lemma counted_run h t0 es q s :
  counted h t0 q s -> Forall (in_window t0) es ->
  admitted_for h (run es s).1 =
  Z.min (q + requests_for h es) (maxRequests cfg) - Z.min q (maxRequests cfg).
Proof.
  intros Hc Hes. revert q s Hc. induction Hes as [|e es He _ IH]; intros q s Hc.
  { unfold admitted_for, requests_for. rewrite !filter_nil. simpl. lia. }
  cbn [run]. unfold requests_for. rewrite filter_cons.
  destruct e as [now k|now w].
  - destruct (decide (hashKey k = h)) as [Hk|Hk].
    + rewrite decide_True by (by apply bool_decide_eq_true).
      pose proof (counted_request h t0 q now k s Hc Hk ltac:(apply He)) as Hreq.
      cbn [apply_event]. destruct (rateLimiterMiddleware now k s) as [r s'].
      destruct Hreq as [Hc' Hadm]. specialize (IH (q + 1) s' Hc'). destruct (run es s') as [rs s2].
      cbn [fst] in *. unfold admitted_for in *. rewrite filter_cons. cbn [fst snd].
      unfold requests_for in IH. cbn [length]. rewrite Nat2Z.inj_succ.
      destruct (decide (hashKey k = h /\ admitted r = true)) as [Hd|Hd].
      * destruct Hd as [_ Hd]. rewrite Hadm in Hd. bool_to_prop. cbn [length]. lia.
      * assert (admitted r = false) as Hf by (destruct (admitted r); naive_solver).
        rewrite Hadm in Hf. bool_to_prop. lia.
    + rewrite decide_False by (intros ?%bool_decide_eq_true; done).
      pose proof (counted_other h t0 q (Request now k) s Hc He Hk) as Hc'. cbn [apply_event] in *.
      destruct (rateLimiterMiddleware now k s) as [r s']. cbn [snd] in Hc'.
      specialize (IH q s' Hc'). destruct (run es s') as [rs s2]. cbn [fst] in *.
      unfold admitted_for in *. rewrite filter_cons. cbn [fst snd].
      rewrite decide_False by naive_solver. exact IH.
  - rewrite decide_False by done.
    pose proof (counted_other h t0 q (SweepTick now w) s Hc He I) as Hc'. cbn [apply_event snd] in *.
    specialize (IH q _ Hc'). destruct (run es _) as [rs s2]. exact IH.
Qed.


End Window.

(** ** Block durations *)

(** A violation record whose doubled duration can still be used would need its
    key to be neither blocked nor past the violation window. *)
Definition undoubled (t : Z) (h : string) (s : limiter) (a : AbuseRecord) : Prop :=
  firstViolation a <= t /\
  (blockDuration a = blockDurationMs cfg \/
   (exists e, lookup h s = Some e /\ blocked e = true /\ firstViolation a + base_block <= blockedUntil e) \/
   firstViolation a + base_block <= t).

Definition never_doubled (t : Z) (s : limiter) : Prop :=
  wf (counters (store s)) /\
  forall h a, map_get h (abuseMap s) = Some a -> undoubled t h s a.

Hypothesis Hviolation : blockWindowMs cfg < base_block.

Lemma violate_undoubled now t h s o :
  t <= now -> (forall a, o = Some a -> undoubled t h s a) ->
  (forall e, lookup h s = Some e -> blocked e = false) ->
  blockDuration (violate now o) = blockDurationMs cfg /\ firstViolation (violate now o) <= now.
Proof.
  intros Ht Ho Hnb. unfold violate. destruct o as [a|]; simpl.
  - destruct (Ho a eq_refl) as [Hf [Hd|[(e & He & Hb & _)|Hpast]]].
    + case_bool_decide; simpl; split; lia || done.
    + specialize (Hnb e He). congruence.
    + rewrite bool_decide_eq_true_2 by lia. simpl. split; lia.
  - case_bool_decide; simpl; split; lia.
Qed.

Lemma never_doubled_count now t k s :
  t <= now -> never_doubled t s -> (forall e, lookup (hashKey k) s = Some e -> blocked e = false) ->
  let '(r, s') := count_request now k s in
  wf (counters (store s')) -> (forall h, hashKey k <> h -> lookup h s' = lookup h s) ->
  never_doubled now s' /\ (forall d sec, r = NowBlocked d sec -> d = base_block).
Proof.
  intros Ht [Hwf Hab] Hnb. pose proof (count_request_cases now k s) as Hc. cbv zeta in Hc.
  pose proof (violate_undoubled now t (hashKey k) s (map_get (hashKey k) (abuseMap s)) Ht
    (Hab (hashKey k)) Hnb) as [Hd Hf].
  revert Hc Hd Hf. generalize (violate now (map_get (hashKey k) (abuseMap s))) as a.
  generalize (bump now (get k (store s))) as e. intros e a.
  destruct (count_request now k s) as [r s']. intros Hc Hd Hf Hwf' Hother.
  assert (Hold : forall h b, hashKey k <> h -> map_get h (abuseMap s) = Some b -> undoubled now h s' b).
  { intros h b Hne Hb. destruct (Hab h b Hb) as [H1 H2]. split; [lia|]. rewrite Hother by done.
    destruct H2 as [?|[?|?]]; [by left|by right; left|right; right; lia]. }
  destruct Hc as [(_ & Hr & Hl & Ha)|[(_ & _ & (sec & ->) & Hl & Ha)|(_ & _ & -> & Hl & Ha)]].
  - split; [split; [done|]|by intros d sec ->]. rewrite Ha. intros h b Hb.
    destruct (decide (hashKey k = h)) as [<-|Hne]; [|by apply Hold].
    destruct (Hab _ b Hb) as [H1 [H2|[(e' & He' & Hb' & _)|H2]]].
    + split; [lia|by left].
    + specialize (Hnb e' He'). congruence.
    + split; [lia|]. right; right. lia.
  - split; [split; [done|]|done]. rewrite Ha. intros h b Hb.
    destruct (decide (hashKey k = h)) as [<-|Hne].
    + rewrite map_get_set_eq in Hb. injection Hb as <-. split; [lia|by left].
    + rewrite map_get_set_ne in Hb by done. by apply Hold.
  - split; [split; [done|]|intros d sec [= <- _]; rewrite Hd; done]. rewrite Ha. intros h b Hb.
    destruct (decide (hashKey k = h)) as [<-|Hne].
    + rewrite map_get_set_eq in Hb. injection Hb as <-. split; [exact Hf|]. right; left.
      exists (set_block e (now + Z.min (blockDuration a) (maxBlockDurationMs cfg))).
      split_and!; [done|done|]. simpl. rewrite Hd. unfold base_block. lia.
    + rewrite map_get_set_ne in Hb by done. by apply Hold.
Qed.

Lemma never_doubled_mono t now s : t <= now -> never_doubled t s -> never_doubled now s.
Proof.
  intros Ht [Hwf Hab]. split; [done|]. intros h a Ha. destruct (Hab h a Ha) as [H1 H2].
  split; [lia|]. destruct H2 as [?|[?|?]]; [by left|by right; left|right; right; lia].
Qed.

Lemma never_doubled_event t e s :
  t <= event_time e -> never_doubled t s ->
  never_doubled (event_time e) (apply_event e s).2 /\
  (forall d sec, (apply_event e s).1 = Some (NowBlocked d sec) -> d = base_block).
Proof.
  intros Ht Hnd. pose proof Hnd as [Hwf Hab]. pose proof (limiter_event_wf e s Hwf) as Hwf'.
  destruct e as [now k|now w]; cbn [apply_event event_time] in *.
  - assert (Hother : forall h, hashKey k <> h -> lookup h (rateLimiterMiddleware now k s).2 = lookup h s)
      by (intros; by apply lookup_other).
    unfold rateLimiterMiddleware in *. unfold get at 1 in Hwf'. unfold get at 1 in Hother. unfold get at 1 2.
    change (map_get (hashKey k) (counters (store s))) with (lookup (hashKey k) s) in *.
    destruct (lookup (hashKey k) s) as [e|] eqn:El.
    2: { pose proof (never_doubled_count now t k s Ht Hnd) as H.
         destruct (count_request now k s) as [r s']. destruct H as [H1 H2]; [intros ? ?; congruence|done|done|].
         split; [done|]. intros d sec [= ->]. by apply (H2 d sec). }
    destruct (blocked e) eqn:Eb.
    2: { pose proof (never_doubled_count now t k s Ht Hnd) as H.
         destruct (count_request now k s) as [r s'].
         destruct H as [H1 H2]; [intros ? ?; congruence|done|done|].
         split; [done|]. intros d sec [= ->]. by apply (H2 d sec). }
    destruct (bool_decide (now < blockedUntil e)); [split; [by eapply never_doubled_mono|done]|].
    set (s1 := {| store := delete k (store s); abuseMap := map_delete (hashKey k) (abuseMap s) |}) in *.
    assert (Hl1 : lookup (hashKey k) s1 = None) by apply map_get_delete_eq.
    assert (Hnd1 : never_doubled t s1).
    { split; [by apply wf_delete|]. intros h a Ha. simpl in Ha.
      destruct (decide (hashKey k = h)) as [<-|Hne]; [by rewrite map_get_delete_eq in Ha|].
      rewrite map_get_delete_ne in Ha by done. destruct (Hab h a Ha) as [H1 H2]. split; [done|].
      destruct H2 as [?|[(e' & He' & H3)|?]]; [by left|right; left|by right; right].
      exists e'. split; [|done]. unfold lookup, s1. simpl. by rewrite map_get_delete_ne. }
    assert (Hoth1 : forall h, hashKey k <> h -> lookup h (count_request now k s1).2 = lookup h s1).
    { intros h Hne. rewrite Hother by done. unfold lookup, s1. simpl. by rewrite map_get_delete_ne. }
    pose proof (never_doubled_count now t k s1 Ht Hnd1) as H.
    destruct (count_request now k s1) as [r s']. destruct H as [H1 H2]; [intros ? ?; congruence|done|done|].
    split; [done|]. intros d sec [= ->]. by apply (H2 d sec).
  - cbn [fst snd] in *. split; [|done]. split; [done|]. intros h a Ha.
    destruct (Hab h a Ha) as [H1 H2]. split; [lia|].
    destruct H2 as [?|[(e & He & Hb & Hu)|?]]; [by left| |right; right; lia].
    destruct (sweep_lookup now w h s Hwf) as [Hs|(e' & He' & Hsw & _ & _)].
    + right; left. exists e. by rewrite Hs.
    + right; right. assert (e' = e) as -> by congruence. unfold sweepable in Hsw.
      rewrite Hb in Hsw. simpl in Hsw. bool_to_prop. lia.
Qed.

(** Events in the order of the clock. *)
Fixpoint chronological (t : Z) (es : list event) : Prop :=
  match es with
  | [] => True
  | e :: es' => t <= event_time e /\ chronological (event_time e) es'
  end.

(** ** Properties *)

(** C14: inside one window the limiter admits exactly the first maxRequests
    requests of a key and no other.  For a key without state, with blocks longer
    than the window and sweeps that respect the window, in any interleaving with
    other keys, the number of admitted requests is the number of requests or
    maxRequests, whichever is smaller. *)
Theorem window_limit_exact h t0 es s :
  0 <= maxRequests cfg -> 0 <= windowMs cfg -> windowMs cfg < base_block ->
  wf (counters (store s)) -> lookup h s = None -> map_get h (abuseMap s) = None ->
  Forall (in_window t0) es ->
  admitted_for h (run es s).1 = Z.min (requests_for h es) (maxRequests cfg).
Proof.
  intros Hmax Hwin Hblk Hwf Hl Ha Hes.
  assert (Hc : counted h t0 0 s).
  { split; [done|]. split; [by rewrite Ha|]. by rewrite Hl. }
  rewrite (counted_run Hmax Hwin Hblk h t0 es 0 s Hc Hes). lia.
Qed.

(** A hard block holds until it expires: before that instant every request
    of the key is refused, and neither requests nor sweeps shorten or extend
    the block. *)
Theorem hard_block_holds h e es s :
  wf (counters (store s)) -> lookup h s = Some e -> blocked e = true ->
  Forall (fun ev => event_time ev < blockedUntil e) es ->
  lookup h (run es s).2 = Some e /\ admitted_for h (run es s).1 = 0.
Proof.
  intros Hwf Hl Hb Hes. revert s Hwf Hl. induction Hes as [|ev es Hev _ IH]; intros s Hwf Hl.
  { split; [done|]. reflexivity. }
  cbn [run]. pose proof (limiter_event_wf ev s Hwf) as Hwf'.
  destruct ev as [now k|now w]; cbn [apply_event event_time] in *.
  - destruct (decide (hashKey k = h)) as [Hk|Hne].
    + assert (Hr : rateLimiterMiddleware now k s = (StillBlocked (ceil_sec (blockedUntil e - now)), s)).
      { unfold rateLimiterMiddleware, get. rewrite Hk.
        change (map_get h (counters (store s))) with (lookup h s). rewrite Hl, Hb.
        by rewrite bool_decide_eq_true_2. }
      rewrite Hr. destruct (IH s Hwf Hl) as [H1 H2]. destruct (run es s) as [rs s2]. cbn [fst snd] in *.
      split; [done|]. unfold admitted_for in *. rewrite filter_cons, decide_False by (intros [_ [=]]). done.
    + pose proof (lookup_other now k h s Hne) as Ho. destruct (rateLimiterMiddleware now k s) as [r s'].
      cbn [fst snd] in *. destruct (IH s' Hwf' ltac:(congruence)) as [H1 H2].
      destruct (run es s') as [rs s2]. cbn [fst snd] in *. split; [done|].
      unfold admitted_for in *. rewrite filter_cons, decide_False by naive_solver. done.
  - cbn [snd] in Hwf'.
    assert (Hs : lookup h {| store := sweep now w (store s); abuseMap := abuseMap s |} = Some e).
    { destruct (sweep_lookup now w h s Hwf) as [->|(e' & He' & Hsw & _ & _)]; [done|].
      assert (e' = e) as -> by congruence. unfold sweepable in Hsw. rewrite Hb in Hsw.
      simpl in Hsw. bool_to_prop. lia. }
    destruct (IH _ Hwf' Hs) as [H1 H2]. by destruct (run es _) as [rs s2].
Qed.

(** With the violation window shorter than a block, as in the default
    configuration, the exponential back-off never takes effect: over any
    chronological run of requests and sweeps every block lasts exactly the base
    duration, however often a key offends. *)
Theorem backoff_never_doubles t es k d sec :
  chronological t es ->
  (k, NowBlocked d sec) ∈ (run es {| store := {| counters := []; tokenBuckets := []; destroyed := false |};
                                     abuseMap := [] |}).1 ->
  d = base_block.
Proof.
  set (s0 := {| store := _; abuseMap := _ |}).
  assert (H0 : never_doubled t s0) by (split; [apply wf_nil|done]). clearbody s0.
  revert t s0 H0. induction es as [|e es IH]; intros t s H0 Hch; [by intros ?%not_elem_of_nil|].
  destruct Hch as [Ht Hch]. cbn [run].
  destruct (never_doubled_event t e s Ht H0) as [H1 H2].
  destruct (apply_event e s) as [r s1]. specialize (IH _ s1 H1 Hch).
  destruct (run es s1) as [rs s2]. cbn [fst snd] in *.
  destruct e as [now k'|now w], r as [r|]; try done.
  intros [Heq|Hin]%elem_of_cons; [|by apply IH]. injection Heq as -> <-. by apply (H2 d sec).
Qed.

End Store.

Definition plain_hash (s : string) : string := s.
Definition fresh_limiter : limiter :=
  {| store := {| counters := []; tokenBuckets := []; destroyed := false |}; abuseMap := [] |}.

Definition small_config (w : Z) : RateLimiterConfig :=
  {| maxRequests := 2; windowMs := w; abuseThreshold := 5; blockWindowMs := 300000;
     blockDurationMs := 3600000; maxBlockDurationMs := 86400000 |}.

(** The window is fixed, not sliding: with a limit of two per second, four
    requests within two milliseconds are all admitted when the window rolls
    between them. *)
Theorem window_is_not_sliding :
  admitted_for "ip" (run plain_hash (small_config 1000)
    [Request 0 "ip"; Request 1000 "ip"; Request 1001 "ip"; Request 1002 "ip"] fresh_limiter).1 = 4.
Proof. vm_compute. reflexivity. Qed.

(** The store's background sweep assumes a one-minute window whatever the
    limiter's own window is: with a fifteen-minute window of two requests, the
    sweep forgets the counter and four requests are admitted within that
    window. *)
Theorem sweep_forgets_long_window :
  admitted_for "ip" (run plain_hash (small_config 900000)
    [Request 0 "ip"; Request 1 "ip"; SweepTick 70000 60000; Request 70001 "ip"; Request 70002 "ip"]
    fresh_limiter).1 = 4.
Proof. vm_compute. reflexivity. Qed.

(** ** Witnesses *)

Definition sample_events : list event :=
  [Request 1 "a"; Request 2 "b"; Request 3 "a"; Request 4 "a"; SweepTick 5 60000; Request 6 "b"].

Lemma window_limit_exact_witness :
  admitted_for "a" (run plain_hash (small_config 1000) sample_events fresh_limiter).1 =
  Z.min (requests_for plain_hash "a" sample_events) 2.
Proof.
  apply (window_limit_exact plain_hash (small_config 1000)) with (t0 := 0).
  - vm_compute. discriminate.
  - vm_compute. discriminate.
  - vm_compute. reflexivity.
  - apply wf_nil.
  - reflexivity.
  - reflexivity.
  - repeat constructor; vm_compute; discriminate.
Defined.

Definition blocked_entry : RateLimitEntry :=
  {| count := 9; windowStart := 0; blocked := true; blockedUntil := 5000 |}.

Lemma hard_block_holds_witness :
  admitted_for "a" (run plain_hash (small_config 1000) [Request 10 "a"; Request 4999 "a"]
    {| store := {| counters := [("a"%string, blocked_entry)]; tokenBuckets := []; destroyed := false |};
       abuseMap := [] |}).1 = 0.
Proof.
  apply (hard_block_holds plain_hash (small_config 1000) "a" blocked_entry).
  - vm_compute. repeat constructor. set_solver.
  - reflexivity.
  - reflexivity.
  - repeat constructor; vm_compute; reflexivity.
Defined.

(** Eight requests in one window: the seventh is the fifth violation. *)
Definition burst : list event :=
  [Request 1 "a"; Request 2 "a"; Request 3 "a"; Request 4 "a"; Request 5 "a"; Request 6 "a"; Request 7 "a"].

Lemma backoff_never_doubles_witness : 3600000 = base_block (small_config 1000).
Proof.
  apply (backoff_never_doubles plain_hash (small_config 1000) ltac:(vm_compute; reflexivity)
           0 burst "a" 3600000 3600).
  - vm_compute. repeat split; discriminate.
  - vm_compute. set_solver.
Defined.

End RateLimit.
