(* ===== verification/Authorization.v ===== *)
(** * Authorization: src/lib/authorization.ts, src/lib/authHelpers.ts,
    src/middleware/authorization.ts, src/auth/roles.ts and src/auth/authorize.ts

    The permission matrix is the nested object literal of the source as nested
    association lists; resources, actions and roles are runtime strings, as
    unvalidated callers can pass them (the own properties of the matrix; names
    inherited from [Object.prototype] are outside the model).  [jwt_verify]
    stands for the jsonwebtoken library, the owner lookup for the database
    resolver a route supplies. *)

From stdpp Require Import prelude strings.
From Stdlib Require Import ZArith Lia.
From S2P Require Import Prelude JsMap.

Module Authz.

Inductive CellValue : Type := DENY | ALLOW | OWN.

#[export] Instance CellValue_eq_dec : EqDecision CellValue.
Proof. solve_decision. Defined.

Definition ALL_ROLES : list string := ["admin"; "auditor"; "client"; "freelancer"].

Definition isValidRole (value : string) : bool := bool_decide (value ∈ ALL_ROLES).

(** A row of the matrix in the order of the source: admin, auditor, client,
    freelancer. *)
Definition cells (admin auditor client freelancer : CellValue) : list (string * CellValue) :=
  [("admin", admin); ("auditor", auditor); ("client", client); ("freelancer", freelancer)].

Definition actions (c r u d l : list (string * CellValue))
  : list (string * list (string * CellValue)) :=
  [("create", c); ("read", r); ("update", u); ("delete", d); ("list", l)].

Definition PERMISSION_MATRIX : list (string * list (string * list (string * CellValue))) :=
  [("users", actions
      (cells ALLOW DENY DENY DENY) (cells ALLOW ALLOW DENY DENY) (cells ALLOW DENY DENY DENY)
      (cells ALLOW DENY DENY DENY) (cells ALLOW ALLOW DENY DENY));
   ("jobs", actions
      (cells ALLOW DENY ALLOW DENY) (cells ALLOW ALLOW ALLOW ALLOW) (cells ALLOW DENY OWN DENY)
      (cells ALLOW DENY OWN DENY) (cells ALLOW ALLOW ALLOW ALLOW));
   ("proposals", actions
      (cells ALLOW DENY DENY ALLOW) (cells ALLOW ALLOW OWN OWN) (cells ALLOW DENY DENY OWN)
      (cells ALLOW DENY DENY OWN) (cells ALLOW ALLOW OWN OWN));
   ("contracts", actions
      (cells ALLOW DENY ALLOW DENY) (cells ALLOW ALLOW OWN OWN) (cells ALLOW DENY OWN OWN)
      (cells ALLOW DENY DENY DENY) (cells ALLOW ALLOW OWN OWN));
   ("payments", actions
      (cells ALLOW DENY ALLOW DENY) (cells ALLOW ALLOW OWN OWN) (cells ALLOW DENY DENY DENY)
      (cells ALLOW DENY DENY DENY) (cells ALLOW ALLOW OWN OWN));
   ("reviews", actions
      (cells ALLOW DENY ALLOW ALLOW) (cells ALLOW ALLOW ALLOW ALLOW) (cells ALLOW DENY OWN OWN)
      (cells ALLOW DENY DENY DENY) (cells ALLOW ALLOW ALLOW ALLOW));
   ("reports", actions
      (cells ALLOW DENY DENY DENY) (cells ALLOW ALLOW DENY DENY) (cells ALLOW DENY DENY DENY)
      (cells ALLOW DENY DENY DENY) (cells ALLOW ALLOW DENY DENY));
   ("settings", actions
      (cells ALLOW DENY DENY DENY) (cells ALLOW ALLOW OWN OWN) (cells ALLOW DENY OWN OWN)
      (cells ALLOW DENY DENY DENY) (cells ALLOW ALLOW DENY DENY));
   ("disputes", actions
      (cells ALLOW DENY ALLOW ALLOW) (cells ALLOW ALLOW OWN OWN) (cells ALLOW DENY OWN DENY)
      (cells ALLOW DENY DENY DENY) (cells ALLOW ALLOW OWN OWN));
   ("health", [("read", cells ALLOW ALLOW ALLOW ALLOW)])].

Record User : Type := { id : string; email : string; role : string }.

(** Why a decision was taken; the reasons of the source. *)
Inductive reason : Type :=
| UnregisteredResource | UnregisteredAction | UnregisteredRole | RoleMayNot
| PermissionGranted | AdminBypass | OwnershipUnverified | OwnedByAnother | GrantedOwner.

Record AuthorizationResult : Type := { granted : bool; why : reason }.

Definition isAuthorized (user : User) (resource action : string) (resourceOwnerId : option string)
  : AuthorizationResult :=
  match map_get resource PERMISSION_MATRIX with
  | None => {| granted := false; why := UnregisteredResource |}
  | Some resourceEntry =>
      match map_get action resourceEntry with
      | None => {| granted := false; why := UnregisteredAction |}
      | Some actionEntry =>
          match map_get (role user) actionEntry with
          | None => {| granted := false; why := UnregisteredRole |}
          | Some DENY => {| granted := false; why := RoleMayNot |}
          | Some ALLOW => {| granted := true; why := PermissionGranted |}
          | Some OWN =>
              if bool_decide (role user = "admin"%string) then {| granted := true; why := AdminBypass |}
              else match resourceOwnerId with
                   | None => {| granted := false; why := OwnershipUnverified |}
                   | Some owner =>
                       if bool_decide (owner = id user)
                       then {| granted := true; why := GrantedOwner |}
                       else {| granted := false; why := OwnedByAnother |}
                   end
          end
      end
  end.

Record Permission : Type := {
  p_role : string;
  p_resource : string;
  p_action : string;
  p_ownOnly : bool;
}.

Definition FLAT_PERMISSION_LIST : list Permission :=
  flat_map (fun '(resource, acts) =>
    flat_map (fun '(action, roles) =>
      map (fun '(r, cell) => {| p_role := r; p_resource := resource; p_action := action;
                                p_ownOnly := bool_decide (cell = OWN) |})
        (filter (fun p => p.2 <> DENY) roles)) acts) PERMISSION_MATRIX.

(** ** The middleware chain *)

Inductive jwt_error : Type := TokenExpiredError | JsonWebTokenError.

(** The claims of a verified token; a claim that is absent or not a string is
    [None]. *)
Record JwtPayload : Type := {
  sub : option string;
  claim_email : option string;
  claim_role : option string;
}.

Inductive http : Type :=
| Proceed (user : User)     (* next() *)
| Status401 (message : string)
| Status403
| Status404
| Status500.

Definition bearer : string := "Bearer ".

Definition extractBearerToken (authHeader : option string) : option string :=
  match authHeader with
  | None => None
  | Some h =>
      if String.prefix bearer h then
        let token := String.substring 7 (String.length h - 7) h in
        if bool_decide (token = EmptyString) then None else Some token
      else None
  end.

(** [!x]: absent or empty. *)
Definition falsy (o : option string) : bool :=
  match o with None => true | Some s => bool_decide (s = EmptyString) end.

Section Middleware.
Context (jwt_verify : string -> result jwt_error JwtPayload).

Definition requireAuth (authHeader : option string) : http :=
  match extractBearerToken authHeader with
  | None => Status401 "Missing or malformed Authorization header."
  | Some token =>
      match jwt_verify token with
      | Err TokenExpiredError => Status401 "Token has expired."
      | Err JsonWebTokenError => Status401 "Invalid token."
      | Ok decoded =>
          match sub decoded, claim_email decoded with
          | Some i, Some e =>
              if falsy (Some i) || falsy (Some e) then Status401 "Token is missing required claims."
              else match claim_role decoded with
                   | Some r => if isValidRole r then Proceed {| id := i; email := e; role := r |}
                               else Status401 "Token carries an unrecognised role."
                   | None => Status401 "Token carries an unrecognised role."
                   end
          | _, _ => Status401 "Token is missing required claims."
          end
      end
  end.

Definition requireRole (allowedRoles : list string) (user : option User) : http :=
  match user with
  | None => Status401 "Authentication required."
  | Some u => if bool_decide (role u ∈ allowedRoles) then Proceed u else Status403
  end.

(** The owner resolver: absent, or a lookup that may throw; [Ok None] is a
    record that does not exist. *)
Definition requirePermission (resource action : string)
    (getResourceOwnerId : option (result unit (option string))) (user : option User) : http :=
  match user with
  | None => Status401 "Authentication required."
  | Some u =>
      match getResourceOwnerId with
      | Some (Err _) => Status500
      | Some (Ok None) => Status404
      | Some (Ok (Some owner)) =>
          if granted (isAuthorized u resource action (Some owner)) then Proceed u else Status403
      | None => if granted (isAuthorized u resource action None) then Proceed u else Status403
      end
  end.

(** requireAuth followed by requirePermission *)
Definition protected (authHeader : option string) (resource action : string)
    (getResourceOwnerId : option (result unit (option string))) : http :=
  match requireAuth authHeader with
  | Proceed u => requirePermission resource action getResourceOwnerId (Some u)
  | h => h
  end.

End Middleware.

(** ** The second access-control matrix, src/auth/roles.ts *)

Definition full : list string := ["create"; "read"; "update"; "delete"].

Definition ACCESS_CONTROL_MATRIX : list (string * list (string * list string)) :=
  [("admin", [("contracts", full); ("users", full); ("reputation", ["read"; "update"]);
              ("disputes", full); ("health", ["read"]); ("api-keys", full)]);
   ("auditor", [("health", ["read"])]);
   ("freelancer", [("contracts", ["create"; "read"]); ("users", ["read"]);
                   ("reputation", ["read"; "update"]); ("disputes", ["create"; "read"]);
                   ("health", ["read"]); ("api-keys", full)]);
   ("client", [("contracts", ["create"; "read"; "update"]); ("users", ["read"]);
               ("reputation", ["read"; "update"]); ("disputes", ["create"; "read"]);
               ("health", ["read"]); ("api-keys", full)]);
   ("guest", [("health", ["read"])])]%string.

Definition isAllowed (r resource action : string) : bool :=
  match map_get r ACCESS_CONTROL_MATRIX with
  | None => false
  | Some permissions =>
      match map_get resource permissions with
      | None => false
      | Some acts => bool_decide (action ∈ acts)
      end
  end.

(** ** Lemmas *)

(** The cell of the matrix for a triple, if it is registered. *)
Definition cell_of (resource action r : string) : option CellValue :=
  acts ← map_get resource PERMISSION_MATRIX; roles ← map_get action acts; map_get r roles.

Lemma isAuthorized_cell u resource action owner :
  granted (isAuthorized u resource action owner) = true <->
  match cell_of resource action (role u) with
  | Some ALLOW => True
  | Some OWN => role u = "admin"%string \/ owner = Some (id u)
  | _ => False
  end.
Proof.
  unfold isAuthorized, cell_of.
  destruct (map_get resource PERMISSION_MATRIX) as [acts|]; [|done]. simpl.
  destruct (map_get action acts) as [roles|]; [|done]. simpl.
  destruct (map_get (role u) roles) as [[]|]; try done.
  case_bool_decide; [naive_solver|]. destruct owner as [o|]; [|naive_solver].
  case_bool_decide; naive_solver.
Qed.

(** A property of all cells can be checked cell by cell. *)
Definition all_cells (P : string -> string -> string -> CellValue -> bool) : bool :=
  forallb (fun '(resource, acts) =>
    forallb (fun '(action, roles) =>
      forallb (fun '(r, c) => P resource action r c) roles) acts) PERMISSION_MATRIX.

Lemma all_cells_spec P resource action r c :
  all_cells P = true -> cell_of resource action r = Some c -> P resource action r c = true.
Proof.
  unfold all_cells, cell_of. intros HP Hc.
  apply bind_Some in Hc as (acts & Ha & Hc). apply bind_Some in Hc as (roles & Hr & Hc).
  rewrite forallb_forall in HP.
  specialize (HP (resource, acts) (proj1 (list_elem_of_In _ _) (map_get_elem_of _ _ _ Ha))).
  simpl in HP. rewrite forallb_forall in HP.
  specialize (HP (action, roles) (proj1 (list_elem_of_In _ _) (map_get_elem_of _ _ _ Hr))).
  simpl in HP. rewrite forallb_forall in HP.
  by specialize (HP (r, c) (proj1 (list_elem_of_In _ _) (map_get_elem_of _ _ _ Hc))).
Qed.

Lemma matrix_wf :
  wf PERMISSION_MATRIX /\
  Forall (fun e => wf e.2 /\ Forall (fun e' => wf e'.2) e.2) PERMISSION_MATRIX.
Proof.
  split.
  - unfold wf. apply (bool_decide_unpack _). vm_compute. exact I.
  - assert (H : forallb (fun e => bool_decide (NoDup (map_keys e.2)) &&
        forallb (fun e' => bool_decide (NoDup (map_keys e'.2))) e.2) PERMISSION_MATRIX = true)
      by (vm_compute; reflexivity).
    apply Forall_forall. intros e He. rewrite forallb_forall in H.
    specialize (H e (proj1 (list_elem_of_In _ _) He)).
    apply andb_true_iff in H as [H1%bool_decide_eq_true H2]. split; [exact H1|].
    apply Forall_forall. intros e' He'. rewrite forallb_forall in H2.
    specialize (H2 e' (proj1 (list_elem_of_In _ _) He')). by apply bool_decide_eq_true in H2.
Qed.

Lemma elem_of_flat p :
  p ∈ FLAT_PERMISSION_LIST <->
  exists c, cell_of (p_resource p) (p_action p) (p_role p) = Some c /\ c <> DENY /\
            p_ownOnly p = bool_decide (c = OWN).
Proof.
  unfold FLAT_PERMISSION_LIST, cell_of. rewrite list_elem_of_In, in_flat_map. split.
  - intros ([resource acts] & Hres & Hp). apply in_flat_map in Hp as ([action roles] & Hact & Hp).
    apply in_map_iff in Hp as ([r c] & <- & Hrole).
    cbn [p_resource p_action p_role p_ownOnly].
    apply list_elem_of_In in Hres, Hact, Hrole.
    apply list_elem_of_filter in Hrole as [Hne Hrole]. cbn [snd] in Hne.
    pose proof matrix_wf as [Hwf Hall]. rewrite Forall_forall in Hall.
    destruct (Hall _ Hres) as [Hwf1 Hall1]. rewrite Forall_forall in Hall1.
    pose proof (Hall1 _ Hact) as Hwf2. cbn [snd] in *.
    rewrite (elem_of_map_get _ _ _ Hwf Hres). cbn [mbind option_bind].
    rewrite (elem_of_map_get _ _ _ Hwf1 Hact). cbn [mbind option_bind].
    rewrite (elem_of_map_get _ _ _ Hwf2 Hrole). eauto.
  - intros (c & Hc & Hne & Hown). destruct p as [r resource action own]; cbn [p_resource p_action p_role p_ownOnly] in *.
    apply bind_Some in Hc as (acts & Ha & Hc). apply bind_Some in Hc as (roles & Hr & Hc).
    exists (resource, acts). split; [by apply list_elem_of_In, map_get_elem_of|].
    apply in_flat_map. exists (action, roles). split; [by apply list_elem_of_In, map_get_elem_of|].
    apply in_map_iff. exists (r, c). split; [by rewrite Hown|].
    apply list_elem_of_In, list_elem_of_filter. split; [done|by apply map_get_elem_of].
Qed.

(** ** Properties *)


(** No user other than an admin can update or delete a record of another
    user, and no auditor can do anything but read and list, for every resource
    and action, registered or not. *)
Theorem no_foreign_writes u resource action owner :
  granted (isAuthorized u resource action owner) = true ->
  (role u <> "admin"%string -> action ∈ ["update"; "delete"]%string -> owner = Some (id u)) /\
  (role u = "auditor"%string -> action ∈ ["read"; "list"]%string).
Proof.
  rewrite isAuthorized_cell. destruct (cell_of resource action (role u)) as [c|] eqn:Hc; [|done].
  intros Hg. split.
  - intros Hna Hact.
    pose proof (all_cells_spec (fun _ a r c => bool_decide (r = "admin"%string) ||
      negb (bool_decide (a ∈ ["update"; "delete"]%string)) || bool_decide (c <> ALLOW))
      resource action (role u) c) as H.
    specialize (H ltac:(vm_compute; reflexivity) Hc). simpl in H.
    rewrite bool_decide_eq_false_2, bool_decide_eq_true_2 in H by done. simpl in H.
    apply bool_decide_eq_true in H. destruct c; [done|done|naive_solver].
  - intros Haud.
    pose proof (all_cells_spec (fun _ a r c => negb (bool_decide (r = "auditor"%string)) ||
      bool_decide (a ∈ ["read"; "list"]%string) || bool_decide (c = DENY))
      resource action (role u) c) as H.
    specialize (H ltac:(vm_compute; reflexivity) Hc). simpl in H.
    rewrite (bool_decide_eq_true_2 _ Haud) in H. simpl in H.
    apply orb_true_iff in H as [H%bool_decide_eq_true|H%bool_decide_eq_true]; [done|by subst c].
Qed.

(** A protected route is only entered with a verified identity: the handler
    runs only if the request carries a bearer token that the JWT library
    accepted, with a non-empty subject and email and a role of the platform,
    and the permission check for that identity succeeded against the owner the
    database reported. *)
Theorem protected_requires_grant jwt_verify header resource action resolver u :
  protected jwt_verify header resource action resolver = Proceed u ->
  exists token payload, extractBearerToken header = Some token /\
    jwt_verify token = Ok payload /\ sub payload = Some (id u) /\
    claim_email payload = Some (email u) /\ claim_role payload = Some (role u) /\
    id u <> EmptyString /\ email u <> EmptyString /\ role u ∈ ALL_ROLES /\
    exists owner, granted (isAuthorized u resource action owner) = true /\
      (resolver = None /\ owner = None \/ exists o, resolver = Some (Ok (Some o)) /\ owner = Some o).
Proof.
  unfold protected, requireAuth.
  destruct (extractBearerToken header) as [token|]; [|done].
  destruct (jwt_verify token) as [payload|[]] eqn:Hv; [|done|done].
  destruct (sub payload) as [i|] eqn:Hs; [|done].
  destruct (claim_email payload) as [e|] eqn:He; [|done].
  destruct (falsy (Some i) || falsy (Some e)) eqn:Hf; [done|].
  destruct (claim_role payload) as [r|] eqn:Hr; [|done].
  destruct (isValidRole r) eqn:Hvr; [|done].
  unfold falsy in Hf. bool_to_prop. unfold isValidRole in Hvr. bool_to_prop.
  unfold requirePermission. intros Hp. exists token, payload.
  assert (Hu : u = {| id := i; email := e; role := r |} /\
    exists owner, granted (isAuthorized u resource action owner) = true /\
      (resolver = None /\ owner = None \/ exists o, resolver = Some (Ok (Some o)) /\ owner = Some o)).
  { destruct resolver as [[[o|]|]|]; try done;
      (destruct (granted _) eqn:Hg; [|done]); injection Hp as <-; split; eauto 10. }
  destruct Hu as [-> Hown]. simpl. split_and!; done.
Qed.

(** Asking for a record reveals whether it exists even to users who may not
    access it: with a resolver, a missing record answers 404 before any
    permission is checked, while an existing one answers 403. *)
Theorem existence_oracle u resource action owner :
  granted (isAuthorized u resource action (Some owner)) = false ->
  requirePermission resource action (Some (Ok (Some owner))) (Some u) = Status403 /\
  requirePermission resource action (Some (Ok None)) (Some u) = Status404.
Proof. intros Hd. unfold requirePermission. by rewrite Hd. Qed.

(** The two access-control matrices of the code base contradict each other:
    the matrix of src/auth lets freelancers create contracts and hides
    everything but health from auditors, while the permission matrix that calls
    itself authoritative denies the former and lets auditors read every
    resource. *)
Theorem matrices_disagree :
  isAllowed "freelancer" "contracts" "create" = true /\
  isAllowed "auditor" "contracts" "read" = false /\
  (forall i e owner, granted (isAuthorized {| id := i; email := e; role := "freelancer" |}
                        "contracts" "create" owner) = false) /\
  (forall i e owner, granted (isAuthorized {| id := i; email := e; role := "auditor" |}
                        "contracts" "read" owner) = true).
Proof. by vm_compute. Qed.

(** ** Witnesses *)

Definition ann : User := {| id := "u1"; email := "ann@x.io"; role := "client" |}.

Lemma no_foreign_writes_witness : Some "u1"%string = Some (id ann).
Proof.
  apply (no_foreign_writes ann "jobs" "update" (Some "u1"%string)).
  - vm_compute. reflexivity.
  - discriminate.
  - set_solver.
Defined.

Definition sample_verify (token : string) : result jwt_error JwtPayload :=
  if bool_decide (token = "good"%string)
  then Ok {| sub := Some "u1"%string; claim_email := Some "ann@x.io"%string; claim_role := Some "client"%string |}
  else Err JsonWebTokenError.

Lemma protected_requires_grant_witness :
  exists token payload, extractBearerToken (Some "Bearer good"%string) = Some token /\
    sample_verify token = Ok payload /\ sub payload = Some (id ann).
Proof.
  destruct (protected_requires_grant sample_verify (Some "Bearer good"%string) "jobs" "delete"
    (Some (Ok (Some "u1"%string))) ann) as (token & payload & H1 & H2 & H3 & _).
  - vm_compute. reflexivity.
  - exists token, payload. split_and!; assumption.
Defined.

Lemma existence_oracle_witness :
  requirePermission "contracts" "delete" (Some (Ok (Some "u2"%string))) (Some ann) = Status403.
Proof. apply (existence_oracle ann "contracts" "delete" "u2"). vm_compute. reflexivity. Defined.

End Authz.
