(* ===== verification/AuditStore.v ===== *)
(** * Audit log: src/audit/store.ts (and the query types of src/audit/types.ts)

    The log is a list of entries, oldest first.  [digest] stands for SHA-256 of
    the JSON text of the hashed fields; metadata is its JSON text.  Cursors are
    modelled decoded: a query carries no cursor, one that does not decode, or
    the position it encodes. *)

From stdpp Require Import prelude strings countable pretty.
From Stdlib Require Import ZArith Lia.
From S2P Require Import Prelude JsMap.
Open Scope Z_scope.

Module Audit.

Record AuditEntry : Type := {
  id : string;
  timestamp : string;
  action : string;
  severity : string;
  actor : string;
  resource : string;
  resourceId : string;
  metadata : string;
  ipAddress : option string;
  correlationId : option string;
  previousHash : string;
  hash : string;
}.

Record CreateAuditEntryInput : Type := {
  in_action : string;
  in_severity : string;
  in_actor : string;
  in_resource : string;
  in_resourceId : string;
  in_metadata : string;
  in_ipAddress : option string;
  in_correlationId : option string;
}.

(** The fields the hash covers, in the order they are serialised. *)
Definition content : Type :=
  string * string * string * string * string * string * string * string *
  option string * option string * string.

Definition content_of (e : AuditEntry) : content :=
  (id e, timestamp e, action e, severity e, actor e, resource e, resourceId e, metadata e,
   ipAddress e, correlationId e, previousHash e).

Record IntegrityReport : Type := {
  valid : bool;
  totalEntries : nat;
  firstCorruptedIndex : option nat;
  firstCorruptedId : option string;
  checkedAt : string;
}.

Definition GENESIS_HASH : string := "GENESIS".

Record filters : Type := {
  q_action : option string;
  q_severity : option string;
  q_actor : option string;
  q_resource : option string;
  q_resourceId : option string;
  q_from : option string;
  q_to : option string;
}.

#[export] Instance filters_eq_dec : EqDecision filters.
Proof. solve_decision. Defined.

Definition no_filters : filters :=
  {| q_action := None; q_severity := None; q_actor := None; q_resource := None;
     q_resourceId := None; q_from := None; q_to := None |}.

Record CursorData : Type := {
  lastId : string;
  lastTimestamp : string;
  cursor_filters : filters;
}.

Inductive cursor : Type := NoCursor | BadCursor | GoodCursor (c : CursorData).

Record AuditQuery : Type := {
  flt : filters;
  limit : option Z;
  offset : option Z;
  cur : cursor;
}.

Record AuditQueryResult : Type := {
  entries : list AuditEntry;
  count : nat;
  res_limit : Z;
  nextCursor : option CursorData;
}.

Record store : Type := { log : list AuditEntry; appendGuard : bool }.

Inductive error : Type := AppendReentrancy.

Section Store.
Context (digest : content -> string).
(** The clock reading of a verification. *)
Context (checkTime : string).

Definition computeEntryHash (e : AuditEntry) : string := digest (content_of e).

(** The hash a new entry links to. *)
Definition tip (l : list AuditEntry) : string :=
  match last l with None => GENESIS_HASH | Some e => hash e end.

Definition with_hash (h : string) (e : AuditEntry) : AuditEntry :=
  {| id := id e; timestamp := timestamp e; action := action e; severity := severity e;
     actor := actor e; resource := resource e; resourceId := resourceId e;
     metadata := metadata e; ipAddress := ipAddress e; correlationId := correlationId e;
     previousHash := previousHash e; hash := h |}.

Definition append (uuid now : string) (input : CreateAuditEntryInput) : SE store error AuditEntry :=
  fun s =>
    if appendGuard s then (Err AppendReentrancy, s)
    else
      let partial :=
        {| id := uuid; timestamp := now; action := in_action input; severity := in_severity input;
           actor := in_actor input; resource := in_resource input;
           resourceId := in_resourceId input; metadata := in_metadata input;
           ipAddress := in_ipAddress input; correlationId := in_correlationId input;
           previousHash := tip (log s); hash := EmptyString |} in
      let entry := with_hash (computeEntryHash partial) partial in
      (Ok entry, {| log := log s ++ [entry]; appendGuard := false |}).

Definition getAll (s : store) : list AuditEntry := log s.
Definition count_all (s : store) : nat := length (log s).

Definition getById (i : string) (s : store) : option AuditEntry :=
  head (filter (fun e => id e = i) (log s)).

(** [query.f && entry.f !== query.f]: an absent or empty filter passes. *)
Definition mismatch (f : option string) (v : string) : bool :=
  match f with
  | None => false
  | Some w => negb (bool_decide (w = EmptyString)) && negb (bool_decide (v = w))
  end.

(** [query.from && entry.timestamp < query.from], and the mirror image. *)
Definition text_ltb (a b : string) : bool := bool_decide (String.le a b) && negb (bool_decide (a = b)).

Definition before (f : option string) (v : string) : bool :=
  match f with
  | None => false
  | Some w => negb (bool_decide (w = EmptyString)) && text_ltb v w
  end.
Definition beyond (f : option string) (v : string) : bool :=
  match f with
  | None => false
  | Some w => negb (bool_decide (w = EmptyString)) && text_ltb w v
  end.

Definition matches (f : filters) (e : AuditEntry) : bool :=
  negb (mismatch (q_action f) (action e)) && negb (mismatch (q_severity f) (severity e)) &&
  negb (mismatch (q_actor f) (actor e)) && negb (mismatch (q_resource f) (resource e)) &&
  negb (mismatch (q_resourceId f) (resourceId e)) &&
  negb (before (q_from f) (timestamp e)) && negb (beyond (q_to f) (timestamp e)).

Definition filtered (f : filters) (s : store) : list AuditEntry :=
  filter (fun e => matches f e = true) (log s).

(** [a.slice(start, stop)] for non-negative bounds. *)
Definition slice {A} (start stop : nat) (l : list A) : list A := take (stop - start) (drop start l).

Definition query (q : AuditQuery) (s : store) : list AuditEntry :=
  let off := Z.to_nat (Z.max (default 0 (offset q)) 0) in
  let results := filtered (flt q) s in
  match limit q with
  | None => drop off results
  | Some n => slice off (off + Z.to_nat (Z.max n 0)) results
  end.

(** [log.findIndex(e => e.id === i)] *)
Fixpoint find_index (i : string) (l : list AuditEntry) : option nat :=
  match l with
  | [] => None
  | e :: l' => if bool_decide (id e = i) then Some O else S <$> find_index i l'
  end.

Definition start_index (q : AuditQuery) (s : store) : nat :=
  match cur q with
  | GoodCursor c =>
      if bool_decide (cursor_filters c = flt q)
      then match find_index (lastId c) (log s) with Some n => S n | None => O end
      else O
  | _ => O
  end.

Definition page_limit (q : AuditQuery) : Z := Z.min (Z.max (default 50 (limit q)) 1) 100.

Definition queryWithCursor (q : AuditQuery) (s : store) : AuditQueryResult :=
  let n := Z.to_nat (page_limit q) in
  let start := start_index q s in
  let all := filtered (flt q) s in
  let page := slice start (start + n) all in
  {| entries := page; count := length page; res_limit := page_limit q;
     nextCursor :=
       if bool_decide (start + n < length all)%nat
       then (fun e => {| lastId := id e; lastTimestamp := timestamp e; cursor_filters := flt q |}) <$> last page
       else None |}.

Definition stream (q : AuditQuery) (s : store) : list AuditEntry := query q s.

(** The verification loop from index [i] with the hash the entry must link to. *)
Fixpoint verify_from (i : nat) (expected : string) (l : list AuditEntry) : option (nat * string) :=
  match l with
  | [] => None
  | e :: l' =>
      if negb (bool_decide (previousHash e = expected)) then Some (i, id e)
      else if negb (bool_decide (hash e = computeEntryHash e)) then Some (i, id e)
      else verify_from (S i) (hash e) l'
  end.

Definition verifyIntegrity (s : store) : IntegrityReport :=
  match verify_from 0 GENESIS_HASH (log s) with
  | None => {| valid := true; totalEntries := length (log s);
               firstCorruptedIndex := None; firstCorruptedId := None;
               checkedAt := checkTime |}
  | Some (i, d) => {| valid := false; totalEntries := length (log s);
                      firstCorruptedIndex := Some i; firstCorruptedId := Some d;
                      checkedAt := checkTime |}
  end.

Definition reset (s : store) : store := {| log := []; appendGuard := false |}.

(** ** Specification: an unbroken chain *)

Fixpoint chain (expected : string) (l : list AuditEntry) : Prop :=
  match l with
  | [] => True
  | e :: l' => previousHash e = expected /\ hash e = digest (content_of e) /\ chain (hash e) l'
  end.

(** A client that follows [nextCursor] through the pages of an unfiltered
    query. *)
Fixpoint walk (n : option Z) (f : filters) (s : store) (fuel : nat) (c : cursor)
  : option (list AuditEntry) :=
  match fuel with
  | O => None
  | S fuel =>
      let r := queryWithCursor {| flt := f; limit := n; offset := None; cur := c |} s in
      match nextCursor r with
      | None => Some (entries r)
      | Some d => app (entries r) <$> walk n f s fuel (GoodCursor d)
      end
  end.

(** ** Lemmas *)

Lemma verify_from_chain i h l : verify_from i h l = None <-> chain h l.
Proof.
  revert i h. induction l as [|e l IH]; intros i h; simpl; [done|].
  unfold computeEntryHash. repeat case_bool_decide; simpl; [|naive_solver..].
  rewrite IH. naive_solver.
Qed.

Lemma verifyIntegrity_chain s : valid (verifyIntegrity s) = true <-> chain GENESIS_HASH (log s).
Proof.
  unfold verifyIntegrity. rewrite <- (verify_from_chain 0).
  destruct (verify_from 0 GENESIS_HASH (log s)) as [[i d]|]; done.
Qed.

Lemma chain_app h l1 l2 :
  chain h (l1 ++ l2) <-> chain h l1 /\ chain (match last l1 with None => h | Some e => hash e end) l2.
Proof.
  revert h. induction l1 as [|e l1 IH]; intros h; simpl; [tauto|].
  rewrite IH. destruct l1 as [|e' l1]; simpl; [tauto|].
  destruct (last (e' :: l1)) as [x|] eqn:E; [tauto|].
  by apply last_None in E.
Qed.

Lemma verify_from_first i h l1 e l2 :
  chain h l1 ->
  (match last l1 with None => h | Some x => hash x end <> previousHash e \/
   hash e <> digest (content_of e)) ->
  verify_from i h (l1 ++ e :: l2) = Some ((i + length l1)%nat, id e).
Proof.
  revert i h. induction l1 as [|x l1 IH]; intros i h; simpl.
  - intros _ Hbad. unfold computeEntryHash. repeat case_bool_decide; simpl;
      rewrite ?Nat.add_0_r; naive_solver.
  - intros (Hp & Hh & Hc) Hbad. unfold computeEntryHash. rewrite !bool_decide_eq_true_2 by done. simpl.
    rewrite (IH (S i) (hash x) Hc).
    + do 2 f_equal. lia.
    + destruct l1 as [|y l1]; [done|]. simpl in Hbad.
      destruct (last (y :: l1)) as [z|] eqn:E; [done|by apply last_None in E].
Qed.

Section Collision.
(** SHA-256 is collision free on the serialised fields and its hex digests are
    never the genesis sentinel. *)
Context (digest_inj : Inj (=) (=) digest) (digest_genesis : forall c, digest c <> GENESIS_HASH).

Lemma entry_by_hash (a b : AuditEntry) :
  hash a = digest (content_of a) -> hash b = digest (content_of b) -> hash a = hash b -> a = b.
Proof.
  intros Ha Hb Heq. rewrite Ha, Hb in Heq. apply digest_inj in Heq as Hc.
  destruct a, b. unfold content_of in Hc. simpl in *. congruence.
Qed.

Lemma chain_tip_determines l1 l2 :
  chain GENESIS_HASH l1 -> chain GENESIS_HASH l2 -> tip l1 = tip l2 -> l1 = l2.
Proof.
  revert l2. induction l1 as [|a l1 IH] using rev_ind; intros l2 H1 H2 Ht.
  - destruct l2 as [|b l2 _] using rev_ind; [done|]. exfalso.
    unfold tip in Ht. rewrite last_snoc in Ht. simpl in Ht.
    apply chain_app in H2 as [_ (_ & Hb & _)]. rewrite Hb in Ht. by apply (digest_genesis _ (eq_sym Ht)).
  - destruct l2 as [|b l2 _] using rev_ind.
    + exfalso. unfold tip in Ht. rewrite last_snoc in Ht. simpl in Ht.
      apply chain_app in H1 as [_ (_ & Ha & _)]. rewrite Ha in Ht. by apply (digest_genesis _ Ht).
    + unfold tip in Ht. rewrite !last_snoc in Ht.
      apply chain_app in H1 as [H1 (Hpa & Ha & _)]. apply chain_app in H2 as [H2 (Hpb & Hb & _)].
      assert (a = b) as -> by by apply entry_by_hash.
      f_equal. apply IH; [done|done|]. unfold tip. congruence.
Qed.

End Collision.

Lemma slice_app {A} start n (l : list A) :
  slice start (start + n) l ++ drop (start + n) l = drop start l.
Proof.
  unfold slice. replace (start + n - start)%nat with n by lia. rewrite <- drop_drop. apply take_drop.
Qed.

Lemma find_index_nth l i e :
  NoDup (id <$> l) -> l !! i = Some e -> find_index (id e) l = Some i.
Proof.
  revert i. induction l as [|x l IH]; intros [|i] Hnd Hi; simplify_eq/=.
  - by rewrite bool_decide_eq_true_2.
  - apply NoDup_cons in Hnd as [Hx Hnd]. rewrite bool_decide_eq_false_2.
    + by rewrite (IH i).
    + intros E. apply Hx. rewrite E. apply list_elem_of_fmap_2. by eapply list_elem_of_lookup_2.
Qed.

Lemma matches_none e : matches no_filters e = true.
Proof. done. Qed.

Lemma filtered_none s : filtered no_filters s = log s.
Proof. unfold filtered. apply filter_keep_all. apply Forall_forall. done. Qed.

Lemma page_limit_range q : 1 <= page_limit q <= 100.
Proof. unfold page_limit. lia. Qed.

(** One page of an unfiltered query that starts at index [start]. *)
Lemma walk_from n s fuel c start :
  NoDup (id <$> log s) ->
  start_index {| flt := no_filters; limit := n; offset := None; cur := c |} s = start ->
  (length (log s) - start < fuel)%nat ->
  walk n no_filters s fuel c = Some (drop start (log s)).
Proof.
  intros Hnd. revert c start. induction fuel as [|fuel IH]; intros c start Hs Hlen; [lia|].
  cbn [walk]. set (q := {| flt := no_filters; limit := n; offset := None; cur := c |}) in *.
  pose proof (page_limit_range q) as [Hl _].
  unfold queryWithCursor. cbn [nextCursor entries flt q]. fold q. rewrite filtered_none, Hs.
  set (k := Z.to_nat (page_limit q)). assert (Hk : (1 ≤ k)%nat) by lia.
  case_bool_decide as Hmore.
  - destruct (lookup_lt_is_Some_2 (log s) (start + k - 1)%nat) as [e He]; [lia|].
    assert (Hlast : last (slice start (start + k) (log s)) = Some e).
    { rewrite last_lookup. unfold slice. rewrite length_take, length_drop.
      rewrite lookup_take_lt by lia. rewrite lookup_drop. rewrite <- He. f_equal. lia. }
    rewrite Hlast. simpl.
    rewrite (IH _ (start + k)%nat).
    + simpl. by rewrite slice_app.
    + unfold start_index. simpl.
      rewrite (find_index_nth _ _ e Hnd He). lia.
    + lia.
  - f_equal. rewrite <- (slice_app start k (log s)). rewrite (drop_ge (log s) (start + k)) by lia.
    by rewrite app_nil_r.
Qed.

(** ** Properties *)

(** The log is append-only and its chain never breaks: appending adds
    exactly one entry at the end, leaves every earlier entry as it was, links
    and hashes the new entry correctly, and preserves a valid verification
    verdict. *)
Theorem append_preserves_integrity uuid now input s :
  appendGuard s = false ->
  match append uuid now input s with
  | (Ok e, s') => log s' = log s ++ [e] /\ id e = uuid /\ previousHash e = tip (log s) /\
      hash e = digest (content_of e) /\
      (valid (verifyIntegrity s) = true -> valid (verifyIntegrity s') = true)
  | (Err _, _) => False
  end.
Proof.
  intros Hg. unfold append. rewrite Hg. split_and!; try done.
  rewrite !verifyIntegrity_chain. simpl. intros Hc. apply chain_app. split; [done|].
  simpl. by split_and!.
Qed.


(** The report points at the tampered entry: if the content of one entry of
    a valid log is changed and its stored hash kept, verification fails at
    exactly that index and names exactly that entry. *)
Theorem tampering_located (digest_inj : Inj (=) (=) digest) l1 e l2 e' g :
  valid (verifyIntegrity {| log := l1 ++ e :: l2; appendGuard := g |}) = true ->
  hash e' = hash e -> content_of e' <> content_of e ->
  verifyIntegrity {| log := l1 ++ e' :: l2; appendGuard := g |} =
  {| valid := false; totalEntries := length (l1 ++ e :: l2);
     firstCorruptedIndex := Some (length l1); firstCorruptedId := Some (id e');
     checkedAt := checkTime |}.
Proof.
  rewrite verifyIntegrity_chain. simpl. intros [H1 (Hp & Hh & _)]%chain_app Hsame Hdiff.
  unfold verifyIntegrity. simpl.
  rewrite (verify_from_first 0 GENESIS_HASH l1 e' l2 H1).
  - simpl. by rewrite !length_app.
  - right. rewrite Hsame, Hh. intros Heq%digest_inj. by apply Hdiff.
Qed.

(** Removing entries from the end of the log is not detected: every prefix
    of a valid log verifies. *)
Theorem truncation_undetected n s :
  valid (verifyIntegrity s) = true ->
  valid (verifyIntegrity {| log := take n (log s); appendGuard := false |}) = true.
Proof.
  rewrite !verifyIntegrity_chain. simpl. rewrite <- (take_drop n (log s)) at 1.
  by intros [H _]%chain_app.
Qed.

(** Cursor pagination without filters returns the whole log in order, each
    entry once, for every page size; one more request than there are entries
    always suffices (entry ids are unique). *)
Theorem unfiltered_pagination_complete n s :
  NoDup (id <$> log s) -> walk n no_filters s (S (length (log s))) NoCursor = Some (log s).
Proof. intros Hnd. rewrite (walk_from n s _ NoCursor 0 Hnd eq_refl); [done|lia]. Qed.

End Store.

(** A stand-in digest for evaluation: the fields joined by separators. *)
Definition sample_digest (c : content) : string :=
  let '(i, t, a, sv, ac, r, ri, m, _, _, p) := c in
  ("#" +:+ i +:+ "|" +:+ t +:+ "|" +:+ a +:+ "|" +:+ sv +:+ "|" +:+ ac +:+ "|" +:+ r +:+ "|" +:+ ri +:+ "|" +:+ m +:+ "|" +:+ p).

Definition by_actor (who : string) : CreateAuditEntryInput :=
  {| in_action := "ADMIN_ACTION"; in_severity := "INFO"; in_actor := who; in_resource := "user";
     in_resourceId := "u1"; in_metadata := "{}"; in_ipAddress := None; in_correlationId := None |}.

Definition append_all (xs : list (string * string)) (s : store) : store :=
  foldl (fun s x => (append sample_digest x.1 "2026-01-01T00:00:00.000Z" (by_actor x.2) s).2) s xs.

Definition empty_store : store := {| log := []; appendGuard := false |}.

Definition sample_store : store :=
  append_all [("e1", "bob"); ("e2", "ann"); ("e3", "ann"); ("e4", "ann")]%string empty_store.

Definition ann_only : filters :=
  {| q_action := None; q_severity := None; q_actor := Some "ann"%string; q_resource := None;
     q_resourceId := None; q_from := None; q_to := None |}.

(** Cursor pagination with a filter skips entries: the position of the last
    entry is looked up in the whole log but used in the filtered list, so a walk
    over the pages of one actor's entries misses some of them. *)
Theorem filtered_pagination_skips :
  map id (query {| flt := ann_only; limit := None; offset := None; cur := NoCursor |} sample_store) =
    ["e2"; "e3"; "e4"]%string /\
  option_map (map id) (walk (Some 1) ann_only sample_store 9 NoCursor) = Some ["e2"; "e4"]%string.
Proof. vm_compute. split; reflexivity. Qed.

(** An injective digest: the position of the content in an enumeration of all
    contents, in decimal. *)
Definition coded_digest (c : content) : string := "#" +:+ pretty (Npos (encode c)).

Lemma coded_digest_inj : Inj (=) (=) coded_digest.
Proof.
  intros a b [= Hp]. apply (inj pretty) in Hp. by simplify_eq.
Qed.

Lemma coded_digest_genesis c : coded_digest c <> GENESIS_HASH.
Proof. intros [=]. Qed.

Definition coded_entry : AuditEntry :=
  let p := {| id := "e1"; timestamp := "t1"; action := "ADMIN_ACTION"; severity := "INFO";
              actor := "bob"; resource := "user"; resourceId := "u1"; metadata := "{}";
              ipAddress := None; correlationId := Some "r1"; previousHash := GENESIS_HASH;
              hash := EmptyString |}%string in
  with_hash (coded_digest (content_of p)) p.

Definition forged_entry : AuditEntry :=
  {| id := id coded_entry; timestamp := timestamp coded_entry; action := action coded_entry;
     severity := severity coded_entry; actor := "mallory"; resource := resource coded_entry;
     resourceId := resourceId coded_entry; metadata := metadata coded_entry;
     ipAddress := ipAddress coded_entry; correlationId := correlationId coded_entry;
     previousHash := previousHash coded_entry; hash := hash coded_entry |}.

(** ** Witnesses *)


Lemma tampering_located_witness :
  verifyIntegrity coded_digest "now" {| log := [forged_entry]; appendGuard := false |} =
  {| valid := false; totalEntries := 1; firstCorruptedIndex := Some O; firstCorruptedId := Some "e1"%string;
     checkedAt := "now"%string |}.
Proof.
  apply (tampering_located coded_digest "now" coded_digest_inj [] coded_entry [] forged_entry false).
  - apply verifyIntegrity_chain. by split_and!.
  - reflexivity.
  - intros [=].
Defined.

Lemma append_preserves_integrity_witness :
  valid (verifyIntegrity sample_digest "now" (append sample_digest "e5" "t" (by_actor "eve") sample_store).2) = true.
Proof.
  pose proof (append_preserves_integrity sample_digest "now" "e5" "t" (by_actor "eve") sample_store eq_refl) as H.
  destruct (append sample_digest "e5" "t" (by_actor "eve") sample_store) as [[e|[]] s']; [|destruct H].
  destruct H as (_ & _ & _ & _ & H). apply H. vm_compute. reflexivity.
Defined.

Lemma truncation_undetected_witness :
  valid (verifyIntegrity sample_digest "now" {| log := take 2 (log sample_store); appendGuard := false |}) = true.
Proof. apply (truncation_undetected sample_digest "now" 2 sample_store). vm_compute. reflexivity. Defined.

Lemma unfiltered_pagination_complete_witness :
  walk (Some 2) no_filters sample_store 5 NoCursor = Some (log sample_store).
Proof.
  apply (unfiltered_pagination_complete (Some 2) sample_store).
  apply (bool_decide_unpack _). vm_compute. exact I.
Defined.

End Audit.
