(* ===== verification/Envelope.v ===== *)
(** * Event envelopes: src/shared/eventEnvelopeValidation.ts

    The checks that contract-event and dispute-event ingestion share.
    [date_parses s] is [!Number.isNaN(Date.parse(s))] and [to_number s] is
    [Number(s)]: both depend on the engine's date and number grammars. *)

From stdpp Require Import prelude strings.
From Stdlib Require Import ZArith Lia.
From S2P Require Import Prelude JsValue JsString.
Open Scope Z_scope.

Module Envelope.

Record FieldError : Type := { field : string; message : string }.

Inductive timestamp_rule : Type := iso | numeric.

Record EnvelopeValidationOptions : Type := {
  rootErrorMessage : string;
  messageSuffix : string;
  timestampRule : timestamp_rule;
  abortEarly : bool;
}.

Definition isRecord (v : value) : bool := match v with VObject _ => true | _ => false end.

(** [typeof v !== 'string' || v.trim().length === 0], negated. *)
Definition nonblank (v : value) : bool :=
  match v with VString s => negb (bool_decide (trim s = EmptyString)) | _ => false end.

(** [typeof v === 'number' && Number.isInteger(v) && v >= 0] *)
Definition natural (v : value) : bool :=
  match v with
  | VNumber n => match to_int n with Some z => bool_decide (0 <= z) | None => false end
  | _ => false
  end.

Section Preamble.
Context (date_parses : string -> bool) (to_number : string -> number).

Definition toFiniteNumber (v : value) : option number :=
  match v with
  | VNumber n => if is_finite n then Some n else None
  | VString s =>
      if bool_decide (trim s = EmptyString) then None
      else let n := to_number s in if is_finite n then Some n else None
  | _ => None
  end.

Definition timestamp_ok (rule : timestamp_rule) (v : value) : bool :=
  match rule with
  | iso => match v with VString s => date_parses s | _ => false end
  | numeric => match toFiniteNumber v with Some _ => true | None => false end
  end.

Definition timestamp_message (rule : timestamp_rule) : string :=
  match rule with
  | iso => "timestamp must be a valid ISO string"
  | numeric => "timestamp must be a valid epoch number or numeric string"
  end.

(** The per-field checks in the order they run: field, passed, message. *)
Definition field_checks (o : EnvelopeValidationOptions) (v : value) : list (string * bool * string) :=
  [("contractId", nonblank (prop v "contractId"), "contractId is required");
   ("eventId", nonblank (prop v "eventId"), "eventId is required");
   ("sequence", natural (prop v "sequence"), "sequence must be a non-negative integer");
   ("timestamp", timestamp_ok (timestampRule o) (prop v "timestamp"), timestamp_message (timestampRule o));
   ("payload", isRecord (prop v "payload"), "payload must be an object")]%string.

Fixpoint run_checks (o : EnvelopeValidationOptions) (cs : list (string * bool * string))
  : list FieldError :=
  match cs with
  | [] => []
  | (f, passed, m) :: cs' =>
      if passed then run_checks o cs'
      else {| field := f; message := m +:+ messageSuffix o |} ::
           (if abortEarly o then [] else run_checks o cs')
  end.

Definition validateEventEnvelopePreamble (v : value) (o : EnvelopeValidationOptions)
  : list FieldError :=
  if isRecord v then run_checks o (field_checks o v)
  else [{| field := "event"; message := rootErrorMessage o |}].

(** ** Lemmas *)

Lemma run_checks_nil o cs : run_checks o cs = [] <-> Forall (fun c => c.1.2 = true) cs.
Proof.
  induction cs as [|[[f p] m] cs IH]; simpl; [by split|].
  rewrite Forall_cons. simpl. destruct p; [rewrite IH; tauto|]. split; [done|]. by intros [? _].
Qed.

(** A passing envelope satisfies every check, whatever the options. *)
Lemma preamble_ok o v :
  validateEventEnvelopePreamble v o = [] <->
  isRecord v = true /\ nonblank (prop v "contractId") = true /\ nonblank (prop v "eventId") = true /\
  natural (prop v "sequence") = true /\
  timestamp_ok (timestampRule o) (prop v "timestamp") = true /\ isRecord (prop v "payload") = true.
Proof.
  unfold validateEventEnvelopePreamble. destruct (isRecord v); [|split; [done|by intros [? _]]].
  rewrite run_checks_nil. unfold field_checks. rewrite !Forall_cons. simpl.
  split; [intros (?&?&?&?&?&_); done|intros (_&?&?&?&?&?); split_and!; done].
Qed.

(** With [abortEarly] at most one error is reported. *)
Lemma run_checks_abort o cs : abortEarly o = true -> (length (run_checks o cs) <= 1)%nat.
Proof.
  intros Ha. induction cs as [|[[f p] m] cs IH]; simpl; [lia|]. destruct p; [done|].
  rewrite Ha. simpl. lia.
Qed.

End Preamble.
End Envelope.
