(* ===== verification/Indexer.v ===== *)
(** * Contract-event ingestion: src/contracts/{validation,dedupe,processor,repository,indexer}.ts
    and the checkpoint store of src/contracts/cursor.repository.ts

    The event repository is an interface with laws; the indexer's theorems are
    proved against it and the in-memory repository implements it.  A repository
    operation may fail with an error message, which is how the [catch] of
    [indexBatch] is reached.  A sequence number is the integer it denotes;
    [None] stands for the [Infinity] of [extractSequence].  [clock n] is the
    n-th reading of [new Date().toISOString()] during a batch and [big_text]
    the decimal exponent notation of integers of 10^21 and more. *)

From stdpp Require Import prelude gmap strings pretty.
From Stdlib Require Import ZArith Lia Ascii.
From S2P Require Import Prelude JsMap JsValue JsString Regex Envelope.
Import Envelope.
Open Scope Z_scope.

Module Indexer.

Record ContractEvent : Type := {
  contractId : string;
  eventId : string;
  sequence : Z;
  timestamp : string;
  type : string;
  payload : value;
}.

Record PersistedContractEvent : Type := {
  event : ContractEvent;
  eventKey : string;
  receivedAt : string;
}.

Inductive IngestResult : Type :=
| accepted (key : string)
| duplicate (key : string)
| invalid (reason : string).

Definition EVENT_TYPES : list string :=
  ["CONTRACT_CREATED"; "CONTRACT_FUNDED"; "MILESTONE_RELEASED"; "CONTRACT_COMPLETED";
   "CONTRACT_CANCELLED"]%string.

Definition CONTRACT_PREAMBLE_OPTIONS : EnvelopeValidationOptions :=
  {| rootErrorMessage := "Payload must be a JSON object"; messageSuffix := EmptyString;
     timestampRule := iso; abortEarly := true |}.

Class ContractEventRepository (S : Type) : Type := {
  hasEventKey : string -> SE S string bool;
  saveEvent : PersistedContractEvent -> SE S string unit;
  listEvents : S -> list PersistedContractEvent;
}.

Record IndexerCursor : Type := {
  sourceId : string;
  lastSequence : Z;
  updatedAt : string;
  metadata : value;            (* undefined or an object *)
}.

Record CursorResumeResult : Type := {
  cursor : option IndexerCursor;
  resumeFromSequence : Z;
  isFreshStart : bool;
}.

Record IndexerBatchResult : Type := {
  processedCount : nat;
  duplicateCount : nat;
  errors : list string;
  newCursor : option IndexerCursor;
}.

(** InMemoryContractEventRepository *)
Notation memory := (list (string * PersistedContractEvent)).

Definition mem_hasEventKey (k : string) : SE memory string bool := fun s => (Ok (map_has k s), s).
Definition mem_saveEvent (e : PersistedContractEvent) : SE memory string unit :=
  fun s => (Ok tt, map_set (eventKey e) e s).
Definition mem_listEvents (s : memory) : list PersistedContractEvent := map_values s.

#[global] Instance memory_events : ContractEventRepository memory :=
  {| hasEventKey := mem_hasEventKey; saveEvent := mem_saveEvent; listEvents := mem_listEvents |}.

(** InMemoryCursorRepository *)
Notation cursors := (list (string * IndexerCursor)).

Definition getCursor (i : string) (cs : cursors) : option IndexerCursor := map_get i cs.
(** The update always succeeds. *)
Definition updateCursor (now i : string) (n : Z) (data : value) (cs : cursors)
  : IndexerCursor * cursors :=
  let c := {| sourceId := i; lastSequence := n; updatedAt := now; metadata := data |} in
  (c, map_set i c cs).
Definition listCursors (cs : cursors) : list IndexerCursor := map_values cs.
Definition deleteCursor (i : string) (cs : cursors) : bool * cursors :=
  (map_has i cs, map_delete i cs).

Definition extractSequence (v : value) : option Z :=
  match v with
  | VObject _ =>
      match prop v "sequence" with
      | VNumber n => match to_int n with
                     | Some z => if bool_decide (0 <= z) then Some z else None
                     | None => None
                     end
      | _ => None
      end
  | _ => None
  end.

(** Infinity sorts after every finite double, all of which are below 2^1024;
    [Infinity - Infinity] is NaN, which the sort treats as equal. *)
Definition sort_key (v : value) : Z := default (2 ^ 1024) (extractSequence v).
Definition sortEventsBySequence (es : list value) : list value := sort_by sort_key es.

Definition updateMaxSequence (v : value) (currentMax : Z) : Z :=
  match extractSequence v with Some z => Z.max currentMax z | None => currentMax end.

Definition resumeFromCursor (i : string) (fromSequence : option Z) (cs : cursors) : CursorResumeResult :=
  let c := getCursor i cs in
  match fromSequence with
  | Some n => {| cursor := c; resumeFromSequence := n;
                 isFreshStart := match c with None => true | Some _ => false end |}
  | None =>
      match c with
      | None => {| cursor := None; resumeFromSequence := 0; isFreshStart := true |}
      | Some k => {| cursor := c; resumeFromSequence := lastSequence k + 1; isFreshStart := false |}
      end
  end.

Section Indexer.
Context (date_parses : string -> bool) (to_number : string -> number) (big_text : Z -> string).

(** [`${n}`] for a non-negative integer. *)
Definition seq_text (n : Z) : string :=
  if bool_decide (n < 10 ^ 21) then pretty (Z.to_N n) else big_text n.

Definition buildEventKey (e : ContractEvent) : string :=
  contractId e +:+ ":" +:+ eventId e +:+ ":" +:+ seq_text (sequence e).

Definition text_of (v : value) : string := default EmptyString (as_string v).

Definition validateContractEventPayload (v : value) : result string ContractEvent :=
  match validateEventEnvelopePreamble date_parses to_number v CONTRACT_PREAMBLE_OPTIONS with
  | err :: _ => Err (message err)
  | [] =>
      match prop v "type" with
      | VString t =>
          if bool_decide (t ∈ EVENT_TYPES) then
            Ok {| contractId := trim (text_of (prop v "contractId"));
                  eventId := trim (text_of (prop v "eventId"));
                  sequence := default 0 (as_number (prop v "sequence") ≫= to_int);
                  timestamp := text_of (prop v "timestamp");
                  type := t; payload := prop v "payload" |}
          else Err "type is invalid"%string
      | _ => Err "type is invalid"%string
      end
  end.

Context {S : Type} {repo : ContractEventRepository S}.

Definition ingest (now : string) (v : value) : SE S string IngestResult :=
  match validateContractEventPayload v with
  | Err reason => ret (invalid reason)
  | Ok e =>
      let key := buildEventKey e in
      let! seen := hasEventKey key in
      if seen then ret (duplicate key)
      else saveEvent {| event := e; eventKey := key; receivedAt := now |} ;;
           ret (accepted key)
  end.

(** The loop variables of [indexBatch]. *)
Record progress : Type := {
  p_processed : nat;
  p_duplicate : nat;
  p_errors : list string;
  p_max : Z;
}.

Definition start : progress :=
  {| p_processed := 0; p_duplicate := 0; p_errors := []; p_max := -1 |}.

Definition or_default (reason : string) : string :=
  if bool_decide (reason = EmptyString) then "Event validation failed" else reason.

Definition index_one (now : string) (v : value) (p : progress) (s : S) : progress * S :=
  let '(r, s') := ingest now v s in
  (match r with
   | Ok (accepted _) =>
       {| p_processed := p_processed p + 1; p_duplicate := p_duplicate p; p_errors := p_errors p;
          p_max := updateMaxSequence v (p_max p) |}
   | Ok (duplicate _) =>
       {| p_processed := p_processed p; p_duplicate := p_duplicate p + 1; p_errors := p_errors p;
          p_max := updateMaxSequence v (p_max p) |}
   | Ok (invalid reason) =>
       {| p_processed := p_processed p; p_duplicate := p_duplicate p;
          p_errors := p_errors p ++ [or_default reason]; p_max := p_max p |}
   | Err msg =>
       {| p_processed := p_processed p; p_duplicate := p_duplicate p;
          p_errors := p_errors p ++ [("Event processing error: " +:+ msg)%string]; p_max := p_max p |}
   end, s').

Fixpoint index_loop (clock : nat -> string) (i : nat) (vs : list value) (p : progress) (s : S)
  : progress * S :=
  match vs with
  | [] => (p, s)
  | v :: vs' =>
      let '(p', s') := index_one (clock i) v p s in index_loop clock (Datatypes.S i) vs' p' s'
  end.

Definition indexBatch (clock : nat -> string) (source : string) (vs : list value) (s : S) (cs : cursors)
  : IndexerBatchResult * (S * cursors) :=
  let '(p, s') := index_loop clock 0 (sortEventsBySequence vs) start s in
  let '(c, cs') :=
    if bool_decide (0 <= p_max p) then
      let '(c, cs') := updateCursor (clock (length vs)) source (p_max p) VUndefined cs in
      (Some c, cs')
    else (None, cs) in
  ({| processedCount := p_processed p; duplicateCount := p_duplicate p; errors := p_errors p;
      newCursor := c |}, (s', cs')).

(** ** What a repository promises *)

Class ContractEventRepositoryLaws : Type := {
  stored : S -> gmap string PersistedContractEvent;
  has_law k s : hasEventKey k s = (Ok (bool_decide (is_Some (stored s !! k))), s);
  save_law e s : (saveEvent e s).1 = Ok tt /\ stored (saveEvent e s).2 = <[eventKey e := e]> (stored s);
}.

(** ** Specification of a batch *)

Definition key_of (v : value) : option string :=
  match validateContractEventPayload v with Ok e => Some (buildEventKey e) | Err _ => None end.

Definition reason_of (v : value) : option string :=
  match validateContractEventPayload v with Ok _ => None | Err r => Some (or_default r) end.

(** The largest sequence of the well-formed events, at least [m]. *)
Definition max_sequence (vs : list value) (m : Z) : Z :=
  foldl (fun m v => match key_of v with Some _ => updateMaxSequence v m | None => m end) m vs.

Context {laws : ContractEventRepositoryLaws}.

Definition all_stored (vs : list value) (s : S) : Prop :=
  Forall (fun k => is_Some (stored s !! k)) (omap key_of vs).

(** ** Lemmas *)

Lemma ingest_invalid now v r s :
  validateContractEventPayload v = Err r -> ingest now v s = (Ok (invalid r), s).
Proof. intros H. unfold ingest. by rewrite H. Qed.

Lemma ingest_seen now v k s :
  key_of v = Some k -> is_Some (stored s !! k) -> ingest now v s = (Ok (duplicate k), s).
Proof.
  unfold key_of, ingest. destruct (validateContractEventPayload v) as [e|r]; [|done].
  intros [= <-] Hk. unfold bind. rewrite has_law, bool_decide_eq_true_2 by done. done.
Qed.

Lemma ingest_new now v k s :
  key_of v = Some k -> stored s !! k = None ->
  exists s' e, ingest now v s = (Ok (accepted k), s') /\ stored s' = <[k := e]> (stored s).
Proof.
  unfold key_of, ingest. destruct (validateContractEventPayload v) as [e|r]; [|done].
  intros [= <-] Hk. unfold bind. rewrite has_law, bool_decide_eq_false_2.
  2:{ rewrite Hk. by intros [? ?]. }
  set (pe := {| event := e; eventKey := buildEventKey e; receivedAt := now |}).
  pose proof (save_law pe s) as [Hr Hs]. destruct (saveEvent pe s) as [r s'].
  simpl in *. subst r. by exists s', pe.
Qed.

Lemma key_reason v : (exists k, key_of v = Some k /\ reason_of v = None) \/
  (exists r, key_of v = None /\ validateContractEventPayload v = Err r /\ reason_of v = Some (or_default r)).
Proof.
  unfold key_of, reason_of. destruct (validateContractEventPayload v) as [e|r]; [left|right]; eauto.
Qed.

(** A loop over events that are all stored changes nothing but the counters. *)
Lemma index_loop_stored clock i vs p s :
  all_stored vs s ->
  index_loop clock i vs p s =
  ({| p_processed := p_processed p; p_duplicate := p_duplicate p + length (omap key_of vs);
      p_errors := p_errors p ++ omap reason_of vs; p_max := max_sequence vs (p_max p) |}, s).
Proof.
  unfold all_stored. revert i p. induction vs as [|v vs IH]; intros i p Hall.
  { simpl. rewrite Nat.add_0_r, app_nil_r. by destruct p. }
  cbn [index_loop max_sequence foldl omap list_omap]. unfold index_one.
  destruct (key_reason v) as [(k & Hk & Hr)|(r & Hk & Hv & Hr)]; cbn in Hall; rewrite Hk in *.
  - apply Forall_cons in Hall as [H1 H2]. rewrite (ingest_seen _ v k s Hk H1).
    rewrite IH by done. simpl. rewrite Hr. do 2 f_equal. lia.
  - rewrite (ingest_invalid _ v r s Hv), IH by done. simpl. rewrite Hr. by rewrite <- app_assoc.
Qed.

(** What any loop does: it never forgets, stores exactly the keys of the
    well-formed events, and counts what it stores. *)
Lemma index_loop_spec clock i vs p s :
  let '(p', s') := index_loop clock i vs p s in
  p_errors p' = p_errors p ++ omap reason_of vs /\
  p_max p' = max_sequence vs (p_max p) /\
  (p_processed p' + p_duplicate p' = p_processed p + p_duplicate p + length (omap key_of vs))%nat /\
  (size (stored s') + p_processed p = size (stored s) + p_processed p')%nat /\
  stored s ⊆ stored s' /\
  dom (stored s') = dom (stored s) ∪ list_to_set (omap key_of vs).
Proof.
  revert i p s. induction vs as [|v vs IH]; intros i p s.
  { simpl. rewrite app_nil_r. split_and!; try done; try lia. set_solver. }
  cbn [index_loop max_sequence foldl omap list_omap]. unfold index_one.
  destruct (key_reason v) as [(k & Hk & Hr)|(r & Hk & Hv & Hr)]; cbn; rewrite Hk, Hr.
  - destruct (stored s !! k) as [x|] eqn:E.
    + rewrite (ingest_seen _ v k s Hk) by eauto.
      specialize (IH (Datatypes.S i) {| p_processed := p_processed p; p_duplicate := p_duplicate p + 1;
        p_errors := p_errors p; p_max := updateMaxSequence v (p_max p) |} s).
      destruct (index_loop _ _ _ _ _) as [p' s']. simpl in *.
      destruct IH as (? & ? & ? & ? & ? & Hd). split_and!; try done; try lia.
      apply elem_of_dom_2 in E. set_solver.
    + destruct (ingest_new (clock i) v k s Hk E) as (s1 & e & -> & Hs1).
      specialize (IH (Datatypes.S i) {| p_processed := p_processed p + 1; p_duplicate := p_duplicate p;
        p_errors := p_errors p; p_max := updateMaxSequence v (p_max p) |} s1).
      destruct (index_loop _ _ _ _ _) as [p' s']. simpl in *. rewrite Hs1 in IH.
      destruct IH as (? & ? & ? & Hsz & Hsub & Hd). rewrite map_size_insert_None in Hsz by done.
      split_and!; try done; try lia.
      * etrans; [by apply insert_subseteq|done].
      * rewrite dom_insert_L in Hd. set_solver.
  - rewrite (ingest_invalid _ v r s Hv).
    specialize (IH (Datatypes.S i) {| p_processed := p_processed p; p_duplicate := p_duplicate p;
        p_errors := p_errors p ++ [or_default r]; p_max := p_max p |} s).
    destruct (index_loop _ _ _ _ _) as [p' s']. simpl in *. rewrite <- app_assoc in IH. exact IH.
Qed.

Lemma omap_Permutation_length {A B} (f : A -> option B) (l l' : list A) :
  l ≡ₚ l' -> length (omap f l) = length (omap f l').
Proof. intros H. by rewrite H. Qed.

Lemma all_stored_dom vs s :
  (forall k, k ∈ omap key_of vs -> k ∈ dom (stored s)) -> all_stored vs s.
Proof. intros H. apply Forall_forall. intros k Hk. by apply elem_of_dom, H. Qed.

(** ** Properties *)

(** A batch stores exactly the well-formed events it was given.  Whatever
    the order of the batch and whatever the repository implementation: events
    already stored are kept as they are, the keys stored afterwards are the
    old ones and those of the well-formed events, every well-formed event is
    counted as processed or duplicate, the processed count is the number of
    entries added, and each malformed event adds one error without aborting
    the batch. *)
Theorem indexBatch_spec clock source vs s cs :
  let '(r, (s', _)) := indexBatch clock source vs s cs in
  stored s ⊆ stored s' /\
  dom (stored s') = dom (stored s) ∪ list_to_set (omap key_of vs) /\
  (processedCount r + duplicateCount r = length (omap key_of vs))%nat /\
  (size (stored s') = size (stored s) + processedCount r)%nat /\
  errors r = omap reason_of (sortEventsBySequence vs) /\
  (length (errors r) = length (omap reason_of vs))%nat.
Proof.
  unfold indexBatch. pose proof (index_loop_spec clock 0 (sortEventsBySequence vs) start s) as H.
  pose proof (sort_by_perm sort_key vs) as Hp. fold (sortEventsBySequence vs) in Hp.
  destruct (index_loop _ _ _ _ _) as [p s']. destruct H as (He & _ & Hc & Hsz & Hsub & Hd). simpl in *.
  assert (Hl : (p_processed p + p_duplicate p = length (omap key_of vs))%nat)
    by (rewrite Hc; by apply omap_Permutation_length).
  assert (Hd' : dom (stored s') = dom (stored s) ∪ list_to_set (omap key_of vs))
    by (rewrite Hd; by rewrite Hp).
  case_bool_decide; simpl; rewrite He;
    (split_and!; try done; try lia; by apply omap_Permutation_length).
Qed.

(** C2: indexing is idempotent.  Replaying a batch right after it was indexed
    processes nothing, counts every well-formed event as a duplicate, reports
    the same errors, leaves the event store exactly as it was and the
    checkpoint at the same sequence, for every batch and repository. *)
Theorem indexBatch_replay clock clock' source vs s cs :
  let '(r, (s', cs')) := indexBatch clock source vs s cs in
  let '(r2, (s2, cs2)) := indexBatch clock' source vs s' cs' in
  processedCount r2 = 0%nat /\ duplicateCount r2 = length (omap key_of vs) /\
  errors r2 = errors r /\ s2 = s' /\
  (lastSequence <$> newCursor r2) = (lastSequence <$> newCursor r) /\
  (lastSequence <$> getCursor source cs2) = (lastSequence <$> getCursor source cs').
Proof.
  unfold indexBatch. pose proof (index_loop_spec clock 0 (sortEventsBySequence vs) start s) as H.
  destruct (index_loop clock _ _ _ s) as [p s']. destruct H as (He & Hm & _ & _ & _ & Hd).
  assert (Hall : all_stored (sortEventsBySequence vs) s').
  { apply all_stored_dom. intros k Hk. rewrite Hd. apply elem_of_union_r. by apply elem_of_list_to_set. }
  rewrite Hm. set (m := max_sequence _ _) in *.
  assert (Hlen : length (omap key_of (sortEventsBySequence vs)) = length (omap key_of vs))
    by apply omap_Permutation_length, sort_by_perm.
  destruct (bool_decide (0 <= m)) eqn:Hpos; cbn [fst snd updateCursor];
    rewrite (index_loop_stored clock' 0 _ start s' Hall); cbn [p_max p_processed p_duplicate p_errors];
    fold m; rewrite Hpos; cbn; rewrite He, Hlen;
    (split_and!; try done).
  unfold getCursor. by rewrite !map_get_set_eq.
Qed.

Lemma valid_sequence v e :
  validateContractEventPayload v = Ok e -> extractSequence v = Some (sequence e) /\ 0 <= sequence e.
Proof.
  unfold validateContractEventPayload.
  destruct (validateEventEnvelopePreamble _ _ _ _) as [|x xs] eqn:E; [|done].
  apply preamble_ok in E as (Hr & _ & _ & Hs & _). unfold extractSequence, natural in *.
  destruct v as [| | | | | |fs]; try done. destruct (prop (VObject fs) "type") as [| | | |t| |]; try done.
  destruct (prop (VObject fs) "sequence") as [| | |n| | |]; try done.
  case_bool_decide; [|done]. destruct (to_int n) as [z|] eqn:Ez; [|done].
  apply bool_decide_eq_true in Hs. rewrite bool_decide_eq_true_2 by done.
  intros [= <-]. simpl. by rewrite Ez.
Qed.

(** The sequences of the well-formed events of a batch. *)
Definition sequences (vs : list value) : list Z :=
  omap (fun v => match validateContractEventPayload v with Ok e => Some (sequence e) | Err _ => None end) vs.

Lemma max_sequence_foldr vs m : max_sequence vs m = Z.max m (foldr Z.max (-1) (sequences vs)) \/ m < -1.
Proof.
  revert m. induction vs as [|v vs IH]; intros m; [simpl; lia|].
  change (max_sequence (v :: vs) m) with
    (max_sequence vs (match key_of v with Some _ => updateMaxSequence v m | None => m end)).
  unfold key_of, sequences. cbn [omap list_omap]. fold (sequences vs).
  destruct (validateContractEventPayload v) as [e|r] eqn:E; [|apply IH].
  unfold updateMaxSequence. destruct (valid_sequence v e E) as [-> Hs].
  destruct (IH (Z.max m (sequence e))) as [-> | H]; [|lia].
  change (foldr Z.max (-1) (sequence e :: sequences vs)) with
    (Z.max (sequence e) (foldr Z.max (-1) (sequences vs))). lia.
Qed.

Lemma foldr_max_perm l l' : l ≡ₚ l' -> foldr Z.max (-1) l = foldr Z.max (-1) l'.
Proof. induction 1; simpl; lia. Qed.

Lemma sequences_nonneg vs : Forall (fun z => 0 <= z) (sequences vs).
Proof.
  apply Forall_forall. intros z Hz. apply list_elem_of_omap in Hz as (v & _ & Hv).
  destruct (validateContractEventPayload v) as [e|] eqn:E; [|done]. injection Hv as <-.
  by apply valid_sequence in E as [_ ?].
Qed.

(** The checkpoint after a batch is the largest sequence of the batch's
    own well-formed events, whatever it was before; a batch without
    well-formed events and the checkpoints of other sources leave it alone. *)
Theorem checkpoint_is_batch_maximum clock source vs s cs :
  let '(r, (_, cs')) := indexBatch clock source vs s cs in
  getCursor source cs' =
    match sequences vs with
    | [] => getCursor source cs
    | ns => Some {| sourceId := source; lastSequence := foldr Z.max (-1) ns;
                    updatedAt := clock (length vs); metadata := VUndefined |}
    end /\
  (forall other, other <> source -> getCursor other cs' = getCursor other cs).
Proof.
  unfold indexBatch. pose proof (index_loop_spec clock 0 (sortEventsBySequence vs) start s) as H.
  destruct (index_loop _ _ _ _ _) as [p s']. destruct H as (_ & Hm & _).
  destruct (max_sequence_foldr (sortEventsBySequence vs) (-1)) as [Hx|]; [|lia].
  simpl in Hm. rewrite Hx in Hm.
  rewrite (foldr_max_perm (sequences (sortEventsBySequence vs)) (sequences vs)) in Hm
    by (apply omap_Permutation, sort_by_perm).
  pose proof (sequences_nonneg vs) as Hn.
  assert (Hge : -1 <= foldr Z.max (-1) (sequences vs)) by (clear; induction (sequences vs); simpl; lia).
  rewrite Z.max_r in Hm by lia.
  destruct (sequences vs) as [|n ns] eqn:E.
  - rewrite bool_decide_eq_false_2 by (simpl in Hm; lia). done.
  - rewrite bool_decide_eq_true_2.
    2:{ apply Forall_cons in Hn as [Hn _]. simpl in Hm. lia. }
    cbn [updateCursor]. unfold getCursor. rewrite map_get_set_eq, Hm. split; [done|].
    intros other Ho. by rewrite map_get_set_ne.
Qed.

End Indexer.

(** The in-memory repository keeps the promises. *)
#[global] Instance memory_event_laws : ContractEventRepositoryLaws (S := memory).
Proof.
  refine {| stored := to_gmap |}.
  - intros k s. simpl. unfold mem_hasEventKey. do 2 f_equal. rewrite to_gmap_lookup.
    destruct (map_has k s) eqn:E; symmetry.
    + apply bool_decide_eq_true. by apply map_has_true.
    + apply bool_decide_eq_false. apply map_has_false in E. rewrite E. by intros [? ?].
  - intros e s. simpl. split; [done|]. apply to_gmap_set.
Defined.

(** ** Deduplication keys *)

Lemma chars_app a b : chars (a +:+ b) = chars a ++ chars b.
Proof. unfold chars. induction a as [|c a IH]; simpl; [done|]. by rewrite IH. Qed.

Lemma chars_inj a b : chars a = chars b -> a = b.
Proof.
  unfold chars. intros H. apply (f_equal String.string_of_list_ascii) in H.
  by rewrite !String.string_of_list_ascii_of_string in H.
Qed.

Definition colon : ascii := ":"%char.

Lemma pretty_go_no_colon x t : colon ∉ chars t -> colon ∉ chars (pretty_N_go x t).
Proof.
  revert t. induction (N.lt_wf_0 x) as [x _ IH]; intros t Ht.
  destruct (decide (x = 0%N)) as [-> |Hx]; [by rewrite pretty_N_go_0|].
  rewrite pretty_N_go_step by lia. apply IH; [apply N.div_lt; lia|].
  unfold chars. simpl. apply not_elem_of_cons. split; [|done].
  unfold pretty_N_char, colon. by repeat case_match.
Qed.

Lemma pretty_no_colon (x : N) : colon ∉ chars (pretty x).
Proof.
  unfold pretty, pretty_N. case_decide; [by apply (bool_decide_unpack _); vm_compute|].
  apply pretty_go_no_colon. inversion 1.
Qed.

(** Deduplication keys identify events as long as contract ids contain no
    colon: two events with equal keys then have the same contract, event id and
    sequence number (sequence numbers below 10^21). *)
Theorem buildEventKey_injective big_text (a b : ContractEvent) :
  colon ∉ chars (contractId a) -> colon ∉ chars (contractId b) ->
  0 <= sequence a < 10 ^ 21 -> 0 <= sequence b < 10 ^ 21 ->
  buildEventKey big_text a = buildEventKey big_text b ->
  contractId a = contractId b /\ eventId a = eventId b /\ sequence a = sequence b.
Proof.
  intros Ha Hb Hsa Hsb. unfold buildEventKey, seq_text. rewrite !bool_decide_eq_true_2 by lia.
  intros Heq. apply (f_equal chars) in Heq. rewrite !chars_app in Heq.
  apply split_first in Heq as [Hc Heq]; [|done..].
  apply split_last in Heq as [He Hs]; [|apply pretty_no_colon..].
  split_and!; [by apply chars_inj..|].
  apply chars_inj in Hs. apply (inj pretty) in Hs. lia.
Qed.

(** *** Samples for evaluation *)

Definition sample_event (cid eid : string) (n : Z) : value :=
  VObject [("contractId", VString cid); ("eventId", VString eid); ("sequence", VNumber (of_int n));
           ("timestamp", VString "2026-01-01T00:00:00Z"); ("type", VString "CONTRACT_FUNDED");
           ("payload", VObject [])]%string.

Definition any_date (s : string) : bool := true.
Definition no_numbers (s : string) : number := NaN.
Definition no_text (n : Z) : string := EmptyString.
Definition tick (n : nat) : string := "2026-01-01T00:00:00.000Z".

Notation run_batch vs s cs := (indexBatch (S := memory) any_date no_numbers no_text tick "chain" vs s cs).

(** Colons in contract or event ids make distinct events collide: the
    event e1 of contract "a:b" and the event "b:e1" of contract "a" have the
    same key, so the second is dropped as a duplicate of the first. *)
Theorem buildEventKey_collision :
  let vs := [sample_event "a:b" "e1" 7; sample_event "a" "b:e1" 7]%string in
  let '(r, (s, _)) := run_batch vs [] [] in
  processedCount r = 1%nat /\ duplicateCount r = 1%nat /\ length s = 1%nat.
Proof. vm_compute. done. Qed.

(** The checkpoint of a source can move backwards: after sequence 10 was
    indexed, a batch that only carries the older sequence 3 sets it to 3, and
    the next resume starts from 4 instead of 11. *)
Theorem checkpoint_moves_backwards :
  let '(_, (s1, cs1)) := run_batch [sample_event "a" "e10" 10] [] [] in
  let '(_, (_, cs2)) := run_batch [sample_event "a" "e3" 3] s1 cs1 in
  resumeFromSequence (resumeFromCursor "chain" None cs1) = 11 /\
  resumeFromSequence (resumeFromCursor "chain" None cs2) = 4.
Proof. vm_compute. done. Qed.

(** ** Witnesses *)

Definition sample_batch : list value :=
  [sample_event "a" "e2" 2; VString "junk"; sample_event "a" "e1" 1; sample_event "a" "e2" 2]%string.

Lemma indexBatch_spec_witness :
  let '(r, (s', _)) := run_batch sample_batch [] [] in
  dom (stored s') = {[ "a:e1:1"; "a:e2:2" ]}%string /\ processedCount r = 2%nat /\ length (errors r) = 1%nat.
Proof.
  pose proof (indexBatch_spec any_date no_numbers no_text tick "chain" sample_batch ([] : memory) []) as H.
  destruct (run_batch sample_batch [] []) as [r [s' cs']] eqn:E.
  destruct H as (_ & -> & _ & _ & _ & ->). vm_compute in E. injection E as <- <- <-.
  split_and!; vm_compute; reflexivity.
Defined.

Lemma indexBatch_replay_witness :
  let '(_, (s', cs')) := run_batch sample_batch [] [] in
  let '(r2, (s2, _)) := run_batch sample_batch s' cs' in
  processedCount r2 = 0%nat /\ duplicateCount r2 = 3%nat /\ s2 = s'.
Proof.
  pose proof (indexBatch_replay any_date no_numbers no_text tick tick "chain" sample_batch ([] : memory) []) as H.
  destruct (run_batch sample_batch [] []) as [r [s' cs']].
  destruct (run_batch sample_batch s' cs') as [r2 [s2 cs2]].
  destruct H as (H1 & H2 & _ & H3 & _). split_and!; [exact H1| |exact H3].
  rewrite H2. vm_compute. reflexivity.
Defined.

Lemma checkpoint_is_batch_maximum_witness :
  let '(_, (_, cs')) := run_batch sample_batch [] [] in
  (lastSequence <$> getCursor "chain" cs') = Some 2.
Proof.
  pose proof (checkpoint_is_batch_maximum any_date no_numbers no_text tick "chain" sample_batch ([] : memory) []) as H.
  destruct (run_batch sample_batch [] []) as [r [s' cs']].
  destruct H as [-> _]. vm_compute. reflexivity.
Defined.

Lemma buildEventKey_injective_witness :
  let e := {| contractId := "c1"; eventId := "x:1"; sequence := 5; timestamp := "t";
              type := "CONTRACT_FUNDED"; payload := VUndefined |}%string in
  contractId e = contractId e /\ eventId e = eventId e /\ sequence e = sequence e.
Proof.
  cbv zeta. eapply (buildEventKey_injective no_text); try reflexivity; simpl; try lia;
    by apply (bool_decide_unpack _); vm_compute.
Defined.

End Indexer.
