(* ===== verification/WebhookDlq.v ===== *)
(** * Webhook dead letters: class [WebhookDLQStorage] of src/queue/webhook-dlq.ts

    The [webhook_dlq] table is a list of rows keyed by primary key, in rowid
    order.  The JSON text of a body is kept as the value it denotes
    ([Json.json_image]); SHA-256 and number formatting are parameters.
    [addEntry] awaits the pending count before it writes, so it is modelled in
    two parts, [addEntry_count] and [addEntry_insert]. *)

From stdpp Require Import prelude gmap strings sorting.
From Stdlib Require Import ZArith Lia Ascii.
From S2P Require Import Prelude JsMap JsValue JsString Regex Cursor Json.
Open Scope Z_scope.

Module Dlq.

Record WebhookDLQEntry : Type := {
  id : string;
  webhookId : string;
  url : string;
  body : value;
  retryCount : Z;
  webhookSecret : option string;
  failedAt : string;
  lastError : string;
  dedupeKey : string;
  replayedAt : option string;
  replayAttempts : Z;
  createdAt : string;
  updatedAt : string;
}.

Record DLQConfig : Type := { maxCapacity : Z; maxReplayAttempts : Z }.
Definition DEFAULT_DLQ_CONFIG : DLQConfig := {| maxCapacity := 10000; maxReplayAttempts := 5 |}.

Notation table := (list (string * WebhookDLQEntry)).

Inductive error : Type := DUPLICATE_ENTRY | StorageError.

Definition pending (e : WebhookDLQEntry) : bool :=
  match replayedAt e with None => true | Some _ => false end.

Definition pending_rows (t : table) : table := filter (fun e => pending e.2 = true) t.

Definition getPendingCount (t : table) : Z := Z.of_nat (length (pending_rows t)).

(** ORDER BY failed_at ASC LIMIT 1: the first of the rows with the least text. *)
Fixpoint oldest (l : table) : option (string * WebhookDLQEntry) :=
  match l with
  | [] => None
  | e :: l' =>
      match oldest l' with
      | Some e' => if decide (String.le (failedAt e.2) (failedAt e'.2)) then Some e else Some e'
      | None => Some e
      end
  end.

Definition evictOldest (t : table) : table :=
  match oldest (pending_rows t) with
  | Some e => map_delete e.1 t
  | None => t
  end.

Definition getEntry (i : string) (t : table) : option WebhookDLQEntry := map_get i t.

Record WebhookDLQQuery : Type := {
  q_limit : option Z;
  q_offset : option Z;
  q_since : option string;
  q_until : option string;
}.

Definition given (s : option string) : option string :=
  match s with Some t => if String.eqb t EmptyString then None else Some t | None => None end.

Definition in_range (q : WebhookDLQQuery) (e : WebhookDLQEntry) : bool :=
  match given (q_since q) with Some s => bool_decide (String.le s (failedAt e)) | None => true end &&
  match given (q_until q) with Some u => bool_decide (String.le (failedAt e) u) | None => true end.

Definition newer (a b : WebhookDLQEntry) : Prop := String.le (failedAt b) (failedAt a).
#[export] Instance newer_dec : RelDecision newer.
Proof. unfold newer. intros a b. apply _. Defined.

Definition sql_limit {A} (lim off : Z) (l : list A) : list A :=
  let rest := drop (Z.to_nat off) l in if lim <? 0 then rest else take (Z.to_nat lim) rest.

Definition listEntries (q : WebhookDLQQuery) (t : table) : list WebhookDLQEntry :=
  sql_limit (default 50 (q_limit q)) (default 0 (q_offset q))
    (merge_sort newer (filter (fun e => in_range q e = true) (map_values t))).

Definition with_replayed (now : string) (e : WebhookDLQEntry) : WebhookDLQEntry :=
  {| id := id e; webhookId := webhookId e; url := url e; body := body e; retryCount := retryCount e;
     webhookSecret := webhookSecret e; failedAt := failedAt e; lastError := lastError e;
     dedupeKey := dedupeKey e; replayedAt := Some now; replayAttempts := replayAttempts e;
     createdAt := createdAt e; updatedAt := now |}.

Definition with_attempts (n : Z) (now : string) (e : WebhookDLQEntry) : WebhookDLQEntry :=
  {| id := id e; webhookId := webhookId e; url := url e; body := body e; retryCount := retryCount e;
     webhookSecret := webhookSecret e; failedAt := failedAt e; lastError := lastError e;
     dedupeKey := dedupeKey e; replayedAt := replayedAt e; replayAttempts := n;
     createdAt := createdAt e; updatedAt := now |}.

Definition markReplayed (now i : string) (t : table) : bool * table :=
  match map_get i t with
  | Some e => (true, map_set i (with_replayed now e) t)
  | None => (false, t)
  end.

Definition deleteEntry (i : string) (t : table) : bool * table := (map_has i t, map_delete i t).

Record attempt_result : Type := { success : bool; attempts : Z; maxExceeded : bool }.

Definition incrementReplayAttempts (cfg : DLQConfig) (now i : string) (t : table)
  : attempt_result * table :=
  match getEntry i t with
  | None => ({| success := false; attempts := 0; maxExceeded := false |}, t)
  | Some e =>
      let n := replayAttempts e + 1 in
      if maxReplayAttempts cfg <=? n
      then ({| success := true; attempts := n; maxExceeded := true |}, (deleteEntry i t).2)
      else ({| success := true; attempts := n; maxExceeded := false |},
            map_set i (with_attempts n now e) t)
  end.

Record stats : Type := { s_total : Z; s_pending : Z; s_replayed : Z }.

Definition getStats (t : table) : stats :=
  {| s_total := Z.of_nat (length t); s_pending := getPendingCount t;
     s_replayed := Z.of_nat (length (filter (fun e => pending e.2 = false) t)) |}.

Section Dlq.
Context (number_text : number -> list ascii) (sha256 : list ascii -> string) (cfg : DLQConfig).

Definition generateDedupeKey (webhook : string) (payload : value) : string :=
  sha256 (chars webhook ++ ":"%char ::
          default (chars "undefined") (Json.stringify number_text payload)).

Definition checkDedupe (webhook : string) (payload : value) (t : table) : option string :=
  fst <$> head (filter (fun e => dedupeKey e.2 = generateDedupeKey webhook payload /\ pending e.2 = true) t).

Definition new_entry (uuid now webhook target : string) (payload : value) (retries : Z)
    (err : string) (secret : option string) : WebhookDLQEntry :=
  {| id := uuid; webhookId := webhook; url := target; body := Json.json_image payload;
     retryCount := retries; webhookSecret := given secret; failedAt := now; lastError := err;
     dedupeKey := generateDedupeKey webhook payload; replayedAt := None; replayAttempts := 0;
     createdAt := now; updatedAt := now |}.

(** The part of [addEntry] before its first await. *)
Definition addEntry_count (t : table) : Z := getPendingCount t.

(** The rest: evict when the count that was read is at the capacity, then
    INSERT under UNIQUE(dedupe_key) and the primary key. *)
Definition addEntry_insert (seen : Z) (e : WebhookDLQEntry) (t : table) : result error string * table :=
  let t1 := if maxCapacity cfg <=? seen then evictOldest t else t in
  if existsb (fun r => String.eqb (dedupeKey r) (dedupeKey e)) (map_values t1)
  then (Err DUPLICATE_ENTRY, t1)
  else if map_has (id e) t1 then (Err StorageError, t1)
  else (Ok (id e), map_set (id e) e t1).

(** The whole call when nothing runs in between. *)
Definition addEntry (e : WebhookDLQEntry) (t : table) : result error string * table :=
  addEntry_insert (addEntry_count t) e t.

(** ** Runs *)

Inductive op : Type :=
| OpAdd (uuid now webhook target : string) (payload : value) (retries : Z) (err : string)
    (secret : option string)
| OpMark (now i : string)
| OpAttempt (now i : string)
| OpDelete (i : string).

Definition exec (o : op) (t : table) : table :=
  match o with
  | OpAdd uuid now w u p n err k => (addEntry (new_entry uuid now w u p n err k) t).2
  | OpMark now i => (markReplayed now i t).2
  | OpAttempt now i => (incrementReplayAttempts cfg now i t).2
  | OpDelete i => (deleteEntry i t).2
  end.

Definition run (ops : list op) (t : table) : table := foldl (fun t o => exec o t) t ops.

Record row_ok (k : string) (e : WebhookDLQEntry) : Prop := {
  row_id : id e = k;
  row_key : dedupeKey e = generateDedupeKey (webhookId e) (body e);
  row_image : Json.json_image (body e) = body e;
}.

Record dlq_ok (t : table) : Prop := {
  ok_wf : wf t;
  ok_rows : forall k e, map_get k t = Some e -> row_ok k e;
  ok_unique : forall k1 k2 e1 e2, map_get k1 t = Some e1 -> map_get k2 t = Some e2 ->
    dedupeKey e1 = dedupeKey e2 -> k1 = k2;
}.

Lemma dedupe_image w p : generateDedupeKey w (Json.json_image p) = generateDedupeKey w p.
Proof. unfold generateDedupeKey. by rewrite Json.stringify_image. Qed.

Lemma new_entry_ok uuid now w u p n err k : row_ok uuid (new_entry uuid now w u p n err k).
Proof. split; simpl; [done|by rewrite dedupe_image|apply Json.image_idempotent]. Qed.

Lemma dlq_ok_delete i t : dlq_ok t -> dlq_ok (map_delete i t).
Proof.
  intros [Hwf Hr Hu]. assert (Hsub : forall k e, map_get k (map_delete i t) = Some e -> map_get k t = Some e).
  { intros k e. destruct (decide (i = k)) as [->|Hne]; [by rewrite map_get_delete_eq|by rewrite map_get_delete_ne]. }
  split; [by apply wf_delete|eauto|]. intros k1 k2 e1 e2 H1 H2. eauto.
Qed.

Lemma dlq_ok_evict t : dlq_ok t -> dlq_ok (evictOldest t).
Proof. intros Hok. unfold evictOldest. destruct (oldest _); [by apply dlq_ok_delete|done]. Qed.

(** Rewriting a row in place keeps its key. *)
Lemma dlq_ok_update i e e' t :
  dlq_ok t -> map_get i t = Some e -> id e' = id e -> webhookId e' = webhookId e ->
  body e' = body e -> dedupeKey e' = dedupeKey e -> dlq_ok (map_set i e' t).
Proof.
  intros [Hwf Hr Hu] Hi H1 H2 H3 H4. split; [by apply wf_set| |].
  - intros k q Hq. destruct (decide (i = k)) as [->|Hne].
    + rewrite map_get_set_eq in Hq. simplify_eq. destruct (Hr k e Hi). split; congruence.
    + rewrite map_get_set_ne in Hq by done. auto.
  - assert (Hback : forall k q, map_get k (map_set i e' t) = Some q ->
      exists q', map_get k t = Some q' /\ dedupeKey q' = dedupeKey q).
    { intros k q Hq. destruct (decide (i = k)) as [->|Hne].
      - rewrite map_get_set_eq in Hq. simplify_eq. eauto.
      - rewrite map_get_set_ne in Hq by done. eauto. }
    intros k1 k2 e1 e2 (q1 & G1 & K1)%Hback (q2 & G2 & K2)%Hback E. eapply Hu; eauto. congruence.
Qed.

Lemma dlq_ok_insert e t :
  dlq_ok t -> row_ok (id e) e -> map_get (id e) t = None ->
  existsb (fun r => String.eqb (dedupeKey r) (dedupeKey e)) (map_values t) = false ->
  dlq_ok (map_set (id e) e t).
Proof.
  intros [Hwf Hr Hu] He Hid Hex.
  assert (Hnew : forall k q, map_get k t = Some q -> dedupeKey q <> dedupeKey e).
  { intros k q Hq E. apply not_true_iff_false in Hex. apply Hex. apply existsb_exists. exists q. split.
    - apply list_elem_of_In, elem_of_map_values; eauto.
    - by apply String.eqb_eq. }
  split; [by apply wf_set| |].
  - intros k q Hq. destruct (decide (id e = k)) as [<-|Hne].
    + rewrite map_get_set_eq in Hq. by simplify_eq.
    + rewrite map_get_set_ne in Hq by done. auto.
  - intros k1 k2 e1 e2 [[-> ->]|[N1 H1]]%map_get_set_inv [[-> ->]|[N2 H2]]%map_get_set_inv E; try done.
    + by destruct (Hnew _ _ H2).
    + by destruct (Hnew _ _ H1).
    + eauto.
Qed.

Lemma addEntry_insert_ok seen e t :
  dlq_ok t -> row_ok (id e) e -> dlq_ok (addEntry_insert seen e t).2.
Proof.
  intros Hok He. unfold addEntry_insert.
  set (t1 := if maxCapacity cfg <=? seen then evictOldest t else t).
  assert (H1 : dlq_ok t1) by (unfold t1; destruct (_ <=? _); [by apply dlq_ok_evict|done]).
  destruct (existsb _ _) eqn:Hex; [done|]. destruct (map_has (id e) t1) eqn:Hh; [done|].
  apply dlq_ok_insert; try done. by apply map_has_false.
Qed.

Lemma markReplayed_ok now i t : dlq_ok t -> dlq_ok (markReplayed now i t).2.
Proof.
  intros Hok. unfold markReplayed. destruct (map_get i t) as [e|] eqn:E; [|done].
  by apply (dlq_ok_update i e).
Qed.

Lemma exec_dlq_ok o t : dlq_ok t -> dlq_ok (exec o t).
Proof.
  intros Hok. destruct o; simpl.
  - apply addEntry_insert_ok; [done|apply new_entry_ok].
  - by apply markReplayed_ok.
  - unfold incrementReplayAttempts. destruct (getEntry i t) as [e|] eqn:E; [|done].
    destruct (_ <=? _); simpl; [by apply dlq_ok_delete|]. by apply (dlq_ok_update i e).
  - by apply dlq_ok_delete.
Qed.

(** A pending row is always found by its own deduplication key. *)
Lemma checkDedupe_self i e t :
  dlq_ok t -> map_get i t = Some e -> pending e = true ->
  checkDedupe (webhookId e) (body e) t = Some i.
Proof.
  intros [Hwf Hr Hu] Hi Hp. unfold checkDedupe. destruct (Hr i e Hi) as [_ Hk _].
  assert (Hin : (i, e) ∈ filter (fun x => dedupeKey x.2 = generateDedupeKey (webhookId e) (body e) /\
    pending x.2 = true) t) by (apply list_elem_of_filter; split; [done|by apply map_get_elem_of]).
  destruct (filter _ t) as [|[k q] l] eqn:E; [by apply not_elem_of_nil in Hin|].
  assert (Hq : (k, q) ∈ (k, q) :: l) by left. rewrite <- E in Hq.
  apply list_elem_of_filter in Hq as [[Hkq _] Hq]. simpl in *. f_equal.
  eapply Hu; [by apply elem_of_map_get|done|congruence].
Qed.

Lemma oldest_in l e : oldest l = Some e -> e ∈ l.
Proof.
  revert e. induction l as [|x l IH]; intros e; simpl; [done|].
  destruct (oldest l) as [y|] eqn:E; [case_decide|]; intros [= <-]; [left|right; auto|left].
Qed.

(** A replayed row is never evicted, so its key stays taken. *)
Lemma evict_keeps_replayed t i q :
  wf t -> map_get i t = Some q -> pending q = false -> map_get i (evictOldest t) = Some q.
Proof.
  intros Hwf Hi Hp. unfold evictOldest. destruct (oldest (pending_rows t)) as [[k e]|] eqn:E; [|done].
  apply oldest_in, list_elem_of_filter in E as [Hpe Hin]. simpl in *.
  rewrite map_get_delete_ne; [done|]. intros ->. apply elem_of_map_get in Hin; [|done]. congruence.
Qed.

Lemma addEntry_duplicate t e i q :
  wf t -> map_get i t = Some q -> pending q = false -> dedupeKey e = dedupeKey q ->
  addEntry_insert (addEntry_count t) e t =
  (Err DUPLICATE_ENTRY, if maxCapacity cfg <=? addEntry_count t then evictOldest t else t).
Proof.
  intros Hwf Hi Hp Hk. unfold addEntry_insert.
  set (t1 := if maxCapacity cfg <=? addEntry_count t then evictOldest t else t).
  assert (Hi1 : map_get i t1 = Some q)
    by (unfold t1; destruct (_ <=? _); [by apply evict_keeps_replayed|done]).
  replace (existsb _ _) with true; [done|]. symmetry. apply existsb_exists. exists q. split.
  - unfold map_values. apply list_elem_of_In, list_elem_of_fmap. exists (i, q). split; [done|].
    by apply map_get_elem_of.
  - apply String.eqb_eq. by symmetry.
Qed.

(** *** Counting pending rows *)

Lemma oldest_None l : oldest l = None -> l = [].
Proof. destruct l as [|x l]; simpl; [done|]. destruct (oldest l); [case_decide|]; done. Qed.

(** The evicted row is the one that failed first. *)
Lemma oldest_least l e e' : oldest l = Some e -> e' ∈ l -> String.le (failedAt e.2) (failedAt e'.2).
Proof.
  revert e. induction l as [|x l IH]; intros e He Hin; [done|]. simpl in He.
  destruct (oldest l) as [y|] eqn:E.
  - apply elem_of_cons in Hin as [->|Hin]; case_decide as Hle; simplify_eq.
    + reflexivity.
    + destruct (total String.le (failedAt x.2) (failedAt e.2)); [done|done].
    + etransitivity; [exact Hle|]. by apply IH.
    + by apply IH.
  - apply oldest_None in E as ->. apply list_elem_of_singleton in Hin as ->. simplify_eq. reflexivity.
Qed.

Lemma pending_delete k t : pending_rows (map_delete k t) = map_delete k (pending_rows t).
Proof.
  unfold pending_rows, map_delete. induction t as [|x t IH]; [done|].
  rewrite !filter_cons.
  repeat case_decide; rewrite ?filter_cons; repeat case_decide; first [tauto | congruence].
Qed.

Lemma pending_wf t : wf t -> wf (pending_rows t).
Proof. apply wf_filter. Qed.

Lemma evict_count t : wf t -> pending_rows t <> [] ->
  getPendingCount (evictOldest t) = getPendingCount t - 1.
Proof.
  intros Hwf Hne. unfold getPendingCount, evictOldest.
  destruct (oldest (pending_rows t)) as [[k e]|] eqn:E; [|by apply oldest_None in E].
  apply oldest_in in E. simpl. rewrite pending_delete.
  pose proof (pending_wf t Hwf) as Hpw.
  pose proof (length_delete_Some (pending_rows t) k e Hpw (elem_of_map_get _ _ _ Hpw E)). lia.
Qed.

Lemma pending_update_le i e e' t :
  wf t -> map_get i t = Some e -> (pending e' = true -> pending e = true) ->
  getPendingCount (map_set i e' t) <= getPendingCount t.
Proof.
  intros Hwf Hi Hp. unfold getPendingCount, pending_rows. apply inj_le.
  clear Hwf. induction t as [|[k q] t IH]; simpl in *; [done|]. case_decide.
  - simplify_eq. rewrite !filter_cons. simpl. repeat case_decide; simpl; try lia. by destruct H0; apply Hp.
  - rewrite !filter_cons. simpl. case_decide; simpl; [apply le_n_S|]; auto.
Qed.

Lemma pending_delete_le i t : wf t -> getPendingCount (map_delete i t) <= getPendingCount t.
Proof.
  intros _. unfold getPendingCount. rewrite pending_delete. unfold map_delete. apply inj_le, length_filter.
Qed.

Lemma pending_insert i e t : map_get i t = None ->
  getPendingCount (map_set i e t) <= getPendingCount t + 1.
Proof.
  intros Hi. unfold getPendingCount, pending_rows. rewrite map_set_None by done.
  rewrite filter_app, length_app, filter_cons. simpl. case_decide; simpl; lia.
Qed.

Lemma addEntry_count_le e t :
  wf t -> 1 <= maxCapacity cfg -> getPendingCount t <= maxCapacity cfg ->
  getPendingCount (addEntry e t).2 <= maxCapacity cfg.
Proof.
  intros Hwf Hcap Hle. unfold addEntry, addEntry_insert, addEntry_count.
  set (t1 := if maxCapacity cfg <=? getPendingCount t then evictOldest t else t).
  assert (H1 : getPendingCount t1 <= maxCapacity cfg - 1).
  { unfold t1. destruct (Z.leb_spec (maxCapacity cfg) (getPendingCount t)); [|lia].
    rewrite evict_count; [lia|done|]. intros E. unfold getPendingCount in *. rewrite E in *. simpl in *. lia. }
  destruct (existsb _ _); simpl; [lia|]. destruct (map_has (id e) t1) eqn:Hh; simpl; [lia|].
  apply map_has_false in Hh. pose proof (pending_insert (id e) e t1 Hh). lia.
Qed.

(** ** Properties *)

(** Invariant.  Whatever failed deliveries, replays, attempts and deletions
    are recorded, every row carries the deduplication key of its own webhook id
    and body, no two rows share a key, and (when no two insertions overlap) the
    number of pending rows never exceeds the capacity. *)
Theorem dlq_invariant ops t :
  1 <= maxCapacity cfg -> dlq_ok t -> getPendingCount t <= maxCapacity cfg ->
  dlq_ok (run ops t) /\ getPendingCount (run ops t) <= maxCapacity cfg.
Proof.
  intros Hcap. revert t. induction ops as [|o ops IH]; intros t Hok Hle; [done|].
  apply IH; [by apply exec_dlq_ok|]. pose proof (ok_wf _ Hok) as Hwf. destruct o; simpl.
  - by apply addEntry_count_le.
  - unfold markReplayed. destruct (map_get i t) as [e|] eqn:E; [|done]. simpl.
    pose proof (pending_update_le i e (with_replayed now e) t Hwf E ltac:(done)). lia.
  - unfold incrementReplayAttempts. destruct (getEntry i t) as [e|] eqn:E; [|done].
    destruct (_ <=? _); simpl; [pose proof (pending_delete_le i t Hwf); lia|].
    pose proof (pending_update_le i e (with_attempts (replayAttempts e + 1) now e) t Hwf E ltac:(done)). lia.
  - pose proof (pending_delete_le i t Hwf). lia.
Qed.

End Dlq.

(** ** Overlap and duplicates *)

Definition sample_sha (l : list ascii) : string := String.string_of_list_ascii l.
Definition sample_text (n : number) : list ascii := chars "0".
Definition small : DLQConfig := {| maxCapacity := 1; maxReplayAttempts := 5 |}.

Definition sample_entry (u w at_ : string) : WebhookDLQEntry :=
  new_entry sample_text sample_sha u at_ w "https://example.com/" VNull 1 "boom" None.

(** Two insertions that both read the count before either writes exceed the
    capacity. *)
Example capacity_overshoot :
  let seen := addEntry_count [] in
  let t1 := (addEntry_insert small seen (sample_entry "a" "w1" "2026-01-01") []).2 in
  let t2 := (addEntry_insert small seen (sample_entry "b" "w2" "2026-01-02") t1).2 in
  getPendingCount t2 = 2 /\ maxCapacity small = 1.
Proof. vm_compute. done. Qed.

(** At capacity a duplicate evicts another event and stores nothing. *)
Example duplicate_evicts :
  let t1 := [("b"%string, sample_entry "b" "w2" "2026-01-01")] in
  let t2 := (markReplayed "2026-01-03" "c" [("b"%string, sample_entry "b" "w2" "2026-01-01");
                                    ("c"%string, sample_entry "c" "w1" "2026-01-02")]).2 in
  addEntry small (sample_entry "d" "w1" "2026-01-04") t2 =
    (Err DUPLICATE_ENTRY, map_delete "b"%string t2) /\ getPendingCount t1 = 1.
Proof. vm_compute. done. Qed.

Lemma dlq_invariant_witness :
  dlq_ok sample_text sample_sha
    (run sample_text sample_sha small
      [OpAdd "a" "2026-01-01" "w1" "https://example.com/" VNull 1 "boom" None;
       OpAdd "b" "2026-01-02" "w2" "https://example.com/" VNull 1 "boom" None; OpMark "2026-01-03" "b"] []).
Proof.
  apply (dlq_invariant sample_text sample_sha small
      [OpAdd "a" "2026-01-01" "w1" "https://example.com/" VNull 1 "boom" None;
       OpAdd "b" "2026-01-02" "w2" "https://example.com/" VNull 1 "boom" None; OpMark "2026-01-03" "b"] []).
  - vm_compute. discriminate.
  - split; [constructor|done|done].
  - vm_compute. discriminate.
Defined.

End Dlq.
