(* ===== verification/Webhooks.v ===== *)
(** * Webhook delivery: class [WebhookService] of src/services/webhook.service.ts

    A delivery is a loop of attempts; each attempt is two pieces of synchronous
    code, [begin_attempt] up to the HTTP request and [end_attempt] after its
    outcome, and other deliveries may run between them.  [send] is one delivery
    run to its end; [exec]/[run] interleave the pieces of any number of
    deliveries.  The URL parser, HMAC, SHA-256, number formatting, clock, ids and
    HTTP outcomes are parameters. *)

From stdpp Require Import prelude gmap strings pretty.
From Stdlib Require Import ZArith Lia Ascii.
From S2P Require Import Prelude JsMap JsValue JsArith JsString Regex Ssrf Cursor Json WebhookSigning RateLimiter WebhookDlq.
Open Scope Z_scope.

Module Webhooks.

Record WebhookPayload : Type := {
  p_id : string;
  p_url : string;
  p_data : value;
  p_retryCount : Z;
  p_secret : option string;
  p_correlationId : option string;
}.

(** The module constants, resolved from the environment when it loads. *)
Record settings : Type := {
  HOST_RATE_LIMIT_MAX : Z;
  HOST_RATE_LIMIT_WINDOW_MS : Z;
  WEBHOOK_MAX_PAYLOAD_SIZE_BYTES : Z;
  maxAttempts : nat;
  dlqConfig : Dlq.DLQConfig;
  env : Ssrf.Env;
}.

Record request : Type := {
  q_event : string;
  q_url : string;
  q_data : value;
  q_headers : list (string * list ascii);
}.

Inductive reason : Type :=
| PAYLOAD_TOO_LARGE (bytes limit : Z)
| SSRF_BLOCKED
| RATE_LIMITED (host : string)
| DELIVERY_4XX (status : Z)
| RETRY_EXHAUSTED (message : string).

Definition reason_text (r : reason) : string :=
  match r with
  | PAYLOAD_TOO_LARGE b l =>
      "WEBHOOK_PAYLOAD_TOO_LARGE: payload " +:+ pretty b +:+ " bytes exceeds limit of " +:+
      pretty l +:+ " bytes"
  | SSRF_BLOCKED => "WEBHOOK_SSRF_BLOCKED: destination URL is private or invalid"
  | RATE_LIMITED h => "WEBHOOK_RATE_LIMITED: host " +:+ h +:+ " exceeded delivery limit"
  | DELIVERY_4XX n => "WEBHOOK_DELIVERY_4XX: downstream returned HTTP " +:+ pretty n
  | RETRY_EXHAUSTED m => "WEBHOOK_RETRY_EXHAUSTED: " +:+ m
  end.

(** How the HTTP request ended: a response, or an error with the status of the
    response when there was one ([getErrorStatus]). *)
Inductive http_outcome : Type :=
| Delivered_2xx
| Failed (status : option Z) (message : string).

(** Where a delivery stands.  [Swallowed] is the silent return on a duplicate
    dead letter; [Rejected] is a rejected promise. *)
Inductive phase : Type :=
| Ready (attempt : nat)
| InFlight (attempt : nat)
| Delivered
| DeadLettered
| Swallowed
| Rejected.

Definition finished (p : phase) : bool :=
  match p with Ready _ | InFlight _ => false | _ => true end.

Record world : Type := {
  dlq : list (string * Dlq.WebhookDLQEntry);
  hosts : RateLimit.RateLimitStore;
  posts : list request;
}.

Definition set_dlq t (w : world) : world := {| dlq := t; hosts := hosts w; posts := posts w |}.
Definition set_hosts h (w : world) : world := {| dlq := dlq w; hosts := h; posts := posts w |}.
Definition add_post q (w : world) : world := {| dlq := dlq w; hosts := hosts w; posts := posts w ++ [q] |}.

(** What one synchronous piece draws from outside. *)
Record tick : Type := { now_ms : Z; now_iso : string; fresh : string }.

Definition is_token (c : ascii) : bool := is_alpha c || is_digit c || one_of "._-" c.

Definition isValidCorrelationId (s : string) : bool :=
  re_match (Plus (Class is_token)) s && bool_decide (length (chars s) ≤ 256)%nat.

Definition buildWebhookHeaders (correlationId : option string) : list (string * list ascii) :=
  ("Content-Type"%string, chars "application/json") ::
  match correlationId with
  | Some c => if negb (String.eqb c EmptyString) && isValidCorrelationId c
              then [("X-Correlation-Id"%string, chars c)] else []
  | None => []
  end.

Section Webhooks.
Context (cfg : settings) (url_host : string -> option string)
        (number_text : number -> list ascii) (hmac : string -> list ascii -> list ascii)
        (sha256 : list ascii -> string) (hash_key : string -> string).

(** [checkHostRateLimit] *)
Definition checkHostRateLimit (now : Z) (hostname : string) (s : RateLimit.RateLimitStore)
  : bool * RateLimit.RateLimitStore :=
  let fresh := {| RateLimit.count := 0; RateLimit.windowStart := now;
                  RateLimit.blocked := false; RateLimit.blockedUntil := 0 |} in
  let entry := default fresh (RateLimit.get hash_key hostname s) in
  let rolled := HOST_RATE_LIMIT_WINDOW_MS cfg <? now - RateLimit.windowStart entry in
  let counted := {| RateLimit.count := (if rolled then 0 else RateLimit.count entry) + 1;
                    RateLimit.windowStart := if rolled then now else RateLimit.windowStart entry;
                    RateLimit.blocked := RateLimit.blocked entry;
                    RateLimit.blockedUntil := RateLimit.blockedUntil entry |} in
  (RateLimit.count counted <=? HOST_RATE_LIMIT_MAX cfg, RateLimit.set hash_key hostname counted s).

Definition persistToDLQ (t : tick) (p : WebhookPayload) (r : reason) (w : world) : phase * world :=
  let entry := Dlq.new_entry number_text sha256 (fresh t) (now_iso t) (p_id p) (p_url p) (p_data p)
                 (p_retryCount p) (reason_text r) (p_secret p) in
  match Dlq.addEntry (dlqConfig cfg) entry (dlq w) with
  | (Ok _, d) => (DeadLettered, set_dlq d w)
  | (Err Dlq.DUPLICATE_ENTRY, d) => (Swallowed, set_dlq d w)
  | (Err Dlq.StorageError, d) => (Rejected, set_dlq d w)
  end.

Definition headers (now : Z) (p : WebhookPayload) : list (string * list ascii) :=
  buildWebhookHeaders (p_correlationId p) ++
  match Dlq.given (p_secret p) with
  | Some k =>
      let s := Signing.createWebhookSignature number_text hmac (p_data p) k now in
      [("X-Signature"%string, chars "sha256=" ++ Signing.signature s);
       ("X-Timestamp"%string, number_text (of_int (Signing.timestamp s)))]
  | None => []
  end.

Definition post_of (now : Z) (p : WebhookPayload) : request :=
  {| q_event := p_id p; q_url := p_url p; q_data := p_data p; q_headers := headers now p |}.

(** One iteration of the loop, up to the request. *)
Definition try_attempt (n : nat) (t : tick) (p : WebhookPayload) (w : world) : phase * world :=
  match Ssrf.isSafeUrl url_host (env cfg) (p_url p) with
  | None => (Rejected, w)
  | Some false => persistToDLQ t p SSRF_BLOCKED w
  | Some true =>
      match url_host (p_url p) with
      | None => (Rejected, w)
      | Some host =>
          let '(allowed, h) := checkHostRateLimit (now_ms t) host (hosts w) in
          if allowed then (InFlight n, add_post (post_of (now_ms t) p) (set_hosts h w))
          else persistToDLQ t p (RATE_LIMITED host) (set_hosts h w)
      end
  end.

(** The first piece also measures the payload. *)
Definition begin_attempt (n : nat) (t : tick) (p : WebhookPayload) (w : world) : phase * world :=
  match n with
  | O =>
      match Json.stringify number_text (p_data p) with
      | None => (Rejected, w)
      | Some raw =>
          let bytes := Z.of_nat (length (Cursor.utf8_encode raw)) in
          if WEBHOOK_MAX_PAYLOAD_SIZE_BYTES cfg <? bytes
          then persistToDLQ t p (PAYLOAD_TOO_LARGE bytes (WEBHOOK_MAX_PAYLOAD_SIZE_BYTES cfg)) w
          else try_attempt n t p w
      end
  | S _ => try_attempt n t p w
  end.

Definition with_retryCount (n : Z) (p : WebhookPayload) : WebhookPayload :=
  {| p_id := p_id p; p_url := p_url p; p_data := p_data p; p_retryCount := n;
     p_secret := p_secret p; p_correlationId := p_correlationId p |}.

(** The rest of the iteration, after the request of attempt [n] ended. *)
Definition end_attempt (n : nat) (o : http_outcome) (t : tick) (p : WebhookPayload) (w : world)
  : phase * WebhookPayload * world :=
  match o with
  | Delivered_2xx => (Delivered, p, w)
  | Failed status message =>
      let p' := with_retryCount (Z.of_nat n + 1) p in
      let finish r := let '(ph, w') := persistToDLQ t p' r w in (ph, p', w') in
      match status with
      | Some code =>
          if (400 <=? code) && (code <? 500) then finish (DELIVERY_4XX code)
          else if bool_decide (S n < maxAttempts cfg)%nat then (Ready (S n), p', w)
          else finish (RETRY_EXHAUSTED message)
      | None =>
          if bool_decide (S n < maxAttempts cfg)%nat then (Ready (S n), p', w)
          else finish (RETRY_EXHAUSTED message)
      end
  end.

(** [send], run to its end: attempt [n] ends with [outcome n]. *)
Fixpoint send_loop (fuel : nat) (outcome : nat -> http_outcome) (clock : nat -> tick) (n : nat)
    (p : WebhookPayload) (w : world) : phase * world :=
  match fuel with
  | O => (Ready n, w)
  | S fuel =>
      match begin_attempt n (clock (2 * n)%nat) p w with
      | (InFlight _, w1) =>
          match end_attempt n (outcome n) (clock (2 * n + 1)%nat) p w1 with
          | (Ready m, p', w2) => send_loop fuel outcome clock m p' w2
          | (ph, _, w2) => (ph, w2)
          end
      | (ph, w1) => (ph, w1)
      end
  end.

Definition send (outcome : nat -> http_outcome) (clock : nat -> tick) (p : WebhookPayload) (w : world)
  : phase * world := send_loop (maxAttempts cfg) outcome clock 0 p w.

(** ** Dead letters and replay *)

Record WebhookDLQView : Type := {
  v_id : string;
  v_webhookId : string;
  v_url : string;
  v_body : value;
  v_retryCount : Z;
  v_failedAt : string;
  v_error : string;
  v_dedupeKey : string;
  v_replayedAt : option string;
  v_replayAttempts : Z;
  v_createdAt : string;
  v_updatedAt : string;
}.

(** The secret is not part of the view. *)
Definition toDLQView (e : Dlq.WebhookDLQEntry) : WebhookDLQView :=
  {| v_id := Dlq.id e; v_webhookId := Dlq.webhookId e; v_url := Dlq.url e; v_body := Dlq.body e;
     v_retryCount := Dlq.retryCount e; v_failedAt := Dlq.failedAt e; v_error := Dlq.lastError e;
     v_dedupeKey := Dlq.dedupeKey e; v_replayedAt := Dlq.replayedAt e;
     v_replayAttempts := Dlq.replayAttempts e; v_createdAt := Dlq.createdAt e;
     v_updatedAt := Dlq.updatedAt e |}.

Definition no_filter (lim : option Z) : Dlq.WebhookDLQQuery :=
  {| Dlq.q_limit := lim; Dlq.q_offset := None; Dlq.q_since := None; Dlq.q_until := None |}.

Definition getDLQ (w : world) : list WebhookDLQView :=
  toDLQView <$> Dlq.listEntries (no_filter None) (dlq w).

Definition getDLQEntry (i : string) (w : world) : option WebhookDLQView :=
  toDLQView <$> Dlq.getEntry i (dlq w).

Inductive replay_result : Type :=
| EntryNotFound
| AlreadyReplayed
| Deduplicated
| ReplaySuccessful
| ReplayFailed.

(** [deliver] is [this.send]; [false] is a rejected promise. *)
Definition replayDLQEntry (deliver : WebhookPayload -> world -> bool * world) (now i : string)
    (w : world) : replay_result * world :=
  match Dlq.getEntry i (dlq w) with
  | None => (EntryNotFound, w)
  | Some e =>
      match Dlq.given (Dlq.replayedAt e) with
      | Some _ => (AlreadyReplayed, w)
      | None =>
          match Dlq.checkDedupe number_text sha256 (Dlq.webhookId e) (Dlq.body e) (dlq w) with
          | Some _ => (Deduplicated, set_dlq (Dlq.markReplayed now i (dlq w)).2 w)
          | None =>
              match deliver {| p_id := Dlq.webhookId e; p_url := Dlq.url e; p_data := Dlq.body e;
                               p_retryCount := 0; p_secret := Dlq.webhookSecret e;
                               p_correlationId := None |} w with
              | (true, w') => (ReplaySuccessful, set_dlq (Dlq.markReplayed now i (dlq w')).2 w')
              | (false, w') => (ReplayFailed, w')
              end
          end
      end
  end.

Record summary : Type := { attempted : Z; succeeded : Z; failed : Z; deduped : Z }.

Definition tally (r : replay_result) (s : summary) : summary :=
  {| attempted := attempted s + 1;
     succeeded := succeeded s + (match r with ReplaySuccessful => 1 | _ => 0 end);
     failed := failed s + (match r with
                           | EntryNotFound | AlreadyReplayed | ReplayFailed => 1 | _ => 0 end);
     deduped := deduped s + (match r with Deduplicated => 1 | _ => 0 end) |}.

(** [replayAll]; the entries of a batch start in order, and a replay that does
    not reach [deliver] runs to its end before the next one starts. *)
Definition replayAll (deliver : WebhookPayload -> world -> bool * world) (now : string) (w : world)
  : summary * world :=
  let entries := filter (fun e => Dlq.given (Dlq.replayedAt e) = None)
                   (Dlq.listEntries (no_filter (Some 10000)) (dlq w)) in
  foldl (fun acc e => let '(r, w') := replayDLQEntry deliver now (Dlq.id e) acc.2 in (tally r acc.1, w'))
    ({| attempted := 0; succeeded := 0; failed := 0; deduped := 0 |}, w) entries.

(** ** Interleaved deliveries *)

Record delivery : Type := { d_payload : WebhookPayload; d_phase : phase }.

Record machine : Type := { state : world; deliveries : list delivery }.

Inductive turn : Type :=
| Send (p : WebhookPayload)
| Begin (i : nat) (t : tick)                        (* run delivery [i] up to its request *)
| End (i : nat) (o : http_outcome) (t : tick)       (* its request ended *)
| Letters (o : Dlq.op)                              (* another use of the dead letters *)
| Sweep (now w : Z).                                (* the host counters are swept *)

Definition set_delivery (i : nat) (p : WebhookPayload) (ph : phase) (w : world) (m : machine) : machine :=
  {| state := w; deliveries := <[i := {| d_payload := p; d_phase := ph |}]> (deliveries m) |}.

Definition exec (t : turn) (m : machine) : machine :=
  match t with
  | Send p => {| state := state m; deliveries := deliveries m ++ [{| d_payload := p; d_phase := Ready 0 |}] |}
  | Begin i t =>
      match deliveries m !! i with
      | Some {| d_payload := p; d_phase := Ready n |} =>
          let '(ph, w) := begin_attempt n t p (state m) in set_delivery i p ph w m
      | _ => m
      end
  | End i o t =>
      match deliveries m !! i with
      | Some {| d_payload := p; d_phase := InFlight n |} =>
          let '(ph, p', w) := end_attempt n o t p (state m) in set_delivery i p' ph w m
      | _ => m
      end
  | Letters o =>
      {| state := set_dlq (Dlq.exec number_text sha256 (dlqConfig cfg) o (dlq (state m))) (state m);
         deliveries := deliveries m |}
  | Sweep now w =>
      {| state := set_hosts (RateLimit.sweep now w (hosts (state m))) (state m); deliveries := deliveries m |}
  end.

Definition run (ts : list turn) (m : machine) : machine := foldl (fun m t => exec t m) m ts.

(** ** The pieces *)

Definition key_of (p : WebhookPayload) : string :=
  Dlq.generateDedupeKey number_text sha256 (p_id p) (p_data p).

Definition filed (p : WebhookPayload) (w : world) : Prop :=
  exists i e, map_get i (dlq w) = Some e /\ Dlq.dedupeKey e = key_of p.

Lemma persist_cases t p r w :
  let '(ph, w') := persistToDLQ t p r w in
  posts w' = posts w /\ hosts w' = hosts w /\
  (ph = DeadLettered \/ ph = Swallowed \/ ph = Rejected) /\
  (wf (dlq w) -> ph <> Rejected -> filed p w').
Proof.
  unfold persistToDLQ, Dlq.addEntry, Dlq.addEntry_insert.
  set (e := Dlq.new_entry _ _ _ _ _ _ _ _ _ _).
  match goal with |- context [if ?c then Dlq.evictOldest (dlq w) else dlq w] => set (over := c) end.
  set (t1 := if over then Dlq.evictOldest (dlq w) else dlq w).
  assert (Hwf1 : wf (dlq w) -> wf t1).
  { intros Hwf. unfold t1. destruct over; [|done]. unfold Dlq.evictOldest.
    destruct (Dlq.oldest _); [by apply wf_delete|done]. }
  destruct (existsb _ _) eqn:Hex.
  - split_and!; simpl; auto. intros Hwf _. apply existsb_exists in Hex as (q & Hq & E).
    apply list_elem_of_In in Hq. apply elem_of_map_values in Hq as [i Hi]; [|auto].
    exists i, q. split; [done|]. by apply String.eqb_eq in E.
  - destruct (map_has (Dlq.id e) t1); simpl; split_and!; auto; [done|].
    intros _ _. exists (Dlq.id e), e. simpl. by rewrite map_get_set_eq.
Qed.

(** A piece that starts an attempt makes at most one request, to a URL that
    passed the guard, and then waits for it. *)
Definition begin_ok (n : nat) (t : tick) (p : WebhookPayload) (w : world) (r : phase * world) : Prop :=
  (r.1 = InFlight n /\ posts r.2 = posts w ++ [post_of (now_ms t) p] /\ dlq r.2 = dlq w /\
     Ssrf.isSafeUrl url_host (env cfg) (p_url p) = Some true) \/
  (finished r.1 = true /\ r.1 <> Delivered /\ posts r.2 = posts w /\
     (wf (dlq w) -> r.1 <> Rejected -> filed p r.2)).

Lemma begin_cases n t p w : begin_ok n t p w (begin_attempt n t p w).
Proof.
  assert (Hper : forall r w1, posts w1 = posts w -> dlq w1 = dlq w ->
    begin_ok n t p w (persistToDLQ t p r w1)).
  { intros r w1 Hp Hd. right. pose proof (persist_cases t p r w1) as H.
    destruct (persistToDLQ t p r w1) as [ph w']. destruct H as (H1 & _ & H2 & H3). simpl.
    rewrite Hp in H1. rewrite Hd in H3. destruct H2 as [->|[->| ->]]; split_and!; done. }
  assert (Hrej : begin_ok n t p w (Rejected, w)) by (right; split_and!; done).
  assert (Htry : begin_ok n t p w (try_attempt n t p w)).
  { unfold try_attempt. destruct (Ssrf.isSafeUrl _ _ _) as [[]|] eqn:Hsafe; [|by apply Hper|done].
    destruct (url_host (p_url p)) as [host|]; [|done].
    destruct (checkHostRateLimit (now_ms t) host (hosts w)) as [[] h]; [left; split_and!; done|by apply Hper]. }
  destruct n; [|exact Htry]. simpl. destruct (Json.stringify _ _); [|done].
  destruct (_ <? _); [by apply Hper|exact Htry].
Qed.

Definition same_event (p p' : WebhookPayload) : Prop :=
  p_id p' = p_id p /\ p_data p' = p_data p /\ p_url p' = p_url p.

(** The other piece makes no request: it is done, or the delivery goes on to
    the next attempt within the bound. *)
Definition end_ok (n : nat) (o : http_outcome) (p : WebhookPayload) (w : world)
    (r : phase * WebhookPayload * world) : Prop :=
  posts r.2 = posts w /\ same_event p r.1.2 /\
  ((r.1.1 = Delivered /\ o = Delivered_2xx /\ r.2 = w) \/
   (r.1.1 = Ready (S n) /\ r.2 = w /\ (S n < maxAttempts cfg)%nat /\ o <> Delivered_2xx) \/
   (finished r.1.1 = true /\ r.1.1 <> Delivered /\ (wf (dlq w) -> r.1.1 <> Rejected -> filed p r.2))).

Lemma end_cases n o t p w : end_ok n o p w (end_attempt n o t p w).
Proof.
  destruct o as [|status message]; [by repeat split; left|].
  set (p' := with_retryCount (Z.of_nat n + 1) p).
  assert (Hper : forall r, end_ok n (Failed status message) p w
    (let '(ph, w') := persistToDLQ t p' r w in (ph, p', w'))).
  { intros r. pose proof (persist_cases t p' r w) as H. destruct (persistToDLQ t p' r w) as [ph w'].
    destruct H as (H1 & _ & H2 & H3). split_and!; try done. right; right.
    destruct H2 as [->|[->| ->]]; split_and!; done. }
  assert (Hretry : (S n < maxAttempts cfg)%nat ->
    end_ok n (Failed status message) p w (Ready (S n), p', w)).
  { intros Hn. split; [done|]. split; [by repeat split|]. right; left. by split_and!. }
  unfold end_attempt. fold p'.
  destruct status as [code|]; [destruct (_ && _); [apply Hper|]|];
    case_bool_decide; [by apply Hretry|apply Hper|by apply Hretry|apply Hper].
Qed.

(** *** The loop *)

Lemma filed_same p p' w : same_event p p' -> filed p' w -> filed p w.
Proof. intros (H1 & H2 & _) (i & e & Hi & He). exists i, e. split; [done|]. rewrite He. unfold key_of. congruence. Qed.

(** The requests of one delivery, all for the same event and URL. *)
Definition requests_for (p : WebhookPayload) (qs : list request) : Prop :=
  Forall (fun q => q_event q = p_id p /\ q_url q = p_url p /\ q_data q = p_data p) qs.

Lemma requests_same p p' qs : same_event p p' -> requests_for p' qs -> requests_for p qs.
Proof. intros (H1 & H2 & H3) Hq. eapply Forall_impl; [exact Hq|]. simpl. intros q. by rewrite H1, H2, H3. Qed.

Definition sent_ok (n : nat) (outcome : nat -> http_outcome) (p : WebhookPayload) (w : world)
    (r : phase * world) : Prop :=
  finished r.1 = true /\
  exists qs, posts r.2 = posts w ++ qs /\ requests_for p qs /\ (n + length qs ≤ maxAttempts cfg)%nat /\
    (forall k, (n <= k)%nat -> (S k < n + length qs)%nat -> outcome k <> Delivered_2xx) /\
    (r.1 = Delivered -> exists k, outcome k = Delivered_2xx /\ (n <= k)%nat /\ S k = (n + length qs)%nat) /\
    (wf (dlq w) -> r.1 <> Delivered -> r.1 <> Rejected -> filed p r.2).

Lemma send_loop_ok fuel outcome clock n p w :
  (n + fuel = maxAttempts cfg)%nat -> (0 < fuel)%nat ->
  sent_ok n outcome p w (send_loop fuel outcome clock n p w).
Proof.
  revert n p w. induction fuel as [|fuel IH]; intros n p w Hn Hpos; [lia|]. cbn [send_loop].
  pose proof (begin_cases n (clock (2 * n)%nat) p w) as Hb.
  destruct (begin_attempt n (clock (2 * n)%nat) p w) as [ph w1].
  destruct Hb as [(Hph & Hposts & Hdlq & _)|(Hfin & Hnd & Hposts & Hfiled)]; cbn [fst snd] in *.
  2:{ assert (Hdone : sent_ok n outcome p w (ph, w1)).
      { split; [done|]. exists []. simpl. rewrite app_nil_r. split_and!; [done|by apply Forall_nil_2|lia| | |auto].
        - intros. lia.
        - intros ->. by destruct Hnd. }
      by destruct ph. }
  subst ph. pose proof (end_cases n (outcome n) (clock (2 * n + 1)%nat) p w1) as He.
  destruct (end_attempt n (outcome n) (clock (2 * n + 1)%nat) p w1) as [[ph p'] w2].
  destruct He as (Hp2 & Hsame & He). cbn [fst snd] in *. rewrite Hposts in Hp2.
  assert (Hq : requests_for p [post_of (now_ms (clock (2 * n)%nat)) p]) by (repeat constructor).
  destruct He as [(-> & Ho & ->)|[(-> & -> & Hlt & Ho)|(Hfin & Hnd & Hfiled)]].
  - split; [done|]. exists [post_of (now_ms (clock (2 * n)%nat)) p]. simpl. split_and!; try done; [lia|intros; lia|].
    intros _. exists n. split_and!; [done|lia|lia].
  - destruct (IH (S n) p' w1 ltac:(lia) ltac:(lia)) as (Hfin & qs & Hqs & Hreq & Hlen & Hout & Hdel & Hfl).
    split; [done|]. exists (post_of (now_ms (clock (2 * n)%nat)) p :: qs). split_and!.
    + rewrite Hqs, Hposts, <- app_assoc. done.
    + constructor; [done|]. by eapply requests_same.
    + simpl. lia.
    + intros k Hk1 Hk2. destruct (decide (k = n)) as [->|]; [done|]. apply Hout; simpl in *; lia.
    + intros Hd. destruct (Hdel Hd) as (k & Hk & H1 & H2). exists k. simpl. split_and!; [done|lia|lia].
    + intros Hwf H1 H2. eapply filed_same; [done|]. apply Hfl; [by rewrite Hdlq|done|done].
  - assert (Hdone : sent_ok n outcome p w (ph, w2)).
    { split; [done|]. exists [post_of (now_ms (clock (2 * n)%nat)) p]. simpl. rewrite Hdlq in Hfiled.
      split_and!; [done|done|lia| | |auto].
      - intros. lia.
      - intros ->. by destruct Hnd. }
    by destruct ph.
Qed.

(** ** Properties *)

(** C7: termination and outcome of a delivery.  Whatever the endpoint answers,
    [send] ends after at most [maxAttempts] requests, all for the same event id
    and URL; it stops at the first success, and reports delivery only then; and
    a delivery that neither succeeds nor rejects leaves a dead letter with its
    deduplication key. *)
Theorem send_spec outcome clock p w :
  (0 < maxAttempts cfg)%nat -> wf (dlq w) ->
  exists ph w' qs, send outcome clock p w = (ph, w') /\ finished ph = true /\
    posts w' = posts w ++ qs /\ requests_for p qs /\ (length qs ≤ maxAttempts cfg)%nat /\
    (forall k, (S k < length qs)%nat -> outcome k <> Delivered_2xx) /\
    (ph = Delivered -> exists k, outcome k = Delivered_2xx /\ S k = length qs) /\
    (ph <> Delivered -> ph <> Rejected -> filed p w').
Proof.
  intros Hmax Hwf. destruct (send_loop_ok (maxAttempts cfg) outcome clock 0 p w eq_refl Hmax)
    as (Hfin & qs & Hqs & Hreq & Hlen & Hout & Hdel & Hfl).
  exists (send outcome clock p w).1, (send outcome clock p w).2, qs. unfold send in *.
  split_and!; try done; [by destruct (send_loop _ _ _ _ _ _)|..].
  - intros k Hk. apply Hout; lia.
  - intros Hd. destruct (Hdel Hd) as (k & Hk & _ & Hk2). eauto.
  - auto.
Qed.

Lemma exec_posts t m q :
  q ∈ posts (state (exec t m)) -> q ∈ posts (state m) \/
  Ssrf.isSafeUrl url_host (env cfg) (q_url q) = Some true.
Proof.
  destruct t as [p|i t|i o t|o|now w]; simpl; auto.
  - destruct (deliveries m !! i) as [[p ph]|]; [|auto]. destruct ph; auto.
    pose proof (begin_cases attempt t p (state m)) as Hb.
    destruct (begin_attempt attempt t p (state m)) as [ph w].
    destruct Hb as [(_ & Hp & _ & Hs)|(_ & _ & Hp & _)]; simpl in *; rewrite Hp; [|auto].
    rewrite elem_of_app, list_elem_of_singleton. intros [?| ->]; auto.
  - destruct (deliveries m !! i) as [[p ph]|]; [|auto]. destruct ph; auto.
    pose proof (end_cases attempt o t p (state m)) as He.
    destruct (end_attempt attempt o t p (state m)) as [[ph p'] w].
    destruct He as (Hp & _). simpl in *. rewrite Hp. auto.
Qed.

Lemma run_posts ts m q :
  q ∈ posts (state (run ts m)) -> q ∈ posts (state m) \/
  Ssrf.isSafeUrl url_host (env cfg) (q_url q) = Some true.
Proof.
  revert m. induction ts as [|t ts IH]; intros m Hin; [by left|].
  destruct (IH (exec t m) Hin) as [Hq|?]; [by apply exec_posts in Hq|by right].
Qed.

(** Safety.  However deliveries, retries, replays and sweeps interleave, in
    production every request goes to a URL whose host was parsed and is not
    internal. *)
Theorem webhook_targets_public ts m q :
  Ssrf.NODE_ENV (env cfg) = Some "production"%string ->
  q ∈ posts (state (run ts m)) -> q ∉ posts (state m) ->
  exists host, url_host (q_url q) = Some host /\ host <> EmptyString /\ Ssrf.isPrivateHost host = false.
Proof.
  intros Henv [?|Hs]%run_posts Hout; [done|].
  apply Ssrf.safe_url_public in Hs as [?|(n & Hn & Hb & _)]; [done|]. exfalso.
  rewrite Henv in Hn. vm_compute in Hn. injection Hn as <-. unfold Ssrf.SSRF_BYPASS_ALLOWED_ENVS in Hb.
  rewrite !elem_of_cons in Hb. destruct Hb as [E|[E|[E|[]%not_elem_of_nil]]]; discriminate E.
Qed.

(** Replay.  Replaying a pending dead letter never delivers anything: the
    deduplication test finds the entry itself, so the entry is marked as
    replayed, success is reported and no request is made, whatever [send] would
    do; and the next failure of that event is silently dropped. *)
Theorem replay_never_delivers deliver now i e w :
  Dlq.dlq_ok number_text sha256 (dlq w) -> Dlq.getEntry i (dlq w) = Some e -> Dlq.replayedAt e = None ->
  exists w', replayDLQEntry deliver now i w = (Deduplicated, w') /\ posts w' = posts w /\
    Dlq.getEntry i (dlq w') = Some (Dlq.with_replayed now e) /\
    forall t p r, p_id p = Dlq.webhookId e -> p_data p = Dlq.body e ->
      (persistToDLQ t p r w').1 = Swallowed.
Proof.
  intros Hok Hi Hnone. unfold replayDLQEntry. rewrite Hi, Hnone. simpl.
  rewrite (Dlq.checkDedupe_self number_text sha256 i e) by (done || unfold Dlq.pending; by rewrite Hnone).
  eexists. split; [reflexivity|]. unfold Dlq.markReplayed. unfold Dlq.getEntry in Hi. rewrite Hi. simpl.
  assert (Hgot : map_get i (map_set i (Dlq.with_replayed now e) (dlq w)) = Some (Dlq.with_replayed now e))
    by apply map_get_set_eq.
  split_and!; [done|exact Hgot|]. intros t p r Hid Hdata. unfold persistToDLQ, Dlq.addEntry. simpl.
  set (entry := Dlq.new_entry _ _ _ _ _ _ _ _ _ _).
  assert (Hkey : Dlq.dedupeKey entry = Dlq.dedupeKey (Dlq.with_replayed now e)).
  { simpl. rewrite Hid, Hdata. symmetry. apply (Dlq.row_key _ _ _ _ (Dlq.ok_rows _ _ _ Hok i e Hi)). }
  rewrite (Dlq.addEntry_duplicate (dlqConfig cfg) _ entry i (Dlq.with_replayed now e)); try done.
  by apply wf_set, Hok.
Qed.

End Webhooks.
(** ** Witnesses *)

Definition sample_settings : settings :=
  {| HOST_RATE_LIMIT_MAX := 60; HOST_RATE_LIMIT_WINDOW_MS := 60000; WEBHOOK_MAX_PAYLOAD_SIZE_BYTES := 1000;
     maxAttempts := 3; dlqConfig := Dlq.DEFAULT_DLQ_CONFIG;
     env := {| Ssrf.NODE_ENV := Some "production"%string; Ssrf.SSRF_ALLOW_PRIVATE_HOSTS := None |} |}.

Definition sample_host (u : string) : option string :=
  if String.eqb u "https://example.com/hook" then Some "example.com"%string else Some "127.0.0.1"%string.

Definition sample_payload (u : string) : WebhookPayload :=
  {| p_id := "e1"; p_url := u; p_data := VBool true; p_retryCount := 0; p_secret := Some "k"%string;
     p_correlationId := None |}.

Definition sample_clock (n : nat) : tick :=
  {| now_ms := 1000; now_iso := "2026-01-01T00:00:00.000Z"; fresh := "u1" |}.

Definition empty_world : world :=
  {| dlq := []; hosts := {| RateLimit.counters := []; RateLimit.tokenBuckets := []; RateLimit.destroyed := false |};
     posts := [] |}.

Definition server_error (n : nat) : http_outcome := Failed (Some 503) "unavailable".

Notation sample_send := (send sample_settings sample_host Dlq.sample_text Signing.sample_hmac Dlq.sample_sha (fun k => k)).
Notation sample_run := (run sample_settings sample_host Dlq.sample_text Signing.sample_hmac Dlq.sample_sha (fun k => k)).

Lemma send_spec_witness :
  exists ph w', sample_send server_error sample_clock (sample_payload "https://example.com/hook") empty_world = (ph, w') /\
    finished ph = true.
Proof.
  destruct (send_spec sample_settings sample_host Dlq.sample_text Signing.sample_hmac Dlq.sample_sha (fun k => k)
    server_error sample_clock (sample_payload "https://example.com/hook") empty_world) as (ph & w' & qs & H & Hf & _).
  - simpl. lia.
  - constructor.
  - exists ph, w'. split; [exact H|exact Hf].
Defined.

Definition sample_turns : list turn :=
  [Send (sample_payload "https://example.com/hook"); Send (sample_payload "http://127.0.0.1/");
   Begin 0 (sample_clock 0); Begin 1 (sample_clock 0)].

Definition sample_post : request :=
  post_of Dlq.sample_text Signing.sample_hmac 1000 (sample_payload "https://example.com/hook").

Lemma sample_posts :
  posts (state (sample_run sample_turns {| state := empty_world; deliveries := [] |})) = [sample_post].
Proof. vm_compute. reflexivity. Defined.

Lemma webhook_targets_public_witness :
  exists host, sample_host (q_url sample_post) = Some host /\ Ssrf.isPrivateHost host = false.
Proof.
  destruct (webhook_targets_public sample_settings sample_host Dlq.sample_text Signing.sample_hmac Dlq.sample_sha
    (fun k => k) sample_turns {| state := empty_world; deliveries := [] |} sample_post) as (host & H1 & _ & H2).
  - reflexivity.
  - rewrite sample_posts. left.
  - apply not_elem_of_nil.
  - exists host. split; [exact H1|exact H2].
Defined.

Definition failed_world : world :=
  (sample_send server_error sample_clock (sample_payload "https://example.com/hook") empty_world).2.

Definition failed_entry : Dlq.WebhookDLQEntry :=
  Dlq.new_entry Dlq.sample_text Dlq.sample_sha "u1" "2026-01-01T00:00:00.000Z" "e1" "https://example.com/hook"
    (VBool true) 3 "WEBHOOK_RETRY_EXHAUSTED: unavailable" (Some "k"%string).

Lemma failed_world_dlq : dlq failed_world = [("u1"%string, failed_entry)].
Proof. vm_compute. reflexivity. Defined.

Lemma replay_never_delivers_witness :
  exists w', replayDLQEntry Dlq.sample_text Dlq.sample_sha (fun _ w => (false, w)) "2026-01-02" "u1" failed_world
    = (Deduplicated, w') /\ posts w' = posts failed_world.
Proof.
  destruct (replay_never_delivers sample_settings Dlq.sample_text Dlq.sample_sha (fun _ w => (false, w))
    "2026-01-02" "u1" failed_entry failed_world) as (w' & H & Hp & _).
  - rewrite failed_world_dlq. apply (Dlq.dlq_ok_insert _ _ failed_entry []).
    + split; [constructor|done|done].
    + apply Dlq.new_entry_ok.
    + reflexivity.
    + reflexivity.
  - rewrite failed_world_dlq. reflexivity.
  - reflexivity.
  - exists w'. split; [exact H|exact Hp].
Defined.

End Webhooks.
