(* ===== verification/Idempotency.v ===== *)
(** * Idempotent requests: src/db/idempotencyStore.ts and
    src/middleware/idempotency.ts

    The store is a JavaScript Map of records with an expiry.  The middleware is
    two pieces of synchronous code: [receive] when a request arrives and [respond]
    when its handler calls [res.send]; requests interleave between them, and a
    handler may never answer.  SHA-256, the locale order of property names,
    number formatting and [JSON.parse] are parameters. *)

From stdpp Require Import prelude gmap strings sorting.
From Stdlib Require Import ZArith Lia Ascii.
From S2P Require Import Prelude JsMap JsValue JsString Regex Cursor Json WebhookSigning.
Open Scope Z_scope.

Module Idempotency.

Record IdempotencyRecord (R : Type) : Type := {
  payloadHash : list ascii;
  answer : R;
  createdAt : Z;
  expiresAt : Z;
}.
Arguments payloadHash {R}.
Arguments answer {R}.
Arguments createdAt {R}.
Arguments expiresAt {R}.

Definition DEFAULT_TTL_MS : Z := 60 * 60 * 1000.

Section Store.
Context {R : Type} (ttlMs maxSize : Z).

Notation records := (list (string * IdempotencyRecord R)).

Definition expired (now : Z) (r : IdempotencyRecord R) : bool := expiresAt r <=? now.

(** A lookup drops the record it finds expired. *)
Definition store_get (now : Z) (k : string) (m : records) : option (IdempotencyRecord R) * records :=
  match map_get k m with
  | Some r => if expired now r then (None, map_delete k m) else (Some r, m)
  | None => (None, m)
  end.

Definition store_getRaw (k : string) (m : records) : option (IdempotencyRecord R) := map_get k m.
Definition store_delete (k : string) (m : records) : records := map_delete k m.
Definition store_size (m : records) : Z := Z.of_nat (length m).

Definition purgeExpired (now : Z) (m : records) : records * Z := map_purge_loop (expired now) m.

(** Room for a new key: expired records go first, then the oldest one. *)
Definition make_room (now : Z) (k : string) (m : records) : records :=
  if (maxSize <=? store_size m) && negb (map_has k m) then
    let m1 := (purgeExpired now m).1 in
    if maxSize <=? store_size m1 then
      match m1 with
      | (k1, _) :: _ => map_delete k1 m1
      | [] => m1
      end
    else m1
  else m.

Definition store_set (now : Z) (k : string) (h : list ascii) (res : R) (created : Z) (expires : option Z)
    (m : records) : records :=
  map_set k {| payloadHash := h; answer := res; createdAt := created;
               expiresAt := default (now + ttlMs) expires |} (make_room now k m).

End Store.

(** ** Hashing the payload *)

Section Hash.
Context (number_text : number -> list ascii) (sha256 : list ascii -> list ascii)
        (locale_le : string -> string -> Prop) `{!RelDecision locale_le}.

(** [Object.entries(value).sort(([l], [r]) => l.localeCompare(r))] *)
Definition field_le (a b : string * list ascii) : Prop := locale_le a.1 b.1.
#[local] Instance field_le_dec : RelDecision field_le := fun a b => _ : Decision (locale_le a.1 b.1).

Fixpoint canonicalize (v : value) : list ascii :=
  match v with
  | VArray vs => "["%char :: Json.join ","%char (map canonicalize vs) ++ ["]"%char]
  | VObject fields =>
      let parts := map (fun f => (f.1, canonicalize f.2)) fields in
      "{"%char ::
        Json.join ","%char (map (fun p => Json.quote p.1 ++ ":"%char :: p.2) (merge_sort field_le parts)) ++
      ["}"%char]
  | _ => default (chars "undefined") (Json.stringify number_text v)
  end.

Definition normalizeRequestBody (body : value) : value :=
  match body with VUndefined | VNull => VObject [] | _ => body end.

Definition hashRequestPayload (body : value) : list ascii := sha256 (canonicalize (normalizeRequestBody body)).

Definition constantTimeEqual (l r : list ascii) : bool :=
  bool_decide (Signing.hex_bytes l = Signing.hex_bytes r).

(** The digest does not depend on the order of an object's properties:
    objects with the same properties in any order have the same canonical text
    (for a locale order that tells different names apart). *)
Theorem canonical_order_insensitive fs fs' :
  Transitive locale_le -> Total locale_le -> AntiSymm (=) locale_le ->
  NoDup fs.*1 -> fs ≡ₚ fs' -> canonicalize (VObject fs) = canonicalize (VObject fs').
Proof.
  intros Htr Htot Hanti Hnd Hp. simpl. do 4 f_equal.
  set (g := fun f : string * value => (f.1, canonicalize f.2)).
  assert (Hg : map g fs ≡ₚ map g fs') by by apply Permutation_map.
  assert (Htr' : Transitive field_le) by (intros a b c; unfold field_le; apply Htr).
  assert (Htot' : Total field_le) by (intros a b; unfold field_le; apply Htot).
  apply (StronglySorted_unique_strong field_le).
  - intros x1 x2 H1 H2 L1 L2. rewrite merge_sort_Permutation in H1, H2. rewrite <- Hg in H2.
    assert (E : x1.1 = x2.1) by by apply (anti_symm locale_le).
    apply list_elem_of_fmap in H1 as (f1 & -> & H1), H2 as (f2 & -> & H2). simpl in E.
    assert (f1 = f2) as ->; [|done].
    apply list_elem_of_lookup in H1 as [i Hi], H2 as [j Hj].
    assert (i = j) as ->; [|congruence].
    eapply (NoDup_lookup fs.*1); [done|rewrite list_lookup_fmap, Hi; done|rewrite list_lookup_fmap, Hj; simpl; by rewrite E].
  - apply (StronglySorted_merge_sort _ _).
  - apply (StronglySorted_merge_sort _ _).
  - by rewrite !merge_sort_Permutation.
Qed.

End Hash.

(** ** The middleware *)

(** What [res.send] is given: an object, or text. *)
Inductive sent : Type := SentValue (v : value) | SentText (t : string).

Inductive reply : Type :=
| Next                             (* the handler runs *)
| Replayed (status : Z) (v : value)
| PayloadConflict
| InProgress.

Record request : Type := { r_key : string; r_hash : list ascii; r_open : bool }.

Record state : Type := {
  store : list (string * IdempotencyRecord value);
  inFlight : list (string * list ascii);
  requests : list request;         (* those handed to a handler, oldest first *)
}.

Section Middleware.
Context (number_text : number -> list ascii) (sha256 : list ascii -> list ascii)
        (locale_le : string -> string -> Prop) `{!RelDecision locale_le}
        (json_parse : string -> option value) (ttlMs maxSize : Z).

Notation hash := (hashRequestPayload number_text sha256 locale_le).

Definition receive (now : Z) (key : option string) (body : value) (s : state) : reply * state :=
  match key with
  | None => (Next, s)
  | Some k =>
      if String.eqb k EmptyString then (Next, s)
      else
        let h := hash body in
        let '(existing, m) := store_get now k (store s) in
        let s1 := {| store := m; inFlight := inFlight s; requests := requests s |} in
        match existing with
        | Some r =>
            if constantTimeEqual (payloadHash r) h then (Replayed 200 (answer r), s1)
            else (PayloadConflict, s1)
        | None =>
            match map_get k (inFlight s) with
            | Some h' => if constantTimeEqual h' h then (InProgress, s1) else (PayloadConflict, s1)
            | None => (Next, {| store := m; inFlight := map_set k h (inFlight s);
                                requests := requests s ++ [{| r_key := k; r_hash := h; r_open := true |}] |})
            end
        end
  end.

(** [res.send(body)] of handed request [i]: the body is parsed first, and when
    that throws nothing else happens. *)
Definition respond (now : Z) (i : nat) (b : sent) (s : state) : state :=
  match requests s !! i with
  | Some {| r_key := k; r_hash := h; r_open := true |} =>
      match (match b with SentValue v => Some v | SentText t => json_parse t end) with
      | Some v => {| store := store_set ttlMs maxSize now k h v now None (store s);
                     inFlight := map_delete k (inFlight s);
                     requests := <[i := {| r_key := k; r_hash := h; r_open := false |}]> (requests s) |}
      | None => s
      end
  | _ => s
  end.

Inductive turn : Type :=
| Arrive (now : Z) (key : option string) (body : value)
| Respond (now : Z) (i : nat) (b : sent)
| Sweep (now : Z).

Definition exec (t : turn) (s : state) : state :=
  match t with
  | Arrive now key body => (receive now key body s).2
  | Respond now i b => respond now i b s
  | Sweep now => {| store := (purgeExpired now (store s)).1; inFlight := inFlight s; requests := requests s |}
  end.

Definition run (ts : list turn) (s : state) : state := foldl (fun s t => exec t s) s ts.

(** ** Invariant *)

Definition open_for (k : string) (r : request) : Prop := r_key r = k /\ r_open r = true.
#[export] Instance open_for_dec k r : Decision (open_for k r).
Proof. unfold open_for. apply _. Defined.

Record state_ok (s : state) : Prop := {
  ok_store : wf (store s);
  ok_flight : wf (inFlight s);
  ok_size : store_size (store s) <= maxSize;
  ok_open : forall k, length (filter (open_for k) (requests s)) = (if map_has k (inFlight s) then 1 else 0)%nat;
}.

Lemma make_room_wf now k m : wf m -> wf (make_room (R := value) maxSize now k m).
Proof.
  intros Hwf. unfold make_room. destruct (_ && _); [|done].
  assert (Hp : wf (purgeExpired now m).1) by by apply wf_purge.
  destruct (maxSize <=? _); [|done]. destruct (purgeExpired now m).1 as [|[k1 r1] m1]; [done|]. by apply wf_delete.
Qed.

Lemma purge_size now m : wf m -> store_size (R := value) (purgeExpired now m).1 <= store_size m.
Proof.
  intros Hwf. unfold store_size, purgeExpired. rewrite map_purge_loop_filter by done. simpl. apply inj_le, length_filter.
Qed.

(** Room was made unless the key was already there. *)
Lemma make_room_size now k m :
  1 <= maxSize -> wf m -> store_size m <= maxSize ->
  store_size (make_room (R := value) maxSize now k m) <= maxSize /\
  (map_get k m = None -> store_size (make_room (R := value) maxSize now k m) < maxSize).
Proof.
  intros Hmax Hwf Hle. unfold make_room. pose proof (purge_size now m Hwf) as Hps.
  destruct (map_has k m) eqn:Hh; simpl.
  - rewrite andb_false_r. split; [done|]. apply map_has_true in Hh as [r Hr]. congruence.
  - rewrite andb_true_r. destruct (Z.leb_spec maxSize (store_size m)); [|by split].
    assert (Hp : wf (purgeExpired now m).1) by by apply wf_purge.
    destruct (Z.leb_spec maxSize (store_size (purgeExpired now m).1)); [|split; [lia|done]].
    destruct (purgeExpired now m).1 as [|[k1 r1] m1] eqn:E; [unfold store_size in *; simpl in *; lia|].
    pose proof (length_delete_Some ((k1, r1) :: m1) k1 r1 Hp) as Hd.
    assert (Hg : map_get k1 ((k1, r1) :: m1) = Some r1) by (simpl; by case_decide).
    specialize (Hd Hg). unfold store_size in *. split; lia.
Qed.

Lemma make_room_get now k m r :
  wf m -> map_get k m = Some r -> map_get k (make_room (R := value) maxSize now k m) = Some r.
Proof.
  intros Hwf Hk. unfold make_room. assert (map_has k m = true) as -> by (apply map_has_true; eauto).
  by rewrite andb_false_r.
Qed.

Lemma store_set_ok now k h v (m : list (string * IdempotencyRecord value)) :
  1 <= maxSize -> wf m -> store_size m <= maxSize ->
  wf (store_set ttlMs maxSize now k h v now None m) /\
  store_size (store_set ttlMs maxSize now k h v now None m) <= maxSize.
Proof.
  intros Hmax Hwf Hle. unfold store_set. set (m1 := make_room maxSize now k m).
  assert (Hwf1 : wf m1) by by apply make_room_wf.
  destruct (make_room_size now k m Hmax Hwf Hle) as [Hs1 Hs2]. fold m1 in Hs1, Hs2.
  split; [by apply wf_set|]. unfold store_size in *. destruct (map_get k m) as [r|] eqn:Hk.
  - rewrite (length_set_Some m1 k _ r); [done|]. by apply make_room_get.
  - destruct (map_get k m1) as [r|] eqn:Hk1.
    + by rewrite (length_set_Some m1 k _ r).
    + rewrite length_set_None by done. specialize (Hs2 eq_refl). lia.
Qed.

Lemma store_get_ok now k (m : list (string * IdempotencyRecord value)) :
  wf m -> wf (store_get now k m).2 /\ store_size (store_get now k m).2 <= store_size m.
Proof.
  intros Hwf. unfold store_get. destruct (map_get k m) as [r|]; [|by split].
  destruct (expired now r); [|by split]. split; [by apply wf_delete|].
  unfold store_size, map_delete. apply inj_le, length_filter.
Qed.

Lemma open_insert k i r0 r1 l :
  l !! i = Some r0 -> length (filter (open_for k) (<[i := r1]> l)) =
    (length (filter (open_for k) l) - (if decide (open_for k r0) then 1 else 0) +
     (if decide (open_for k r1) then 1 else 0))%nat.
Proof.
  revert i. induction l as [|x l IH]; intros [|i] Hi; simplify_eq/=.
  - rewrite !filter_cons. repeat case_decide; simpl; lia.
  - specialize (IH i Hi). rewrite !filter_cons.
    destruct (decide (open_for k x)) as [Hx|Hx]; [|exact IH].
    assert (Hpos : open_for k r0 -> (0 < length (filter (open_for k) l))%nat).
    { intros Ho. assert (Hin : r0 ∈ filter (open_for k) l)
        by (apply list_elem_of_filter; split; [done|by eapply list_elem_of_lookup_2]).
      destruct (filter (open_for k) l); [by apply not_elem_of_nil in Hin|simpl; lia]. }
    cbn [length]. rewrite IH. destruct (decide (open_for k r0)) as [Ho|]; [specialize (Hpos Ho)|]; lia.
Qed.

Lemma exec_state_ok t s : 1 <= maxSize -> state_ok s -> state_ok (exec t s).
Proof.
  intros Hmax [H1 H2 H3 H4]. destruct t as [now key body|now i b|now]; simpl.
  - unfold receive. destruct key as [k|]; [|by split]. destruct (String.eqb k EmptyString); [by split|].
    destruct (store_get_ok now k (store s) H1) as [G1 G2].
    destruct (store_get now k (store s)) as [existing m]. simpl in *.
    assert (Hsame : state_ok {| store := m; inFlight := inFlight s; requests := requests s |})
      by (split; simpl; try done; lia).
    destruct existing as [r|]; [by destruct (constantTimeEqual _ _)|].
    destruct (map_get k (inFlight s)) as [h'|] eqn:Hk; [by destruct (constantTimeEqual _ _)|].
    split; simpl; [done|by apply wf_set|lia|]. intros k'. rewrite filter_app, length_app, H4.
    rewrite filter_cons. unfold map_has. destruct (decide (k = k')) as [->|Hne].
    + rewrite map_get_set_eq, Hk. rewrite decide_True by done. done.
    + rewrite map_get_set_ne by done. rewrite decide_False by (intros [? _]; done).
      destruct (map_get k' (inFlight s)); simpl; lia.
  - unfold respond. destruct (requests s !! i) as [[k h []]|] eqn:Hi; try by split.
    destruct (match b with SentValue v => Some v | SentText t => json_parse t end) as [v|]; [|by split].
    destruct (store_set_ok now k h v (store s) Hmax H1 H3) as [G1 G2].
    split; simpl; [done|by apply wf_delete|done|]. intros k'.
    rewrite (open_insert k' i {| r_key := k; r_hash := h; r_open := true |}) by done.
    rewrite (decide_False (P := open_for k' {| r_key := k; r_hash := h; r_open := false |})) by (intros [_ ?]; done).
    rewrite H4. unfold map_has. destruct (decide (k = k')) as [->|Hne].
    + rewrite map_get_delete_eq, decide_True by done. destruct (map_get k' (inFlight s)); simpl; lia.
    + rewrite map_get_delete_ne by done. rewrite decide_False by (intros [? _]; done).
      destruct (map_get k' (inFlight s)); simpl; lia.
  - split; simpl; [by apply wf_purge|done|pose proof (purge_size now (store s) H1); lia|done].
Qed.

Lemma run_state_ok ts s : 1 <= maxSize -> state_ok s -> state_ok (run ts s).
Proof.
  intros Hmax. revert s. induction ts as [|t ts IH]; intros s Hok; [done|]. by apply IH, exec_state_ok.
Qed.

(** *** Between the answer and its expiry *)

(** Nothing but time and eviction removes a stored answer. *)
Definition holds (k : string) (r : IdempotencyRecord value) (s : state) : Prop :=
  map_get k (store s) = Some r /\ map_get k (inFlight s) = None.

Definition turn_time (t : turn) : Z :=
  match t with Arrive now _ _ => now | Respond now _ _ => now | Sweep now => now end.

Lemma receive_holds now key body s k r :
  state_ok s -> holds k r s -> now < expiresAt r -> holds k r (receive now key body s).2.
Proof.
  intros Hok [Hr Hf] Hnow. unfold receive. destruct key as [k1|]; [|by split].
  destruct (String.eqb k1 EmptyString); [by split|].
  assert (Hkeep : map_get k (store_get now k1 (store s)).2 = Some r /\
                  (k1 = k -> (store_get now k1 (store s)).1 = Some r)).
  { unfold store_get. destruct (decide (k1 = k)) as [->|Hne].
    - rewrite Hr. unfold expired. destruct (Z.leb_spec (expiresAt r) now); [lia|done].
    - destruct (map_get k1 (store s)) as [r1|]; [|done]. destruct (expired now r1); [|done].
      simpl. rewrite map_get_delete_ne by done. done. }
  destruct (store_get now k1 (store s)) as [existing m]. simpl in Hkeep. destruct Hkeep as [Hm Hex].
  destruct existing as [r1|]; [by destruct (constantTimeEqual _ _); split|].
  destruct (map_get k1 (inFlight s)) as [h'|] eqn:Hk1; [by destruct (constantTimeEqual _ _); split|].
  split; simpl; [done|]. rewrite map_get_set_ne; [done|]. intros ->. by specialize (Hex eq_refl).
Qed.

Lemma respond_holds now i b s k r :
  state_ok s -> holds k r s -> store_size (store s) < maxSize -> holds k r (respond now i b s).
Proof.
  intros Hok [Hr Hf] Hsize. unfold respond. destruct (requests s !! i) as [[k1 h []]|] eqn:Hi; try by split.
  destruct (match b with SentValue v => Some v | SentText t => json_parse t end) as [v|]; [|by split].
  assert (k1 <> k) as Hne.
  { intros ->. pose proof (ok_open _ Hok k) as Ho. unfold map_has in Ho. rewrite Hf in Ho.
    assert (Hin : {| r_key := k; r_hash := h; r_open := true |} ∈ filter (open_for k) (requests s))
      by (apply list_elem_of_filter; split; [done|by eapply list_elem_of_lookup_2]).
    destruct (filter (open_for k) (requests s)); [by apply not_elem_of_nil in Hin|done]. }
  split; simpl; [|by rewrite map_get_delete_ne].
  unfold store_set, make_room. destruct (Z.leb_spec maxSize (store_size (store s))); [lia|].
  simpl. by rewrite map_get_set_ne.
Qed.

(** The run never fills the store. *)
Fixpoint roomy (ts : list turn) (s : state) : Prop :=
  store_size (store s) < maxSize /\ match ts with [] => True | t :: ts' => roomy ts' (exec t s) end.

Lemma run_holds ts s k r :
  1 <= maxSize -> state_ok s -> holds k r s -> roomy ts s -> Forall (fun t => turn_time t < expiresAt r) ts ->
  holds k r (run ts s).
Proof.
  intros Hmax. revert s. induction ts as [|t ts IH]; intros s Hok Hh [Hsz Hroom] Ht; [done|].
  apply Forall_cons in Ht as [Ht Hts]. apply IH; [by apply exec_state_ok| |done|done].
  destruct t as [now key body|now i b|now]; simpl in *.
  - by apply receive_holds.
  - by apply respond_holds.
  - destruct Hh as [Hr Hf]. split; simpl; [|done].
    apply map_get_purge; [apply Hok|]. split; [done|]. unfold expired. apply Z.leb_gt. lia.
Qed.

(** ** Properties *)

(** C8: single flight.  However requests, answers and sweeps interleave, at most
    one request per idempotency key is with a handler at any time, the key is
    marked in flight exactly while that request is open, and the store stays
    within its capacity. *)
Theorem idempotency_single_flight ts s k :
  1 <= maxSize -> state_ok s ->
  length (filter (open_for k) (requests (run ts s))) =
    (if map_has k (inFlight (run ts s)) then 1 else 0)%nat /\
  store_size (store (run ts s)) <= maxSize.
Proof.
  intros Hmax Hok. destruct (run_state_ok ts s Hmax Hok) as [_ _ Hsz Ho]. by split.
Qed.

Hypothesis sha256_digest : forall l, Signing.digest (sha256 l).

Lemma hash_equal b1 b2 : constantTimeEqual (hash b1) (hash b2) = bool_decide (hash b1 = hash b2).
Proof.
  unfold constantTimeEqual. apply bool_decide_ext. split; [|congruence].
  unfold hashRequestPayload. set (l1 := canonicalize _ _ _). set (l2 := canonicalize _ _ (normalizeRequestBody b2)).
  destruct (sha256_digest l1) as [L1 F1], (sha256_digest l2) as [L2 F2]. by apply (Signing.hex_bytes_inj 32).
Qed.

(** Replay.  Once the handler of a request has answered, a request with the
    same key gets that answer back without running the handler again, when its
    body hashes to the same digest, and a conflict when it does not, whatever
    other requests, answers and sweeps happened in between, until the record
    expires (and as long as the store does not overflow). *)
Theorem idempotent_replay s now i k body0 b v ts now' body :
  1 <= maxSize -> state_ok s -> k <> EmptyString ->
  requests s !! i = Some {| r_key := k; r_hash := hash body0; r_open := true |} ->
  (match b with SentValue v => Some v | SentText t => json_parse t end) = Some v ->
  roomy ts (respond now i b s) ->
  Forall (fun t => turn_time t < now + ttlMs) ts -> now' < now + ttlMs ->
  (receive now' (Some k) body (run ts (respond now i b s))).1 =
    if bool_decide (hash body0 = hash body) then Replayed 200 v else PayloadConflict.
Proof.
  intros Hmax Hok Hk Hi Hb Hroom Hts Hnow'.
  set (r := {| payloadHash := hash body0; answer := v; createdAt := now; expiresAt := now + ttlMs |}).
  assert (Hholds : holds k r (respond now i b s)).
  { unfold respond. rewrite Hi, Hb. split; simpl; [|apply map_get_delete_eq].
    unfold store_set. simpl. apply map_get_set_eq. }
  assert (Hok1 : state_ok (respond now i b s)) by (apply (exec_state_ok (Respond now i b)); done).
  destruct (run_holds ts _ k r Hmax Hok1 Hholds Hroom Hts) as [Hr _].
  unfold receive. destruct (String.eqb_spec k EmptyString); [done|]. unfold store_get. rewrite Hr.
  unfold expired, r. cbn [expiresAt payloadHash answer].
  destruct (Z.leb_spec (now + ttlMs) now'); [lia|].
  cbn [payloadHash answer]. rewrite hash_equal. by case_bool_decide.
Qed.

(** A handler that answers with text that is not JSON wedges its key: the
    answer throws, the in-flight mark stays, and every later request with that
    key is refused, whatever other keys do. *)
Theorem text_answer_wedges s now i k h t :
  state_ok s -> k <> EmptyString -> map_get k (store s) = None ->
  requests s !! i = Some {| r_key := k; r_hash := h; r_open := true |} -> json_parse t = None ->
  respond now i (SentText t) s = s /\
  forall now' body, (receive now' (Some k) body (respond now i (SentText t) s)).1 = InProgress \/
                    (receive now' (Some k) body (respond now i (SentText t) s)).1 = PayloadConflict.
Proof.
  intros Hok Hk Hs Hi Ht.
  assert (E : respond now i (SentText t) s = s) by (unfold respond; by rewrite Hi, Ht).
  split; [exact E|]. rewrite E. intros now' body. unfold receive.
  destruct (String.eqb_spec k EmptyString); [done|]. unfold store_get. rewrite Hs.
  assert (Hf : is_Some (map_get k (inFlight s))).
  { pose proof (ok_open _ Hok k) as Ho. unfold map_has in Ho.
    assert (Hin : {| r_key := k; r_hash := h; r_open := true |} ∈ filter (open_for k) (requests s))
      by (apply list_elem_of_filter; split; [done|by eapply list_elem_of_lookup_2]).
    destruct (map_get k (inFlight s)); [eauto|].
    destruct (filter (open_for k) (requests s)); [by apply not_elem_of_nil in Hin|done]. }
  destruct Hf as [h' ->]. destruct (constantTimeEqual h' _); auto.
Qed.

End Middleware.
(** ** Witnesses *)

Definition sample_sha (l : list ascii) : list ascii :=
  match l with
  | [] => replicate 64 "0"%char
  | c :: l' => Cursor.hex_digit (length l' mod 16) :: replicate 63 "0"%char
  end.

Lemma sample_sha_digest l : Signing.digest (sample_sha l).
Proof.
  destruct l as [|c l].
  - split; [reflexivity|]. apply Forall_replicate. reflexivity.
  - split; [reflexivity|]. constructor; [|apply Forall_replicate; reflexivity].
    pose proof (Nat.mod_upper_bound (length l) 16 ltac:(lia)) as H. revert H.
    generalize (length l mod 16)%nat. intros n Hn.
    do 16 (destruct n as [|n]; [reflexivity|]). lia.
Defined.

Definition sample_text (n : number) : list ascii := chars "0".
Definition no_json (t : string) : option value := None.
Definition fresh : state := {| store := []; inFlight := []; requests := [] |}.

Notation sample_receive := (receive sample_text sample_sha String.le).
Notation sample_run := (run sample_text sample_sha String.le no_json 1000 10).
Notation sample_respond := (respond no_json 1000 10).

Lemma canonical_order_insensitive_witness :
  canonicalize sample_text String.le (VObject [("a"%string, VNull); ("b"%string, VBool true)]) =
  canonicalize sample_text String.le (VObject [("b"%string, VBool true); ("a"%string, VNull)]).
Proof.
  apply (canonical_order_insensitive sample_text String.le [("a"%string, VNull); ("b"%string, VBool true)]
           [("b"%string, VBool true); ("a"%string, VNull)]).
  - apply _.
  - apply _.
  - apply _.
  - simpl. repeat constructor; set_solver.
  - apply Permutation_swap.
Defined.

Lemma fresh_ok : state_ok 10 fresh.
Proof. split; [constructor|constructor|vm_compute; discriminate|done]. Defined.

Definition one_request : state := (sample_receive 5 (Some "k"%string) (VBool true) fresh).2.

Lemma idempotency_single_flight_witness :
  length (filter (open_for "k") (requests (sample_run
    [Arrive 5 (Some "k"%string) (VBool true); Arrive 6 (Some "k"%string) (VBool true)] fresh))) = 1%nat.
Proof.
  rewrite (proj1 (idempotency_single_flight sample_text sample_sha String.le no_json 1000 10
    [Arrive 5 (Some "k"%string) (VBool true); Arrive 6 (Some "k"%string) (VBool true)] fresh "k" ltac:(lia) fresh_ok)).
  vm_compute. reflexivity.
Defined.

Lemma one_request_ok : state_ok 10 one_request.
Proof. apply (exec_state_ok sample_text sample_sha String.le no_json 1000 10 (Arrive 5 (Some "k"%string) (VBool true))); [lia|exact fresh_ok]. Defined.

Lemma idempotent_replay_witness :
  (sample_receive 30 (Some "k"%string) (VBool true)
    (sample_run [Arrive 20 (Some "j"%string) VNull] (sample_respond 10 0 (SentValue (VBool false)) one_request))).1
  = Replayed 200 (VBool false).
Proof.
  rewrite (idempotent_replay sample_text sample_sha String.le no_json 1000 10 sample_sha_digest one_request 10 0 "k"
    (VBool true) (SentValue (VBool false)) (VBool false) [Arrive 20 (Some "j"%string) VNull] 30 (VBool true)).
  - reflexivity.
  - lia.
  - exact one_request_ok.
  - discriminate.
  - reflexivity.
  - reflexivity.
  - repeat split.
  - repeat constructor.
  - lia.
Defined.

Lemma text_answer_wedges_witness :
  sample_respond 10 0 (SentText "oops") one_request = one_request.
Proof.
  apply (text_answer_wedges sample_text sample_sha String.le no_json 1000 10 one_request 10 0 "k"
    (hashRequestPayload sample_text sample_sha String.le (VBool true)) "oops").
  - exact one_request_ok.
  - discriminate.
  - reflexivity.
  - reflexivity.
  - reflexivity.
Defined.

End Idempotency.
