(* ===== verification/EventIngestion.v ===== *)
(** * Event ingestion: src/events/eventIngestionService.ts,
    src/repository/eventAuditRepository.ts and src/utils/deduplication.ts

    An incoming event is validated (src/shared/eventEnvelopeValidation.ts,
    Envelope.v), looked up by its deduplication key and recorded.  The lookup is
    awaited, so the handling of one event is two pieces, [lookup] and [record];
    a batch runs the first piece of every event of a chunk before any second
    piece.  The result of [Date.now()] is an argument. *)

From stdpp Require Import prelude gmap strings sorting.
From Stdlib Require Import ZArith Lia Ascii.
From S2P Require Import Prelude JsMap JsValue JsArith JsString Regex Cursor Json WebhookSigning Idempotency Envelope.
Import Envelope.
Open Scope Z_scope.

Module Ingestion.

Inductive event_status : Type := accepted | rejected | duplicate.
#[export] Instance event_status_eq_dec : EqDecision event_status.
Proof. solve_decision. Defined.

Record EventProcessingAudit : Type := {
  a_id : string;
  a_deduplicationKey : list ascii;
  a_contractId : string;
  a_eventId : string;
  a_sequence : number;
  a_status : event_status;
  a_reason : option string;
  a_payloadHash : list ascii;
  a_processedAt : Z;
  a_createdAt : Z;
  a_correlationId : option string;
}.

Record EventIngestionResult : Type := {
  deduplicationKey : option (list ascii);
  status : event_status;
  reason : option string;
  processedAt : Z;
  code : option string;
}.

(** ** The repository *)

(** Sets of keys, in insertion order. *)
Definition set_add (k : list ascii) (l : list (list ascii)) : list (list ascii) :=
  if bool_decide (k ∈ l) then l else l ++ [k].

Record repo : Type := {
  audits : list (list ascii * EventProcessingAudit);
  contractIdIndex : list (string * list (list ascii));
  statusIndex : list (event_status * list (list ascii));
}.

Definition findByDeduplicationKey (k : list ascii) (s : repo) : option EventProcessingAudit :=
  map_get k (audits s).

Definition index_add {K} `{EqDecision K} (i : K) (k : list ascii) (m : list (K * list (list ascii)))
  : list (K * list (list ascii)) := map_set i (set_add k (default [] (map_get i m))) m.

Definition save (a : EventProcessingAudit) (s : repo) : repo :=
  {| audits := map_set (a_deduplicationKey a) a (audits s);
     contractIdIndex := index_add (a_contractId a) (a_deduplicationKey a) (contractIdIndex s);
     statusIndex := index_add (a_status a) (a_deduplicationKey a) (statusIndex s) |}.

(** Newest first (a stable sort), cut to the limit. *)
Definition newest (lim : nat) (l : list EventProcessingAudit) : list EventProcessingAudit :=
  take lim (sort_by (fun a => - a_createdAt a) l).

Definition lookup_all (keys : list (list ascii)) (s : repo) : list EventProcessingAudit :=
  omap (fun k => map_get k (audits s)) keys.

Definition findByContractId (c : string) (lim : nat) (s : repo) : list EventProcessingAudit :=
  newest lim (lookup_all (default [] (map_get c (contractIdIndex s))) s).

Definition findByStatus (st : event_status) (lim : nat) (s : repo) : list EventProcessingAudit :=
  newest lim (lookup_all (default [] (map_get st (statusIndex s))) s).

Record statistics : Type := { total : Z; n_accepted : Z; n_rejected : Z; n_duplicates : Z }.

Definition getEventStatistics (s : repo) : statistics :=
  let size st := Z.of_nat (length (default [] (map_get st (statusIndex s)))) in
  {| total := Z.of_nat (length (audits s)); n_accepted := size accepted;
     n_rejected := size rejected; n_duplicates := size duplicate |}.

(** ** Keys and hashes *)

Section Service.
Context (number_text : number -> list ascii) (sha256 : list ascii -> list ascii)
        (locale_le : string -> string -> Prop) `{!RelDecision locale_le}
        (date_parses : string -> bool) (to_number : string -> number).

Definition text_of (v : value) : string := default EmptyString (as_string v).
Definition number_of (v : value) : number := default NaN (as_number v).

(** [computeDeduplicationKey], on an event whose fields passed validation. *)
Definition computeDeduplicationKey (e : value) : list ascii :=
  chars (text_of (prop e "contractId")) ++ ":"%char :: chars (text_of (prop e "eventId")) ++
  ":"%char :: number_text (number_of (prop e "sequence")).

Definition computePayloadHash (payload : value) : list ascii :=
  sha256 (Idempotency.canonicalize number_text locale_le payload).

Definition comparePayloadHashes (actual expected : list ascii) : bool :=
  Idempotency.constantTimeEqual actual expected.

Definition validatePayloadIntegrity (e : value) (expected : list ascii) : bool :=
  comparePayloadHashes (computePayloadHash (prop e "payload")) expected.

Definition areEventsDuplicates (e1 e2 : value) : bool :=
  bool_decide (computeDeduplicationKey e1 = computeDeduplicationKey e2).

(** ** [EventAuditService] *)

Record tick : Type := { now : Z; fresh : string }.

(** Up to the awaited lookup. *)
Definition lookup (e : value) (s : repo) : option EventProcessingAudit :=
  findByDeduplicationKey (computeDeduplicationKey e) s.

Definition audit_of (t : tick) (e : value) (st : event_status) (why : option string)
    (correlation : option string) : EventProcessingAudit :=
  {| a_id := fresh t; a_deduplicationKey := computeDeduplicationKey e;
     a_contractId := text_of (prop e "contractId"); a_eventId := text_of (prop e "eventId");
     a_sequence := number_of (prop e "sequence"); a_status := st; a_reason := why;
     a_payloadHash := computePayloadHash (prop e "payload"); a_processedAt := now t;
     a_createdAt := now t;
     a_correlationId := match correlation with Some EmptyString => None | c => c end |}.

Definition outcome (k : list ascii) (st : event_status) (why : option string) (t : tick) (c : option string)
  : EventIngestionResult :=
  {| deduplicationKey := Some k; status := st; reason := why; processedAt := now t; code := c |}.

(** The rest, given what the lookup saw. *)
Definition record (seen : option EventProcessingAudit) (t : tick) (e : value)
    (correlation : option string) (s : repo) : EventIngestionResult * repo :=
  let k := computeDeduplicationKey e in
  match seen with
  | Some a =>
      if comparePayloadHashes (computePayloadHash (prop e "payload")) (a_payloadHash a)
      then (outcome k duplicate (Some "Event with same deduplication key already processed"%string) t None, s)
      else (outcome k rejected (Some "Idempotency key was already used with a different event payload."%string) t
              (Some "IDEMPOTENCY_PAYLOAD_CONFLICT"%string), s)
  | None => (outcome k accepted None t None, save (audit_of t e accepted None correlation) s)
  end.

Definition rejectEvent (t : tick) (e : value) (why : string) (correlation : option string) (s : repo)
  : EventIngestionResult * repo :=
  (outcome (computeDeduplicationKey e) rejected (Some why) t None,
   save (audit_of t e rejected (Some why) correlation) s).

(** ** [EventIngestionService] *)

Record EventIngestionConfig : Type := {
  enableStrictValidation : bool;
  enablePayloadIntegrityCheck : bool;
  maxEventAgeMs : number;
  batchSize : Z;
}.

Context (cfg : EventIngestionConfig).

Definition INGESTION_PREAMBLE_OPTIONS : EnvelopeValidationOptions :=
  {| rootErrorMessage := "Event must be a JSON object."; messageSuffix := ".";
     timestampRule := numeric; abortEarly := false |}.

Definition validateContractSpecificPayload (contractType : string) (payload : value) : list FieldError :=
  if isRecord payload && String.eqb contractType "talent_contract" then
    (if nonblank (prop payload "talentId") then []
     else [{| field := "payload.talentId"; message := "talentId is required for talent_contract events." |}]) ++
    (if nonblank (prop payload "action") then []
     else [{| field := "payload.action"; message := "action is required for talent_contract events." |}])
  else [].

Definition too_old (clock : Z) (preamble : list FieldError) (e : value) : bool :=
  match toFiniteNumber to_number (prop e "timestamp") with
  | Some ts => negb (existsb (fun x => String.eqb (field x) "timestamp") preamble) &&
               num_gtb (num_sub (of_int clock) ts) (maxEventAgeMs cfg)
  | None => false
  end.

Definition validateEvent (clock : Z) (e : value) (contractType : string) : list FieldError :=
  let preamble := validateEventEnvelopePreamble date_parses to_number e INGESTION_PREAMBLE_OPTIONS in
  preamble ++
  (if isRecord e then
     (if too_old clock preamble e then [{| field := "timestamp"; message := "Event too old." |}] else []) ++
     (if enableStrictValidation cfg then validateContractSpecificPayload contractType (prop e "payload") else [])
   else []).

Fixpoint join_messages (errors : list FieldError) : string :=
  match errors with
  | [] => EmptyString
  | [x] => message x
  | x :: rest => message x +:+ "; " +:+ join_messages rest
  end.

Definition refused (t : tick) (errors : list FieldError) : EventIngestionResult :=
  {| deduplicationKey := None; status := rejected;
     reason := Some ("Validation failed: " +:+ join_messages errors); processedAt := now t; code := None |}.

(** The conflict (the only rejection of [record], whose reason contains
    "already used") is reported in other words when the integrity check is on. *)
Definition reword (r : EventIngestionResult) : EventIngestionResult :=
  if bool_decide (status r = rejected) && enablePayloadIntegrityCheck cfg then
    {| deduplicationKey := deduplicationKey r; status := rejected;
       reason := Some "Payload integrity check failed: event payload does not match previously processed event."%string;
       processedAt := processedAt r; code := code r |}
  else r.

(** One event of a chunk after its first piece: what its lookup saw, or the
    errors that ended it. *)
Inductive started : Type :=
| Invalid (errors : list FieldError)
| Waiting (seen : option EventProcessingAudit).

Definition start (contractType : string) (t : tick) (e : value) (s : repo) : started :=
  match validateEvent (now t) e contractType with
  | [] => Waiting (lookup e s)
  | errors => Invalid errors
  end.

Definition finish (t : tick) (correlation : option string) (st : started) (e : value) (s : repo)
  : EventIngestionResult * repo :=
  match st with
  | Invalid errors => (refused t errors, s)
  | Waiting seen => let '(r, s') := record seen t e correlation s in (reword r, s')
  end.

Definition processEvent (contractType : string) (t : tick) (correlation : option string) (e : value) (s : repo)
  : EventIngestionResult * repo := finish t correlation (start contractType t e s) e s.

(** [Promise.all(batch.map(processEvent))]: every lookup is made before the
    first record is saved. *)
Fixpoint finish_all (correlation : option string) (l : list (tick * value * started)) (s : repo)
  : list EventIngestionResult * repo :=
  match l with
  | [] => ([], s)
  | (t, e, st) :: l' =>
      let '(r, s1) := finish t correlation st e s in
      let '(rs, s2) := finish_all correlation l' s1 in (r :: rs, s2)
  end.

Definition process_chunk (contractType : string) (correlation : option string) (chunk : list (tick * value))
    (s : repo) : list EventIngestionResult * repo :=
  finish_all correlation (map (fun p => (p.1, p.2, start contractType p.1 p.2 s)) chunk) s.

Fixpoint batches (fuel n : nat) (l : list (tick * value)) : list (list (tick * value)) :=
  match fuel, l with
  | _, [] | O, _ => []
  | S fuel, _ => take n l :: batches fuel n (drop n l)
  end.

Fixpoint process_chunks (contractType : string) (correlation : option string) (cs : list (list (tick * value)))
    (s : repo) : list EventIngestionResult * repo :=
  match cs with
  | [] => ([], s)
  | c :: cs' =>
      let '(r1, s1) := process_chunk contractType correlation c s in
      let '(r2, s2) := process_chunks contractType correlation cs' s1 in (r1 ++ r2, s2)
  end.

Definition processBatch (contractType : string) (correlation : option string) (events : list (tick * value))
    (s : repo) : list EventIngestionResult * repo :=
  process_chunks contractType correlation
    (batches (length events) (Z.to_nat (Z.max 1 (batchSize cfg))) events) s.

(** ** Lemmas *)

Fixpoint process_each (contractType : string) (correlation : option string) (l : list (tick * value)) (s : repo)
  : list EventIngestionResult * repo :=
  match l with
  | [] => ([], s)
  | (t, e) :: l' =>
      let '(r, s1) := processEvent contractType t correlation e s in
      let '(rs, s2) := process_each contractType correlation l' s1 in (r :: rs, s2)
  end.

Lemma batches_one fuel l : (length l ≤ fuel)%nat -> batches fuel 1 l = map (fun x => [x]) l.
Proof.
  revert l. induction fuel as [|fuel IH]; intros [|x l] Hl; simpl in *; try done; [lia|].
  f_equal. change (batches fuel 1 (drop 0 l)) with (batches fuel 1 l). apply IH. lia.
Qed.

Lemma chunk_one ct c t e s :
  process_chunk ct c [(t, e)] s = let '(r, s1) := processEvent ct t c e s in ([r], s1).
Proof. unfold process_chunk, processEvent. simpl. by destruct (finish t c _ e s). Qed.

Lemma chunks_one ct c l s : process_chunks ct c (map (fun x => [x]) l) s = process_each ct c l s.
Proof.
  revert s. induction l as [|[t e] l IH]; intros s; [done|]. cbn [map process_chunks process_each].
  rewrite chunk_one. destruct (processEvent ct t c e s) as [r s1]. rewrite IH.
  by destruct (process_each ct c l s1).
Qed.

Lemma reword_status r : status (reword r) = status r.
Proof. unfold reword. case_bool_decide as E; simpl; [|done]. by destruct (enablePayloadIntegrityCheck cfg). Qed.

(** What processing one event does to the recorded audits. *)
Lemma processEvent_cases ct t c e s :
  let '(r, s') := processEvent ct t c e s in
  (s' = s /\ status r <> accepted) \/
  (validateEvent (now t) e ct = [] /\ lookup e s = None /\ status r = accepted /\
   s' = save (audit_of t e accepted None c) s).
Proof.
  unfold processEvent, start, finish. destruct (validateEvent (now t) e ct) as [|x errs]; [|by left].
  unfold record. destruct (lookup e s) as [a|] eqn:E.
  - destruct (comparePayloadHashes _ _); cbv iota beta; left; split; try done; by rewrite reword_status.
  - cbv iota beta. right. split_and!; done.
Qed.

Lemma processEvent_keeps ct t c e s k a :
  findByDeduplicationKey k s = Some a -> findByDeduplicationKey k (processEvent ct t c e s).2 = Some a.
Proof.
  intros Hk. pose proof (processEvent_cases ct t c e s) as H.
  destruct (processEvent ct t c e s) as [r s'].
  destruct H as [[-> _]|(_ & Hn & _ & ->)]; [done|]. unfold findByDeduplicationKey, lookup in *. simpl.
  rewrite map_get_set_ne; [done|]. intros E. unfold findByDeduplicationKey in Hn. congruence.
Qed.

Lemma process_each_keeps ct c l s k a :
  findByDeduplicationKey k s = Some a -> findByDeduplicationKey k (process_each ct c l s).2 = Some a.
Proof.
  revert s. induction l as [|[t e] l IH]; intros s Hk; [done|]. simpl.
  apply (processEvent_keeps ct t c e) in Hk. destruct (processEvent ct t c e s) as [r s1].
  specialize (IH s1 Hk). by destruct (process_each ct c l s1).
Qed.

(** *** The index by contract *)

Definition index_ok (s : repo) : Prop :=
  forall k a, map_get k (audits s) = Some a -> a_deduplicationKey a = k /\
    k ∈ default [] (map_get (a_contractId a) (contractIdIndex s)).

Lemma set_add_spec k x l : x ∈ set_add k l <-> x = k \/ x ∈ l.
Proof.
  unfold set_add. case_bool_decide; [set_solver|]. rewrite elem_of_app, list_elem_of_singleton. tauto.
Qed.

Lemma save_index_ok a s : index_ok s -> index_ok (save a s).
Proof.
  intros Hok k b Hk. simpl in Hk. unfold save, index_add. simpl.
  apply map_get_set_inv in Hk as [[-> ->]|[Hne Hk]].
  - split; [done|]. rewrite map_get_set_eq. simpl. apply set_add_spec. by left.
  - destruct (Hok k b Hk) as [Hid Hin]. split; [done|].
    destruct (decide (a_contractId a = a_contractId b)) as [E|N].
    + rewrite E, map_get_set_eq. simpl. apply set_add_spec. by right.
    + by rewrite map_get_set_ne.
Qed.

Lemma finish_all_index_ok c l s : index_ok s -> index_ok (finish_all c l s).2.
Proof.
  revert s. induction l as [|[[t e] st] l IH]; intros s Hok; [done|]. simpl.
  assert (H1 : index_ok (finish t c st e s).2).
  { destruct st as [errs|[a|]]; simpl; [done| |].
    - by destruct (comparePayloadHashes _ _).
    - by apply save_index_ok. }
  destruct (finish t c st e s) as [r s1]. specialize (IH s1 H1). by destruct (finish_all c l s1).
Qed.

Lemma chunks_index_ok ct c cs s : index_ok s -> index_ok (process_chunks ct c cs s).2.
Proof.
  revert s. induction cs as [|ch cs IH]; intros s Hok; [done|]. simpl. unfold process_chunk.
  pose proof (finish_all_index_ok c (map (fun p => (p.1, p.2, start ct p.1 p.2 s)) ch) s Hok) as H1.
  destruct (finish_all c _ s) as [r s1]. specialize (IH s1 H1). by destruct (process_chunks ct c cs s1).
Qed.

Lemma batches_concat fuel n l : (0 < n)%nat -> (length l ≤ fuel)%nat -> concat (batches fuel n l) = l.
Proof.
  intros Hn. revert l. induction fuel as [|fuel IH]; intros [|x l] Hl; try done; [simpl in Hl; lia|].
  cbn [batches concat]. rewrite IH; [apply take_drop|]. rewrite length_drop. simpl in *. lia.
Qed.

Lemma finish_all_length c l s : length (finish_all c l s).1 = length l.
Proof.
  revert s. induction l as [|[[t e] st] l IH]; intros s; [done|]. simpl.
  destruct (finish t c st e s) as [r s1]. specialize (IH s1). destruct (finish_all c l s1). simpl in *. lia.
Qed.

Lemma chunks_length ct c cs s : length (process_chunks ct c cs s).1 = length (concat cs).
Proof.
  revert s. induction cs as [|ch cs IH]; intros s; [done|]. simpl. unfold process_chunk.
  pose proof (finish_all_length c (map (fun p => (p.1, p.2, start ct p.1 p.2 s)) ch) s) as H1.
  rewrite length_map in H1. destruct (finish_all c _ s) as [r s1]. specialize (IH s1).
  destruct (process_chunks ct c cs s1). simpl in *. rewrite !length_app. lia.
Qed.

(** ** Properties *)

(** Equivalence.  With a batch size of at most one a batch is the sequence
    of its events, each seeing the effect of the previous ones; with any batch
    size there is one result per event. *)
Theorem batch_sequential ct c events s :
  (batchSize cfg <= 1 -> processBatch ct c events s = process_each ct c events s) /\
  length (processBatch ct c events s).1 = length events.
Proof.
  unfold processBatch. split.
  - intros Hb. replace (Z.to_nat (Z.max 1 (batchSize cfg))) with 1%nat by lia.
    by rewrite batches_one, chunks_one.
  - rewrite chunks_length, batches_concat; [done|lia|done].
Qed.

(** Duplicates inside a chunk are not detected.  Two copies of a fresh valid
    event in one batch are both accepted, because both lookups run before the
    first record is saved. *)
Theorem batch_duplicates_accepted ct c t1 t2 e s :
  2 <= batchSize cfg -> validateEvent (now t1) e ct = [] -> validateEvent (now t2) e ct = [] ->
  lookup e s = None ->
  status <$> (processBatch ct c [(t1, e); (t2, e)] s).1 = [accepted; accepted].
Proof.
  intros Hb H1 H2 Hn. unfold processBatch. cbn [length batches].
  destruct (Z.to_nat (Z.max 1 (batchSize cfg))) as [|[|n]] eqn:E; [lia|lia|]. cbn [take drop].
  rewrite take_nil, drop_nil. cbn [batches process_chunks]. unfold process_chunk. cbn [map].
  unfold start. cbn [fst snd]. rewrite H1, H2, Hn. simpl. by rewrite ?reword_status.
Qed.

(** Invariant.  However events are batched, every recorded audit is filed
    under its own key and is listed in the history of its contract. *)
Theorem history_complete ct c events s k a lim :
  index_ok s -> let s' := (processBatch ct c events s).2 in
  map_get k (audits s') = Some a ->
  (length (default [] (map_get (a_contractId a) (contractIdIndex s'))) ≤ lim)%nat ->
  a ∈ findByContractId (a_contractId a) lim s'.
Proof.
  intros Hok s' Ha Hlim. assert (Hok' : index_ok s') by (unfold s', processBatch; by apply chunks_index_ok).
  destruct (Hok' k a Ha) as [_ Hin]. unfold findByContractId, newest, lookup_all.
  set (keys := default [] _) in *. rewrite take_ge.
  - apply elem_of_sort_by. apply list_elem_of_omap. eauto.
  - rewrite length_sort_by. etransitivity; [|exact Hlim]. generalize keys. intros l.
    induction l as [|x l IH]; [done|]. cbn [omap list_omap]. destruct (map_get x (audits s')); simpl in *; lia.
Qed.

Hypothesis sha256_digest : forall l, Signing.digest (sha256 l).

Lemma compare_payloads p1 p2 :
  comparePayloadHashes (computePayloadHash p1) (computePayloadHash p2) =
  bool_decide (computePayloadHash p1 = computePayloadHash p2).
Proof.
  unfold comparePayloadHashes, Idempotency.constantTimeEqual, computePayloadHash.
  apply bool_decide_ext. split; [|congruence]. set (l1 := Idempotency.canonicalize _ _ p1).
  set (l2 := Idempotency.canonicalize _ _ p2).
  destruct (sha256_digest l1) as [L1 F1], (sha256_digest l2) as [L2 F2]. by apply (Signing.hex_bytes_inj 32).
Qed.

(** An accepted event is recorded once and for all.  After it was accepted,
    and whatever events are processed one after the other since, a valid event
    with the same deduplication key is a duplicate when its payload hashes to
    the same digest and is rejected otherwise; the records do not change. *)
Theorem accepted_once ct t c e s r s1 l t' e' :
  processEvent ct t c e s = (r, s1) -> status r = accepted ->
  computeDeduplicationKey e' = computeDeduplicationKey e -> validateEvent (now t') e' ct = [] ->
  let s2 := (process_each ct c l s1).2 in
  exists r', processEvent ct t' c e' s2 = (r', s2) /\
    status r' = if bool_decide (computePayloadHash (prop e' "payload") = computePayloadHash (prop e "payload"))
                then duplicate else rejected.
Proof.
  intros Hp Hacc Hkey Hval s2. pose proof (processEvent_cases ct t c e s) as H. rewrite Hp in H.
  destruct H as [[_ ?]|(_ & _ & _ & ->)]; [done|].
  assert (Hk : findByDeduplicationKey (computeDeduplicationKey e) s2 = Some (audit_of t e accepted None c)).
  { apply process_each_keeps. unfold findByDeduplicationKey. simpl. apply map_get_set_eq. }
  unfold processEvent, start. rewrite Hval. unfold lookup. rewrite Hkey, Hk. unfold finish, record.
  cbn [audit_of a_payloadHash]. rewrite compare_payloads.
  case_bool_decide; (eexists; split; [reflexivity|by rewrite reword_status]).
Qed.

End Service.

(** ** Witnesses *)

Definition sample_event : value :=
  VObject [("contractId"%string, VString "c1"); ("eventId"%string, VString "e1");
           ("sequence"%string, VNumber (of_int 1)); ("timestamp"%string, VNumber (of_int 1000));
           ("payload"%string, VObject [("amount"%string, VNumber (of_int 5))])].

Definition empty_repo : repo := {| audits := []; contractIdIndex := []; statusIndex := [] |}.
Definition at_ms (z : Z) : tick := {| now := z; fresh := "a1" |}.
Definition batch_of (n : Z) : EventIngestionConfig :=
  {| enableStrictValidation := true; enablePayloadIntegrityCheck := true; maxEventAgeMs := of_int 60000; batchSize := n |}.

Notation process n := (processEvent Idempotency.sample_text Idempotency.sample_sha String.le (fun _ => true)
  (fun _ => NaN) (batch_of n) "escrow").

(** Rejecting an event that was accepted counts it in both columns. *)
Example statistics_double_count :
  let s1 := (process 1 (at_ms 2000) None sample_event empty_repo).2 in
  let s2 := (rejectEvent Idempotency.sample_text Idempotency.sample_sha String.le (at_ms 3000) sample_event "late" None s1).2 in
  getEventStatistics s2 = {| total := 1; n_accepted := 1; n_rejected := 1; n_duplicates := 0 |}.
Proof. vm_compute. reflexivity. Qed.

Lemma accepted_once_witness :
  exists r', process 1 (at_ms 3000) None sample_event (process 1 (at_ms 2000) None sample_event empty_repo).2 =
    (r', (process 1 (at_ms 2000) None sample_event empty_repo).2) /\ status r' = duplicate.
Proof.
  destruct (accepted_once Idempotency.sample_text Idempotency.sample_sha String.le (fun _ => true) (fun _ => NaN)
    (batch_of 1) Idempotency.sample_sha_digest "escrow" (at_ms 2000) None sample_event empty_repo
    (process 1 (at_ms 2000) None sample_event empty_repo).1 (process 1 (at_ms 2000) None sample_event empty_repo).2
    [] (at_ms 3000) sample_event) as (r' & H & Hs).
  - vm_compute. reflexivity.
  - vm_compute. reflexivity.
  - reflexivity.
  - vm_compute. reflexivity.
  - exists r'. split; [exact H|exact Hs].
Defined.

Lemma batch_duplicates_accepted_witness :
  status <$> (processBatch Idempotency.sample_text Idempotency.sample_sha String.le (fun _ => true) (fun _ => NaN)
    (batch_of 10) "escrow" None [(at_ms 2000, sample_event); (at_ms 2001, sample_event)] empty_repo).1
  = [accepted; accepted].
Proof.
  apply batch_duplicates_accepted.
  - vm_compute. discriminate.
  - vm_compute. reflexivity.
  - vm_compute. reflexivity.
  - reflexivity.
Defined.

Definition one_event : repo :=
  (processBatch Idempotency.sample_text Idempotency.sample_sha String.le (fun _ => true) (fun _ => NaN)
    (batch_of 10) "escrow" None [(at_ms 2000, sample_event)] empty_repo).2.

Lemma history_complete_witness :
  audit_of Idempotency.sample_text Idempotency.sample_sha String.le (at_ms 2000) sample_event accepted None None
    ∈ findByContractId "c1" 100 one_event.
Proof.
  apply (history_complete Idempotency.sample_text Idempotency.sample_sha String.le (fun _ => true) (fun _ => NaN)
    (batch_of 10) "escrow" None [(at_ms 2000, sample_event)] empty_repo
    (computeDeduplicationKey Idempotency.sample_text sample_event)).
  - intros k a Hk. discriminate Hk.
  - vm_compute. reflexivity.
  - vm_compute. lia.
Defined.

End Ingestion.
