(* ===== verification/SwrCache.v ===== *)
(** * Stale-while-revalidate cache: src/utils/swrCache.ts

    [cache] and [activeFetches] are the two Maps of the class.  A fetch promise
    is an index of [fetches], which records the key it was started for and
    whether it is pending, resolved or rejected; [reported] lists the calls of
    the [onRevalidationError] hook.  A call of [get] either serves an entry at
    once or waits for a promise.  The code runs in turns of the event loop: a
    [get] up to its [await], the settling of a fetch, the continuation of a
    coalesced waiter, and [delete] are the turns, in any order. *)

From stdpp Require Import prelude strings relations.
From Stdlib Require Import ZArith Lia.
From S2P Require Import Prelude JsMap JsValue.
Open Scope Z_scope.

Module Swr.

Section Swr.
Context {D E : Type}.

Record CacheOptions : Type := { ttlMs : Z; swrMs : Z }.

Record CacheEntry : Type := { data : D; updatedAt : Z }.

Inductive source : Type := upstream | cache_fresh | cache_stale.

Record SWRResult : Type := { res_data : D; degraded : bool; src : source }.

Inductive promise : Type := Pending | Resolved (d : D) | Rejected (e : E).

Record swr : Type := {
  cache : list (string * CacheEntry);
  activeFetches : list (string * nat);
  fetches : list (string * promise);
  reported : list (string * E);
}.

(** What calling the fetcher does in its own turn: it returns a promise, or
    throws before returning one. *)
Inductive fetch_start : Type := Deferred | ThrowsSync (e : E).

Inductive outcome : Type :=
| Served (r : SWRResult)
| Waits (promise : nat).      (* then data from upstream, or the rejection *)

Definition DEFAULT_MAX_ENTRIES : Z := 1000.

(** The constructor's [maxEntries]; [None] is the RangeError. *)
Definition capacity (supplied : option number) : option Z :=
  match to_int (default (of_int DEFAULT_MAX_ENTRIES) supplied) with
  | Some n => if bool_decide (n <= 0) then None else Some n
  | None => None
  end.

Context (maxEntries : Z).

Definition set_cache (m : list (string * CacheEntry)) (s : swr) : swr :=
  {| cache := m; activeFetches := activeFetches s; fetches := fetches s; reported := reported s |}.

Definition size (s : swr) : nat := length (cache s).

Definition delete (key : string) (s : swr) : bool * swr :=
  (map_has key (cache s), set_cache (map_delete key (cache s)) s).

(** The eviction loop: each round removes the oldest key; [fuel] rounds. *)
Fixpoint evict (fuel : nat) (m : list (string * CacheEntry)) : list (string * CacheEntry) :=
  match fuel with
  | O => m
  | S fuel =>
      if bool_decide (maxEntries < Z.of_nat (length m)) then
        match m with
        | [] => m
        | (oldest, _) :: _ => evict fuel (map_delete oldest m)
        end
      else m
  end.

Definition setEntry (key : string) (e : CacheEntry) (s : swr) : swr :=
  let m := map_set key e (map_delete key (cache s)) in
  set_cache (evict (length m) m) s.

Definition touch (key : string) (e : CacheEntry) (s : swr) : swr :=
  set_cache (map_set key e (map_delete key (cache s))) s.

Definition touchIfPresent (key : string) (s : swr) : swr :=
  match map_get key (cache s) with Some e => touch key e s | None => s end.

(** [revalidate] up to the fetcher's own [await]: a synchronous throw runs the
    [catch] and [finally] blocks before the promise is registered. *)
Definition revalidate (key : string) (start : fetch_start) (s : swr) : nat * swr :=
  let i := length (fetches s) in
  match start with
  | Deferred =>
      (i, {| cache := cache s; activeFetches := map_set key i (activeFetches s);
             fetches := fetches s ++ [(key, Pending)]; reported := reported s |})
  | ThrowsSync e =>
      (i, {| cache := cache s;
             activeFetches := map_set key i (map_delete key (activeFetches s));
             fetches := fetches s ++ [(key, Rejected e)]; reported := reported s ++ [(key, e)] |})
  end.

Definition get (now : Z) (key : string) (o : CacheOptions) (start : fetch_start) (s : swr)
  : outcome * swr :=
  let miss :=
    match map_get key (activeFetches s) with
    | Some i => (Waits i, s)
    | None => let '(i, s') := revalidate key start s in (Waits i, s')
    end in
  match map_get key (cache s) with
  | None => miss
  | Some e =>
      let age := now - updatedAt e in
      if bool_decide (age < ttlMs o) then
        (Served {| res_data := data e; degraded := false; src := cache_fresh |}, touch key e s)
      else if bool_decide (age < ttlMs o + swrMs o) then
        let s' := if map_has key (activeFetches s) then s else (revalidate key start s).2 in
        (Served {| res_data := data e; degraded := true; src := cache_stale |}, touch key e s')
      else miss
  end.

(** The rest of [revalidate] when the fetcher's promise settles. *)
Definition settle (i : nat) (r : result E D) (now : Z) (s : swr) : swr :=
  match fetches s !! i with
  | Some (key, Pending) =>
      let finish p s' :=
        {| cache := cache s'; activeFetches := map_delete key (activeFetches s');
           fetches := <[i := (key, p)]> (fetches s'); reported := reported s' |} in
      match r with
      | Ok d => finish (Resolved d) (setEntry key {| data := d; updatedAt := now |} s)
      | Err e =>
          finish (Rejected e)
            {| cache := cache s; activeFetches := activeFetches s; fetches := fetches s;
               reported := reported s ++ [(key, e)] |}
      end
  | _ => s
  end.

(** ** Turns *)

Inductive turn : Type :=
| Get (now : Z) (key : string) (o : CacheOptions) (start : fetch_start)
| Settle (i : nat) (r : result E D) (now : Z)
| Resume (key : string)       (* a coalesced waiter continues after its await *)
| Delete (key : string).

Definition exec (t : turn) (s : swr) : swr :=
  match t with
  | Get now key o start => (get now key o start s).2
  | Settle i r now => settle i r now s
  | Resume key => touchIfPresent key s
  | Delete key => (delete key s).2
  end.

Definition run (ts : list turn) (s : swr) : swr := foldl (fun s t => exec t s) s ts.

Definition empty : swr := {| cache := []; activeFetches := []; fetches := []; reported := [] |}.

(** ** Invariant *)

Record swr_ok (s : swr) : Prop := {
  ok_cache : wf (cache s);
  ok_size : Z.of_nat (length (cache s)) <= maxEntries;
  ok_active : wf (activeFetches s);
  ok_registered key i : map_get key (activeFetches s) = Some i -> exists p, fetches s !! i = Some (key, p);
  ok_pending key i : fetches s !! i = Some (key, Pending) -> map_get key (activeFetches s) = Some i;
  ok_origin key e : map_get key (cache s) = Some e ->
    exists i, fetches s !! i = Some (key, Resolved (data e));
}.

(** ** Lemmas *)

(** Eviction keeps exactly the newest [maxEntries] entries. *)
Lemma evict_drop fuel m :
  wf m -> 0 <= maxEntries -> (length m <= fuel)%nat ->
  evict fuel m = drop (length m - Z.to_nat maxEntries) m.
Proof.
  intros Hwf Hm. revert m Hwf. induction fuel as [|fuel IH]; intros m Hwf Hlen.
  { destruct m; [by rewrite drop_nil|simpl in Hlen; lia]. }
  cbn [evict]. case_bool_decide as Hbig.
  - destruct m as [|[k e] m]; [by rewrite drop_nil|]. rewrite delete_head by done.
    rewrite IH.
    + simpl length in *. replace (S (length m) - Z.to_nat maxEntries)%nat
        with (S (length m - Z.to_nat maxEntries))%nat by lia. done.
    + by apply NoDup_cons in Hwf as [_ ?].
    + simpl in Hlen. lia.
  - replace (length m - Z.to_nat maxEntries)%nat with O by lia. done.
Qed.

Lemma length_touch (m : list (string * CacheEntry)) k e0 e :
  wf m -> map_get k m = Some e0 -> length (map_set k e (map_delete k m)) = length m.
Proof.
  intros Hwf Hk. pose proof (length_delete_Some m k e0 Hwf Hk) as Hl.
  rewrite length_set_None by apply map_get_delete_eq. lia.
Qed.

Lemma map_get_touch {A} (m : list (string * A)) k v k' :
  map_get k' (map_set k v (map_delete k m)) = if decide (k = k') then Some v else map_get k' m.
Proof.
  case_decide as Hk; [subst; apply map_get_set_eq|].
  by rewrite map_get_set_ne, map_get_delete_ne.
Qed.

Lemma touch_ok key e s : map_get key (cache s) = Some e -> swr_ok s -> swr_ok (touch key e s).
Proof.
  intros He [Hc Hs Ha Hr Hp Ho]. constructor; try done; simpl.
  - by apply wf_set, wf_delete.
  - by rewrite (length_touch _ _ e).
  - intros k e'. rewrite map_get_touch. case_decide as Hk; [|apply Ho].
    intros [= <-]. subst. by apply Ho.
Qed.

(** Registering a new promise, pending or already rejected, for a free key. *)
Lemma register_ok key p s :
  map_get key (activeFetches s) = None -> (forall d, p <> Resolved d) -> swr_ok s ->
  forall rep,
  swr_ok {| cache := cache s; activeFetches := map_set key (length (fetches s)) (activeFetches s);
            fetches := fetches s ++ [(key, p)]; reported := rep |}.
Proof.
  intros Hfree Hnr [Hc Hs Ha Hr Hp Ho] rep. constructor; try done; simpl.
  - by apply wf_set.
  - intros k i. destruct (decide (key = k)) as [<-|Hk].
    + rewrite map_get_set_eq. intros [= <-]. exists p. by rewrite list_lookup_middle.
    + rewrite map_get_set_ne by done. intros [q Hq]%Hr. exists q. by apply lookup_app_l_Some.
  - intros k i [Hi|[Hi Hl]]%lookup_app_Some.
    + pose proof (Hp k i Hi) as Hk. rewrite map_get_set_ne; [done|]. intros <-. congruence.
    + apply list_lookup_singleton_Some in Hl as [Hz [= -> ->]].
      rewrite map_get_set_eq. f_equal. lia.
  - intros k e [i Hi]%Ho. exists i. by apply lookup_app_l_Some.
Qed.

Lemma revalidate_ok key start s :
  map_get key (activeFetches s) = None -> swr_ok s -> swr_ok (revalidate key start s).2.
Proof.
  intros Hfree Hok. destruct start as [|e]; simpl.
  - by apply register_ok.
  - rewrite (map_delete_None _ _ Hfree). by apply register_ok.
Qed.

Lemma setEntry_cache key e s :
  swr_ok s -> 0 <= maxEntries ->
  let m := map_set key e (map_delete key (cache s)) in
  cache (setEntry key e s) = drop (length m - Z.to_nat maxEntries) m /\ wf m.
Proof.
  intros Hok Hm. cbv zeta. assert (Hwf : wf (map_set key e (map_delete key (cache s))))
    by apply wf_set, wf_delete, Hok.
  split; [|done]. unfold setEntry. simpl. by apply evict_drop.
Qed.

(** Settling a pending fetch. *)
Lemma swr_finish_ok key i p s m rep :
  swr_ok s -> fetches s !! i = Some (key, Pending) -> p <> Pending ->
  wf m -> Z.of_nat (length m) <= maxEntries ->
  (forall k e, map_get k m = Some e ->
     map_get k (cache s) = Some e \/ (k = key /\ p = Resolved (data e))) ->
  swr_ok {| cache := m; activeFetches := map_delete key (activeFetches s);
            fetches := <[i := (key, p)]> (fetches s); reported := rep |}.
Proof.
  intros [Hc Hs Ha Hr Hp Ho] Hi Hnp Hwf Hlen Hm.
  assert (Hlt : (i < length (fetches s))%nat) by by eapply lookup_lt_Some.
  constructor; try done; simpl.
  - by apply wf_delete.
  - intros k j Hk. destruct (decide (key = k)) as [<-|Hne]; [by rewrite map_get_delete_eq in Hk|].
    rewrite map_get_delete_ne in Hk by done. apply Hr in Hk as [q Hq]. exists q.
    rewrite list_lookup_insert_ne; [done|]. intros <-. congruence.
  - intros k j Hj. destruct (decide (i = j)) as [<-|Hne].
    + rewrite list_lookup_insert_eq in Hj by done. congruence.
    + rewrite list_lookup_insert_ne in Hj by done. pose proof (Hp k j Hj) as Hk.
      rewrite map_get_delete_ne; [done|]. intros <-. rewrite (Hp key i Hi) in Hk. congruence.
  - intros k e Hk. destruct (Hm k e Hk) as [Hk'|[-> ->]].
    + destruct (Ho k e Hk') as [j Hj]. exists j. rewrite list_lookup_insert_ne; [done|].
      intros <-. congruence.
    + exists i. by rewrite list_lookup_insert_eq.
Qed.

Lemma settle_ok i r now s : 0 < maxEntries -> swr_ok s -> swr_ok (settle i r now s).
Proof.
  intros Hm Hok. unfold settle. destruct (fetches s !! i) as [[key [|d|e]]|] eqn:Hi; try done.
  destruct r as [d|e].
  - destruct (setEntry_cache key {| data := d; updatedAt := now |} s Hok) as [Hc Hwf]; [lia|].
    apply (swr_finish_ok key i (Resolved d) s); try done; rewrite Hc.
    + by apply wf_drop.
    + rewrite length_drop. lia.
    + intros k e Hk. apply map_get_drop in Hk; [|done]. rewrite map_get_touch in Hk.
      case_decide as Hkk; [|by left]. injection Hk as <-. right. by subst.
  - apply (swr_finish_ok key i (Rejected e) s); try done; [apply Hok|apply Hok|]. simpl. auto.
Qed.

Lemma get_ok now key o start s : swr_ok s -> swr_ok (get now key o start s).2.
Proof.
  intros Hok. unfold get.
  assert (Hmiss : swr_ok (match map_get key (activeFetches s) with
    | Some i => (Waits i, s)
    | None => let '(i, s') := revalidate key start s in (Waits i, s')
    end).2).
  { destruct (map_get key (activeFetches s)) as [i|] eqn:Ea; [done|].
    pose proof (revalidate_ok key start s Ea Hok). by destruct (revalidate key start s). }
  destruct (map_get key (cache s)) as [e|] eqn:Ee; [|exact Hmiss].
  case_bool_decide; [by apply touch_ok|]. case_bool_decide; [|exact Hmiss].
  cbn [snd]. destruct (map_has key (activeFetches s)) eqn:Ea; [by apply touch_ok|].
  apply map_has_false in Ea. apply touch_ok; [by destruct start|by apply revalidate_ok].
Qed.

Lemma turn_ok t s : 0 < maxEntries -> swr_ok s -> swr_ok (exec t s).
Proof.
  intros Hm Hok. destruct t as [now key o start|i r now|key|key]; simpl.
  - by apply get_ok.
  - by apply settle_ok.
  - unfold touchIfPresent. destruct (map_get key (cache s)) eqn:Ee; [by apply touch_ok|done].
  - destruct Hok as [Hc Hs Ha Hr Hp Ho]. constructor; try done; simpl.
    + by apply wf_delete.
    + pose proof (length_filter (fun e : string * CacheEntry => e.1 <> key) (cache s)).
      unfold map_delete. lia.
    + intros k e Hk. apply Ho. destruct (decide (key = k)) as [<-|Hne].
      * by rewrite map_get_delete_eq in Hk.
      * by rewrite map_get_delete_ne in Hk.
Qed.

Lemma swr_run_ok ts s : 0 < maxEntries -> swr_ok s -> swr_ok (run ts s).
Proof. intros Hm. revert s. induction ts as [|t ts IH]; intros s Hok; [done|]. by apply IH, turn_ok. Qed.

Lemma empty_ok : 0 < maxEntries -> swr_ok empty.
Proof. intros Hm. constructor; simpl; try done; [constructor|lia|constructor]. Qed.

(** ** A promise that was rejected before it was registered *)

Record wedged (key : string) (i : nat) (e : E) (s : swr) : Prop := {
  wedged_ok : swr_ok s;
  wedged_active : map_get key (activeFetches s) = Some i;
  wedged_fetch : fetches s !! i = Some (key, Rejected e);
  wedged_cache : map_get key (cache s) = None;
}.

Lemma wedged_get key i e now o start s : wedged key i e s -> get now key o start s = (Waits i, s).
Proof. intros [_ Ha _ Hc]. unfold get. by rewrite Hc, Ha. Qed.

Lemma touch_cache_ne k e s key :
  k <> key -> map_get key (cache (touch k e s)) = map_get key (cache s).
Proof. intros Hk. simpl. rewrite map_get_touch. by rewrite decide_False. Qed.

Lemma wedged_touch key i e k e' s :
  map_get k (cache s) = Some e' -> wedged key i e s -> wedged key i e (touch k e' s).
Proof.
  intros Hk [Hok Ha Hf Hc]. constructor; [by apply touch_ok|done|done|].
  rewrite touch_cache_ne; [done|]. intros ->. congruence.
Qed.

Lemma wedged_revalidate key i e k start s :
  map_get k (activeFetches s) = None -> wedged key i e s -> wedged key i e (revalidate k start s).2.
Proof.
  intros Hk [Hok Ha Hf Hc]. assert (k <> key) by (intros ->; congruence).
  constructor; [by apply revalidate_ok|..]; destruct start; simpl; try done;
    try (by apply lookup_app_l_Some); rewrite map_get_set_ne by done; [done|].
  by rewrite map_get_delete_ne.
Qed.

Lemma wedged_settle key i e j r now s :
  0 < maxEntries -> wedged key i e s -> wedged key i e (settle j r now s).
Proof.
  intros Hm [Hok Ha Hf Hc]. pose proof (settle_ok j r now s Hm Hok) as Hok'.
  revert Hok'. unfold settle.
  destruct (fetches s !! j) as [[k [|d|e']]|] eqn:Hj; [|by constructor..].
  pose proof (ok_pending s Hok k j Hj) as Hkj.
  assert (Hji : j <> i) by (intros ->; congruence).
  assert (Hk : k <> key) by (intros ->; congruence).
  destruct r as [d|e']; intros Hok'; (constructor; [exact Hok'|..]); simpl;
    rewrite ?map_get_delete_ne, ?list_lookup_insert_ne by done; try done.
  destruct (map_get key (evict _ _)) as [x|] eqn:Hx; [|done].
  destruct (setEntry_cache k {| data := d; updatedAt := now |} s Hok) as [Hs Hwf]; [lia|].
  simpl in Hs. rewrite Hs in Hx. apply map_get_drop in Hx; [|done].
  rewrite map_get_touch, decide_False in Hx by done. congruence.
Qed.

Lemma wedged_exec key i e t s : 0 < maxEntries -> wedged key i e s -> wedged key i e (exec t s).
Proof.
  intros Hm Hw. destruct t as [now k o start|j r now|k|k]; simpl.
  - destruct (decide (k = key)) as [-> |Hne]; [by rewrite (wedged_get _ i e)|].
    unfold get. assert (Hmiss : wedged key i e (match map_get k (activeFetches s) with
      | Some i => (Waits i, s)
      | None => let '(i, s') := revalidate k start s in (Waits i, s')
      end).2).
    { destruct (map_get k (activeFetches s)) eqn:Ea; [done|].
      pose proof (wedged_revalidate key i e k start s Ea Hw). by destruct (revalidate k start s). }
    destruct (map_get k (cache s)) as [x|] eqn:Ex; [|exact Hmiss].
    case_bool_decide; [by apply wedged_touch|]. case_bool_decide; [|exact Hmiss]. cbn [snd].
    destruct (map_has k (activeFetches s)) eqn:Ea; [by apply wedged_touch|].
    apply map_has_false in Ea. apply wedged_touch; [by destruct start|by apply wedged_revalidate].
  - by apply wedged_settle.
  - unfold touchIfPresent. destruct (map_get k (cache s)) eqn:Ek; [by apply wedged_touch|done].
  - destruct Hw as [Hok Ha Hf Hc]. constructor; try done.
    + exact (turn_ok (Delete k) s Hm Hok).
    + simpl. destruct (decide (k = key)) as [-> |Hne]; [apply map_get_delete_eq|].
      by rewrite map_get_delete_ne.
Qed.

Lemma wedged_run key i e ts s : 0 < maxEntries -> wedged key i e s -> wedged key i e (run ts s).
Proof.
  intros Hm. revert s. induction ts as [|t ts IH]; intros s Hw; [done|].
  by apply IH, wedged_exec.
Qed.

(** ** Properties *)

(** The cache never holds more than maxEntries entries, whatever
    sequence of calls, settled fetches, coalesced waiters and deletions it
    sees. *)
Theorem swr_size_bound ts : 0 < maxEntries -> Z.of_nat (size (run ts empty)) <= maxEntries.
Proof. intros Hm. apply (ok_size _ (swr_run_ok ts empty Hm (empty_ok Hm))). Qed.

(** No upstream stampede: at any moment at most one fetch per key is in
    flight, and it is the one that later calls wait for. *)
Theorem swr_single_flight ts i j key :
  0 < maxEntries ->
  fetches (run ts empty) !! i = Some (key, Pending) ->
  fetches (run ts empty) !! j = Some (key, Pending) ->
  i = j /\ map_get key (activeFetches (run ts empty)) = Some i.
Proof.
  intros Hm Hi Hj. pose proof (swr_run_ok ts empty Hm (empty_ok Hm)) as Hok.
  apply (ok_pending _ Hok) in Hi, Hj. split; [congruence|done].
Qed.

(** What a call returns is right.  Served data was fetched from upstream
    for the same key; it is marked fresh exactly when younger than ttlMs and
    degraded exactly when its age is in the stale window; in every other case
    the call waits for a fetch of its own key. *)
Theorem swr_serves_its_key ts now key o start :
  0 < maxEntries ->
  let s := run ts empty in
  match get now key o start s with
  | (Served r, _) =>
      exists e i, map_get key (cache s) = Some e /\ res_data r = data e /\
        fetches s !! i = Some (key, Resolved (res_data r)) /\
        (if degraded r then src r = cache_stale /\ ttlMs o <= now - updatedAt e < ttlMs o + swrMs o
         else src r = cache_fresh /\ now - updatedAt e < ttlMs o)
  | (Waits i, s') => exists p, fetches s' !! i = Some (key, p)
  end.
Proof.
  intros Hm s. pose proof (swr_run_ok ts empty Hm (empty_ok Hm)) as Hok. fold s in Hok.
  pose proof (get_ok now key o start s Hok) as Hok'. revert Hok'. unfold get.
  assert (Hmiss : swr_ok (match map_get key (activeFetches s) with
    | Some i => (Waits i, s) | None => let '(i, s') := revalidate key start s in (Waits i, s') end).2 ->
    match (match map_get key (activeFetches s) with
      | Some i => (Waits i, s) | None => let '(i, s') := revalidate key start s in (Waits i, s') end) with
    | (Served r, _) => False
    | (Waits i, s') => exists p, fetches s' !! i = Some (key, p)
    end).
  { destruct (map_get key (activeFetches s)) as [i|] eqn:Ea.
    - intros _. by apply (ok_registered s Hok).
    - destruct start; simpl; intros _; eexists; by rewrite list_lookup_middle. }
  destruct (map_get key (cache s)) as [e|] eqn:Ee.
  - destruct (ok_origin s Hok key e Ee) as [i Hi].
    case_bool_decide; [intros _; exists e, i; split_and!; done|].
    case_bool_decide; [intros _; exists e, i; simpl; split_and!; try done; lia|].
    intros Hx. specialize (Hmiss Hx).
    destruct (match map_get key (activeFetches s) with Some _ => _ | None => _ end) as [[r|j] s']; done.
  - intros Hx. specialize (Hmiss Hx).
    destruct (match map_get key (activeFetches s) with Some _ => _ | None => _ end) as [[r|j] s']; done.
Qed.

(** Eviction is least-recently-used: storing an entry makes its key the
    newest and keeps the newest maxEntries of the other entries in their
    order. *)
Theorem setEntry_lru ts key e :
  0 < maxEntries ->
  let s := run ts empty in
  let others := map_delete key (cache s) in
  cache (setEntry key e s) =
  drop (S (length others) - Z.to_nat maxEntries) (others ++ [(key, e)]).
Proof.
  intros Hm s others. pose proof (swr_run_ok ts empty Hm (empty_ok Hm)) as Hok. fold s in Hok.
  destruct (setEntry_cache key e s Hok) as [-> _]; [lia|].
  fold others. rewrite map_set_None by apply map_get_delete_eq.
  rewrite length_app. simpl. f_equal. lia.
Qed.

(** A fetcher that throws synchronously wedges its key.  The cleanup runs
    before the promise is registered, so the rejected promise stays registered
    and every later call for the key waits for that same rejection, whatever
    else happens in between. *)
Theorem sync_throw_wedges ts key now o e ts' now' o' start' :
  0 < maxEntries ->
  map_get key (cache (run ts empty)) = None ->
  map_get key (activeFetches (run ts empty)) = None ->
  let s1 := (get now key o (ThrowsSync e) (run ts empty)).2 in
  let s2 := run ts' s1 in
  exists i, get now' key o' start' s2 = (Waits i, s2) /\ fetches s2 !! i = Some (key, Rejected e).
Proof.
  intros Hm Hc Ha. pose proof (swr_run_ok ts empty Hm (empty_ok Hm)) as Hok.
  set (s := run ts empty) in *. cbv zeta.
  assert (Hw : wedged key (length (fetches s)) e (get now key o (ThrowsSync e) s).2).
  { unfold get. rewrite Hc, Ha. simpl. constructor; simpl; try done.
    - pose proof (revalidate_ok key (ThrowsSync e) s Ha Hok) as Hr. exact Hr.
    - apply map_get_set_eq.
    - by rewrite list_lookup_middle. }
  apply (wedged_run _ _ _ ts') in Hw; [|done].
  exists (length (fetches s)). split; [by apply (wedged_get _ _ e)|apply Hw].
Qed.

End Swr.

(** ** Witnesses *)

Definition opts : CacheOptions := {| ttlMs := 100; swrMs := 50 |}.

Definition sample_turns : list (turn (D := Z) (E := string)) :=
  [Get 0 "a" opts Deferred; Get 1 "b" opts Deferred; Settle 0 (Ok 7) 5; Settle 1 (Ok 8) 6;
   Get 10 "a" opts Deferred; Get 120 "c" opts Deferred; Settle 2 (Ok 9) 121].

Lemma swr_size_bound_witness : Z.of_nat (size (run 2 sample_turns empty)) <= 2.
Proof. apply (swr_size_bound 2 sample_turns). lia. Defined.

Lemma swr_single_flight_witness :
  let ts := take 2 sample_turns in
  0%nat = 0%nat /\ map_get "a" (activeFetches (run 2 ts empty)) = Some 0%nat.
Proof. apply (swr_single_flight 2 (take 2 sample_turns) 0 0 "a"); [lia|reflexivity..]. Defined.

Lemma swr_serves_its_key_witness :
  exists e i, map_get "a" (cache (run 2 sample_turns empty)) = Some e /\ 7 = data e /\
    fetches (run 2 sample_turns empty) !! i = Some ("a"%string, Resolved 7).
Proof.
  destruct (swr_serves_its_key 2 sample_turns 130 "a" opts Deferred) as (e & i & H1 & H2 & H3 & _); [lia|].
  by exists e, i.
Defined.

Lemma setEntry_lru_witness :
  map_keys (cache (setEntry 2 "d" {| data := 1; updatedAt := 130 |} (run 2 sample_turns empty))) =
  ["c"; "d"]%string.
Proof. rewrite (setEntry_lru 2 sample_turns "d"); [reflexivity|lia]. Defined.

Lemma sync_throw_wedges_witness :
  exists i, (get 500 "z" opts Deferred
    (run 2 sample_turns (get 200 "z" opts (ThrowsSync "boom"%string) (run 2 sample_turns empty)).2)).1 =
    Waits i.
Proof.
  destruct (sync_throw_wedges 2 sample_turns "z" 200 opts "boom"%string sample_turns 500 opts Deferred)
    as (i & H & _); [lia|reflexivity..|].
  exists i. by rewrite H.
Defined.

End Swr.
