(* ===== verification/ReputationCache.v ===== *)
(** * The reputation cache: src/utils/reputationCache.ts

    A bounded cache over an insertion-ordered Map: the first key is the least
    recently used one.  The clock is an argument of the operations that read it. *)

From stdpp Require Import prelude gmap strings.
From Stdlib Require Import ZArith Lia.
From S2P Require Import Prelude JsMap JsValue JsString JsNumber.
Open Scope Z_scope.

Module ReputationCache.

Record ReputationCacheOptions : Type := { opt_maxEntries : option number; opt_ttlMs : option number }.

Definition DEFAULT_REPUTATION_CACHE_MAX_ENTRIES : Z := 500.
Definition DEFAULT_REPUTATION_CACHE_TTL_MS : Z := 60000.

Inductive range_error : Type := BadMaxEntries | BadTtl.

Record settings : Type := { maxEntries : Z; ttlMs : Z }.

(** [Number.isInteger(n) && n > 0] *)
Definition positive_integer (n : number) : option Z :=
  match to_int n with Some z => if 0 <? z then Some z else None | None => None end.

Definition constructor (o : ReputationCacheOptions) : result range_error settings :=
  match positive_integer (default (of_int DEFAULT_REPUTATION_CACHE_MAX_ENTRIES) (opt_maxEntries o)) with
  | None => Err BadMaxEntries
  | Some m =>
      match positive_integer (default (of_int DEFAULT_REPUTATION_CACHE_TTL_MS) (opt_ttlMs o)) with
      | None => Err BadTtl
      | Some t => Ok {| maxEntries := m; ttlMs := t |}
      end
  end.

(** [parseInt(text, 10)] as a number *)
Definition parsed (s : string) : number := match parse_int s with Some z => of_exact (z * num_scale) | None => NaN end.

(** A variable that is unset or empty leaves the default. *)
Definition from_env (v : option string) (d : Z) : number :=
  match v with None | Some EmptyString => of_int d | Some s => parsed s end.

Definition initReputationCache (o : ReputationCacheOptions) (env : string -> option string) : result range_error settings :=
  constructor
    {| opt_maxEntries := Some (default (from_env (env "REPUTATION_CACHE_MAX_ENTRIES") DEFAULT_REPUTATION_CACHE_MAX_ENTRIES) (opt_maxEntries o));
       opt_ttlMs := Some (default (from_env (env "REPUTATION_CACHE_TTL_MS") DEFAULT_REPUTATION_CACHE_TTL_MS) (opt_ttlMs o)) |}.

Section Cache.
Context {T : Type} (o : settings).

Record CacheEntry : Type := { data : T; cachedAt : Z }.

Record ReputationLruCache : Type := { store : list (string * CacheEntry); hits : Z; misses : Z }.

Definition empty_cache : ReputationLruCache := {| store := []; hits := 0; misses := 0 |}.

Definition size (c : ReputationLruCache) : Z := Z.of_nat (length (store c)).

Definition get (now : Z) (key : string) (c : ReputationLruCache) : option T * ReputationLruCache :=
  match map_get key (store c) with
  | None => (None, {| store := store c; hits := hits c; misses := misses c + 1 |})
  | Some e =>
      if ttlMs o <=? now - cachedAt e
      then (None, {| store := map_delete key (store c); hits := hits c; misses := misses c + 1 |})
      else (Some (data e), {| store := map_set key e (map_delete key (store c)); hits := hits c + 1; misses := misses c |})
  end.

(** The loop that makes room; each turn removes a key, so the size is enough fuel. *)
Fixpoint evict (fuel : nat) (m : list (string * CacheEntry)) : list (string * CacheEntry) :=
  match fuel with
  | O => m
  | S fuel =>
      if maxEntries o <=? Z.of_nat (length m)
      then match m with [] => m | (k, _) :: _ => evict fuel (map_delete k m) end
      else m
  end.

Definition set (now : Z) (key : string) (v : T) (c : ReputationLruCache) : ReputationLruCache :=
  let m := map_delete key (store c) in
  {| store := map_set key {| data := v; cachedAt := now |} (evict (length m) m); hits := hits c; misses := misses c |}.

Definition invalidate (key : string) (c : ReputationLruCache) : bool * ReputationLruCache :=
  (map_has key (store c), {| store := map_delete key (store c); hits := hits c; misses := misses c |}).

Definition clear (c : ReputationLruCache) : ReputationLruCache := {| store := []; hits := hits c; misses := misses c |}.
Definition getMetrics (c : ReputationLruCache) : Z * Z := (hits c, misses c).
Definition resetMetrics (c : ReputationLruCache) : ReputationLruCache := {| store := store c; hits := 0; misses := 0 |}.

(** ** Runs *)

Inductive op : Type := Get (key : string) | Set_ (key : string) (v : T) | Invalidate (key : string) | Clear | ResetMetrics.

Definition exec (now : Z) (x : op) (c : ReputationLruCache) : ReputationLruCache :=
  match x with
  | Get k => (get now k c).2
  | Set_ k v => set now k v c
  | Invalidate k => (invalidate k c).2
  | Clear => clear c
  | ResetMetrics => resetMetrics c
  end.

Definition run (ops : list (Z * op)) (c : ReputationLruCache) : ReputationLruCache := foldl (fun c x => exec x.1 x.2 c) c ops.

(** ** The shape of the store *)

Definition cache_ok (c : ReputationLruCache) : Prop := wf (store c) /\ (0 < maxEntries o -> size c <= maxEntries o).

Lemma wf_tail x (m : list (string * CacheEntry)) : wf (x :: m) -> wf m.
Proof. unfold wf, map_keys. simpl. by intros [_ ?]%NoDup_cons. Qed.

(** Eviction keeps the last [maxEntries - 1] entries. *)
Lemma lru_evict_drop fuel m : 0 < maxEntries o -> wf m -> (length m <= fuel)%nat ->
  evict fuel m = drop (S (length m) - Z.to_nat (maxEntries o)) m.
Proof.
  intros Hmax. revert m. induction fuel as [|fuel IH]; intros m Hwf Hf.
  - destruct m; [|simpl in Hf; lia]. by rewrite drop_nil.
  - cbn [evict]. destruct (Z.leb_spec (maxEntries o) (Z.of_nat (length m))).
    + destruct m as [|[k e] m]; [by rewrite drop_nil|]. rewrite delete_head by done. rewrite IH; [|by apply wf_tail in Hwf|simpl in Hf; lia].
      simpl length in *. replace (S (S (length m)) - Z.to_nat (maxEntries o))%nat with (S (S (length m) - Z.to_nat (maxEntries o))) by lia. done.
    + by replace (S (length m) - Z.to_nat (maxEntries o))%nat with O by lia.
Qed.

Lemma deleted_absent k (m : list (string * CacheEntry)) : k ∉ map_keys (map_delete k m).
Proof. apply map_get_None, map_get_delete_eq. Qed.

Lemma set_absent k e (m : list (string * CacheEntry)) : k ∉ map_keys m -> map_set k e m = m ++ [(k, e)].
Proof. intros H. by apply map_set_None, map_get_None. Qed.

Lemma wf_snoc k e (m : list (string * CacheEntry)) : wf m -> k ∉ map_keys m -> wf (m ++ [(k, e)]).
Proof.
  unfold wf, map_keys. intros Hm Hk. rewrite fmap_app. apply NoDup_app. split; [done|]. split; [|apply NoDup_singleton].
  intros x Hx ->%list_elem_of_singleton. done.
Qed.

(** The store after a write: the survivors of eviction and the new entry, last. *)
Lemma set_store now k v c : 0 < maxEntries o -> wf (store c) ->
  store (set now k v c) =
    drop (S (length (map_delete k (store c))) - Z.to_nat (maxEntries o)) (map_delete k (store c)) ++ [(k, {| data := v; cachedAt := now |})].
Proof.
  intros Hmax Hwf. unfold set. cbn [store]. rewrite lru_evict_drop by (done || by apply wf_delete). apply set_absent.
  intros Hin. apply (deleted_absent k (store c)). unfold map_keys in *. rewrite fmap_drop in Hin. by apply (subseteq_drop _ _) in Hin.
Qed.

Lemma hit_store now k c e : map_get k (store c) = Some e -> now - cachedAt e < ttlMs o ->
  (get now k c).1 = Some (data e) /\ store (get now k c).2 = map_delete k (store c) ++ [(k, e)].
Proof.
  intros He Ht. unfold get. rewrite He. destruct (Z.leb_spec (ttlMs o) (now - cachedAt e)); [lia|]. simpl. split; [done|].
  apply set_absent, deleted_absent.
Qed.

Lemma delete_length k (m : list (string * CacheEntry)) : (length (map_delete k m) <= length m)%nat.
Proof. apply length_filter. Qed.

Lemma delete_present k e (m : list (string * CacheEntry)) : map_get k m = Some e -> (length (map_delete k m) < length m)%nat.
Proof.
  induction m as [|[k' e'] m IH]; [done|]. simpl. unfold map_delete. rewrite filter_cons. simpl.
  case_decide as Hk; case_decide as Hd; simpl; intros Hg; try (by destruct Hd).
  - apply Nat.lt_succ_r. apply delete_length.
  - apply IH in Hg. unfold map_delete in Hg. lia.
Qed.

Lemma lru_exec_ok now x c : cache_ok c -> cache_ok (exec now x c).
Proof.
  intros [Hwf Hsz]. unfold cache_ok, size in *. destruct x as [k|k v|k| |]; cbn [exec].
  - unfold get. destruct (map_get k (store c)) as [e|] eqn:Ee; [|done]. destruct (_ <=? _); simpl.
    + split; [by apply wf_delete|]. pose proof (delete_length k (store c)). intros. specialize (Hsz ltac:(done)). lia.
    + rewrite set_absent by apply deleted_absent. split; [apply wf_snoc; [by apply wf_delete|apply deleted_absent]|].
      rewrite length_app. simpl. pose proof (delete_present k e _ Ee). intros. specialize (Hsz ltac:(done)). lia.
  - destruct (decide (0 < maxEntries o)) as [Hm|Hm].
    2:{ split; [|done]. unfold set. cbn [store]. apply wf_set. clear Hsz. generalize (length (map_delete k (store c))).
        intros fuel. assert (H : wf (map_delete k (store c))) by (by apply wf_delete). revert H. generalize (map_delete k (store c)).
        induction fuel as [|fuel IH]; intros m H; [done|]. simpl. destruct (_ <=? _); [|done]. destruct m as [|[k0 e0] m]; [done|].
        apply IH. by apply wf_delete. }
    rewrite set_store by done. split.
    + apply wf_snoc; [by apply wf_drop, wf_delete|]. intros Hin. apply (deleted_absent k (store c)). unfold map_keys in *.
      rewrite fmap_drop in Hin. by apply (subseteq_drop _ _) in Hin.
    + intros _. rewrite length_app, length_drop. simpl. lia.
  - simpl. split; [by apply wf_delete|]. pose proof (delete_length k (store c)). intros. specialize (Hsz ltac:(done)). lia.
  - split; [apply wf_nil|]. simpl. lia.
  - done.
Qed.

Lemma lru_empty_ok : cache_ok empty_cache.
Proof. split; [apply wf_nil|]. unfold size. simpl. lia. Qed.

Lemma lru_run_ok ops c : cache_ok c -> cache_ok (run ops c).
Proof. revert c. induction ops as [|x ops IH]; intros c Hc; [done|]. simpl. by apply IH, lru_exec_ok. Qed.

(** ** What is served *)

(** The value a reader of the whole history expects: the last write of the key
    that no invalidation followed. *)
Definition written (k : string) (ops : list (Z * op)) : option (Z * T) :=
  foldl (fun acc x => match x.2 with
                      | Set_ k' v => if decide (k' = k) then Some (x.1, v) else acc
                      | Invalidate k' => if decide (k' = k) then None else acc
                      | Clear => None
                      | _ => acc
                      end) None ops.

Lemma lru_get_snoc k k' e (m : list (string * CacheEntry)) : k' ∉ map_keys m ->
  map_get k (m ++ [(k', e)]) = if decide (k' = k) then Some e else map_get k m.
Proof.
  intros Hk. induction m as [|[k0 e0] m IH]; simpl.
  - destruct (decide (k = k')), (decide (k' = k)); congruence.
  - unfold map_keys in Hk. simpl in Hk. apply not_elem_of_cons in Hk as [Hk0 Hk]. destruct (decide (k = k0)) as [->|].
    + by rewrite decide_False by done.
    + by apply IH.
Qed.

Lemma stored_written ops k e : 0 < maxEntries o ->
  map_get k (store (run ops empty_cache)) = Some e -> written k ops = Some (cachedAt e, data e).
Proof.
  intros Hmax. induction ops as [|[now x] ops IH] using rev_ind; [done|]. unfold run, written. rewrite !foldl_app. cbn [foldl fst snd].
  fold (run ops empty_cache). fold (written k ops). set (c := run ops empty_cache) in *.
  assert (Hok : cache_ok c) by (apply lru_run_ok, lru_empty_ok). destruct Hok as [Hwf _].
  destruct x as [k'|k' v|k'| |]; cbn [exec].
  - unfold get. destruct (map_get k' (store c)) as [e'|] eqn:Ee; [|exact IH]. destruct (_ <=? _); cbn [snd store].
    + intros H. apply IH. destruct (decide (k' = k)) as [->|Hk]; [by rewrite map_get_delete_eq in H|]. by rewrite map_get_delete_ne in H.
    + rewrite set_absent by apply deleted_absent. rewrite lru_get_snoc by apply deleted_absent. intros H. apply IH.
      destruct (decide (k' = k)) as [->|Hk]; [congruence|]. by rewrite map_get_delete_ne in H.
  - rewrite set_store by done. rewrite lru_get_snoc.
    2:{ intros Hin. apply (deleted_absent k' (store c)). unfold map_keys in *. rewrite fmap_drop in Hin. by apply (subseteq_drop _ _) in Hin. }
    destruct (decide (k' = k)) as [->|Hk]; [by intros [= <-]|]. intros H. apply IH.
    apply map_get_drop in H; [|by apply wf_delete]. by rewrite map_get_delete_ne in H.
  - cbn [invalidate snd store]. intros H. destruct (decide (k' = k)) as [->|Hk]; [by rewrite map_get_delete_eq in H|].
    rewrite map_get_delete_ne in H by done. by apply IH.
  - done.
  - exact IH.
Qed.

(** The reputation cache serves the last write: in every run, a hit returns the
    value last written under the key, written less than the lifetime ago and not
    invalidated since; a key that was invalidated, or never written, misses; and
    the cache never holds more than its maximum. *)
Theorem served_last_write ops now k :
  0 < maxEntries o ->
  let c := run ops empty_cache in
  size c <= maxEntries o /\ (forall v, (get now k c).1 = Some v -> exists t, written k ops = Some (t, v) /\ now - t < ttlMs o) /\ (written k ops = None -> (get now k c).1 = None).
Proof.
  intros Hmax c. assert (Hok : cache_ok c) by (apply lru_run_ok, lru_empty_ok).
  split; [by apply Hok|]. assert (Hhit : forall v, (get now k c).1 = Some v -> exists t, written k ops = Some (t, v) /\ now - t < ttlMs o).
  { intros v. unfold get. destruct (map_get k (store c)) as [e|] eqn:Ee; [|done]. apply stored_written in Ee; [|done].
    destruct (Z.leb_spec (ttlMs o) (now - cachedAt e)); simpl; [done|]. intros [= <-]. by exists (cachedAt e). }
  split; [exact Hhit|]. intros Hn. destruct ((get now k c).1) as [v|] eqn:Ev; [|done]. destruct (Hhit v eq_refl) as (t & H & _). congruence.
Qed.

(** ** What is kept *)

(** The keys an operation can make more recent. *)
Definition touches (ops : list (Z * op)) : gset string :=
  list_to_set (omap (fun x => match x.2 with Get k | Set_ k _ => Some k | _ => None end) ops).

(** The operation leaves the entry [e] of [k] alone, or reads it in time. *)
Definition spares (k : string) (e : CacheEntry) (x : Z * op) : Prop :=
  match x.2 with
  | Get k' => k' = k -> x.1 - cachedAt e < ttlMs o
  | Set_ k' _ | Invalidate k' => k' <> k
  | Clear => False
  | ResetMetrics => True
  end.

(** The entries behind [k] are among the keys of [s]. *)
Definition recent (k : string) (e : CacheEntry) (s : gset string) (m : list (string * CacheEntry)) : Prop :=
  exists m1 m2, m = m1 ++ (k, e) :: m2 /\ (forall k', k' ∈ map_keys m2 -> k' ∈ s /\ k' <> k).

Lemma recent_weaken k e s s' m : s ⊆ s' -> recent k e s m -> recent k e s' m.
Proof. intros Hs (m1 & m2 & -> & H). exists m1, m2. split; [done|]. intros k' Hk'. specialize (H k' Hk'). set_solver. Qed.

Lemma keys_delete k' x (m : list (string * CacheEntry)) : x ∈ map_keys (map_delete k' m) <-> x ∈ map_keys m /\ x <> k'.
Proof. unfold map_keys, map_delete. rewrite !list_elem_of_fmap. setoid_rewrite list_elem_of_filter. naive_solver. Qed.

Lemma recent_delete k e s k' m : k' <> k -> recent k e s m -> recent k e (s ∖ {[k']}) (map_delete k' m).
Proof.
  intros Hk (m1 & m2 & -> & H). exists (map_delete k' m1), (map_delete k' m2). split.
  - unfold map_delete. rewrite filter_app, filter_cons_True by (simpl; congruence). done.
  - intros x [Hx Hne]%keys_delete. specialize (H x Hx). set_solver.
Qed.

Lemma recent_snoc k e s k' e' m : k' <> k -> k' ∈ s -> recent k e s m -> recent k e s (m ++ [(k', e')]).
Proof.
  intros Hk Hs (m1 & m2 & -> & H). exists m1, (m2 ++ [(k', e')]). split; [by rewrite <- app_assoc|].
  intros x. unfold map_keys in *. rewrite fmap_app. cbn [fmap list_fmap fst]. rewrite elem_of_app, list_elem_of_singleton. naive_solver.
Qed.

(** Few entries are behind [k], so dropping from the front spares it. *)
Lemma recent_drop k e s n m : wf m -> recent k e s m -> n = O \/ (n + base.size s < length m)%nat -> recent k e s (drop n m).
Proof.
  intros Hwf Hr [->|Hn]; [done|]. destruct Hr as (m1 & m2 & -> & H). exists (drop n m1), m2. split; [|done].
  assert (Hm2 : (length m2 <= base.size s)%nat).
  { unfold wf, map_keys in Hwf. rewrite fmap_app, fmap_cons in Hwf. apply NoDup_app in Hwf as (_ & _ & [_ Hnd]%NoDup_cons).
    rewrite <- (length_fmap fst m2). rewrite <- (size_list_to_set (C:=gset string)) by done. apply subseteq_size.
    intros x Hx%elem_of_list_to_set. by apply H. }
  rewrite length_app in Hn. simpl in Hn. rewrite drop_app_le by lia. done.
Qed.

Lemma exec_recent now x c k e s : cache_ok c -> 0 < maxEntries o -> spares k e (now, x) -> recent k e s (store c) ->
  touches [(now, x)] ∖ {[k]} ⊆ s -> Z.of_nat (base.size s) < maxEntries o -> recent k e s (store (exec now x c)).
Proof.
  intros Hok Hmax Hsp Hr Ht Hs. pose proof (proj1 Hok) as Hwf. destruct x as [k'|k' v|k'| |]; cbn [exec].
  - destruct (decide (k' = k)) as [->|Hk].
    + assert (Hg : map_get k (store c) = Some e).
      { apply elem_of_map_get; [done|]. destruct Hr as (m1 & m2 & -> & _). apply elem_of_app. right. left. }
      destruct (hit_store now k c e Hg (Hsp eq_refl)) as [_ ->]. exists (map_delete k (store c)), []. split; [done|].
      by intros ? ?%not_elem_of_nil.
    + unfold get. destruct (map_get k' (store c)) as [e'|] eqn:Ee; [|done]. destruct (_ <=? _); cbn [snd store].
      * eapply recent_weaken; [|by apply recent_delete]. set_solver.
      * rewrite set_absent by apply deleted_absent. apply recent_snoc; [done| |].
        -- apply Ht. unfold touches. simpl. set_solver.
        -- eapply recent_weaken; [|by apply recent_delete]. set_solver.
  - cbn [spares snd] in Hsp. rewrite set_store by done.
    assert (Hk' : k' ∈ s) by (apply Ht; unfold touches; simpl; set_solver).
    apply recent_snoc; [done|done|]. eapply recent_weaken; [|apply recent_drop; [by apply wf_delete|by apply recent_delete|]]; [set_solver|].
    assert (Hsz : (base.size (s ∖ {[k']}) < base.size s)%nat) by (apply subset_size; set_solver).
    lia.
  - cbn [invalidate snd store]. eapply recent_weaken; [|by apply recent_delete]. set_solver.
  - done.
  - done.
Qed.

(** Recently used entries are kept: an entry just written or read survives any run
    that does not remove or overwrite it (reads of it in time included), as long
    as the run touches fewer than [maxEntries] other keys; it is then still
    served. *)
Theorem recent_entry_kept ops c m k e now :
  0 < maxEntries o -> cache_ok c -> store c = m ++ [(k, e)] -> Forall (spares k e) ops ->
  Z.of_nat (base.size (touches ops ∖ {[k]})) < maxEntries o -> now - cachedAt e < ttlMs o ->
  (get now k (run ops c)).1 = Some (data e).
Proof.
  intros Hmax Hok Hm Hsp Hs Hnow. set (s := touches ops ∖ {[k]}) in *.
  assert (Hr : recent k e s (store c)) by (exists m, []; split; [done|]; by intros ? ?%not_elem_of_nil).
  assert (Ht : forall x, x ∈ ops -> touches [x] ∖ {[k]} ⊆ s).
  { intros x Hx. unfold s, touches. intros y [Hy1 Hy2]%elem_of_difference. apply elem_of_difference. split; [|done].
    apply elem_of_list_to_set in Hy1. apply elem_of_list_to_set. apply list_elem_of_omap in Hy1 as (z & Hz & E).
    apply list_elem_of_omap. exists z. apply list_elem_of_singleton in Hz as ->. done. }
  clear Hm m. assert (Hrun : cache_ok (run ops c) /\ recent k e s (store (run ops c))).
  { revert c Hok Hr. clearbody s. induction ops as [|[t x] ops IH]; intros c Hok Hr; [done|]. cbn [run foldl fst snd].
    apply Forall_cons in Hsp as [Hx Hsp]. apply IH; [done| |by apply lru_exec_ok|].
    - intros y Hy. apply Ht. by right.
    - apply exec_recent; try done. apply Ht. left. }
  destruct Hrun as [[Hwf _] (m1 & m2 & E & _)].
  assert (Hg : map_get k (store (run ops c)) = Some e) by (apply elem_of_map_get; [done|]; rewrite E; apply elem_of_app; right; left).
  by apply hit_store.
Qed.


End Cache.

(** ** Settings *)

(** A cache is only built with usable settings, whatever the environment says. *)
Lemma settings_positive opts env st : initReputationCache opts env = Ok st -> 0 < maxEntries st /\ 0 < ttlMs st.
Proof.
  unfold initReputationCache, constructor, positive_integer. cbn [opt_maxEntries opt_ttlMs default].
  destruct (to_int _) as [m|]; [|done]. destruct (Z.ltb_spec 0 m); [|done]. destruct (to_int _) as [t|]; [|done].
  destruct (Z.ltb_spec 0 t); [|done]. by intros [= <-].
Qed.

(** A variable that does not start with a number keeps the process from starting. *)
Example bad_variable_throws opts :
  opt_maxEntries opts = None -> initReputationCache opts (fun _ => Some "many"%string) = Err BadMaxEntries.
Proof. intros H. unfold initReputationCache. rewrite H. reflexivity. Qed.

Definition small : settings := {| maxEntries := 2; ttlMs := 100 |}.

Example lru_order :
  map_keys (store (run small [(0, Set_ "a" 1); (1, Set_ "b" 2); (2, Get "a"); (3, Set_ "c" 3)] empty_cache)) = ["a"; "c"]%string.
Proof. reflexivity. Qed.

Lemma served_last_write_witness :
  exists t, written "a" [(0, Set_ "a" 1); (5, Set_ "a" 2)] = Some (t, 2) /\ 50 - t < 100.
Proof.
  apply (served_last_write small [(0, Set_ "a"%string 1); (5, Set_ "a"%string 2)] 50 "a"%string); reflexivity.
Defined.

Lemma recent_entry_kept_witness :
  (get small 50 "a" (run small [(2, Set_ "b"%string 7); (3, Get "a"%string); (4, Set_ "b"%string 8)] (set small 0 "a" 1 empty_cache))).1 = Some 1.
Proof.
  apply (recent_entry_kept small _ _ [] "a"%string {| data := 1; cachedAt := 0 |}).
  - reflexivity.
  - apply (lru_exec_ok small 0 (Set_ "a"%string 1)), lru_empty_ok.
  - reflexivity.
  - repeat constructor; simpl; congruence.
  - reflexivity.
  - reflexivity.
Defined.

End ReputationCache.
