(* ===== verification/ReputationController.v ===== *)
(** * The reputation controller: src/controllers/reputation.controller.ts

    The handlers over the service and the process-wide profile cache.  The service
    is synchronous, so a handler runs in one turn of the event loop.  The reading
    of the clock by the cache is the one of the call's environment.  Response
    envelopes, loggers and correlation ids are not represented; ids of bulk items
    are strings, as the route schema requires. *)

From stdpp Require Import prelude strings.
From Stdlib Require Import ZArith Lia.
From S2P Require Import Prelude JsMap JsValue JsArith Cursor Keyset Contracts SqliteContracts Reputation ReputationCache.
Open Scope Z_scope.

Module ReputationController.
Import Reputation.

Definition text_of (v : value) : string := match v with VString s => s | _ => EmptyString end.

Definition truthy_text (v : value) : bool := match v with VString s => negb (String.eqb s EmptyString) | _ => false end.

Definition valid_rating (v : value) : bool :=
  match v with
  | VNumber n => is_finite n && is_integer n && num_leb (of_int 1) n && num_leb n (of_int 5)
  | _ => false
  end.

Definition isValidReputationBulkItem (item : value) : bool :=
  is_object item && truthy_text (prop item "reviewerId") && truthy_text (prop item "targetId") && truthy_text (prop item "contextId") &&
  valid_rating (prop item "rating").

(** An item of the body with what is drawn while it is processed. *)
Definition raw_item : Type := Env * value.

Definition to_item (x : raw_item) : bulk_item :=
  {| i_env := x.1; i_reviewerId := text_of (prop x.2 "reviewerId"); i_targetId := text_of (prop x.2 "targetId");
     i_rating := default NaN (as_number (prop x.2 "rating")); i_contextId := text_of (prop x.2 "contextId");
     i_comment := as_string (prop x.2 "comment") |}.

Section Controller.
Context (date_value : string -> option Z) (exp : number -> number) (sha256 : string -> string) (date_parses : string -> bool).
Context (o : ReputationCache.settings).

Notation profile_cache := (ReputationCache.ReputationLruCache (T := ReputationProfile)).

Record app : Type := { service : state; cache : profile_cache }.

Inductive reply : Type :=
| Profile (p : ReputationProfile)
| ProfilePage (p : ReputationProfile) (page : entry_page)
| BadRequestReply | ServiceError (e : error) | ReadError (e : read_error)
| Bulk (status : Z) (results : list bulk_result).

Definition getProfile (v : Env) (id : string) (raw_cursor : Cursor.raw_query) (raw_limit : Cursor.raw_limit) (a : app) : reply * app :=
  if String.eqb id EmptyString then (BadRequestReply, a)
  else match Cursor.resolveCursorQueryParam date_parses raw_cursor with
       | Err _ => (BadRequestReply, a)
       | Ok cursor =>
           match Cursor.parseLimit raw_limit with
           | Err _ => (BadRequestReply, a)
           | Ok _ =>
               if match cursor, raw_limit with None, Cursor.LAbsent => true | _, _ => false end
               then
                 match ReputationCache.get o (now_ms v) id (cache a) with
                 | (Some p, c) => (Profile p, {| service := service a; cache := c |})
                 | (None, c) =>
                     match Reputation.getProfile date_value exp v id (service a) with
                     | (Ok p, s) => (Profile p, {| service := s; cache := ReputationCache.set o (now_ms v) id p c |})
                     | (Err e, s) => (ServiceError e, {| service := s; cache := c |})
                     end
                 end
               else
                 match getProfilePaginated date_value exp date_parses v id raw_limit cursor (service a) with
                 | Ok (p, page) => (ProfilePage p page, a)
                 | Err e => (ReadError e, a)
                 end
           end
       end.

Definition rating_payload (body : value) : value :=
  VObject [("reviewerId", prop body "reviewerId"); ("rating", prop body "rating"); ("comment", prop body "comment");
           ("contextId", prop body "contextId")]%string.

Definition createRating (v : Env) (id : string) (body : value) (correlation : option string) (a : app) : reply * app :=
  if negb (isValidReputationRatingPayload body) then (BadRequestReply, a)
  else match updateProfile date_value exp sha256 v id (rating_payload body) (as_string (prop body "comment")) correlation (service a) with
       | (Ok p, s) => (Profile p, {| service := s; cache := (ReputationCache.invalidate id (cache a)).2 |})
       | (Err e, s) => (ServiceError e, {| service := s; cache := cache a |})
       end.

(** The merging loop: the next validation error when it is for this position, the
    next result of the service otherwise. *)
Definition validation_failure (i : Z) : bulk_result := {| index := i; outcome := Err ("validation_error"%string, BadRequest "Invalid item") |}.

Fixpoint merge_results (i : Z) (items : list raw_item) (errors : list Z) (results : list bulk_result) : list (option bulk_result) :=
  match items with
  | [] => []
  | _ :: items' =>
      match errors with
      | e :: errors' =>
          if e =? i then Some (validation_failure i) :: merge_results (i + 1) items' errors' results
          else head results :: merge_results (i + 1) items' errors (tail results)
      | [] => head results :: merge_results (i + 1) items' errors (tail results)
      end
  end.

Fixpoint invalid_positions (i : Z) (items : list raw_item) : list Z :=
  match items with
  | [] => []
  | x :: items' => (if isValidReputationBulkItem x.2 then [] else [i]) ++ invalid_positions (i + 1) items'
  end.

Definition valid_items (items : list raw_item) : list bulk_item :=
  to_item <$> filter (fun x => isValidReputationBulkItem x.2 = true) items.

Definition succeeded_result (r : bulk_result) : bool := is_ok (outcome r).

(** The handler after the test for an empty list. *)
Definition rate_items (v : Env) (items : list raw_item) (correlation : option string) (a : app) : reply * app :=
  let valid := valid_items items in
  match (match valid with [] => (Ok [], service a) | _ => Reputation.createBulkRatings date_value exp sha256 v valid correlation (service a) end) with
  | (Err e, s) => (ServiceError e, {| service := s; cache := cache a |})
  | (Ok rs, s) =>
      let all := omap Datatypes.id (merge_results 0 items (invalid_positions 0 items) rs) in
      (Bulk (if forallb succeeded_result all then 200 else 207) all,
       {| service := s; cache := foldl (fun c it => (ReputationCache.invalidate (i_targetId it) c).2) (cache a) valid |})
  end.

Definition createBulkRatings (v : Env) (items : list raw_item) (correlation : option string) (a : app) : reply * app :=
  match items with [] => (BadRequestReply, a) | _ => rate_items v items correlation a end.

(** ** The merged results *)

(** What each position should get: the validation error or the result of its item. *)
Fixpoint expected (i : Z) (items : list raw_item) (results : list bulk_result) : list (option bulk_result) :=
  match items with
  | [] => []
  | x :: items' =>
      if isValidReputationBulkItem x.2 then head results :: expected (i + 1) items' (tail results)
      else Some (validation_failure i) :: expected (i + 1) items' results
  end.

Lemma invalid_positions_later i items : Forall (fun e => i <= e) (invalid_positions i items).
Proof.
  revert i. induction items as [|x items IH]; intros i; [constructor|]. simpl. apply Forall_app. split.
  - destruct (isValidReputationBulkItem x.2); [constructor|]. repeat constructor. lia.
  - eapply Forall_impl; [apply IH|]. simpl. lia.
Qed.

Lemma merge_expected i items results : merge_results i items (invalid_positions i items) results = expected i items results.
Proof.
  revert i results. induction items as [|x items IH]; intros i results; [done|]. simpl.
  destruct (isValidReputationBulkItem x.2); simpl.
  - pose proof (invalid_positions_later (i + 1) items) as Hl. specialize (IH (i + 1) (tail results)).
    destruct (invalid_positions (i + 1) items) as [|e es]; [by rewrite IH|]. apply Forall_cons in Hl as [He _].
    destruct (Z.eqb_spec e i); [lia|]. by rewrite IH.
  - rewrite Z.eqb_refl. by rewrite IH.
Qed.

Lemma bulk_loop_length k i items s : length (bulk_loop date_value exp sha256 k i items s).1 = length items.
Proof.
  pose proof (f_equal length (bulk_indices date_value exp sha256 k i items s)) as H.
  rewrite !length_fmap, length_seq in H. exact H.
Qed.

Lemma expected_complete i items results : length results = length (valid_items items) ->
  Forall is_Some (expected i items results) /\ length (expected i items results) = length items.
Proof.
  unfold valid_items. rewrite length_fmap. revert i results. induction items as [|x items IH]; intros i results Hl; [done|].
  simpl. rewrite filter_cons in Hl. destruct (isValidReputationBulkItem x.2) eqn:Ev.
  - rewrite decide_True in Hl by done. destruct results as [|r results]; [done|]. injection Hl as Hl.
    destruct (IH (i + 1) results Hl) as [H1 H2]. simpl. split; [constructor; [by eexists|done]|lia].
  - rewrite decide_False in Hl by done. destruct (IH (i + 1) results Hl) as [H1 H2]. split; [constructor; [by eexists|done]|simpl; lia].
Qed.

Lemma omap_all {A} (l : list (option A)) : Forall is_Some l -> Some <$> omap Datatypes.id l = l.
Proof. induction 1 as [|x l [y ->] _ IH]; [done|]. simpl. f_equal. exact IH. Qed.

Lemma service_results v items k a :
  exists r s, (match valid_items items with
               | [] => (Ok [], service a)
               | _ => Reputation.createBulkRatings date_value exp sha256 v (valid_items items) k (service a)
               end) = (r, s) /\
    match r with
    | Ok l => l = (bulk_loop date_value exp sha256 k 0 (valid_items items) (service a)).1 /\
              s = (bulk_loop date_value exp sha256 k 0 (valid_items items) (service a)).2
    | Err _ => s = service a
    end.
Proof.
  destruct (valid_items items) as [|y ys]; [by do 2 eexists|]. unfold Reputation.createBulkRatings.
  destruct (negb (initialized v)); [by do 2 eexists|]. destruct (bulk_loop date_value exp sha256 k 0 (y :: ys) (service a)) as [l s].
  by do 2 eexists.
Qed.

Lemma forallb_True_iff {A} (f : A -> bool) (l : list A) : forallb f l = true <-> Forall (fun x => f x = true) l.
Proof. rewrite forallb_forall, Forall_forall. by setoid_rewrite list_elem_of_In. Qed.

(** A bulk request answers every item in its place: the reply has exactly one
    result per submitted item, in the order submitted, which is the validation
    error at the positions the validator refuses and, at the others, what rating
    that item returned when the valid items were rated one after the other. *)
Theorem bulk_reply_complete v items k a status rs a' :
  createBulkRatings v items k a = (Bulk status rs, a') ->
  Some <$> rs = expected 0 items (bulk_loop date_value exp sha256 k 0 (valid_items items) (service a)).1 /\
  length rs = length items /\ service a' = (bulk_loop date_value exp sha256 k 0 (valid_items items) (service a)).2 /\
  (status = 200 <-> Forall (fun r => is_ok (outcome r) = true) rs).
Proof.
  intros H. assert (H' : rate_items v items k a = (Bulk status rs, a')) by (by destruct items). clear H.
  unfold rate_items in H'. cbv zeta in H'.
  destruct (service_results v items k a) as (r & s & E & Hr). rewrite E in H'. destruct r as [l|e]; [|done]. destruct Hr as [-> ->].
  injection H' as Hst Hrs <-. rewrite merge_expected in Hrs, Hst. subst rs.
  destruct (expected_complete 0 items (bulk_loop date_value exp sha256 k 0 (valid_items items) (service a)).1 ltac:(apply bulk_loop_length)) as [H1 H2].
  split; [by apply omap_all|]. split; [|split; [done|]].
  - rewrite <- H2. rewrite <- (length_fmap Some). by rewrite omap_all.
  - rewrite <- Hst, <- forallb_True_iff. unfold succeeded_result. by destruct (forallb _ _).
Qed.

(** ** Cached profiles are current *)

(** A cached profile is the profile of the entries that are stored now, computed
    at the time it was cached. *)
Definition current (s : state) (k : string) (e : ReputationCache.CacheEntry) : Prop :=
  exists v, ReputationCache.cachedAt e = now_ms v /\ ReputationCache.data e = buildProfile date_value exp v k (findByTargetId k s).

Definition app_ok (a : app) : Prop :=
  ReputationCache.cache_ok o (cache a) /\ forall k e, (k, e) ∈ ReputationCache.store (cache a) -> current (service a) k e.

Lemma current_same s s' k e : findByTargetId k s' = findByTargetId k s -> current s k e -> current s' k e.
Proof. intros E (v & H1 & H2). exists v. by rewrite E. Qed.

Lemma snoc_elsewhere s s' u row k : entries s' = entries s ++ [(u, row)] -> target_id row <> k -> findByTargetId k s' = findByTargetId k s.
Proof.
  intros E Hk. unfold findByTargetId, target_rows, repo_rows, map_values. rewrite E, fmap_app, filter_app. simpl.
  rewrite (filter_cons_False (fun r => target_id r = k)) by done. by rewrite filter_nil, app_nil_r.
Qed.

(** Rating [b] leaves the entries about the others alone, and a refused rating
    leaves all of them alone when the audit store answers. *)
Lemma rating_elsewhere v x b n c t k s s' r id :
  Reputation.createRating date_value exp sha256 v x b n c t k s = (r, s') -> id <> b -> findByTargetId id s' = findByTargetId id s.
Proof.
  intros E Hid. pose proof (createRating_cases date_value exp sha256 v x b n c t k s) as H. cbv zeta in H. rewrite E in H.
  destruct r as [e|e].
  - destruct H as (_ & _ & _ & He & _). by apply (snoc_elsewhere _ _ _ _ _ He).
  - destruct e; try (by rewrite H). destruct H as (_ & _ & ->). by apply (snoc_elsewhere _ _ (uuid v) (rating_row v x b n c t)).
Qed.

Lemma rating_refused v x b n c t k s s' e : audit_up v = true ->
  Reputation.createRating date_value exp sha256 v x b n c t k s = (Err e, s') -> s' = s.
Proof.
  intros Hup E. pose proof (createRating_cases date_value exp sha256 v x b n c t k s) as H. cbv zeta in H. rewrite E in H.
  destruct e; try done. destruct H as (_ & H & _). congruence.
Qed.

Lemma update_cases v b p t k s r s' : audit_up v = true -> updateProfile date_value exp sha256 v b p t k s = (r, s') ->
  (forall id, id <> b -> findByTargetId id s' = findByTargetId id s) /\ (is_ok r = false -> s' = s).
Proof.
  intros Hup. unfold updateProfile, bind, throw_if, throw, ret, get. destruct (initialized v) eqn:Hi; simpl; [|by intros [= <- <-]].
  destruct (String.eqb b EmptyString) eqn:Hb; [by intros [= <- <-]|].
  destruct (isValidReputationRatingPayload p); simpl; [|by intros [= <- <-]].
  destruct (prop p "reviewerId"); try (by intros [= <- <-]). destruct (prop p "rating"); try (by intros [= <- <-]).
  destruct (Reputation.createRating date_value exp sha256 v _ b _ _ t k s) as [[e|e] s1] eqn:Ec.
  - assert (Hen : isReputationEnabled v = true).
    { destruct (isReputationEnabled v) eqn:Hen; [done|]. unfold Reputation.createRating, bind, throw_if, throw in Ec. by rewrite Hen in Ec. }
    unfold Reputation.getProfile, bind, throw_if, throw, ret, get. rewrite Hen, Hi, Hb. simpl. intros [= <- <-].
    split; [|done]. intros id Hid. by apply (rating_elsewhere _ _ _ _ _ _ _ _ _ _ _ Ec).
  - intros [= <- <-]. apply rating_refused in Ec as ->; [|done]. by split.
Qed.

Lemma bulk_elsewhere k i items s id : id ∉ i_targetId <$> items ->
  findByTargetId id (bulk_loop date_value exp sha256 k i items s).2 = findByTargetId id s.
Proof.
  revert i s. induction items as [|it items IH]; intros i s Hid; [done|]. rewrite fmap_cons in Hid. apply not_elem_of_cons in Hid as [H1 H2].
  simpl. destruct (rate_item date_value exp sha256 k it s) as [r s1] eqn:Er. specialize (IH (i + 1) s1 H2).
  destruct (bulk_loop date_value exp sha256 k (i + 1) items s1) as [rs s2]. simpl in *. rewrite IH.
  by apply (rating_elsewhere _ _ _ _ _ _ _ _ _ _ _ Er).
Qed.

Lemma invalidated_store ks (c : profile_cache) k e :
  (k, e) ∈ ReputationCache.store (foldl (fun c it => (ReputationCache.invalidate (i_targetId it) c).2) c ks) ->
  k ∉ i_targetId <$> ks /\ (k, e) ∈ ReputationCache.store c.
Proof.
  revert c. induction ks as [|it ks IH]; intros c H; [split; [apply not_elem_of_nil|done]|]. simpl in H.
  apply IH in H as [H1 H2]. simpl in H2. apply list_elem_of_filter in H2 as [H2 H3]. rewrite fmap_cons, not_elem_of_cons. done.
Qed.

Lemma invalidated_ok ks (c : profile_cache) : ReputationCache.cache_ok o c ->
  ReputationCache.cache_ok o (foldl (fun c it => (ReputationCache.invalidate (i_targetId it) c).2) c ks).
Proof.
  revert c. induction ks as [|it ks IH]; intros c H; [done|]. simpl. apply IH.
  exact (ReputationCache.lru_exec_ok o 0 (ReputationCache.Invalidate (i_targetId it)) c H).
Qed.

(** ** Requests *)

Inductive request : Type :=
| Read (v : Env) (id : string) (c : Cursor.raw_query) (l : Cursor.raw_limit)
| Rate (v : Env) (id : string) (body : value) (correlation : option string)
| RateMany (v : Env) (items : list raw_item) (correlation : option string).

Definition handle (r : request) (a : app) : reply * app :=
  match r with
  | Read v id c l => getProfile v id c l a
  | Rate v id body k => createRating v id body k a
  | RateMany v items k => createBulkRatings v items k a
  end.

(** The audit store answers while a single rating is written. *)
Definition audited (r : request) : Prop := match r with Rate v _ _ _ => audit_up v = true | _ => True end.

Lemma read_ok v id c l a : 0 < ReputationCache.maxEntries o -> 0 < ReputationCache.ttlMs o -> app_ok a ->
  service (getProfile v id c l a).2 = service a /\ app_ok (getProfile v id c l a).2 /\
  forall p, (getProfile v id c l a).1 = Profile p ->
    exists v0, now_ms v - now_ms v0 < ReputationCache.ttlMs o /\ p = buildProfile date_value exp v0 id (findByTargetId id (service a)).
Proof.
  intros Hmax Httl [Hc Hcur]. unfold getProfile. destruct (String.eqb id EmptyString); [done|].
  destruct (Cursor.resolveCursorQueryParam _ _) as [cursor|]; [|done]. destruct (Cursor.parseLimit l); [|done].
  destruct (match cursor, l with None, Cursor.LAbsent => true | _, _ => false end).
  2:{ destruct (getProfilePaginated _ _ _ _ _ _ _ _) as [[p page]|e]; done. }
  pose proof (ReputationCache.lru_exec_ok o (now_ms v) (ReputationCache.Get id) (cache a) Hc) as Hget. cbn [ReputationCache.exec] in Hget.
  assert (Hsub : forall k e, (k, e) ∈ ReputationCache.store (ReputationCache.get o (now_ms v) id (cache a)).2 -> (k, e) ∈ ReputationCache.store (cache a)).
  { intros k e. unfold ReputationCache.get. destruct (map_get id _) as [e0|] eqn:Eg; [|done]. destruct (_ <=? _); simpl.
    - by intros [_ ?]%list_elem_of_filter.
    - rewrite ReputationCache.set_absent by apply ReputationCache.deleted_absent. rewrite elem_of_app, list_elem_of_singleton.
      intros [[_ ?]%list_elem_of_filter|[= -> ->]]; [done|]. by apply map_get_elem_of. }
  destruct (ReputationCache.get o (now_ms v) id (cache a)) as [[p|] c1] eqn:Eg; simpl in Hget, Hsub.
  - simpl. split; [done|]. split; [split; [done|]; intros k e He; apply Hcur, Hsub, He|]. intros p' [= <-].
    unfold ReputationCache.get in Eg. destruct (map_get id _) as [e0|] eqn:Em; [|done].
    destruct (Z.leb_spec (ReputationCache.ttlMs o) (now_ms v - ReputationCache.cachedAt e0)); [done|]. injection Eg as <- _.
    destruct (Hcur id e0 (map_get_elem_of _ _ _ Em)) as (v0 & H1 & H2). exists v0. by rewrite <- H1.
  - assert (Hset : forall p, p = buildProfile date_value exp v id (findByTargetId id (service a)) ->
      app_ok {| service := service a; cache := ReputationCache.set o (now_ms v) id p c1 |}).
    { intros p ->. split; [exact (ReputationCache.lru_exec_ok o (now_ms v) (ReputationCache.Set_ id _) c1 Hget)|]. intros k e. cbn [cache service].
      rewrite ReputationCache.set_store by (done || apply Hget). rewrite elem_of_app, list_elem_of_singleton.
      intros [Hin|[= -> ->]]; [|by exists v]. apply (subseteq_drop _ _) in Hin. apply list_elem_of_filter in Hin as [_ Hin]. by apply Hcur, Hsub. }
    unfold Reputation.getProfile, bind, throw_if, throw, ret, get.
    destruct (negb (isReputationEnabled v)); simpl; [split; [done|]; split; [by split; [done|]; intros k e He; apply Hcur, Hsub, He|done]|].
    destruct (negb (initialized v)); simpl; [split; [done|]; split; [by split; [done|]; intros k e He; apply Hcur, Hsub, He|done]|].
    destruct (String.eqb id EmptyString); simpl; [split; [done|]; split; [by split; [done|]; intros k e He; apply Hcur, Hsub, He|done]|].
    split; [done|]. split; [by apply Hset|]. intros p' [= <-]. exists v. split; [lia|done].
Qed.

Lemma handle_ok r a : 0 < ReputationCache.maxEntries o -> 0 < ReputationCache.ttlMs o -> audited r -> app_ok a -> app_ok (handle r a).2.
Proof.
  intros Hmax Httl Hr Hok. pose proof Hok as [Hc Hcur]. destruct r as [v id c l|v id body k|v items k]; cbn [handle].
  - by apply read_ok.
  - unfold createRating. destruct (negb _); [done|].
    destruct (updateProfile _ _ _ _ _ _ _ _ _) as [[p|e] s'] eqn:Eu; apply update_cases in Eu as [H1 H2]; [|done| |done]; split; simpl.
    + exact (ReputationCache.lru_exec_ok o 0 (ReputationCache.Invalidate id) (cache a) Hc).
    + intros k0 e [Hne Hin]%list_elem_of_filter. eapply current_same; [by apply H1|]. by apply Hcur.
    + done.
    + rewrite H2 by done. exact Hcur.
  - unfold createBulkRatings. destruct items as [|x items]; [done|]. generalize (x :: items). clear Hr x items. intros items. unfold rate_items. cbv zeta.
    destruct (service_results v items k a) as (r & s & -> & Hr'). destruct r as [l|e]; simpl; [|by rewrite Hr'].
    destruct Hr' as [-> ->]. split; [by apply invalidated_ok|]. intros k0 e [H1 H2]%invalidated_store.
    eapply current_same; [|by apply Hcur]. by apply bulk_elsewhere.
Qed.

(** C35: A profile served from the cache is never outdated by a rating: after any
    sequence of reads, ratings and bulk ratings (with the audit store answering
    while single ratings are written), the profile answered for a user is built
    from exactly the entries stored about that user now; only the clock of its
    weights may be older, by less than the cache lifetime. *)
Theorem served_profile_current reqs s c v id raw_cursor raw_limit p :
  0 < ReputationCache.maxEntries o -> 0 < ReputationCache.ttlMs o -> ReputationCache.store c = [] ->
  Forall audited reqs ->
  let a := foldl (fun a r => (handle r a).2) {| service := s; cache := c |} reqs in
  (getProfile v id raw_cursor raw_limit a).1 = Profile p ->
  exists v0, now_ms v - now_ms v0 < ReputationCache.ttlMs o /\ p = buildProfile date_value exp v0 id (findByTargetId id (service a)).
Proof.
  intros Hmax Httl Hc Hall a Hp. assert (Hok : app_ok a).
  { assert (H0 : app_ok {| service := s; cache := c |}).
    { split; simpl; rewrite ?Hc; [|by intros ? ? ?%not_elem_of_nil]. unfold ReputationCache.cache_ok, ReputationCache.size. rewrite Hc.
      split; [apply wf_nil|simpl; lia]. }
    unfold a. clear Hp a Hc. revert H0. generalize {| service := s; cache := c |}. induction Hall as [|r reqs Hr _ IH]; intros a H0; [done|].
    simpl. by apply IH, handle_ok. }
  by apply (read_ok v id raw_cursor raw_limit a Hmax Httl Hok).
Qed.

End Controller.

(** ** Concrete requests *)

Definition limits : ReputationCache.settings := {| ReputationCache.maxEntries := 500; ReputationCache.ttlMs := 60000 |}.
Definition fresh_app : app := {| service := empty_state; cache := ReputationCache.empty_cache |}.
Definition ann_rates_bob : value :=
  VObject [("reviewerId", VString "ann"); ("rating", VNumber (of_int 4)); ("contextId", VString "k1")]%string.
Notation serve := (handle sample_date sample_exp sample_sha (fun _ => true) limits).
Definition read_bob (u : string) : request := Read (sample_env u) "bob" Cursor.QAbsent Cursor.LAbsent.

Definition total (r : reply) : option Z := match r with Profile p => Some (totalRatings p) | _ => None end.

(** A rating whose audit entry fails is stored, but the cached profile is kept. *)
Example stale_after_failed_audit :
  let a := (serve (Rate (audit_down (sample_env "e1")) "bob" ann_rates_bob None) (serve (read_bob "q") fresh_app).2).2 in
  total (serve (read_bob "q") a).1 = Some 0 /\ length (findByTargetId "bob" (service a)) = 1%nat.
Proof. vm_compute. split; reflexivity. Qed.

Definition item (x : string) : value :=
  VObject [("reviewerId", VString "ann"); ("targetId", VString "bob"); ("rating", VNumber (of_int 4)); ("contextId", VString x)]%string.

(** The position in a result is that among the valid items: the second item reports 0. *)
Example bulk_index_shifted :
  (match (serve (RateMany (sample_env "q") [(sample_env "e0", VNull); (sample_env "e1", item "k1")] None) fresh_app).1 with
   | Bulk status rs => (status, index <$> rs) | _ => (0, []) end) = (207, [0; 0]).
Proof. vm_compute. reflexivity. Qed.

Lemma bulk_reply_complete_witness :
  exists status rs a', serve (RateMany (sample_env "q") [(sample_env "e0", VNull); (sample_env "e1", item "k1")] None) fresh_app =
    (Bulk status rs, a') /\ length rs = 2%nat.
Proof.
  destruct (serve (RateMany (sample_env "q") [(sample_env "e0", VNull); (sample_env "e1", item "k1")] None) fresh_app) as [r a'] eqn:E.
  destruct r as [p|p q| |e|e|status rs]; try (vm_compute in E; discriminate E). exists status, rs, a'. split; [reflexivity|].
  exact (proj1 (proj2 (bulk_reply_complete sample_date sample_exp sample_sha _ _ _ _ status rs a' E))).
Defined.

Lemma served_profile_current_witness :
  exists p v0, (serve (read_bob "q") (foldl (fun a r => (serve r a).2) fresh_app
      [read_bob "q"; Rate (sample_env "e1") "bob" ann_rates_bob None])).1 = Profile p /\ totalRatings p = 1 /\
    now_ms (sample_env "q") - now_ms v0 < 60000.
Proof.
  destruct ((serve (read_bob "q") (foldl (fun a r => (serve r a).2) fresh_app
      [read_bob "q"; Rate (sample_env "e1") "bob" ann_rates_bob None])).1) as [p| | | | |] eqn:E; try (vm_compute in E; discriminate E).
  destruct (served_profile_current sample_date sample_exp sample_sha (fun _ => true) limits
    [read_bob "q"; Rate (sample_env "e1") "bob" ann_rates_bob None] empty_state ReputationCache.empty_cache (sample_env "q") "bob"
    Cursor.QAbsent Cursor.LAbsent p eq_refl eq_refl eq_refl ltac:(repeat constructor) E) as (v0 & H1 & H2).
  exists p, v0. split; [done|]. split; [|exact H1]. rewrite H2. reflexivity.
Defined.

End ReputationController.
