(* ===== verification/Recompute.v ===== *)
(** * Recomputing reputations: src/queue/processors/reputation-recompute-processor.ts,
    src/models/reputation-checkpoint.store.ts, src/models/reputation.store.ts

    The job walks the subjects of the reputation table page by page, with an await
    between two pages: [between n] is what other tasks do to the table before page
    [n] is read, and [query_fails n] whether reading it throws.  What a profile
    computation observes (clock, settings) is given per subject. *)

From stdpp Require Import prelude strings sorting.
From Stdlib Require Import ZArith Lia.
From S2P Require Import Prelude JsMap JsValue JsArith Cursor Keyset Contracts SqliteContracts Reputation.
Open Scope Z_scope.

Module Recompute.
Import Reputation.

(** ** Checkpoints *)

Inductive checkpoint_status : Type := running | completed | failed | paused.

#[export] Instance checkpoint_status_eq_dec : EqDecision checkpoint_status.
Proof. solve_decision. Defined.

Record RecomputeCheckpoint : Type := {
  jobId : string;
  lastProcessedFreelancerId : option string;
  totalProcessed : Z;
  totalFreelancers : Z;
  startTime : string;
  lastUpdateTime : string;
  status : checkpoint_status;
  failure : option string;
}.

Definition checkpoints : Type := list (string * RecomputeCheckpoint).

Definition createCheckpoint (job : string) (total : Z) (now : string) (m : checkpoints) : RecomputeCheckpoint * checkpoints :=
  let c := {| jobId := job; lastProcessedFreelancerId := None; totalProcessed := 0; totalFreelancers := total; startTime := now;
              lastUpdateTime := now; status := running; failure := None |} in
  (c, map_set job c m).

Definition getCheckpoint (job : string) (m : checkpoints) : option RecomputeCheckpoint := map_get job m.

(** The mutations; [None] is the error for a missing checkpoint. *)
Definition updateProgress (job subject now : string) (m : checkpoints) : option checkpoints :=
  match map_get job m with
  | None => None
  | Some c => Some (map_set job {| jobId := jobId c; lastProcessedFreelancerId := Some subject; totalProcessed := totalProcessed c + 1;
                                   totalFreelancers := totalFreelancers c; startTime := startTime c; lastUpdateTime := now;
                                   status := status c; failure := failure c |} m)
  end.

Definition with_status (st : checkpoint_status) (f : option string) (now : string) (c : RecomputeCheckpoint) : RecomputeCheckpoint :=
  {| jobId := jobId c; lastProcessedFreelancerId := lastProcessedFreelancerId c; totalProcessed := totalProcessed c;
     totalFreelancers := totalFreelancers c; startTime := startTime c; lastUpdateTime := now; status := st; failure := f |}.

Definition markCompleted (job now : string) (m : checkpoints) : option checkpoints :=
  match map_get job m with None => None | Some c => Some (map_set job (with_status completed (failure c) now c) m) end.

Definition markFailed (job error now : string) (m : checkpoints) : option checkpoints :=
  match map_get job m with None => None | Some c => Some (map_set job (with_status failed (Some error) now c) m) end.

Definition deleteCheckpoint (job : string) (m : checkpoints) : checkpoints := map_delete job m.

Definition active (c : RecomputeCheckpoint) : bool := bool_decide (status c = running) || bool_decide (status c = paused).

Definition getActiveCheckpoints (m : checkpoints) : list RecomputeCheckpoint := filter (fun c => active c = true) (map_values m).

(** ** The job *)

Definition hasCheckpoint (job : string) (m : checkpoints) : bool := map_has job m.

Definition clear (m : checkpoints) : checkpoints := [].

Record ReputationRecomputePayload : Type := {
  p_batchSize : option Z; p_forceRecompute : option bool; p_resumeFromCheckpoint : option bool;
}.

Record world : Type := { table : state; profiles : list (string * ReputationProfile); progress : checkpoints }.

(** [r_jobId] and [r_checkpointId] are absent from the answer for an empty table. *)
Record JobResult : Type := { r_totalProcessed : Z; r_jobId : option string; r_checkpointId : option string }.

Inductive job_error : Type := QueryFailed | CheckpointMissing.

Section Job.
Context (date_value : string -> option Z) (exp : number -> number).
Context (v : string -> Env) (between : nat -> state -> state) (query_fails : nat -> bool).

(** [Date.now() - new Date(lastUpdated).getTime() < 24 h]; false when the date is invalid. *)
Definition isProfileUpToDate (now : Z) (lastUpdated : string) : bool :=
  match date_value lastUpdated with Some t => now - t <? 24 * 60 * 60 * 1000 | None => false end.

(** The body of the inner loop: the counter, the stored profiles and the progress. *)
Definition recompute_one (force : bool) (cp : string) (acc : Z * world) (t : string) : Z * world :=
  let '(n, w) := acc in
  match getProfile date_value exp (v t) t (table w) with
  | (Err _, _) => (n, w)
  | (Ok p, _) =>
      if negb force && isProfileUpToDate (now_ms (v t)) (lastUpdated p) then (n, w)
      else
        let stored := map_set (freelancerId p) p (profiles w) in
        (n + 1, {| table := table w; profiles := stored;
                   progress := default (progress w) (updateProgress cp t (now_iso (v t)) (progress w)) |})
  end.

Definition recompute_page (force : bool) (cp : string) (page : list string) (acc : Z * world) : Z * world :=
  foldl (recompute_one force cp) acc page.

(** The generator and the loop over it, from page [n]: [None] when the fuel ends.
    The flag says whether any page was read. *)
Fixpoint pages_loop (fuel : nat) (force : bool) (cp : string) (pageSize : Z) (n : nat) (any : bool) (acc : Z * world) :
    option (result job_error (bool * Z) * world) :=
  match fuel with
  | O => None
  | S fuel =>
      let w := {| table := between n (table acc.2); profiles := profiles acc.2; progress := progress acc.2 |} in
      if query_fails n then Some (Err QueryFailed, w)
      else
        let page := getDistinctTargetIdPage pageSize (Z.of_nat n * pageSize) (table w) in
        match page with
        | [] => Some (Ok (any, acc.1), w)
        | _ =>
            let acc' := recompute_page force cp page (acc.1, w) in
            if Z.of_nat (length page) <? pageSize then Some (Ok (true, acc'.1), acc'.2)
            else pages_loop fuel force cp pageSize (S n) true acc'
        end
  end.

(** The checkpoint a job works on: the first active one when it may resume. *)
Definition choose_checkpoint (resume : bool) (job now : string) (m : checkpoints) : RecomputeCheckpoint * checkpoints :=
  if resume then match getActiveCheckpoints m with c :: _ => (c, m) | [] => createCheckpoint job 0 now m end
  else createCheckpoint job 0 now m.

Definition processReputationRecompute (fuel : nat) (p : ReputationRecomputePayload) (job start finish : string) (w : world) :
    option (result job_error JobResult * world) :=
  let '(cp, m) := choose_checkpoint (default true (p_resumeFromCheckpoint p)) job start (progress w) in
  let w0 := {| table := table w; profiles := profiles w; progress := m |} in
  match pages_loop fuel (default false (p_forceRecompute p)) (jobId cp) (default 100 (p_batchSize p)) 0 false (0, w0) with
  | None => None
  | Some (Err e, w1) => Some (Err e, w1)
  | Some (Ok (any, n), w1) =>
      match markCompleted (jobId cp) finish (progress w1) with
      | None => Some (Err CheckpointMissing, w1)
      | Some m' =>
          Some (Ok {| r_totalProcessed := if any then n else 0; r_jobId := if any then Some job else None;
                   r_checkpointId := if any then Some (jobId cp) else None |},
                {| table := table w1; profiles := profiles w1; progress := m' |})
      end
  end.

End Job.

(** ** The store of checkpoints *)

(** Every checkpoint is stored under its own job. *)
Definition keyed (m : checkpoints) : Prop := wf m /\ forall k c, map_get k m = Some c -> jobId c = k.

Lemma keyed_set m k c : keyed m -> jobId c = k -> keyed (map_set k c m).
Proof.
  intros [Hw Hk] Hc. split; [by apply wf_set|]. intros k' c' H.
  destruct (map_get_set_inv _ _ _ _ _ H) as [[-> ->]|[_ H']]; [done|by apply Hk].
Qed.

Lemma updateProgress_keyed m job t now m' : keyed m -> updateProgress job t now m = Some m' -> keyed m'.
Proof.
  unfold updateProgress. intros Hm. destruct (map_get job m) as [c|] eqn:Hc; [|done]. intros [= <-].
  apply keyed_set; [done|]. exact (proj2 Hm _ _ Hc).
Qed.

(** The chosen checkpoint is in the store under its own job, and runs. *)
Lemma choose_checkpoint_stored resume job now m cp m' :
  keyed m -> choose_checkpoint resume job now m = (cp, m') -> keyed m' /\ map_get (jobId cp) m' = Some cp /\ active cp = true.
Proof.
  intros Hm. unfold choose_checkpoint, createCheckpoint.
  assert (Hnew : forall c : RecomputeCheckpoint, jobId c = job -> active c = true ->
    keyed (map_set job c m) /\ map_get (jobId c) (map_set job c m) = Some c /\ active c = true).
  { intros c <- Ha. split; [by apply keyed_set|]. by rewrite map_get_set_eq. }
  destruct resume; [|intros [= <- <-]; by apply Hnew].
  destruct (getActiveCheckpoints m) as [|c l] eqn:Ha; intros [= <- <-]; [by apply Hnew|].
  assert (Hin : c ∈ getActiveCheckpoints m) by (rewrite Ha; set_solver).
  apply list_elem_of_filter in Hin as [Hact Hv]. apply elem_of_map_values in Hv as [k Hk]; [|apply Hm].
  split; [done|]. split; [|done]. by rewrite (proj2 Hm _ _ Hk).
Qed.

(** ** Walking the pages *)

(** A pass reads the table and leaves it. *)
Lemma pass_table date_value exp v force cp l acc : table (foldl (recompute_one date_value exp v force cp) acc l).2 = table acc.2.
Proof.
  revert acc. induction l as [|t l IH]; intros x; [done|]. cbn [foldl]. rewrite IH. destruct x as [k w]. unfold recompute_one.
  destruct (getProfile _ _ _ _ _) as [[p|] ?]; [|done]. by destruct (_ && _).
Qed.

Section Walk.
Context (date_value : string -> option Z) (exp : number -> number) (v : string -> Env).

Notation loop := (pages_loop date_value exp v (fun _ s => s) (fun _ => false)).
Notation one := (recompute_one date_value exp v).

(** With an undisturbed table the pages are the subjects, each once. *)
Lemma loop_all fuel force cp size n any acc :
  0 < size -> (length (distinct_targets (table acc.2)) < fuel + Z.to_nat (Z.of_nat n * size))%nat ->
  Z.of_nat n * size <= Z.of_nat (length (distinct_targets (table acc.2))) ->
  exists any', loop fuel force cp size n any acc =
    Some (Ok (any', (foldl (one force cp) acc (drop (Z.to_nat (Z.of_nat n * size)) (distinct_targets (table acc.2)))).1),
          (foldl (one force cp) acc (drop (Z.to_nat (Z.of_nat n * size)) (distinct_targets (table acc.2)))).2) /\
    any' = any || negb (bool_decide (drop (Z.to_nat (Z.of_nat n * size)) (distinct_targets (table acc.2)) = [])).
Proof.
  intros Hs. revert n any acc. induction fuel as [|fuel IH]; intros n any [k w] Hf Hn; cbn [snd] in *.
  - exfalso. lia.
  - cbn [pages_loop fst snd]. destruct w as [tab prof prog]. cbn [table profiles progress] in *.
    set (all := distinct_targets tab) in *. unfold getDistinctTargetIdPage. fold all. destruct (Z.ltb_spec size 0); [lia|].
    set (rest := drop (Z.to_nat (Z.of_nat n * size)) all). destruct (take (Z.to_nat size) rest) as [|t ts] eqn:Et.
    + assert (Hr : rest = []) by (destruct rest; [done|]; destruct (Z.to_nat size) eqn:Ez; [lia|done]).
      rewrite Hr. cbn [foldl fst snd]. exists any. split; [done|]. by rewrite bool_decide_eq_true_2, orb_false_r.
    + rewrite <- Et. assert (Hne : rest <> []) by (intros E; rewrite E, take_nil in Et; done).
      rewrite bool_decide_eq_false_2 by done. rewrite orb_true_r. rewrite length_take.
      assert (Hlr : length rest = (length all - Z.to_nat (Z.of_nat n * size))%nat) by (unfold rest; apply length_drop).
      destruct (Z.ltb_spec (Z.of_nat (Z.to_nat size `min` length rest)) size) as [Hlast|Hmore].
      * rewrite take_ge by lia. unfold recompute_page. exists true. done.
      * assert (Hpos : (Z.to_nat size <= length rest)%nat) by lia.
        destruct (IH (S n) true (recompute_page date_value exp v force cp (take (Z.to_nat size) rest) (k, {| table := tab; profiles := prof; progress := prog |})))
          as (any' & -> & ->).
        -- unfold recompute_page. rewrite pass_table. cbn [snd table]. fold all. lia.
        -- unfold recompute_page. rewrite pass_table. cbn [snd table]. fold all. lia.
        -- unfold recompute_page. rewrite pass_table. cbn [snd table]. fold all.
           replace (Z.to_nat (Z.of_nat (S n) * size)) with (Z.to_nat (Z.of_nat n * size) + Z.to_nat size)%nat by lia.
           rewrite <- drop_drop. fold rest. rewrite <- foldl_app, take_drop. by exists true.
Qed.

(** The profile a pass stores for a subject, if it stores one. *)
Definition refreshed (force : bool) (s : state) (t : string) : option ReputationProfile :=
  match (getProfile date_value exp (v t) t s).1 with
  | Ok p => if negb force && isProfileUpToDate date_value (now_ms (v t)) (lastUpdated p) then None else Some p
  | Err _ => None
  end.

Lemma refreshed_subject force s t p : refreshed force s t = Some p -> freelancerId p = t.
Proof.
  unfold refreshed, getProfile, bind, throw_if, throw, ret, get.
  destruct (negb (isReputationEnabled (v t))), (negb (initialized (v t))), (String.eqb t EmptyString); try done.
  cbn [fst snd]. destruct (_ && _); [done|]. by intros [= <-].
Qed.

(** What one pass does to a checkpoint. *)
Definition advanced (ts : list string) (c : RecomputeCheckpoint) : RecomputeCheckpoint :=
  foldl (fun c t => {| jobId := jobId c; lastProcessedFreelancerId := Some t; totalProcessed := totalProcessed c + 1;
                       totalFreelancers := totalFreelancers c; startTime := startTime c; lastUpdateTime := now_iso (v t);
                       status := status c; failure := failure c |}) c ts.

Definition kept (force : bool) (s : state) (ts : list string) : list string :=
  filter (fun t => is_Some (refreshed force s t)) ts.

Lemma recompute_one_spec force cp n w t :
  one force cp (n, w) t =
    match refreshed force (table w) t with
    | None => (n, w)
    | Some p => (n + 1, {| table := table w; profiles := map_set t p (profiles w);
                           progress := default (progress w) (updateProgress cp t (now_iso (v t)) (progress w)) |})
    end.
Proof.
  pose proof (refreshed_subject force (table w) t) as Hs. unfold refreshed in *. unfold recompute_one.
  destruct (getProfile _ _ _ _ _) as [[p|e] s']; cbn [fst snd] in *; [|done].
  destruct (_ && _); [done|]. by rewrite (Hs p eq_refl).
Qed.

(** A whole pass: the counter, the profiles, and the checkpoint. *)
Lemma pass_spec force cp l n w c :
  NoDup l -> map_get cp (progress w) = Some c ->
  let r := foldl (one force cp) (n, w) l in
  r.1 = n + Z.of_nat (length (kept force (table w) l)) /\ table r.2 = table w /\
  map_get cp (progress r.2) = Some (advanced (kept force (table w) l) c) /\
  (forall j, j <> cp -> map_get j (progress r.2) = map_get j (progress w)) /\
  (forall t, map_get t (profiles r.2) =
     match (if bool_decide (t ∈ l) then refreshed force (table w) t else None) with
     | Some p => Some p | None => map_get t (profiles w) end).
Proof.
  revert n w c. induction l as [|t l IH]; intros n w c Hd Hc.
  { cbn. split_and!; [lia|done|done|done|]. intros t. by rewrite bool_decide_eq_false_2 by apply not_elem_of_nil. }
  apply NoDup_cons in Hd as [Ht Hd]. cbn [foldl]. rewrite recompute_one_spec. unfold kept. rewrite filter_cons. fold (kept force (table w) l).
  destruct (refreshed force (table w) t) as [p|] eqn:Hr.
  - rewrite decide_True by eauto.
    unfold updateProgress. rewrite Hc. cbn [from_option]; unfold Datatypes.id; cbv zeta.
    edestruct (IH (n + 1) {| table := table w; profiles := map_set t p (profiles w); progress := map_set cp
       {| jobId := jobId c; lastProcessedFreelancerId := Some t; totalProcessed := totalProcessed c + 1;
          totalFreelancers := totalFreelancers c; startTime := startTime c; lastUpdateTime := now_iso (v t);
          status := status c; failure := failure c |} (progress w) |}) as (H1 & H2 & H3 & H4 & H5); [done|apply map_get_set_eq|].
    cbn [table profiles progress] in *. split_and!.
    + rewrite H1. cbn [length]. unfold kept. lia.
    + done.
    + rewrite H3. done.
    + intros j Hj. rewrite H4 by done. by apply map_get_set_ne.
    + intros u. rewrite H5. destruct (decide (u = t)) as [->|Hne].
      * rewrite (bool_decide_eq_false_2 (t ∈ l)), (bool_decide_eq_true_2 (t ∈ t :: l)) by (done || set_solver).
        by rewrite Hr, map_get_set_eq.
      * rewrite map_get_set_ne by done. by rewrite (bool_decide_ext (u ∈ t :: l) (u ∈ l)) by (rewrite elem_of_cons; naive_solver).
  - rewrite decide_False by apply is_Some_None.
    destruct (IH n w c Hd Hc) as (H1 & H2 & H3 & H4 & H5). split_and!; [done..|].
    intros u. rewrite H5. destruct (decide (u = t)) as [->|Hne].
    + rewrite (bool_decide_eq_false_2 (t ∈ l)), (bool_decide_eq_true_2 (t ∈ t :: l)) by (done || set_solver). by rewrite Hr.
    + by rewrite (bool_decide_ext (u ∈ t :: l) (u ∈ l)) by (rewrite elem_of_cons; naive_solver).
Qed.

Lemma targets_nodup s : NoDup (distinct_targets s).
Proof. unfold distinct_targets. rewrite merge_sort_Permutation. apply NoDup_remove_dups. Qed.


End Walk.

Section Faults.
Context (date_value : string -> option Z) (exp : number -> number) (v : string -> Env).

(** A negative batch size over a table with a subject never ends: each page is
    the whole table again, whatever number of steps is allowed. *)
Theorem negative_batch_never_ends fuel p job start finish w size :
  p_batchSize p = Some size -> size < 0 -> distinct_targets (table w) <> [] ->
  processReputationRecompute date_value exp v (fun _ s => s) (fun _ => false) fuel p job start finish w = None.
Proof.
  intros Hp Hs Hne. unfold processReputationRecompute. rewrite Hp. destruct (choose_checkpoint _ _ _ _) as [cp m]. cbn [default].
  enough (H : forall f n any acc, distinct_targets (table acc.2) <> [] ->
    pages_loop date_value exp v (fun _ s => s) (fun _ => false) f (default false (p_forceRecompute p)) (jobId cp) size n any acc = None).
  { by rewrite H. }
  induction f as [|f IH]; intros n any acc Ha; [done|]. cbn [pages_loop table profiles progress].
  unfold getDistinctTargetIdPage. rewrite (proj2 (Z.ltb_lt _ _) Hs). rewrite Z2Nat.nonpos by nia. rewrite drop_0.
  destruct (distinct_targets (table acc.2)) as [|t l] eqn:E; [done|]. rewrite (proj2 (Z.ltb_ge _ _)) by lia.
  apply IH. unfold recompute_page. rewrite pass_table. cbn [snd table]. by rewrite E.
Qed.

(** A page that cannot be read ends the job with the checkpoint as it was. *)
Lemma unread_page_keeps_checkpoint between fuel p job start finish w cp m :
  (0 < fuel)%nat -> choose_checkpoint (default true (p_resumeFromCheckpoint p)) job start (progress w) = (cp, m) ->
  exists w', processReputationRecompute date_value exp v between (fun _ => true) fuel p job start finish w = Some (Err QueryFailed, w') /\
    progress w' = m.
Proof.
  intros Hf Hc. destruct fuel as [|fuel]; [lia|]. unfold processReputationRecompute. rewrite Hc. cbn [pages_loop snd].
  eexists. split; [reflexivity|done].
Qed.

End Faults.

(** ** Witnesses and examples *)

(** Two days after the rating of [one_rating]. *)
Definition later_env (_ : string) : Env :=
  {| config := config (sample_env "q"); initialized := true; uuid := "q"; now_iso := "2026-01-04T00:00:00.000Z";
     now_ms := 1767312000000 + 2 * 24 * 60 * 60 * 1000; audit_up := true; webhook_up := false |}.

Definition sample_world : world := {| table := one_rating; profiles := []; progress := [] |}.

Definition job_payload (size : option Z) : ReputationRecomputePayload :=
  {| p_batchSize := size; p_forceRecompute := None; p_resumeFromCheckpoint := None |}.

Notation run_job := (processReputationRecompute sample_date sample_exp).


Lemma negative_batch_never_ends_witness :
  run_job later_env (fun _ s => s) (fun _ => false) 1000 (job_payload (Some (-1))) "j" "t0" "t1" sample_world = None.
Proof.
  apply (negative_batch_never_ends sample_date sample_exp later_env 1000 (job_payload (Some (-1))) "j" "t0" "t1" sample_world (-1));
    [reflexivity|lia|vm_compute; discriminate].
Defined.

(** A subject that was rated within the last day counts as up to date and its stored
    profile, from before the rating, stays. *)
Example recent_rating_skipped :
  (fun o => match o with Some (Ok r, w') => Some (r_totalProcessed r, map_get "bob" (profiles w')) | _ => None end)
    (run_job sample_env (fun _ s => s) (fun _ => false) 2 (job_payload None) "j" "t0" "t1" sample_world) = Some (0, None).
Proof. vm_compute. reflexivity. Qed.

(** A job that dies leaves its checkpoint running; the next job takes it over, and
    starts again at the first subject, counting it a second time. *)
Definition interrupted : world :=
  {| table := one_rating; profiles := []; progress := [("j0", {| jobId := "j0"; lastProcessedFreelancerId := Some "bob"; totalProcessed := 1;
     totalFreelancers := 0; startTime := "t"; lastUpdateTime := "t"; status := running; failure := None |})] |}.

Example resume_starts_over :
  (fun o => match o with Some (Ok r, w') => Some (r_totalProcessed r, totalProcessed <$> map_get "j0" (progress w'), map_get "j1" (progress w')) | _ => None end)
    (run_job later_env (fun _ s => s) (fun _ => false) 2 (job_payload None) "j1" "t0" "t1" interrupted) = Some (1, Some 2, None).
Proof. vm_compute. reflexivity. Qed.
End Recompute.
