(* ===== verification/TransactionPoller.v ===== *)
(** * Transaction polling: src/services/TransactionPoller.ts with the records and
    the in-memory store of src/models/Transaction.ts

    The store hands out and takes copies, so a transaction held across an
    [await] is a snapshot.  A poll is a task that alternates between waiting for
    a receipt, with the snapshot it took, and sleeping until its next round;
    the clock readings of one turn coincide, and the turns of the event loop are: a call of [poll], the answer to a receipt
    request, the end of a sleep, [recoverPendingTransactions], [stopAccepting]
    and [checkpoint].  How long a sleep lasts (exponential backoff with jitter)
    is left open: a sleep may end at any time. *)

From stdpp Require Import prelude strings relations.
From Stdlib Require Import ZArith Lia.
From S2P Require Import Prelude JsMap JsValue.
Open Scope Z_scope.

Module Poller.

Inductive TransactionStatus : Type := PENDING | SUCCESS | FAILED | TIMEOUT.

#[export] Instance TransactionStatus_eq_dec : EqDecision TransactionStatus.
Proof. solve_decision. Defined.

Record Transaction : Type := {
  hash : string;
  status : TransactionStatus;
  receipt : option value;
  lastCheckedAt : option Z;
  retryCount : Z;
  startedAt : option Z;
}.

(** InMemoryTransactionStore *)
Notation tx_store := (list (string * Transaction)).

Definition store_get (h : string) (s : tx_store) : option Transaction := map_get h s.
Definition store_set (h : string) (t : Transaction) (s : tx_store) : tx_store := map_set h t s.
Definition store_delete (h : string) (s : tx_store) : bool * tx_store := (map_has h s, map_delete h s).
Definition store_clear (s : tx_store) : tx_store := [].
Definition store_values (s : tx_store) : list Transaction := map_values s.

(** What [getTransactionReceipt] settles with. *)
Inductive answer : Type := Answered (r : value) | RpcError.

(** [if (receipt)] *)
Definition truthy (v : value) : bool :=
  match v with
  | VUndefined | VNull => false
  | VBool b => b
  | VNumber n => negb (bool_decide (n = NaN)) && negb (bool_decide (n = of_int 0))
  | VString s => negb (bool_decide (s = EmptyString))
  | VArray _ | VObject _ => true
  end.

(** [receipt.status === 1] *)
Definition succeeded (r : value) : bool :=
  match prop r "status" with VNumber n => bool_decide (n = of_int 1) | _ => false end.

Definition with_status (st : TransactionStatus) (r : option value) (now : Z) (t : Transaction) : Transaction :=
  {| hash := hash t; status := st; receipt := r; lastCheckedAt := Some now;
     retryCount := retryCount t; startedAt := startedAt t |}.

Definition with_retry (now : Z) (t : Transaction) : Transaction :=
  {| hash := hash t; status := status t; receipt := receipt t; lastCheckedAt := Some now;
     retryCount := retryCount t + 1; startedAt := startedAt t |}.

Definition with_startedAt (now : Z) (t : Transaction) : Transaction :=
  {| hash := hash t; status := status t; receipt := receipt t; lastCheckedAt := lastCheckedAt t;
     retryCount := retryCount t; startedAt := Some now |}.

Definition new_transaction (h : string) (now : Z) : Transaction :=
  {| hash := h; status := PENDING; receipt := None; lastCheckedAt := None; retryCount := 0;
     startedAt := Some now |}.

Section Poller.
Context (maxRetries : Z) (maxTotalDurationMs : option Z).

Definition duration_exceeded (now : Z) (t : Transaction) : bool :=
  match maxTotalDurationMs, startedAt t with
  | Some d, Some t0 => bool_decide (d <= now - t0)
  | _, _ => false
  end.

(** One round of [pollWithBackoff] up to the request: the snapshot the task
    now waits with, or [None] when the poll is over. *)
Definition begin_round (now : Z) (h : string) (s : tx_store) : option Transaction * tx_store :=
  match store_get h s with
  | None => (None, s)
  | Some t =>
      if negb (bool_decide (status t = PENDING)) then (None, s)
      else if bool_decide (maxRetries <= retryCount t)
      then (None, store_set h (with_status TIMEOUT (receipt t) now t) s)
      else if duration_exceeded now t
      then (None, store_set h (with_status TIMEOUT (receipt t) now t) s)
      else (Some t, s)
  end.

(** The rest of the round once the request settled; true when the task sleeps
    and goes on. *)
Definition end_round (now : Z) (h : string) (t : Transaction) (a : answer) (s : tx_store) : bool * tx_store :=
  let retry := (true, store_set h (with_retry now t) s) in
  match a with
  | Answered r =>
      if truthy r
      then (false, store_set h (with_status (if succeeded r then SUCCESS else FAILED) (Some r) now t) s)
      else retry
  | RpcError => retry
  end.

(** An uninterrupted poll: [answers k] and [clock] are what its k-th round
    sees. *)
Fixpoint pollWithBackoff (answers : nat -> answer) (clock : nat -> Z) (fuel k : nat) (h : string) (s : tx_store)
  : option tx_store :=
  match fuel with
  | O => None
  | S fuel =>
      match begin_round (clock (2 * k)%nat) h s with
      | (None, s') => Some s'
      | (Some t, s') =>
          match end_round (clock (2 * k + 1)%nat) h t (answers k) s' with
          | (false, s'') => Some s''
          | (true, s'') => pollWithBackoff answers clock fuel (S k) h s''
          end
      end
  end.

(** ** Concurrent polls *)

Inductive phase : Type := Waiting (t : Transaction) | Sleeping | Finished.

Record task : Type := {
  t_hash : string;
  t_phase : phase;
  t_registered : bool;        (* in activePolls *)
}.

Record poller : Type := {
  store : tx_store;
  acceptingNewPolls : bool;
  tasks : list task;
}.

Definition unfinished (t : task) : bool := match t_phase t with Finished => false | _ => true end.

(** [activePolls.has(h)] *)
Definition active (h : string) (p : poller) : bool :=
  existsb (fun t => t_registered t && unfinished t && bool_decide (t_hash t = h)) (tasks p).

Definition phase_of (o : option Transaction) : phase :=
  match o with Some t => Waiting t | None => Finished end.

Definition start_task (registered : bool) (now : Z) (h : string) (p : poller) : poller :=
  let '(o, s') := begin_round now h (store p) in
  {| store := s'; acceptingNewPolls := acceptingNewPolls p;
     tasks := tasks p ++ [{| t_hash := h; t_phase := phase_of o; t_registered := registered |}] |}.

Definition set_store (s : tx_store) (p : poller) : poller :=
  {| store := s; acceptingNewPolls := acceptingNewPolls p; tasks := tasks p |}.

(** [poll]: a hash that is already polled is only awaited. *)
Definition poll (now : Z) (h : string) (p : poller) : poller :=
  if negb (acceptingNewPolls p) then p
  else if active h p then p
  else
    let s' :=
      match store_get h (store p) with
      | None => store_set h (new_transaction h now) (store p)
      | Some t => match startedAt t with
                  | None => store_set h (with_startedAt now t) (store p)
                  | Some _ => store p
                  end
      end in
    start_task true now h (set_store s' p).

Definition set_phase (n : nat) (ph : phase) (p : poller) : poller :=
  {| store := store p; acceptingNewPolls := acceptingNewPolls p;
     tasks := alter (fun t => {| t_hash := t_hash t; t_phase := ph; t_registered := t_registered t |}) n (tasks p) |}.

Definition answer_task (n : nat) (a : answer) (now : Z) (p : poller) : poller :=
  match tasks p !! n with
  | Some {| t_hash := h; t_phase := Waiting t |} =>
      let '(go_on, s') := end_round now h t a (store p) in
      set_phase n (if go_on then Sleeping else Finished) (set_store s' p)
  | _ => p
  end.

Definition wake_task (n : nat) (now : Z) (p : poller) : poller :=
  match tasks p !! n with
  | Some {| t_hash := h; t_phase := Sleeping |} =>
      let '(o, s') := begin_round now h (store p) in set_phase n (phase_of o) (set_store s' p)
  | _ => p
  end.

Definition recoverPendingTransactions (now : Z) (p : poller) : poller :=
  foldl (fun p t => start_task false now (hash t) p) p
    (filter (fun t => status t = PENDING) (store_values (store p))).

Definition stopAccepting (p : poller) : poller :=
  {| store := store p; acceptingNewPolls := false; tasks := tasks p |}.

Definition checkpoint (p : poller) : poller :=
  set_store (foldl (fun s t => if bool_decide (status t = PENDING) then store_set (hash t) t s else s)
               (store p) (store_values (store p))) p.

(** [drain] resolves at once when this holds. *)
Definition drained (p : poller) : bool := forallb (fun t => negb (t_registered t && unfinished t)) (tasks p).

Inductive turn : Type :=
| Poll (now : Z) (h : string)
| Answer (n : nat) (a : answer) (now : Z)
| Wake (n : nat) (now : Z)
| StopAccepting
| Recover (now : Z).

Definition exec (t : turn) (p : poller) : poller :=
  match t with
  | Poll now h => poll now h p
  | Answer n a now => answer_task n a now p
  | Wake n now => wake_task n now p
  | StopAccepting => stopAccepting p
  | Recover now => recoverPendingTransactions now p
  end.

Definition run (ts : list turn) (p : poller) : poller := foldl (fun p t => exec t p) p ts.

Definition is_recover (t : turn) : bool := match t with Recover _ => true | _ => false end.

Definition fresh (s : tx_store) : poller := {| store := s; acceptingNewPolls := true; tasks := [] |}.

(** ** Specification *)

Definition no_receipt (a : answer) : bool :=
  match a with Answered r => negb (truthy r) | RpcError => true end.

(** The verdict a poll reaches after [n] fruitless rounds that started with
    round [k]. *)
Definition verdict (answers : nat -> answer) (k n : nat) (t t' : Transaction) : Prop :=
  (forall i, (i < n)%nat -> no_receipt (answers (k + i)%nat) = true) /\
  match status t' with
  | PENDING => False
  | TIMEOUT => receipt t' = receipt t /\
      (maxRetries <= retryCount t' \/ exists now, duration_exceeded now t = true)
  | st => exists r, answers (k + n)%nat = Answered r /\ truthy r = true /\ receipt t' = Some r /\
      st = if succeeded r then SUCCESS else FAILED
  end.

(** ** Lemmas *)

Lemma begin_round_cases now h s :
  (exists t, store_get h s = Some t /\ status t = PENDING /\ retryCount t < maxRetries /\
     duration_exceeded now t = false /\ begin_round now h s = (Some t, s)) \/
  (exists t, store_get h s = Some t /\ status t = PENDING /\
     (maxRetries <= retryCount t \/ duration_exceeded now t = true) /\
     begin_round now h s = (None, store_set h (with_status TIMEOUT (receipt t) now t) s)) \/
  (begin_round now h s = (None, s) /\ forall t, store_get h s = Some t -> status t <> PENDING).
Proof.
  unfold begin_round. destruct (store_get h s) as [t|] eqn:Et; [|right; right; done].
  case_bool_decide as Hp; simpl; [|right; right; split; [done|congruence]].
  case_bool_decide; [right; left; eauto 8|].
  destruct (duration_exceeded now t) eqn:Ed; [right; left; eauto 8|left; eauto 10 with lia].
Qed.

Lemma end_round_cases now h t a s :
  (exists r, a = Answered r /\ truthy r = true /\
     end_round now h t a s =
     (false, store_set h (with_status (if succeeded r then SUCCESS else FAILED) (Some r) now t) s)) \/
  (no_receipt a = true /\ end_round now h t a s = (true, store_set h (with_retry now t) s)).
Proof.
  destruct a as [r|]; simpl; [|by right]. destruct (truthy r) eqn:Er; [left; eauto|by right].
Qed.

(** How a poll of [h] that starts with round [k] changes the store. *)
Definition decided (answers : nat -> answer) (k : nat) (h : string) (s : tx_store) (t : Transaction)
    (s' : tx_store) : Prop :=
  exists t' n,
    store_get h s' = Some t' /\ retryCount t' = retryCount t + Z.of_nat n /\
    retryCount t' <= Z.max maxRetries (retryCount t) /\
    verdict answers k n t t' /\
    (forall h', h' <> h -> store_get h' s' = store_get h' s).

Lemma decided_now answers k h s t t' :
  retryCount t' = retryCount t -> verdict answers k 0 t t' -> decided answers k h s t (store_set h t' s).
Proof.
  intros Hr Hv. exists t', 0%nat. split_and!; [apply map_get_set_eq|lia|lia|done|].
  intros h' Hh. by apply map_get_set_ne.
Qed.

Lemma decided_timeout answers k h now s t :
  maxRetries <= retryCount t \/ duration_exceeded now t = true ->
  decided answers k h s t (store_set h (with_status TIMEOUT (receipt t) now t) s).
Proof.
  intros Hr. apply decided_now; [done|]. split; [lia|]. simpl.
  split; [done|]. destruct Hr; [by left|right; eauto].
Qed.

Lemma decided_receipt answers k h now s t r :
  answers k = Answered r -> truthy r = true ->
  decided answers k h s t
    (store_set h (with_status (if succeeded r then SUCCESS else FAILED) (Some r) now t) s).
Proof.
  intros Ha Ht. apply decided_now; [done|]. split; [lia|]. simpl. rewrite Nat.add_0_r.
  destruct (succeeded r) eqn:Es; exists r; by rewrite Es.
Qed.

Lemma decided_retry answers k h now s t s' :
  no_receipt (answers k) = true -> retryCount t < maxRetries ->
  decided answers (S k) h (store_set h (with_retry now t) s) (with_retry now t) s' ->
  decided answers k h s t s'.
Proof.
  intros Hno Hr (t' & n & H1 & H2 & H3 & [H4 H5] & H6). simpl in *.
  exists t', (S n). split_and!; [done|lia|lia| |].
  - split.
    + intros [|i] Hi; [by rewrite Nat.add_0_r|].
      replace (k + S i)%nat with (S k + i)%nat by lia. apply H4. lia.
    + replace (k + S n)%nat with (S k + n)%nat by lia. by destruct (status t').
  - intros h' Hh. rewrite H6 by done. by apply map_get_set_ne.
Qed.

(** ** Properties *)

(** Every poll ends with a verdict.  Whatever the provider answers and
    however long it takes, polling a pending transaction makes at most one
    round per remaining retry and one more, and leaves it decided: SUCCESS or
    FAILED by the first receipt that arrived, or TIMEOUT with no receipt when
    the retries or the time budget ran out; the retry count counts the
    fruitless rounds, and no other transaction changes. *)
Theorem poll_decides answers clock k h s t :
  store_get h s = Some t -> status t = PENDING ->
  exists s',
    pollWithBackoff answers clock (S (Z.to_nat (maxRetries - retryCount t))) k h s = Some s' /\
    decided answers k h s t s'.
Proof.
  remember (Z.to_nat (maxRetries - retryCount t)) as m eqn:Hm.
  revert k s t Hm. induction m as [|m IH]; intros k s t Hm Ht Hp; cbn [pollWithBackoff];
    (destruct (begin_round_cases (clock (2 * k)%nat) h s)
      as [(t0 & H0 & _ & Hr & _ & Hb)|[(t0 & H0 & _ & Hr & Hb)|(_ & Hn)]];
      [| |by apply Hn in Ht]; rewrite Ht in H0; injection H0 as <-; rewrite Hb;
      [|by eexists; split; [done|apply decided_timeout]]); [lia|].
  destruct (end_round_cases (clock (2 * k + 1)%nat) h t (answers k) s)
    as [(r & Ha & Htr & He)|(Hno & He)]; rewrite He.
  - eexists. split; [done|]. by apply decided_receipt.
  - destruct (IH (S k) (store_set h (with_retry (clock (2 * k + 1)%nat) t) s)
                (with_retry (clock (2 * k + 1)%nat) t)) as (s' & H1 & H2);
      [simpl; lia|apply map_get_set_eq|done|].
    exists s'. split; [exact H1|]. by eapply decided_retry.
Qed.

(** ** Concurrent polls without recovery *)

Record solo (p : poller) : Prop := {
  solo_registered n t : tasks p !! n = Some t -> t_registered t = true;
  solo_unique n m t u : tasks p !! n = Some t -> tasks p !! m = Some u ->
    unfinished t = true -> unfinished u = true -> t_hash t = t_hash u -> n = m;
  solo_snapshot n h t b : tasks p !! n = Some {| t_hash := h; t_phase := Waiting t; t_registered := b |} ->
    store_get h (store p) = Some t /\ status t = PENDING;
}.

Lemma active_false h p n t :
  active h p = false -> tasks p !! n = Some t -> t_registered t = true -> unfinished t = true ->
  t_hash t <> h.
Proof.
  intros Ha Ht Hr Hu Hh. enough (active h p = true) by congruence.
  apply existsb_exists. exists t. split; [apply list_elem_of_In; by eapply list_elem_of_lookup_2|].
  rewrite Hr, Hu. by apply bool_decide_eq_true.
Qed.

(** Task [n] moves to phase [ph] after a write to its own hash. *)
Lemma solo_set_phase p n h ph ph' b s' :
  solo p -> tasks p !! n = Some {| t_hash := h; t_phase := ph; t_registered := b |} -> ph <> Finished ->
  (forall h', h' <> h -> store_get h' s' = store_get h' (store p)) ->
  (forall t, ph' = Waiting t -> store_get h s' = Some t /\ status t = PENDING) ->
  solo (set_phase n ph' (set_store s' p)).
Proof.
  intros [Hr Hu Hs] Hn Hph Hoff Hself.
  assert (Hun : unfinished {| t_hash := h; t_phase := ph; t_registered := b |} = true) by by destruct ph.
  assert (Hlook : forall m t, alter (fun t => {| t_hash := t_hash t; t_phase := ph';
      t_registered := t_registered t |}) n (tasks p) !! m = Some t ->
    exists u, tasks p !! m = Some u /\ t_hash t = t_hash u /\ t_registered t = t_registered u /\
      (unfinished t = true -> unfinished u = true) /\ (n <> m -> t = u)).
  { intros m t Hm. destruct (decide (n = m)) as [<-|Hne].
    - rewrite list_lookup_alter_eq, Hn in Hm. injection Hm as <-. eexists. by split_and!.
    - rewrite list_lookup_alter_ne in Hm by done. exists t. by split_and!. }
  constructor; simpl.
  - intros m t (u & Hm & _ & -> & _)%Hlook. by eapply Hr.
  - intros m1 m2 t1 t2 (u1 & E1 & -> & _ & F1 & _)%Hlook (u2 & E2 & -> & _ & F2 & _)%Hlook H1 H2 Hh.
    eauto.
  - intros m h' t b' Hm. destruct (decide (n = m)) as [<-|Hne].
    + rewrite list_lookup_alter_eq, Hn in Hm. injection Hm as <- -> _. by apply Hself.
    + rewrite list_lookup_alter_ne in Hm by done. rewrite Hoff; [by eapply Hs|].
      intros ->. apply Hne. by eapply Hu.
Qed.

(** A new registered task for a hash that no unfinished task polls. *)
Lemma solo_append p h ph s' :
  solo p -> active h p = false ->
  (forall h', h' <> h -> store_get h' s' = store_get h' (store p)) ->
  (forall t, ph = Waiting t -> store_get h s' = Some t /\ status t = PENDING) ->
  solo {| store := s'; acceptingNewPolls := acceptingNewPolls p;
          tasks := tasks p ++ [{| t_hash := h; t_phase := ph; t_registered := true |}] |}.
Proof.
  intros [Hr Hu Hs] Ha Hoff Hself.
  assert (Hold : forall m t, tasks p !! m = Some t -> unfinished t = true -> t_hash t <> h)
    by (intros m t Hm; eapply active_false; eauto).
  constructor; simpl.
  - intros m t [Hm|[_ Hm]]%lookup_app_Some; [by eapply Hr|].
    by apply list_lookup_singleton_Some in Hm as [_ <-].
  - intros m1 m2 t1 t2 [E1|[L1 E1]]%lookup_app_Some [E2|[L2 E2]]%lookup_app_Some H1 H2 Hh;
      rewrite ?list_lookup_singleton_Some in *; naive_solver lia.
  - intros m h' t b [Hm|[_ Hm]]%lookup_app_Some.
    + rewrite Hoff; [by eapply Hs|]. intros ->. by apply (Hold m _ Hm).
    + apply list_lookup_singleton_Some in Hm as [_ [= <- -> _]]. by apply Hself.
Qed.

(** A write to [h] that a decided transaction survives. *)
Definition gentle (h : string) (s s' : tx_store) : Prop :=
  (forall h', h' <> h -> store_get h' s' = store_get h' s) /\
  (forall t, store_get h s = Some t -> status t <> PENDING ->
     exists t', store_get h s' = Some t' /\ status t' = status t /\ receipt t' = receipt t).

Lemma gentle_refl h s : gentle h s s.
Proof. split; [done|]. eauto. Qed.

Lemma gentle_pending h s t t' :
  store_get h s = Some t -> status t = PENDING -> gentle h s (store_set h t' s).
Proof.
  intros Ht Hp. split; [intros h' Hh; by apply map_get_set_ne|]. intros u Hu. rewrite Ht in Hu.
  by injection Hu as <-.
Qed.

Lemma begin_round_gentle now h s :
  gentle h s (begin_round now h s).2 /\
  forall t, (begin_round now h s).1 = Some t ->
    store_get h (begin_round now h s).2 = Some t /\ status t = PENDING.
Proof.
  destruct (begin_round_cases now h s) as [(t & Ht & Hp & _ & _ & ->)|[(t & Ht & Hp & _ & ->)|(-> & _)]]; simpl.
  - split; [apply gentle_refl|]. by intros ? [= <-].
  - split; [by eapply gentle_pending|done].
  - split; [apply gentle_refl|done].
Qed.

Lemma end_round_gentle now h t a s :
  store_get h s = Some t -> status t = PENDING -> gentle h s (end_round now h t a s).2.
Proof.
  intros Ht Hp. destruct (end_round_cases now h t a s) as [(r & _ & _ & ->)|(_ & ->)];
    by eapply gentle_pending.
Qed.

Lemma phase_of_Waiting o t : phase_of o = Waiting t -> o = Some t.
Proof. destruct o; simpl; congruence. Qed.

Definition poll_store (now : Z) (h : string) (s : tx_store) : tx_store :=
  match store_get h s with
  | None => store_set h (new_transaction h now) s
  | Some t => match startedAt t with
              | None => store_set h (with_startedAt now t) s
              | Some _ => s
              end
  end.

Lemma poll_store_gentle now h s : gentle h s (poll_store now h s).
Proof.
  unfold poll_store. destruct (store_get h s) as [t|] eqn:Et.
  - destruct (startedAt t); [apply gentle_refl|].
    split; [intros h' Hh; by apply map_get_set_ne|]. intros u Hu. rewrite Et in Hu. injection Hu as <-.
    intros _. exists (with_startedAt now t). split; [apply map_get_set_eq|done].
  - split; [intros h' Hh; by apply map_get_set_ne|]. congruence.
Qed.

Lemma gentle_trans h s1 s2 s3 : gentle h s1 s2 -> gentle h s2 s3 -> gentle h s1 s3.
Proof.
  intros [A1 B1] [A2 B2]. split.
  - intros h' Hh. rewrite A2 by done. by apply A1.
  - intros t Ht Hp. destruct (B1 t Ht Hp) as (t1 & E1 & S1 & R1).
    destruct (B2 t1 E1) as (t2 & E2 & S2 & R2); [congruence|]. exists t2. split_and!; congruence.
Qed.

(** One turn other than recovery keeps the invariant and writes gently. *)
Lemma solo_step t p :
  is_recover t = false -> solo p ->
  solo (exec t p) /\ exists h, gentle h (store p) (store (exec t p)).
Proof.
  intros Ht Hp. destruct t as [now h|n a now|n now| |now]; simpl in *; try done.
  - unfold poll. destruct (acceptingNewPolls p) eqn:Eacc; simpl; [|by eauto using gentle_refl].
    destruct (active h p) eqn:Ea; [by eauto using gentle_refl|].
    fold (poll_store now h (store p)). unfold start_task. simpl store.
    pose proof (begin_round_gentle now h (poll_store now h (store p))) as [Hg Hw].
    pose proof (gentle_trans _ _ _ _ (poll_store_gentle now h (store p)) Hg) as Hg'.
    destruct (begin_round now h _) as [o s']. simpl in *. split; [|by eauto].
    apply solo_append; [done|done|apply Hg'|]. intros t Ho%phase_of_Waiting. by apply Hw.
  - unfold answer_task. destruct (tasks p !! n) as [[h [t| |] b]|] eqn:En; try by eauto using gentle_refl.
    destruct (solo_snapshot p Hp n h t b En) as [Hs Hpend].
    pose proof (end_round_gentle now h t a (store p) Hs Hpend) as Hg.
    destruct (end_round now h t a (store p)) as [g s']. simpl in *. split; [|by eauto].
    eapply solo_set_phase; [done|exact En|done|apply Hg|]. by destruct g.
  - unfold wake_task. destruct (tasks p !! n) as [[h [t| |] b]|] eqn:En; try by eauto using gentle_refl.
    pose proof (begin_round_gentle now h (store p)) as [Hg Hw].
    destruct (begin_round now h (store p)) as [o s']. simpl in *. split; [|by eauto].
    eapply solo_set_phase; [done|exact En|done|apply Hg|].
    intros t Ho%phase_of_Waiting. by apply Hw.
  - split; [|by eauto using gentle_refl]. destruct Hp. by constructor.
  Unshelve. all: exact EmptyString.
Qed.

Lemma solo_run ts p :
  forallb (fun t => negb (is_recover t)) ts = true -> solo p ->
  solo (run ts p) /\
  forall h t, store_get h (store p) = Some t -> status t <> PENDING ->
    exists t', store_get h (store (run ts p)) = Some t' /\ status t' = status t /\ receipt t' = receipt t.
Proof.
  revert p. induction ts as [|t ts IH]; intros p; simpl; [eauto|].
  intros [Ht Hts]%andb_true_iff Hp. apply negb_true_iff in Ht.
  destruct (solo_step t p Ht Hp) as [Hp1 [h0 [A B]]].
  destruct (IH (exec t p) Hts Hp1) as [Hp2 Hrest]. split; [done|].
  intros h u Hu Hst. assert (exists u', store_get h (store (exec t p)) = Some u' /\
    status u' = status u /\ receipt u' = receipt u) as (u' & E1 & E2 & E3).
  { destruct (decide (h = h0)) as [-> |Hne]; [by apply B|]. exists u. by rewrite A. }
  destruct (Hrest h u' E1) as (u2 & F1 & F2 & F3); [congruence|]. exists u2. split_and!; congruence.
Qed.

Lemma solo_fresh s : solo (fresh s).
Proof. constructor; simpl; intros *; by rewrite lookup_nil. Qed.

(** A decided transaction stays decided.  However polls of any hashes
    interleave, as long as recovery is not run beside them, once a transaction
    is SUCCESS, FAILED or TIMEOUT no later answer, wake-up or poll changes its
    status or receipt. *)
Theorem verdict_is_final ts1 ts2 s h t :
  forallb (fun t => negb (is_recover t)) (ts1 ++ ts2) = true ->
  let p := run ts1 (fresh s) in
  store_get h (store p) = Some t -> status t <> PENDING ->
  exists t', store_get h (store (run ts2 p)) = Some t' /\ status t' = status t /\ receipt t' = receipt t.
Proof.
  rewrite forallb_app. intros [H1 H2]%andb_true_iff p.
  destruct (solo_run ts1 (fresh s) H1 (solo_fresh s)) as [Hp _].
  by apply (solo_run ts2 p H2 Hp).
Qed.

(** After [stopAccepting] no new poll starts: further calls of poll change
    nothing. *)
Theorem stopped_poller_refuses now h p : poll now h (stopAccepting p) = stopAccepting p.
Proof. done. Qed.

End Poller.

Definition paid : value := VObject [("status"%string, VNumber (of_int 1))].

(** Recovery races with polls of the same hash.  Recovered polls are not
    registered, so poll starts a second one; a late empty answer then writes a
    stale snapshot over the SUCCESS the other poll recorded, and the
    transaction ends as TIMEOUT although its receipt had arrived. *)
Theorem recovery_overwrites_success :
  let s0 := [("tx"%string, new_transaction "tx" 0)] in
  let p1 := run 1 None [Recover 1; Poll 2 "tx"; Answer 1 (Answered paid) 3] (fresh s0) in
  let p2 := run 1 None [Answer 0 (Answered VNull) 4; Wake 0 5] p1 in
  option_map status (store_get "tx" (store p1)) = Some SUCCESS /\
  option_map status (store_get "tx" (store p2)) = Some TIMEOUT.
Proof. vm_compute. done. Qed.

(** ** Witnesses *)

Definition two_misses (n : nat) : answer :=
  match n with O => RpcError | 1%nat => Answered VNull | _ => Answered paid end.

Lemma poll_decides_witness :
  exists s', pollWithBackoff 5 None two_misses Z.of_nat 6 0 "tx" [("tx"%string, new_transaction "tx" 0)] = Some s' /\
  decided 5 None two_misses 0 "tx" [("tx"%string, new_transaction "tx" 0)] (new_transaction "tx" 0) s'.
Proof.
  apply (poll_decides 5 None two_misses Z.of_nat 0 "tx" [("tx"%string, new_transaction "tx" 0)]
           (new_transaction "tx" 0)); reflexivity.
Defined.

Lemma verdict_is_final_witness :
  exists t', store_get "tx" (store (run 1 None [Poll 7 "tx"; Wake 0 8; Answer 0 RpcError 9]
    (run 1 None [Poll 1 "tx"; Answer 0 (Answered paid) 2] (fresh [])))) = Some t' /\ status t' = SUCCESS.
Proof.
  destruct (verdict_is_final 1 None [Poll 1 "tx"; Answer 0 (Answered paid) 2]
    [Poll 7 "tx"; Wake 0 8; Answer 0 RpcError 9] [] "tx"
    (with_status SUCCESS (Some paid) 2 (new_transaction "tx" 1))) as (t' & H1 & H2 & _);
    [reflexivity|vm_compute; reflexivity|done|].
  exists t'. split; [exact H1|exact H2].
Defined.

End Poller.
