(* ===== verification/Retry.v ===== *)
(** * Retries: src/utils/retry.ts and src/queue/webhook-retry-policy.ts

    Delays are doubles.  Each call of the retried function is an element of a
    sequence of outcomes; the sleeps between the calls are the list of their
    lengths.  Math.random, Math.pow, Date.parse, the clock and the text of an
    integer are parameters. *)

From stdpp Require Import prelude strings.
From Stdlib Require Import ZArith Lia Ascii.
From S2P Require Import Prelude JsValue JsArith JsString JsNumber Regex.
Open Scope Z_scope.

(** ** Math *)

(** [Math.min] and [Math.max] *)
Definition num_min (x y : number) : number :=
  match x, y with NaN, _ | _, NaN => NaN | _, _ => if num_gtb x y then y else x end.
Definition num_max (x y : number) : number :=
  match x, y with NaN, _ | _, NaN => NaN | _, _ => if num_gtb y x then y else x end.

(** [Math.round]: the nearest integer, halves upwards. *)
Definition num_round (x : number) : number :=
  match x with Fin u => Fin ((2 * u + num_scale) / (2 * num_scale) * num_scale) | _ => x end.

(** [2 ** n] *)
Definition pow2 (n : nat) : number :=
  if bool_decide (n < 1024)%nat then Fin (2 ^ Z.of_nat n * num_scale) else Infinity false.

(** Not NaN and not negative. *)
Definition nonneg (x : number) : Prop :=
  match x with NaN => False | Infinity b => b = false | Fin u => 0 <= u end.

Lemma of_ratio_nonneg p q : 0 <= p -> 0 < q -> nonneg (of_ratio p q).
Proof.
  intros Hp Hq. unfold of_ratio. rewrite (Z.abs_eq p), (Z.abs_eq q), (Z.sgn_pos q), Z.mul_1_r by lia.
  pose proof (round_ratio_nonneg p q Hp Hq) as Hr.
  assert (H : 0 <= Z.sgn p * round_ratio p q) by (pose proof (Z.sgn_nonneg p); nia).
  destruct (num_overflow <=? _); simpl; [apply Z.ltb_ge; lia|lia].
Qed.

Lemma num_mul_nonneg x u : nonneg x -> 0 < u -> nonneg (num_mul x (Fin u)).
Proof.
  intros Hx Hu. pose proof num_scale_pos. destruct x as [|b|v]; [done| |].
  - simpl in Hx. subst b. unfold num_mul; simpl. replace (u =? 0) with false by (symmetry; apply Z.eqb_neq; lia).
    simpl. replace (u <? 0) with false by (symmetry; apply Z.ltb_ge; lia). done.
  - simpl in Hx. unfold num_mul. apply of_ratio_nonneg; nia.
Qed.

(** A product with a factor of at most one stays below an integer bound. *)
Lemma num_mul_fraction x y b :
  0 <= b <= 2 ^ 52 -> between 0 x b -> between 0 y 1 -> between 0 (num_mul x y) b.
Proof.
  intros Hb (u & -> & Hu) (v & -> & Hv). pose proof num_scale_pos as Hs. unfold num_mul.
  assert (Hp : 0 <= u * v) by nia. assert (Hle : u * v <= b * num_scale * num_scale) by nia.
  rewrite (of_ratio_small _ _ b) by (done || lia). eexists. split; [reflexivity|].
  split; [pose proof (round_ratio_nonneg (u * v) num_scale Hp Hs); lia|]. apply round_ratio_le; lia.
Qed.

Lemma num_min_between x b : nonneg x -> 0 <= b -> between 0 (num_min x (of_int b)) b.
Proof.
  intros Hx Hb. pose proof num_scale_pos as Hs. unfold num_min, of_int. destruct x as [|n|u]; [done| |].
  - simpl in Hx. subst n. simpl. exists (b * num_scale). split; [done|]. nia.
  - simpl in Hx. change (num_gtb (Fin u) (Fin (b * num_scale))) with (b * num_scale <? u).
    destruct (Z.ltb_spec (b * num_scale) u); eexists; (split; [reflexivity|]); nia.
Qed.

(** A difference of bounded numbers stays below the bound. *)
Lemma num_sub_upper x y b :
  0 <= b <= 2 ^ 52 -> between 0 x b -> between 0 y b -> exists w, num_sub x y = Fin w /\ w <= b * num_scale.
Proof.
  intros Hb (u & -> & Hu) (v & -> & Hv). pose proof num_scale_pos as Hs.
  change (num_sub (Fin u) (Fin v)) with
    (let r := round (u + - v) in if num_overflow <=? Z.abs r then Infinity (r <? 0) else Fin r). cbv zeta.
  unfold round. rewrite round_abs_ratio by lia.
  assert (Hr : 0 <= round_ratio (Z.abs (u + - v)) 1 <= b * num_scale).
  { split; [apply round_ratio_nonneg; lia|]. apply round_ratio_le; lia. }
  destruct (Z.sgn_spec (u + - v)) as [[_ Es]|[[_ Es]|[_ Es]]]; rewrite Es;
    rewrite (below_overflow _ b) by lia; (eexists; split; [reflexivity|nia]).
Qed.

Lemma of_exact_between w b : 0 <= w <= b * num_scale -> b <= 2 ^ 52 -> between 0 (of_exact w) b.
Proof.
  intros Hw Hb.
  change (of_exact w) with (let r := round w in if num_overflow <=? Z.abs r then Infinity (r <? 0) else Fin r).
  cbv zeta. unfold round. rewrite (Z.abs_eq w), round_abs_ratio by lia.
  pose proof (round_ratio_nonneg w 1 ltac:(lia) ltac:(lia)) as H0.
  assert (H1 : round_ratio w 1 <= b * num_scale) by (apply round_ratio_le; lia).
  assert (H : 0 <= Z.sgn w * round_ratio w 1 <= b * num_scale).
  { destruct (Z.sgn_spec w) as [[Hw0 ->]|[[Hw0 ->]|[Hw0 ->]]]; nia. }
  rewrite (below_overflow _ b) by lia. eexists. split; [reflexivity|]. lia.
Qed.

Lemma num_round_upper w b : w <= b * num_scale -> exists n, num_round (Fin w) = of_int n /\ n <= b.
Proof.
  intros H. pose proof num_scale_pos. eexists. split; [reflexivity|]. apply Z.lt_succ_r, Z.div_lt_upper_bound; nia.
Qed.

Lemma num_max_int a n : num_max (of_int a) (of_int n) = of_int (Z.max a n).
Proof.
  pose proof num_scale_pos.
  change (num_max (of_int a) (of_int n)) with (if a * num_scale <? n * num_scale then of_int n else of_int a).
  destruct (Z.ltb_spec (a * num_scale) (n * num_scale)); f_equal; nia.
Qed.

Module Retry.

(** ** [withRetry] *)

Record RetryOptions : Type := {
  maxAttempts : Z;
  baseDelayMs : Z;
  maxDelayMs : Z;
  jitter : bool;
  maxRetryAfterMs : Z;
  retryAfterHeader : option string;
}.

Definition DEFAULT_OPTIONS : RetryOptions :=
  {| maxAttempts := 3; baseDelayMs := 200; maxDelayMs := 5000; jitter := true; maxRetryAfterMs := 60000;
     retryAfterHeader := None |}.

Definition half : number := Fin (2 ^ 1073).

(** [random]: the value of [Math.random()]. *)
Definition calculateDelay (random : number) (attempt : nat) (base max : Z) (jitter : bool) : number :=
  let exponential := num_min (num_mul (of_int base) (pow2 attempt)) (of_int max) in
  if jitter then num_mul exponential (num_add half (num_mul random half)) else exponential.

Section Retry.
Context (int_text : Z -> string) (date_parse : string -> option Z).

Definition parseRetryAfter (now : Z) (header : option string) (max : Z) : option Z :=
  match header with
  | None | Some EmptyString => None
  | Some h =>
      let trimmed := trim h in
      let date :=
        match date_parse trimmed with
        | None => None
        | Some parsed => if bool_decide (0 < parsed - now) then Some (Z.min (parsed - now) max) else Some 0
        end in
      match parse_int trimmed with
      | Some delta =>
          if bool_decide (0 <= delta) && String.eqb (int_text delta) trimmed then Some (Z.min (delta * 1000) max) else date
      | None => date
      end
  end.

Context {A E : Type} (isRetryable : E -> bool).

(** What one round of the loop draws: the outcome of the call, the clock and
    the random number of the backoff. *)
Record round_draw : Type := { outcome : result E A; now : Z; random : number }.

(** The loop from attempt [attempt] on: the answer ([None] is the undefined that
    is thrown when no call was made), the calls and the sleeps. *)
Fixpoint retry_loop (o : RetryOptions) (fuel attempt : nat) (draws : nat -> round_draw) (lastError : option E)
  : result (option E) A * nat * list number :=
  match fuel with
  | O => (Err lastError, 0%nat, [])
  | S fuel =>
      let d := draws attempt in
      match outcome d with
      | Ok a => (Ok a, 1%nat, [])
      | Err e =>
          if bool_decide (Z.of_nat attempt = maxAttempts o - 1) || negb (isRetryable e) then (Err (Some e), 1%nat, [])
          else
            let delay := match parseRetryAfter (now d) (retryAfterHeader o) (maxRetryAfterMs o) with
                         | Some ms => of_int ms
                         | None => calculateDelay (random d) attempt (baseDelayMs o) (maxDelayMs o) (jitter o)
                         end in
            let '(r, calls, sleeps) := retry_loop o fuel (S attempt) draws (Some e) in
            (r, S calls, delay :: sleeps)
      end
  end.

Definition withRetry (o : RetryOptions) (draws : nat -> round_draw) : result (option E) A * nat * list number :=
  retry_loop o (Z.to_nat (maxAttempts o)) 0 draws None.

(** ** Lemmas *)

(** The call that ends the loop: a success, an error that must not be retried,
    or the last attempt. *)
Definition final (o : RetryOptions) (draws : nat -> round_draw) (i : nat) : bool :=
  match outcome (draws i) with
  | Ok _ => true
  | Err e => bool_decide (Z.of_nat i = maxAttempts o - 1) || negb (isRetryable e)
  end.

Lemma retry_loop_spec o draws fuel attempt last :
  (Z.of_nat (attempt + fuel) = Z.max 0 (maxAttempts o)) -> (0 < fuel)%nat ->
  exists n, (n < fuel)%nat /\ final o draws (attempt + n) = true /\
    (forall i, (i < n)%nat -> final o draws (attempt + i) = false) /\
    (let '(r, calls, sleeps) := retry_loop o fuel attempt draws last in
     r = match outcome (draws (attempt + n)%nat) with Ok a => Ok a | Err e => Err (Some e) end /\
     calls = S n /\ length sleeps = n).
Proof.
  revert attempt last. induction fuel as [|fuel IH]; intros attempt last Hf Hpos; [lia|]. cbn [retry_loop].
  destruct (final o draws attempt) eqn:Ef.
  - exists 0%nat. rewrite Nat.add_0_r. split; [lia|]. split; [done|]. split; [lia|]. unfold final in Ef.
    destruct (outcome (draws attempt)) as [a|e]; [done|]. by rewrite Ef.
  - assert (Hfuel : (0 < fuel)%nat).
    { unfold final in Ef. destruct (outcome (draws attempt)); [done|]. apply orb_false_iff in Ef as [Ef _].
      apply bool_decide_eq_false in Ef. lia. }
    destruct (outcome (draws attempt)) as [a|e] eqn:Eo; [unfold final in Ef; by rewrite Eo in Ef|].
    destruct (IH (S attempt) (Some e)) as (n & Hn & Hfin & Hbefore & Hres); [lia|done|].
    exists (S n). rewrite Nat.add_succ_r. split; [lia|]. split; [exact Hfin|]. split.
    { intros [|i] Hi; [by rewrite Nat.add_0_r|]. rewrite Nat.add_succ_r. apply (Hbefore i). lia. }
    unfold final in Ef. rewrite Eo in Ef. rewrite Ef. destruct (retry_loop o fuel (S attempt) draws (Some e)) as [[r calls] sleeps].
    destruct Hres as (-> & -> & <-). done.
Qed.

Lemma parseRetryAfter_bounds now header max ms : 0 <= max -> parseRetryAfter now header max = Some ms -> 0 <= ms <= max.
Proof.
  intros Hm. unfold parseRetryAfter. destruct header as [[|c h]|]; [done| |done]. set (t := trim _). clearbody t.
  assert (Hd : forall x, match date_parse t with None => None | Some parsed =>
      if bool_decide (0 < parsed - now) then Some (Z.min (parsed - now) max) else Some 0 end = Some x -> 0 <= x <= max).
  { intros x. destruct (date_parse t); [|done]. case_bool_decide; intros [= <-]; lia. }
  destruct (parse_int t) as [delta|]; [|apply Hd]. destruct (bool_decide (0 <= delta) && _) eqn:Et; [|apply Hd].
  apply andb_true_iff in Et as [Et%bool_decide_eq_true _]. intros [= <-]. lia.
Qed.

Lemma half_add random : between 0 random 1 -> between 0 (num_add half (num_mul random half)) 1.
Proof.
  intros (u & -> & Hu). assert (Hs : num_scale = 2 * 2 ^ 1073).
  { rewrite (scale_split 1073) by lia. done. }
  assert (Hp : 0 < 2 ^ 1073) by (apply Z.pow_pos_nonneg; lia). pose proof num_scale_pos as Hpos.
  assert (Hm : exists v, num_mul (Fin u) half = Fin v /\ 0 <= v <= 2 ^ 1073).
  { unfold num_mul, half. rewrite (of_ratio_small _ _ 1) by nia. eexists. split; [reflexivity|].
    split; [apply round_ratio_nonneg; nia|]. apply round_ratio_le_grid; [done| |nia].
    assert (He : ratio_exponent (u * 2 ^ 1073) num_scale <= 1073).
    { unfold ratio_exponent. assert (Hq : u * 2 ^ 1073 / num_scale <= 2 ^ 1073) by (apply Z.div_le_upper_bound; nia).
      apply Z.log2_le_mono in Hq. rewrite Z.log2_pow2 in Hq by lia. lia. }
    pose proof (ratio_exponent_nonneg (u * 2 ^ 1073) num_scale) as H0.
    exists (2 ^ (1073 - ratio_exponent (u * 2 ^ 1073) num_scale)). rewrite <- Z.pow_add_r by lia. f_equal. lia. }
  destruct Hm as (v & -> & Hv). change (num_add half (Fin v)) with (of_exact (2 ^ 1073 + v)). apply of_exact_between; lia.
Qed.

Lemma calculateDelay_bounds random attempt base max j :
  between 0 random 1 -> (attempt < 1024)%nat -> 0 <= base -> 0 <= max <= 2 ^ 52 ->
  between 0 (calculateDelay random attempt base max j) max.
Proof.
  intros Hr Ha Hb Hm. unfold calculateDelay. pose proof num_scale_pos as Hs.
  assert (He : between 0 (num_min (num_mul (of_int base) (pow2 attempt)) (of_int max)) max).
  { apply num_min_between; [|lia]. unfold pow2. rewrite bool_decide_eq_true_2 by done.
    apply num_mul_nonneg; [unfold of_int; simpl; nia|]. assert (0 < 2 ^ Z.of_nat attempt) by (apply Z.pow_pos_nonneg; lia). nia. }
  destruct j; [|done]. apply num_mul_fraction; [lia|done|by apply half_add].
Qed.

Definition options_ok (o : RetryOptions) : Prop :=
  maxAttempts o <= 1024 /\ 0 <= baseDelayMs o /\ 0 <= maxDelayMs o <= 2 ^ 52 /\ 0 <= maxRetryAfterMs o <= 2 ^ 52.

Lemma sleeps_bounded o draws fuel attempt last :
  options_ok o -> (forall i, between 0 (random (draws i)) 1) -> (attempt + fuel <= 1024)%nat ->
  Forall (fun d => between 0 d (Z.max (maxDelayMs o) (maxRetryAfterMs o))) (retry_loop o fuel attempt draws last).2.
Proof.
  intros (_ & Hb & Hm & Hra) Hr. revert attempt last. induction fuel as [|fuel IH]; intros attempt last Ha; [constructor|].
  cbn [retry_loop]. destruct (outcome (draws attempt)) as [a|e]; [constructor|]. destruct (_ || _); [constructor|].
  specialize (IH (S attempt) (Some e) ltac:(lia)). destruct (retry_loop o fuel (S attempt) draws (Some e)) as [[r calls] sleeps].
  constructor; [|exact IH]. pose proof num_scale_pos.
  destruct (parseRetryAfter _ _ _) as [ms|] eqn:Ep.
  - apply parseRetryAfter_bounds in Ep; [|lia]. apply of_int_between. lia.
  - destruct (calculateDelay_bounds (random (draws attempt)) attempt (baseDelayMs o) (maxDelayMs o) (jitter o)) as (u & -> & Hu);
      [done|lia|done|done|]. exists u. split; [done|]. nia.
Qed.

(** A retried call ends: it answers with the first outcome that is a
    success, an error that must not be retried, or the one of the last attempt;
    that many calls are made, with one sleep between two calls and none longer
    than the two ceilings allow; without any attempt it throws nothing it was
    given. *)
Theorem withRetry_spec o draws :
  options_ok o -> (forall i, between 0 (random (draws i)) 1) ->
  let '(r, calls, sleeps) := withRetry o draws in
  Forall (fun d => between 0 d (Z.max (maxDelayMs o) (maxRetryAfterMs o))) sleeps /\
  (maxAttempts o <= 0 -> r = Err None /\ calls = 0%nat) /\
  (1 <= maxAttempts o -> exists n, Z.of_nat n < maxAttempts o /\ final o draws n = true /\
     (forall i, (i < n)%nat -> final o draws i = false) /\
     r = match outcome (draws n) with Ok a => Ok a | Err e => Err (Some e) end /\ calls = S n /\ length sleeps = n).
Proof.
  intros Ho Hr. pose proof (sleeps_bounded o draws (Z.to_nat (maxAttempts o)) 0 None Ho Hr) as Hs.
  pose proof (retry_loop_spec o draws (Z.to_nat (maxAttempts o)) 0 None ltac:(lia)) as Hl.
  assert (H0 : maxAttempts o <= 0 -> withRetry o draws = (Err None, 0%nat, [])).
  { intros H. unfold withRetry. by rewrite Z2Nat.nonpos. }
  unfold withRetry in *. destruct (retry_loop o (Z.to_nat (maxAttempts o)) 0 draws None) as [[r calls] sleeps].
  split; [apply Hs; destruct Ho; lia|]. split; [intros H; by injection (H0 H) as -> -> ->|].
  intros H. destruct (Hl ltac:(lia)) as (n & Hn & H1 & H2 & H3). exists n. split; [lia|]. by split.
Qed.
End Retry.
End Retry.

(** ** The webhook policy *)

Module WebhookRetry.

Record policy : Type := {
  maxAttempts : number;
  maxRetries : number;
  initialDelayMs : number;
  maxDelayMs : number;
  multiplier : number;
  jitter : number;
}.

Definition DEFAULTS : policy :=
  {| maxAttempts := of_int 6; maxRetries := of_int 5; initialDelayMs := of_int 1000; maxDelayMs := of_int 30000;
     multiplier := of_int 2; jitter := js_number "0.1" |}.

Definition toNumber (v : option string) (fallback : number) : number :=
  match v with
  | None | Some EmptyString => fallback
  | Some s => let parsed := js_number s in if is_finite parsed then parsed else fallback
  end.

Definition clamp (v : number) (min max : Z) : number := num_min (of_int max) (num_max (of_int min) v).

Definition loadRetryPolicy (env : string -> option string) : policy :=
  let attempts := num_round (clamp (toNumber (env "WEBHOOK_RETRY_MAX_ATTEMPTS"%string) (maxAttempts DEFAULTS)) 1 100) in
  {| maxAttempts := attempts;
     maxRetries := num_sub attempts (of_int 1);
     initialDelayMs :=
       num_round (clamp (toNumber (env "WEBHOOK_RETRY_INITIAL_DELAY_MS"%string) (initialDelayMs DEFAULTS)) 100 60000);
     maxDelayMs := num_round (clamp (toNumber (env "WEBHOOK_RETRY_MAX_DELAY_MS"%string) (maxDelayMs DEFAULTS)) 1000 600000);
     multiplier := clamp (toNumber (env "WEBHOOK_RETRY_MULTIPLIER"%string) (multiplier DEFAULTS)) 1 10;
     jitter := clamp (toNumber (env "WEBHOOK_RETRY_JITTER_FACTOR"%string) (jitter DEFAULTS)) 0 1 |}.

(** [r1], [r2]: the two values of [Math.random()]; [pow]: [Math.pow]. *)
Definition calculateWebhookRetryDelay (pow : number -> nat -> number) (p : policy) (r1 r2 : number) (attempt : nat) : number :=
  let delay := num_min (num_mul (initialDelayMs p) (pow (multiplier p) attempt)) (maxDelayMs p) in
  let jitterAmount := num_mul (num_mul delay (jitter p)) r1 in
  let jitterOffset := if num_ltb r2 Retry.half then num_neg jitterAmount else jitterAmount in
  num_max (of_int 100) (num_round (num_add delay jitterOffset)).

Lemma toNumber_finite v d : is_finite d = true -> exists u, toNumber v d = Fin u.
Proof.
  intros Hd. unfold toNumber. assert (Hf : exists u, d = Fin u) by (destruct d as [| |u]; [done|done|by exists u]).
  destruct v as [[|c s]|]; [done| |done]. destruct (js_number (String c s)) as [| |u]; [done|done|by exists u].
Qed.

Lemma clamp_between u a b : a <= b -> between a (clamp (Fin u) a b) b.
Proof.
  intros H. pose proof num_scale_pos. unfold clamp.
  change (num_max (of_int a) (Fin u)) with (if a * num_scale <? u then Fin u else of_int a).
  assert (E : exists w, (if a * num_scale <? u then Fin u else of_int a) = Fin w /\ a * num_scale <= w).
  { destruct (Z.ltb_spec (a * num_scale) u); eexists; (split; [reflexivity|lia]). }
  destruct E as (w & -> & Hw).
  change (num_min (of_int b) (Fin w)) with (if w <? b * num_scale then Fin w else of_int b).
  destruct (Z.ltb_spec w (b * num_scale)); eexists; (split; [reflexivity|nia]).
Qed.

Lemma num_round_between x a b : between a x b -> exists n, num_round x = of_int n /\ a <= n <= b.
Proof.
  intros (u & -> & Hu). pose proof num_scale_pos. eexists. split; [reflexivity|]. split.
  - apply Z.div_le_lower_bound; lia.
  - apply Z.lt_succ_r, Z.div_lt_upper_bound; lia.
Qed.

Lemma num_mul_positive n y : 0 < n -> nonneg y -> nonneg (num_mul (of_int n) y).
Proof.
  intros Hn Hy. pose proof num_scale_pos. destruct y as [|b|u]; [done| |].
  - simpl in Hy. subst b. unfold num_mul, of_int, num_zero, num_negative.
    replace (n * num_scale =? 0) with false by (symmetry; apply Z.eqb_neq; nia).
    replace (n * num_scale <? 0) with false by (symmetry; apply Z.ltb_ge; nia). done.
  - simpl in Hy. unfold num_mul, of_int. apply of_ratio_nonneg; nia.
Qed.

Record policy_ok (p : policy) : Prop := {
  attempts_range : exists n, maxAttempts p = of_int n /\ maxRetries p = of_int (n - 1) /\ 1 <= n <= 100;
  initial_range : exists n, initialDelayMs p = of_int n /\ 100 <= n <= 60000;
  max_range : exists n, maxDelayMs p = of_int n /\ 1000 <= n <= 600000;
  multiplier_range : between 1 (multiplier p) 10;
  jitter_range : between 0 (jitter p) 1;
}.

Lemma retry_config_ok env : policy_ok (loadRetryPolicy env).
Proof.
  assert (C : forall v d a b, is_finite d = true -> a <= b -> between a (clamp (toNumber v d) a b) b).
  { intros v d a b Hd Hab. destruct (toNumber_finite v d Hd) as [u ->]. by apply clamp_between. }
  split; unfold loadRetryPolicy; cbn [maxAttempts maxRetries initialDelayMs maxDelayMs multiplier jitter].
  - destruct (num_round_between _ 1 100 (C (env "WEBHOOK_RETRY_MAX_ATTEMPTS"%string) (maxAttempts DEFAULTS) 1 100 eq_refl ltac:(lia)))
      as (n & -> & Hn). exists n. split; [done|]. split; [|done]. apply num_sub_int. lia.
  - apply num_round_between, C; [done|lia].
  - apply num_round_between, C; [done|lia].
  - apply C; [done|lia].
  - apply C; [vm_compute; reflexivity|lia].
Qed.

(** Whatever the environment says, the webhook retry policy is within its
    documented ranges, and every delay computed from it is a whole number of
    milliseconds between 100 and twice the configured maximum. *)
Theorem webhook_delay_bounds env pow r1 r2 attempt :
  (forall x, between 1 x 10 -> nonneg (pow x attempt)) -> between 0 r1 1 ->
  let p := loadRetryPolicy env in
  policy_ok p /\ exists d m, calculateWebhookRetryDelay pow p r1 r2 attempt = of_int d /\ maxDelayMs p = of_int m /\ 100 <= d <= 2 * m.
Proof.
  intros Hpow Hr p. pose proof (retry_config_ok env) as Hp. fold p in Hp. split; [done|]. clearbody p.
  destruct Hp as [_ (i & Hi & Hir) (m & Hm & Hmr) Hmul Hj]. unfold calculateWebhookRetryDelay. rewrite Hi, Hm.
  pose proof (num_min_between _ m (num_mul_positive i _ ltac:(lia) (Hpow _ Hmul)) ltac:(lia)) as Hd.
  set (delay := num_min _ _) in *. clearbody delay.
  assert (Ha : between 0 (num_mul (num_mul delay (jitter p)) r1) m).
  { apply num_mul_fraction; [lia| |done]. by apply num_mul_fraction; [lia|..]. }
  set (amount := num_mul _ r1) in *. clearbody amount.
  assert (Hs : exists w, num_add delay (if num_ltb r2 Retry.half then num_neg amount else amount) = Fin w /\ w <= 2 * m * num_scale).
  { destruct (num_ltb r2 Retry.half).
    - destruct (num_sub_upper delay amount m) as (w & Hw & Hle); [lia|done|done|]. exists w. pose proof num_scale_pos. split; [exact Hw|nia].
    - destruct (num_add_between delay amount 0 m 0 m) as (w & Hw & Hle); [lia..|done|done|]. exists w. split; [done|lia]. }
  destruct Hs as (w & -> & Hw). destruct (num_round_upper w (2 * m) Hw) as (n & -> & Hn). rewrite num_max_int.
  exists (Z.max 100 n), m. split; [done|]. split; [done|]. lia.
Qed.
End WebhookRetry.

Definition sample_draws (i : nat) : @Retry.round_draw Z string :=
  {| Retry.outcome := if bool_decide (i = 2%nat) then Ok 7 else Err "busy"%string; Retry.now := 0; Retry.random := Fin 0 |}.

Lemma withRetry_spec_witness :
  exists n, Z.of_nat n < 3 /\ Retry.withRetry (fun _ => EmptyString) (fun _ => None) (fun _ => true) Retry.DEFAULT_OPTIONS sample_draws =
    (Ok 7, S n, snd (Retry.withRetry (fun _ => EmptyString) (fun _ => None) (fun _ => true) Retry.DEFAULT_OPTIONS sample_draws)).
Proof.
  assert (Ho : Retry.options_ok Retry.DEFAULT_OPTIONS) by (unfold Retry.options_ok; simpl; lia).
  assert (Hr : forall i, between 0 (Retry.random (sample_draws i)) 1).
  { intros i. exists 0. pose proof num_scale_pos. split; [done|lia]. }
  pose proof (Retry.withRetry_spec (fun _ => EmptyString) (fun _ => None) (fun _ => true) Retry.DEFAULT_OPTIONS sample_draws Ho Hr) as H.
  destruct (Retry.withRetry _ _ _ _ _) as [[r calls] sleeps]. destruct H as (_ & _ & H).
  destruct (H ltac:(done)) as (n & Hn & Hf & Hb & -> & -> & _). exists n. split; [exact Hn|].
  destruct n as [|[|[|n]]]; [by vm_compute in Hf|by vm_compute in Hf|reflexivity|simpl in Hn; lia].
Defined.

Lemma webhook_delay_bounds_witness :
  let p := WebhookRetry.loadRetryPolicy (fun _ => Some "1e9"%string) in
  WebhookRetry.policy_ok p /\ exists d m,
    WebhookRetry.calculateWebhookRetryDelay (fun _ _ => of_int 1) p (Fin 0) (Fin 0) 3 = of_int d /\
    WebhookRetry.maxDelayMs p = of_int m /\ 100 <= d <= 2 * m.
Proof.
  apply (WebhookRetry.webhook_delay_bounds (fun _ => Some "1e9"%string) (fun _ _ => of_int 1) (Fin 0) (Fin 0) 3).
  - intros x _. unfold of_int. simpl. pose proof num_scale_pos. lia.
  - exists 0. pose proof num_scale_pos. split; [done|lia].
Defined.

(** A call that may not be attempted at all throws undefined. *)
Example no_attempts_throws_undefined :
  Retry.withRetry (fun _ => EmptyString) (fun _ => None) (fun _ => true)
    {| Retry.maxAttempts := 0; Retry.baseDelayMs := 1; Retry.maxDelayMs := 1; Retry.jitter := false;
       Retry.maxRetryAfterMs := 0; Retry.retryAfterHeader := None |} sample_draws = (Err None, 0%nat, []).
Proof. done. Qed.
