(* ===== verification/RetryPolicies.v ===== *)
(** * Job retry policies: src/queue/retry-policy.ts and src/queue/retry-manager.ts

    Policies hold doubles, so validation meets NaN as it does in JavaScript.
    The environment is a function from names to values.  Warnings that are only
    logged are not represented; [retryCondition], which no code calls, is left
    out of the record.  The fallback policy comes from the queue configuration. *)

From stdpp Require Import prelude strings.
From Stdlib Require Import ZArith Lia Ascii.
From S2P Require Import Prelude JsMap JsValue JsArith JsString JsNumber Regex Retry.
Open Scope Z_scope.

Module RetryPolicies.

Inductive JobType : Type :=
| EMAIL_NOTIFICATION | CONTRACT_PROCESSING | REPUTATION_UPDATE | REPUTATION_RECOMPUTE | BLOCKCHAIN_SYNC.

#[export] Instance JobType_eq_dec : EqDecision JobType.
Proof. solve_decision. Defined.

Definition job_text (j : JobType) : string :=
  match j with
  | EMAIL_NOTIFICATION => "email-notification"
  | CONTRACT_PROCESSING => "contract-processing"
  | REPUTATION_UPDATE => "reputation-update"
  | REPUTATION_RECOMPUTE => "reputation-recompute"
  | BLOCKCHAIN_SYNC => "blockchain-sync"
  end.

(** [Object.values(JobType)] *)
Definition job_types : list JobType :=
  [EMAIL_NOTIFICATION; CONTRACT_PROCESSING; REPUTATION_UPDATE; REPUTATION_RECOMPUTE; BLOCKCHAIN_SYNC].

Inductive backoff_type : Type := exponential | fixed | custom.

Record Backoff : Type := { type : backoff_type; delay : number; multiplier : option number; jitter : option number }.

Inductive keep : Type := KeepCount (n : number) | KeepBool (b : bool).

Record RetryPolicy : Type := {
  attempts : number;
  backoff : Backoff;
  removeOnComplete : keep;
  removeOnFail : keep;
}.

Definition exp_policy (a d : Z) (m j : string) (c f : Z) : RetryPolicy :=
  {| attempts := of_int a;
     backoff := {| type := exponential; delay := of_int d; multiplier := Some (js_number m); jitter := Some (js_number j) |};
     removeOnComplete := KeepCount (of_int c); removeOnFail := KeepCount (of_int f) |}.

Definition DEFAULT_RETRY_POLICIES (j : JobType) : RetryPolicy :=
  match j with
  | EMAIL_NOTIFICATION => exp_policy 5 1000 "2" "0.1" 100 50
  | CONTRACT_PROCESSING => exp_policy 3 2000 "2" "0.2" 100 100
  | REPUTATION_UPDATE =>
      {| attempts := of_int 2; backoff := {| type := fixed; delay := of_int 5000; multiplier := None; jitter := None |};
         removeOnComplete := KeepCount (of_int 200); removeOnFail := KeepCount (of_int 200) |}
  | BLOCKCHAIN_SYNC => exp_policy 8 5000 "1.5" "0.3" 50 25
  | REPUTATION_RECOMPUTE => exp_policy 3 2000 "2" "0.2" 100 100
  end.

(** [Object.entries(DEFAULT_RETRY_POLICIES)] *)
Definition default_entries : list JobType :=
  [EMAIL_NOTIFICATION; CONTRACT_PROCESSING; REPUTATION_UPDATE; BLOCKCHAIN_SYNC; REPUTATION_RECOMPUTE].

Definition MAX_RETRY_ATTEMPTS : Z := 10.
Definition MAX_BACKOFF_DELAY : Z := 300000.
Definition MIN_BACKOFF_DELAY : Z := 1.
Definition MIN_BACKOFF_MULTIPLIER : Z := 1.
Definition MAX_BACKOFF_MULTIPLIER : Z := 10.

Definition clampWithWarning (v : number) (min max : Z) : number := num_min (num_max v (of_int min)) (of_int max).

(** ** The environment *)

Definition upper_char (c : ascii) : ascii :=
  if in_range 97 122 c then ascii_of_nat (nat_of_ascii c - 32) else c.

(** [s.replace('-', '_')]: the first occurrence. *)
Fixpoint replace_dash (l : list ascii) : list ascii :=
  match l with
  | [] => []
  | c :: l' => if Ascii.eqb c "-"%char then "_"%char :: l' else c :: replace_dash l'
  end.

Definition env_key (j : JobType) (property : string) : string :=
  String.string_of_list_ascii
    (chars "RETRY_POLICY_" ++ replace_dash (upper_char <$> chars (job_text j)) ++ "_"%char :: chars property).

(** [parseFloat]: the longest prefix that is a decimal literal. *)
Fixpoint float_prefix (n : nat) (l : list ascii) : number :=
  match n with
  | O => NaN
  | S n' => match decimal_literal (take n l) with NaN => float_prefix n' l | x => x end
  end.

Definition parse_float (s : string) : number :=
  let l := trim_front (chars s) in float_prefix (length l) l.

Record Override : Type := { o_attempts : option number; o_backoff : option Backoff }.

Definition truthy (v : option string) : option string :=
  match v with None | Some EmptyString => None | Some s => Some s end.

Definition add_attempts (v : option string) (o : Override) : Override :=
  match truthy v ≫= parse_int with
  | Some n => if bool_decide (0 < n)
              then {| o_attempts := Some (of_int (Z.min n MAX_RETRY_ATTEMPTS)); o_backoff := o_backoff o |} else o
  | None => o
  end.

Definition add_delay (v : option string) (o : Override) : Override :=
  match truthy v ≫= parse_int with
  | Some n =>
      if bool_decide (0 < n) then
        let d := of_int (Z.min (Z.max n MIN_BACKOFF_DELAY) MAX_BACKOFF_DELAY) in
        let b := match o_backoff o with
                 | None => {| type := exponential; delay := d; multiplier := None; jitter := None |}
                 | Some b => {| type := type b; delay := d; multiplier := multiplier b; jitter := jitter b |}
                 end in
        {| o_attempts := o_attempts o; o_backoff := Some b |}
      else o
  | None => o
  end.

Definition add_multiplier (v : option string) (o : Override) : Override :=
  match truthy v with
  | Some s =>
      let m := parse_float s in
      if num_gtb m (of_int 0) then
        let c := clampWithWarning m MIN_BACKOFF_MULTIPLIER MAX_BACKOFF_MULTIPLIER in
        let b := match o_backoff o with
                 | None => {| type := exponential; delay := of_int 2000; multiplier := Some c; jitter := None |}
                 | Some b => {| type := type b; delay := delay b; multiplier := Some c; jitter := jitter b |}
                 end in
        {| o_attempts := o_attempts o; o_backoff := Some b |}
      else o
  | None => o
  end.

Definition add_jitter (v : option string) (o : Override) : Override :=
  match truthy v with
  | Some s =>
      let x := parse_float s in
      if num_leb (of_int 0) x && num_leb x (of_int 1) then
        let b := match o_backoff o with
                 | None => {| type := exponential; delay := of_int 2000; multiplier := None; jitter := Some x |}
                 | Some b => {| type := type b; delay := delay b; multiplier := multiplier b; jitter := Some x |}
                 end in
        {| o_attempts := o_attempts o; o_backoff := Some b |}
      else o
  | None => o
  end.

(** The coherence guard: a fixed backoff loses its multiplier. *)
Definition drop_incoherent (o : Override) : Override :=
  {| o_attempts := o_attempts o;
     o_backoff := (fun b => match type b with
                            | fixed => {| type := fixed; delay := delay b; multiplier := None; jitter := jitter b |}
                            | _ => b
                            end) <$> o_backoff o |}.

Definition job_override (env : string -> option string) (j : JobType) : option Override :=
  let o := drop_incoherent (add_jitter (env (env_key j "JITTER")) (add_multiplier (env (env_key j "MULTIPLIER"))
             (add_delay (env (env_key j "DELAY")) (add_attempts (env (env_key j "ATTEMPTS"))
               {| o_attempts := None; o_backoff := None |})))) in
  match o_attempts o, o_backoff o with None, None => None | _, _ => Some o end.

Definition loadRetryPolicyOverrides (env : string -> option string) : list (JobType * Override) :=
  omap (fun j => pair j <$> job_override env j) job_types.

(** ** Validation *)

Inductive complaint : Type :=
| attempts_negative | attempts_exceed | delay_negative | delay_exceeds | multiplier_not_positive | multiplier_exceeds
| jitter_range | complete_negative | fail_negative.

Definition keep_ok (k : keep) : bool := match k with KeepCount n => negb (num_ltb n (of_int 0)) | KeepBool _ => true end.

Definition complaints (p : RetryPolicy) : list complaint :=
  let b := backoff p in
  (if num_ltb (attempts p) (of_int 0) then [attempts_negative]
   else if num_gtb (attempts p) (of_int MAX_RETRY_ATTEMPTS) then [attempts_exceed] else []) ++
  (if num_ltb (delay b) (of_int 0) then [delay_negative]
   else if num_gtb (delay b) (of_int MAX_BACKOFF_DELAY) then [delay_exceeds] else []) ++
  (match type b, multiplier b with
   | exponential, Some m =>
       if num_leb m (of_int 0) then [multiplier_not_positive]
       else if num_gtb m (of_int 10) then [multiplier_exceeds] else []
   | _, _ => []
   end) ++
  (match jitter b with
   | Some x => if num_ltb x (of_int 0) || num_gtb x (of_int 1) then [jitter_range] else []
   | None => []
   end) ++
  (if keep_ok (removeOnComplete p) then [] else [complete_negative]) ++
  (if keep_ok (removeOnFail p) then [] else [fail_negative]).

Definition validatePolicy (p : RetryPolicy) : result (list complaint) RetryPolicy :=
  match complaints p with [] => Ok p | es => Err es end.

(** ** The manager *)

Notation policies := (list (JobType * RetryPolicy)) (only parsing).

(** [{ ...current, ...override }] with the nested merge of [backoff]. *)
Definition merge_backoff (cur new : Backoff) : Backoff :=
  {| type := type new; delay := delay new;
     multiplier := match multiplier new with Some m => Some m | None => multiplier cur end;
     jitter := match jitter new with Some x => Some x | None => jitter cur end |}.

Record Update : Type := {
  u_attempts : option number;
  u_backoff : option Backoff;
  u_complete : option keep;
  u_fail : option keep;
}.

Definition merge (p : RetryPolicy) (u : Update) : RetryPolicy :=
  {| attempts := default (attempts p) (u_attempts u);
     backoff := match u_backoff u with Some b => merge_backoff (backoff p) b | None => backoff p end;
     removeOnComplete := default (removeOnComplete p) (u_complete u);
     removeOnFail := default (removeOnFail p) (u_fail u) |}.

Definition override_update (o : Override) : Update :=
  {| u_attempts := o_attempts o; u_backoff := o_backoff o; u_complete := None; u_fail := None |}.

Section Manager.
Context (FALLBACK_RETRY_POLICY : RetryPolicy).

Definition getRetryPolicy (j : JobType) (m : policies) : result (list complaint) RetryPolicy :=
  match map_get j m with Some p => Ok p | None => validatePolicy FALLBACK_RETRY_POLICY end.

Definition put (j : JobType) (p : RetryPolicy) (m : policies) : result (list complaint) policies :=
  match validatePolicy p with Ok p' => Ok (map_set j p' m) | Err e => Err e end.

Definition registerRetryPolicy (j : JobType) (p : RetryPolicy) (m : policies) : result (list complaint) policies := put j p m.

Definition updateRetryPolicy (j : JobType) (u : Update) (m : policies) : result (list complaint) policies :=
  match getRetryPolicy j m with Ok cur => put j (merge cur u) m | Err e => Err e end.

Definition resetToDefault (j : JobType) (m : policies) : result (list complaint) policies :=
  put j (DEFAULT_RETRY_POLICIES j) m.

(** The two loops of [initializePolicies]; a throw ends them. *)
Definition load_defaults : result (list complaint) policies :=
  foldl (fun r j => match r with Ok m => put j (DEFAULT_RETRY_POLICIES j) m | Err e => Err e end) (Ok []) default_entries.

Definition apply_override (r : result (list complaint) policies) (x : JobType * Override) : result (list complaint) policies :=
  match r with
  | Ok m => put x.1 (merge (default FALLBACK_RETRY_POLICY (map_get x.1 m)) (override_update x.2)) m
  | Err e => Err e
  end.

Definition initializePolicies (env : string -> option string) : result (list complaint) policies :=
  foldl apply_override load_defaults (loadRetryPolicyOverrides env).

(** What BullMQ is given: a zero or NaN multiplier or jitter is left out. *)
Record JobOptions : Type := { j_attempts : number; j_backoff : Backoff; j_complete : keep; j_fail : keep }.

Definition nonzero (x : option number) : option number :=
  match x with Some (Fin 0) | Some NaN | None => None | Some n => Some n end.

Definition getJobOptions (j : JobType) (m : policies) : result (list complaint) JobOptions :=
  match getRetryPolicy j m with
  | Ok p => Ok {| j_attempts := attempts p;
                  j_backoff := {| type := type (backoff p); delay := delay (backoff p);
                                  multiplier := nonzero (multiplier (backoff p)); jitter := nonzero (jitter (backoff p)) |};
                  j_complete := removeOnComplete p; j_fail := removeOnFail p |}
  | Err e => Err e
  end.

Inductive op : Type :=
| ORegister (j : JobType) (p : RetryPolicy)
| OUpdate (j : JobType) (u : Update)
| OReset (j : JobType).

Definition exec (o : op) (m : policies) : policies :=
  match (match o with
         | ORegister j p => registerRetryPolicy j p m
         | OUpdate j u => updateRetryPolicy j u m
         | OReset j => resetToDefault j m
         end) with Ok m' => m' | Err _ => m end.

Definition run (os : list op) (m : policies) : policies := foldl (fun m o => exec o m) m os.

(** ** What validation guarantees *)

Definition valid (p : RetryPolicy) : Prop := complaints p = [].

(** Every job type has a valid policy. *)
Definition manager_ok (m : policies) : Prop := forall j, exists p, map_get j m = Some p /\ valid p.

Lemma validatePolicy_Ok p p' : validatePolicy p = Ok p' -> p' = p /\ valid p.
Proof. unfold validatePolicy, valid. by destruct (complaints p); [intros [= <-]|]. Qed.

Lemma valid_validates p : valid p -> validatePolicy p = Ok p.
Proof. unfold validatePolicy, valid. by intros ->. Qed.

Lemma put_Ok j p m m' : put j p m = Ok m' -> m' = map_set j p m /\ valid p.
Proof. unfold put. destruct (validatePolicy p) as [q|] eqn:E; [|done]. intros [= <-]. by apply validatePolicy_Ok in E as [-> ?]. Qed.

Lemma put_valid j p m : valid p -> put j p m = Ok (map_set j p m).
Proof. intros H. unfold put. by rewrite valid_validates. Qed.

Lemma set_ok j p m : manager_ok m -> valid p -> manager_ok (map_set j p m).
Proof.
  intros H Hp i. destruct (decide (j = i)) as [<-|Hne].
  - exists p. by rewrite map_get_set_eq.
  - destruct (H i) as (q & Hq & Hv). exists q. by rewrite map_get_set_ne.
Qed.

Lemma exec_manager_ok o m : manager_ok m -> manager_ok (exec o m).
Proof.
  intros H. assert (P : forall j p m', put j p m = Ok m' -> manager_ok m').
  { intros j p m' [-> Hv]%put_Ok. by apply set_ok. }
  unfold exec. destruct o as [j p|j u|j].
  - destruct (registerRetryPolicy j p m) as [m'|] eqn:E; [by eapply P|done].
  - unfold updateRetryPolicy, getRetryPolicy. destruct (H j) as (q & -> & _).
    destruct (put j (merge q u) m) as [m'|] eqn:E; [by eapply P|done].
  - destruct (resetToDefault j m) as [m'|] eqn:E; [by eapply P|done].
Qed.

(** NaN, or between two integers. *)
Definition bounded (a : Z) (x : number) (b : Z) : Prop := x = NaN \/ between a x b.

Lemma not_outside x a b : num_ltb x (of_int a) = false -> num_gtb x (of_int b) = false -> bounded a x b.
Proof.
  intros H1 H2. destruct x as [|[]|u]; [by left|done|done|]. right. exists u. split; [done|].
  change (num_ltb (Fin u) (of_int a)) with (u <? a * num_scale) in H1.
  change (num_gtb (Fin u) (of_int b)) with (b * num_scale <? u) in H2. apply Z.ltb_ge in H1, H2. lia.
Qed.

Lemma valid_bounds p : valid p ->
  bounded 0 (attempts p) MAX_RETRY_ATTEMPTS /\ bounded 0 (delay (backoff p)) MAX_BACKOFF_DELAY /\
  (forall x, jitter (backoff p) = Some x -> bounded 0 x 1) /\
  (forall x, type (backoff p) = exponential -> multiplier (backoff p) = Some x -> bounded 0 x 10 /\ x <> of_int 0).
Proof.
  unfold valid, complaints. intros H. apply app_nil in H as [H1 H]. apply app_nil in H as [H2 H].
  apply app_nil in H as [H3 H]. apply app_nil in H as [H4 _]. repeat split.
  - destruct (num_ltb _ _) eqn:E1; [done|]. destruct (num_gtb _ _) eqn:E2; [done|]. by apply not_outside.
  - destruct (num_ltb (delay _) _) eqn:E1; [done|]. destruct (num_gtb (delay _) _) eqn:E2; [done|]. by apply not_outside.
  - intros x Hx. rewrite Hx in H4. destruct (_ || _) eqn:E; [done|]. apply orb_false_iff in E as [E1 E2]. by apply not_outside.
  - rewrite H, H0 in H3. destruct (num_leb x _) eqn:E1; [done|]. destruct (num_gtb x _) eqn:E2; [done|].
    apply not_outside; [|done]. destruct x as [|[]|u]; try done.
    change (num_leb (Fin u) (of_int 0)) with (negb (0 * num_scale <? u)) in E1. apply negb_false_iff in E1.
    change (num_ltb (Fin u) (of_int 0)) with (u <? 0 * num_scale). apply Z.ltb_lt in E1. apply Z.ltb_ge. lia.
  - rewrite H, H0 in H3. intros ->. done.
Qed.

(** ** Policies from the environment *)

(** Whole attempts and delays, factors in range; nothing is NaN. *)
Record safe (p : RetryPolicy) : Prop := {
  safe_attempts : exists n, attempts p = of_int n /\ 1 <= n <= MAX_RETRY_ATTEMPTS;
  safe_delay : exists n, delay (backoff p) = of_int n /\ MIN_BACKOFF_DELAY <= n <= MAX_BACKOFF_DELAY;
  safe_multiplier : forall x, multiplier (backoff p) = Some x -> between 1 x 10;
  safe_jitter : forall x, jitter (backoff p) = Some x -> between 0 x 1;
  safe_keep : keep_ok (removeOnComplete p) = true /\ keep_ok (removeOnFail p) = true;
}.

Record safe_override (o : Override) : Prop := {
  so_attempts : forall x, o_attempts o = Some x -> exists n, x = of_int n /\ 1 <= n <= MAX_RETRY_ATTEMPTS;
  so_backoff : forall b, o_backoff o = Some b -> type b = exponential /\
    (exists n, delay b = of_int n /\ MIN_BACKOFF_DELAY <= n <= MAX_BACKOFF_DELAY) /\
    (forall x, multiplier b = Some x -> between 1 x 10) /\ (forall x, jitter b = Some x -> between 0 x 1);
}.

Lemma num_ltb_int_false x a b : between a x b -> num_ltb x (of_int a) = false /\ num_gtb x (of_int b) = false.
Proof.
  intros (u & -> & Hu). change (num_ltb (Fin u) (of_int a)) with (u <? a * num_scale).
  change (num_gtb (Fin u) (of_int b)) with (b * num_scale <? u). rewrite !Z.ltb_ge. lia.
Qed.

Lemma safe_valid p : safe p -> valid p.
Proof.
  intros [(n & Hn & Hnr) (d & Hd & Hdr) Hm Hj [Hc Hf]]. unfold valid, complaints.
  unfold MAX_RETRY_ATTEMPTS, MIN_BACKOFF_DELAY, MAX_BACKOFF_DELAY in *. pose proof num_scale_pos as Hs.
  assert (Ha : between 0 (attempts p) 10) by (rewrite Hn; apply of_int_between; lia).
  assert (Hb : between 0 (delay (backoff p)) 300000) by (rewrite Hd; apply of_int_between; lia).
  destruct (num_ltb_int_false _ _ _ Ha) as [-> ->], (num_ltb_int_false _ _ _ Hb) as [-> ->]. rewrite Hc, Hf. simpl.
  assert (M : match type (backoff p), multiplier (backoff p) with
    | exponential, Some m => if num_leb m (of_int 0) then [multiplier_not_positive]
                             else if num_gtb m (of_int 10) then [multiplier_exceeds] else []
    | _, _ => [] end = []).
  { destruct (type (backoff p)); try done. destruct (multiplier (backoff p)) as [m|]; [|done].
    destruct (Hm m eq_refl) as (u & -> & Hu).
    change (num_leb (Fin u) (of_int 0)) with (negb (0 * num_scale <? u)).
    change (num_gtb (Fin u) (of_int 10)) with (10 * num_scale <? u).
    destruct (Z.ltb_spec (0 * num_scale) u); [|lia]. destruct (Z.ltb_spec (10 * num_scale) u); [lia|done]. }
  rewrite M. destruct (jitter (backoff p)) as [x|]; [|done].
  by destruct (num_ltb_int_false _ _ _ (Hj x eq_refl)) as [-> ->].
Qed.

Lemma add_attempts_safe v o : safe_override o -> safe_override (add_attempts v o).
Proof.
  intros H. unfold add_attempts. destruct (truthy v ≫= parse_int) as [n|]; [|done]. case_bool_decide; [|done].
  destruct H as [_ Hb]. split; simpl; [|done]. intros x [= <-]. eexists. split; [reflexivity|]. unfold MAX_RETRY_ATTEMPTS. lia.
Qed.

Lemma add_delay_safe v o : safe_override o -> safe_override (add_delay v o).
Proof.
  intros H. unfold add_delay. destruct (truthy v ≫= parse_int) as [n|]; [|done]. case_bool_decide; [|done].
  destruct H as [Ha Hb]. split; simpl; [done|]. intros b [= <-].
  assert (Hd : exists m, of_int (Z.min (Z.max n MIN_BACKOFF_DELAY) MAX_BACKOFF_DELAY) = of_int m /\ MIN_BACKOFF_DELAY <= m <= MAX_BACKOFF_DELAY).
  { eexists. split; [reflexivity|]. unfold MIN_BACKOFF_DELAY, MAX_BACKOFF_DELAY. lia. }
  destruct (o_backoff o) as [b|]; simpl; [|done]. destruct (Hb b eq_refl) as (Ht & _ & Hr). done.
Qed.

Lemma clamp_safe x : num_gtb x (of_int 0) = true -> between 1 (clampWithWarning x MIN_BACKOFF_MULTIPLIER MAX_BACKOFF_MULTIPLIER) 10.
Proof.
  unfold clampWithWarning, MIN_BACKOFF_MULTIPLIER, MAX_BACKOFF_MULTIPLIER. pose proof num_scale_pos as Hs.
  destruct x as [|[]|u]; try done.
  - intros _. change (num_min (num_max (Infinity false) (of_int 1)) (of_int 10)) with (of_int 10). apply of_int_between. lia.
  - intros _. change (num_max (Fin u) (of_int 1)) with (if u <? 1 * num_scale then of_int 1 else Fin u).
    assert (E : exists w, (if u <? 1 * num_scale then of_int 1 else Fin u) = Fin w /\ 1 * num_scale <= w).
    { destruct (Z.ltb_spec u (1 * num_scale)); eexists; (split; [reflexivity|lia]). }
    destruct E as (w & -> & Hw). change (num_min (Fin w) (of_int 10)) with (if 10 * num_scale <? w then of_int 10 else Fin w).
    destruct (Z.ltb_spec (10 * num_scale) w); eexists; (split; [reflexivity|nia]).
Qed.

Lemma delay_2000 : exists n, of_int 2000 = of_int n /\ MIN_BACKOFF_DELAY <= n <= MAX_BACKOFF_DELAY.
Proof. exists 2000. unfold MIN_BACKOFF_DELAY, MAX_BACKOFF_DELAY. split; [done|lia]. Qed.

Lemma add_multiplier_safe v o : safe_override o -> safe_override (add_multiplier v o).
Proof.
  intros H. unfold add_multiplier. destruct (truthy v) as [s|]; [|done]. destruct (num_gtb (parse_float s) (of_int 0)) eqn:E; [|done].
  apply clamp_safe in E. destruct H as [Ha Hb]. split; [done|]. cbn [o_backoff]. intros b [= <-].
  destruct (o_backoff o) as [b|]; cbn [type delay multiplier jitter].
  - destruct (Hb b eq_refl) as (Ht & Hd & _ & Hj). split; [done|]. split; [done|]. split; [by intros x [= <-]|done].
  - split; [done|]. split; [apply delay_2000|]. split; [by intros x [= <-]|done].
Qed.

Lemma add_jitter_safe v o : safe_override o -> safe_override (add_jitter v o).
Proof.
  intros H. unfold add_jitter. destruct (truthy v) as [s|]; [|done]. destruct (num_leb _ _ && num_leb _ _) eqn:E; [|done].
  apply andb_true_iff in E as [E1 E2]. pose proof (num_leb_between _ _ _ E1 E2) as E. destruct H as [Ha Hb]. split; [done|].
  cbn [o_backoff]. intros b [= <-]. destruct (o_backoff o) as [b|]; cbn [type delay multiplier jitter].
  - destruct (Hb b eq_refl) as (Ht & Hd & Hm & _). split; [done|]. split; [done|]. split; [done|by intros x [= <-]].
  - split; [done|]. split; [apply delay_2000|]. split; [done|by intros x [= <-]].
Qed.

Lemma job_override_safe env j o : job_override env j = Some o -> safe_override o.
Proof.
  unfold job_override. set (o' := add_jitter _ _). assert (H : safe_override o').
  { apply add_jitter_safe, add_multiplier_safe, add_delay_safe, add_attempts_safe. by split. }
  clearbody o'. assert (Hd : safe_override (drop_incoherent o')).
  { destruct H as [Ha Hb]. split; [done|]. unfold drop_incoherent; cbn [o_backoff]. intros b (b' & Hb' & ->)%fmap_Some.
    destruct (Hb b' Hb') as (Ht & Hr). rewrite Ht. done. }
  destruct (drop_incoherent o') as [[oa|] [ob|]]; simpl; intros [= <-]; done.
Qed.

Lemma merge_safe p o : safe p -> safe_override o -> safe (merge p (override_update o)).
Proof.
  intros [Ha Hd Hm Hj Hk] [Oa Ob]. split; unfold merge, override_update; cbn [attempts backoff u_attempts u_backoff u_complete u_fail].
  - destruct (o_attempts o) as [x|]; [by apply Oa|done].
  - destruct (o_backoff o) as [b|]; [|done]. by destruct (Ob b eq_refl) as (_ & ? & _).
  - destruct (o_backoff o) as [b|]; [|done]. destruct (Ob b eq_refl) as (_ & _ & Hb & _). simpl.
    destruct (multiplier b); [by intros x [= <-]; apply Hb|done].
  - destruct (o_backoff o) as [b|]; [|done]. destruct (Ob b eq_refl) as (_ & _ & _ & Hb). simpl.
    destruct (jitter b); [by intros x [= <-]; apply Hb|done].
  - done.
Qed.

Lemma keep_count n : 0 <= n -> keep_ok (KeepCount (of_int n)) = true.
Proof. intros H. unfold keep_ok, num_ltb. rewrite num_gtb_int. apply negb_true_iff, Z.ltb_ge. lia. Qed.

Lemma exp_policy_safe a d m j c f :
  1 <= a <= 10 -> 1 <= d <= 300000 -> 0 <= c -> 0 <= f ->
  num_leb (of_int 1) (js_number m) && num_leb (js_number m) (of_int 10) = true ->
  num_leb (of_int 0) (js_number j) && num_leb (js_number j) (of_int 1) = true -> safe (exp_policy a d m j c f).
Proof.
  intros Ha Hd Hc Hf [Hm1 Hm2]%andb_true_iff [Hj1 Hj2]%andb_true_iff.
  split; unfold exp_policy; cbn [attempts backoff delay multiplier jitter removeOnComplete removeOnFail].
  - by exists a.
  - by exists d.
  - intros x [= <-]. by apply num_leb_between.
  - intros x [= <-]. by apply num_leb_between.
  - split; by apply keep_count.
Qed.

Lemma default_safe j : safe (DEFAULT_RETRY_POLICIES j).
Proof.
  destruct j; unfold DEFAULT_RETRY_POLICIES; try (apply exp_policy_safe; [lia..|vm_compute; reflexivity|vm_compute; reflexivity]).
  split; cbn [attempts backoff delay multiplier jitter removeOnComplete removeOnFail]; try done.
  - exists 2. split; [exact eq_refl|]. unfold MAX_RETRY_ATTEMPTS. lia.
  - exists 5000. split; [exact eq_refl|]. unfold MIN_BACKOFF_DELAY, MAX_BACKOFF_DELAY. lia.
Qed.

(** Every job type has a safe policy. *)
Definition all_safe (m : policies) : Prop := forall j, exists p, map_get j m = Some p /\ safe p.

Lemma defaults_loaded : exists m, load_defaults = Ok m /\ all_safe m.
Proof.
  eexists. split.
  - unfold load_defaults, default_entries. cbn [foldl]. rewrite !put_valid by (apply safe_valid, default_safe). reflexivity.
  - intros j. exists (DEFAULT_RETRY_POLICIES j). split; [by destruct j|apply default_safe].
Qed.

Lemma apply_all_safe l m : all_safe m -> Forall (fun x => safe_override x.2) l ->
  exists m', foldl apply_override (Ok m) l = Ok m' /\ all_safe m'.
Proof.
  intros Hm Hl. revert m Hm. induction Hl as [|[j o] l Ho _ IH]; intros m Hm; [by exists m|]. cbn [foldl].
  destruct (Hm j) as (p & Hp & Hs). unfold apply_override at 2. cbn [fst snd]. rewrite Hp. cbn [default option_rect].
  pose proof (merge_safe p o Hs Ho) as Hms. rewrite put_valid by (by apply safe_valid).
  apply IH. intros i. destruct (decide (j = i)) as [<-|Hne].
  - eexists. rewrite map_get_set_eq. by split.
  - rewrite map_get_set_ne by done. apply Hm.
Qed.

(** ** Properties *)

(** Whatever the environment holds, the retry policies initialise, and
    every job type gets whole attempts from 1 to 10, a whole delay from 1 to
    300000 ms, a multiplier from 1 to 10 and a jitter from 0 to 1. *)
Theorem env_policies_safe env : exists m, initializePolicies env = Ok m /\ all_safe m.
Proof.
  destruct defaults_loaded as (m & E & Hm). unfold initializePolicies. rewrite E. apply apply_all_safe; [done|].
  apply Forall_forall. intros [j o] (i & _ & H)%list_elem_of_omap. apply fmap_Some in H as (o' & Ho & [= -> ->]).
  by apply job_override_safe in Ho.
Qed.

(** C20: registering, updating and resetting policies keeps one valid policy per
    job type: attempts and delays within their limits, jitter between 0 and 1,
    the multiplier of an exponential backoff positive and at most 10 — or NaN,
    which passes every check. *)
Theorem policies_stay_valid os m j :
  manager_ok m -> exists p, getRetryPolicy j (run os m) = Ok p /\
    bounded 0 (attempts p) MAX_RETRY_ATTEMPTS /\ bounded 0 (delay (backoff p)) MAX_BACKOFF_DELAY /\
    (forall x, jitter (backoff p) = Some x -> bounded 0 x 1) /\
    (forall x, type (backoff p) = exponential -> multiplier (backoff p) = Some x -> bounded 0 x 10 /\ x <> of_int 0).
Proof.
  intros H. assert (Hr : manager_ok (run os m)).
  { revert m H. induction os as [|o os IH]; intros m H; [done|]. by apply IH, exec_manager_ok. }
  destruct (Hr j) as (p & Hp & Hv). exists p. unfold getRetryPolicy. rewrite Hp. split; [done|]. by apply valid_bounds.
Qed.
End Manager.
End RetryPolicies.

Import RetryPolicies.

Lemma policies_stay_valid_witness :
  exists p, getRetryPolicy (DEFAULT_RETRY_POLICIES REPUTATION_UPDATE) BLOCKCHAIN_SYNC
    (run (DEFAULT_RETRY_POLICIES REPUTATION_UPDATE) [OReset EMAIL_NOTIFICATION] ((fun j => (j, DEFAULT_RETRY_POLICIES j)) <$> job_types)) = Ok p /\
    bounded 0 (attempts p) 10.
Proof.
  destruct (policies_stay_valid (DEFAULT_RETRY_POLICIES REPUTATION_UPDATE) [OReset EMAIL_NOTIFICATION]
    ((fun j => (j, DEFAULT_RETRY_POLICIES j)) <$> job_types) BLOCKCHAIN_SYNC) as (p & H1 & H2 & _).
  - intros j. exists (DEFAULT_RETRY_POLICIES j). split; [by destruct j|apply safe_valid, default_safe].
  - exists p. exact (conj H1 H2).
Defined.

Definition sample_env (name val : string) (k : string) : option string := if String.eqb k name then Some val else None.

(** Overriding only the delay of a fixed policy makes it exponential; overriding
    only the jitter resets the delay to two seconds. *)
Example delay_override_changes_type :
  option_map (fun o => type <$> o_backoff o) (job_override (sample_env "RETRY_POLICY_REPUTATION_UPDATE_DELAY" "9000") REPUTATION_UPDATE)
    = Some (Some exponential) /\ type (backoff (DEFAULT_RETRY_POLICIES REPUTATION_UPDATE)) = fixed.
Proof. vm_compute. done. Qed.

Example jitter_override_resets_delay :
  option_map (fun o => delay <$> o_backoff o) (job_override (sample_env "RETRY_POLICY_BLOCKCHAIN_SYNC_JITTER" "0.5") BLOCKCHAIN_SYNC)
    = Some (Some (of_int 2000)) /\ delay (backoff (DEFAULT_RETRY_POLICIES BLOCKCHAIN_SYNC)) = of_int 5000.
Proof. vm_compute. done. Qed.

(** A policy of NaNs passes validation. *)
Example nan_policy_valid :
  let p := {| attempts := NaN; backoff := {| type := exponential; delay := NaN; multiplier := Some NaN; jitter := Some NaN |};
              removeOnComplete := KeepCount NaN; removeOnFail := KeepCount NaN |} in validatePolicy p = Ok p.
Proof. done. Qed.
