(* ===== verification/QueueManager.v ===== *)
(** * The queue manager: src/queue/queue-manager.ts

    BullMQ is a parameter: a class [JobQueue] with the operations the manager
    calls and their documented laws (adding a job under an id that exists does
    nothing).  What other clients do to a queue between two awaits of [addJob]
    is a function of the queue.  Executions of jobs are turns: a processor
    starts, its timeout fires, it settles.  Events that are only logged and the
    health figures are not represented. *)

From stdpp Require Import prelude strings sorting.
From Stdlib Require Import ZArith Lia.
From S2P Require Import Prelude JsMap JsValue RetryPolicies.
Import RetryPolicies.
Open Scope Z_scope.

(** ** The first elements of a stable sort *)

Section TopSort.
Context {A : Type} (key : A -> Z).

Lemma insert_by_at a P R :
  Forall (fun y => key y < key a) P -> Forall (fun y => key a <= key y) R -> insert_by key a (P ++ R) = P ++ a :: R.
Proof.
  intros HP HR. induction HP as [|y P Hy _ IH]; simpl.
  - destruct HR as [|y R Hy _]; simpl; [done|]. by rewrite bool_decide_eq_true_2.
  - rewrite bool_decide_eq_false_2 by lia. by rewrite IH.
Qed.

(** A sorted list splits at a key. *)
Lemma sorted_split l k : key_sorted key l ->
  exists P R, l = P ++ R /\ Forall (fun y => key y < k) P /\ Forall (fun y => k <= key y) R.
Proof.
  induction 1 as [|y l _ (P & R & -> & HP & HR) Hy]; [by exists [], []|].
  destruct (Z.lt_ge_cases (key y) k).
  - exists (y :: P), R. split; [done|]. split; [by constructor|done].
  - exists [], (y :: P ++ R). split; [done|]. split; [done|]. constructor; [done|].
    eapply Forall_impl; [exact Hy|]. simpl. lia.
Qed.

(** Where an element ends up: after everything before it with a key that is not
    larger. *)
Lemma sort_by_position l x r :
  exists P R, sort_by key (l ++ x :: r) = P ++ x :: R /\ sort_by key (l ++ r) = P ++ R /\
    Forall (fun y => key y <= key x) P /\ Forall (fun y => key x <= key y) R /\
    (length (filter (fun y => (key y <= key x)%Z) l) <= length P)%nat.
Proof.
  induction l as [|a l (P & R & E1 & E2 & HP & HR & Hlen)]; simpl.
  - destruct (sorted_split (sort_by key r) (key x) (sort_by_sorted key r)) as (P & R & E & HP & HR).
    exists P, R. rewrite E, insert_by_at by done. split; [done|]. split; [done|].
    split; [eapply Forall_impl; [exact HP|simpl; lia]|]. split; [done|simpl; lia].
  - pose proof (sort_by_sorted key (l ++ r)) as Hs. rewrite E2 in Hs.
    rewrite E1, E2. destruct (Z.le_gt_cases (key a) (key x)) as [Hle|Hgt].
    + assert (HsP : key_sorted key P) by (by apply StronglySorted_app_1_l in Hs).
      destruct (sorted_split P (key a) HsP) as (P1 & P2 & -> & H1 & H2). exists (P1 ++ a :: P2), R.
      assert (HRa : Forall (fun y => key a <= key y) R) by (eapply Forall_impl; [exact HR|simpl; lia]).
      apply Forall_app in HP as [HP1 HP2].
      split; [|split; [|split; [|split; [done|]]]].
      * rewrite <- (assoc (++)), insert_by_at; [by rewrite <- (assoc (++))|done|].
        apply Forall_app. split; [done|]. by constructor.
      * rewrite <- (assoc (++)), insert_by_at; [by rewrite <- (assoc (++))|done|]. apply Forall_app. by split.
      * apply Forall_app. split; [done|]. by constructor.
      * rewrite filter_cons_True by done. rewrite length_app in *. simpl in *. lia.
    + assert (HsR : key_sorted key R) by (by apply StronglySorted_app_1_r in Hs).
      destruct (sorted_split R (key a) HsR) as (R1 & R2 & -> & H1 & H2). exists P, (R1 ++ a :: R2).
      assert (HPa : Forall (fun y => key y < key a) P) by (eapply Forall_impl; [exact HP|simpl; lia]).
      apply Forall_app in HR as [HR1 HR2].
      split; [|split; [|split; [done|split]]].
      * change (P ++ x :: R1 ++ R2) with (P ++ (x :: R1) ++ R2). rewrite (assoc (++)), insert_by_at; [by rewrite <- (assoc (++))| |done].
        apply Forall_app. split; [done|]. constructor; [lia|done].
      * rewrite (assoc (++)), insert_by_at; [by rewrite <- (assoc (++))| |done]. apply Forall_app. by split.
      * apply Forall_app. split; [done|]. constructor; [lia|done].
      * rewrite filter_cons_False by lia. done.
Qed.

(** An element with [n] others before it that are not larger is not among the
    first [n]. *)
Lemma sort_by_take_drop n l x r :
  (n <= length (filter (fun y => (key y <= key x)%Z) l))%nat ->
  take n (sort_by key (l ++ x :: r)) = take n (sort_by key (l ++ r)).
Proof.
  intros Hn. destruct (sort_by_position l x r) as (P & R & -> & -> & _ & _ & HP).
  by rewrite !take_app_le by lia.
Qed.

(** Only the first [n] of a sorted part matter. *)
Lemma sort_by_take_part n l q r : key_sorted key q ->
  take n (sort_by key (l ++ q ++ r)) = take n (sort_by key (l ++ take n q ++ r)).
Proof.
  intros Hq. rewrite <- (take_drop n q) at 1. rewrite <- (take_drop n q) in Hq.
  set (p := take n q) in *. set (d := drop n q) in *.
  assert (Hp : d <> [] -> length p = n).
  { subst p d. intros Hd. rewrite length_take. assert (n < length q)%nat; [|lia].
    destruct (Nat.lt_ge_cases n (length q)); [done|]. by rewrite drop_ge in Hd. }
  clearbody p d. revert Hp Hq. induction d as [|x d IH] using rev_ind; intros Hp Hq; [by rewrite app_nil_r|].
  replace (l ++ (p ++ d ++ [x]) ++ r) with ((l ++ p ++ d) ++ x :: r) by (by rewrite <- !(assoc (++))).
  rewrite sort_by_take_drop.
  - rewrite <- IH; [f_equal; f_equal; by rewrite <- !(assoc (++))| |].
    + intros _. apply Hp. by destruct d.
    + rewrite (assoc (++)) in Hq. by apply StronglySorted_app_1_l in Hq.
  - assert (Hle : Forall (fun y => key y <= key x) p).
    { rewrite (assoc (++)) in Hq. apply Forall_forall. intros y Hy.
      eapply (StronglySorted_app_1_elem_of _ _ _ _ _ Hq); [apply elem_of_app; by left|by left]. }
    rewrite !filter_app, !length_app. rewrite (filter_keep_all _ p Hle). rewrite Hp by (by destruct d). lia.
Qed.

Lemma sort_by_take_parts n qs l : Forall (key_sorted key) qs ->
  take n (sort_by key (l ++ mjoin (take n <$> qs))) = take n (sort_by key (l ++ mjoin qs)).
Proof.
  intros Hq. revert l. induction Hq as [|q qs Hq _ IH]; intros l; [done|]. simpl.
  rewrite (sort_by_take_part n l q (mjoin qs) Hq), (assoc (++)), IH. by rewrite <- (assoc (++)).
Qed.
End TopSort.

Module Queues.

Notation payload := (list (string * value)) (only parsing).

Inductive job_state : Type := waiting | active | delayed | prioritized | waiting_children | completed | failed | unknown.

#[export] Instance job_state_eq_dec : EqDecision job_state.
Proof. solve_decision. Defined.

Record job : Type := {
  job_id : string;
  job_name : string;
  job_data : payload;
  state_of : job_state;
  failedReason : option string;
  attemptsMade : Z;
  finishedOn : option Z;
  timestamp : Z;
}.

(** ** BullMQ *)

Class JobQueue (Q : Type) := {
  q_get : string -> Q -> option job;                  (* getJob *)
  q_add : JobType -> option string -> payload -> Q -> string * Q;   (* add *)
  q_failed : Q -> list job;                           (* getJobs(['failed'], ..., false): newest first *)
  q_count : job_state -> Q -> Z;                      (* getWaitingCount, getActiveCount, ... *)
}.

(** Newest first: the order of BullMQ's failed set. *)
Definition failed_age (j : job) : Z := - default 0 (finishedOn j).

(** A job that has not finished. *)
Definition live (s : job_state) : bool := bool_decide (s ∈ [waiting; active; delayed; prioritized; waiting_children]).

Class JobQueueLaws (Q : Type) `{JobQueue Q} := {
  add_existing : forall t i d q, is_Some (q_get i q) -> q_add t (Some i) d q = (i, q);
  add_new : forall t i d q, q_get i q = None -> (q_add t (Some i) d q).1 = i /\
    (exists j, q_get i (q_add t (Some i) d q).2 = Some j /\ job_data j = d /\ live (state_of j) = true) /\
    forall i', i' <> i -> q_get i' (q_add t (Some i) d q).2 = q_get i' q;
  add_auto : forall t d q, let '(i, q') := q_add t None d q in
    q_get i q = None /\ (exists j, q_get i q' = Some j /\ job_data j = d) /\ forall i', i' <> i -> q_get i' q' = q_get i' q;
  failed_newest_first : forall q, key_sorted failed_age (q_failed q);
}.

(** ** The manager *)

Inductive error : Type :=
| NotAcceptingQueues | NotAcceptingJobs | NotInitialized (j : JobType) | JobNotFound (i : string) | NotFailed (i : string)
| AlreadyActive (key : string).

Inductive exec_state : Type := Running | TimedOut | Settled.

Section Manager.
Context {Q : Type} `{JobQueue Q}.

Record manager : Type := {
  queues : list (JobType * Q);
  workers : list JobType;                      (* open workers, queues and event streams *)
  acceptingJobs : bool;
  isShuttingDown : bool;
  executions : list (string * exec_state);     (* the processor promises, by index *)
  activeExecutions : list (string * nat);
}.

Definition with_queue (j : JobType) (q : Q) (m : manager) : manager :=
  {| queues := map_set j q (queues m); workers := workers m; acceptingJobs := acceptingJobs m;
     isShuttingDown := isShuttingDown m; executions := executions m; activeExecutions := activeExecutions m |}.

(** [stored]: what Redis holds for the queue. *)
Definition initializeQueue (j : JobType) (stored : Q) (m : manager) : result error unit * manager :=
  if negb (acceptingJobs m) then (Err NotAcceptingQueues, m)
  else if map_has j (queues m) then (Ok tt, m)
  else (Ok tt, {| queues := map_set j stored (queues m); workers := workers m ++ [j]; acceptingJobs := acceptingJobs m;
                  isShuttingDown := isShuttingDown m; executions := executions m; activeExecutions := activeExecutions m |}).

Record AddJobOptions : Type := { dedupeKey : option string; correlationId : option string; requestId : option string }.

Record AddJobResult : Type := { jobId : string; deduplicated : bool }.

Definition set_truthy (k : string) (v : option string) (p : payload) : payload :=
  match v with None | Some EmptyString => p | Some s => map_set k (VString s) p end.

Definition enrich (o : AddJobOptions) (p : payload) : payload :=
  set_truthy "requestId" (requestId o) (set_truthy "correlationId" (correlationId o) p).

Definition job_key (o : AddJobOptions) : option string :=
  match dedupeKey o with None | Some EmptyString => None | Some k => Some k end.

(** The pre-check that sets the answer's flag. *)
Definition pending_duplicate (o : AddJobOptions) (q : Q) : bool :=
  match job_key o ≫= fun k => q_get k q with
  | Some j => negb (bool_decide (state_of j ∈ [completed; failed; unknown]))
  | None => false
  end.

Definition addJob (between : Q -> Q) (t : JobType) (p : payload) (o : AddJobOptions) (m : manager)
  : result error AddJobResult * manager :=
  if negb (acceptingJobs m) then (Err NotAcceptingJobs, m)
  else
    match map_get t (queues m) with
    | None => (Err (NotInitialized t), m)
    | Some q =>
        let dup := pending_duplicate o q in
        let '(i, q') := q_add t (job_key o) (enrich o p) (between q) in
        (Ok {| jobId := i; deduplicated := dup |}, with_queue t q' m)
    end.

Definition buildReplayJobId (t : JobType) (i : string) : string := ("replay:" +:+ job_text t +:+ ":" +:+ i)%string.

Record ReplayJobResult : Type := { replayJobId : string; replay_deduplicated : bool; originalJobId : string; replay_type : JobType }.

Definition reprocessFailedJob (t : JobType) (i : string) (m : manager) : result error ReplayJobResult * manager :=
  match map_get t (queues m) with
  | None => (Err (NotInitialized t), m)
  | Some q =>
      match q_get i q with
      | None => (Err (JobNotFound i), m)
      | Some j =>
          if bool_decide (state_of j = failed) then
            let r := buildReplayJobId t i in
            let answer dup := {| replayJobId := r; replay_deduplicated := dup; originalJobId := i; replay_type := t |} in
            match q_get r q with
            | Some _ => (Ok (answer true), m)
            | None => (Ok (answer false), with_queue t (q_add t (Some r) (job_data j) q).2 m)
            end
          else (Err (NotFailed i), m)
      end
  end.

(** ** Failed jobs *)

Record FailedJobEntry : Type := {
  f_jobId : string; f_jobType : JobType; f_name : string; f_data : payload; f_reason : option string; f_attempts : Z;
  f_finishedOn : option Z; f_timestamp : Z; replayDeduplicationKey : string;
}.

Definition toFailedJobEntry (t : JobType) (j : job) : FailedJobEntry :=
  {| f_jobId := job_id j; f_jobType := t; f_name := job_name j; f_data := job_data j; f_reason := failedReason j;
     f_attempts := attemptsMade j; f_finishedOn := finishedOn j; f_timestamp := timestamp j;
     replayDeduplicationKey := buildReplayJobId t (job_id j) |}.

(** [getJobs(['failed'], from, to, false)]: both ends included. *)
Definition failed_slice (from count : nat) (q : Q) : list job := take count (drop from (q_failed q)).

Definition newest (e : FailedJobEntry) : Z := - default 0 (f_finishedOn e).

Definition getFailedJobs (t : option JobType) (limit offset : option Z) (m : manager) : result error (list FailedJobEntry) :=
  let n := Z.to_nat (Z.min (Z.max (default 50 limit) 1) 100) in
  let o := Z.to_nat (Z.max (default 0 offset) 0) in
  match t with
  | Some j =>
      match map_get j (queues m) with
      | None => Err (NotInitialized j)
      | Some q => Ok (toFailedJobEntry j <$> failed_slice o n q)
      end
  | None =>
      let all := (fun e => toFailedJobEntry e.1 <$> failed_slice 0 (o + n) e.2) <$> queues m in
      Ok (take n (drop o (sort_by newest (mjoin all))))
  end.

(** ** Executions *)

Definition with_executions (es : list (string * exec_state)) (a : list (string * nat)) (m : manager) : manager :=
  {| queues := queues m; workers := workers m; acceptingJobs := acceptingJobs m; isShuttingDown := isShuttingDown m;
     executions := es; activeExecutions := a |}.

Definition buildExecutionKey (t : JobType) (i : string) : string := (job_text t +:+ ":" +:+ i)%string.

(** [runProcessorWithTimeout] up to the start of the processor: the index of
    the execution. *)
Definition start_execution (key : string) (m : manager) : result error nat * manager :=
  if map_has key (activeExecutions m) then (Err (AlreadyActive key), m)
  else let n := length (executions m) in
       (Ok n, with_executions (executions m ++ [(key, Running)]) (map_set key n (activeExecutions m)) m).

(** The timer fires: the caller is rejected, the processor keeps running. *)
Definition fire_timeout (n : nat) (m : manager) : manager :=
  match executions m !! n with
  | Some (key, Running) => with_executions (<[n := (key, TimedOut)]> (executions m)) (activeExecutions m) m
  | _ => m
  end.

(** The processor settles: the [finally] of [cleanupPromise]. *)
Definition settle (n : nat) (m : manager) : manager :=
  match executions m !! n with
  | Some (key, Running) | Some (key, TimedOut) =>
      let a := if bool_decide (map_get key (activeExecutions m) = Some n) then map_delete key (activeExecutions m)
               else activeExecutions m in
      with_executions (<[n := (key, Settled)]> (executions m)) a m
  | _ => m
  end.

(** ** Reading *)

Definition getJobStatus (t : JobType) (i : string) (m : manager) : result error (option job) :=
  match map_get t (queues m) with
  | None => Err (NotInitialized t)
  | Some q => Ok (q_get i q)
  end.

Record QueueHealthInfo : Type := {
  h_jobType : JobType; isInitialized : bool; h_waiting : Z; h_active : Z; h_completed : Z; h_failed : Z; h_delayed : Z; paused : bool;
}.

(** [running]: [worker.isRunning()] of each worker. *)
Definition queue_health (running : JobType -> bool) (m : manager) (t : JobType) : QueueHealthInfo :=
  match map_get t (queues m) with
  | Some q =>
      if bool_decide (t ∈ workers m) then
        {| h_jobType := t; isInitialized := true; h_waiting := q_count waiting q; h_active := q_count active q;
           h_completed := q_count completed q; h_failed := q_count failed q; h_delayed := q_count delayed q;
           paused := negb (running t) |}
      else {| h_jobType := t; isInitialized := false; h_waiting := 0; h_active := 0; h_completed := 0; h_failed := 0;
              h_delayed := 0; paused := false |}
  | None => {| h_jobType := t; isInitialized := false; h_waiting := 0; h_active := 0; h_completed := 0; h_failed := 0;
               h_delayed := 0; paused := false |}
  end.

Definition getHealth (running : JobType -> bool) (m : manager) : list QueueHealthInfo :=
  queue_health running m <$> job_types.

Record FailedJobInfo : Type := { r_jobId : string; r_jobType : JobType; failedAt : Z; r_error : string }.

Definition toFailedJobInfo (now : Z) (t : JobType) (j : job) : FailedJobInfo :=
  {| r_jobId := job_id j; r_jobType := t; failedAt := default now (finishedOn j);
     r_error := default "Unknown error"%string (failedReason j) |}.

(** [getFailed(0, limit)] includes its end. *)
Definition getRecentFailures (now : Z) (limit : nat) (m : manager) : list FailedJobInfo :=
  take limit (sort_by (fun e => - failedAt e)
    (mjoin ((fun e => toFailedJobInfo now e.1 <$> failed_slice 0 (S limit) e.2) <$> queues m))).

(** ** Shutdown *)

Definition stopAccepting (m : manager) : manager :=
  {| queues := queues m; workers := workers m; acceptingJobs := false; isShuttingDown := true;
     executions := executions m; activeExecutions := activeExecutions m |}.

(** [drain]: the sweeps over the queues' active counts, one snapshot each; the
    number of sweeps made, when one finds every queue idle. *)
Fixpoint drain (sweeps : list (list Q)) (n : nat) : option nat :=
  match sweeps with
  | [] => None
  | s :: rest => if forallb (fun q => bool_decide (q_count active q = 0)) s then Some n else drain rest (S n)
  end.

(** [shutdown] up to the promises of the closing calls: are there any? *)
Definition shutdown_begin (m : manager) : bool * manager :=
  if bool_decide (queues m = [] /\ workers m = []) then
    (false, {| queues := queues m; workers := workers m; acceptingJobs := false; isShuttingDown := false;
               executions := executions m; activeExecutions := activeExecutions m |})
  else if isShuttingDown m then (false, m)
  else (true, {| queues := queues m; workers := workers m; acceptingJobs := false; isShuttingDown := true;
                 executions := executions m; activeExecutions := activeExecutions m |}).

(** ... and after them. *)
Definition shutdown_end (m : manager) : manager :=
  {| queues := []; workers := []; acceptingJobs := acceptingJobs m; isShuttingDown := false;
     executions := executions m; activeExecutions := [] |}.

Definition shutdown (m : manager) : manager :=
  let '(closing, m') := shutdown_begin m in if closing then shutdown_end m' else m'.

Definition close (m : manager) : manager := shutdown m.
End Manager.

(** ** Jobs *)

Section Jobs.
Context {Q : Type} `{JobQueueLaws Q}.

Lemma map_get_with_queue t q (m : manager (Q:=Q)) : map_get t (queues (with_queue t q m)) = Some q.
Proof. apply map_get_set_eq. Qed.

(** [addJob] under a dedupe key, whatever other clients do to the queue
    between the check and the add: the answer's id is the key; a job that holds
    the key at the add is kept and nothing is enqueued, otherwise exactly one job
    with the enriched payload is enqueued under it and no other job is touched;
    the [deduplicated] flag says whether the job found at the check had not
    finished. *)
Theorem addJob_dedupe_spec between t p o k q (m : manager (Q:=Q)) :
  acceptingJobs m = true -> map_get t (queues m) = Some q -> job_key o = Some k ->
  exists q', addJob between t p o m =
      (Ok {| jobId := k; deduplicated := match q_get k q with Some j => live (state_of j) | None => false end |},
       with_queue t q' m) /\
    match q_get k (between q) with
    | Some _ => q' = between q
    | None => (exists j, q_get k q' = Some j /\ job_data j = enrich o p /\ live (state_of j) = true) /\
              forall i, i <> k -> q_get i q' = q_get i (between q)
    end.
Proof.
  intros Ha Hq Hk. unfold addJob, pending_duplicate. rewrite Ha, Hq, Hk. simpl.
  assert (Hflag : forall s, negb (bool_decide (s ∈ [completed; failed; unknown])) = live s) by (by intros []).
  destruct (q_get k (between q)) as [j|] eqn:E.
  - rewrite (add_existing t k (enrich o p) (between q)) by done. exists (between q).
    split; [|done]. by destruct (q_get k q); rewrite ?Hflag.
  - destruct (add_new t k (enrich o p) (between q) E) as (H1 & H2 & H3).
    destruct (q_add t (Some k) (enrich o p) (between q)) as [i q'] eqn:Eq. simpl in *. subst i.
    exists q'. split; [|done]. by destruct (q_get k q); rewrite ?Hflag.
Qed.

Lemma buildReplayJobId_ne t i : buildReplayJobId t i <> i.
Proof.
  intros E. apply (f_equal String.length) in E. revert E. unfold buildReplayJobId.
  assert (Happ : forall a b, String.length (a +:+ b) = (String.length a + String.length b)%nat)
    by (induction a; simpl; intros; [done|f_equal; auto]).
  rewrite !Happ. simpl. lia.
Qed.

(** Replaying a failed job enqueues it once: the first call puts a job with
    the same data under the replay id and leaves the failed job and every other
    job as they were, and a second call answers [deduplicated] and changes
    nothing. *)
Theorem replay_once t i j q (m : manager (Q:=Q)) :
  map_get t (queues m) = Some q -> q_get i q = Some j -> state_of j = failed -> q_get (buildReplayJobId t i) q = None ->
  exists m' q',
    reprocessFailedJob t i m =
      (Ok {| replayJobId := buildReplayJobId t i; replay_deduplicated := false; originalJobId := i; replay_type := t |}, m') /\
    map_get t (queues m') = Some q' /\
    (exists r, q_get (buildReplayJobId t i) q' = Some r /\ job_data r = job_data j /\ live (state_of r) = true) /\
    (forall i', i' <> buildReplayJobId t i -> q_get i' q' = q_get i' q) /\
    reprocessFailedJob t i m' =
      (Ok {| replayJobId := buildReplayJobId t i; replay_deduplicated := true; originalJobId := i; replay_type := t |}, m').
Proof.
  intros Hq Hj Hf Hn. unfold reprocessFailedJob at 1. rewrite Hq, Hj, bool_decide_eq_true_2, Hn by done.
  destruct (add_new t (buildReplayJobId t i) (job_data j) q Hn) as (_ & (r & Hr & Hd & Hl) & Hother).
  set (q' := (q_add t (Some (buildReplayJobId t i)) (job_data j) q).2) in *.
  exists (with_queue t q' m), q'. split; [done|]. rewrite map_get_with_queue. split; [done|]. split; [by exists r|].
  split; [done|]. unfold reprocessFailedJob. rewrite map_get_with_queue, Hother, Hj by (by apply not_eq_sym, buildReplayJobId_ne).
  by rewrite bool_decide_eq_true_2, Hr.
Qed.

(** Every failed job of every queue, as entries. *)
Definition all_failed (m : manager (Q:=Q)) : list FailedJobEntry :=
  mjoin ((fun e => toFailedJobEntry e.1 <$> q_failed e.2) <$> queues m).

Lemma failed_entries_sorted t (q : Q) : key_sorted newest (toFailedJobEntry t <$> q_failed q).
Proof.
  eapply (StronglySorted_fmap (toFailedJobEntry t) (fun x y => failed_age x <= failed_age y)); [done|apply failed_newest_first].
Qed.

(** The page of failed jobs over all queues is exact although only a prefix
    of each queue is fetched: it is the requested slice of all failed jobs of all
    queues ordered by the time they finished, newest first.  The size of a page
    is kept between 1 and 100. *)
Theorem failed_page_exact limit offset (m : manager (Q:=Q)) :
  let n := Z.to_nat (Z.min (Z.max (default 50 limit) 1) 100) in
  let o := Z.to_nat (Z.max (default 0 offset) 0) in
  getFailedJobs None limit offset m = Ok (take n (drop o (sort_by newest (all_failed m)))) /\ (1 <= n <= 100)%nat.
Proof.
  intros n o. split; [|lia].
  assert (Hs : Forall (key_sorted newest) ((fun e => toFailedJobEntry e.1 <$> q_failed e.2) <$> queues m))
    by (apply Forall_fmap, Forall_true; intros [t q]; apply failed_entries_sorted).
  unfold getFailedJobs. fold n o. f_equal.
  rewrite !take_drop_commute. f_equal. unfold all_failed.
  etrans; [|exact (sort_by_take_parts newest (o + n) ((fun e => toFailedJobEntry e.1 <$> q_failed e.2) <$> queues m) [] Hs)].
  simpl. do 3 f_equal. rewrite <- list_fmap_compose. apply list_fmap_ext. intros i [t q] _. simpl.
  unfold failed_slice. by rewrite drop_0, fmap_take.
Qed.
End Jobs.

(** ** Executions *)

Section Executions.
Context {Q : Type} `{JobQueue Q}.

Inductive exec_event : Type := Start (key : string) | Timeout (n : nat) | Settle (n : nat).

Definition exec_step (e : exec_event) (m : manager (Q:=Q)) : manager :=
  match e with
  | Start k => (start_execution k m).2
  | Timeout n => fire_timeout n m
  | Settle n => settle n m
  end.

Definition exec_run (es : list exec_event) (m : manager (Q:=Q)) : manager := foldl (fun m e => exec_step e m) m es.

(** The processor of execution [n], for [key], has not settled. *)
Definition unsettled (m : manager (Q:=Q)) (key : string) (n : nat) : Prop :=
  executions m !! n = Some (key, Running) \/ executions m !! n = Some (key, TimedOut).

Definition tracked (m : manager (Q:=Q)) : Prop :=
  forall key n, map_get key (activeExecutions m) = Some n <-> unsettled m key n.

Lemma tracked_step e m : tracked m -> tracked (exec_step e m).
Proof.
  unfold tracked, unsettled. intros Hm. destruct e as [k|n|n]; simpl.
  - unfold start_execution, map_has. destruct (map_get k (activeExecutions m)) as [n0|] eqn:Ek; [done|]. simpl.
    intros key n. destruct (decide (n = length (executions m))) as [->|Hn].
    + rewrite lookup_app_r, Nat.sub_diag by lia. simpl. split.
      * intros [[-> _]|[_ Hg]]%map_get_set_inv; [by left|]. apply Hm in Hg as [Hl|Hl]; apply lookup_lt_Some in Hl; lia.
      * intros [?|?]; simplify_eq. apply map_get_set_eq.
    + assert (Hl : (executions m ++ [(k, Running)]) !! n = executions m !! n).
      { destruct (Nat.lt_ge_cases n (length (executions m))); [by apply lookup_app_l|].
        rewrite lookup_app_r, (lookup_ge_None_2 (executions m)) by lia. by destruct (n - _)%nat eqn:?; [lia|]. }
      rewrite Hl, <- Hm. split.
      * intros [[_ ?]|[_ Hg]]%map_get_set_inv; [lia|done].
      * intros Hg. rewrite map_get_set_ne; [done|]. intros <-. by rewrite Ek in Hg.
  - unfold fire_timeout. destruct (executions m !! n) as [[k []]|] eqn:En; try done. simpl. intros key i.
    rewrite Hm. destruct (decide (i = n)) as [->|Hi]; [|by rewrite list_lookup_insert_ne by done].
    rewrite list_lookup_insert_eq by (by eapply lookup_lt_Some). naive_solver.
  - unfold settle. destruct (executions m !! n) as [[k s]|] eqn:En; [|done].
    destruct s; try done; simpl; rewrite bool_decide_eq_true_2 by (apply Hm; auto); simpl; intros key i;
      (destruct (decide (i = n)) as [->|Hi];
       [rewrite list_lookup_insert_eq by (by eapply lookup_lt_Some)
       |rewrite list_lookup_insert_ne by done; rewrite <- Hm]).
    all: destruct (decide (key = k)) as [->|Hk];
      [rewrite map_get_delete_eq | rewrite map_get_delete_ne by done].
    all: try (split; [done|naive_solver]).
    all: try done.
    all: try (rewrite Hm, En; naive_solver).
    all: assert (Hkn : map_get k (activeExecutions m) = Some n) by (apply Hm; auto); rewrite Hkn; split; [done|congruence].
Qed.

Lemma tracked_run es m : tracked m -> tracked (exec_run es m).
Proof. revert m. induction es as [|e es IH]; intros m Hm; [done|]. by apply IH, tracked_step. Qed.

(** Whatever the interleaving of deliveries, timeouts and settlements, a job
    never runs twice at once: at most one execution of a key is unsettled, one
    whose timeout has fired included, and a delivery is refused exactly while
    such an execution exists. *)
Theorem single_execution es m :
  executions m = [] -> activeExecutions m = [] ->
  let m' := exec_run es m in
  (forall key n1 n2, unsettled m' key n1 -> unsettled m' key n2 -> n1 = n2) /\
  (forall key, (start_execution key m').1 = Err (AlreadyActive key) <-> exists n, unsettled m' key n).
Proof.
  intros He Ha m'. assert (Ht : tracked m').
  { apply tracked_run. intros key n. unfold unsettled. rewrite He, Ha. naive_solver. }
  split.
  - intros key n1 n2 H1%Ht H2%Ht. congruence.
  - intros key. unfold start_execution, map_has. destruct (map_get key (activeExecutions m')) as [n|] eqn:E; simpl.
    + split; [|done]. intros _. exists n. by apply Ht.
    + split; [done|]. intros [n Hn%Ht]. congruence.
Qed.
End Executions.

(** ** Shutdown *)

(** [shutdown] of a manager that is running releases every queue and worker,
    forgets the executions, and from then on refuses every job and every new
    queue; repeating it changes nothing.  But once [stopAccepting] has run, as
    the shutdown sequence does first, [close] returns early and releases
    nothing. *)
Theorem shutdown_releases {Q : Type} `{JobQueue Q} (m : manager (Q:=Q)) :
  isShuttingDown m = false ->
  let m' := shutdown m in
  (queues m' = [] /\ workers m' = [] /\ acceptingJobs m' = false /\ isShuttingDown m' = false /\ shutdown m' = m' /\
   (workers m <> [] -> activeExecutions m' = []) /\
   forall between t p o, addJob between t p o m' = (Err NotAcceptingJobs, m') /\
     forall stored, initializeQueue t stored m' = (Err NotAcceptingQueues, m')) /\
  (workers m <> [] -> close (stopAccepting m) = stopAccepting m).
Proof.
  intros Hs m'. split.
  - assert (E : m' = {| queues := []; workers := []; acceptingJobs := false; isShuttingDown := false;
                        executions := executions m; activeExecutions := activeExecutions m' |}).
    { subst m'. unfold shutdown, shutdown_begin. destruct (bool_decide _) eqn:Eb.
      - apply bool_decide_eq_true in Eb as [E1 E2]. simpl. by rewrite E1, E2.
      - rewrite Hs. done. }
    split_and!; [by rewrite E|by rewrite E|by rewrite E|by rewrite E|by rewrite E| | ].
    + intros Hw. subst m'. unfold shutdown, shutdown_begin.
      rewrite bool_decide_eq_false_2 by naive_solver. by rewrite Hs.
    + intros between t p o. split; [|intros stored]; rewrite E; done.
  - intros Hw. unfold close, shutdown, shutdown_begin. simpl.
    by rewrite bool_decide_eq_false_2 by naive_solver.
Qed.

(** ** An instance: a queue as the list of its jobs *)

Module ListQueue.

Definition find_job (i : string) (q : list job) : option job := head (filter (fun j => job_id j = i) q).

Definition new_job (t : JobType) (i : string) (d : payload) : job :=
  {| job_id := i; job_name := job_text t; job_data := d; state_of := waiting; failedReason := None; attemptsMade := 0;
     finishedOn := None; timestamp := 0 |}.

#[export] Instance list_queue : JobQueue (list job) := {
  q_get := find_job;
  q_add t o d q :=
    match o with
    | Some i => match find_job i q with Some _ => (i, q) | None => (i, q ++ [new_job t i d]) end
    | None => let i := fresh (job_id <$> q) in (i, q ++ [new_job t i d])
    end;
  q_failed q := sort_by failed_age (filter (fun j => state_of j = failed) q);
  q_count s q := Z.of_nat (length (filter (fun j => state_of j = s) q));
}.

Lemma find_job_snoc i q t i' d : find_job i' q = None ->
  find_job i (q ++ [new_job t i' d]) = if decide (i = i') then Some (new_job t i' d) else find_job i q.
Proof.
  unfold find_job. intros Hn. rewrite filter_app. destruct (decide (i = i')) as [->|Hi].
  - destruct (filter _ q); [|done]. by rewrite filter_cons_True.
  - rewrite filter_cons_False by (simpl; congruence). by rewrite app_nil_r.
Qed.

Lemma find_job_fresh q : find_job (fresh (job_id <$> q)) q = None.
Proof.
  unfold find_job. rewrite filter_keep_none; [done|]. apply Forall_forall. intros j Hj E.
  apply (infinite_is_fresh (job_id <$> q)). rewrite <- E. by apply list_elem_of_fmap_2.
Qed.

#[export] Instance list_queue_laws : JobQueueLaws (list job).
Proof.
  split.
  - intros t i d q [j Hj]. simpl in *. by rewrite Hj.
  - intros t i d q Hn. simpl in *. rewrite Hn. simpl. split; [done|]. split.
    + exists (new_job t i d). rewrite find_job_snoc, decide_True by done. done.
    + intros i' Hi. by rewrite find_job_snoc, decide_False by done.
  - intros t d q. simpl. pose proof (find_job_fresh q) as Hn. split; [done|]. split.
    + eexists. rewrite find_job_snoc, decide_True by done. done.
    + intros i' Hi. by rewrite find_job_snoc, decide_False by done.
  - intros q. apply sort_by_sorted.
Qed.

Definition sample_job (i : string) (s : job_state) (finished : option Z) : job :=
  {| job_id := i; job_name := "email"; job_data := [("to", VString "a")]; state_of := s; failedReason := Some "x";
     attemptsMade := 3; finishedOn := finished; timestamp := 1 |}.

Definition sample_manager : manager (Q:=list job) :=
  {| queues := [(EMAIL_NOTIFICATION, [sample_job "e1" failed (Some 10); sample_job "e2" completed (Some 12)]);
                (CONTRACT_PROCESSING, [sample_job "c1" failed (Some 20)])];
     workers := [EMAIL_NOTIFICATION; CONTRACT_PROCESSING]; acceptingJobs := true; isShuttingDown := false;
     executions := []; activeExecutions := [] |}.

Definition keyed (k : string) : AddJobOptions := {| dedupeKey := Some k; correlationId := Some "c"; requestId := None |}.

(** The flag says [false] although nothing was enqueued: a finished job still
    holds the key. *)
Example finished_job_swallows :
  addJob id EMAIL_NOTIFICATION [] (keyed "e2") sample_manager =
    (Ok {| jobId := "e2"; deduplicated := false |}, sample_manager).
Proof. reflexivity. Qed.

Example sample_failed_page :
  match getFailedJobs None (Some 1) (Some 1) sample_manager with Ok l => f_jobId <$> l | Err _ => [] end = ["e1"%string].
Proof. vm_compute. reflexivity. Qed.

Example sample_recent :
  r_jobId <$> getRecentFailures 0 5 sample_manager = ["c1"%string; "e1"%string].
Proof. vm_compute. reflexivity. Qed.

Lemma addJob_dedupe_spec_witness :
  exists q', addJob id EMAIL_NOTIFICATION [] (keyed "k") sample_manager =
    (Ok {| jobId := "k"; deduplicated := false |}, with_queue EMAIL_NOTIFICATION q' sample_manager).
Proof.
  destruct (addJob_dedupe_spec id EMAIL_NOTIFICATION [] (keyed "k") "k" _ sample_manager eq_refl eq_refl eq_refl) as (q' & E & _).
  exists q'. exact E.
Defined.

Lemma replay_once_witness :
  exists m', reprocessFailedJob CONTRACT_PROCESSING "c1" m' =
    (Ok {| replayJobId := buildReplayJobId CONTRACT_PROCESSING "c1"; replay_deduplicated := true; originalJobId := "c1";
           replay_type := CONTRACT_PROCESSING |}, m').
Proof.
  destruct (replay_once CONTRACT_PROCESSING "c1" (sample_job "c1" failed (Some 20)) [sample_job "c1" failed (Some 20)]
              sample_manager) as (m' & _ & _ & _ & _ & _ & E); [by vm_compute..|].
  exists m'. exact E.
Defined.

Lemma failed_page_exact_witness :
  getFailedJobs None (Some 1) (Some 1) sample_manager = Ok (take 1 (drop 1 (sort_by newest (all_failed sample_manager)))).
Proof. exact (proj1 (failed_page_exact (Some 1) (Some 1) sample_manager)). Defined.

Lemma single_execution_witness :
  let m' := exec_run [Start "a"; Timeout 0; Start "a"; Start "b"; Settle 1] sample_manager in
  (start_execution "a" m').1 = Err (AlreadyActive "a").
Proof.
  apply (proj2 (single_execution [Start "a"; Timeout 0; Start "a"; Start "b"; Settle 1] sample_manager eq_refl eq_refl) "a").
  exists 0%nat. right. reflexivity.
Defined.

Lemma shutdown_releases_witness : close (stopAccepting sample_manager) = stopAccepting sample_manager.
Proof. apply (proj2 (shutdown_releases sample_manager eq_refl)). discriminate. Defined.
End ListQueue.

End Queues.
