(* ===== verification/TokenBucket.v ===== *)
(** * Token buckets for outbound deliveries: src/rateLimit.ts

    The bucket over doubles, the in-memory store (src/lib/rateLimitStore.ts), the
    Redis store with its Lua script and its fallback, and the limiter that queues
    waiters.  A store answers at once or with a promise, so the limiter is a
    machine whose events are calls, timers and replies of the store; a waiter is
    the number of its call.  [syncLegacyStoreQueue] reads a field that the class
    does not have, so it returns at once.  The clock and the hash of a key are
    arguments. *)

From stdpp Require Import prelude strings sorting.
From Stdlib Require Import ZArith Lia.
From S2P Require Import Prelude JsMap JsValue JsArith JsString JsNumber Retry RateLimiter.
Open Scope Z_scope.

Module TokenBucket.
Import RateLimit.

(** ** One bucket *)

Record RateLimiterConfig : Type := { capacity : number; refillRatePerSec : number; maxQueueDepth : nat }.

(** [Math.ceil] *)
Definition num_ceil (x : number) : number :=
  match x with Fin u => Fin (- ((- u) / num_scale) * num_scale) | _ => x end.

Definition refilled (elapsedMs : Z) (rate : number) : number := num_mul (num_div (of_int elapsedMs) (of_int 1000)) rate.

(** [InMemoryBucketStore.consumeToken] on the entry it read. *)
Definition refill (now : Z) (cap rate : number) (o : option TokenBucketEntry) : TokenBucketEntry :=
  match o with
  | None => {| tokens := cap; lastRefillMs := now; queue := [] |}
  | Some b =>
      let elapsedMs := now - lastRefillMs b in
      if 0 <? elapsedMs then
        {| tokens := num_min cap (num_add (tokens b) (refilled elapsedMs rate)); lastRefillMs := now; queue := queue b |}
      else b
  end.

Definition take_token (b : TokenBucketEntry) : bool * TokenBucketEntry :=
  if num_leb (of_int 1) (tokens b)
  then (true, {| tokens := num_sub (tokens b) (of_int 1); lastRefillMs := lastRefillMs b; queue := queue b |})
  else (false, b).

Definition consume (now : Z) (cap rate : number) (o : option TokenBucketEntry) : bool * TokenBucketEntry :=
  take_token (refill now cap rate o).

Section Stores.
Context (hashKey : string -> string).

Definition memory_consumeToken (now : Z) (p : string) (cap rate : number) (s : RateLimitStore) : bool * RateLimitStore :=
  let '(ok, b) := consume now cap rate (getTokenBucket hashKey p s) in (ok, setTokenBucket hashKey p b s).

Definition memory_getTokenCount (p : string) (s : RateLimitStore) : option number := tokens <$> getTokenBucket hashKey p s.

(** ** Redis *)

(** A hash with its two fields and the instant it expires. *)
Record redis_hash : Type := { r_tokens : number; r_last : Z; expiresAt : Z }.

Definition ttl_seconds (cap rate : number) : number :=
  num_max (of_int 60) (num_ceil (num_mul (num_div cap rate) (of_int 2))).

(** A key that has expired is gone. *)
Definition redis_get (now : Z) (key : string) (r : list (string * redis_hash)) : option redis_hash :=
  match map_get key r with
  | Some h => if bool_decide (now < expiresAt h) then Some h else None
  | None => None
  end.

(** The script's tokens and refill time before it consumes. *)
Definition lua_refill (now : Z) (cap rate : number) (o : option redis_hash) : number * Z :=
  match o with
  | None => (cap, now)
  | Some h =>
      let elapsedMs := now - r_last h in
      if 0 <? elapsedMs then (num_min cap (num_add (r_tokens h) (refilled elapsedMs rate)), now)
      else (r_tokens h, r_last h)
  end.

(** The Lua script; EXPIRE takes the integer it is given. *)
Definition lua_consume (now : Z) (key : string) (cap rate requested : number) (r : list (string * redis_hash))
  : bool * list (string * redis_hash) :=
  let '(tok, last) := lua_refill now cap rate (redis_get now key r) in
  let '(consumed, tok') := if num_leb requested tok then (true, num_sub tok requested) else (false, tok) in
  let ttl := default 0 (to_int (ttl_seconds cap rate)) in
  (consumed, map_set key {| r_tokens := tok'; r_last := last; expiresAt := now + 1000 * ttl |} r).

Record redis_store : Type := {
  redis : list (string * redis_hash);
  keyPrefix : string;
  fallbackStore : RateLimitStore;
  isConnected : bool;
}.

Definition redis_key (p : string) (s : redis_store) : string := (keyPrefix s +:+ hashKey p)%string.

(** [eval_ok]: the command did not fail. *)
Definition redis_consumeToken (now : Z) (eval_ok : bool) (p : string) (cap rate : number) (s : redis_store) : bool * redis_store :=
  if isConnected s && eval_ok then
    let '(ok, r) := lua_consume now (redis_key p s) cap rate (of_int 1) (redis s) in
    (ok, {| redis := r; keyPrefix := keyPrefix s; fallbackStore := fallbackStore s; isConnected := isConnected s |})
  else
    let '(ok, f) := memory_consumeToken now p cap rate (fallbackStore s) in
    (ok, {| redis := redis s; keyPrefix := keyPrefix s; fallbackStore := f; isConnected := isConnected s |}).

Definition redis_getTokenCount (now : Z) (hmget_ok : bool) (p : string) (s : redis_store) : option number :=
  if isConnected s && hmget_ok then r_tokens <$> redis_get now (redis_key p s) (redis s)
  else memory_getTokenCount p (fallbackStore s).
End Stores.

(** ** The configuration: src/config/rateLimit.ts *)

Inductive config_error : Type := InvalidCapacity (raw : string) | InvalidRefill (raw : string) | InvalidDepth (raw : string).

Definition positive (x : number) : bool := is_finite x && negb (num_leb x (of_int 0)).

Definition loadWebhookTokenBucketConfig (env : string -> option string) : result config_error RateLimiterConfig :=
  let rawCapacity := default "10"%string (env "WEBHOOK_BUCKET_CAPACITY"%string) in
  let rawRefill := default "2"%string (env "WEBHOOK_REFILL_RATE_PER_SEC"%string) in
  let rawMaxQueueDepth := default "1000"%string (env "WEBHOOK_MAX_QUEUE_DEPTH"%string) in
  let capacity := js_number rawCapacity in
  let refillRatePerSec := js_number rawRefill in
  let maxQueueDepth := js_number rawMaxQueueDepth in
  if negb (positive capacity) then Err (InvalidCapacity rawCapacity)
  else if negb (positive refillRatePerSec) then Err (InvalidRefill rawRefill)
  else if negb (positive maxQueueDepth) || negb (is_integer maxQueueDepth) then Err (InvalidDepth rawMaxQueueDepth)
  else Ok {| capacity := capacity; refillRatePerSec := refillRatePerSec;
             maxQueueDepth := Z.to_nat (default 0 (to_int maxQueueDepth)) |}.

(** ** Request tiers *)

Definition toMs (v : option string) (fallback : Z) : number :=
  match v with
  | None => of_int fallback
  | Some s => let parsed := js_number s in
              if bool_decide (parsed = NaN) || num_ltb parsed (of_int 0) then of_int fallback else parsed
  end.

(** [Math.floor] *)
Definition num_floor (x : number) : number := match x with Fin u => Fin (u / num_scale * num_scale) | _ => x end.

Definition toCount (v : option string) (fallback : Z) : number :=
  match v with
  | None => of_int fallback
  | Some s => let parsed := num_floor (js_number s) in
              if bool_decide (parsed = NaN) || num_ltb parsed (of_int 1) then of_int fallback else parsed
  end.

Record tier_config : Type := {
  t_maxRequests : number; t_windowMs : number; t_abuseThreshold : number;
  t_blockWindowMs : number; t_blockDurationMs : number; t_maxBlockDurationMs : number;
}.

Definition tier (env : string -> option string) (v1 : string) (d1 : Z) (v2 : string) (d2 : Z) (v3 : string) (d3 : Z)
    (v4 : string) (d4 : Z) (v5 : string) (d5 : Z) (v6 : string) (d6 : Z) : tier_config :=
  {| t_maxRequests := toCount (env v1) d1; t_windowMs := toMs (env v2) d2; t_abuseThreshold := toCount (env v3) d3;
     t_blockWindowMs := toMs (env v4) d4; t_blockDurationMs := toMs (env v5) d5; t_maxBlockDurationMs := toMs (env v6) d6 |}.

(** [rateLimitConfig]: the variables and defaults of each tier. *)
Inductive RateLimitTier : Type := standard | sensitive | strict | auth | auditExport | auditBulk | audit | auditIntegrity | milestones | disputes | health | reputation.

Definition rateLimitConfig (env : string -> option string) (t : RateLimitTier) : tier_config :=
  match t with
  | standard => tier env "RL_STANDARD_MAX" 600 "RL_STANDARD_WINDOW_MS" 60000 "RL_ABUSE_THRESHOLD" 5 "RL_BLOCK_WINDOW_MS" 300000 "RL_BLOCK_DURATION_MS" 600000 "RL_MAX_BLOCK_MS" 86400000
  | sensitive => tier env "RL_SENSITIVE_MAX" 300 "RL_SENSITIVE_WINDOW_MS" 60000 "RL_ABUSE_THRESHOLD" 5 "RL_BLOCK_WINDOW_MS" 300000 "RL_BLOCK_DURATION_MS" 600000 "RL_MAX_BLOCK_MS" 86400000
  | strict => tier env "RL_STRICT_MAX" 180 "RL_STRICT_WINDOW_MS" 60000 "RL_ABUSE_THRESHOLD" 3 "RL_BLOCK_WINDOW_MS" 300000 "RL_BLOCK_DURATION_MS" 600000 "RL_MAX_BLOCK_MS" 86400000
  | auth => tier env "RL_AUTH_MAX" 30 "RL_AUTH_WINDOW_MS" 60000 "RL_AUTH_ABUSE_THRESHOLD" 3 "RL_BLOCK_WINDOW_MS" 300000 "RL_BLOCK_DURATION_MS" 600000 "RL_MAX_BLOCK_MS" 86400000
  | auditExport => tier env "RL_AUDIT_EXPORT_MAX" 5 "RL_AUDIT_EXPORT_WINDOW_MS" 3600000 "RL_AUDIT_EXPORT_ABUSE_THRESHOLD" 3 "RL_AUDIT_EXPORT_BLOCK_WINDOW_MS" 21600000 "RL_AUDIT_EXPORT_BLOCK_DURATION_MS" 3600000 "RL_AUDIT_EXPORT_MAX_BLOCK_MS" 86400000
  | auditBulk => tier env "RL_AUDIT_BULK_MAX" 30 "RL_AUDIT_BULK_WINDOW_MS" 60000 "RL_AUDIT_BULK_ABUSE_THRESHOLD" 5 "RL_AUDIT_BULK_BLOCK_WINDOW_MS" 300000 "RL_AUDIT_BULK_BLOCK_DURATION_MS" 600000 "RL_AUDIT_BULK_MAX_BLOCK_MS" 86400000
  | audit => tier env "RL_AUDIT_MAX" 300 "RL_AUDIT_WINDOW_MS" 60000 "RL_AUDIT_ABUSE_THRESHOLD" 5 "RL_AUDIT_BLOCK_WINDOW_MS" 300000 "RL_AUDIT_BLOCK_DURATION_MS" 600000 "RL_AUDIT_MAX_BLOCK_MS" 86400000
  | auditIntegrity => tier env "RL_AUDIT_INTEGRITY_MAX" 10 "RL_AUDIT_INTEGRITY_WINDOW_MS" 60000 "RL_AUDIT_INTEGRITY_ABUSE_THRESHOLD" 3 "RL_AUDIT_INTEGRITY_BLOCK_WINDOW_MS" 300000 "RL_AUDIT_INTEGRITY_BLOCK_DURATION_MS" 600000 "RL_AUDIT_INTEGRITY_MAX_BLOCK_MS" 86400000
  | milestones => tier env "RL_MILESTONES_MAX" 60 "RL_MILESTONES_WINDOW_MS" 60000 "RL_ABUSE_THRESHOLD" 5 "RL_BLOCK_WINDOW_MS" 300000 "RL_BLOCK_DURATION_MS" 600000 "RL_MAX_BLOCK_MS" 86400000
  | disputes => tier env "RL_DISPUTES_MAX" 300 "RL_DISPUTES_WINDOW_MS" 60000 "RL_DISPUTES_ABUSE_THRESHOLD" 5 "RL_DISPUTES_BLOCK_WINDOW_MS" 300000 "RL_DISPUTES_BLOCK_DURATION_MS" 600000 "RL_DISPUTES_MAX_BLOCK_MS" 86400000
  | health => tier env "RL_HEALTH_MAX" 60 "RL_HEALTH_WINDOW_MS" 60000 "RL_HEALTH_ABUSE_THRESHOLD" 10 "RL_BLOCK_WINDOW_MS" 300000 "RL_BLOCK_DURATION_MS" 600000 "RL_MAX_BLOCK_MS" 86400000
  | reputation => tier env "RL_REPUTATION_MAX" 100 "RL_REPUTATION_WINDOW_MS" 60000 "RL_REPUTATION_ABUSE_THRESHOLD" 5 "RL_BLOCK_WINDOW_MS" 300000 "RL_BLOCK_DURATION_MS" 600000 "RL_MAX_BLOCK_MS" 86400000
  end.

(** [rateLimitConfig.webhook] *)
Definition webhook_tier (env : string -> option string) : number * number * number :=
  (toCount (env "WEBHOOK_BUCKET_CAPACITY") 10, toCount (env "WEBHOOK_REFILL_RATE_PER_SEC") 2, toCount (env "WEBHOOK_MAX_QUEUE_DEPTH") 1000).

(** ** The limiter *)

(** What [consumeToken] gives back: a boolean or a promise. *)
Inductive answer : Type := Now (b : bool) | Later.

(** How a promise of the store settles. *)
Inductive reply : Type := Fulfilled (b : bool) | Rejected.

(** One provider: its entries of the Maps [queues] and [timers], the promises of
    the store that are in flight, and the outcome of the calls. *)
Record lane : Type := {
  waiters : list nat;          (* the queue *)
  timer : bool;
  own : list nat;              (* waiters with a promise of their own *)
  drains : nat;                (* promises of [drain] *)
  next_waiter : nat;           (* calls that were not refused *)
  resolved : list nat;         (* in the order they resolve *)
  refused : nat;               (* RateLimitQueueFullError *)
  granted : nat;               (* tokens the store has given *)
}.

Definition empty_lane : lane :=
  {| waiters := []; timer := false; own := []; drains := 0; next_waiter := 0; resolved := []; refused := 0; granted := 0 |}.

(** Resolving a promise twice does nothing. *)
Definition resolve (w : nat) (l : list nat) : list nat := if bool_decide (w ∈ l) then l else l ++ [w].

Definition scheduleDrain (l : lane) : lane :=
  {| waiters := waiters l; timer := true; own := own l; drains := drains l; next_waiter := next_waiter l;
     resolved := resolved l; refused := refused l; granted := granted l |}.

(** The end of [acquireToken]: refuse or wait. *)
Definition enqueue (depth : nat) (l : lane) : lane :=
  if bool_decide (depth <= length (waiters l))%nat then
    {| waiters := waiters l; timer := timer l; own := own l; drains := drains l; next_waiter := next_waiter l;
       resolved := resolved l; refused := S (refused l); granted := granted l |}
  else scheduleDrain
    {| waiters := waiters l ++ [next_waiter l]; timer := timer l; own := own l; drains := drains l;
       next_waiter := S (next_waiter l); resolved := resolved l; refused := refused l; granted := granted l |}.

(** [acquireToken]; the store is asked only when nobody waits. *)
Definition acquireToken (depth : nat) (a : answer) (l : lane) : lane :=
  match waiters l with
  | [] =>
      match a with
      | Now true =>
          {| waiters := []; timer := timer l; own := own l; drains := drains l; next_waiter := S (next_waiter l);
             resolved := resolved l ++ [next_waiter l]; refused := refused l; granted := S (granted l) |}
      | Later =>
          {| waiters := [next_waiter l]; timer := timer l; own := own l ++ [next_waiter l]; drains := drains l;
             next_waiter := S (next_waiter l); resolved := resolved l; refused := refused l; granted := granted l |}
      | Now false => enqueue depth l
      end
  | _ :: _ => enqueue depth l
  end.

(** The continuation of the promise of waiter [w]. *)
Definition own_reply (w : nat) (r : reply) (l : lane) : lane :=
  if bool_decide (w ∈ own l) then
    let own' := filter (fun v => v <> w) (own l) in
    match r with
    | Fulfilled true =>
        {| waiters := filter (fun v => v <> w) (waiters l); timer := timer l; own := own'; drains := drains l;
           next_waiter := next_waiter l; resolved := resolve w (resolved l); refused := refused l; granted := S (granted l) |}
    | _ => scheduleDrain
        {| waiters := waiters l; timer := timer l; own := own'; drains := drains l; next_waiter := next_waiter l;
           resolved := resolved l; refused := refused l; granted := granted l |}
    end
  else l.

(** [queue.shift()] and resolve; a token was given. *)
Definition shift (l : lane) : lane :=
  match waiters l with
  | [] => {| waiters := []; timer := timer l; own := own l; drains := drains l; next_waiter := next_waiter l;
             resolved := resolved l; refused := refused l; granted := S (granted l) |}
  | w :: ws => {| waiters := ws; timer := timer l; own := own l; drains := drains l; next_waiter := next_waiter l;
                  resolved := resolve w (resolved l); refused := refused l; granted := S (granted l) |}
  end.

Definition reschedule (l : lane) : lane := match waiters l with [] => l | _ :: _ => scheduleDrain l end.

(** The loop of [drain]: [answers n] is the store's [n]th answer.  Every turn
    takes a waiter out, so the number of waiters bounds the turns. *)
Fixpoint drain_loop (fuel : nat) (answers : nat -> answer) (n : nat) (l : lane) : lane :=
  match fuel, waiters l with
  | O, _ | _, [] => reschedule l
  | S fuel, _ :: _ =>
      match answers n with
      | Later => {| waiters := waiters l; timer := timer l; own := own l; drains := S (drains l);
                    next_waiter := next_waiter l; resolved := resolved l; refused := refused l; granted := granted l |}
      | Now false => reschedule l
      | Now true => drain_loop fuel answers (S n) (shift l)
      end
  end.

Definition drain (answers : nat -> answer) (l : lane) : lane := drain_loop (S (length (waiters l))) answers 0 l.

(** The timer fires. *)
Definition timer_fires (answers : nat -> answer) (l : lane) : lane :=
  if timer l then
    drain answers {| waiters := waiters l; timer := false; own := own l; drains := drains l; next_waiter := next_waiter l;
                     resolved := resolved l; refused := refused l; granted := granted l |}
  else l.

(** The continuation of a promise of [drain]. *)
Definition drain_reply (r : reply) (l : lane) : lane :=
  match drains l with
  | O => l
  | S n =>
      let l' := {| waiters := waiters l; timer := timer l; own := own l; drains := n; next_waiter := next_waiter l;
                   resolved := resolved l; refused := refused l; granted := granted l |} in
      reschedule (match r with Fulfilled true => shift l' | _ => l' end)
  end.

(** The delay [scheduleDrain] asks for. *)
Definition drain_delay (rate : number) : number := num_max (of_int 1) (num_ceil (num_div (of_int 1000) rate)).

Inductive event : Type :=
| Acquire (a : answer)
| OwnReply (w : nat) (r : reply)
| TimerFires (answers : nat -> answer)
| DrainReply (r : reply).

Definition lane_step (depth : nat) (l : lane) (e : event) : lane :=
  match e with
  | Acquire a => acquireToken depth a l
  | OwnReply w r => own_reply w r l
  | TimerFires answers => timer_fires answers l
  | DrainReply r => drain_reply r l
  end.

(** ** Waiters *)

Record lane_core (depth : nat) (l : lane) : Prop := {
  ok_fifo : resolved l ++ waiters l = seq 0 (next_waiter l);
  ok_paid : (length (resolved l) <= granted l)%nat;
  ok_own : forall w, w ∈ own l -> (w < next_waiter l)%nat /\ (w ∈ waiters l -> head (waiters l) = Some w);
  ok_depth : (length (waiters l) <= Nat.max 1 depth)%nat;
}.

(** Somebody will come back for the waiters: a timer, a promise of [drain], or
    the promise of the only waiter. *)
Definition watched (l : lane) : Prop :=
  waiters l <> [] -> timer l = true \/ (0 < drains l)%nat \/ exists w, waiters l = [w] /\ w ∈ own l.

Definition lane_ok (depth : nat) (l : lane) : Prop := lane_core depth l /\ watched l.

Lemma queue_NoDup depth l : lane_core depth l -> NoDup (resolved l ++ waiters l).
Proof. intros Hl. rewrite (ok_fifo _ _ Hl). apply NoDup_seq. Qed.

Lemma resolve_head depth l w ws : lane_core depth l -> waiters l = w :: ws -> resolve w (resolved l) = resolved l ++ [w].
Proof.
  intros Hl E. unfold resolve. rewrite bool_decide_eq_false_2; [done|]. intros Hin.
  pose proof (queue_NoDup _ _ Hl) as Hn. rewrite E in Hn. apply NoDup_app in Hn as (_ & Hd & _). apply (Hd w Hin). left.
Qed.

Lemma resolve_done depth l w : lane_core depth l -> (w < next_waiter l)%nat -> w ∉ waiters l -> resolve w (resolved l) = resolved l.
Proof.
  intros Hl Hw Hn. unfold resolve. rewrite bool_decide_eq_true_2; [done|].
  assert (Hin : w ∈ resolved l ++ waiters l) by (rewrite (ok_fifo _ _ Hl); apply elem_of_seq; lia).
  by apply elem_of_app in Hin as [?|?].
Qed.

Lemma filter_ne_notin (w : nat) (l : list nat) : w ∉ l -> filter (fun v => v <> w) l = l.
Proof. intros Hn. apply filter_keep_all, Forall_forall. intros v Hv ->. done. Qed.

Lemma enqueue_ok depth l : lane_ok depth l -> lane_ok depth (enqueue depth l).
Proof.
  intros [Hl Hw]. unfold enqueue. case_bool_decide as Hd; [by split; [destruct Hl; constructor|]|].
  split; [|by left]. destruct Hl as [Hf Hp Ho Hq]. constructor; simpl.
  - rewrite (assoc (++)), Hf. symmetry. apply seq_S.
  - done.
  - intros w Hin. destruct (Ho w Hin) as [Hlt Hh]. split; [lia|]. intros [Hx|Hx%list_elem_of_singleton]%elem_of_app; [|lia].
    specialize (Hh Hx). by destruct (waiters l).
  - rewrite length_app. simpl. lia.
Qed.

Lemma reschedule_ok depth l : lane_core depth l -> lane_ok depth (reschedule l).
Proof.
  intros Hl. unfold reschedule. destruct (waiters l) as [|w ws] eqn:E; [split; [done|unfold watched; by rewrite E]|].
  split; [by destruct Hl; constructor|by left].
Qed.

Lemma shift_core depth l : lane_core depth l -> lane_core depth (shift l).
Proof.
  intros Hl. pose proof (resolve_head depth l) as Hr. unfold shift. destruct (waiters l) as [|w ws] eqn:E.
  - destruct Hl as [Hf Hp Ho Hq]. rewrite E in *. constructor; simpl; [done|lia|done|lia].
  - rewrite (Hr w ws Hl eq_refl). pose proof (queue_NoDup _ _ Hl) as Hn. destruct Hl as [Hf Hp Ho Hq]. rewrite E in *.
    apply NoDup_app in Hn as (_ & _ & [Hni _]%NoDup_cons). constructor; simpl in *.
    + by rewrite <- (assoc (++)).
    + rewrite length_app. simpl. lia.
    + intros v Hv. destruct (Ho v Hv) as [Hlt Hh]. split; [done|]. intros Hin.
      assert (Hv' : Some w = Some v) by (apply Hh; by right). by simplify_eq.
    + lia.
Qed.

Lemma drain_loop_ok depth answers fuel n l : lane_core depth l -> lane_ok depth (drain_loop fuel answers n l).
Proof.
  revert n l. induction fuel as [|fuel IH]; intros n l Hl; [by apply reschedule_ok|]. simpl.
  destruct (waiters l) as [|w ws] eqn:E; [by apply reschedule_ok|].
  destruct (answers n) as [[]|]; [by apply IH, shift_core|by apply reschedule_ok|].
  rewrite <- E. split; [by destruct Hl; constructor|]. intros _. right; left. simpl. lia.
Qed.

Lemma own_reply_ok depth w r l : lane_ok depth l -> lane_ok depth (own_reply w r l).
Proof.
  intros [Hl Hw]. unfold own_reply. case_bool_decide as Hin; [|done].
  assert (Hwait : r <> Fulfilled true -> lane_ok depth (scheduleDrain
    {| waiters := waiters l; timer := timer l; own := filter (fun v => v <> w) (own l); drains := drains l;
       next_waiter := next_waiter l; resolved := resolved l; refused := refused l; granted := granted l |})).
  { intros _. split; [|by left]. destruct Hl as [Hf Hp Ho Hq]. constructor; simpl; try done.
    intros v [_ Hv]%list_elem_of_filter. by apply Ho. }
  destruct r as [[]|]; [clear Hwait|by apply Hwait..].
  pose proof (ok_own _ _ Hl w Hin) as [Hlt Hhead].
  destruct (decide (w ∈ waiters l)) as [Hq|Hq].
  - specialize (Hhead Hq). destruct (waiters l) as [|w' ws] eqn:E; [done|]. simpl in Hhead. simplify_eq.
    pose proof (queue_NoDup _ _ Hl) as Hn. rewrite E in Hn. apply NoDup_app in Hn as (_ & _ & [Hni _]%NoDup_cons).
    rewrite (resolve_head depth l w ws Hl E), filter_cons_False by (by intros []).
    rewrite filter_ne_notin by done. split.
    + destruct Hl as [Hf Hp Ho Hd]. rewrite E in *. constructor; simpl in *.
      * by rewrite <- (assoc (++)).
      * rewrite length_app. simpl. lia.
      * intros v [Hne Hv]%list_elem_of_filter. destruct (Ho v Hv) as [? Hh]. split; [done|]. intros Hvin.
        assert (Some w = Some v) by (apply Hh; by right). congruence.
      * lia.
    + intros Hne. simpl in *. destruct Hw as [Ht|[Hdr|(v & Ev & _)]]; [by rewrite E|by left|by right; left|].
      rewrite E in Ev. by simplify_eq.
  - rewrite (resolve_done depth l w Hl Hlt Hq), filter_ne_notin by done. split.
    + destruct Hl as [Hf Hp Ho Hd]. constructor; simpl; [done|lia| |done].
      intros v [_ Hv]%list_elem_of_filter. by apply Ho.
    + intros Hne. destruct (Hw Hne) as [Ht|[Hdr|(v & Ev & Hv)]]; [by left|by right; left|].
      right; right. exists v. simpl in *. split; [done|]. apply list_elem_of_filter. split; [|done].
      intros ->. apply Hq. rewrite Ev. left.
Qed.

Lemma lane_step_ok depth l e : lane_ok depth l -> lane_ok depth (lane_step depth l e).
Proof.
  intros Hl. destruct e as [a|w r|answers|r]; simpl.
  - unfold acquireToken. destruct (waiters l) as [|w ws] eqn:E; [|by apply enqueue_ok].
    destruct a as [[]|]; [|by apply enqueue_ok|]; destruct Hl as [[Hf Hp Ho Hd] Hw]; rewrite E in *.
    + split; [|by intros []]. rewrite app_nil_r in Hf. constructor; simpl.
      * rewrite app_nil_r, Hf. symmetry. apply seq_S.
      * rewrite length_app. simpl. lia.
      * intros v Hv. destruct (Ho v Hv) as [? Hh]. split; [lia|]. by intros ?%elem_of_nil.
      * lia.
    + split.
      * rewrite app_nil_r in Hf. constructor; simpl; [rewrite Hf; symmetry; apply seq_S|done| |lia].
        intros v [Hv|Hv%list_elem_of_singleton]%elem_of_app.
        -- destruct (Ho v Hv) as [? _]. split; [lia|]. intros ?%list_elem_of_singleton. lia.
        -- subst v. split; [lia|done].
      * intros _. right; right. eexists. split; [done|]. simpl. apply elem_of_app. right. by left.
  - by apply own_reply_ok.
  - unfold timer_fires. destruct (timer l); [|done]. apply drain_loop_ok. destruct Hl as [[Hf Hp Ho Hd] _]. by constructor.
  - unfold drain_reply. destruct (drains l) as [|n]; [done|]. apply reschedule_ok.
    destruct Hl as [[Hf Hp Ho Hd] _]. destruct r as [[]|]; [apply shift_core|..]; by constructor.
Qed.

Lemma lane_run_ok depth es l : lane_ok depth l -> lane_ok depth (foldl (lane_step depth) l es).
Proof. revert l. induction es as [|e es IH]; intros l Hl; [done|]. by apply IH, lane_step_ok. Qed.

(** C21: Whatever the store answers, at once or by promise, and in whatever order
    timers and replies come: waiters resolve exactly once and in the order of
    their calls; no more waiters resolve than the store has given tokens; the
    queue never exceeds its depth; and while anybody waits a timer or a promise
    is pending that will come back for them. *)
Theorem limiter_paces depth es :
  (1 <= depth)%nat ->
  let l := foldl (lane_step depth) empty_lane es in
  (exists n, resolved l = seq 0 n /\ waiters l = seq n (length (waiters l)) /\ (n + length (waiters l) = next_waiter l)%nat) /\
  (length (resolved l) <= granted l)%nat /\ (length (waiters l) <= depth)%nat /\ watched l.
Proof.
  intros Hd l. assert (Hok : lane_ok depth l).
  { apply lane_run_ok. split; [|by intros []]. constructor; simpl; [done|lia|by intros w ?%elem_of_nil|lia]. }
  destruct Hok as [[Hf Hp Ho Hq] Hw]. split; [|split; [done|split; [lia|done]]].
  assert (Hlen : (length (resolved l) + length (waiters l) = next_waiter l)%nat)
    by (apply (f_equal length) in Hf; by rewrite length_app, length_seq in Hf).
  exists (length (resolved l)). rewrite <- Hlen, seq_app in Hf.
  apply app_inj_1 in Hf as [E1 E2]; [|by rewrite length_seq]. done.
Qed.

(** ** Rounding *)

Lemma div_round_mono p p' d : 0 <= p <= p' -> 0 < d -> div_round p d <= div_round p' d.
Proof.
  intros Hp Hd. pose proof (Z.div_le_mono p p' d Hd ltac:(lia)) as Hn.
  pose proof (Z.div_mod p d ltac:(lia)) as E. pose proof (Z.div_mod p' d ltac:(lia)) as E'.
  pose proof (Z.mod_pos_bound p d Hd). pose proof (Z.mod_pos_bound p' d Hd). unfold div_round. cbv zeta.
  set (n := p / d) in *. set (n' := p' / d) in *. set (r := p mod d) in *. set (r' := p' mod d) in *.
  destruct (Z.eq_dec n n') as [En|]; [|repeat case_match; lia].
  assert (r <= r') by nia. rewrite <- En. destruct (Z.odd n); rewrite ?andb_true_r, ?andb_false_r.
  - destruct (d <? 2 * r) eqn:E1, (d =? 2 * r) eqn:E2, (d <? 2 * r') eqn:E3, (d =? 2 * r') eqn:E4; simpl; lia.
  - destruct (d <? 2 * r) eqn:E1, (d <? 2 * r') eqn:E3; simpl; lia.
Qed.

Lemma round_ratio_mono p p' q : 0 <= p <= p' -> 0 < q -> round_ratio p q <= round_ratio p' q.
Proof.
  intros Hp Hq. pose proof (Z.div_le_mono p p' q Hq ltac:(lia)) as Hd. pose proof (Z.div_pos p q ltac:(lia) Hq).
  pose proof (Z.log2_le_mono _ _ Hd) as Hlog. assert (He : ratio_exponent p q <= ratio_exponent p' q) by (unfold ratio_exponent; lia).
  destruct (Z.eq_dec (ratio_exponent p q) (ratio_exponent p' q)) as [E|E].
  - unfold round_ratio. rewrite E. pose proof (Z.pow_pos_nonneg 2 (ratio_exponent p' q) ltac:(lia) (ratio_exponent_nonneg p' q)).
    apply Z.mul_le_mono_nonneg_r; [lia|]. apply div_round_mono; [done|nia].
  - set (m := Z.log2 (p' / q)) in *. assert (Hm : ratio_exponent p' q = m - 52 /\ Z.log2 (p / q) < m /\ 52 < m)
      by (unfold ratio_exponent in *; fold m in He, E |- *; lia).
    destruct Hm as (Em & Hlt & H52). assert (Hpos : 0 < p' / q).
    { destruct (Z.le_gt_cases (p' / q) 0); [|done]. assert (m = 0) by (apply Z.log2_nonpos; done). lia. }
    pose proof (Z.log2_spec _ Hpos) as [Hlo _]. fold m in Hlo.
    assert (Hup : p / q < 2 ^ m) by (apply Z.log2_lt_cancel; rewrite Z.log2_pow2; lia).
    transitivity (2 ^ m).
    + apply round_ratio_le_grid; [done| |pose proof (Z.mul_succ_div_gt p q Hq); nia].
      exists (2 ^ (m - ratio_exponent p q)). rewrite <- Z.pow_add_r; [f_equal; lia|lia|apply ratio_exponent_nonneg].
    + apply round_ratio_ge_grid; [done| |pose proof (Z.mul_div_le p' q Hq); nia].
      exists (2 ^ 52). rewrite <- Z.pow_add_r; [f_equal; lia|lia|lia].
Qed.

(** Half a unit in the last place. *)
Lemma round_ratio_error p q : 0 < q -> 2 * (round_ratio p q * q) <= 2 * p + q * 2 ^ ratio_exponent p q.
Proof.
  intros Hq. unfold round_ratio. set (w := 2 ^ ratio_exponent p q).
  assert (Hw : 0 < w) by (apply Z.pow_pos_nonneg; [lia|apply ratio_exponent_nonneg]).
  assert (Hd : 0 < q * w) by nia. pose proof (Z.div_mod p (q * w) ltac:(lia)) as E.
  pose proof (Z.mod_pos_bound p (q * w) Hd). unfold div_round. cbv zeta.
  set (n := p / (q * w)) in *. set (r := p mod (q * w)) in *.
  assert (Hup : ((q * w <? 2 * r) || ((q * w =? 2 * r) && Z.odd n))%bool = true -> q * w <= 2 * r).
  { intros [?|[? _]%andb_true_iff]%orb_true_iff; lia. }
  destruct (_ || _)%bool; [specialize (Hup eq_refl)|]; nia.
Qed.

Lemma ratio_exponent_bound p q j : 0 <= p -> 0 < q -> 0 <= j -> p <= 2 ^ j * num_scale * q ->
  2 ^ 52 * 2 ^ ratio_exponent p q <= Z.max (2 ^ 52) (2 ^ j * num_scale).
Proof.
  intros Hp Hq Hj Hle. unfold ratio_exponent. destruct (Z.le_gt_cases (Z.log2 (p / q) - 52) 0) as [H|H].
  - rewrite Z.max_l by lia. change (2 ^ 0) with 1. lia.
  - rewrite (Z.max_r 0) by lia. rewrite <- Z.pow_add_r by lia. replace (52 + (Z.log2 (p / q) - 52)) with (Z.log2 (p / q)) by lia.
    assert (Hpos : 0 < p / q).
    { destruct (Z.le_gt_cases (p / q) 0); [|done]. assert (Z.log2 (p / q) = 0) by (by apply Z.log2_nonpos). lia. }
    pose proof (Z.log2_spec _ Hpos) as [Hlo _].
    assert (p / q <= 2 ^ j * num_scale) by (apply Z.div_le_upper_bound; [done|lia]). lia.
Qed.

(** The rounded value exceeds the exact one by at most [2^(j-53)] for values up to [2^j]. *)
Lemma round_ratio_excess p q j : 0 <= p -> 0 < q -> 0 <= j -> p <= 2 ^ j * num_scale * q ->
  2 ^ 53 * (round_ratio p q * q) <= 2 ^ 53 * p + q * (2 ^ j * num_scale).
Proof.
  intros Hp Hq Hj Hle. pose proof (round_ratio_error p q Hq) as He.
  pose proof (ratio_exponent_bound p q j Hp Hq Hj Hle) as Hb. rewrite Z.max_r in Hb.
  - set (w := 2 ^ ratio_exponent p q) in *. set (R := round_ratio p q * q) in *.
    change (2 ^ 53) with (2 * 2 ^ 52). nia.
  - rewrite num_scale_pow. rewrite <- Z.pow_add_r by lia. apply Z.pow_le_mono_r; lia.
Qed.

(** Not below an integer. *)
Definition atleast (k : Z) (x : number) : Prop :=
  match x with NaN => False | Infinity b => b = false | Fin u => k * num_scale <= u end.

Lemma of_ratio_atleast p q k : 0 <= k <= 2 ^ 52 -> 0 < q -> k * num_scale * q <= p -> atleast k (of_ratio p q).
Proof.
  intros Hk Hq Hle. pose proof num_scale_pos. assert (Hp : 0 <= p) by nia.
  assert (Hr : k * num_scale <= round_ratio p q).
  { rewrite <- (round_ratio_int k q Hk Hq). apply round_ratio_mono; [nia|done]. }
  assert (Hr0 : 0 <= k * num_scale) by nia. pose proof (round_ratio_nonneg p q Hp Hq).
  unfold of_ratio. rewrite (Z.abs_eq p), (Z.abs_eq q), (Z.sgn_pos q), Z.mul_1_r by lia.
  assert (Hs : 0 <= Z.sgn p) by (by apply Z.sgn_nonneg). destruct (num_overflow <=? _); simpl; [apply Z.ltb_ge; nia|].
  destruct (Z.eq_dec p 0) as [E|E]; [|rewrite Z.sgn_pos by lia; lia]. rewrite E in *. simpl. nia.
Qed.

Lemma num_add_ratio u v : 0 <= u + v -> num_add (Fin u) (Fin v) = of_ratio (u + v) 1.
Proof.
  intros H. change (num_add (Fin u) (Fin v)) with
    (let r := round (u + v) in if num_overflow <=? Z.abs r then Infinity (r <? 0) else Fin r).
  unfold of_ratio. cbv zeta. unfold round. rewrite round_abs_ratio by lia. by rewrite Z.mul_1_r.
Qed.

Lemma num_add_atleast x y a b : 0 <= a -> 0 <= b -> a + b <= 2 ^ 52 -> atleast a x -> atleast b y -> atleast (a + b) (num_add x y).
Proof.
  intros Ha Hb Hab. pose proof num_scale_pos as Hs. destruct x as [|i|u], y as [|i'|v]; simpl; try done; try (intros; by subst).
  intros Hu Hv. rewrite num_add_ratio by nia. apply of_ratio_atleast; nia.
Qed.

Lemma num_min_atleast x y a : atleast a x -> atleast a y -> atleast a (num_min x y).
Proof. destruct x, y; simpl; try done; by case_match. Qed.

Lemma num_leb_atleast k x : num_leb (of_int k) x = true <-> atleast k x.
Proof.
  destruct x as [|[]|u]; [done..|].
  change (num_leb (of_int k) (Fin u)) with (negb (u <? k * num_scale)). by rewrite negb_true_iff, Z.ltb_ge.
Qed.

Lemma refilled_atleast e r k n : 0 <= k -> 0 <= n <= 2 ^ 52 -> 0 < r -> n <= k * r -> k <= 2 ^ 52 -> 1000 * k <= e ->
  atleast n (refilled e (of_int r)).
Proof.
  intros Hk Hn Hr Hnk Hk2 He. pose proof num_scale_pos as Hs. unfold refilled.
  assert (Hdiv : atleast k (num_div (of_int e) (of_int 1000))).
  { unfold num_div, of_int. replace (1000 * num_scale =? 0) with false by (symmetry; apply Z.eqb_neq; lia).
    apply of_ratio_atleast; nia. }
  destruct (num_div _ _) as [|i|u]; simpl in Hdiv; [done| |].
  - subst i. unfold num_mul, of_int. simpl. replace (r * num_scale =? 0) with false by (symmetry; apply Z.eqb_neq; nia).
    simpl. replace (r * num_scale <? 0) with false by (symmetry; apply Z.ltb_ge; nia). done.
  - unfold num_mul, of_int. apply of_ratio_atleast; [done|done|].
    assert (H1 : n * num_scale <= k * r * num_scale) by (apply Z.mul_le_mono_nonneg_r; lia).
    assert (H2 : k * num_scale * r <= u * r) by (apply Z.mul_le_mono_nonneg_r; lia).
    assert (H3 : n * num_scale * num_scale <= u * r * num_scale) by (apply Z.mul_le_mono_nonneg_r; lia). lia.
Qed.

(** ** The bucket *)

(** An integer capacity. *)
Definition bucket_ok (k : Z) (b : TokenBucketEntry) : Prop := between 0 (tokens b) k.

Definition one_if (b : bool) : Z := if b then 1 else 0.

(** A doubly rounded refill is at most a quarter of a millionth of a token too large
    (gaps up to 2^30 ms). *)
Lemma refilled_value e r : 0 <= e <= 2 ^ 30 -> 0 <= r <= 1000 ->
  exists x, refilled e (of_int r) = Fin x /\ 0 <= x <= 2 ^ 32 * num_scale /\ 2 ^ 21 * (1000 * x) <= 2 ^ 21 * (e * r * num_scale) + 1000 * num_scale.
Proof.
  intros He Hr. pose proof num_scale_pos as Hs. set (s := num_scale) in *. unfold refilled, num_div, of_int. fold s.
  replace (1000 * s =? 0) with false by (symmetry; apply Z.eqb_neq; lia).
  assert (Hp : 0 <= e * s * s) by nia. assert (Hq : 0 < 1000 * s) by lia.
  assert (Hle : e * s * s <= 2 ^ 21 * s * (1000 * s)) by nia.
  rewrite (of_ratio_small _ _ (2 ^ 21)) by done.
  pose proof (round_ratio_le _ _ (2 ^ 21) Hp Hq ltac:(done) Hle) as Ha.
  pose proof (round_ratio_nonneg _ _ Hp Hq) as Ha0.
  pose proof (round_ratio_excess _ _ 21 Hp Hq ltac:(lia) Hle) as Hexc.
  set (a := round_ratio (e * s * s) (1000 * s)) in *. fold s in Ha, Hexc.
  assert (H1 : 2 ^ 32 * (1000 * a) <= 2 ^ 32 * (e * s) + 1000 * s) by nia. clear Hexc Hle Hp.
  assert (Har : 0 <= a * r <= 2 ^ 31 * s) by nia.
  assert (Hp : 0 <= a * (r * s)) by nia. assert (Hle : a * (r * s) <= 2 ^ 31 * s * s) by (rewrite Z.mul_assoc; apply Z.mul_le_mono_nonneg_r; lia).
  unfold num_mul. fold s. rewrite (of_ratio_small _ _ (2 ^ 31)) by done.
  pose proof (round_ratio_le _ _ (2 ^ 31) Hp Hs ltac:(done) Hle) as Hx.
  pose proof (round_ratio_nonneg _ _ Hp Hs) as Hx0.
  pose proof (round_ratio_excess _ _ 31 Hp Hs ltac:(lia) Hle) as Hexc.
  set (x := round_ratio (a * (r * s)) s) in *. fold s in Hx, Hexc. exists x. split; [done|]. split; [lia|].
  assert (H2 : 2 ^ 22 * x <= 2 ^ 22 * (a * r) + s) by nia. clear Hexc.
  assert (H3 : 2 ^ 32 * (1000 * (a * r)) <= 2 ^ 32 * (e * r * s) + 1000 * (r * s)) by nia.
  assert (H4 : r * s <= 1000 * s) by nia. lia.
Qed.

Lemma num_min_fin a b : num_min (Fin a) (Fin b) = Fin (Z.min a b).
Proof.
  change (num_min (Fin a) (Fin b)) with (if b <? a then Fin b else Fin a). destruct (Z.ltb_spec b a); f_equal; lia.
Qed.

Lemma refill_ledger now k r b u : 0 <= k <= 2 ^ 20 -> 0 <= r <= 1000 -> now - lastRefillMs b <= 2 ^ 30 ->
  tokens b = Fin u -> 0 <= u <= k * num_scale ->
  exists v, tokens (refill now (of_int k) (of_int r) (Some b)) = Fin v /\ 0 <= v <= k * num_scale /\
    2 ^ 21 * (1000 * v) <= 2 ^ 21 * (1000 * u + Z.max 0 (now - lastRefillMs b) * r * num_scale) + 1500 * num_scale.
Proof.
  intros Hk Hr Hgap Eu Hu. pose proof num_scale_pos as Hs. unfold refill. cbv zeta.
  destruct (Z.ltb_spec 0 (now - lastRefillMs b)) as [He|He]; [|exists u; rewrite Z.max_l by lia; split; [done|lia]].
  rewrite Z.max_r by lia. set (e := now - lastRefillMs b) in *. cbn [tokens].
  destruct (refilled_value e r ltac:(lia) Hr) as (x & -> & Hx & Hx2). rewrite Eu, num_add_ratio by lia.
  assert (Hy : u + x <= 2 ^ 33 * num_scale * 1) by nia.
  rewrite (of_ratio_small _ _ (2 ^ 33)) by (done || lia).
  pose proof (round_ratio_nonneg (u + x) 1 ltac:(lia) ltac:(lia)) as Hr0. unfold of_int. rewrite num_min_fin.
  exists (Z.min (k * num_scale) (round_ratio (u + x) 1)). split; [done|]. split; [lia|].
  assert (Hm : 2 ^ 32 * Z.min (k * num_scale) (round_ratio (u + x) 1) <= 2 ^ 32 * (u + x) + num_scale).
  { destruct (Z.le_gt_cases (u + x) (2 ^ 21 * num_scale)) as [Hs1|Hs1]; [|nia].
    pose proof (round_ratio_excess (u + x) 1 21 ltac:(lia) ltac:(lia) ltac:(lia) ltac:(lia)). lia. }
  lia.
Qed.

(** A call never makes a token out of nothing: what is left and what was granted
    is at most what was there and what was refilled, up to a millionth of a
    token. *)
Lemma consume_ledger now k r b u : 0 <= k <= 2 ^ 20 -> 0 <= r <= 1000 -> now - lastRefillMs b <= 2 ^ 30 ->
  tokens b = Fin u -> 0 <= u <= k * num_scale ->
  let '(ok, b') := consume now (of_int k) (of_int r) (Some b) in
  exists v, tokens b' = Fin v /\ 0 <= v <= k * num_scale /\ lastRefillMs b' = Z.max now (lastRefillMs b) /\
    2 ^ 20 * (1000 * (v + one_if ok * num_scale)) <=
    2 ^ 20 * (1000 * u + Z.max 0 (now - lastRefillMs b) * r * num_scale) + 1000 * num_scale.
Proof.
  intros Hk Hr Hgap Eu Hu. pose proof num_scale_pos as Hs.
  destruct (refill_ledger now k r b u Hk Hr Hgap Eu Hu) as (v & Ev & Hv & Hle).
  assert (Hlast : lastRefillMs (refill now (of_int k) (of_int r) (Some b)) = Z.max now (lastRefillMs b)).
  { unfold refill. cbv zeta. destruct (Z.ltb_spec 0 (now - lastRefillMs b)); simpl; lia. }
  unfold consume, take_token. rewrite Ev. destruct (num_leb (of_int 1) (Fin v)) eqn:E1.
  - apply num_leb_atleast in E1. cbn [atleast] in E1. cbn [tokens lastRefillMs]. unfold num_sub. 
    change (num_neg (of_int 1)) with (Fin (- (1 * num_scale))). rewrite num_add_ratio by lia.
    assert (Hp : v + - (1 * num_scale) <= k * num_scale * 1) by lia.
    rewrite (of_ratio_small _ _ k) by lia. eexists. split; [done|].
    pose proof (round_ratio_nonneg (v + - (1 * num_scale)) 1 ltac:(lia) ltac:(lia)).
    pose proof (round_ratio_le (v + - (1 * num_scale)) 1 k ltac:(lia) ltac:(lia) ltac:(lia) Hp).
    pose proof (round_ratio_excess (v + - (1 * num_scale)) 1 20 ltac:(lia) ltac:(lia) ltac:(lia) ltac:(nia)).
    split; [lia|]. split; [done|]. unfold one_if. lia.
  - exists v. split; [done|]. split; [done|]. split; [done|]. unfold one_if. lia.
Qed.

(** The calls of one provider: the instants they come at. *)
Fixpoint consume_run (cap rate : number) (times : list Z) (o : option TokenBucketEntry) : list bool :=
  match times with
  | [] => []
  | now :: rest => let '(ok, b) := consume now cap rate o in ok :: consume_run cap rate rest (Some b)
  end.

Definition grants (l : list bool) : Z := Z.of_nat (length (filter (fun b => b = true) l)).

Lemma grants_cons b l : grants (b :: l) = one_if b + grants l.
Proof.
  unfold grants. destruct b; [rewrite filter_cons_True by done|rewrite filter_cons_False by done]; cbn [length one_if]; lia.
Qed.

(** Each instant follows the one before within 2^30 ms, and the clock may stand
    still. *)
Fixpoint clock_run (t : Z) (times : list Z) : Prop :=
  match times with [] => True | now :: rest => t <= now <= t + 2 ^ 30 /\ clock_run now rest end.

Lemma last_cons_default (l : list Z) x d : List.last (x :: l) d = List.last l x.
Proof.
  revert x d. induction l as [|y l IH]; intros x d; [done|].
  change (List.last (x :: y :: l) d) with (List.last (y :: l) d). by rewrite !IH.
Qed.

Lemma run_ledger k r times b u : 0 <= k <= 2 ^ 20 -> 0 <= r <= 1000 -> clock_run (lastRefillMs b) times ->
  tokens b = Fin u -> 0 <= u <= k * num_scale ->
  2 ^ 20 * 1000 * num_scale * grants (consume_run (of_int k) (of_int r) times (Some b)) <=
  2 ^ 20 * (1000 * u + (List.last times (lastRefillMs b) - lastRefillMs b) * r * num_scale)
  + 1000 * num_scale * Z.of_nat (length times).
Proof.
  intros Hk Hr. pose proof num_scale_pos as Hs. revert b u. induction times as [|now rest IH]; intros b u Hc Eu Hu.
  - cbn. unfold grants. simpl. nia.
  - destruct Hc as [Ht Hc]. cbn [consume_run]. pose proof (consume_ledger now k r b u Hk Hr ltac:(lia) Eu Hu) as Hstep.
    destruct (consume now (of_int k) (of_int r) (Some b)) as [ok b'] eqn:E. destruct Hstep as (v & Ev & Hv & Hlast & Hle).
    rewrite Z.max_l in Hlast by lia. rewrite grants_cons. specialize (IH b' v). rewrite Hlast in IH.
    specialize (IH Hc Ev Hv).
    pose proof (last_cons_default rest now (lastRefillMs b)) as El.
    rewrite El. rewrite Z.max_r in Hle by lia. cbn [length]. set (L := List.last rest now) in *.
    set (G := grants _) in *. rewrite Nat2Z.inj_succ. nia.
Qed.

(** The first call of a provider finds a full bucket. *)
Definition full (cap : number) (now : Z) : TokenBucketEntry := {| tokens := cap; lastRefillMs := now; queue := [] |}.

Lemma consume_first now cap rate : consume now cap rate None = consume now cap rate (Some (full cap now)).
Proof. unfold consume, refill, full. cbn [lastRefillMs]. by rewrite Z.sub_diag. Qed.

(** The bucket enforces its rate over doubles: in any run of calls of one
    provider the tokens granted are at most the capacity plus the rate times the
    time the run took, up to a millionth of a token per call for rounding
    (integer capacities to 2^20, integer rates to 1000 per second, gaps to 2^30
    ms). *)
Theorem bucket_rate_bound k r t0 rest :
  0 <= k <= 2 ^ 20 -> 0 <= r <= 1000 -> clock_run t0 rest ->
  2 ^ 20 * 1000 * grants (consume_run (of_int k) (of_int r) (t0 :: rest) None) <=
  2 ^ 20 * (1000 * k + r * (List.last rest t0 - t0)) + 1000 * Z.of_nat (S (length rest)).
Proof.
  intros Hk Hr Hc. pose proof num_scale_pos as Hs.
  assert (E : consume_run (of_int k) (of_int r) (t0 :: rest) None =
              consume_run (of_int k) (of_int r) (t0 :: rest) (Some (full (of_int k) t0))).
  { cbn [consume_run]. by rewrite consume_first. }
  rewrite E. pose proof (run_ledger k r (t0 :: rest) (full (of_int k) t0) (k * num_scale) Hk Hr) as H.
  cbn [lastRefillMs full clock_run] in H. rewrite last_cons_default in H. cbn [length] in H.
  specialize (H ltac:(split; [lia|done]) eq_refl ltac:(nia)).
  set (G := grants _) in *. set (L := List.last rest t0) in *. nia.
Qed.

(** A capacity below one, which the configuration accepts, never grants: every
    call of every run is told to wait, so every delivery blocks forever. *)
Theorem fractional_capacity_starves cap rate times :
  num_leb (of_int 1) cap = false -> Forall (fun ok => ok = false) (consume_run cap rate times None).
Proof.
  intros Hc. assert (Hmin : forall x, num_leb (of_int 1) (num_min cap x) = false).
  { intros x. destruct (num_leb (of_int 1) (num_min cap x)) eqn:E; [|done]. apply num_leb_atleast in E.
    assert (atleast 1 cap); [|apply num_leb_atleast in H; congruence].
    destruct cap as [|b|c], x as [|b'|v]; try done; try (by destruct b); try (by destruct b').
    rewrite num_min_fin in E. cbn [atleast] in *. lia. }
  assert (Hstep : forall now o, (match o with Some b => num_leb (of_int 1) (tokens b) = false | None => True end) ->
    exists b, consume now cap rate o = (false, b) /\ num_leb (of_int 1) (tokens b) = false).
  { intros now o Ho. unfold consume, take_token. exists (refill now cap rate o).
    assert (E : num_leb (of_int 1) (tokens (refill now cap rate o)) = false); [|by rewrite E].
    unfold refill. destruct o as [b|]; [|done]. cbv zeta. destruct (0 <? _); [apply Hmin|done]. }
  assert (Hrun : forall o, (match o with Some b => num_leb (of_int 1) (tokens b) = false | None => True end) ->
    Forall (fun ok => ok = false) (consume_run cap rate times o)); [|by apply Hrun].
  induction times as [|now rest IH]; intros o Ho; [constructor|]. cbn [consume_run].
  destruct (Hstep now o Ho) as (b & -> & Hb). constructor; [done|]. by apply IH.
Qed.

(** ** Waiters are served *)

Lemma refilled_mono d e r : 0 <= d <= e -> e <= 2 ^ 30 -> 0 <= r <= 1000 ->
  atleast 1 (refilled d (of_int r)) -> atleast 1 (refilled e (of_int r)).
Proof.
  intros Hd He Hr. pose proof num_scale_pos as Hs. set (s := num_scale) in *.
  assert (Hval : forall t, 0 <= t <= 2 ^ 30 -> let a := round_ratio (t * s * s) (1000 * s) in
    refilled t (of_int r) = Fin (round_ratio (a * (r * s)) s) /\ 0 <= a).
  { intros t Ht a. unfold refilled, num_div, of_int. fold s.
    replace (1000 * s =? 0) with false by (symmetry; apply Z.eqb_neq; lia).
    assert (Hp : 0 <= t * s * s) by nia. assert (Hq : 0 < 1000 * s) by lia.
    assert (Hle : t * s * s <= 2 ^ 21 * s * (1000 * s)) by nia.
    rewrite (of_ratio_small _ _ (2 ^ 21)) by done. fold a.
    pose proof (round_ratio_le _ _ (2 ^ 21) Hp Hq ltac:(done) Hle) as Ha. fold a in Ha.
    pose proof (round_ratio_nonneg _ _ Hp Hq) as Ha0. fold a s in Ha0, Ha. split; [|done].
    assert (Har : 0 <= a * r <= 2 ^ 31 * s) by nia.
    unfold num_mul. fold s. rewrite (of_ratio_small _ _ (2 ^ 31)); [done|nia|done|done|].
    fold s. rewrite Z.mul_assoc. apply Z.mul_le_mono_nonneg_r; lia. }
  destruct (Hval d ltac:(lia)) as [-> Ha]. destruct (Hval e ltac:(lia)) as [-> Ha']. cbn [atleast]. fold s.
  assert (Hmono : round_ratio (d * s * s) (1000 * s) <= round_ratio (e * s * s) (1000 * s)) by (apply round_ratio_mono; nia).
  set (a := round_ratio (d * s * s) (1000 * s)) in *. set (a' := round_ratio (e * s * s) (1000 * s)) in *.
  intros H1. etrans; [exact H1|]. apply round_ratio_mono; [|done]. split; [nia|]. apply Z.mul_le_mono_nonneg_r; nia.
Qed.

(** The delay for an integer rate, and what it refills. *)
Definition delay_of (r : Z) : Z := default 0 (to_int (drain_delay (of_int r))).

Definition delay_suffices (r : Z) : bool :=
  bool_decide (drain_delay (of_int r) = of_int (delay_of r)) && bool_decide (1 <= delay_of r <= 1000) &&
  num_leb (of_int 1) (refilled (delay_of r) (of_int r)).

(** The bucket after [n] calls at one instant, and the answers they get. *)
Fixpoint after_calls (now : Z) (cap rate : number) (n : nat) (b : TokenBucketEntry) : TokenBucketEntry :=
  match n with O => b | S n => after_calls now cap rate n (consume now cap rate (Some b)).2 end.

Definition memory_answers (now : Z) (cap rate : number) (b : TokenBucketEntry) (n : nat) : answer :=
  Now (consume now cap rate (Some (after_calls now cap rate n b))).1.

(** The calls of a drain: one per waiter, up to the first refusal. *)
Fixpoint drain_calls (answers : nat -> answer) (n : nat) (ws : list nat) : nat :=
  match ws with
  | [] => 0
  | _ :: ws => match answers n with Now true => S (drain_calls answers (S n) ws) | _ => 1 end
  end.

(** A timer fires at [now], over the in-memory store. *)
Definition fire (cap rate : number) (st : lane * TokenBucketEntry) (now : Z) : lane * TokenBucketEntry :=
  let '(l, b) := st in
  let answers := memory_answers now cap rate b in
  (timer_fires answers l, after_calls now cap rate (if timer l then drain_calls answers 0 (waiters l) else 0) b).

Definition in_bounds (k : Z) (b : TokenBucketEntry) : Prop := exists u, tokens b = Fin u /\ 0 <= u <= k * num_scale.

Lemma after_calls_ok now k r n b : 0 <= k <= 2 ^ 20 -> 0 <= r <= 1000 -> in_bounds k b -> lastRefillMs b <= now <= lastRefillMs b + 2 ^ 30 ->
  in_bounds k (after_calls now (of_int k) (of_int r) n b) /\
  lastRefillMs (after_calls now (of_int k) (of_int r) n b) = if bool_decide (n = 0%nat) then lastRefillMs b else now.
Proof.
  intros Hk Hr. revert b. induction n as [|n IH]; intros b (u & Eu & Hu) Ht; [split; [by exists u|done]|].
  cbn [after_calls]. pose proof (consume_ledger now k r b u Hk Hr ltac:(lia) Eu Hu) as H.
  destruct (consume now (of_int k) (of_int r) (Some b)) as [ok b']. destruct H as (v & Ev & Hv & Hlast & _). simpl.
  rewrite Z.max_l in Hlast by lia. destruct (IH b' ltac:(by exists v) ltac:(lia)) as [H1 H2]. split; [done|].
  rewrite H2. by case_bool_decide.
Qed.

Lemma consume_grants now k r b : 1 <= k <= 2 ^ 20 -> 0 < r <= 1000 -> in_bounds k b -> delay_suffices r = true ->
  lastRefillMs b + delay_of r <= now <= lastRefillMs b + 2 ^ 30 -> (consume now (of_int k) (of_int r) (Some b)).1 = true.
Proof.
  intros Hk Hr (u & Eu & Hu) Hd Ht. pose proof num_scale_pos. unfold delay_suffices in Hd.
  apply andb_true_iff in Hd as [[_ Hd2%bool_decide_eq_true]%andb_true_iff Hd3%num_leb_atleast].
  unfold consume, take_token, refill. cbv zeta. destruct (Z.ltb_spec 0 (now - lastRefillMs b)); [|lia]. cbn [tokens].
  assert (H1 : num_leb (of_int 1) (num_min (of_int k) (num_add (tokens b) (refilled (now - lastRefillMs b) (of_int r)))) = true).
  { apply num_leb_atleast, num_min_atleast; [cbn; nia|]. change 1 with (0 + 1). apply num_add_atleast; [lia..| |].
    - rewrite Eu. cbn. lia.
    - eapply refilled_mono; [|..|exact Hd3]; lia. }
  by rewrite H1.
Qed.

Lemma drain_loop_shrinks fuel answers n l :
  (length (waiters (drain_loop fuel answers n l)) <= length (waiters l))%nat /\ next_waiter (drain_loop fuel answers n l) = next_waiter l.
Proof.
  revert n l. induction fuel as [|fuel IH]; intros n l; simpl.
  - unfold reschedule. destruct (waiters l) eqn:E; simpl; rewrite ?E; done.
  - destruct (waiters l) as [|w ws] eqn:E; [unfold reschedule; rewrite E; simpl; rewrite E; done|].
    destruct (answers n) as [[]|]; [|unfold reschedule; rewrite E; simpl; by rewrite E|done].
    destruct (IH (S n) (shift l)) as [H1 H2]. rewrite H2. unfold shift in *. rewrite E in *. simpl in *. split; [lia|done].
Qed.

Lemma drain_loop_sync fuel answers n l : (forall i, exists b, answers i = Now b) ->
  waiters (drain_loop fuel answers n l) <> [] -> timer (drain_loop fuel answers n l) = true.
Proof.
  intros Hs. revert n l. induction fuel as [|fuel IH]; intros n l; simpl.
  - unfold reschedule. destruct (waiters l) eqn:E; [by rewrite E|done].
  - destruct (waiters l) as [|w ws] eqn:E; [unfold reschedule; rewrite E; by rewrite E|].
    destruct (Hs n) as [b ->]. destruct b; [apply IH|]. unfold reschedule. by rewrite E.
Qed.

(** Firings a delay apart. *)
Fixpoint paced (r t : Z) (times : list Z) : Prop :=
  match times with [] => True | now :: rest => t + delay_of r <= now <= t + 2 ^ 30 /\ paced r now rest end.

Definition served (depth : nat) (k : Z) (st : lane * TokenBucketEntry) : Prop :=
  lane_ok depth st.1 /\ in_bounds k st.2 /\ (waiters st.1 <> [] -> timer st.1 = true).

Lemma fire_serves depth k r now st : 1 <= k <= 2 ^ 20 -> 0 < r <= 1000 -> delay_suffices r = true -> served depth k st ->
  waiters st.1 <> [] -> lastRefillMs st.2 + delay_of r <= now <= lastRefillMs st.2 + 2 ^ 30 ->
  let st' := fire (of_int k) (of_int r) st now in
  served depth k st' /\ (length (waiters st'.1) < length (waiters st.1))%nat /\ lastRefillMs st'.2 = now /\
  next_waiter st'.1 = next_waiter st.1.
Proof.
  intros Hk Hr Hd. destruct st as [l b]. simpl. intros (Hl & Hb & Ht) Hne Htime. simpl in *. specialize (Ht Hne).
  assert (Hdelay : 1 <= delay_of r).
  { unfold delay_suffices in Hd. apply andb_true_iff in Hd as [[_ Hd2%bool_decide_eq_true]%andb_true_iff _]. lia. }
  pose proof (lane_step_ok depth l (TimerFires (memory_answers now (of_int k) (of_int r) b)) Hl) as Hstep. simpl in Hstep.
  set (answers := memory_answers now (of_int k) (of_int r) b) in *.
  assert (Hfirst : answers 0%nat = Now true) by (unfold answers, memory_answers; f_equal; by apply consume_grants).
  rewrite Ht. destruct (waiters l) as [|w ws] eqn:E; [done|].
  destruct (after_calls_ok now k r (drain_calls answers 0 (w :: ws)) b ltac:(lia) ltac:(lia) Hb ltac:(lia)) as [Hb' Hlast].
  rewrite bool_decide_eq_false_2 in Hlast by (cbn [drain_calls]; by rewrite Hfirst).
  assert (Hloop : exists l0, timer_fires answers l = drain_loop (length (w :: ws)) answers 1 l0 /\ waiters l0 = ws /\ next_waiter l0 = next_waiter l).
  { unfold timer_fires, drain. rewrite Ht. cbn [waiters]. rewrite E. cbn [drain_loop waiters]. rewrite Hfirst.
    eexists. split; [done|]. done. }
  destruct Hloop as (l0 & El & Ew & En). pose proof (drain_loop_shrinks (length (w :: ws)) answers 1 l0) as [Hsh Hnx].
  rewrite <- El in *. rewrite Ew in Hsh. split; [|split; [simpl; lia|split; [done|congruence]]].
  split; [done|]. split; [done|]. simpl. rewrite El. apply drain_loop_sync. intros i. by eexists.
Qed.

Lemma fire_idle cap rate times st : waiters st.1 = [] ->
  let l := (foldl (fire cap rate) st times).1 in waiters l = [] /\ resolved l = resolved st.1.
Proof.
  revert st. induction times as [|now rest IH]; intros [l b] E; [done|]. simpl in *.
  destruct (IH (fire cap rate (l, b) now)) as [H1 H2]; simpl in *.
  - unfold timer_fires. destruct (timer l); [|done]. unfold drain. cbn [waiters]. rewrite E. done.
  - split; [done|]. rewrite H2. unfold timer_fires. destruct (timer l); [|done]. unfold drain. cbn [waiters]. by rewrite E.
Qed.


(** ** Redis and memory *)

(** A rounded value of at least two units loses at most a fifth. *)
Lemma round_ratio_lower p q : 0 < q -> 2 * q <= p -> 4 * p <= 5 * (round_ratio p q * q).
Proof.
  intros Hq Hp. unfold round_ratio. assert (Hbig : 2 * (q * 2 ^ ratio_exponent p q) <= p).
  { unfold ratio_exponent. assert (Hpos : 0 < p / q) by (apply Z.div_str_pos; lia).
    destruct (Z.le_gt_cases (Z.log2 (p / q) - 52) 0) as [H|H]; [rewrite Z.max_l by lia; change (2 ^ 0) with 1; lia|].
    rewrite Z.max_r by lia. pose proof (Z.log2_spec _ Hpos) as [Hlo _].
    assert (Hw : 2 * 2 ^ (Z.log2 (p / q) - 52) <= 2 ^ Z.log2 (p / q)).
    { rewrite <- Z.pow_succ_r by lia. apply Z.pow_le_mono_r; lia. }
    pose proof (Z.mul_div_le p q Hq). nia. }
  set (w := 2 ^ ratio_exponent p q) in *.
  assert (Hw : 0 < w) by (apply Z.pow_pos_nonneg; [lia|apply ratio_exponent_nonneg]).
  assert (Hd : 0 < q * w) by nia. pose proof (Z.div_mod p (q * w) ltac:(lia)) as E.
  pose proof (Z.mod_pos_bound p (q * w) Hd). unfold div_round. cbv zeta.
  assert (Hn : 2 <= p / (q * w)) by (apply Z.div_le_lower_bound; lia).
  set (n := p / (q * w)) in *. set (r := p mod (q * w)) in *.
  assert (Hup : ((q * w <? 2 * r) || ((q * w =? 2 * r) && Z.odd n))%bool = false -> 2 * r <= q * w).
  { intros [? _]%orb_false_iff. lia. }
  destruct (_ || _)%bool; [|specialize (Hup eq_refl)]; nia.
Qed.

Definition int_ttl (k r : Z) : Z := default 0 (to_int (ttl_seconds (of_int k) (of_int r))).

(** The time to live is long enough to refill the whole bucket. *)
Lemma int_ttl_spec k r : 1 <= k <= 2 ^ 20 -> 1 <= r <= 1000 ->
  ttl_seconds (of_int k) (of_int r) = of_int (int_ttl k r) /\ 60 <= int_ttl k r <= 2 ^ 24 /\ k <= int_ttl k r * r.
Proof.
  intros Hk Hr. pose proof num_scale_pos as Hs.
  assert (Hbig : 2 ^ 20 <= num_scale) by (rewrite num_scale_pow; apply Z.pow_le_mono_r; lia).
  assert (H : exists m, ttl_seconds (of_int k) (of_int r) = of_int m /\ 60 <= m <= 2 ^ 24 /\ k <= m * r).
  2:{ destruct H as (m & E & Hm). unfold int_ttl. rewrite E.
      assert (Em : to_int (of_int m) = Some m); [|by rewrite Em].
      unfold to_int, of_int. rewrite Z.mod_mul, Z.div_mul by lia. done. }
  set (s := num_scale) in *. unfold ttl_seconds, num_div, of_int. fold s.
  replace (r * s =? 0) with false by (symmetry; apply Z.eqb_neq; nia).
  assert (Hq : 0 < r * s) by nia. assert (Hp : 0 <= k * s * s) by nia.
  assert (Hle : k * s * s <= 2 ^ 20 * s * (r * s)) by nia.
  rewrite (of_ratio_small _ _ (2 ^ 20)) by done.
  pose proof (round_ratio_le _ _ (2 ^ 20) Hp Hq ltac:(done) Hle) as Ha.
  assert (Hlow : 4 * (k * s * s) <= 5 * (round_ratio (k * s * s) (r * s) * (r * s))) by (apply round_ratio_lower; nia).
  set (a := round_ratio (k * s * s) (r * s)) in *. fold s in Ha.
  assert (H1 : 4 * (k * s) <= 5 * (a * r)) by nia. assert (Ha1 : 1 <= a) by nia. clear Hlow Hle Hp.
  unfold num_mul. fold s. assert (Hp : 0 <= a * (2 * s)) by nia. assert (Hle : a * (2 * s) <= 2 ^ 21 * s * s) by nia.
  rewrite (of_ratio_small _ _ (2 ^ 21)) by done.
  pose proof (round_ratio_le _ _ (2 ^ 21) Hp Hs ltac:(done) Hle) as Hc.
  assert (Hlow : 4 * (a * (2 * s)) <= 5 * (round_ratio (a * (2 * s)) s * s)) by (apply round_ratio_lower; nia).
  set (c := round_ratio (a * (2 * s)) s) in *. fold s in Hc.
  assert (H2 : 8 * a <= 5 * c) by nia. clear Hlow Hle Hp.
  unfold num_ceil. fold s. change (Fin (60 * s)) with (of_int 60). change (Fin (- (- c / s) * s)) with (of_int (- (- c / s))).
  rewrite num_max_int. eexists. split; [done|]. pose proof (Z.mul_div_le (- c) s Hs) as Hd.
  assert (Hm : c <= - (- c / s) * s) by lia. assert (Hm2 : - (- c / s) <= 2 ^ 21).
  { assert (- 2 ^ 21 <= - c / s) by (apply Z.div_le_lower_bound; lia). lia. }
  set (m := - (- c / s)) in *. split; [lia|].
  assert (H3 : k * s <= c * r) by nia. assert (H4 : c * r <= Z.max 60 m * s * r) by nia.
  nia.
Qed.

Lemma num_min_atleast_l k x : atleast k x -> num_min (of_int k) x = of_int k.
Proof.
  destruct x as [|b|u]; [done|by intros ->|]. cbn [atleast]. intros H. unfold of_int. rewrite num_min_fin. f_equal. lia.
Qed.

(** A bucket whose hash has expired would be full by now. *)
Lemma expired_full now k r b : 1 <= k <= 2 ^ 20 -> 1 <= r <= 1000 -> in_bounds k b ->
  lastRefillMs b + 1000 * int_ttl k r <= now ->
  refill now (of_int k) (of_int r) (Some b) = {| tokens := of_int k; lastRefillMs := now; queue := queue b |}.
Proof.
  intros Hk Hr (u & Eu & Hu) Hexp. destruct (int_ttl_spec k r Hk Hr) as (_ & Hm & Hmr). unfold refill. cbv zeta.
  destruct (Z.ltb_spec 0 (now - lastRefillMs b)); [|lia]. f_equal. apply num_min_atleast_l. change k with (0 + k).
  apply num_add_atleast; [lia..|rewrite Eu; cbn; lia|]. apply (refilled_atleast _ r (int_ttl k r)); lia.
Qed.

Section Agreement.
Context (hashKey : string -> string) (prefix : string) (k r : Z).

(** The hash of a key and its entry in memory. *)
Definition same_bucket (t : Z) (b : option TokenBucketEntry) (h : option redis_hash) : Prop :=
  match b, h with
  | None, None => True
  | Some b, Some h => r_tokens h = tokens b /\ r_last h = lastRefillMs b /\ expiresAt h = lastRefillMs b + 1000 * int_ttl k r /\
                      in_bounds k b /\ lastRefillMs b <= t
  | _, _ => False
  end.

Definition agree (t : Z) (s : RateLimitStore) (rs : redis_store) : Prop :=
  isConnected rs = true /\ keyPrefix rs = prefix /\
  forall h, same_bucket t (map_get h (tokenBuckets s)) (map_get (prefix +:+ h)%string (redis rs)).

Lemma prefix_inj (p a b : string) : (p +:+ a)%string = (p +:+ b)%string -> a = b.
Proof. induction p as [|c p IH]; simpl; [done|]. intros [= E]. auto. Qed.

Lemma take_token_bounds b : 1 <= k <= 2 ^ 20 -> in_bounds k b -> in_bounds k (take_token b).2.
Proof.
  intros Hk (u & Eu & Hu). pose proof num_scale_pos. unfold take_token. rewrite Eu.
  destruct (num_leb (of_int 1) (Fin u)) eqn:E1; [|exists u; done]. apply num_leb_atleast in E1. cbn [atleast] in E1.
  unfold num_sub. change (num_neg (of_int 1)) with (Fin (- (1 * num_scale))). rewrite num_add_ratio by lia.
  rewrite (of_ratio_small _ _ k) by lia. eexists. split; [done|]. split; [apply round_ratio_nonneg|apply round_ratio_le]; lia.
Qed.

Lemma refill_bounds now o : 1 <= k <= 2 ^ 20 -> 1 <= r <= 1000 -> (forall b, o = Some b -> in_bounds k b) ->
  in_bounds k (refill now (of_int k) (of_int r) o).
Proof.
  intros Hk Hr Ho. pose proof num_scale_pos. destruct o as [b|]; [|exists (k * num_scale); split; [done|nia]].
  destruct (Ho b eq_refl) as (u & Eu & Hu). unfold refill. cbv zeta.
  destruct (Z.ltb_spec 0 (now - lastRefillMs b)); [|by exists u].
  assert (Hx : atleast 0 (num_add (tokens b) (refilled (now - lastRefillMs b) (of_int r)))).
  { change 0 with (0 + 0). apply num_add_atleast; [lia..|rewrite Eu; cbn; lia|]. apply (refilled_atleast _ r 0); lia. }
  unfold in_bounds. cbn [tokens]. destruct (num_add _ _) as [|i|y]; [done| |].
  - cbn in Hx. subst i. exists (k * num_scale). split; [done|nia].
  - unfold of_int. rewrite num_min_fin. cbn [atleast] in Hx. eexists. split; [done|]. nia.
Qed.

Lemma refill_last now o : (forall b, o = Some b -> lastRefillMs b <= now) -> lastRefillMs (refill now (of_int k) (of_int r) o) = now.
Proof.
  intros Ho. destruct o as [b|]; [|done]. specialize (Ho b eq_refl). unfold refill. cbv zeta.
  destruct (Z.ltb_spec 0 (now - lastRefillMs b)); simpl; [done|lia].
Qed.

(** The script reads the bucket as memory would have refilled it. *)
Lemma lua_read now b h : 1 <= k <= 2 ^ 20 -> 1 <= r <= 1000 -> same_bucket now b h ->
  lua_refill now (of_int k) (of_int r) (match h with Some h => if bool_decide (now < expiresAt h) then Some h else None | None => None end) =
  (tokens (refill now (of_int k) (of_int r) b), lastRefillMs (refill now (of_int k) (of_int r) b)).
Proof.
  intros Hk Hr Hs. destruct b as [b|], h as [h|]; try done. destruct Hs as (E1 & E2 & E3 & Hb & Hl).
  case_bool_decide as Hexp.
  - unfold lua_refill. cbv zeta. rewrite E1, E2. unfold refill. cbv zeta. by destruct (0 <? _).
  - rewrite (expired_full now k r b) by (done || lia). done.
Qed.

Lemma agree_step now t p s rs : 1 <= k <= 2 ^ 20 -> 1 <= r <= 1000 -> agree t s rs -> t <= now ->
  let m := memory_consumeToken hashKey now p (of_int k) (of_int r) s in
  let d := redis_consumeToken hashKey now true p (of_int k) (of_int r) rs in
  m.1 = d.1 /\ agree now m.2 d.2.
Proof.
  intros Hk Hr (Hc & Hpre & Hag) Ht m d. pose proof (int_ttl_spec k r Hk Hr) as (Ettl & _).
  assert (Ed : exists q, (redis_consumeToken hashKey now true p (of_int k) (of_int r) rs) =
     ((take_token (refill now (of_int k) (of_int r) (getTokenBucket hashKey p s))).1,
      {| redis := map_set (prefix +:+ hashKey p)%string q (redis rs); keyPrefix := prefix; fallbackStore := fallbackStore rs; isConnected := true |}) /\
     same_bucket now (Some (take_token (refill now (of_int k) (of_int r) (getTokenBucket hashKey p s))).2) (Some q)).
  { pose proof (Hag (hashKey p)) as Hp. assert (Hs : same_bucket now (getTokenBucket hashKey p s) (map_get (prefix +:+ hashKey p)%string (redis rs))).
    { unfold getTokenBucket. unfold same_bucket in *. destruct (map_get _ (tokenBuckets s)), (map_get _ (redis rs)); try done. naive_solver lia. }
    pose proof (lua_read now _ _ Hk Hr Hs) as Hread.
    assert (Hb : in_bounds k (refill now (of_int k) (of_int r) (getTokenBucket hashKey p s))).
    { apply refill_bounds; [done..|]. intros b E. rewrite E in Hs. destruct (map_get _ (redis rs)); [|done]. by destruct Hs as (_ & _ & _ & ? & _). }
    assert (Hlast : lastRefillMs (refill now (of_int k) (of_int r) (getTokenBucket hashKey p s)) = now).
    { apply refill_last. intros b E. rewrite E in Hs. destruct (map_get _ (redis rs)); [|done]. by destruct Hs as (_ & _ & _ & _ & ?). }
    pose proof (take_token_bounds _ Hk Hb) as Hb'.
    unfold redis_consumeToken, lua_consume, redis_key, redis_get. rewrite Hc, Hpre. cbn [andb]. rewrite Hread, Hlast.
    fold (int_ttl k r). set (R := refill _ _ _ _) in *. unfold take_token in *.
    destruct (num_leb (of_int 1) (tokens R)); eexists; (split; [done|]); cbn [fst snd same_bucket r_tokens r_last expiresAt tokens lastRefillMs] in *;
      rewrite ?Hlast; (split; [done|]); (split; [done|]); (split; [done|]); (split; [done|]); lia. }
  destruct Ed as (q & Ed & Hq). unfold d, m. rewrite Ed. unfold memory_consumeToken, consume.
  destruct (take_token _) as [ok b'] eqn:E. cbn [fst snd] in *. split; [done|]. split; [done|]. split; [done|]. cbn [redis].
  intros h. unfold setTokenBucket. cbn [tokenBuckets]. destruct (decide (h = hashKey p)) as [->|Hne].
  - by rewrite !map_get_set_eq.
  - rewrite !map_get_set_ne; [|intros Heq; by apply prefix_inj in Heq|done]. specialize (Hag h).
    unfold same_bucket in *. destruct (map_get h _), (map_get _ (redis rs)); try done. naive_solver lia.
Qed.

Fixpoint memory_run (calls : list (Z * string)) (s : RateLimitStore) : list bool :=
  match calls with
  | [] => []
  | (now, p) :: rest => let '(ok, s') := memory_consumeToken hashKey now p (of_int k) (of_int r) s in ok :: memory_run rest s'
  end.

Fixpoint redis_run (calls : list (Z * string)) (s : redis_store) : list bool :=
  match calls with
  | [] => []
  | (now, p) :: rest => let '(ok, s') := redis_consumeToken hashKey now true p (of_int k) (of_int r) s in ok :: redis_run rest s'
  end.

Lemma agree_run calls t s rs : 1 <= k <= 2 ^ 20 -> 1 <= r <= 1000 -> agree t s rs ->
  Sorted Z.le (t :: calls.*1) -> memory_run calls s = redis_run calls rs.
Proof.
  intros Hk Hr. revert t s rs. induction calls as [|[now p] rest IH]; intros t s rs Ha Hs; [done|]. cbn [memory_run redis_run].
  apply Sorted_inv in Hs as [Hs Hhd]. apply HdRel_inv in Hhd. simpl in Hhd.
  destruct (agree_step now t p s rs Hk Hr Ha Hhd) as [E Ha'].
  destruct (memory_consumeToken _ _ _ _ _ s) as [ok s'], (redis_consumeToken _ _ _ _ _ _ rs) as [ok' rs'].
  cbn [fst snd] in *. subst ok'. f_equal. by apply (IH now).
Qed.
End Agreement.

Definition empty_redis (prefix : string) (s : RateLimitStore) : redis_store :=
  {| redis := []; keyPrefix := prefix; fallbackStore := s; isConnected := true |}.

Definition empty_memory : RateLimitStore := {| counters := []; tokenBuckets := []; destroyed := false |}.

(** The Redis store and the in-memory store grant the same calls: for every
    interleaving of providers on a clock that does not run backwards, while Redis
    answers, the script's decisions are those of memory, although the script
    lets idle hashes expire. *)
Theorem redis_matches_memory hashKey prefix k r calls f :
  1 <= k <= 2 ^ 20 -> 1 <= r <= 1000 -> Sorted Z.le (calls.*1) ->
  redis_run hashKey k r calls (empty_redis prefix f) = memory_run hashKey k r calls empty_memory.
Proof.
  intros Hk Hr Hs. destruct calls as [|[t p] rest]; [done|]. symmetry. apply (agree_run hashKey prefix k r _ t); [done..| |].
  - split; [done|]. split; [done|]. intros h. done.
  - constructor; [done|]. constructor. simpl. lia.
Qed.

(** ** The configuration *)

Lemma toMs_nonneg v d : 0 <= d -> atleast 0 (toMs v d).
Proof.
  intros Hd. pose proof num_scale_pos. assert (Hdef : atleast 0 (of_int d)) by (cbn; nia).
  unfold toMs. destruct v as [s|]; [|done]. cbv zeta. destruct (js_number s) as [|b|u]; [done|by destruct b|].
  change (num_ltb (Fin u) (of_int 0)) with (u <? 0 * num_scale). rewrite bool_decide_eq_false_2 by done. cbn [orb].
  destruct (Z.ltb_spec u (0 * num_scale)); [done|cbn; lia].
Qed.

Lemma toCount_positive v d : 1 <= d -> atleast 1 (toCount v d) /\ (toCount v d = Infinity false \/ is_integer (toCount v d) = true).
Proof.
  intros Hd. pose proof num_scale_pos as Hs.
  assert (Hdef : atleast 1 (of_int d) /\ (of_int d = Infinity false \/ is_integer (of_int d) = true)).
  { split; [cbn; nia|]. right. unfold is_integer, of_int. rewrite Z.mod_mul by lia. done. }
  unfold toCount. destruct v as [s|]; [|done]. cbv zeta.
  destruct (js_number s) as [|b|u]; [done|destruct b; [done|split; [done|by left]]|]. cbn [num_floor].
  rewrite bool_decide_eq_false_2 by done. cbn [orb].
  change (num_ltb (Fin (u / num_scale * num_scale)) (of_int 1)) with (u / num_scale * num_scale <? 1 * num_scale).
  destruct (Z.ltb_spec (u / num_scale * num_scale) (1 * num_scale)); [done|]. split; [cbn; lia|].
  right. unfold is_integer. rewrite Z.mod_mul by lia. done.
Qed.

(** Whatever the environment holds, every tier has a limit and a threshold of at
    least one request and durations that are not negative. *)
Theorem tiers_valid env t :
  let c := rateLimitConfig env t in
  atleast 1 (t_maxRequests c) /\ atleast 1 (t_abuseThreshold c) /\ atleast 0 (t_windowMs c) /\ atleast 0 (t_blockWindowMs c) /\
  atleast 0 (t_blockDurationMs c) /\ atleast 0 (t_maxBlockDurationMs c).
Proof.
  intros c. subst c. destruct t; unfold rateLimitConfig, tier; cbn [t_maxRequests t_abuseThreshold t_windowMs t_blockWindowMs t_blockDurationMs t_maxBlockDurationMs];
    split_and!; try (apply toMs_nonneg; done); apply toCount_positive; done.
Qed.

(** A blank variable is the number 0: a window that is always over. *)
Example blank_window : toMs (Some ""%string) 60000 = of_int 0.
Proof. reflexivity. Qed.

(** ** Witnesses *)

Definition half_env (v : string) : option string := if bool_decide (v = "WEBHOOK_BUCKET_CAPACITY"%string) then Some "0.5"%string else None.

Lemma fractional_capacity_starves_witness :
  match loadWebhookTokenBucketConfig half_env with
  | Ok c => Forall (fun ok => ok = false) (consume_run (capacity c) (refillRatePerSec c) [0; 1000; 3600000] None)
  | Err _ => False
  end.
Proof.
  assert (E : exists c, loadWebhookTokenBucketConfig half_env = Ok c /\ num_leb (of_int 1) (capacity c) = false).
  { eexists. split; [vm_compute; reflexivity|vm_compute; reflexivity]. }
  destruct E as (c & -> & Hc). apply fractional_capacity_starves. exact Hc.
Defined.

Lemma limiter_paces_witness :
  let l := foldl (lane_step 2) empty_lane [Acquire Later; Acquire Later; Acquire Later; TimerFires (fun _ => Later); OwnReply 0 (Fulfilled true)] in
  (length (resolved l) <= granted l)%nat /\ (length (waiters l) <= 2)%nat /\ waiters l = [1%nat] /\ refused l = 1%nat.
Proof.
  pose proof (limiter_paces 2 [Acquire Later; Acquire Later; Acquire Later; TimerFires (fun _ => Later); OwnReply 0 (Fulfilled true)] ltac:(lia)) as (_ & H1 & H2 & _).
  split; [exact H1|]. split; [exact H2|]. split; reflexivity.
Defined.

Lemma bucket_rate_bound_witness :
  2 ^ 20 * 1000 * grants (consume_run (of_int 2) (of_int 1) [0; 0; 0; 1000] None) <=
  2 ^ 20 * (1000 * 2 + 1 * (1000 - 0)) + 1000 * 4.
Proof. apply (bucket_rate_bound 2 1 0 [0; 0; 1000]); [lia|lia|]. cbn [clock_run]. lia. Defined.

Definition waiting_lane : lane := lane_step 5 (lane_step 5 empty_lane (Acquire (Now false))) (Acquire (Now false)).


Lemma redis_matches_memory_witness :
  redis_run id 10 2 [(0, "a"%string); (5, "b"%string); (70000, "a"%string)] (empty_redis "p:" empty_memory) =
  memory_run id 10 2 [(0, "a"%string); (5, "b"%string); (70000, "a"%string)] empty_memory.
Proof.
  apply redis_matches_memory; [lia|lia|]. simpl.
  apply Sorted_cons; [apply Sorted_cons; [apply Sorted_cons; [apply Sorted_nil|apply HdRel_nil]|apply HdRel_cons; lia]|apply HdRel_cons; lia].
Defined.
End TokenBucket.
