(* ===== verification/Shutdown.v ===== *)
(** * Graceful shutdown: src/shutdown.ts

    The sequence [registerShutdownHandlers] installs, as the list of calls it
    makes.  What each call returns is an argument: a promise that resolves,
    rejects, or does not settle within the grace period ([Hangs]).  A promise
    that is raced against a timer loses when it hangs; one that is not raced
    stops the sequence.  Log messages are not represented. *)

From stdpp Require Import prelude strings.
From Stdlib Require Import ZArith Lia.
From S2P Require Import Prelude JsMap JsValue RetryPolicies QueueManager.
Import RetryPolicies.
Open Scope Z_scope.

Module Shutdown.

(** How a promise settles. *)
Inductive settled : Type := Resolves | Rejects | Hangs.

#[export] Instance settled_eq_dec : EqDecision settled.
Proof. solve_decision. Defined.

Record WebhookService : Type := { inFlightCount : nat; webhook_drain : settled; flushToDLQ : settled }.

Record ShutdownHandler : Type := {
  stop_throws : bool;
  handler_drain : settled;
  handler_checkpoint : settled;
  handler_close : option settled;      (* [close] is optional *)
}.

Record environment : Type := {
  http_close : settled;
  webhookService : option WebhookService;
  handlers : list ShutdownHandler;
  workers : list settled;
  connections : list settled;
}.

Inductive action : Type :=
| HttpClose
| WebhookStop | WebhookDrain | FlushToDLQ
| HandlerStop (i : nat) | HandlerDrain (i : nat) | HandlerCheckpoint (i : nat) | HandlerClose (i : nat)
| WorkerClose (i : nat) | ConnectionClose (i : nat)
| Exit.

#[export] Instance action_eq_dec : EqDecision action.
Proof. solve_decision. Defined.

(** Where an asynchronous function stands after its last call. *)
Inductive progress : Type := Continue | Stuck | Threw.

#[export] Instance progress_eq_dec : EqDecision progress.
Proof. solve_decision. Defined.

Definition phase : Type := list action * progress.

(** [await p; k] *)
Definition then_ (p : phase) (k : phase) : phase :=
  match p with (a, Continue) => (a ++ k.1, k.2) | _ => p end.

Infix ">>>" := then_ (at level 55, right associativity).

(** [Promise.allSettled] of promises that catch their own rejection. *)
Definition all_settled (l : list settled) : progress :=
  if bool_decide (Hangs ∈ l) then Stuck else Continue.

(** ** The phases *)

(** Raced against a timer, and every failure is caught. *)
Definition closeHttpServer (e : environment) : phase := ([HttpClose], Continue).

(** The race against the timer; a rejection of [drain] that comes first rejects
    the race.  The flush is caught but not raced. *)
Definition drainWebhookDeliveries (s : WebhookService) : phase :=
  ([WebhookStop], Continue) >>>
  if bool_decide (inFlightCount s = 0%nat) then ([], Continue)
  else match webhook_drain s with
       | Resolves => ([WebhookDrain], Continue)
       | Rejects => ([WebhookDrain], Threw)
       | Hangs => ([WebhookDrain; FlushToDLQ], all_settled [flushToDLQ s])
       end.

Definition indexed (f : nat -> action) {A} (l : list A) : list action := imap (fun i _ => f i) l.

Definition drainShutdownHandlers (hs : list ShutdownHandler) : phase :=
  match hs with
  | [] => ([], Continue)
  | _ =>
      let timedOut := bool_decide (Hangs ∈ handler_drain <$> hs) in
      (indexed HandlerStop hs, Continue) >>>
      (indexed HandlerDrain hs, Continue) >>>
      (if timedOut then (indexed HandlerCheckpoint hs, all_settled (handler_checkpoint <$> hs)) else ([], Continue)) >>>
      (mjoin (imap (fun i h => match handler_close h with Some _ => [HandlerClose i] | None => [] end) hs),
       all_settled (omap handler_close hs))
  end.

(** [closeWorker] is raced, and its failure is caught. *)
Definition closeWorkers (e : environment) : phase := (indexed WorkerClose (workers e), Continue).

Definition closeConnections (e : environment) : phase :=
  (indexed ConnectionClose (connections e), all_settled (connections e)).

(** The body of [shutdown]. *)
Definition sequence (e : environment) : phase :=
  closeHttpServer e >>>
  (match webhookService e with Some s => drainWebhookDeliveries s | None => ([], Continue) end) >>>
  drainShutdownHandlers (handlers e) >>>
  closeWorkers e >>>
  closeConnections e >>>
  ([Exit], Continue).

(** ** Signals *)

Record process : Type := { shuttingDown : bool; draining : bool; log : list action; status : progress }.

Definition running : process := {| shuttingDown := false; draining := false; log := []; status := Continue |}.

(** A signal arrives; [process.once] and the flag let the first one through. *)
Definition shutdown (e : environment) (p : process) : process :=
  if shuttingDown p then p
  else let '(l, s) := sequence e in {| shuttingDown := true; draining := true; log := log p ++ l; status := s |}.

Definition isReadinessDraining (p : process) : bool := draining p.

(** ** Theorems *)

Lemma then_assoc p q r : (p >>> q) >>> r = p >>> (q >>> r).
Proof. destruct p as [a []], q as [b []]; simpl; try done. by rewrite <- (assoc (++)). Qed.

Lemma then_continue a k : (a, Continue) >>> k = (a ++ k.1, k.2).
Proof. done. Qed.

Lemma then_status p k : (p >>> k).2 = match p.2 with Continue => k.2 | s => s end.
Proof. by destruct p as [a []]. Qed.

(** The webhook phase returns. *)
Definition webhook_returns (o : option WebhookService) : bool :=
  match o with
  | None => true
  | Some s => bool_decide (inFlightCount s = 0%nat) ||
              match webhook_drain s with Resolves => true | Rejects => false | Hangs => negb (bool_decide (flushToDLQ s = Hangs)) end
  end.

(** The handler phase returns. *)
Definition handlers_return (hs : list ShutdownHandler) : bool :=
  (negb (bool_decide (Hangs ∈ handler_drain <$> hs)) || negb (bool_decide (Hangs ∈ handler_checkpoint <$> hs))) &&
  negb (bool_decide (Hangs ∈ omap handler_close hs)).

Definition webhook_calls (o : option WebhookService) : list action :=
  match o with
  | None => []
  | Some s => WebhookStop :: if bool_decide (inFlightCount s = 0%nat) then []
                             else WebhookDrain :: match webhook_drain s with Hangs => [FlushToDLQ] | _ => [] end
  end.

Definition handler_calls (hs : list ShutdownHandler) : list action :=
  indexed HandlerStop hs ++ indexed HandlerDrain hs ++
  (if bool_decide (Hangs ∈ handler_drain <$> hs) then indexed HandlerCheckpoint hs else []) ++
  mjoin (imap (fun i h => match handler_close h with Some _ => [HandlerClose i] | None => [] end) hs).

Lemma webhook_phase o :
  (match o with Some s => drainWebhookDeliveries s | None => ([], Continue) end).1 = webhook_calls o /\
  ((match o with Some s => drainWebhookDeliveries s | None => ([], Continue) end).2 = Continue <-> webhook_returns o = true).
Proof.
  destruct o as [[n d f]|]; [|done]. unfold drainWebhookDeliveries, webhook_calls, webhook_returns. simpl.
  case_bool_decide; [done|]. destruct d; [done|by split|]. unfold all_settled. destruct f; done.
Qed.

Lemma handlers_phase hs :
  ((drainShutdownHandlers hs).2 = Continue <-> handlers_return hs = true) /\
  ((drainShutdownHandlers hs).2 = Continue -> (drainShutdownHandlers hs).1 = handler_calls hs).
Proof.
  destruct hs as [|h hs]; [done|]. unfold drainShutdownHandlers, handlers_return, handler_calls, all_settled.
  set (l := h :: hs). case_bool_decide; simpl; repeat (case_bool_decide; simpl); done.
Qed.

Lemma sequence_spec e :
  ((sequence e).2 = Continue <->
     webhook_returns (webhookService e) = true /\ handlers_return (handlers e) = true /\ Hangs ∉ connections e) /\
  ((sequence e).2 = Continue ->
     (sequence e).1 = HttpClose :: webhook_calls (webhookService e) ++ handler_calls (handlers e) ++
                      indexed WorkerClose (workers e) ++ indexed ConnectionClose (connections e) ++ [Exit]).
Proof.
  destruct (webhook_phase (webhookService e)) as [W1 W2]. destruct (handlers_phase (handlers e)) as [H1 H2].
  unfold sequence, closeHttpServer, closeWorkers, closeConnections. rewrite then_continue. cbn [fst snd].
  destruct (match webhookService e with Some s => _ | None => _ end) as [wl ws]. cbn [fst snd] in *. subst wl.
  destruct (drainShutdownHandlers (handlers e)) as [hl hp]. cbn [fst snd] in *.
  assert (Hc : all_settled (connections e) = Continue <-> Hangs ∉ connections e)
    by (unfold all_settled; case_bool_decide; naive_solver).
  split.
  - rewrite <- W2, <- H1, <- Hc. destruct ws; simpl; [|naive_solver..]. destruct hp; simpl; [|naive_solver..].
    destruct (all_settled (connections e)); simpl; naive_solver.
  - destruct ws; simpl; [|done..]. destruct hp; simpl; [|done..]. rewrite (H2 eq_refl).
    destruct (all_settled (connections e)); simpl; [|done..]. intros _. by rewrite <- ?(assoc (++)).
Qed.

(** The process reaches its exit exactly when nothing unguarded fails: the
    webhook drain does not reject, and no checkpoint that is needed, no close of
    a handler and no connection hangs.  A hanging HTTP server, worker or drain,
    and every rejected close, only costs its grace period.  When it exits, it has
    stopped every handler before draining any, drained before it checkpoints and
    closes, and closed every worker and then every connection, once each. *)
Theorem exit_reached e :
  ((sequence e).2 = Continue <->
     webhook_returns (webhookService e) = true /\ handlers_return (handlers e) = true /\ Hangs ∉ connections e) /\
  ((sequence e).2 = Continue ->
     (sequence e).1 = HttpClose :: webhook_calls (webhookService e) ++ handler_calls (handlers e) ++
                      indexed WorkerClose (workers e) ++ indexed ConnectionClose (connections e) ++ [Exit]).
Proof. apply sequence_spec. Qed.

(** A second signal changes nothing. *)
Theorem signals_idempotent e n p : foldl (fun p e => shutdown e p) (shutdown e p) (replicate n e) = shutdown e p.
Proof.
  assert (H : shuttingDown (shutdown e p) = true).
  { unfold shutdown. destruct (shuttingDown p) eqn:E; [done|]. by destruct (sequence e). }
  induction n as [|n IH]; [done|]. simpl. unfold shutdown at 2. by rewrite H.
Qed.

(** The rejected drain of the webhook service: no worker and no connection is
    closed and the process does not exit. *)
Example rejected_drain_aborts :
  sequence {| http_close := Resolves;
              webhookService := Some {| inFlightCount := 1; webhook_drain := Rejects; flushToDLQ := Resolves |};
              handlers := []; workers := [Resolves]; connections := [Resolves] |} = ([HttpClose; WebhookStop; WebhookDrain], Threw).
Proof. reflexivity. Qed.

(** ** The queue manager as a handler *)

Section QueueHandler.
Import Queues.
Context {Q : Type} `{JobQueue Q} (i : nat).

(** What the calls for handler [i] do to a queue manager; [drain] and
    [checkpoint] only read it. *)
Definition apply_action (m : manager (Q:=Q)) (a : action) : manager :=
  match a with
  | HandlerStop j => if bool_decide (j = i) then stopAccepting m else m
  | HandlerClose j => if bool_decide (j = i) then close m else m
  | _ => m
  end.

Lemma apply_others {A} (l : list A) k (m : manager (Q:=Q)) : (k + length l <= i)%nat ->
  foldl apply_action m (imap (fun j _ => HandlerStop (k + j)) l) = m.
Proof.
  revert k. induction l as [|x l IH]; intros k Hk; [done|]. simpl in *. rewrite bool_decide_eq_false_2 by lia.
  rewrite <- (IH (S k)) at 2 by lia. f_equal. apply imap_ext. intros j y _. simpl. f_equal. lia.
Qed.

Lemma apply_stopped m l : Queues.workers m <> [] -> foldl apply_action (stopAccepting m) l = stopAccepting m.
Proof.
  intros Hw. assert (Hc : close (stopAccepting m) = stopAccepting m).
  { unfold close, Queues.shutdown, shutdown_begin. simpl. by rewrite bool_decide_eq_false_2 by naive_solver. }
  induction l as [|a l IH]; [done|]. simpl. destruct a; simpl; try done; case_bool_decide; by rewrite ?Hc.
Qed.

(** The shutdown sequence never closes the queue manager registered with it:
    [stopAccepting] has raised the flag that makes its [close] return early, so
    after a sequence that reaches the exit its workers are all still open. *)
Theorem queue_manager_left_open e h (m : manager (Q:=Q)) :
  (sequence e).2 = Continue -> handlers e !! i = Some h -> Queues.workers m <> [] ->
  foldl apply_action m (sequence e).1 = stopAccepting m.
Proof.
  intros Hs Hi Hw. destruct (sequence_spec e) as [_ Hlog]. rewrite (Hlog Hs). simpl.
  assert (Hpre : foldl apply_action m (webhook_calls (webhookService e)) = m).
  { unfold webhook_calls. destruct (webhookService e) as [[n d f]|]; [|done]. simpl. case_bool_decide; [done|]. by destruct d. }
  rewrite foldl_app, Hpre. unfold handler_calls. rewrite !foldl_app.
  assert (Hstop : foldl apply_action m (indexed HandlerStop (handlers e)) = stopAccepting m).
  { apply list_elem_of_split_length in Hi as (l1 & l2 & -> & Hlen). unfold indexed. rewrite imap_app, foldl_app. simpl.
    rewrite (apply_others l1 0), Nat.add_0_r, bool_decide_eq_true_2 by lia. by apply apply_stopped. }
  rewrite Hstop. by rewrite !apply_stopped.
Qed.
End QueueHandler.

Definition queue_environment : environment :=
  {| http_close := Resolves; webhookService := None;
     handlers := [{| stop_throws := false; handler_drain := Resolves; handler_checkpoint := Resolves; handler_close := Some Resolves |}];
     workers := []; connections := [Resolves] |}.

Lemma queue_manager_left_open_witness :
  Queues.workers (foldl (apply_action 0) Queues.ListQueue.sample_manager (sequence queue_environment).1) =
  [EMAIL_NOTIFICATION; CONTRACT_PROCESSING].
Proof.
  rewrite (queue_manager_left_open 0 queue_environment _ Queues.ListQueue.sample_manager eq_refl eq_refl); [reflexivity|discriminate].
Defined.
End Shutdown.
