(* ===== verification/SessionTimeout.v ===== *)
(** * Session expiry: src/sessionTimeout.ts

    The controller with its two timers, as a machine over the instants at which
    it is called, timers fire and refreshes answer.  Instants are whole
    milliseconds; an expiry that is not a finite number is [NotFinite].  The
    timers are Node's: a delay outside 1..2^31-1 is 1.  The modal is markup and
    is not represented. *)

From stdpp Require Import prelude.
From Stdlib Require Import ZArith Lia.
From S2P Require Import Prelude.
Open Scope Z_scope.

Module SessionTimeout.

Inductive expiry : Type := NotFinite | At (ms : Z).

#[export] Instance expiry_eq_dec : EqDecision expiry.
Proof. solve_decision. Defined.

Inductive output : Type :=
| Warning (secondsRemaining : Z)
| Logout (redirectTo : unit)
| InvalidExpiry (e : expiry)
| StayLoggedInFailed.

(** The variables of the closure; a timer is the instant it is due at.  [trace]
    records the callbacks with the instant and the expiry in force. *)
Record controller : Type := {
  expiresAt : expiry;
  warningTimer : option Z;
  logoutTimer : option Z;
  hasLoggedOut : bool;
  trace : list (Z * expiry * output);
}.

Definition TIMEOUT_MAX : Z := 2 ^ 31 - 1.

(** [setTimeout] *)
Definition due (now delay : Z) : Z := now + (if bool_decide (1 <= delay <= TIMEOUT_MAX) then delay else 1).

Definition DEFAULT_WARNING_BEFORE_MS : Z := 60000.

Definition emit (now : Z) (o : output) (c : controller) : controller :=
  {| expiresAt := expiresAt c; warningTimer := warningTimer c; logoutTimer := logoutTimer c; hasLoggedOut := hasLoggedOut c;
     trace := trace c ++ [(now, expiresAt c, o)] |}.

Definition clearTimers (c : controller) : controller :=
  {| expiresAt := expiresAt c; warningTimer := None; logoutTimer := None; hasLoggedOut := hasLoggedOut c; trace := trace c |}.

Definition logout (now : Z) (c : controller) : controller :=
  if hasLoggedOut c then c
  else emit now (Logout tt)
    {| expiresAt := expiresAt c; warningTimer := None; logoutTimer := None; hasLoggedOut := true; trace := trace c |}.

(** [Number.isFinite(e) && e > now()] *)
Definition validateExpiry (now : Z) (e : expiry) : bool := match e with NotFinite => false | At ms => bool_decide (now < ms) end.

Definition secondsUntil (now : Z) (e : expiry) : Z :=
  match e with NotFinite => 0 | At ms => Z.max 0 (- ((now - ms) / 1000)) end.

Section Controller.
Context (warningBeforeMs : Z).

Definition schedule (now : Z) (c : controller) : controller :=
  let c := clearTimers c in
  match expiresAt c with
  | At ms =>
      if bool_decide (now < ms) then
        {| expiresAt := expiresAt c; warningTimer := Some (due now (Z.max 0 (ms - now - warningBeforeMs)));
           logoutTimer := Some (due now (Z.max 0 (ms - now))); hasLoggedOut := hasLoggedOut c; trace := trace c |}
      else logout now (emit now (InvalidExpiry (expiresAt c)) c)
  | NotFinite => logout now (emit now (InvalidExpiry (expiresAt c)) c)
  end.

Definition updateExpiry (now : Z) (e : expiry) (c : controller) : bool * controller :=
  if validateExpiry now e then
    (true, schedule now {| expiresAt := e; warningTimer := warningTimer c; logoutTimer := logoutTimer c;
                           hasLoggedOut := false; trace := trace c |})
  else (false, emit now (InvalidExpiry e) c).

(** The callback of the warning timer. *)
Definition fire_warning (now : Z) (c : controller) : controller :=
  match warningTimer c with
  | Some d =>
      if bool_decide (d <= now) then
        emit now (Warning (secondsUntil now (expiresAt c)))
          {| expiresAt := expiresAt c; warningTimer := None; logoutTimer := logoutTimer c; hasLoggedOut := hasLoggedOut c;
             trace := trace c |}
      else c
  | None => c
  end.

(** The callback of the logout timer. *)
Definition fire_logout (now : Z) (c : controller) : controller :=
  match logoutTimer c with Some d => if bool_decide (d <= now) then logout now c else c | None => c end.

(** The continuation of [stayLoggedIn]: the refreshed expiry, or a rejection. *)
Definition stayLoggedIn (now : Z) (answer : option expiry) (c : controller) : controller :=
  match answer with Some e => (updateExpiry now e c).2 | None => emit now StayLoggedInFailed c end.

Inductive input : Type := Start | Stop | Update (e : expiry) | FireWarning | FireLogout | Refreshed (answer : option expiry).

Definition step (c : controller) (i : Z * input) : controller :=
  let now := i.1 in
  match i.2 with
  | Start => schedule now c
  | Stop => clearTimers c
  | Update e => (updateExpiry now e c).2
  | FireWarning => fire_warning now c
  | FireLogout => fire_logout now c
  | Refreshed a => stayLoggedIn now a c
  end.

Definition create (e : expiry) : controller :=
  {| expiresAt := e; warningTimer := None; logoutTimer := None; hasLoggedOut := false; trace := [] |}.

Definition run (e : expiry) (l : list (Z * input)) : controller := foldl step (create e) l.

(** ** Logouts are not early *)

(** Within reach of a timer. *)
Definition reachable (now : Z) (e : expiry) : bool := match e with NotFinite => true | At ms => bool_decide (ms - now <= TIMEOUT_MAX) end.

(** The expiry a step may schedule for is within reach. *)
Definition in_reach (c : controller) (i : Z * input) : bool :=
  match i.2 with
  | Start => reachable i.1 (expiresAt c)
  | Update e | Refreshed (Some e) => reachable i.1 e
  | _ => true
  end.

Fixpoint all_in_reach (c : controller) (l : list (Z * input)) : bool :=
  match l with [] => true | i :: l => in_reach c i && all_in_reach (step c i) l end.

(** A logout comes when the expiry in force has passed. *)
Definition on_time (x : Z * expiry * output) : Prop :=
  match x with (t, e, Logout _) => validateExpiry t e = false | _ => True end.

Record timely (c : controller) : Prop := {
  timely_trace : Forall on_time (trace c);
  timely_timer : forall d, logoutTimer c = Some d -> validateExpiry d (expiresAt c) = false;
}.

Lemma validate_mono t t' e : t <= t' -> validateExpiry t e = false -> validateExpiry t' e = false.
Proof. destruct e as [|ms]; [done|]. simpl. rewrite !bool_decide_eq_false. lia. Qed.

Lemma emit_timely now o c : timely c -> on_time (now, expiresAt c, o) -> timely (emit now o c).
Proof. intros [Ht Hd] Ho. constructor; simpl; [|done]. apply Forall_app. split; [done|]. by constructor. Qed.

Lemma logout_timely now c : Forall on_time (trace c) -> (hasLoggedOut c = true -> timely c) ->
  validateExpiry now (expiresAt c) = false -> timely (logout now c).
Proof.
  intros Ht Hlo He. unfold logout. destruct (hasLoggedOut c); [by apply Hlo|].
  apply emit_timely; [|done]. by constructor.
Qed.

Lemma schedule_timely now c : Forall on_time (trace c) -> reachable now (expiresAt c) = true -> timely (schedule now c).
Proof.
  intros Ht Hr. assert (Hout : validateExpiry now (expiresAt c) = false ->
    timely (logout now (emit now (InvalidExpiry (expiresAt c)) (clearTimers c)))).
  { intros He. apply logout_timely; [|intros _; apply emit_timely|]; [|by constructor|done|done].
    simpl. apply Forall_app. split; [done|]. by constructor. }
  unfold schedule. simpl in *. destruct (expiresAt c) as [|ms] eqn:E; [by apply Hout|].
  case_bool_decide as Hlt; [|apply Hout; simpl; by apply bool_decide_eq_false].
  constructor; simpl; [done|]. intros d [= <-]. simpl in *. apply bool_decide_eq_true in Hr.
  apply bool_decide_eq_false. unfold due. rewrite Z.max_r by lia. rewrite bool_decide_eq_true_2; lia.
Qed.

Lemma step_timely c i : timely c -> in_reach c i = true -> timely (step c i).
Proof.
  destruct i as [now []]; unfold step, in_reach; simpl; intros Hc Hr.
  - apply schedule_timely; [by destruct Hc|done].
  - destruct Hc. by constructor.
  - unfold updateExpiry. destruct (validateExpiry now e); simpl; [|by apply emit_timely].
    apply schedule_timely; [by destruct Hc|done].
  - unfold fire_warning. destruct (warningTimer c); [|done]. case_bool_decide; [|done]. apply emit_timely; [|done].
    destruct Hc. by constructor.
  - unfold fire_logout. destruct (logoutTimer c) as [d|] eqn:Ed; [|done]. case_bool_decide; [|done].
    apply logout_timely; [by destruct Hc|done|]. eapply validate_mono; [done|]. by apply Hc.
  - unfold stayLoggedIn. destruct answer as [e|]; [|by apply emit_timely]. unfold updateExpiry.
    destruct (validateExpiry now e); simpl; [|by apply emit_timely]. apply schedule_timely; [by destruct Hc|done].
Qed.

Lemma run_timely l c : timely c -> all_in_reach c l = true -> timely (foldl step c l).
Proof.
  revert c. induction l as [|i l IH]; intros c Hc Hr; [done|]. simpl in *. apply andb_true_iff in Hr as [H1 H2].
  apply IH; [by apply step_timely|done].
Qed.

(** ** One logout per session *)

Definition is_logout (o : output) : bool := match o with Logout _ => true | _ => false end.

Definition logouts (l : list (Z * expiry * output)) : nat :=
  length (filter (fun x => is_logout x.2 = true) l).

Definition accepts (c : controller) (i : Z * input) : bool :=
  match i.2 with Update e | Refreshed (Some e) => validateExpiry i.1 e | _ => false end.

Fixpoint accepted (c : controller) (l : list (Z * input)) : nat :=
  match l with [] => 0 | i :: l => (if accepts c i then 1 else 0) + accepted (step c i) l end.

(** Logouts so far, and whether one more may come. *)
Definition budget (n : nat) (c : controller) : Prop :=
  (logouts (trace c) + (if hasLoggedOut c then 0 else 1) <= S n)%nat.

Lemma logouts_snoc l x : logouts (l ++ [x]) = (logouts l + match x.2 with Logout _ => 1 | _ => 0 end)%nat.
Proof. unfold logouts. rewrite filter_app, length_app. f_equal. by destruct x as [x []]. Qed.

Lemma logout_budget n now c : budget n c -> budget n (logout now c).
Proof. unfold budget, logout. destruct (hasLoggedOut c) eqn:E; simpl; [by rewrite E|]. rewrite logouts_snoc. simpl. lia. Qed.

Lemma emit_budget n now o c : budget n c -> (match o with Logout _ => False | _ => True end) -> budget n (emit now o c).
Proof. unfold budget. simpl. rewrite logouts_snoc. destruct o; simpl; try done; lia. Qed.

Lemma schedule_budget n now c : budget n c -> budget n (schedule now c).
Proof.
  intros Hb. unfold schedule. simpl. destruct (expiresAt c) as [|ms] eqn:E; [|case_bool_decide; [done|]];
    apply logout_budget, emit_budget; by unfold budget.
Qed.

Lemma update_budget n now e c : budget n c ->
  budget (n + if validateExpiry now e then 1 else 0) (updateExpiry now e c).2.
Proof.
  intros Hb. unfold updateExpiry. destruct (validateExpiry now e); simpl.
  - apply schedule_budget. unfold budget in *. simpl. destruct (hasLoggedOut c); lia.
  - rewrite Nat.add_0_r. by apply emit_budget.
Qed.

Lemma step_budget n c i : budget n c -> budget (n + if accepts c i then 1 else 0) (step c i).
Proof.
  destruct i as [now []]; unfold step, accepts; simpl; intros Hb; rewrite ?Nat.add_0_r.
  - by apply schedule_budget.
  - done.
  - by apply update_budget.
  - unfold fire_warning. destruct (warningTimer c); [|done]. case_bool_decide; [|done]. by apply emit_budget.
  - unfold fire_logout. destruct (logoutTimer c); [|done]. case_bool_decide; [|done]. by apply logout_budget.
  - unfold stayLoggedIn. destruct answer; [by apply update_budget|]. rewrite Nat.add_0_r. by apply emit_budget.
Qed.

Lemma run_budget n c l : budget n c -> budget (n + accepted c l) (foldl step c l).
Proof.
  revert n c. induction l as [|i l IH]; intros n c Hb; simpl; [by rewrite Nat.add_0_r|].
  rewrite Nat.add_assoc. by apply IH, step_budget.
Qed.

(** A session is logged out at most once, and never before it expires: in any
    order of calls, timers and refreshes there is at most one logout for the
    first expiry and one for each that was accepted later, and each comes when
    the expiry in force has passed, as long as every expiry is within 2^31-1 ms
    of the instant it is scheduled at. *)
Theorem logout_once_on_time e l :
  all_in_reach (create e) l = true ->
  (logouts (trace (run e l)) <= S (accepted (create e) l))%nat /\
  Forall (fun x => match x with (t, e', Logout _) => validateExpiry t e' = false | _ => True end) (trace (run e l)).
Proof.
  intros Hr. split.
  - pose proof (run_budget 0 (create e) l ltac:(unfold budget; simpl; lia)) as Hb. unfold budget, run in *.
    simpl in *. destruct (hasLoggedOut _); lia.
  - apply (run_timely l (create e)); [by constructor|done].
Qed.
End Controller.

(** A session of 25 days is logged out after a millisecond: its delay does not fit
    a timer. *)
Example long_session_logged_out :
  trace (run 60000 (At (25 * 86400000)) [(0, Start); (1, FireLogout)]) = [(1, At (25 * 86400000), Logout tt)].
Proof. reflexivity. Qed.

(** A refresh that answers after [stop] starts the timers again. *)
Example refresh_restarts_stopped :
  logoutTimer (run 60000 (At 100000) [(0, Start); (40000, FireWarning); (41000, Stop); (42000, Refreshed (Some (At 200000)))]) =
  Some 200000.
Proof. reflexivity. Qed.

Definition sample_session : list (Z * input) := [(0, Start); (100000, FireLogout); (100001, FireLogout)].

Lemma logout_once_on_time_witness : (logouts (trace (run 60000 (At 100000) sample_session)) <= 1)%nat.
Proof. exact (proj1 (logout_once_on_time 60000 (At 100000) sample_session eq_refl)). Defined.
End SessionTimeout.
