(* ===== verification/Deploy.v ===== *)
(** * Blue-green deployment: src/deploy.ts

    The state file with its two transitions as interleaved calls: a call of
    [switchToGreen] or [rollback] is a task that reads the file, polls or decides,
    and writes, and other calls run at every await.  The health gate's loop, the
    readiness probe behind the SSRF guard, the post-switch soak with its
    rollback, and the soak's configuration.  Clock readings, probe answers,
    counters and the outcome of a write are arguments; log lines are not
    represented. *)

From stdpp Require Import prelude strings.
From Stdlib Require Import ZArith Lia.
From S2P Require Import Prelude JsMap JsValue JsArith JsString JsNumber Retry Ssrf.
Open Scope Z_scope.

Module Deploy.

Inductive color : Type := blue | green.

#[export] Instance color_eq_dec : EqDecision color.
Proof. solve_decision. Defined.

Record DeploymentState : Type := { activeColor : color; lastSwitch : Z; previousColor : option color }.

(** The file: [None] when it is missing or does not parse. *)
Definition readState (now : Z) (file : option DeploymentState) : DeploymentState :=
  default {| activeColor := blue; lastSwitch := now; previousColor := None |} file.

(** ** The health gate *)

(** A probe answers or throws; both failures keep polling. *)
Inductive probe : Type := Ready (b : bool) | ProbeThrows.

#[export] Instance probe_eq_dec : EqDecision probe.
Proof. solve_decision. Defined.

(** The loop from the instant [now]; each round is a probe and the instant the
    loop is back at its test.  [None]: the rounds ended while it was polling. *)
Fixpoint poll (start timeoutMs now : Z) (rounds : list (probe * Z)) : option bool :=
  if bool_decide (now - start <= timeoutMs) then
    match rounds with
    | [] => None
    | (Ready true, _) :: _ => Some true
    | (_, t) :: rest => poll start timeoutMs t rest
    end
  else Some false.

(** [checkHealth]; [fetch]: the status of the response, if any.  An invalid
    SSRF_ALLOW_PRIVATE_HOSTS makes the guard throw. *)
Definition checkHealth (url_host : string -> option string) (env : Ssrf.Env) (fetch : string -> option Z) (port : string) : probe :=
  let url := ("http://127.0.0.1:" +:+ port +:+ "/health/ready")%string in
  match Ssrf.isSafeUrl url_host env url with
  | Some true => Ready (bool_decide (fetch url = Some 200))
  | _ => ProbeThrows
  end.

Definition parseEnvMs (raw : option string) (fallback : Z) : number :=
  match raw with
  | None | Some EmptyString => of_int fallback
  | Some s => let parsed := js_number s in
              if is_finite parsed && num_gtb parsed (of_int 0) then parsed else of_int fallback
  end.

Definition DEFAULT_POLL_INTERVAL_MS : Z := 500.
Definition DEFAULT_POLL_TIMEOUT_MS : Z := 5000.

(** ** The transitions *)

Definition commit_green (now : Z) (s : DeploymentState) : DeploymentState :=
  {| activeColor := green; lastSwitch := now; previousColor := Some (activeColor s) |}.

(** The state [rollback] writes, if it writes. *)
Definition rolled_back (now : Z) (s : DeploymentState) : option DeploymentState :=
  match activeColor s, previousColor s with
  | green, Some p => Some {| activeColor := p; lastSwitch := now; previousColor := previousColor s |}
  | _, _ => None
  end.

(** A call, by the await it is at. *)
Inductive task : Type :=
| SwitchReading
| Polling (s : DeploymentState)
| SwitchWriting (s : DeploymentState)
| RollbackReading
| RollbackWriting (s : DeploymentState)
| Finished
| Failed (message : string).

Record deploy : Type := {
  file : option DeploymentState;
  switching : bool;                      (* _switching *)
  ACTIVE_COLOR : option color;
  tasks : list task;
}.

(** What a pending call is resumed with. *)
Inductive resume : Type :=
| Read                                   (* the file was read *)
| Gate (healthy : bool)                  (* the polling loop ended *)
| Written                                (* the write succeeded *)
| WriteFails (left : option DeploymentState).   (* it did not: what is left *)

Inductive event : Type := CallSwitch | CallRollback | Resume (i : nat) (now : Z) (r : resume).

Definition with_task (i : nat) (t : task) (sw : bool) (d : deploy) : deploy :=
  {| file := file d; switching := sw; ACTIVE_COLOR := ACTIVE_COLOR d; tasks := <[i := t]> (tasks d) |}.

Definition write_file (f : option DeploymentState) (c : option color) (d : deploy) : deploy :=
  {| file := f; switching := switching d; ACTIVE_COLOR := c; tasks := tasks d |}.

(** A failed write leaves the file as it was or unreadable. *)
Definition leftover (left : option DeploymentState) (d : deploy) : option DeploymentState :=
  match left with None => None | Some _ => file d end.

Definition resume_task (i : nat) (now : Z) (t : task) (r : resume) (d : deploy) : deploy :=
  match t, r with
  | SwitchReading, Read =>
      let s := readState now (file d) in
      if bool_decide (activeColor s = green) then with_task i Finished (switching d) d
      else if switching d then with_task i (Failed "Switch already in progress") (switching d) d
      else with_task i (Polling s) true d
  | Polling s, Gate true => with_task i (SwitchWriting (commit_green now s)) (switching d) d
  | Polling s, Gate false => with_task i (Failed "Green not ready") false d
  | SwitchWriting s, Written => write_file (Some s) (Some green) (with_task i Finished false d)
  | SwitchWriting s, WriteFails l => write_file (leftover l d) (ACTIVE_COLOR d) (with_task i (Failed "write failed") false d)
  | RollbackReading, Read =>
      match rolled_back now (readState now (file d)) with
      | None => with_task i Finished (switching d) d
      | Some s => with_task i (RollbackWriting s) (switching d) d
      end
  | RollbackWriting s, Written => write_file (Some s) (Some (activeColor s)) (with_task i Finished (switching d) d)
  | RollbackWriting s, WriteFails l =>
      write_file (leftover l d) (ACTIVE_COLOR d) (with_task i (Failed "write failed") (switching d) d)
  | _, _ => d
  end.

Definition deploy_step (d : deploy) (e : event) : deploy :=
  match e with
  | CallSwitch => {| file := file d; switching := switching d; ACTIVE_COLOR := ACTIVE_COLOR d; tasks := tasks d ++ [SwitchReading] |}
  | CallRollback => {| file := file d; switching := switching d; ACTIVE_COLOR := ACTIVE_COLOR d; tasks := tasks d ++ [RollbackReading] |}
  | Resume i now r => match tasks d !! i with Some t => resume_task i now t r d | None => d end
  end.

Definition fresh_deploy : deploy := {| file := None; switching := false; ACTIVE_COLOR := None; tasks := [] |}.

Definition deploy_run (es : list event) (d : deploy) : deploy := foldl deploy_step d es.

(** ** The soak *)

Record ErrorRateSample : Type := { totalRequests : Z; errorRequests : Z }.

Record AutoRollbackConfig : Type := {
  enabled : bool; errorRateThreshold : number; soakWindowMs : number; sampleIntervalMs : number; minRequests : number;
}.

Inductive reason : Type := disabled | not_green | healthy | breached | insufficient_data.

Record AutoRollbackResult : Type := {
  rolledBack : bool; why : reason; peakErrorRate : number; observedRequests : Z; samples : Z;
}.

Inductive config_error : Type := InvalidBoolean (name : string) | InvalidNumber (name : string) | OutOfRange (name : string).

Definition parseBoolEnv (name : string) (v : option string) (fallback : bool) : result config_error bool :=
  match v with
  | None | Some EmptyString => Ok fallback
  | Some s =>
      let normalized := to_lower (trim s) in
      if bool_decide (normalized ∈ ["1"; "true"; "yes"; "on"]%string) then Ok true
      else if bool_decide (normalized ∈ ["0"; "false"; "no"; "off"]%string) then Ok false
      else Err (InvalidBoolean name)
  end.

Definition assertRange (name : string) (v : number) (min max : option Z) : result config_error number :=
  if match min with Some m => num_ltb v (of_int m) | None => false end then Err (OutOfRange name)
  else if match max with Some m => num_gtb v (of_int m) | None => false end then Err (OutOfRange name)
  else Ok v.

Definition parseNumEnv (valid : number -> bool) (name : string) (v : option string) (fallback : number) (min max : option Z) : result config_error number :=
  match v with
  | None | Some EmptyString => Ok fallback
  | Some s => let parsed := js_number s in if valid parsed then assertRange name parsed min max else Err (InvalidNumber name)
  end.

Definition parseIntEnv := parseNumEnv is_integer.
Definition parseFloatEnv := parseNumEnv is_finite.

Definition clamp (v : number) (min max : Z) : number := num_min (num_max v (of_int min)) (of_int max).

(** 0.05 *)
Definition default_threshold : number := of_ratio (5 * num_scale) 100.

(** The evaluation order of the source: soak window, interval, then the fields of
    the object. *)
Definition loadAutoRollbackConfig (env : string -> option string) : result config_error AutoRollbackConfig :=
  match parseIntEnv "ROLLBACK_SOAK_WINDOW_MS" (env "ROLLBACK_SOAK_WINDOW_MS") (of_int 30000) None None with
  | Err e => Err e
  | Ok soak =>
      let soak := clamp soak 1000 600000 in
      match parseIntEnv "ROLLBACK_SAMPLE_INTERVAL_MS" (env "ROLLBACK_SAMPLE_INTERVAL_MS") (of_int 5000) None None with
      | Err e => Err e
      | Ok interval =>
          let interval := clamp interval 100 60000 in
          match parseBoolEnv "AUTO_ROLLBACK_ENABLED" (env "AUTO_ROLLBACK_ENABLED") true with
          | Err e => Err e
          | Ok on =>
              match parseFloatEnv "ROLLBACK_ERROR_RATE_THRESHOLD" (env "ROLLBACK_ERROR_RATE_THRESHOLD") default_threshold (Some 0) (Some 1) with
              | Err e => Err e
              | Ok thr =>
                  match parseIntEnv "ROLLBACK_MIN_REQUESTS" (env "ROLLBACK_MIN_REQUESTS") (of_int 20) (Some 0) None with
                  | Err e => Err e
                  | Ok minr => Ok {| enabled := on; errorRateThreshold := thr; soakWindowMs := soak;
                                     sampleIntervalMs := num_min interval soak; minRequests := minr |}
                  end
              end
          end
      end
  end.

(** [Math.max(1, Math.round(soakWindowMs / sampleIntervalMs))] *)
Definition sampleCount (c : AutoRollbackConfig) : number := num_max (of_int 1) (num_round (num_div (soakWindowMs c) (sampleIntervalMs c))).

Definition deltas (baseline current : ErrorRateSample) : Z * Z :=
  (Z.max 0 (totalRequests current - totalRequests baseline), Z.max 0 (errorRequests current - errorRequests baseline)).

Definition error_rate (d : Z * Z) : number := if 0 <? d.1 then num_div (of_int d.2) (of_int d.1) else of_int 0.

(** A sample that calls for a rollback. *)
Definition breach (c : AutoRollbackConfig) (d : Z * Z) : bool :=
  negb (num_ltb (of_int d.1) (minRequests c)) && num_gtb (error_rate d) (errorRateThreshold c).

(** The loop from sample [n] on, [fuel] samples left: the verdict, the peak and the
    requests seen last. *)
Fixpoint soak_loop (fuel : nat) (c : AutoRollbackConfig) (baseline : ErrorRateSample) (reader : Z -> ErrorRateSample)
    (n : Z) (peak : number) (observed : Z) : AutoRollbackResult :=
  match fuel with
  | O => {| rolledBack := false;
            why := if num_ltb (of_int observed) (minRequests c) then insufficient_data else healthy;
            peakErrorRate := peak; observedRequests := observed; samples := n - 1 |}
  | S fuel =>
      let d := deltas baseline (reader n) in
      let peak := if num_gtb (error_rate d) peak then error_rate d else peak in
      if breach c d then {| rolledBack := true; why := breached; peakErrorRate := peak; observedRequests := d.1; samples := n |}
      else soak_loop fuel c baseline reader (n + 1) peak d.1
  end.

(** [monitorAndAutoRollback]: [reader 0] is the baseline.  The file it writes when
    it rolls back is that of [rollback] at [now]; [file_at_end] is the file when
    the soak ends. *)
Definition monitorAndAutoRollback (c : AutoRollbackConfig) (reader : Z -> ErrorRateSample) (now : Z)
    (file_at_start file_at_end : option DeploymentState) : AutoRollbackResult * option DeploymentState :=
  let skip r := ({| rolledBack := false; why := r; peakErrorRate := of_int 0; observedRequests := 0; samples := 0 |}, file_at_end) in
  if negb (enabled c) then skip disabled
  else if bool_decide (activeColor (readState now file_at_start) = green) then
    let res := soak_loop (Z.to_nat (default 0 (to_int (sampleCount c)))) c (reader 0) reader 1 (of_int 0) 0 in
    (res, if rolledBack res then
            match rolled_back now (readState now file_at_end) with Some s => Some s | None => file_at_end end
          else file_at_end)
  else skip not_green.

(** ** Invariant *)

(** A state a switch or a rollback leaves. *)
Definition state_ok (s : DeploymentState) : Prop :=
  match activeColor s with green => previousColor s = Some blue | blue => previousColor s <> Some green end.

Definition task_ok (t : task) : Prop :=
  match t with
  | Polling s => activeColor s = blue
  | SwitchWriting s => activeColor s = green /\ previousColor s = Some blue
  | RollbackWriting s => activeColor s = blue /\ previousColor s = Some blue
  | _ => True
  end.

(** The task holds the mutex. *)
Definition holds (t : task) : bool := match t with Polling _ | SwitchWriting _ => true | _ => false end.

Definition holders (l : list task) : nat := length (filter (fun t => holds t = true) l).

Record deploy_ok (d : deploy) : Prop := {
  dk_file : match file d with Some s => state_ok s | None => True end;
  dk_tasks : Forall task_ok (tasks d);
  dk_mutex : holders (tasks d) = if switching d then 1%nat else 0%nat;
}.

Lemma deploy_read_ok now d : deploy_ok d -> state_ok (readState now (file d)).
Proof. intros [Hf _ _]. destruct (file d); simpl; done. Qed.

Lemma holders_insert l i t u : l !! i = Some t ->
  (holders (<[i := u]> l) + (if holds t then 1 else 0) = holders l + (if holds u then 1 else 0))%nat.
Proof.
  intros Hi. apply list_elem_of_split_length in Hi as (l1 & l2 & -> & ->). rewrite insert_app_r_alt by lia.
  rewrite Nat.sub_diag. simpl. unfold holders. rewrite !filter_app, !length_app, !filter_cons.
  destruct (holds t) eqn:Et, (holds u) eqn:Eu; simpl;
    repeat (rewrite ?decide_True, ?decide_False by congruence); simpl; lia.
Qed.

Lemma with_task_ok d i t u sw : deploy_ok d -> tasks d !! i = Some t -> task_ok u ->
  (match holds t, holds u with true, true | false, false => sw = switching d | true, false => sw = false | false, true => sw = true /\ switching d = false end) ->
  deploy_ok (with_task i u sw d).
Proof.
  intros [Hf Ht Hm] Hi Hu Hsw. constructor; simpl; [done|by apply Forall_insert|].
  pose proof (holders_insert (tasks d) i t u Hi) as H.
  destruct (holds t), (holds u); [subst sw; lia|subst sw|destruct Hsw as [-> E]|subst sw; lia].
  - destruct (switching d); lia.
  - rewrite E in Hm. lia.
Qed.

Lemma write_file_ok d f c : deploy_ok d -> (match f with Some s => state_ok s | None => True end) -> deploy_ok (write_file f c d).
Proof. intros [Hf Ht Hm] H. by constructor. Qed.

Lemma leftover_ok l d : deploy_ok d -> match leftover l d with Some s => state_ok s | None => True end.
Proof. intros [Hf _ _]. by destruct l. Qed.

Lemma deploy_resume_ok i now t r d : deploy_ok d -> tasks d !! i = Some t -> deploy_ok (resume_task i now t r d).
Proof.
  intros Hd Hi. pose proof (dk_tasks _ Hd) as Ht. rewrite Forall_lookup in Ht. specialize (Ht i t Hi).
  pose proof (deploy_read_ok now d Hd) as Hr.
  destruct t as [|s|s| |s| |m], r as [|h| |l]; simpl in *; try done.
  - case_bool_decide as Hg; [by eapply with_task_ok|]. destruct (switching d) eqn:Es.
    + eapply with_task_ok; [done..|]. simpl. done.
    + eapply with_task_ok; [done..| |done]. simpl. by destruct (activeColor (readState now (file d))).
  - destruct h; eapply with_task_ok; try done. simpl. split; [done|]. by rewrite Ht.
  - apply write_file_ok; [by eapply with_task_ok|]. destruct Ht as [E1 E2]. unfold state_ok. by rewrite E1.
  - apply write_file_ok; [by eapply with_task_ok|]. by apply leftover_ok.
  - unfold rolled_back. destruct (readState now (file d)) as [[] ls [p|]] eqn:E; try (by eapply with_task_ok).
    eapply with_task_ok; [done..| |done]. unfold state_ok in Hr. simpl in *. by simplify_eq.
  - apply write_file_ok; [by eapply with_task_ok|]. destruct Ht as [E1 E2]. unfold state_ok. rewrite E1, E2. done.
  - apply write_file_ok; [by eapply with_task_ok|]. by apply leftover_ok.
Qed.

Lemma holders_app l t : holders (l ++ [t]) = (holders l + if holds t then 1 else 0)%nat.
Proof. unfold holders. rewrite filter_app, length_app. by destruct t. Qed.

Lemma deploy_step_ok d e : deploy_ok d -> deploy_ok (deploy_step d e).
Proof.
  intros Hd. destruct e as [| |i now r]; simpl; [..|destruct (tasks d !! i) eqn:Ei; [by apply deploy_resume_ok|done]].
  all: destruct Hd as [Hf Ht Hm]; constructor; simpl; [done|apply Forall_app; split; [done|by constructor]|].
  all: by rewrite holders_app, Nat.add_0_r.
Qed.

Lemma deploy_run_ok es d : deploy_ok d -> deploy_ok (deploy_run es d).
Proof. revert d. induction es as [|e es IH]; intros d Hd; [done|]. by apply IH, deploy_step_ok. Qed.

(** No gate has opened: nothing is green. *)
Definition still_blue (d : deploy) : Prop :=
  match file d with Some s => activeColor s = blue | None => True end /\
  Forall (fun t => match t with SwitchWriting _ => False | RollbackWriting s => activeColor s = blue | _ => True end) (tasks d).

Definition opens (e : event) : bool := match e with Resume _ _ (Gate true) => true | _ => false end.

Lemma still_blue_task d i u sw : still_blue d ->
  (match u with SwitchWriting _ => False | RollbackWriting s => activeColor s = blue | _ => True end) ->
  still_blue (with_task i u sw d).
Proof. intros [Hf Ht] Hu. split; simpl; [done|by apply Forall_insert]. Qed.

Lemma still_blue_write d f c : still_blue d -> (match f with Some s => activeColor s = blue | None => True end) -> still_blue (write_file f c d).
Proof. intros [Hf Ht] Hs. by split. Qed.

Lemma still_blue_step d e : still_blue d -> opens e = false -> still_blue (deploy_step d e).
Proof.
  intros Hd He. destruct e as [| |i now r]; simpl in *.
  1,2: destruct Hd as [Hf Ht]; split; simpl; [done|]; apply Forall_app; split; [done|by constructor].
  destruct (tasks d !! i) as [t|] eqn:Ei; [|done].
  pose proof Hd as [Hf Ht]. rewrite Forall_lookup in Ht. specialize (Ht i t Ei).
  assert (Hleft : forall l, match leftover l d with Some s => activeColor s = blue | None => True end) by (by intros []).
  destruct t as [|s|s| |s| |m], r as [|[]| |l]; simpl in *; try done.
  - repeat case_match; by apply still_blue_task.
  - by apply still_blue_task.
  - unfold rolled_back. destruct (file d) as [[[] ? ?]|]; simpl in *; try done; by apply still_blue_task.
  - by apply still_blue_write; [apply still_blue_task|].
  - apply still_blue_write; [by apply still_blue_task|apply Hleft].
Qed.

Lemma still_blue_run es d : still_blue d -> Forall (fun e => opens e = false) es -> still_blue (deploy_run es d).
Proof.
  intros Hd Hes. revert d Hd. induction Hes as [|e es He _ IH]; intros d Hd; [done|]. by apply IH, still_blue_step.
Qed.

(** C23: However calls of [switchToGreen] and [rollback] interleave and writes fail,
    at most one switch is past the mutex at a time, a green deployment can always
    be rolled back to blue, and the deployment is green only if the health gate
    of some switch has opened. *)
Theorem switch_safe es :
  let d := deploy_run es fresh_deploy in
  (holders (tasks d) <= 1)%nat /\
  (forall s, file d = Some s -> activeColor s = green ->
     (forall now, exists s', rolled_back now s = Some s' /\ activeColor s' = blue) /\ Exists (fun e => opens e = true) es).
Proof.
  intros d. assert (Hd : deploy_ok d) by (apply deploy_run_ok; by constructor). destruct Hd as [Hf _ Hm].
  split; [destruct (switching d); lia|]. intros s Es Hg. split.
  - rewrite Es in Hf. unfold state_ok in Hf. rewrite Hg in Hf. intros now. unfold rolled_back. rewrite Hg, Hf. by eexists.
  - destruct (decide (Exists (fun e => opens e = true) es)) as [|Hno]; [done|]. exfalso.
    assert (Hb : still_blue d).
    { apply still_blue_run; [done|]. apply not_Exists_Forall in Hno; [|apply _]. eapply Forall_impl; [exact Hno|].
      intros e He. apply not_true_iff_false. exact He. }
    destruct Hb as [Hb _]. rewrite Es, Hg in Hb. done.
Qed.

(** ** The gate *)

(** Each round takes at least [step] milliseconds. *)
Fixpoint advancing (step now : Z) (rounds : list (probe * Z)) : Prop :=
  match rounds with [] => True | (_, t) :: rest => now + step <= t /\ advancing step t rest end.

Lemma poll_pending start timeoutMs step now rounds : advancing step now rounds -> poll start timeoutMs now rounds = None ->
  now + Z.of_nat (length rounds) * step <= start + timeoutMs.
Proof.
  revert now. induction rounds as [|[p t] rest IH]; intros now Ha Hp; simpl in *; case_bool_decide; try done; [lia|].
  destruct Ha as [Ht Ha]. assert (Hrest : poll start timeoutMs t rest = None) by (by destruct p as [[]|]).
  specialize (IH t Ha Hrest). lia.
Qed.

Lemma poll_closed start timeoutMs now rounds :
  Forall (fun r => r.1 <> Ready true) rounds -> poll start timeoutMs now rounds <> Some true.
Proof.
  intros Hr. revert now. induction Hr as [|[p t] rest Hp _ IH]; intros now; simpl; case_bool_decide; try done.
  destruct p as [[]|]; [done|apply IH..].
Qed.

(** The health gate terminates: once its rounds, each at least [step] long,
    exceed the timeout, the loop has decided; and it opens only on a probe that
    answered ready. *)
Theorem gate_decides step timeoutMs now rounds :
  advancing step now rounds -> timeoutMs < Z.of_nat (length rounds) * step ->
  exists b, poll now timeoutMs now rounds = Some b /\ (b = true -> Exists (fun r => r.1 = Ready true) rounds).
Proof.
  intros Ha Hlen. destruct (poll now timeoutMs now rounds) as [b|] eqn:E.
  - exists b. split; [done|]. intros ->.
    destruct (decide (Exists (fun r => r.1 = Ready true) rounds)) as [|Hno]; [done|].
    exfalso. apply (poll_closed now timeoutMs now rounds); [|done]. apply not_Exists_Forall in Hno; [exact Hno|apply _].
  - pose proof (poll_pending _ _ _ _ _ Ha E). lia.
Qed.

Lemma loopback_private : Ssrf.isPrivateHost "127.0.0.1" = true.
Proof. vm_compute. reflexivity. Qed.

(** Where the SSRF bypass is not allowed, as in production, no deployment can be
    switched to green: the readiness probe goes to the loopback address, which
    the guard refuses, so the gate never opens. *)
Theorem green_never_ready url_host env fetch port start timeoutMs now times :
  Ssrf.isSsrfBypassEnvAllowed env = false ->
  url_host ("http://127.0.0.1:" +:+ port +:+ "/health/ready")%string = Some "127.0.0.1"%string ->
  poll start timeoutMs now ((fun t => (checkHealth url_host env fetch port, t)) <$> times) <> Some true.
Proof.
  intros Henv Hurl. apply poll_closed. apply Forall_fmap, Forall_true. intros t. simpl. unfold checkHealth, Ssrf.isSafeUrl.
  destruct (Ssrf.parseBoolEnv _ _) as [allow|]; [|done]. by rewrite Henv, andb_false_r, Hurl, loopback_private.
Qed.

(** ** The soak decides *)

Lemma soak_loop_spec fuel c baseline reader n peak obs :
  let res := soak_loop fuel c baseline reader n peak obs in
  (rolledBack res = false <-> Forall (fun i => breach c (deltas baseline (reader (n + Z.of_nat i))) = false) (seq 0 fuel)) /\
  (rolledBack res = true -> why res = breached /\ exists i, (i < fuel)%nat /\ samples res = n + Z.of_nat i /\
     breach c (deltas baseline (reader (samples res))) = true /\
     Forall (fun j => breach c (deltas baseline (reader (n + Z.of_nat j))) = false) (seq 0 i)).
Proof.
  revert n peak obs. induction fuel as [|fuel IH]; intros n peak obs; simpl; [by split|].
  assert (Hshift : forall k, Forall (fun i => breach c (deltas baseline (reader (n + 1 + Z.of_nat i))) = false) (seq 0 k) <->
                   Forall (fun i => breach c (deltas baseline (reader (n + Z.of_nat i))) = false) (seq 1 k)).
  { intros k. rewrite <- (fmap_S_seq 0 k), Forall_fmap. apply Forall_iff. intros i. simpl.
    replace (n + 1 + Z.of_nat i) with (n + Z.of_nat (S i)) by lia. done. }
  destruct (breach c (deltas baseline (reader n))) eqn:Eb; simpl.
  - split; [split; [done|]|].
    + intros H. apply Forall_cons in H as [H _]. simpl in H. rewrite Z.add_0_r in H. congruence.
    + intros _. split; [done|]. exists 0%nat. split; [lia|]. split; [lia|]. split; [done|]. constructor.
  - destruct (IH (n + 1) (if num_gtb (error_rate (deltas baseline (reader n))) peak then error_rate (deltas baseline (reader n)) else peak)
               (deltas baseline (reader n)).1) as [H1 H2]. split.
    + rewrite H1, Hshift, Forall_cons. simpl. rewrite Z.add_0_r. naive_solver.
    + intros Hr. destruct (H2 Hr) as (Hw & i & Hi & Hs & Hb & Hbefore). split; [done|]. exists (S i).
      split; [lia|]. split; [etrans; [exact Hs|lia]|]. split; [exact Hb|]. simpl. constructor; [by rewrite Z.add_0_r|]. by apply Hshift.
Qed.

(** The soak reverts a green deployment exactly when some sample of the window
    breaches the threshold on enough requests, at the first such sample; the
    file then is back on blue, and otherwise the monitor does not touch it. *)
Theorem soak_verdict c reader now f0 f1 s0 s1 :
  enabled c = true -> f0 = Some s0 -> activeColor s0 = green -> f1 = Some s1 -> activeColor s1 = green -> state_ok s1 ->
  let count := Z.to_nat (default 0 (to_int (sampleCount c))) in
  let out := monitorAndAutoRollback c reader now f0 f1 in
  (rolledBack out.1 = true <-> Exists (fun i => breach c (deltas (reader 0) (reader (Z.of_nat i))) = true) (seq 1 count)) /\
  (rolledBack out.1 = true ->
     breach c (deltas (reader 0) (reader (samples out.1))) = true /\
     Forall (fun i => Z.of_nat i < samples out.1 -> breach c (deltas (reader 0) (reader (Z.of_nat i))) = false) (seq 1 count) /\
     exists s, out.2 = Some s /\ activeColor s = blue) /\
  (rolledBack out.1 = false -> out.2 = f1).
Proof.
  intros He -> Hg -> Hg1 Hok count out. unfold out, monitorAndAutoRollback. rewrite He. simpl. rewrite bool_decide_eq_true_2 by done.
  fold count. destruct (soak_loop_spec count c (reader 0) reader 1 (of_int 0) 0) as [H1 H2].
  set (res := soak_loop count c (reader 0) reader 1 (of_int 0) 0) in *. cbn [fst snd].
  assert (Hseq : forall (P : Z -> Prop), Forall (fun i => P (1 + Z.of_nat i)) (seq 0 count) <-> Forall (fun i => P (Z.of_nat i)) (seq 1 count)).
  { intros P. rewrite <- (fmap_S_seq 0 count), Forall_fmap. apply Forall_iff. intros i. simpl.
    replace (1 + Z.of_nat i) with (Z.of_nat (S i)) by lia. done. }
  split; [|split; [|by intros ->]].
  - rewrite (Hseq (fun z => breach c (deltas (reader 0) (reader z)) = false)) in H1.
    rewrite <- not_false_iff_true, H1. split.
    + intros Hn. apply not_Forall_Exists in Hn; [|apply _]. eapply Exists_impl; [exact Hn|]. intros i Hi. by apply not_false_iff_true.
    + intros Hex Hall. apply Exists_exists in Hex as (i & Hi & Hb). rewrite Forall_forall in Hall. specialize (Hall i Hi). congruence.
  - intros Hr. destruct (H2 Hr) as (_ & i & Hi & Hs & Hb & Hbefore). split; [done|]. split.
    + apply Forall_forall. intros j Hj Hlt. apply elem_of_seq in Hj. rewrite Forall_forall in Hbefore.
      specialize (Hbefore (j - 1)%nat ltac:(apply elem_of_seq; lia)). by replace (1 + Z.of_nat (j - 1)) with (Z.of_nat j) in Hbefore by lia.
    + rewrite Hr. unfold state_ok in Hok. rewrite Hg1 in Hok. unfold rolled_back. simpl. rewrite Hg1, Hok. by eexists.
Qed.

(** ** The configuration *)

Lemma num_min_int a b : num_min (of_int a) (of_int b) = of_int (Z.min a b).
Proof.
  pose proof num_scale_pos. change (num_min (of_int a) (of_int b)) with (if b * num_scale <? a * num_scale then of_int b else of_int a).
  destruct (Z.ltb_spec (b * num_scale) (a * num_scale)); f_equal; nia.
Qed.

Lemma rollback_clamp_int n a b : clamp (of_int n) a b = of_int (Z.min (Z.max n a) b).
Proof. unfold clamp. by rewrite num_max_int, num_min_int. Qed.

Lemma integer_of_int x : is_integer x = true -> exists n, x = of_int n.
Proof.
  pose proof num_scale_pos. destruct x as [| |u]; simpl; [done..|]. intros Hu%Z.eqb_eq. exists (u / num_scale).
  unfold of_int. f_equal. rewrite Z.mul_comm. by apply Z.div_exact; [lia|].
Qed.

Lemma parseIntEnv_int name v n min max x : parseIntEnv name v (of_int n) min max = Ok x -> exists m, x = of_int m.
Proof.
  unfold parseIntEnv, parseNumEnv. destruct v as [[|a s]|]; [intros [= <-]; by exists n| |intros [= <-]; by exists n].
  cbv zeta. destruct (is_integer (js_number _)) eqn:E; [|done]. unfold assertRange. repeat case_match; intros; simplify_eq.
  all: by apply integer_of_int.
Qed.

(** Whatever the environment holds, an accepted configuration makes a bounded
    soak: a window of one second to ten minutes, samples at most a minute apart
    and never further than the window, and between one and six thousand of
    them. *)
Theorem soak_bounded env c :
  loadAutoRollbackConfig env = Ok c ->
  exists w i n, soakWindowMs c = of_int w /\ sampleIntervalMs c = of_int i /\ sampleCount c = of_int n /\
    1000 <= w <= 600000 /\ 100 <= i <= 60000 /\ i <= w /\ 1 <= n <= 6000.
Proof.
  unfold loadAutoRollbackConfig. destruct (parseIntEnv "ROLLBACK_SOAK_WINDOW_MS" _ _ _ _) as [soak|] eqn:E1; [|done].
  destruct (parseIntEnv "ROLLBACK_SAMPLE_INTERVAL_MS" _ _ _ _) as [iv|] eqn:E2; [|done].
  destruct (parseBoolEnv _ _ _); [|done]. destruct (parseFloatEnv _ _ _ _ _); [|done].
  destruct (parseIntEnv "ROLLBACK_MIN_REQUESTS" _ _ _ _); [|done]. intros [= <-].
  apply parseIntEnv_int in E1 as [sw ->]. apply parseIntEnv_int in E2 as [si ->]. unfold sampleCount. cbn [soakWindowMs sampleIntervalMs].
  rewrite !rollback_clamp_int, num_min_int. set (w := Z.min (Z.max sw 1000) 600000). set (i := Z.min (Z.min (Z.max si 100) 60000) w).
  assert (Hd : between 1 (num_div (of_int w) (of_int i)) 6000) by (apply num_div_between; [lia..|apply of_int_between; lia]).
  destruct (WebhookRetry.num_round_between _ _ _ Hd) as (n & -> & Hn). exists w, i, (Z.max 1 n).
  rewrite num_max_int. split_and!; try done; lia.
Qed.

(** ** Witnesses *)

Definition one_switch : list event :=
  [CallSwitch; Resume 0 5 Read; CallSwitch; Resume 1 6 Read; Resume 0 900 (Gate true); Resume 0 901 Written; CallRollback; Resume 2 1000 Read].

Example one_switch_run :
  tasks (deploy_run one_switch fresh_deploy) =
  [Finished; Failed "Switch already in progress";
   RollbackWriting {| activeColor := blue; lastSwitch := 1000; previousColor := Some blue |}].
Proof. reflexivity. Qed.

Lemma gate_decides_witness :
  exists b, poll 0 5000 0 [(Ready false, 3000); (ProbeThrows, 6000)] = Some b /\
    (b = true -> Exists (fun r => r.1 = Ready true) [(Ready false, 3000); (ProbeThrows, 6000)]).
Proof. apply (gate_decides 3000); [simpl; lia|simpl; lia]. Defined.

Definition production : Ssrf.Env := {| Ssrf.NODE_ENV := Some "production"%string; Ssrf.SSRF_ALLOW_PRIVATE_HOSTS := Some "true"%string |}.

Lemma green_never_ready_witness :
  poll 0 5000 0 ((fun t => (checkHealth (fun _ => Some "127.0.0.1"%string) production (fun _ => Some 200) "3002", t)) <$> [500; 1000]) <> Some true.
Proof. apply green_never_ready; reflexivity. Defined.

Definition sample_config : AutoRollbackConfig :=
  {| enabled := true; errorRateThreshold := default_threshold; soakWindowMs := of_int 10000; sampleIntervalMs := of_int 5000; minRequests := of_int 20 |}.

Definition green_state : DeploymentState := {| activeColor := green; lastSwitch := 1; previousColor := Some blue |}.

Definition failing_reader (n : Z) : ErrorRateSample := {| totalRequests := 10 * n; errorRequests := n |}.

Lemma soak_verdict_witness :
  rolledBack (monitorAndAutoRollback sample_config failing_reader 50 (Some green_state) (Some green_state)).1 = true.
Proof.
  destruct (soak_verdict sample_config failing_reader 50 (Some green_state) (Some green_state) green_state green_state
              eq_refl eq_refl eq_refl eq_refl eq_refl eq_refl) as [[_ H] _].
  apply H. apply Exists_exists. exists 2%nat. split; [apply elem_of_seq; vm_compute; split; repeat constructor|vm_compute; reflexivity].
Defined.

Lemma soak_bounded_witness :
  exists c w i n, loadAutoRollbackConfig (fun _ => None) = Ok c /\ soakWindowMs c = of_int w /\ sampleIntervalMs c = of_int i /\ sampleCount c = of_int n /\
    1000 <= w <= 600000 /\ 100 <= i <= 60000 /\ i <= w /\ 1 <= n <= 6000.
Proof.
  eexists. destruct (soak_bounded (fun _ => None) _ eq_refl) as (w & i & n & H). exists w, i, n. split; [reflexivity|exact H].
Defined.
End Deploy.
