(* ===== verification/Promotion.v ===== *)
(** * Promotions and rollbacks: src/deployment/promoter.ts, validator.ts and
    historyStore.ts

    One call over the process environment, the deployment_history table and the
    audit log.  The outcome of the blue-green switch, of each insert and of each
    audit entry, the environment schema (Zod) and the URL parser are arguments.
    Instants are the times their ISO texts denote; ids are not represented. *)

From stdpp Require Import prelude strings.
From Stdlib Require Import ZArith Lia.
From S2P Require Import Prelude JsMap JsValue JsString Deploy.
Open Scope Z_scope.

Module Promotion.

Inductive Environment : Type := development | staging | production | test.

#[export] Instance Environment_eq_dec : EqDecision Environment.
Proof. solve_decision. Defined.

Definition env_text (e : Environment) : string :=
  match e with development => "development" | staging => "staging" | production => "production" | test => "test" end.

(** [process.env] *)
Definition vars : Type := list (string * string).

Record EnvironmentConfig : Type := {
  environment : Environment; port : Z; apiBaseUrl : string; debug : bool; mainnet : bool; corsOrigins : list string;
}.

(** What the schema accepts. *)
Record EnvConfig : Type := {
  c_NODE_ENV : Environment; c_PORT : Z; c_API_BASE_URL : option string; c_DEBUG : option bool; c_CORS : option (list string);
}.

(** src/config/environment.ts; [port_text] writes the port. *)
Definition loadEnvironmentConfig (validateEnv : vars -> result string EnvConfig) (port_text : Z -> string) (v : vars)
  : result string EnvironmentConfig :=
  match validateEnv v with
  | Err e => Err e
  | Ok c =>
      Ok {| environment := c_NODE_ENV c; port := c_PORT c;
            apiBaseUrl := match c_API_BASE_URL c with
                          | None | Some EmptyString => ("http://localhost:" +:+ port_text (c_PORT c))%string
                          | Some u => u
                          end;
            debug := default false (c_DEBUG c); mainnet := bool_decide (c_NODE_ENV c = production);
            corsOrigins := default (if bool_decide (c_NODE_ENV c = production) then [] else ["http://localhost:3000"%string]) (c_CORS c) |}
  end.

(** ** Validation *)

(** [s.includes(p)] *)
Fixpoint includes (p s : string) : bool :=
  String.prefix p s || match s with EmptyString => false | String _ s' => includes p s' end.

Inductive problem : Type :=
| InvalidPath (from to : Environment) | InvalidPort (p : Z) | InvalidBaseUrl (u : string) | NotMainnet | OpenCors
| DirectPromotion | DebugInProduction | StagingMainnet.

Record ValidationResult : Type := { valid : bool; errors : list problem; warnings : list problem }.

Definition validation (errs warns : list problem) : ValidationResult :=
  {| valid := bool_decide (errs = []); errors := errs; warnings := warns |}.

Definition validPaths (from : Environment) : list Environment :=
  match from with development => [staging] | staging => [production] | production | test => [] end.

Definition validatePromotionPath (from to : Environment) : ValidationResult :=
  validation (if bool_decide (to ∈ validPaths from) then [] else [InvalidPath from to])
             (if bool_decide (to = production /\ from = development) then [DirectPromotion] else []).

Definition validateDeploymentConfig (isValidUrl : string -> bool) (c : EnvironmentConfig) : ValidationResult :=
  let prod := bool_decide (environment c = production) in
  validation
    ((if (port c <? 1) || (65535 <? port c) then [InvalidPort (port c)] else []) ++
     (if bool_decide (apiBaseUrl c = EmptyString) || negb (isValidUrl (apiBaseUrl c)) then [InvalidBaseUrl (apiBaseUrl c)] else []) ++
     (if prod && negb (mainnet c) then [NotMainnet] else []) ++
     (if prod && (bool_decide ("*"%string ∈ corsOrigins c) || existsb (includes "localhost") (corsOrigins c)) then [OpenCors] else []))
    ((if prod && debug c then [DebugInProduction] else []) ++
     (if bool_decide (environment c = staging) && mainnet c then [StagingMainnet] else [])).

Definition validateDeploymentReadiness := validateDeploymentConfig.

(** ** History *)

Inductive outcome : Type := SUCCESS | FAILURE (error : string).

#[export] Instance outcome_eq_dec : EqDecision outcome.
Proof. solve_decision. Defined.

(** A row; [environment_to] is NULL for a rollback. *)
Record row : Type := {
  environment_from : Environment; environment_to : option Environment; target_version : string; initiated_by : string;
  timestamp : Z; status : outcome;
}.

Inductive severity : Type := INFO | WARNING | CRITICAL.

#[export] Instance severity_eq_dec : EqDecision severity.
Proof. solve_decision. Defined.

Record audit_entry : Type := { promoted : bool; sev : severity; actor : string; resourceId : string }.

Record world : Type := { env : vars; history : list row; audit : list audit_entry; inserts : nat; audits : nat; switched : nat }.

(** Failures of the database and of the audit log, by the number of the call. *)
Record faults : Type := { insert_fails : nat -> option string; audit_fails : nat -> option string }.

Definition record (f : faults) (r : row) (w : world) : result string unit * world :=
  match insert_fails f (inserts w) with
  | Some e => (Err e, {| env := env w; history := history w; audit := audit w; inserts := S (inserts w); audits := audits w; switched := switched w |})
  | None => (Ok tt, {| env := env w; history := history w ++ [r]; audit := audit w; inserts := S (inserts w); audits := audits w; switched := switched w |})
  end.

Definition audit_log (f : faults) (a : audit_entry) (w : world) : result string unit * world :=
  match audit_fails f (audits w) with
  | Some e => (Err e, {| env := env w; history := history w; audit := audit w; inserts := inserts w; audits := S (audits w); switched := switched w |})
  | None => (Ok tt, {| env := env w; history := history w; audit := audit w ++ [a]; inserts := inserts w; audits := S (audits w); switched := switched w |})
  end.

(** [switchToGreen] or the blue-green [rollback]: its outcome is an argument. *)
Definition run_switch (res : result string unit) (w : world) : result string unit * world :=
  (res, {| env := env w; history := history w; audit := audit w; inserts := inserts w; audits := audits w; switched := S (switched w) |}).

(** ** Promotion *)

Record PromotionRequest : Type := { from : Environment; to : Environment; version : string; initiatedBy : string; requested : Z }.

(** The error text: the problems found, joined, or the message of an exception. *)
Inductive reason : Type := Problems (l : list problem) | Message (s : string).

Record PromotionResult : Type := { success : bool; checked : ValidationResult; failure : option reason }.

(** Strings assigned to [process.env]; an assigned [undefined] becomes a text. *)
Definition set_var (k : string) (v : option string) (e : vars) : vars := map_set k (default "undefined"%string v) e.

Definition restore_var (k : string) (v : option string) (e : vars) : vars :=
  match v with Some s => map_set k s e | None => map_delete k e end.

Definition overrides (to : Environment) (e : vars) : vars :=
  let e := set_var "NODE_ENV" (Some (env_text to)) e in
  match to with
  | production =>
      let e := set_var "CORS_ALLOWED_ORIGINS" (Some "https://app.example.com") e in
      let e := set_var "API_BASE_URL" (Some "https://api.example.com") e in
      let e := set_var "STELLAR_NETWORK" (Some "mainnet") e in
      if match map_get "JWT_SECRET" e with None | Some EmptyString => true | Some s => (Z.of_nat (String.length s) <? 32)%Z end
      then set_var "JWT_SECRET" (Some "promotion-validation-placeholder-secret-key") e else e
  | staging =>
      set_var "STELLAR_NETWORK" (Some "testnet") (set_var "API_BASE_URL" (Some "https://staging-api.example.com")
        (set_var "CORS_ALLOWED_ORIGINS" (Some "https://staging.example.com") e))
  | _ =>
      set_var "STELLAR_NETWORK" (Some "testnet") (set_var "API_BASE_URL" (Some "https://dev-api.example.com")
        (set_var "CORS_ALLOWED_ORIGINS" (Some "https://dev.example.com") e))
  end%string.

(** The [finally] block. *)
Definition restore (original now : vars) : vars :=
  restore_var "JWT_SECRET" (map_get "JWT_SECRET" original)
    (restore_var "STELLAR_NETWORK" (map_get "STELLAR_NETWORK" original)
      (restore_var "API_BASE_URL" (map_get "API_BASE_URL" original)
        (restore_var "CORS_ALLOWED_ORIGINS" (map_get "CORS_ALLOWED_ORIGINS" original)
          (set_var "NODE_ENV" (map_get "NODE_ENV" original) now)))).

Definition with_env (e : vars) (w : world) : world :=
  {| env := e; history := history w; audit := audit w; inserts := inserts w; audits := audits w; switched := switched w |}.

Section Promote.
Context (load : vars -> result string EnvironmentConfig) (isValidUrl : string -> bool) (f : faults).

Definition promotion_row (r : PromotionRequest) (o : outcome) : row :=
  {| environment_from := from r; environment_to := Some (to r); target_version := version r; initiated_by := initiatedBy r;
     timestamp := requested r; status := o |}.

Definition promotion_entry (r : PromotionRequest) (s : severity) : audit_entry :=
  {| promoted := true; sev := s; actor := initiatedBy r; resourceId := version r |}.

(** The last [catch]. *)
Definition promotion_failed (r : PromotionRequest) (v : ValidationResult) (e : string) : SE world string PromotionResult :=
  record f (promotion_row r (FAILURE e)) ;;
  audit_log f (promotion_entry r CRITICAL) ;;
  ret {| success := false; checked := v; failure := Some (Message e) |}.

Definition promotion_switch (r : PromotionRequest) (v : ValidationResult) (res : result string unit) : SE world string PromotionResult :=
  run_switch res ;;
  record f (promotion_row r SUCCESS) ;;
  audit_log f (promotion_entry r INFO) ;;
  ret {| success := true; checked := v; failure := None |}.

(** [try ... catch] *)
Definition catch {A} (c : SE world string A) (h : string -> SE world string A) : SE world string A :=
  fun w => match c w with (Err e, w') => h e w' | r => r end.

Definition promoteDeployment (switch : result string unit) (r : PromotionRequest) : SE world string PromotionResult := fun w =>
  let v := validatePromotionPath (from r) (to r) in
  if negb (valid v) then (Ok {| success := false; checked := v; failure := Some (Problems (errors v)) |}, w)
  else
    let during := overrides (to r) (env w) in
    let w' := with_env (restore (env w) during) w in
    match load during with
    | Err e => (Err e, w')
    | Ok c =>
        let readiness := validateDeploymentReadiness isValidUrl c in
        if negb (valid readiness)
        then (Ok {| success := false; checked := readiness; failure := Some (Problems (errors readiness)) |}, w')
        else catch (promotion_switch r v switch) (promotion_failed r v) w'
    end.

(** ** Rollback *)

Record RollbackRequest : Type := { rb_environment : Environment; targetVersion : string; rb_initiatedBy : string }.

Record RollbackResult : Type := { rb_success : bool; rb_failure : option string }.

Definition rollback_row (now : Z) (r : RollbackRequest) (o : outcome) : row :=
  {| environment_from := rb_environment r; environment_to := None; target_version := targetVersion r;
     initiated_by := rb_initiatedBy r; timestamp := now; status := o |}.

Definition rollback_entry (r : RollbackRequest) (s : severity) : audit_entry :=
  {| promoted := false; sev := s; actor := rb_initiatedBy r; resourceId := targetVersion r |}.

Definition rollbackDeployment (now : Z) (switch : result string unit) (r : RollbackRequest) : SE world string RollbackResult :=
  if bool_decide (targetVersion r = EmptyString) then
    ret {| rb_success := false; rb_failure := Some "Target version is required for rollback"%string |}
  else if bool_decide (rb_environment r = development) then
    ret {| rb_success := false; rb_failure := Some "Rollback not supported for development environment"%string |}
  else
    catch (run_switch switch ;; record f (rollback_row now r SUCCESS) ;; audit_log f (rollback_entry r WARNING) ;;
           ret {| rb_success := true; rb_failure := None |})
          (fun e => record f (rollback_row now r (FAILURE e)) ;; audit_log f (rollback_entry r CRITICAL) ;;
                    ret {| rb_success := false; rb_failure := Some e |}).
End Promote.

(** ** Reading the history *)

Definition fetchHistory (e : Environment) (w : world) : list row :=
  sort_by (fun r => - timestamp r) (filter (fun r => environment_from r = e \/ environment_to r = Some e) (history w)).

Definition getPromotionHistory (e : Environment) (w : world) : list PromotionRequest :=
  (fun r => {| from := environment_from r; to := default (environment_from r) (environment_to r); version := target_version r;
               initiatedBy := initiated_by r; requested := timestamp r |}) <$> fetchHistory e w.

(** ** The environment is restored *)

Lemma restore_var_get k v e k' : map_get k' (restore_var k v e) = if decide (k = k') then v else map_get k' e.
Proof.
  unfold restore_var. destruct v as [s|]; destruct (decide (k = k')) as [->|Hne].
  - apply map_get_set_eq.
  - by apply map_get_set_ne.
  - apply map_get_delete_eq.
  - by apply map_get_delete_ne.
Qed.

Lemma set_var_ne k v e k' : k <> k' -> map_get k' (set_var k v e) = map_get k' e.
Proof. apply map_get_set_ne. Qed.

(** The variables a promotion touches. *)
Definition touched : list string := ["NODE_ENV"; "CORS_ALLOWED_ORIGINS"; "API_BASE_URL"; "STELLAR_NETWORK"; "JWT_SECRET"]%string.

Lemma overrides_get to e k : k ∉ touched -> map_get k (overrides to e) = map_get k e.
Proof.
  intros Hk. unfold touched in Hk.
  assert (Hn : forall n, n ∈ touched -> n <> k) by (intros n Hn ->; done).
  unfold overrides. destruct to; cbv zeta; repeat case_match; rewrite !set_var_ne; try done; apply Hn; unfold touched; set_solver.
Qed.

Lemma restore_get original to k :
  map_get k (restore original (overrides to original)) =
  if decide (k = "NODE_ENV"%string) then Some (default "undefined"%string (map_get k original)) else map_get k original.
Proof.
  unfold restore. rewrite !restore_var_get.
  destruct (decide (k = "NODE_ENV"%string)) as [->|Hn]; [repeat (rewrite decide_False by done); apply map_get_set_eq|].
  repeat (destruct (decide (_ = k)) as [<-|]; [done|]). rewrite set_var_ne by done. apply overrides_get.
  unfold touched. rewrite !not_elem_of_cons. split_and!; try done. apply not_elem_of_nil.
Qed.

Section Outcomes.
Context (load : vars -> result string EnvironmentConfig) (isValidUrl : string -> bool) (f : faults).

Lemma catch_env {A} (c : SE world string A) h w :
  env (c w).2 = env w -> (forall e w', env (h e w').2 = env w') -> env (catch c h w).2 = env w.
Proof. intros Hc Hh. unfold catch. destruct (c w) as [[a|e] w']; simpl in *; [done|]. by rewrite Hh. Qed.

Lemma record_env r w : env (record f r w).2 = env w.
Proof. unfold record. by case_match. Qed.

Lemma audit_env a w : env (audit_log f a w).2 = env w.
Proof. unfold audit_log. by case_match. Qed.

Lemma bind_env {A B} (c : SE world string A) (k : A -> SE world string B) w :
  env (c w).2 = env w -> (forall a w', env (k a w').2 = env w') -> env (bind c k w).2 = env w.
Proof. intros Hc Hk. unfold bind. destruct (c w) as [[a|e] w']; simpl in *; [by rewrite Hk|done]. Qed.

Lemma promote_env switch r w :
  env (promoteDeployment load isValidUrl f switch r w).2 =
  if valid (validatePromotionPath (from r) (to r)) then restore (env w) (overrides (to r) (env w)) else env w.
Proof.
  unfold promoteDeployment. cbv zeta. destruct (valid (validatePromotionPath _ _)); [|done]. cbn [negb].
  destruct (load _) as [c|e]; [|done]. destruct (valid (validateDeploymentReadiness isValidUrl c)); [|done]. cbn [negb].
  apply (catch_env _ _ (with_env _ w)).
  - unfold promotion_switch. apply bind_env; [done|]. intros _ w1. apply bind_env; [apply record_env|]. intros _ w2.
    apply bind_env; [apply audit_env|done].
  - intros e w1. unfold promotion_failed. apply bind_env; [apply record_env|]. intros _ w2. apply bind_env; [apply audit_env|done].
Qed.

(** A promotion leaves the process environment as it found it, whether it
    succeeds, fails or throws: every variable has its old value, except that an
    unset NODE_ENV comes back as the text "undefined". *)
Theorem promotion_restores_env switch r w k :
  map_get k (env (promoteDeployment load isValidUrl f switch r w).2) =
  if decide (k = "NODE_ENV"%string /\ map_get k (env w) = None /\ to r ∈ validPaths (from r)) then Some "undefined"%string
  else map_get k (env w).
Proof.
  rewrite promote_env. unfold validatePromotionPath, validation. simpl.
  destruct (decide (to r ∈ validPaths (from r))) as [Hp|Hp].
  - rewrite (bool_decide_eq_true_2 (to r ∈ _)) by done. rewrite bool_decide_eq_true_2, restore_get by done.
    destruct (decide (k = "NODE_ENV"%string)) as [->|Hk].
    + case_decide as Hd; destruct (map_get _ (env w)) eqn:E; try done; exfalso; naive_solver.
    + rewrite decide_False by naive_solver. done.
  - rewrite (bool_decide_eq_false_2 (to r ∈ _)) by done. rewrite bool_decide_eq_false_2 by done.
    rewrite decide_False by naive_solver. done.
Qed.

(** Nothing goes wrong with the records. *)
Definition reliable : Prop := (forall n, insert_fails f n = None) /\ (forall n, audit_fails f n = None).

(** With a working database and audit log, a promotion is refused without a
    trace, a switch or an effect when its path or configuration is not valid;
    otherwise the switch runs once and its outcome is what the caller is told,
    what one new history row says and what one new audit entry says. *)
Theorem promotion_outcome switch r w :
  reliable ->
  match promoteDeployment load isValidUrl f switch r w with
  | (Err _, w') => history w' = history w /\ audit w' = audit w /\ switched w' = switched w
  | (Ok p, w') =>
      if valid (checked p) then
        to r ∈ validPaths (from r) /\ switched w' = S (switched w) /\
        match switch with
        | Ok _ => success p = true /\ history w' = history w ++ [promotion_row r SUCCESS] /\ audit w' = audit w ++ [promotion_entry r INFO]
        | Err e => success p = false /\ failure p = Some (Message e) /\
                   history w' = history w ++ [promotion_row r (FAILURE e)] /\ audit w' = audit w ++ [promotion_entry r CRITICAL]
        end
      else success p = false /\ history w' = history w /\ audit w' = audit w /\ switched w' = switched w
  end.
Proof.
  intros [Hi Ha]. unfold promoteDeployment. cbv zeta.
  assert (Hpath : valid (validatePromotionPath (from r) (to r)) = true -> to r ∈ validPaths (from r)).
  { unfold validatePromotionPath, validation. simpl. intros Ev%bool_decide_eq_true. by case_bool_decide. }
  set (v := validatePromotionPath (from r) (to r)) in *. clearbody v. destruct (valid v) eqn:Ev; cbn [negb checked]; [|by rewrite Ev].
  specialize (Hpath eq_refl). destruct (load _) as [c|e]; [|done]. set (d := validateDeploymentReadiness isValidUrl c). clearbody d.
  destruct (valid d) eqn:Er; cbn [negb checked]; [|by rewrite Er].
  unfold catch, promotion_switch, promotion_failed, run_switch, record, audit_log, bind, ret.
  destruct switch as [[]|e]; simpl; rewrite !Hi; simpl; rewrite !Ha; simpl; by rewrite Ev.
Qed.
End Outcomes.

(** ** What the records can say *)

Definition sample_load (v : vars) : result string EnvironmentConfig :=
  Ok {| environment := staging; port := 3000; apiBaseUrl := "https://x"; debug := false; mainnet := false; corsOrigins := [] |}.

Definition sample_request : PromotionRequest := {| from := development; to := staging; version := "v1"; initiatedBy := "ann"; requested := 5 |}.

Definition sample_world : world := {| env := [("PATH", "p")]%string; history := []; audit := []; inserts := 0; audits := 0; switched := 0 |}.

Definition no_faults : faults := {| insert_fails := fun _ => None; audit_fails := fun _ => None |}.

(** The audit log fails once, after the switch: the traffic has moved, the caller
    is told it failed, and the history says both. *)
Example audit_fault_contradicts :
  let '(res, w) := promoteDeployment sample_load (fun _ => true)
    {| insert_fails := fun _ => None; audit_fails := fun n => if bool_decide (n = 0%nat) then Some "locked"%string else None |}
    (Ok tt) sample_request sample_world in
  (success <$> match res with Ok p => Some p | Err _ => None end) = Some false /\ switched w = 1%nat /\
  (status <$> history w) = [SUCCESS; FAILURE "locked"].
Proof. repeat split. Qed.

(** A rollback is listed as a promotion of an environment to itself. *)
Example rollback_listed_as_promotion :
  (fun r => (from r, to r)) <$> getPromotionHistory staging
    (rollbackDeployment no_faults 9 (Ok tt) {| rb_environment := staging; targetVersion := "v0"; rb_initiatedBy := "ann" |} sample_world).2 =
  [(staging, staging)].
Proof. reflexivity. Qed.

Lemma promotion_outcome_witness :
  history (promoteDeployment sample_load (fun _ => true) no_faults (Ok tt) sample_request sample_world).2 =
  [promotion_row sample_request SUCCESS].
Proof.
  pose proof (promotion_outcome sample_load (fun _ => true) no_faults (Ok tt) sample_request sample_world (conj (fun _ => eq_refl) (fun _ => eq_refl))) as H.
  exact (proj1 (proj2 (proj2 (proj2 H)))).
Defined.
End Promotion.
