(* ===== verification/EventIdempotency.v ===== *)
(** * Idempotent events: src/events/idempotency.ts and src/events/idempotencyStore.ts

    [runIdempotentEvent] over the in-memory store (src/db/idempotencyStore.ts), cut
    at the await of its handler, and the SQLite-backed store, whose table has the
    key as its primary key.  SHA-256, HMAC, the text of a number and the order of
    localeCompare are arguments; what the database answers to an attempt (busy,
    locked, done) is an argument of the retry loop. *)

From stdpp Require Import prelude strings pretty.
From Stdlib Require Import ZArith Lia Ascii.
From S2P Require Import Prelude JsMap JsValue JsString Regex Cursor Json WebhookSigning Idempotency.
Open Scope Z_scope.

Module EventIdempotency.
Import Idempotency.

(** ** runIdempotentEvent *)

Definition EVENT_TTL_MS : Z := 24 * 60 * 60 * 1000.

Section Events.
Context (number_text : number -> list ascii) (sha256 : list ascii -> list ascii)
        (locale_le : string -> string -> Prop) `{!RelDecision locale_le}.
Context {R : Type} (ttlMs maxSize : Z).

Notation records := (list (string * IdempotencyRecord R)).

Definition hashEventPayload (payload : value) : list ascii := sha256 (canonicalize number_text locale_le payload).

(** Up to the handler. *)
Inductive begun : Type :=
| KeyRequired
| Replay (result : R)
| Conflict (key : string)
| Started (key : string) (hash : list ascii).

Definition begin_event (now : Z) (key : string) (payload : value) (m : records) : begun * records :=
  let k := trim key in
  if bool_decide (k = EmptyString) then (KeyRequired, m)
  else
    let hash := hashEventPayload payload in
    match store_getRaw k m with
    | Some r =>
        if expiresAt r <=? now then (Started k hash, store_delete k m)
        else if constantTimeEqual (payloadHash r) hash then (Replay (answer r), m)
        else (Conflict k, m)
    | None => (Started k hash, m)
    end.

(** After the handler: a handler that throws stores nothing. *)
Definition finish_event (now : Z) (key : string) (hash : list ascii) (res : result string R) (m : records) : records :=
  match res with
  | Ok v => store_set ttlMs maxSize now key hash v now (Some (now + EVENT_TTL_MS)) m
  | Err _ => m
  end.

(** ** The facade *)

Definition isEventProcessed (eventId : string) (s : list string) : bool := bool_decide (eventId ∈ s).
Definition markEventProcessed (eventId : string) (s : list string) : list string :=
  if bool_decide (eventId ∈ s) then s else s ++ [eventId].

(** ** Theorems *)

Lemma begin_hit now key payload m r :
  trim key <> EmptyString -> map_get (trim key) m = Some r -> now < expiresAt r ->
  begin_event now key payload m =
    (if constantTimeEqual (payloadHash r) (hashEventPayload payload) then Replay (answer r) else Conflict (trim key), m).
Proof.
  intros Hk Hr Ht. unfold begin_event, store_getRaw. rewrite bool_decide_eq_false_2, Hr by done.
  destruct (Z.leb_spec (expiresAt r) now); [lia|]. by case_match.
Qed.

(** An event that has run is not run again for a day: after its handler
    returned, the same key with the same payload gets the stored result and any
    other payload is refused, neither touching the store, whatever room had to
    be made; after a day, and after a handler that threw, the key runs again. *)
Theorem event_runs_once t t' key payload payload' v m :
  trim key <> EmptyString -> (forall p, Signing.digest (sha256 p)) ->
  let h := hashEventPayload payload in
  let m' := finish_event t (trim key) h (Ok v) m in
  (t' < t + EVENT_TTL_MS ->
     begin_event t' key payload m' = (Replay v, m') /\
     (hashEventPayload payload' <> h -> begin_event t' key payload' m' = (Conflict (trim key), m'))) /\
  (t + EVENT_TTL_MS <= t' -> (begin_event t' key payload' m').1 = Started (trim key) (hashEventPayload payload')) /\
  (forall e, finish_event t (trim key) h (Err e) m = m).
Proof.
  intros Hk Hd h m'. set (rec := {| payloadHash := h; answer := v; createdAt := t; expiresAt := t + EVENT_TTL_MS |}).
  assert (Hget : map_get (trim key) m' = Some rec) by apply map_get_set_eq.
  split; [|split; [|done]].
  - intros Ht. split.
    + rewrite (begin_hit t' key payload m' rec Hk Hget Ht). simpl. unfold constantTimeEqual.
      by rewrite bool_decide_eq_true_2.
    + intros Hne. rewrite (begin_hit t' key payload' m' rec Hk Hget Ht). simpl. unfold constantTimeEqual.
      rewrite bool_decide_eq_false_2; [done|]. intros E. apply Hne. symmetry.
      destruct (Hd (canonicalize number_text locale_le payload)) as [L1 F1], (Hd (canonicalize number_text locale_le payload')) as [L2 F2].
      by apply (Signing.hex_bytes_inj 32).
  - intros Ht. unfold begin_event, store_getRaw. rewrite bool_decide_eq_false_2, Hget by done. simpl.
    destruct (Z.leb_spec (t + EVENT_TTL_MS) t'); [done|lia].
Qed.

(** Two deliveries of one event before the first handler returns: both run, even
    with different payloads. *)
Lemma concurrent_runs_twice t t' key payload payload' m :
  trim key <> EmptyString -> map_get (trim key) m = None ->
  begin_event t key payload m = (Started (trim key) (hashEventPayload payload), m) /\
  begin_event t' key payload' m = (Started (trim key) (hashEventPayload payload'), m).
Proof. intros Hk Hn. unfold begin_event, store_getRaw. rewrite bool_decide_eq_false_2, Hn by done. done. Qed.
End Events.

(** ** The SQLite store *)

Record IncomingEvent : Type := { providerId : string; eventType : string; eventId : string; timestamp : Z }.

Record IdempotencyEntry : Type := {
  entry_provider : string; entry_type : string; entry_event : string; responseBody : string; entry_created : Z; entry_expires : Z;
}.

(** The table, by its primary key. *)
Definition table : Type := list (string * IdempotencyEntry).

Definition windowed (window ts : Z) : Z := ts / window * window.

Definition key_payload (window : Z) (e : IncomingEvent) : string :=
  (providerId e +:+ ":" +:+ eventType e +:+ ":" +:+ eventId e +:+ ":" +:+ pretty (windowed window (timestamp e)))%string.

Definition computeIdempotencyKey (hmac : string -> string -> string) (secret : option string) (window : Z) (e : IncomingEvent) : string :=
  hmac (default "default-idempotency-secret"%string secret) (key_payload window e).

Definition get (grace now : Z) (k : string) (t : table) : option IdempotencyEntry :=
  match map_get k t with Some r => if bool_decide (now - grace < entry_expires r) then Some r else None | None => None end.

(** INSERT OR IGNORE: did it insert? *)
Definition insert (k : string) (r : IdempotencyEntry) (t : table) : bool * table :=
  match map_get k t with Some _ => (false, t) | None => (true, t ++ [(k, r)]) end.

Definition updateResponse (k body : string) (t : table) : table :=
  (fun e => if bool_decide (e.1 = k) then
              (e.1, {| entry_provider := entry_provider e.2; entry_type := entry_type e.2; entry_event := entry_event e.2; responseBody := body;
                       entry_created := entry_created e.2; entry_expires := entry_expires e.2 |})
            else e) <$> t.

Definition purge (now : Z) (t : table) : Z * table :=
  (Z.of_nat (length (filter (fun e => entry_expires e.2 <= now) t)), filter (fun e => now < entry_expires e.2) t).

(** An attempt's outcome: done, SQLITE_BUSY or locked, or another error. *)
Inductive attempt (A : Type) : Type := Done (a : A) | Busy (e : string) | Fails (e : string).
Arguments Done {A} a.
Arguments Busy {A} e.
Arguments Fails {A} e.

(** [withRetry] from attempt [n] on; the error is [None] for [throw lastError!] with
    no error. *)
Fixpoint withRetry {A} (fuel : nat) (maxRetries n : Z) (attempts : Z -> attempt A) : result (option string) A :=
  match fuel with
  | O => Err None
  | S fuel =>
      if n <=? maxRetries then
        match attempts n with
        | Done a => Ok a
        | Busy e => if n <? maxRetries then withRetry fuel maxRetries (n + 1) attempts else Err (Some e)
        | Fails e => Err (Some e)
        end
      else Err None
  end.

Definition retry_fuel (maxRetries : Z) : nat := S (S (Z.to_nat maxRetries)).

(** Operations of concurrent requests, in the order the database runs them. *)
Inductive op : Type := Insert (k : string) (r : IdempotencyEntry) | Update (k body : string).

Definition exec_op (t : table) (o : op) : table :=
  match o with Insert k r => (insert k r t).2 | Update k b => updateResponse k b t end.

(** The answers of the inserts of one key. *)
Fixpoint wins (k : string) (os : list op) (t : table) : list bool :=
  match os with
  | [] => []
  | o :: os =>
      match o with
      | Insert k' r => if bool_decide (k' = k) then (insert k r t).1 :: wins k os (exec_op t o) else wins k os (exec_op t o)
      | _ => wins k os (exec_op t o)
      end
  end.

Lemma map_get_update k body k' t : is_Some (map_get k' (updateResponse k body t)) <-> is_Some (map_get k' t).
Proof.
  unfold updateResponse. induction t as [|[k0 r] t IH]; [done|]. rewrite fmap_cons. case_bool_decide; simpl; by case_decide.
Qed.

Lemma map_get_insert k r k' t : is_Some (map_get k' (insert k r t).2) <-> is_Some (map_get k' t) \/ k' = k.
Proof.
  unfold insert. destruct (map_get k t) eqn:E; simpl.
  - split; [by left|]. intros [?| ->]; [done|]. by rewrite E.
  - rewrite <- map_set_None by done. destruct (decide (k' = k)) as [->|Hne].
    + rewrite map_get_set_eq. split; [by right|by eexists].
    + rewrite map_get_set_ne by done. naive_solver.
Qed.

Lemma wins_taken k os t : is_Some (map_get k t) -> Forall (fun b => b = false) (wins k os t).
Proof.
  revert t. induction os as [|[k' r|k' b] os IH]; intros t Ht; simpl; [constructor|..].
  - assert (H : is_Some (map_get k (insert k' r t).2)) by (apply map_get_insert; by left).
    case_bool_decide as E; [|by apply IH]. constructor; [|by apply IH]. unfold insert. by destruct Ht as [x ->].
  - apply IH. by apply map_get_update.
Qed.

(** Exactly one of the concurrent inserts of a key wins: whatever other inserts
    and updates run between them, the first insert of a new key answers true and
    every later one false. *)
Theorem insert_wins_once k os t :
  map_get k t = None ->
  match wins k os t with [] => True | b :: bs => b = true /\ Forall (fun b => b = false) bs end.
Proof.
  revert t. induction os as [|[k' r|k' b] os IH]; intros t Ht; simpl; [done|..].
  - case_bool_decide as E.
    + subst k'. split; [unfold insert; by rewrite Ht|]. apply wins_taken. apply map_get_insert. by right.
    + apply IH. destruct (map_get k (insert k' r t).2) eqn:Eg; [|done].
      assert (Hs : is_Some (map_get k (insert k' r t).2)) by (by rewrite Eg). apply map_get_insert in Hs as [[x Hx]| ->]; congruence.
  - apply IH. destruct (map_get k (updateResponse k' b t)) eqn:Eg; [|done].
    assert (Hs : is_Some (map_get k (updateResponse k' b t))) by (by rewrite Eg). apply map_get_update in Hs as [x Hx]. congruence.
Qed.

(** The loop ends with what the first attempt that is not busy gives, or with the
    busy error of the last. *)
Lemma withRetry_ends {A} maxRetries (attempts : Z -> attempt A) fuel n :
  0 <= n <= maxRetries -> (Z.to_nat (maxRetries - n) < fuel)%nat ->
  exists i, n <= i <= maxRetries /\ (forall j, n <= j < i -> exists e, attempts j = Busy e) /\
    withRetry fuel maxRetries n attempts =
      match attempts i with Done a => Ok a | Busy e => Err (Some e) | Fails e => Err (Some e) end /\
    (match attempts i with Busy _ => i = maxRetries | _ => True end).
Proof.
  revert n. induction fuel as [|fuel IH]; intros n Hn Hf; [lia|]. simpl.
  destruct (Z.leb_spec n maxRetries); [|lia]. destruct (attempts n) as [a|e|e] eqn:E.
  - exists n. rewrite E. split; [lia|]. split; [lia|]. done.
  - destruct (Z.ltb_spec n maxRetries).
    + destruct (IH (n + 1)) as (i & Hi & Hb & Hr & Hl); [lia|lia|]. exists i. split; [lia|]. split; [|done].
      intros j Hj. destruct (decide (j = n)) as [->|]; [by exists e|]. apply Hb. lia.
    + exists n. rewrite E. split; [lia|]. split; [lia|]. split; [done|lia].
  - exists n. rewrite E. split; [lia|]. split; [lia|]. done.
Qed.

(** A limit that is not a number, -1 here, makes no attempt and throws null. *)
Example no_attempt_throws_null : withRetry (retry_fuel (-1)) (-1) 0 (fun _ => Done 1) = Err None.
Proof. reflexivity. Qed.

Definition sample_entry (expires : Z) : IdempotencyEntry :=
  {| entry_provider := "p"; entry_type := "t"; entry_event := "e"; responseBody := ""; entry_created := 0; entry_expires := expires |}.

(** In its grace period a key is still found, but the purge deletes it. *)
Example purge_ignores_grace :
  get 60000 1500 "k" [("k"%string, sample_entry 1000)] = Some (sample_entry 1000) /\
  get 60000 1500 "k" (purge 1500 [("k"%string, sample_entry 1000)]).2 = None.
Proof. split; reflexivity. Qed.

(** Past its grace period a key that was not purged is not found and cannot be
    inserted. *)
Example expired_key_blocks :
  get 60000 100000 "k" [("k"%string, sample_entry 1000)] = None /\
  (insert "k" (sample_entry 200000) [("k"%string, sample_entry 1000)]).1 = false.
Proof. split; reflexivity. Qed.

(** Two reports of one event a millisecond apart get different keys at a window
    boundary, and different events the same one. *)
Example window_boundary :
  windowed 300000 299999 <> windowed 300000 300000.
Proof. vm_compute. discriminate. Qed.

Example separator_collision :
  key_payload 300000 {| providerId := "a:b"; eventType := "c"; eventId := "1"; timestamp := 0 |} =
  key_payload 300000 {| providerId := "a"; eventType := "b:c"; eventId := "1"; timestamp := 0 |}.
Proof. reflexivity. Qed.

(** ** Witnesses *)

Lemma event_runs_once_witness :
  let h := hashEventPayload sample_text sample_sha String.le VNull in
  let m' := finish_event 1000 10 5 "k" h (Ok 7%nat) [] in
  begin_event sample_text sample_sha String.le 6 " k " VNull m' = (Replay 7%nat, m').
Proof.
  exact (proj1 (proj1 (event_runs_once sample_text sample_sha String.le 1000 10 5 6 " k " VNull VNull 7%nat [] ltac:(discriminate) sample_sha_digest)
                 ltac:(vm_compute; reflexivity))).
Defined.

Lemma insert_wins_once_witness :
  match wins "k" [Insert "k" (sample_entry 1); Update "k" "x"; Insert "k" (sample_entry 2)] [] with
  | [] => True | b :: bs => b = true /\ Forall (fun b => b = false) bs end.
Proof. apply insert_wins_once. reflexivity. Defined.
End EventIdempotency.
