(* ===== verification/AuditSqlite.v ===== *)
(** * The SQLite audit repository: src/audit/sqliteRepository.ts

    The table audit_log_entries as its rows in the order of their sequence
    numbers, over the entries, filters and hashes of the in-memory store
    (src/audit/store.ts), which the repository replaces.  [reparse] is what a
    metadata text becomes when it is parsed and serialised again. *)

From stdpp Require Import prelude strings sorting.
From Stdlib Require Import ZArith Lia.
From S2P Require Import Prelude JsMap AuditStore.
Open Scope Z_scope.

Module AuditSqlite.
Import Audit.

(** The stored columns are those of an entry; [metadata] is metadata_json. *)
Record AuditRow : Type := { seq : Z; columns : AuditEntry }.

(** Rows by ascending [seq] (AUTOINCREMENT), and the next number. *)
Record database : Type := { rows : list AuditRow; next_seq : Z }.

Inductive repo_error : Type := UniqueId | FilterMismatch.

Section Repository.
Context (digest : content -> string) (checkTime : string) (reparse : string -> string).

Definition toAuditEntry (r : AuditRow) : AuditEntry :=
  let e := columns r in
  {| id := id e; timestamp := timestamp e; action := action e; severity := severity e; actor := actor e; resource := resource e;
     resourceId := resourceId e; metadata := reparse (metadata e); ipAddress := ipAddress e; correlationId := correlationId e;
     previousHash := previousHash e; hash := hash e |}.

(** The transaction of [append]; a duplicate id rolls it back. *)
Definition repo_append (uuid now : string) (input : CreateAuditEntryInput) (d : database) : result repo_error AuditEntry * database :=
  let partial :=
    {| id := uuid; timestamp := now; action := in_action input; severity := in_severity input; actor := in_actor input;
       resource := in_resource input; resourceId := in_resourceId input; metadata := in_metadata input;
       ipAddress := in_ipAddress input; correlationId := in_correlationId input;
       previousHash := match last (rows d) with Some r => hash (columns r) | None => GENESIS_HASH end; hash := EmptyString |} in
  let entry := with_hash (computeEntryHash digest partial) partial in
  if bool_decide (uuid ∈ (fun r => id (columns r)) <$> rows d) then (Err UniqueId, d)
  else (Ok entry, {| rows := rows d ++ [{| seq := next_seq d; columns := entry |}]; next_seq := next_seq d + 1 |}).

Definition repo_getById (i : string) (d : database) : option AuditEntry :=
  toAuditEntry <$> head (filter (fun r => id (columns r) = i) (rows d)).

(** The WHERE clause of [buildQuerySql]. *)
Definition where_ (f : filters) (r : AuditRow) : bool := matches f (columns r).

Definition repo_query (q : AuditQuery) (d : database) : list AuditEntry :=
  let off := Z.to_nat (Z.max (default 0 (offset q)) 0) in
  let selected := filter (fun r => where_ (flt q) r = true) (rows d) in
  toAuditEntry <$> match limit q with
                   | Some n => take (Z.to_nat (Z.max n 0)) (drop off selected)
                   | None => drop off selected
                   end.

Definition repo_stream := repo_query.

Definition repo_count (d : database) : nat := length (rows d).

(** [buildCursorQuerySql] *)
Definition cursor_rows (f : filters) (start : Z) (n : nat) (d : database) : list AuditRow :=
  take n (filter (fun r => where_ f r = true) (if 0 <? start then filter (fun r => start < seq r) (rows d) else rows d)).

Definition seq_of (i : string) (d : database) : option Z := seq <$> head (filter (fun r => id (columns r) = i) (rows d)).

Definition cursor_of (f : filters) (e : AuditEntry) : CursorData :=
  {| lastId := id e; lastTimestamp := timestamp e; cursor_filters := f |}.

Definition repo_queryWithCursor (q : AuditQuery) (d : database) : result repo_error AuditQueryResult :=
  let n := page_limit q in
  let start :=
    match cur q with
    | GoodCursor c => if bool_decide (cursor_filters c = flt q) then Ok (default 0 (seq_of (lastId c) d)) else Err FilterMismatch
    | _ => Ok 0
    end in
  match start with
  | Err e => Err e
  | Ok start =>
      let page := toAuditEntry <$> cursor_rows (flt q) start (Z.to_nat n) d in
      let more := bool_decide (length page = Z.to_nat n) &&
                  bool_decide (Z.to_nat n < length (cursor_rows (flt q) start (S (Z.to_nat n)) d))%nat in
      Ok {| entries := page; count := length page; res_limit := n;
            nextCursor := if more then cursor_of (flt q) <$> last page else None |}
  end.

Definition repo_verifyIntegrity (d : database) : IntegrityReport :=
  match verify_from digest 0 GENESIS_HASH (toAuditEntry <$> rows d) with
  | None => {| valid := true; totalEntries := length (rows d); firstCorruptedIndex := None; firstCorruptedId := None; checkedAt := checkTime |}
  | Some (i, x) => {| valid := false; totalEntries := length (rows d); firstCorruptedIndex := Some i; firstCorruptedId := Some x; checkedAt := checkTime |}
  end.

(** ** The table's invariant *)

Record table_ok (d : database) : Prop := {
  tk_sorted : StronglySorted (fun a b => seq a < seq b) (rows d);
  tk_positive : Forall (fun r => 0 < seq r < next_seq d) (rows d);
  tk_next : 0 < next_seq d;
  tk_unique : NoDup ((fun r => id (columns r)) <$> rows d);
}.

Lemma repo_append_ok uuid now input d : table_ok d -> table_ok (repo_append uuid now input d).2.
Proof.
  intros [Hs Hp Hn Hu]. unfold repo_append. cbv zeta. case_bool_decide as Hd; [done|]. constructor; simpl.
  - apply StronglySorted_app_2; [|done|repeat constructor].
    intros a b Ha ->%list_elem_of_singleton. rewrite Forall_forall in Hp. destruct (Hp a Ha). simpl. lia.
  - apply Forall_app. split; [|constructor; simpl; [lia|constructor]]. eapply Forall_impl; [exact Hp|]. simpl. lia.
  - lia.
  - rewrite fmap_app. apply NoDup_app. split; [done|]. split; [|apply NoDup_singleton].
    intros x Hx ->%list_elem_of_singleton. done.
Qed.

(** ** Refinement of the in-memory store *)

(** The table holds the store's log, and its metadata survives a round trip. *)
Definition represents (d : database) (s : store) : Prop :=
  columns <$> rows d = log s /\ appendGuard s = false /\ Forall (fun e => reparse (metadata e) = metadata e) (log s).

Lemma toAuditEntry_same r : reparse (metadata (columns r)) = metadata (columns r) -> toAuditEntry r = columns r.
Proof. intros E. unfold toAuditEntry. rewrite E. by destruct (columns r). Qed.

Lemma represents_entries d s l : represents d s -> l ⊆ rows d -> toAuditEntry <$> l = columns <$> l.
Proof.
  intros (Hl & _ & Hm) Hsub. apply list_fmap_ext. intros i r Hr. apply toAuditEntry_same.
  rewrite Forall_forall in Hm. apply Hm. rewrite <- Hl. apply list_elem_of_fmap_2, Hsub. by eapply list_elem_of_lookup_2.
Qed.

Lemma fmap_filter {A B} (f : A -> B) (P : B -> Prop) `{!forall x, Decision (P x)} (l : list A) :
  f <$> filter (fun x => P (f x)) l = filter P (f <$> l).
Proof.
  induction l as [|x l IH]; [done|]. rewrite fmap_cons, !filter_cons. destruct (decide (P (f x))); [|done]. by rewrite fmap_cons, IH.
Qed.

Lemma last_fmap {A B} (f : A -> B) (l : list A) : last (f <$> l) = f <$> last l.
Proof. induction l as [|x l IH]; [done|]. destruct l; [done|]. exact IH. Qed.


(** ** Pages *)

(** The rows a query still has to deliver after [start]. *)
Definition remaining (f : filters) (start : Z) (d : database) : list AuditRow :=
  filter (fun r => where_ f r = true) (filter (fun r => start < seq r) (rows d)).

Lemma cursor_rows_remaining f start n d : table_ok d -> 0 <= start -> cursor_rows f start n d = take n (remaining f start d).
Proof.
  intros Hd Hs. unfold cursor_rows, remaining. destruct (Z.ltb_spec 0 start) as [|H0]; [done|].
  assert (start = 0) as -> by lia. do 2 f_equal. symmetry. apply filter_keep_all.
  eapply Forall_impl; [apply (tk_positive d Hd)|]. simpl. lia.
Qed.

Lemma sorted_after l1 (r : AuditRow) l2 : StronglySorted (fun a b => seq a < seq b) (l1 ++ r :: l2) ->
  filter (fun x => seq r < seq x) (l1 ++ r :: l2) = l2.
Proof.
  intros Hs. rewrite filter_app, filter_cons_False by lia. rewrite filter_keep_none.
  - apply filter_keep_all, Forall_forall. intros x Hx. apply StronglySorted_app_1_r in Hs. inversion Hs as [|? ? _ Hall]; subst.
    rewrite Forall_forall in Hall. by apply Hall.
  - apply Forall_forall. intros x Hx. pose proof (StronglySorted_app_1_elem_of _ _ _ x r Hs Hx) as H. specialize (H ltac:(by left)). simpl in *. lia.
Qed.

Lemma filter_twice {A} (P Q : A -> Prop) `{!forall x, Decision (P x), !forall x, Decision (Q x)} (l : list A) :
  (forall x, Q x -> P x) -> filter Q (filter P l) = filter Q l.
Proof.
  intros Himp. induction l as [|x l IH]; [done|]. rewrite !filter_cons. destruct (decide (P x)) as [HP|HP].
  - rewrite filter_cons. destruct (decide (Q x)); by rewrite IH.
  - rewrite (decide_False (P := Q x)) by auto. done.
Qed.

Lemma filter_swap {A} (P Q : A -> Prop) `{!forall x, Decision (P x), !forall x, Decision (Q x)} (l : list A) :
  filter Q (filter P l) = filter P (filter Q l).
Proof.
  induction l as [|x l IH]; [done|]. destruct (decide (P x)) as [HP|HP], (decide (Q x)) as [HQ|HQ].
  - rewrite (filter_cons_True P), (filter_cons_True Q), (filter_cons_True Q), (filter_cons_True P) by done. by rewrite IH.
  - rewrite (filter_cons_True P), (filter_cons_False Q), (filter_cons_False Q) by done. done.
  - rewrite (filter_cons_False P), (filter_cons_True Q), (filter_cons_False P) by done. done.
  - rewrite (filter_cons_False P), (filter_cons_False Q) by done. done.
Qed.

(** What remains after the last row of a page is what the page left. *)
Lemma remaining_next f start d l1 r l2 : table_ok d -> remaining f start d = l1 ++ r :: l2 -> remaining f (seq r) d = l2.
Proof.
  intros Hd E. assert (Hr : start < seq r).
  { assert (Hin : r ∈ remaining f start d) by (rewrite E; apply elem_of_app; right; left).
    unfold remaining in Hin. apply list_elem_of_filter in Hin as [_ Hin]. by apply list_elem_of_filter in Hin as [? _]. }
  assert (Hs : StronglySorted (fun a b => seq a < seq b) (remaining f start d)).
  { unfold remaining. do 2 apply filter_StronglySorted. apply (tk_sorted d Hd). }
  rewrite <- (sorted_after l1 r l2), <- E by (by rewrite <- E). unfold remaining.
  rewrite <- (filter_twice (fun x => start < seq x) (fun x => seq r < seq x) (rows d)) by (intros; lia).
  by rewrite filter_swap.
Qed.

Lemma seq_of_row d r : table_ok d -> r ∈ rows d -> seq_of (id (columns r)) d = Some (seq r).
Proof.
  intros Hd Hin. unfold seq_of. pose proof (tk_unique d Hd) as Hu. apply list_elem_of_split in Hin as (l1 & l2 & El).
  rewrite El in *. rewrite filter_app, filter_keep_none.
  - by rewrite filter_cons_True.
  - apply Forall_forall. intros x Hx E. rewrite fmap_app, fmap_cons in Hu. apply NoDup_app in Hu as (_ & Hd' & _).
    apply (Hd' (id (columns r))); [rewrite <- E; by apply (list_elem_of_fmap_2 (fun r => id (columns r)))|left].
Qed.

(** A client that follows [nextCursor]. *)
Fixpoint repo_walk (n : option Z) (f : filters) (d : database) (fuel : nat) (c : cursor) : option (list AuditEntry) :=
  match fuel with
  | O => None
  | S fuel =>
      match repo_queryWithCursor {| flt := f; limit := n; offset := None; cur := c |} d with
      | Err _ => None
      | Ok r => match nextCursor r with
                | None => Some (entries r)
                | Some x => app (entries r) <$> repo_walk n f d fuel (GoodCursor x)
                end
      end
  end.

Lemma repo_walk_from n f d fuel c start : table_ok d -> 0 <= start ->
  (match c with GoodCursor x => cursor_filters x = f /\ default 0 (seq_of (lastId x) d) = start | _ => start = 0 end) ->
  (length (remaining f start d) < fuel)%nat ->
  repo_walk n f d fuel c = Some (toAuditEntry <$> remaining f start d).
Proof.
  intros Hd. revert c start. induction fuel as [|fuel IH]; intros c start Hs Hc Hf; [lia|]. cbn [repo_walk].
  set (q := {| flt := f; limit := n; offset := None; cur := c |}). set (k := Z.to_nat (page_limit q)).
  pose proof (page_limit_range q) as Hk. assert (Hk1 : (1 <= k)%nat) by lia.
  assert (E : repo_queryWithCursor q d =
    let page := toAuditEntry <$> take k (remaining f start d) in
    Ok {| entries := page; count := length page; res_limit := page_limit q;
          nextCursor := if bool_decide (length page = k) && bool_decide (k < length (take (S k) (remaining f start d)))%nat
                        then cursor_of f <$> last page else None |}).
  { unfold repo_queryWithCursor. fold k. destruct c as [| |x]; simpl in Hc; cbn [cur q flt];
      [subst start; by rewrite !cursor_rows_remaining by first [done|lia]..|].
    destruct Hc as [Ef Es]. rewrite bool_decide_eq_true_2 by done. rewrite Es. by rewrite !cursor_rows_remaining by done. }
  rewrite E. cbv zeta. cbn [nextCursor entries]. rewrite length_fmap, length_take.
  destruct (Nat.le_gt_cases (length (remaining f start d)) k) as [Hle|Hgt].
  - rewrite (bool_decide_eq_false_2 (k < _)%nat), andb_false_r by (rewrite length_take; lia). by rewrite take_ge.
  - rewrite !bool_decide_eq_true_2 by (rewrite ?length_take; lia). cbn [andb].
    clearbody k. destruct k as [|k']; [lia|].
    destruct (lookup_lt_is_Some_2 (remaining f start d) k' ltac:(lia)) as [r Hr].
    rewrite (take_S_r _ _ r Hr), fmap_app, last_app. cbn [fmap list_fmap last option_fmap option_map].
    assert (Hsplit : remaining f start d = take k' (remaining f start d) ++ r :: drop (S k') (remaining f start d))
      by (symmetry; by apply take_drop_middle).
    pose proof (remaining_next f start d _ r _ Hd Hsplit) as Hnext.
    assert (Hin : r ∈ rows d).
    { assert (H0 : r ∈ remaining f start d) by (by eapply list_elem_of_lookup_2). unfold remaining in H0.
      apply list_elem_of_filter in H0 as [_ H0]. by apply list_elem_of_filter in H0 as [_ ?]. }
    pose proof (tk_positive d Hd) as Hpos. rewrite Forall_forall in Hpos. specialize (Hpos r Hin).
    rewrite (IH _ (seq r)).
    + cbn. rewrite Hnext. rewrite Hsplit at 3. rewrite fmap_app. cbn. by rewrite <- (assoc (++)).
    + lia.
    + simpl. rewrite (seq_of_row d r Hd Hin). done.
    + rewrite Hnext, length_drop. lia.
Qed.

(** Following the cursors of the SQLite repository delivers every entry the
    filters select, once each and oldest first, whatever the filters and the
    page size. *)
Theorem sqlite_pages_complete n f d :
  table_ok d -> repo_walk n f d (S (length (rows d))) NoCursor = Some (repo_query {| flt := f; limit := None; offset := None; cur := NoCursor |} d).
Proof.
  intros Hd. assert (Er : remaining f 0 d = filter (fun r => where_ f r = true) (rows d)).
  { unfold remaining. f_equal. apply filter_keep_all. eapply Forall_impl; [apply (tk_positive d Hd)|]. simpl. lia. }
  rewrite (repo_walk_from n f d _ NoCursor 0); [|done|lia|done|].
  - rewrite Er. done.
  - rewrite Er. pose proof (length_filter (fun r => where_ f r = true) (rows d)). lia.
Qed.
End Repository.

(** ** Witnesses *)

Definition sample_input (a : string) : CreateAuditEntryInput :=
  {| in_action := a; in_severity := "INFO"; in_actor := "ann"; in_resource := "contract"; in_resourceId := "c1"; in_metadata := "{}";
     in_ipAddress := None; in_correlationId := None |}.

Definition empty_table : database := {| rows := []; next_seq := 1 |}.
Definition empty_log : store := {| log := []; appendGuard := false |}.

Definition two_rows : database :=
  (repo_append coded_digest "u2" "2024" (sample_input "B") (repo_append coded_digest "u1" "2023" (sample_input "A") empty_table).2).2.


Lemma empty_table_ok : table_ok empty_table.
Proof. constructor; [constructor|constructor|reflexivity|constructor]. Defined.

Lemma sqlite_pages_complete_witness :
  repo_walk (fun x => x) (Some 1) no_filters two_rows 3 NoCursor =
  Some (repo_query (fun x => x) {| flt := no_filters; limit := None; offset := None; cur := NoCursor |} two_rows).
Proof. apply (sqlite_pages_complete (fun x => x) (Some 1) no_filters two_rows). apply repo_append_ok, repo_append_ok, empty_table_ok. Defined.
End AuditSqlite.
