(* ===== verification/AuditInput.v ===== *)
(** * Audit input: src/audit/inputValidation.ts and src/audit/redact.ts

    The bounds on the metadata of an audit entry and the redaction of what is
    logged.  A JavaScript value is a tree here, so the guards against cycles and
    throwing getters have nothing to catch.  The text of a number is an argument.
    The body schema itself is a Zod declaration and is not modelled. *)

From stdpp Require Import prelude strings.
From Stdlib Require Import ZArith Lia Ascii.
From S2P Require Import Prelude JsValue JsString Regex Cursor Json Promotion.
Open Scope Z_scope.

Module AuditInput.

(** ** Bounds *)

Definition MAX_METADATA_KEY_LENGTH : nat := 64.
Definition MAX_METADATA_ENTRIES : nat := 50.
Definition MAX_METADATA_ARRAY_ITEMS : nat := 200.
Definition MAX_METADATA_DEPTH : nat := 5.
Definition MAX_METADATA_STRING_LENGTH : Z := 4096.
Definition MAX_METADATA_BYTES : Z := 16384.
Definition MAX_METADATA_NUMBER : Z := 2 ^ 53 - 1.

Definition FORBIDDEN_METADATA_KEYS : list string := ["__proto__"; "constructor"; "prototype"]%string.

Inductive code : Type :=
| INVALID_TYPE | TOO_BIG | NOT_FINITE | METADATA_TOO_DEEP | METADATA_TOO_MANY_KEYS | METADATA_KEY_TOO_LONG
| METADATA_FORBIDDEN_KEY | METADATA_TOO_LARGE | METADATA_NOT_SERIALISABLE.

Inductive segment : Type := Key (k : string) | Index (i : nat).

Record MetadataIssue : Type := { path : list segment; issue_code : code }.

Definition text_length (s : string) : Z := Z.of_nat (String.length s).

(** [Math.abs(n) > MAX_METADATA_NUMBER] of a finite number *)
Definition number_issue (n : number) : list code :=
  match n with
  | Fin u => if MAX_METADATA_NUMBER * num_scale <? Z.abs u then [TOO_BIG] else []
  | _ => [NOT_FINITE]
  end.

(** [walkMetadataValue] *)
Fixpoint walkMetadataValue (v : value) (p : list segment) (depth : nat) : list MetadataIssue :=
  let issue c := {| path := p; issue_code := c |} in
  match v with
  | VNull | VBool _ => []
  | VString s => if MAX_METADATA_STRING_LENGTH <? text_length s then [issue TOO_BIG] else []
  | VNumber n => issue <$> number_issue n
  | VUndefined => [issue INVALID_TYPE]
  | VArray vs =>
      if bool_decide (MAX_METADATA_DEPTH < depth)%nat then [issue METADATA_TOO_DEEP]
      else (if bool_decide (MAX_METADATA_ARRAY_ITEMS < length vs)%nat then [issue TOO_BIG] else []) ++
           (fix items (i : nat) (l : list value) : list MetadataIssue :=
              match l with
              | [] => []
              | x :: l' =>
                  (if bool_decide (i < MAX_METADATA_ARRAY_ITEMS)%nat then walkMetadataValue x (p ++ [Index i]) (S depth) else []) ++
                  items (S i) l'
              end) O vs
  | VObject fs =>
      if bool_decide (MAX_METADATA_DEPTH < depth)%nat then [issue METADATA_TOO_DEEP]
      else (if bool_decide (MAX_METADATA_ENTRIES < length fs)%nat then [issue METADATA_TOO_MANY_KEYS] else []) ++
           (fix entries (l : list (string * value)) : list MetadataIssue :=
              match l with
              | [] => []
              | (k, x) :: l' =>
                  (if bool_decide (k ∈ FORBIDDEN_METADATA_KEYS) then [{| path := p ++ [Key k]; issue_code := METADATA_FORBIDDEN_KEY |}]
                   else if bool_decide (MAX_METADATA_KEY_LENGTH < String.length k)%nat
                        then [{| path := p ++ [Key k]; issue_code := METADATA_KEY_TOO_LONG |}]
                        else walkMetadataValue x (p ++ [Key k]) (S depth)) ++
                  entries l'
              end) fs
  end.

Section Size.
Context (number_text : number -> list ascii).

(** [Buffer.byteLength(JSON.stringify(value) ?? '', 'utf-8')] *)
Definition serialisedByteLength (v : value) : Z := Z.of_nat (length (Cursor.utf8_encode (default [] (Json.stringify number_text v)))).

Definition validateMetadata (v : value) : list MetadataIssue :=
  match v with
  | VObject _ =>
      match walkMetadataValue v [] 1 with
      | [] => if MAX_METADATA_BYTES <? serialisedByteLength v then [{| path := []; issue_code := METADATA_TOO_LARGE |}] else []
      | issues => issues
      end
  | _ => [{| path := []; issue_code := INVALID_TYPE |}]
  end.

Fixpoint computeDepth (v : value) : nat :=
  match v with
  | VArray vs => S (foldr (fun x m => Nat.max (computeDepth x) m) 0%nat vs)
  | VObject fs => S (foldr (fun f m => Nat.max (computeDepth f.2) m) 0%nat fs)
  | _ => 0
  end.

End Size.

(** ** Redaction *)

Definition REDACTED : string := "[REDACTED]".

Definition SENSITIVE_HEADER_NAMES : list string :=
  ["authorization"; "cookie"; "set-cookie"; "x-api-key"; "x-auth-token"; "x-access-token"]%string.

Definition SENSITIVE_KEY_FRAGMENTS : list string :=
  ["password"; "secret"; "token"; "credential"; "apikey"; "api_key"; "private"]%string.

Definition isSensitiveHeader (name : string) : bool := bool_decide (to_lower name ∈ SENSITIVE_HEADER_NAMES).

Definition isSensitiveKey (key : string) : bool :=
  existsb (fun fragment => Promotion.includes fragment (to_lower key)) SENSITIVE_KEY_FRAGMENTS.

(** The parts of a text around its first [c]. *)
Fixpoint split_first_at (c : ascii) (l : list ascii) : option (list ascii * list ascii) :=
  match l with
  | [] => None
  | x :: l' => if bool_decide (x = c) then Some ([], l') else prod_map (cons x) id <$> split_first_at c l'
  end.

(** A dot that is neither first nor last. *)
Definition inner_dot (l : list ascii) : bool := bool_decide ("."%char ∈ removelast (tail l)).

Definition word_char (c : ascii) : bool := negb (is_space c) && negb (bool_decide (c = "@"%char)).

(** The groups of /^([^@\s]{1,64})@([^@\s]+\.[^@\s]+)$/ *)
Definition email_groups (l : list ascii) : option (list ascii * list ascii) :=
  match split_first_at "@"%char l with
  | Some (local, domain) =>
      if bool_decide (1 <= length local <= 64)%nat && forallb word_char local && forallb word_char domain && inner_dot domain
      then Some (local, domain) else None
  | None => None
  end.

Definition maskEmail (s : string) : string :=
  match email_groups (chars s) with
  | None => s
  | Some (local, domain) => String.string_of_list_ascii (take 3 local ++ chars "***@" ++ domain)
  end.

(** [result\[name\] = ...] on a fresh object: the name __proto__ sets the prototype and
    adds no property. *)
Definition own_property (f : string * value) : bool := negb (String.eqb f.1 "__proto__").

Definition redactHeaders (headers : list (string * value)) : list (string * value) :=
  List.filter own_property (map (fun h => (h.1, if isSensitiveHeader h.1 then VString REDACTED else h.2)) headers).

Fixpoint redactBody (v : value) : value :=
  match v with
  | VArray vs => VArray (map redactBody vs)
  | VObject fs =>
      VObject (List.filter own_property (map (fun f => (f.1, if isSensitiveKey f.1 then VString REDACTED else redactBody f.2)) fs))
  | VString s => VString (maskEmail s)
  | _ => v
  end.

Definition buildAuditMetadata (method url : string) (headers : list (string * value)) (body : value) (query : list (string * value))
    (statusCode : number) (requestId : option string) : value :=
  VObject [("method"%string, VString method); ("path"%string, VString url); ("statusCode"%string, VNumber statusCode);
           ("requestId"%string, match requestId with Some r => VString r | None => VNull end);
           ("headers"%string, VObject (redactHeaders headers));
           ("body"%string, match body with VUndefined | VNull => VNull | _ => redactBody body end);
           ("query"%string, match query with [] => VNull | _ => redactBody (VObject query) end)].

(** ** What is accepted *)

(** A value within every bound, with [d] levels of nesting left. *)
Inductive bounded : nat -> value -> Prop :=
| bounded_null d : bounded d VNull
| bounded_bool d b : bounded d (VBool b)
| bounded_string d s : text_length s <= MAX_METADATA_STRING_LENGTH -> bounded d (VString s)
| bounded_number d u : Z.abs u <= MAX_METADATA_NUMBER * num_scale -> bounded d (VNumber (Fin u))
| bounded_array d vs : (length vs <= MAX_METADATA_ARRAY_ITEMS)%nat -> Forall (bounded d) vs -> bounded (S d) (VArray vs)
| bounded_object d fs : (length fs <= MAX_METADATA_ENTRIES)%nat ->
    Forall (fun f => f.1 ∉ FORBIDDEN_METADATA_KEYS /\ (String.length f.1 <= MAX_METADATA_KEY_LENGTH)%nat /\ bounded d f.2) fs ->
    bounded (S d) (VObject fs).

Lemma items_nil (f : nat -> value -> list MetadataIssue) i vs : (i + length vs <= MAX_METADATA_ARRAY_ITEMS)%nat ->
  (fix items (i : nat) (l : list value) : list MetadataIssue :=
     match l with
     | [] => []
     | x :: l' => (if bool_decide (i < MAX_METADATA_ARRAY_ITEMS)%nat then f i x else []) ++ items (S i) l'
     end) i vs = [] <-> forall j x, vs !! j = Some x -> f (i + j)%nat x = [].
Proof.
  revert i. induction vs as [|x vs IH]; intros i Hi; [split; [intros _ j y; by rewrite lookup_nil|done]|]. simpl in Hi.
  rewrite bool_decide_eq_true_2 by lia. rewrite app_nil, IH by lia. split.
  - intros [Hx Hr] [|j] y Hy; simpl in Hy; [simplify_eq; by rewrite Nat.add_0_r|]. rewrite <- Nat.add_succ_comm. by apply Hr.
  - intros Hall. split; [specialize (Hall 0%nat x eq_refl); by rewrite Nat.add_0_r in Hall|].
    intros j y Hy. specialize (Hall (S j) y Hy). by rewrite <- Nat.add_succ_comm in Hall.
Qed.

Lemma walk_bounded v p depth : (depth <= S MAX_METADATA_DEPTH)%nat ->
  walkMetadataValue v p depth = [] <-> bounded (S MAX_METADATA_DEPTH - depth) v.
Proof.
  revert p depth. induction v as [v Ha Ho|vs IH|fs IH] using Json.value_nested_ind; intros p depth Hd.
  - destruct v as [| |b|n|s|vs|fs]; try (exfalso; first [exact (Ha _ eq_refl)|exact (Ho _ eq_refl)]).
    + split; [done|]. inversion 1.
    + split; [intros _; constructor|done].
    + split; [intros _; constructor|done].
    + simpl. destruct n as [| |u]; [split; [done|inversion 1]..|]. unfold number_issue.
      destruct (Z.ltb_spec (MAX_METADATA_NUMBER * num_scale) (Z.abs u)); (split; [|]); try done.
      * inversion 1; subst; lia.
      * intros _. by constructor.
    + simpl. destruct (Z.ltb_spec MAX_METADATA_STRING_LENGTH (text_length s)); (split; [|]); try done.
      * inversion 1; subst; lia.
      * intros _. by constructor.
  - cbn [walkMetadataValue]. case_bool_decide as Hdeep.
    { assert (depth = S MAX_METADATA_DEPTH) as -> by lia. rewrite Nat.sub_diag. split; [done|]. inversion 1. }
    rewrite app_nil. case_bool_decide as Hlen.
    { split; [by intros [? _]|]. intros H. replace (S MAX_METADATA_DEPTH - depth)%nat with (S (MAX_METADATA_DEPTH - depth)) in H by lia.
      inversion H; subst. lia. }
    rewrite (items_nil (fun i x => walkMetadataValue x (p ++ [Index i]) (S depth))) by (simpl; lia).
    replace (S MAX_METADATA_DEPTH - depth)%nat with (S (MAX_METADATA_DEPTH - depth)) by lia.
    assert (Hiff : (forall j x, vs !! j = Some x -> walkMetadataValue x (p ++ [Index (0 + j)]) (S depth) = []) <->
                   Forall (bounded (MAX_METADATA_DEPTH - depth)) vs).
    { rewrite Forall_lookup. rewrite Forall_lookup in IH. split; intros H j x Hx.
      - apply (IH j x Hx (p ++ [Index (0 + j)]) (S depth)); [lia|]. by apply H.
      - apply (IH j x Hx); [lia|]. by apply H with j. }
    rewrite Hiff. split; [intros [_ H]; constructor; [lia|done]|]. inversion 1; subst. done.
  - cbn [walkMetadataValue]. case_bool_decide as Hdeep.
    { assert (depth = S MAX_METADATA_DEPTH) as -> by lia. rewrite Nat.sub_diag. split; [done|]. inversion 1. }
    replace (S MAX_METADATA_DEPTH - depth)%nat with (S (MAX_METADATA_DEPTH - depth)) by lia.
    rewrite app_nil. case_bool_decide as Hlen.
    { split; [by intros [? _]|]. inversion 1; subst. lia. }
    transitivity (Forall (fun f => f.1 ∉ FORBIDDEN_METADATA_KEYS /\ (String.length f.1 <= MAX_METADATA_KEY_LENGTH)%nat /\
                                   bounded (MAX_METADATA_DEPTH - depth) f.2) fs).
    2:{ split; [intros H; constructor; [lia|done]|]. by inversion 1; subst. }
    clear Hlen. split; [intros [_ H]|intros H; split; [done|]]; revert H; induction IH as [|[k x] fs Hx _ IHfs]; intros H; try done; simpl in *.
    + apply app_nil in H as [H1 H2]. constructor; [|by apply IHfs]. simpl. case_bool_decide; [done|]. case_bool_decide; [done|].
      split; [done|]. split; [lia|]. apply (Hx (p ++ [Key k]) (S depth)); [lia|done].
    + apply Forall_cons in H as [(Hk & Hl & Hb) H]. simpl in *. apply app_nil. split; [|by apply IHfs].
      rewrite !bool_decide_eq_false_2 by (done || lia). apply Hx; [lia|done].
Qed.

Lemma foldr_max_le {A} (f : A -> nat) (l : list A) n : Forall (fun x => (f x <= n)%nat) l -> (foldr (fun x m => Nat.max (f x) m) 0%nat l <= n)%nat.
Proof. induction 1; simpl; lia. Qed.

Lemma bounded_depth v d : bounded d v -> (computeDepth v <= d)%nat.
Proof.
  revert d. induction v as [v Ha Ho|vs IH|fs IH] using Json.value_nested_ind; intros d H.
  - destruct v; simpl; try lia; exfalso; first [exact (Ha _ eq_refl)|exact (Ho _ eq_refl)].
  - inversion H as [| | | |d' vs' _ Hv|]; subst. simpl. apply le_n_S, foldr_max_le.
    rewrite Forall_forall in *. intros x Hx. apply IH; [done|]. by apply Hv.
  - inversion H as [| | | | |d' fs' _ Hf]; subst. simpl. apply le_n_S, (foldr_max_le (fun f => computeDepth f.2)).
    rewrite Forall_forall in *. intros x Hx. apply IH; [done|]. by apply Hf.
Qed.

(** The metadata of an audit entry is accepted exactly when it is an object that
    nests at most five levels and at every level keeps within its bounds: at most
    50 keys and 200 items, keys of at most 64 characters none of which is a
    prototype key, strings of at most 4096 characters, finite safe numbers and no
    undefined; and its JSON text has at most 16384 bytes. *)
Theorem metadata_accepted_iff number_text v :
  (validateMetadata number_text v = [] <->
     (exists fs, v = VObject fs) /\ bounded MAX_METADATA_DEPTH v /\ serialisedByteLength number_text v <= MAX_METADATA_BYTES) /\
  (validateMetadata number_text v = [] -> (computeDepth v <= MAX_METADATA_DEPTH)%nat).
Proof.
  assert (H : validateMetadata number_text v = [] <->
     (exists fs, v = VObject fs) /\ bounded MAX_METADATA_DEPTH v /\ serialisedByteLength number_text v <= MAX_METADATA_BYTES).
  { unfold validateMetadata. destruct v as [| |b|n|s|vs|fs]; try (split; [done|by intros [[? ?] _]]).
    pose proof (walk_bounded (VObject fs) [] 1 ltac:(unfold MAX_METADATA_DEPTH; lia)) as Hw.
    replace (S MAX_METADATA_DEPTH - 1)%nat with MAX_METADATA_DEPTH in Hw by lia.
    destruct (walkMetadataValue (VObject fs) [] 1) as [|i l].
    - destruct (Z.ltb_spec MAX_METADATA_BYTES (serialisedByteLength number_text (VObject fs))).
      + split; [done|]. intros (_ & _ & ?). lia.
      + split; [|done]. intros _. split; [by eexists|]. split; [by apply Hw|lia].
    - split; [done|]. intros (_ & Hb & _). by apply Hw in Hb. }
  split; [exact H|]. intros Hv. apply H in Hv as (_ & Hb & _). by apply bounded_depth.
Qed.

(** ** What redaction hides *)

(** Nothing but the marker is under a sensitive key, at any level. *)
Fixpoint clean (v : value) : Prop :=
  match v with
  | VArray vs => foldr (fun x P => clean x /\ P) True vs
  | VObject fs => foldr (fun f P => (if isSensitiveKey f.1 then f.2 = VString REDACTED else clean f.2) /\ P) True fs
  | _ => True
  end.

(** Values that differ only under sensitive keys and in the masked part of mail
    addresses. *)
Fixpoint same_public (v w : value) {struct v} : Prop :=
  match v, w with
  | VArray vs, VArray ws =>
      (fix go (l m : list value) : Prop :=
         match l, m with [], [] => True | x :: l', y :: m' => same_public x y /\ go l' m' | _, _ => False end) vs ws
  | VObject fs, VObject gs =>
      (fix go (l m : list (string * value)) : Prop :=
         match l, m with
         | [], [] => True
         | (k, x) :: l', (k', y) :: m' => k = k' /\ (isSensitiveKey k = true \/ same_public x y) /\ go l' m'
         | _, _ => False
         end) fs gs
  | VString s, VString s' => maskEmail s = maskEmail s'
  | VArray _, _ | VObject _, _ | VString _, _ => False
  | _, _ => v = w
  end.

Lemma redact_clean v : clean (redactBody v).
Proof.
  induction v as [v Ha Ho|vs IH|fs IH] using Json.value_nested_ind.
  - destruct v; simpl; try done; exfalso; first [exact (Ha _ eq_refl)|exact (Ho _ eq_refl)].
  - simpl. induction IH; simpl; [done|]. split; done.
  - simpl. induction IH as [|[k x] fs Hx _ IHfs]; simpl; [done|].
    destruct (own_property _); simpl; [split; [|done]|done]. by destruct (isSensitiveKey k).
Qed.

Lemma redact_public v w : same_public v w -> redactBody v = redactBody w.
Proof.
  revert w. induction v as [v Ha Ho|vs IH|fs IH] using Json.value_nested_ind; intros w H.
  - destruct v; simpl in H; try (exfalso; first [exact (Ha _ eq_refl)|exact (Ho _ eq_refl)]); try (by subst).
    destruct w; try done. simpl. by rewrite H.
  - destruct w as [| | | | |ws|]; try done. simpl in *. f_equal. revert ws H.
    induction IH as [|x vs Hx _ IHvs]; intros [|y ws] H; try done. destruct H as [H1 H2]. simpl. f_equal; [by apply Hx|by apply IHvs].
  - destruct w as [| | | | | |gs]; try done. simpl in *. f_equal. revert gs H.
    induction IH as [|[k x] fs Hx _ IHfs]; intros [|[k' y] gs] H; try done. destruct H as (-> & H1 & H2). simpl in *.
    replace (if isSensitiveKey k' then VString REDACTED else redactBody x) with (if isSensitiveKey k' then VString REDACTED else redactBody y).
    { by rewrite (IHfs gs H2). }
    destruct (isSensitiveKey k') eqn:Ek; [done|]. destruct H1 as [?|H1]; [congruence|]. symmetry. by apply Hx.
Qed.

(** Redaction hides what it should: in a logged body, at every level, a sensitive
    key holds nothing but the marker, and two bodies that differ only under
    sensitive keys and in the masked part of mail addresses are logged alike; a
    sensitive header never keeps its value. *)
Theorem redaction_hides v w headers name x :
  same_public v w -> (name, x) ∈ redactHeaders headers -> isSensitiveHeader name = true ->
  clean (redactBody v) /\ redactBody v = redactBody w /\ x = VString REDACTED.
Proof.
  intros Hvw Hin Hs. split; [apply redact_clean|]. split; [by apply redact_public|].
  unfold redactHeaders in Hin. apply list_elem_of_In, filter_In in Hin as [Hin _]. apply in_map_iff in Hin as ([k y] & E & _).
  simpl in E. simplify_eq. by rewrite Hs.
Qed.

Example mask_examples :
  maskEmail "alice@example.com" = "ali***@example.com"%string /\ maskEmail "ab@host.io" = "ab***@host.io"%string /\
  maskEmail "not-an-email" = "not-an-email"%string.
Proof. repeat split. Qed.

(** Masking a short address again lengthens it. *)
Example mask_not_idempotent : maskEmail (maskEmail "ab@host.io") = "ab****@host.io"%string.
Proof. reflexivity. Qed.

Lemma redaction_hides_witness :
  redactBody (VObject [("userPassword"%string, VString "a"); ("n"%string, VNull)]) =
  redactBody (VObject [("userPassword"%string, VString "b"); ("n"%string, VNull)]).
Proof.
  apply (redaction_hides (VObject [("userPassword"%string, VString "a"); ("n"%string, VNull)])
           (VObject [("userPassword"%string, VString "b"); ("n"%string, VNull)]) [("Cookie"%string, VNull)] "Cookie" (VString REDACTED)).
  - split; [reflexivity|]. split; [left; reflexivity|]. split; [reflexivity|]. split; [right; reflexivity|exact I].
  - left.
  - reflexivity.
Defined.
End AuditInput.
