(* ===== verification/AuditService.v ===== *)
(** * The audit service: src/audit/service.ts, src/audit/auditCache.ts

    The facade over an audit repository, with the read cache in front of it.  The
    repository is an interface with its laws; the in-memory store and the SQLite
    repository are instances.  A cache key is the JSON text of the query, as in
    the source; [decodeCursor] is what src/audit/types.ts makes of a cursor text
    ([None] when it throws), and metadata is its JSON text, as in AuditStore. *)

From stdpp Require Import prelude strings.
From Stdlib Require Import ZArith Lia Ascii.
From S2P Require Import Prelude JsMap JsValue JsString Regex Cursor Json JsonRoundtrip AuditStore AuditSqlite Promotion.
Open Scope Z_scope.

Module AuditService.
Import Audit.

(** ** The repository interface: src/audit/repository.ts *)

Class AuditLogRepository (R E : Type) : Type := {
  put : string -> string -> CreateAuditEntryInput -> R -> result E AuditEntry * R;
  get_entry : string -> R -> option AuditEntry;
  select : AuditQuery -> R -> list AuditEntry;
  select_page : AuditQuery -> R -> result E AuditQueryResult;
  size : R -> nat;
  check : R -> IntegrityReport;
}.

Class AuditLogLaws (R E : Type) `{AuditLogRepository R E} : Prop := {
  put_failed uuid now i r e : (put uuid now i r).1 = Err e -> (put uuid now i r).2 = r;
  put_keeps uuid now i r j e : get_entry j r = Some e -> get_entry j (put uuid now i r).2 = Some e;
  put_other uuid now i r q x : q_resourceId (flt q) = Some x -> x <> EmptyString -> in_resourceId i <> x ->
    select q (put uuid now i r).2 = select q r;
}.

(** ** Queries and their keys *)

Record Query : Type := { filter_ : filters; q_limit : option Z; q_offset : option Z; q_cursor : option string }.

Definition text_field (o : option string) : value := match o with Some s => VString s | None => VUndefined end.
Definition number_field (o : option Z) : value := match o with Some n => VNumber (of_int n) | None => VUndefined end.

Definition query_fields (q : Query) : list (string * value) :=
  let f := filter_ q in
  [("action", text_field (q_action f)); ("severity", text_field (q_severity f)); ("actor", text_field (q_actor f));
   ("resource", text_field (q_resource f)); ("resourceId", text_field (q_resourceId f)); ("from", text_field (q_from f));
   ("to", text_field (q_to f)); ("limit", number_field (q_limit q)); ("offset", number_field (q_offset q));
   ("cursor", text_field (q_cursor q))]%string.

Inductive kind : Type := OfQuery | OfCursor | OfId.

(** ** The cache: src/audit/auditCache.ts *)

Inductive cached : Type := Entries (l : list AuditEntry) | Entry (e : AuditEntry) | Page (p : AuditQueryResult).

Record CacheEntry : Type := { data : cached; expiresAt : Z; lastAccessed : Z }.

Record AuditCacheOptions : Type := { ttlMs : Z; maxEntries : Z }.

Record AuditCache : Type := { cache : list (string * CacheEntry); hitCount : Z; missCount : Z }.

Definition new_cache : AuditCache := {| cache := []; hitCount := 0; missCount := 0 |}.

Definition with_cache (m : list (string * CacheEntry)) (c : AuditCache) : AuditCache :=
  {| cache := m; hitCount := hitCount c; missCount := missCount c |}.

Section Cache.
Context (number_text : number -> list ascii) (o : AuditCacheOptions).

Definition query_text (q : Query) : list ascii := default (chars "undefined") (Json.stringify number_text (VObject (query_fields q))).

Definition generateKey (k : kind) (q : Query) (id : string) : string :=
  match k with
  | OfId => "getById:" +:+ id
  | OfQuery => "query:" +:+ of_chars (query_text q)
  | OfCursor => "queryWithCursor:" +:+ of_chars (query_text q)
  end.

Definition cache_get (now : Z) (key : string) (c : AuditCache) : option cached * AuditCache :=
  match map_get key (cache c) with
  | None => (None, {| cache := cache c; hitCount := hitCount c; missCount := missCount c + 1 |})
  | Some e =>
      if expiresAt e <? now
      then (None, {| cache := map_delete key (cache c); hitCount := hitCount c; missCount := missCount c + 1 |})
      else (Some (data e),
            {| cache := map_set key {| data := data e; expiresAt := expiresAt e; lastAccessed := now |} (cache c);
               hitCount := hitCount c + 1; missCount := missCount c |})
  end.

(** The first entry with the least [lastAccessed]. *)
Definition oldest (m : list (string * CacheEntry)) : option string :=
  fst <$> foldl (fun best e => match best with
                               | Some b => if lastAccessed e.2 <? lastAccessed b.2 then Some e else best
                               | None => Some e
                               end) None m.

Definition evictOldest (m : list (string * CacheEntry)) : list (string * CacheEntry) :=
  match oldest m with
  | Some k => if bool_decide (k = EmptyString) then m else map_delete k m
  | None => m
  end.

Definition cache_set (now : Z) (key : string) (d : cached) (c : AuditCache) : AuditCache :=
  let e := {| data := d; expiresAt := now + ttlMs o; lastAccessed := now |} in
  let m := if (maxEntries o <=? Z.of_nat (length (cache c))) && negb (map_has key (cache c)) then evictOldest (cache c) else cache c in
  with_cache (map_set key e m) c.

Definition invalidate (c : AuditCache) : AuditCache := with_cache [] c.

Definition names_resource (r key : string) : bool :=
  Promotion.includes (of_chars ([Cursor.dquote] ++ chars "resourceId" ++ [Cursor.dquote; ":"%char; Cursor.dquote] ++ chars r ++ [Cursor.dquote])) key ||
  Promotion.includes (of_chars ([Cursor.dquote] ++ chars "resourceId" ++ [Cursor.dquote; ":"%char; "'"%char] ++ chars r ++ ["'"%char])) key.

Definition invalidateByResourceId (r : string) (c : AuditCache) : AuditCache :=
  with_cache (filter (fun e => names_resource r e.1 = false) (cache c)) c.

Definition cleanupExpired (now : Z) (c : AuditCache) : Z * AuditCache :=
  let expired := filter (fun e => expiresAt e.2 < now) (cache c) in
  (Z.of_nat (length expired), with_cache (filter (fun e => ~ expiresAt e.2 < now) (cache c)) c).

(** ** The service *)

Context {R X : Type} {repo : AuditLogRepository R X}.
Context (decodeCursor : string -> option CursorData).

Record service : Type := { repository : R; cache_of : option AuditCache }.

Definition decode (q : Query) : AuditQuery :=
  {| flt := filter_ q; limit := q_limit q; offset := q_offset q;
     cur := match q_cursor q with
            | None | Some EmptyString => NoCursor
            | Some t => match decodeCursor t with Some c => GoodCursor c | None => BadCursor end
            end |}.

Definition log (uuid stamp : string) (input : CreateAuditEntryInput) (s : service) : result X AuditEntry * service :=
  match put uuid stamp input (repository s) with
  | (Ok e, r) => (Ok e, {| repository := r; cache_of := invalidateByResourceId (in_resourceId input) <$> cache_of s |})
  | (Err x, r) => (Err x, {| repository := r; cache_of := cache_of s |})
  end.

Inductive refusal : Type := MissingFields | Failed (e : X).

Definition createEntry (uuid stamp : string) (input : CreateAuditEntryInput) (s : service) : result refusal AuditEntry * service :=
  if existsb (fun t => bool_decide (t = EmptyString)) [in_action input; in_severity input; in_actor input; in_resource input; in_resourceId input]
  then (Err MissingFields, s)
  else match log uuid stamp input s with
       | (Ok e, s') => (Ok e, s')
       | (Err x, s') => (Err (Failed x), s')
       end.

(** A read answers a cached value as it is, or what the repository answers. *)
Inductive answer : Type := Found (d : cached) | Absent | Thrown (e : X).

(** The common shape of the three cached reads: what the repository has found is
    stored. *)
Definition cached_read (now : Z) (key : string) (fetch : R -> answer) (s : service) : answer * service :=
  match cache_of s with
  | None => (fetch (repository s), s)
  | Some c =>
      match cache_get now key c with
      | (Some d, c') => (Found d, {| repository := repository s; cache_of := Some c' |})
      | (None, c') =>
          let a := fetch (repository s) in
          (a, {| repository := repository s;
                 cache_of := Some match a with Found d => cache_set now key d c' | _ => c' end |})
      end
  end.

Definition no_query : Query := {| filter_ := no_filters; q_limit := None; q_offset := None; q_cursor := None |}.

(** What the repository answers to a query, a page and a lookup. *)
Definition ask_query (q : Query) (r : R) : answer := Found (Entries (select (decode q) r)).
Definition ask_page (q : Query) (r : R) : answer :=
  match select_page (decode q) r with Ok p => Found (Page p) | Err e => Thrown e end.
Definition ask_id (id : string) (r : R) : answer := match get_entry id r with Some e => Found (Entry e) | None => Absent end.

Definition query (now : Z) (q : Query) : service -> answer * service :=
  cached_read now (generateKey OfQuery q EmptyString) (ask_query q).

Definition queryWithCursor (now : Z) (q : Query) : service -> answer * service :=
  cached_read now (generateKey OfCursor q EmptyString) (ask_page q).

Definition getById (now : Z) (id : string) : service -> answer * service :=
  cached_read now (generateKey OfId no_query id) (ask_id id).

(** The wrappers that fix the resource and the severity of an event. *)
Definition event (action severity actor resource resourceId metadata : string) (ipAddress correlationId : option string) : CreateAuditEntryInput :=
  {| in_action := action; in_severity := severity; in_actor := actor; in_resource := resource; in_resourceId := resourceId;
     in_metadata := metadata; in_ipAddress := ipAddress; in_correlationId := correlationId |}.

Definition warning_if (b : bool) : string := if b then "WARNING" else "INFO".

Definition logContractEvent (uuid stamp action actor contractId metadata : string) (ip corr : option string) :=
  log uuid stamp (event action "INFO" actor "contract" contractId metadata ip corr).
Definition logMilestonesEvent (uuid stamp action actor contractId metadata : string) (ip corr : option string) :=
  log uuid stamp (event action (warning_if (bool_decide (action = "MILESTONES_DELETED"%string))) actor "milestones" contractId metadata ip corr).
Definition logPaymentEvent (uuid stamp action actor paymentId metadata : string) (ip corr : option string) :=
  log uuid stamp (event action "CRITICAL" actor "payment" paymentId metadata ip corr).
Definition logAuthEvent (uuid stamp action actor metadata : string) (ip corr : option string) :=
  log uuid stamp (event action (warning_if (bool_decide (action = "AUTH_FAILED"%string))) actor "auth" actor metadata ip corr).
Definition logUserEvent (uuid stamp action actor targetUserId metadata : string) (ip corr : option string) :=
  log uuid stamp (event action (warning_if (bool_decide (action = "USER_DELETED"%string))) actor "user" targetUserId metadata ip corr).
Definition logDisputeEvent (uuid stamp action actor disputeId metadata : string) (ip corr : option string) :=
  log uuid stamp (event action (warning_if (bool_decide (action = "DISPUTE_UPDATED"%string))) actor "dispute" disputeId metadata ip corr).

Definition count (s : service) : nat := size (repository s).
Definition verifyIntegrity (s : service) : IntegrityReport := check (repository s).
Definition checkIntegrity (s : service) : IntegrityReport * Z := let r := verifyIntegrity s in (r, if valid r then 200 else 409).

(** ** Query parameters *)

Definition VALID_ACTIONS : list string :=
  ["CONTRACT_CREATED"; "CONTRACT_UPDATED"; "CONTRACT_CANCELLED"; "CONTRACT_COMPLETED"; "PAYMENT_INITIATED"; "PAYMENT_RELEASED";
   "PAYMENT_DISPUTED"; "REPUTATION_UPDATED"; "USER_CREATED"; "USER_UPDATED"; "USER_DELETED"; "AUTH_LOGIN"; "AUTH_LOGOUT";
   "AUTH_FAILED"; "AUTH_LOCKOUT_TRIGGERED"; "AUTH_LOCKOUT_RELEASED"; "ADMIN_ACTION"; "ENDPOINT_ACCESS"; "ENDPOINT_MUTATION"]%string.

Definition VALID_SEVERITIES : list string := ["INFO"; "WARNING"; "CRITICAL"]%string.

(** The raw parameters of a request, each given at most once. *)
Record reqQuery : Type := {
  p_action : option string; p_severity : option string; p_actor : option string; p_resource : option string;
  p_resourceId : option string; p_from : option string; p_to : option string; p_limit : option string; p_offset : option string;
  p_cursor : option string;
}.

Inductive query_error : Type :=
| InvalidAction (a : string) | InvalidSeverity (s : string) | InvalidLimit | InvalidOffset | InvalidFrom | InvalidTo | InvalidCursor.

Section Parameters.
Context (date_parse : string -> option Z) (iso : Z -> string).

(** [Number.parseInt(value, 10)] when it is finite. *)
Definition parse_finite (v : string) : option Z :=
  match parse_int v with Some n => to_int (of_exact (n * num_scale)) | None => None end.

Definition parseOptionalIsoDate (v : option string) (err : query_error) : result query_error (option string) :=
  match v with
  | None => Ok None
  | Some t => match date_parse t with Some ms => Ok (Some (iso ms)) | None => Err err end
  end.

Definition parseOffset (v : option string) : result query_error Z :=
  match v with
  | None => Ok 0
  | Some t => match parse_finite t with Some n => if n <? 0 then Err InvalidOffset else Ok n | None => Err InvalidOffset end
  end.

Definition parseLimit (v : option string) (maxLimit : Z) (defaultLimit : option Z) : result query_error (option Z) :=
  match v with
  | None => Ok defaultLimit
  | Some t => match parse_finite t with Some n => if n <? 1 then Err InvalidLimit else Ok (Some (Z.min n maxLimit)) | None => Err InvalidLimit end
  end.

(** [...(x && { x })] *)
Definition truthy (v : option string) : option string := match v with Some EmptyString => None | _ => v end.

Definition unlisted (v : option string) (l : list string) : bool :=
  match truthy v with Some a => negb (bool_decide (a ∈ l)) | None => false end.

Definition bad_cursor (v : option string) : bool :=
  match truthy v with Some t => match decodeCursor t with None => true | Some _ => false end | None => false end.

Definition parseAuditQuery (p : reqQuery) (defaultLimit : option Z) (maxLimit : Z) : result query_error Query :=
  if unlisted (p_action p) VALID_ACTIONS then Err (InvalidAction (default EmptyString (p_action p)))
  else if unlisted (p_severity p) VALID_SEVERITIES then Err (InvalidSeverity (default EmptyString (p_severity p)))
  else
    match parseLimit (p_limit p) maxLimit defaultLimit, parseOffset (p_offset p),
          parseOptionalIsoDate (p_from p) InvalidFrom, parseOptionalIsoDate (p_to p) InvalidTo with
    | Err e, _, _, _ => Err e
    | _, Err e, _, _ => Err e
    | _, _, Err e, _ => Err e
    | _, _, _, Err e => Err e
    | Ok lim, Ok off, Ok from, Ok to =>
        if bad_cursor (p_cursor p) then Err InvalidCursor
        else Ok {| filter_ := {| q_action := truthy (p_action p); q_severity := truthy (p_severity p); q_actor := truthy (p_actor p);
                                 q_resource := truthy (p_resource p); q_resourceId := truthy (p_resourceId p);
                                 q_from := truthy from; q_to := truthy to |};
                   q_limit := lim; q_offset := Some off; q_cursor := truthy (p_cursor p) |}
    end.

Record listing : Type := { l_answer : answer; l_limit : option Z; l_offset : option Z }.

Definition queryLogs (now : Z) (p : reqQuery) (defaultLimit : option Z) (maxLimit : Z) (s : service) : result query_error listing * service :=
  match parseAuditQuery p defaultLimit maxLimit with
  | Err e => (Err e, s)
  | Ok q =>
      match q_cursor q with
      | Some _ => let (a, s') := queryWithCursor now q s in (Ok {| l_answer := a; l_limit := None; l_offset := None |}, s')
      | None =>
          let (a, s') := query now q s in
          (Ok {| l_answer := a; l_limit := Some (default (default 50 defaultLimit) (q_limit q)); l_offset := Some (default 0 (q_offset q)) |}, s')
      end
  end.

(** The query that reaches the repository is bounded whatever the parameters are. *)
Lemma parsed_query_bounded p defaultLimit maxLimit q :
  parseAuditQuery p defaultLimit maxLimit = Ok q -> 1 <= maxLimit ->
  (forall n, q_limit q = Some n -> defaultLimit = Some n \/ 1 <= n <= maxLimit) /\
  (exists n, q_offset q = Some n /\ 0 <= n) /\
  (forall a, q_action (filter_ q) = Some a -> a ∈ VALID_ACTIONS) /\
  (forall v, q_severity (filter_ q) = Some v -> v ∈ VALID_SEVERITIES) /\
  (forall t, q_cursor q = Some t -> exists c, decodeCursor t = Some c).
Proof.
  unfold parseAuditQuery. destruct (unlisted (p_action p) _) eqn:Ea; [done|]. destruct (unlisted (p_severity p) _) eqn:Es; [done|].
  destruct (parseLimit _ _ _) as [lim|] eqn:El; [|by intros]. destruct (parseOffset _) as [off|] eqn:Eo; [|by intros].
  destruct (parseOptionalIsoDate (p_from p) _) as [from|]; [|by intros]. destruct (parseOptionalIsoDate (p_to p) _) as [to|]; [|by intros].
  destruct (bad_cursor (p_cursor p)) eqn:Ec; [done|]. intros [= <-] Hm. simpl.
  assert (Hl : forall v (l : list string), unlisted v l = false -> forall a, truthy v = Some a -> a ∈ l).
  { intros v l Hu a Ht. unfold unlisted in Hu. rewrite Ht in Hu. apply negb_false_iff, bool_decide_eq_true in Hu. done. }
  split; [|split; [|split; [by apply Hl|split; [by apply Hl|]]]].
  - intros n ->. unfold parseLimit in El. destruct (p_limit p) as [t|]; [|left; congruence]. right.
    destruct (parse_finite t) as [m|]; [|done]. destruct (Z.ltb_spec m 1); [done|]. simplify_eq. lia.
  - unfold parseOffset in Eo. exists off. split; [done|]. destruct (p_offset p) as [t|]; [|simplify_eq; lia].
    destruct (parse_finite t) as [m|]; [|done]. destruct (Z.ltb_spec m 0); [done|]. simplify_eq. lia.
  - intros t Ht. unfold bad_cursor in Ec. rewrite Ht in Ec. destruct (decodeCursor t) as [c|]; [by exists c|done].
Qed.

End Parameters.

(** ** Keys identify queries *)

Section Keys.
Context (Hn : JsonRoundtrip.writes_numbers number_text)
        (Hi : forall m n, number_text (of_int m) = number_text (of_int n) -> m = n).

Definition object_fields (l : list (list ascii * option Cursor.json)) : list (list ascii * Cursor.json) :=
  flat_map (fun f => match f.2 with None => [] | Some j => [(f.1, j)] end) l.

Lemma object_fields_keys l k j : (k, j) ∈ object_fields l -> k ∈ l.*1.
Proof.
  intros H. apply list_elem_of_In, in_flat_map in H as ([k' o'] & Hin & Hk). apply list_elem_of_fmap. exists (k', o').
  split; [|by apply list_elem_of_In]. simpl in *. destruct o'; [|done]. destruct Hk as [Hk|[]]. congruence.
Qed.

Lemma object_fields_inj l l' : l.*1 = l'.*1 -> NoDup l.*1 -> object_fields l = object_fields l' -> l = l'.
Proof.
  revert l'. induction l as [|[k a] l IH]; intros [|[k' a'] l'] Hk Hd E; try done. simpl in Hk. injection Hk as -> Hk. change (l.*1 = l'.*1) in Hk.
  apply NoDup_cons in Hd as [Hnk Hd]. simpl in E.
  destruct a as [j|], a' as [j'|]; simpl in E.
  - simplify_eq. f_equal. by apply IH.
  - exfalso. apply Hnk. change (k' ∈ l.*1). rewrite Hk. apply object_fields_keys with j. rewrite <- E. left.
  - exfalso. apply Hnk. change (k' ∈ l.*1). apply object_fields_keys with j'. rewrite E. left.
  - f_equal. by apply IH.
Qed.

Definition read_fields (q : Query) : list (list ascii * option Cursor.json) :=
  (fun f => (chars f.1, JsonRoundtrip.to_json number_text f.2)) <$> query_fields q.

Lemma text_field_inj a b : JsonRoundtrip.to_json number_text (text_field a) = JsonRoundtrip.to_json number_text (text_field b) -> a = b.
Proof.
  destruct a as [a|], b as [b|]; simpl; try done. intros E. simplify_eq. f_equal.
  by rewrite <- (Cursor.of_chars_chars a), <- (Cursor.of_chars_chars b), E.
Qed.

Lemma number_field_inj a b : JsonRoundtrip.to_json number_text (number_field a) = JsonRoundtrip.to_json number_text (number_field b) -> a = b.
Proof. destruct a as [a|], b as [b|]; simpl; try done. intros E. simplify_eq. f_equal. by apply Hi. Qed.

Lemma object_json fs :
  JsonRoundtrip.to_json number_text (VObject fs) =
  Some (Cursor.JObj (object_fields ((fun f => (chars f.1, JsonRoundtrip.to_json number_text f.2)) <$> fs))).
Proof.
  cbn [JsonRoundtrip.to_json]. do 2 f_equal. induction fs as [|[k v] fs IH]; [done|]. rewrite fmap_cons. cbn [flat_map object_fields fst snd].
  unfold object_fields in IH. by rewrite IH.
Qed.

Lemma object_inj a b : Some (Cursor.JObj a) = Some (Cursor.JObj b) -> a = b.
Proof. congruence. Qed.

Lemma query_text_inj q q' : query_text q = query_text q' -> q = q'.
Proof.
  intros E. assert (Ht : Json.stringify number_text (VObject (query_fields q)) = Json.stringify number_text (VObject (query_fields q'))).
  { unfold query_text in E. cbn [Json.stringify default] in *. f_equal. exact E. }
  apply (JsonRoundtrip.stringify_read_inj number_text Hn) in Ht.
  assert (Hf : read_fields q = read_fields q').
  { apply object_fields_inj; [done| |].
    - assert (Hd : bool_decide (NoDup (read_fields q).*1) = true) by reflexivity. by apply bool_decide_eq_true in Hd.
    - rewrite !object_json in Ht. by apply object_inj in Ht. }
  unfold read_fields, query_fields in Hf. cbn [fmap list_fmap fst snd] in Hf.
  destruct q as [[] l o' c], q' as [[] l' o'' c']; cbn [filter_ q_limit q_offset q_cursor q_action q_severity q_actor q_resource q_resourceId q_from q_to] in *.
  injection Hf. intros. f_equal; [f_equal|..]; first [by apply text_field_inj|by apply number_field_inj].
Qed.

Lemma key_inj q q' : generateKey OfQuery q EmptyString = generateKey OfQuery q' EmptyString -> q = q'.
Proof.
  cbn [generateKey]. intros E. apply (inj (String.append _)), (f_equal chars) in E. rewrite !Cursor.chars_of_chars in E.
  by apply query_text_inj.
Qed.

Lemma cursor_key_inj q q' : generateKey OfCursor q EmptyString = generateKey OfCursor q' EmptyString -> q = q'.
Proof.
  cbn [generateKey]. intros E. apply (inj (String.append _)), (f_equal chars) in E. rewrite !Cursor.chars_of_chars in E.
  by apply query_text_inj.
Qed.

End Keys.

(** ** Invalidation finds the queries on a resource *)

Lemma prefix_app p b : String.prefix (of_chars p) (of_chars (p ++ b)) = true.
Proof. induction p as [|c p IH]; [by destruct b|]. simpl. by destruct (Ascii.ascii_dec c c). Qed.

Lemma includes_app a p b : Promotion.includes (of_chars p) (of_chars (a ++ p ++ b)) = true.
Proof.
  induction a as [|c a IH]; [|simpl; by rewrite IH, orb_true_r].
  pose proof (prefix_app p b) as Hp. simpl app. destruct (of_chars (p ++ b)); simpl in *; by rewrite Hp.
Qed.

Lemma join_elem sep part parts : part ∈ parts -> exists a b, Json.join sep parts = a ++ part ++ b.
Proof.
  induction parts as [|p parts IH]; [by intros ?%not_elem_of_nil|]. intros [->|Hin]%elem_of_cons.
  - destruct parts as [|p' parts]; [exists [], []; by rewrite app_nil_r|]. by exists [], (sep :: Json.join sep (p' :: parts)).
  - destruct parts as [|p' parts]; [by apply not_elem_of_nil in Hin|]. destruct (IH Hin) as (a & b & E).
    exists (p ++ sep :: a), b. change (Json.join sep (p :: p' :: parts)) with (p ++ sep :: Json.join sep (p' :: parts)). rewrite E.
    by rewrite <- app_assoc.
Qed.

Lemma plain_quote x : Cursor.plain x = true -> Json.quote x = [Cursor.dquote] ++ chars x ++ [Cursor.dquote].
Proof.
  unfold Cursor.plain, Json.quote, Cursor.print_string. intros Hp. simpl. f_equal. f_equal.
  induction (chars x) as [|c l IH]; [done|]. simpl in Hp. apply andb_true_iff in Hp as [Hc Hl]. simpl. rewrite (IH Hl).
  assert (Cursor.escape_char c = [c]) as ->; [|done]. revert Hc. destruct c as [[] [] [] [] [] [] [] []]; vm_compute; congruence.
Qed.

(** A query on one resource whose id needs no escape in JSON. *)
Definition on_resource (x : string) (q : Query) : Prop :=
  q_resourceId (filter_ q) = Some x /\ x <> EmptyString /\ Cursor.plain x = true.

Lemma key_names_resource x q : on_resource x q -> names_resource x (generateKey OfQuery q EmptyString) = true.
Proof.
  intros (Hx & _ & Hp). unfold names_resource. apply orb_true_iff. left. cbn [generateKey].
  set (part := [Cursor.dquote] ++ chars "resourceId" ++ [Cursor.dquote; ":"%char; Cursor.dquote] ++ chars x ++ [Cursor.dquote]).
  assert (Hpart : exists a b, query_text q = a ++ part ++ b).
  { unfold query_text. cbn [Json.stringify default]. edestruct (join_elem ","%char part) as (a & b & E).
    2:{ exists ("{"%char :: a), (b ++ ["}"%char]). rewrite E. by rewrite <- app_comm_cons, <- !app_assoc. }
    apply list_elem_of_In, in_flat_map. exists ("resourceId"%string, text_field (q_resourceId (filter_ q))). split.
    - unfold query_fields. do 4 right. by left.
    - rewrite Hx. cbn [text_field fst snd Json.stringify]. left. rewrite (plain_quote x Hp). reflexivity. }
  destruct Hpart as (a & b & ->). 
  replace ("query:" +:+ of_chars (a ++ part ++ b)) with (of_chars ((chars "query:" ++ a) ++ part ++ b)).
  - apply includes_app.
  - rewrite <- app_assoc. reflexivity.
Qed.

(** ** Runs of the service *)

Inductive request : Type :=
| Log (uuid stamp : string) (input : CreateAuditEntryInput) | Ask (q : Query) | AskPage (q : Query) | AskId (id : string)
| Cleanup | Clear.

Definition on_cache (f : AuditCache -> AuditCache) (s : service) : service := {| repository := repository s; cache_of := f <$> cache_of s |}.

Definition exec (now : Z) (r : request) (s : service) : option answer * service :=
  match r with
  | Log uuid stamp input => (None, (log uuid stamp input s).2)
  | Ask q => let (a, s') := query now q s in (Some a, s')
  | AskPage q => let (a, s') := queryWithCursor now q s in (Some a, s')
  | AskId id => let (a, s') := getById now id s in (Some a, s')
  | Cleanup => (None, on_cache (fun c => (cleanupExpired now c).2) s)
  | Clear => (None, on_cache invalidate s)
  end.

(** What a read may answer at time [now], when the repository was [r'] at the
    times of the history: what it said at most [ttlMs] ago; the entries of one
    resource, and an entry by its id, are up to date. *)
Definition recent (now : Z) (ask : R -> answer) (a : answer) (history : list (Z * R)) : Prop :=
  exists t r, (t, r) ∈ history /\ now <= t + ttlMs o /\ a = ask r.

Definition allowed (now : Z) (req : request) (r : R) (a : option answer) (history : list (Z * R)) : Prop :=
  match req, a with
  | Ask q, Some a => recent now (ask_query q) a history /\ forall x, on_resource x q -> a = ask_query q r
  | AskPage q, Some a => recent now (ask_page q) a history
  | AskId id, Some a => a = ask_id id r
  | _, _ => a = None
  end.

Fixpoint run_allowed (history : list (Z * R)) (reqs : list (Z * request)) (s : service) : Prop :=
  match reqs with
  | [] => True
  | (now, req) :: reqs' =>
      let h := (now, repository s) :: history in
      allowed now req (repository s) (exec now req s).1 h /\ run_allowed h reqs' (exec now req s).2
  end.

(** Where a cached value comes from. *)
Definition entry_ok (history : list (Z * R)) (r : R) (k : string) (e : CacheEntry) : Prop :=
  exists t r', (t, r') ∈ history /\ expiresAt e = t + ttlMs o /\
    ((exists q, k = generateKey OfQuery q EmptyString /\ Found (data e) = ask_query q r' /\
                forall x, on_resource x q -> Found (data e) = ask_query q r) \/
     (exists q, k = generateKey OfCursor q EmptyString /\ Found (data e) = ask_page q r') \/
     (exists id, k = generateKey OfId no_query id /\ Found (data e) = ask_id id r)).

Definition cache_ok (history : list (Z * R)) (s : service) : Prop :=
  forall c k e, cache_of s = Some c -> (k, e) ∈ cache c -> entry_ok history (repository s) k e.

Lemma entry_ok_same history r k e e' : data e' = data e -> expiresAt e' = expiresAt e -> entry_ok history r k e -> entry_ok history r k e'.
Proof. intros Hd He. unfold entry_ok. by rewrite Hd, He. Qed.

Lemma entry_ok_later h history r k e : entry_ok history r k e -> entry_ok (h :: history) r k e.
Proof. intros (t & r' & Hin & H). exists t, r'. split; [by right|done]. Qed.

Lemma map_set_elem (k : string) (v : CacheEntry) m k' v' : (k', v') ∈ map_set k v m -> (k' = k /\ v' = v) \/ (k', v') ∈ m.
Proof.
  induction m as [|[k0 v0] m IH]; simpl; [intros ?%list_elem_of_singleton; simplify_eq; by left|].
  rewrite elem_of_cons. case_decide; rewrite elem_of_cons; naive_solver.
Qed.

Lemma cache_get_elem now key c k e : (k, e) ∈ cache (cache_get now key c).2 ->
  exists e0, (k, e0) ∈ cache c /\ data e = data e0 /\ expiresAt e = expiresAt e0.
Proof.
  unfold cache_get. destruct (map_get key (cache c)) as [e0|] eqn:Eg; simpl; [|intros; by exists e].
  destruct (Z.ltb_spec (expiresAt e0) now); simpl.
  - intros [_ ?]%list_elem_of_filter. by exists e.
  - intros [[-> ->]|?]%map_set_elem; [|by exists e]. exists e0. split; [by apply map_get_elem_of|done].
Qed.

Lemma audit_cache_hit now key c d : (cache_get now key c).1 = Some d ->
  exists e, (key, e) ∈ cache c /\ d = data e /\ now <= expiresAt e.
Proof.
  unfold cache_get. destruct (map_get key (cache c)) as [e0|] eqn:Eg; simpl; [|done].
  destruct (Z.ltb_spec (expiresAt e0) now); simpl; [done|]. intros [= <-]. exists e0. split; [by apply map_get_elem_of|done].
Qed.

Lemma cache_set_elem now key d c k e : (k, e) ∈ cache (cache_set now key d c) ->
  (k = key /\ data e = d /\ expiresAt e = now + ttlMs o) \/ (k, e) ∈ cache c.
Proof.
  unfold cache_set. simpl. intros [[-> ->]|Hin]%map_set_elem; [by left|]. right. revert Hin.
  destruct (_ && _); [|done]. unfold evictOldest. destruct (oldest (cache c)); [|done]. case_bool_decide; [done|].
  by intros [_ ?]%list_elem_of_filter.
Qed.

(** A read keeps the cache sound and answers a sound entry or the repository. *)
Lemma cached_read_ok now key fetch history s :
  cache_ok history s ->
  (forall d, fetch (repository s) = Found d ->
     entry_ok ((now, repository s) :: history) (repository s) key {| data := d; expiresAt := now + ttlMs o; lastAccessed := now |}) ->
  let (a, s') := cached_read now key fetch s in
  repository s' = repository s /\ cache_ok ((now, repository s) :: history) s' /\
  (a = fetch (repository s) \/ exists e, a = Found (data e) /\ now <= expiresAt e /\ entry_ok history (repository s) key e).
Proof.
  intros Hok Hnew. unfold cached_read. destruct (cache_of s) as [c|] eqn:Ec.
  2:{ split; [done|]. split; [|by left]. intros c k e Hc. congruence. }
  pose proof (cache_get_elem now key c) as Hel. pose proof (audit_cache_hit now key c) as Hhit.
  assert (Hget : forall k e, (k, e) ∈ cache (cache_get now key c).2 -> entry_ok ((now, repository s) :: history) (repository s) k e).
  { intros k e (e0 & Hin & Hd & He)%Hel. apply entry_ok_later, (entry_ok_same _ _ _ e0); [done..|]. by apply (Hok c). }
  destruct (cache_get now key c) as [[d|] c']; simpl in *.
  - split; [done|]. split; [intros c0 k e [= <-] Hin; by apply Hget|]. right.
    destruct (Hhit d eq_refl) as (e & Hin & -> & Hle). exists e. split; [done|]. split; [done|]. by apply (Hok c).
  - split; [done|]. split; [|by left]. intros c0 k e [= <-] Hin. simpl.
    destruct (fetch (repository s)) as [d| |x]; [|by apply Hget..].
    apply cache_set_elem in Hin as [(-> & Hd & He)|Hin]; [|by apply Hget].
    eapply entry_ok_same; [| |by apply Hnew]; [by rewrite Hd|by rewrite He].
Qed.

Section Fresh.
Context (Hn : JsonRoundtrip.writes_numbers number_text)
        (Hi : forall m n, number_text (of_int m) = number_text (of_int n) -> m = n)
        (laws : AuditLogLaws R X) (Httl : 0 <= ttlMs o).

Lemma query_key_ok history r q e : entry_ok history r (generateKey OfQuery q EmptyString) e ->
  exists t r', (t, r') ∈ history /\ expiresAt e = t + ttlMs o /\ Found (data e) = ask_query q r' /\
    forall x, on_resource x q -> Found (data e) = ask_query q r.
Proof.
  intros (t & r' & Hin & He & [(q' & Hk & H1 & H2)|[(q' & Hk & _)|(id & Hk & _)]]); [|discriminate Hk..].
  apply (key_inj Hn Hi) in Hk as <-. by exists t, r'.
Qed.

Lemma page_key_ok history r q e : entry_ok history r (generateKey OfCursor q EmptyString) e ->
  exists t r', (t, r') ∈ history /\ expiresAt e = t + ttlMs o /\ Found (data e) = ask_page q r'.
Proof.
  intros (t & r' & Hin & He & [(q' & Hk & _)|[(q' & Hk & H1)|(id & Hk & _)]]); [discriminate Hk| |discriminate Hk].
  apply (cursor_key_inj Hn Hi) in Hk as <-. by exists t, r'.
Qed.

Lemma id_key_ok history r id e : entry_ok history r (generateKey OfId no_query id) e -> Found (data e) = ask_id id r.
Proof.
  intros (t & r' & Hin & He & [(q' & Hk & _)|[(q' & Hk & _)|(i & Hk & H1)]]); [discriminate Hk..|].
  cbn [generateKey] in Hk. by apply (inj (String.append _)) in Hk as <-.
Qed.

Lemma log_ok now uuid stamp input history s :
  cache_ok history s -> cache_ok ((now, repository s) :: history) (log uuid stamp input s).2.
Proof.
  intros Hok. unfold log. destruct (put uuid stamp input (repository s)) as [[e|x] r] eqn:Ep; intros c k en Hc Hin; simpl in *.
  - destruct (cache_of s) as [c0|] eqn:Ec; [|done]. simpl in Hc. simplify_eq. apply list_elem_of_filter in Hin as [Hf Hin]. simpl in Hf, Hin.
    destruct (Hok c0 k en Ec Hin) as (t & r' & Ht & He & Hd). exists t, r'. split; [by right|]. split; [done|].
    assert (Hr : r = (put uuid stamp input (repository s)).2) by (by rewrite Ep).
    destruct Hd as [(q & -> & H1 & H2)|[?|(i & -> & H1)]]; [left|right; by left|right; right].
    + exists q. split; [done|]. split; [done|]. intros x Hx. rewrite (H2 x Hx). unfold ask_query. do 2 f_equal. symmetry. rewrite Hr.
      destruct (Hx) as (Hq & Hne & _). apply put_other with x; [done..|]. intros Heq. rewrite Heq in Hf.
      by rewrite key_names_resource in Hf.
    + exists i. split; [done|]. revert H1. unfold ask_id. destruct (get_entry i (repository s)) as [e0|] eqn:Eg; [|done].
      by rewrite Hr, (put_keeps uuid stamp input _ _ _ Eg).
  - assert (r = repository s) as ->.
    { pose proof (put_failed uuid stamp input (repository s) x) as Hf. rewrite Ep in Hf. by apply Hf. }
    apply entry_ok_later. by apply (Hok c).
Qed.

Lemma audit_exec_ok now req history s : cache_ok history s ->
  allowed now req (repository s) (exec now req s).1 ((now, repository s) :: history) /\
  cache_ok ((now, repository s) :: history) (exec now req s).2.
Proof.
  intros Hok. destruct req as [uuid stamp input|q|q|i| |]; cbn [exec].
  - split; [done|]. by apply log_ok.
  - pose proof (cached_read_ok now (generateKey OfQuery q EmptyString) (ask_query q) history s Hok) as H. unfold query.
    destruct (cached_read now _ _ s) as [a s']; simpl. destruct H as (_ & Hc & Ha); [|split; [|done]].
    { intros d Hd. exists now, (repository s). split; [left|]. split; [done|]. left. exists q. split; [done|]. split; [done|]. by intros. }
    destruct Ha as [->|(e & -> & Hle & He)]; [split; [|done]; exists now, (repository s); split; [left|]; split; [lia|done]|].
    apply query_key_ok in He as (t & r' & Hin & Hx & H1 & H2). split; [|done]. exists t, r'. split; [by right|]. split; [lia|done].
  - pose proof (cached_read_ok now (generateKey OfCursor q EmptyString) (ask_page q) history s Hok) as H. unfold queryWithCursor.
    destruct (cached_read now _ _ s) as [a s']; simpl. destruct H as (_ & Hc & Ha); [|split; [|done]].
    { intros d Hd. exists now, (repository s). split; [left|]. split; [done|]. right. left. by exists q. }
    destruct Ha as [->|(e & -> & Hle & He)]; [exists now, (repository s); split; [left|]; split; [lia|done]|].
    apply page_key_ok in He as (t & r' & Hin & Hx & H1). exists t, r'. split; [by right|]. split; [lia|done].
  - pose proof (cached_read_ok now (generateKey OfId no_query i) (ask_id i) history s Hok) as H. unfold getById.
    destruct (cached_read now _ _ s) as [a s']; simpl. destruct H as (_ & Hc & Ha); [|split; [|done]].
    { intros d Hd. exists now, (repository s). split; [left|]. split; [done|]. right. right. by exists i. }
    destruct Ha as [->|(e & -> & Hle & He)]; [done|]. by apply id_key_ok in He.
  - split; [done|]. intros c k e Hc Hin. simpl in *. destruct (cache_of s) as [c0|] eqn:Ec; [|done]. simpl in Hc. simplify_eq.
    apply list_elem_of_filter in Hin as [_ Hin]. apply entry_ok_later. by apply (Hok c0).
  - split; [done|]. intros c k e Hc Hin. simpl in *. destruct (cache_of s) as [c0|] eqn:Ec; [|done]. simpl in Hc. simplify_eq.
    by apply not_elem_of_nil in Hin.
Qed.

(** C33: The audit service reads through its cache safely, in every sequence of writes
    and reads: a query never answers with anything but what the repository
    answered to that very query at most one lifetime ago, a query on one resource
    (whose id JSON writes without escapes) and a lookup by id always answer the
    current state. *)
Theorem audit_reads_recent reqs r c :
  cache c = [] -> run_allowed [] reqs {| repository := r; cache_of := Some c |}.
Proof.
  intros Hc. assert (Hok : cache_ok [] {| repository := r; cache_of := Some c |}).
  { intros c0 k e [= <-] Hin. rewrite Hc in Hin. by apply not_elem_of_nil in Hin. }
  revert Hok. generalize (@nil (Z * R)), {| repository := r; cache_of := Some c |}.
  induction reqs as [|[now req] reqs IH]; intros history s Hok; [done|]. simpl. destruct (audit_exec_ok now req history s Hok) as [H1 H2].
  split; [done|]. by apply IH.
Qed.

End Fresh.
End Cache.

(** ** The two repositories *)

Section Instances.
Context (digest : content -> string) (checkTime : string) (reparse : string -> string).

#[local] Instance store_repository : AuditLogRepository store error := {|
  put := append digest;
  get_entry := Audit.getById;
  select := Audit.query;
  select_page q s := Ok (Audit.queryWithCursor q s);
  size := count_all;
  check := Audit.verifyIntegrity digest checkTime;
|}.

#[local] Instance sqlite_repository : AuditLogRepository AuditSqlite.database AuditSqlite.repo_error := {|
  put := AuditSqlite.repo_append digest;
  get_entry := AuditSqlite.repo_getById reparse;
  select := AuditSqlite.repo_query reparse;
  select_page := AuditSqlite.repo_queryWithCursor reparse;
  size := AuditSqlite.repo_count;
  check := AuditSqlite.repo_verifyIntegrity digest checkTime reparse;
|}.

Lemma other_resource f x e : q_resourceId f = Some x -> x <> EmptyString -> resourceId e <> x -> matches f e = false.
Proof.
  intros Hf Hx He. unfold matches, mismatch at 5. rewrite Hf, !bool_decide_eq_false_2 by done. simpl. by rewrite !andb_false_r.
Qed.

Lemma head_filter_app {A} (P : A -> Prop) `{!forall x, Decision (P x)} (l l' : list A) x :
  head (filter P l) = Some x -> head (filter P (l ++ l')) = Some x.
Proof. rewrite filter_app. by destruct (filter P l). Qed.

#[local] Instance store_laws : AuditLogLaws store error.
Proof.
  constructor; simpl; unfold append.
  - intros uuid now i r e. by destruct (appendGuard r).
  - intros uuid now i r j e. destruct (appendGuard r); [done|]. unfold Audit.getById. simpl. apply head_filter_app.
  - intros uuid now i r q x Hq Hx Hi. destruct (appendGuard r); [done|]. unfold Audit.query, filtered. simpl.
    rewrite filter_app, filter_cons_False, filter_nil, app_nil_r; [done|]. by rewrite (other_resource _ x).
Qed.

#[local] Instance sqlite_laws : AuditLogLaws AuditSqlite.database AuditSqlite.repo_error.
Proof.
  constructor; simpl; unfold AuditSqlite.repo_append; cbv zeta.
  - intros uuid now i r e. by case_bool_decide.
  - intros uuid now i r j e. case_bool_decide; [done|]. unfold AuditSqlite.repo_getById. simpl. intros (x & E & Hx)%fmap_Some.
    rewrite (head_filter_app _ _ _ x E). by subst.
  - intros uuid now i r q x Hq Hx Hi. case_bool_decide; [done|]. unfold AuditSqlite.repo_query. simpl.
    rewrite filter_app, filter_cons_False, filter_nil, app_nil_r; [done|]. unfold AuditSqlite.where_. simpl. by rewrite (other_resource _ x).
Qed.
End Instances.

(** ** Concrete runs *)

Definition sample_digest (c : content) : string := "h".
#[local] Existing Instance store_repository.
#[local] Existing Instance store_laws.

Definition options : AuditCacheOptions := {| ttlMs := 60000; maxEntries := 100 |}.
Definition no_cursor (_ : string) : option CursorData := None.
Definition start : service := {| repository := {| Audit.log := []; appendGuard := false |}; cache_of := Some new_cache |}.
Definition by_resource (x : string) : Query :=
  {| filter_ := {| q_action := None; q_severity := None; q_actor := None; q_resource := None; q_resourceId := Some x; q_from := None; q_to := None |};
     q_limit := None; q_offset := None; q_cursor := None |}.
Definition write (x : string) : request := Log x "2024-01-01T00:00:00.000Z" (event "ADMIN_ACTION" "INFO" "ann" "contract" x "{}" None None).

Definition run (reqs : list (Z * request)) : list (option (answer (X:=error))) :=
  (foldl (fun acc x => let (a, s) := exec (repo:=store_repository sample_digest "t") JsonRoundtrip.binary_text options no_cursor x.1 x.2 acc.2 in
                       (acc.1 ++ [a], s)) ([], start) reqs).1.

Definition lengths (l : list (option (answer (X:=error)))) : list nat :=
  omap (fun a => match a with Some (Found (Entries es)) => Some (length es) | _ => None end) l.

(** A list that is not of one resource stays as it was cached: the write removes only
    the keys that name its resource. *)
Example stale_listing : lengths (run [(0, Ask no_query); (1, write "c1"); (2, Ask no_query); (60001, Ask no_query)]) = [0; 0; 1]%nat.
Proof. vm_compute. reflexivity. Qed.

(** A resource id with a quote is escaped in the key and its lists stay stale too. *)
Definition quoted : string := of_chars ["a"%char; Cursor.dquote; "b"%char].
Example stale_quoted_resource : lengths (run [(0, Ask (by_resource quoted)); (1, write quoted); (2, Ask (by_resource quoted))]) = [0; 0]%nat.
Proof. vm_compute. reflexivity. Qed.

(** The query parameters refuse two actions that entries can have. *)
Example deployment_action_refused p :
  p_action p = Some "DEPLOYMENT_PROMOTED"%string ->
  parseAuditQuery no_cursor (fun _ => None) (fun _ => EmptyString) p None 100 = Err (InvalidAction "DEPLOYMENT_PROMOTED").
Proof. intros H. unfold parseAuditQuery, unlisted. rewrite H. reflexivity. Qed.

Lemma audit_reads_recent_witness :
  run_allowed (repo:=store_repository sample_digest "t") JsonRoundtrip.binary_text options no_cursor []
    [(0, Ask (by_resource "c1")); (1, write "c1"); (2, Ask (by_resource "c1")); (3, AskId "c1"); (4, Ask no_query)] start.
Proof.
  apply (audit_reads_recent JsonRoundtrip.binary_text options no_cursor JsonRoundtrip.binary_writes JsonRoundtrip.binary_text_inj
           (store_laws sample_digest "t")); [discriminate|reflexivity].
Defined.

End AuditService.
