(* ===== verification/AuditExport.v ===== *)
(** * Audit exports: src/audit/exportService.ts, and the export of src/audit/service.ts

    The NDJSON and CSV texts an export writes, the temporary directories it leaves,
    and the audit entry that records it.  [metadata_of] is the object whose JSON
    text an entry carries.  Reading a CSV text (RFC 4180) and splitting an NDJSON
    text are specifications: the program only writes them. *)

From stdpp Require Import prelude strings.
From Stdlib Require Import ZArith Lia Ascii.
From S2P Require Import Prelude JsMap JsValue JsString Regex Cursor Json JsonRoundtrip AuditStore AuditInput AuditService.
Open Scope Z_scope.

Module AuditExport.
Import Audit.

Definition LF : ascii := ascii_of_nat 10.
Definition CR : ascii := ascii_of_nat 13.
Definition TAB : ascii := ascii_of_nat 9.

Section Text.
Context (number_text : number -> list ascii) (metadata_of : string -> value).

Definition optional (o : option string) : value := match o with Some s => VString s | None => VUndefined end.

(** The entry as the object it is. *)
Definition entry_value (e : AuditEntry) : value :=
  VObject [("id", VString (id e)); ("timestamp", VString (timestamp e)); ("action", VString (action e)); ("severity", VString (severity e));
           ("actor", VString (actor e)); ("resource", VString (resource e)); ("resourceId", VString (resourceId e));
           ("metadata", metadata_of (metadata e)); ("ipAddress", optional (ipAddress e)); ("correlationId", optional (correlationId e));
           ("previousHash", VString (previousHash e)); ("hash", VString (hash e))]%string.

Definition redacted (e : AuditEntry) : value := AuditInput.redactBody (entry_value e).

(** ** NDJSON *)

Definition ndjson_line (e : AuditEntry) : list ascii := default (chars "undefined") (Json.stringify number_text (redacted e)) ++ [LF].

Definition ndjson (es : list AuditEntry) : list ascii := flat_map ndjson_line es.

(** ** CSV *)

Definition CSV_HEADERS : list string :=
  ["id"; "timestamp"; "action"; "severity"; "actor"; "resource"; "resourceId"; "ipAddress"; "correlationId"; "metadata"]%string.

(** The class [=+\-@\t\r] *)
Definition formula_char (c : ascii) : bool := one_of "=+-@" c || bool_decide (c = TAB) || bool_decide (c = CR).

Definition neutraliseCsvInjection (s : list ascii) : list ascii :=
  match s with
  | [] => s
  | c :: _ => if formula_char c then "'"%char :: s else s
  end.

(** [String(value)] of a primitive, JSON of an object. *)
Definition cell_text (v : value) : list ascii :=
  match v with
  | VUndefined | VNull => []
  | VBool b => chars (if b then "true" else "false")
  | VNumber NaN => chars "NaN"
  | VNumber (Infinity neg) => chars (if neg then "-Infinity" else "Infinity")
  | VNumber (Fin u) => number_text (Fin u)
  | VString s => chars s
  | VArray _ | VObject _ => default (chars "undefined") (Json.stringify number_text v)
  end.

Definition special (c : ascii) : bool := bool_decide (c = Cursor.dquote) || bool_decide (c = ","%char) || bool_decide (c = LF) || bool_decide (c = CR).

(** [safe.replace(/QUOTE/g, two quotes)] *)
Definition double_quotes (s : list ascii) : list ascii :=
  flat_map (fun c => if bool_decide (c = Cursor.dquote) then [c; c] else [c]) s.

Definition quote_cell (safe : list ascii) : list ascii :=
  if existsb special safe then Cursor.dquote :: double_quotes safe ++ [Cursor.dquote] else safe.

Definition csvCell (v : value) : list ascii :=
  match v with
  | VUndefined | VNull => []
  | _ => quote_cell (neutraliseCsvInjection (cell_text v))
  end.

Definition toCsvRow (e : value) : list ascii := Json.join ","%char ((fun col => csvCell (prop e col)) <$> CSV_HEADERS).

Definition csv_header : list ascii := Json.join ","%char (chars <$> CSV_HEADERS).

Definition csv (es : list AuditEntry) : list ascii := csv_header ++ [LF] ++ flat_map (fun e => toCsvRow (redacted e) ++ [LF]) es.

(** ** Reading a CSV text: RFC 4180, with every row ended by a line feed *)

Inductive mode : Type := Start | Plain | Quoted | Closed.

Fixpoint read_csv (m : mode) (cell : list ascii) (row : list (list ascii)) (l : list ascii) : option (list (list (list ascii))) :=
  match l with
  | [] => match m, row with Start, [] => Some [] | _, _ => None end
  | c :: l' =>
      let end_cell := read_csv Start [] (row ++ [cell]) l' in
      let end_row := cons (row ++ [cell]) <$> read_csv Start [] [] l' in
      match m with
      | Quoted => if bool_decide (c = Cursor.dquote) then read_csv Closed cell row l' else read_csv Quoted (cell ++ [c]) row l'
      | Closed =>
          if bool_decide (c = Cursor.dquote) then read_csv Quoted (cell ++ [c]) row l'
          else if bool_decide (c = ","%char) then end_cell else if bool_decide (c = LF) then end_row else None
      | Start =>
          if bool_decide (c = Cursor.dquote) then read_csv Quoted [] row l'
          else if bool_decide (c = ","%char) then end_cell else if bool_decide (c = LF) then end_row
          else if bool_decide (c = CR) then None else read_csv Plain [c] row l'
      | Plain =>
          if bool_decide (c = Cursor.dquote) || bool_decide (c = CR) then None
          else if bool_decide (c = ","%char) then end_cell else if bool_decide (c = LF) then end_row
          else read_csv Plain (cell ++ [c]) row l'
      end
  end.

(** The text of a cell as a reader sees it. *)
Definition shown (v : value) : list ascii := match v with VUndefined | VNull => [] | _ => neutraliseCsvInjection (cell_text v) end.

Definition csv_rows (es : list AuditEntry) : list (list (list ascii)) :=
  (chars <$> CSV_HEADERS) :: ((fun e => (fun col => shown (prop (redacted e) col)) <$> CSV_HEADERS) <$> es).

(** A cell is read up to the comma or the line feed after it. *)
Lemma read_plain s cell row c l : existsb special s = false -> c = ","%char \/ c = LF ->
  read_csv Plain cell row (s ++ c :: l) =
  if bool_decide (c = ","%char) then read_csv Start [] (row ++ [cell ++ s]) l else cons (row ++ [cell ++ s]) <$> read_csv Start [] [] l.
Proof.
  revert cell. induction s as [|x s IH]; intros cell Hs Hc.
  - rewrite app_nil_r. by destruct Hc as [->| ->].
  - simpl in Hs. apply orb_false_iff in Hs as [Hx Hs]. unfold special in Hx.
    repeat (apply orb_false_iff in Hx as [Hx ?]). cbn [app read_csv]. rewrite Hx.
    repeat match goal with H : bool_decide _ = false |- _ => rewrite H; clear H end. simpl.
    rewrite IH by done. by rewrite <- app_assoc.
Qed.

Lemma read_quoted s cell row c l : c = ","%char \/ c = LF ->
  read_csv Quoted cell row (double_quotes s ++ Cursor.dquote :: c :: l) =
  if bool_decide (c = ","%char) then read_csv Start [] (row ++ [cell ++ s]) l else cons (row ++ [cell ++ s]) <$> read_csv Start [] [] l.
Proof.
  intros Hc. revert cell. induction s as [|x s IH]; intros cell.
  - rewrite app_nil_r. by destruct Hc as [->| ->].
  - cbn [double_quotes flat_map]. destruct (decide (x = Cursor.dquote)) as [->|Hx].
    + rewrite (bool_decide_eq_true_2 (Cursor.dquote = Cursor.dquote)) by done. cbn [app read_csv]. rewrite !bool_decide_eq_true_2 by done. fold (double_quotes s). rewrite IH. by rewrite <- app_assoc.
    + rewrite (bool_decide_eq_false_2 (x = Cursor.dquote)) by done. cbn [app read_csv].
      rewrite (bool_decide_eq_false_2 (x = Cursor.dquote)) by done. fold (double_quotes s). rewrite IH. by rewrite <- app_assoc.
Qed.

Lemma read_cell s row c l : c = ","%char \/ c = LF ->
  read_csv Start [] row (quote_cell s ++ c :: l) =
  if bool_decide (c = ","%char) then read_csv Start [] (row ++ [s]) l else cons (row ++ [s]) <$> read_csv Start [] [] l.
Proof.
  intros Hc. unfold quote_cell. destruct (existsb special s) eqn:Es.
  - cbn [app read_csv]. rewrite bool_decide_eq_true_2 by done. rewrite <- app_assoc. apply (read_quoted s [] row c l Hc).
  - destruct s as [|x s]; [by destruct Hc as [->| ->]|]. simpl in Es. apply orb_false_iff in Es as [Hx Hs]. unfold special in Hx.
    repeat (apply orb_false_iff in Hx as [Hx ?]). cbn [app read_csv]. rewrite Hx.
    repeat match goal with H : bool_decide _ = false |- _ => rewrite H; clear H end. apply (read_plain s [x] row c l Hs Hc).
Qed.

Lemma read_row cells row l : cells <> [] ->
  read_csv Start [] row (Json.join ","%char (quote_cell <$> cells) ++ LF :: l) = cons (row ++ cells) <$> read_csv Start [] [] l.
Proof.
  revert row. induction cells as [|s cells IH]; [done|]. intros row _. destruct cells as [|s' cells].
  - simpl. rewrite read_cell by (by right). by rewrite bool_decide_eq_false_2.
  - change (Json.join ","%char (quote_cell <$> s :: s' :: cells)) with (quote_cell s ++ ","%char :: Json.join ","%char (quote_cell <$> s' :: cells)).
    rewrite <- app_assoc, <- app_comm_cons, read_cell by (by left). rewrite bool_decide_eq_true_2 by done.
    rewrite IH by done. by rewrite <- app_assoc.
Qed.

Lemma csvCell_shown v : csvCell v = quote_cell (shown v).
Proof. by destruct v. Qed.

Lemma read_rows es : read_csv Start [] [] (flat_map (fun e => toCsvRow (redacted e) ++ [LF]) es) =
  Some ((fun e => (fun col => shown (prop (redacted e) col)) <$> CSV_HEADERS) <$> es).
Proof.
  induction es as [|e es IH]; [done|]. cbn [flat_map]. rewrite <- app_assoc. unfold toCsvRow at 1.
  replace ((fun col => csvCell (prop (redacted e) col)) <$> CSV_HEADERS) with (quote_cell <$> ((fun col => shown (prop (redacted e) col)) <$> CSV_HEADERS)).
  - change ([LF] ++ ?x) with (LF :: x). rewrite read_row by done. by rewrite IH.
  - rewrite <- list_fmap_compose. apply list_fmap_ext. intros i col _. by rewrite csvCell_shown.
Qed.

Lemma shown_safe v c l : shown v = c :: l -> formula_char c = false.
Proof.
  assert (H : forall s, neutraliseCsvInjection s = c :: l -> formula_char c = false).
  { intros [|x s]; simpl; [done|]. destruct (formula_char x) eqn:E; intros [= <- _]; done. }
  destruct v; unfold shown; first [done|apply H].
Qed.


(** ** Reading an NDJSON text: one JSON text per line *)

Fixpoint split_lines (line : list ascii) (l : list ascii) : list (list ascii) * list ascii :=
  match l with
  | [] => ([], line)
  | c :: l' => if bool_decide (c = LF) then let (ls, r) := split_lines [] l' in (line :: ls, r) else split_lines (line ++ [c]) l'
  end.

Definition no_break (l : list ascii) : Prop := LF ∉ l.

Lemma split_line line t l : no_break t -> split_lines line (t ++ LF :: l) = let (ls, r) := split_lines [] l in ((line ++ t) :: ls, r).
Proof.
  revert line. induction t as [|c t IH]; intros line Ht.
  - by rewrite app_nil_r.
  - apply not_elem_of_cons in Ht as [Hc Ht]. cbn [app split_lines]. rewrite bool_decide_eq_false_2 by done. rewrite IH by done.
    by rewrite <- app_assoc.
Qed.

Lemma quote_no_break s : no_break (Json.quote s).
Proof.
  unfold no_break, Json.quote, Cursor.print_string. rewrite elem_of_cons, elem_of_app, list_elem_of_singleton.
  intros [H|[H|H]]; [discriminate H| |discriminate H]. apply list_elem_of_In, in_flat_map in H as (c & _ & Hc).
  revert Hc. destruct c as [[] [] [] [] [] [] [] []]; vm_compute; intros; repeat match goal with H : _ \/ _ |- _ => destruct H end; done.
Qed.

Lemma join_no_break sep parts : sep <> LF -> Forall no_break parts -> no_break (Json.join sep parts).
Proof.
  intros Hs. unfold no_break. induction 1 as [|p parts Hp Hall IH]; [apply not_elem_of_nil|]. destruct parts as [|p' parts]; [done|].
  change (Json.join sep (p :: p' :: parts)) with (p ++ sep :: Json.join sep (p' :: parts)).
  rewrite elem_of_app, elem_of_cons. intros [?|[?|?]]; [done|by apply Hs|done].
Qed.

Lemma stringify_no_break (Hn : JsonRoundtrip.writes_numbers number_text) v t : Json.stringify number_text v = Some t -> no_break t.
Proof.
  assert (Hk : forall (w : list ascii), bool_decide (LF ∈ w) = false -> no_break w).
  { intros w Hw. by apply bool_decide_eq_false in Hw. }
  revert t. induction v as [v Ha Ho|vs IH|fs IH] using Json.value_nested_ind; intros t Ht.
  - destruct v as [| |b|n|s|vs|fs]; try (exfalso; first [exact (Ha _ eq_refl)|exact (Ho _ eq_refl)]); cbn [Json.stringify] in Ht; simplify_eq.
    + by apply Hk.
    + destruct b; by apply Hk.
    + destruct (is_finite n) eqn:E; [|by apply Hk]. destruct (Hn n E) as [Hc _]. intros Hin.
      rewrite forallb_forall in Hc. specialize (Hc LF). rewrite <- list_elem_of_In in Hc. by specialize (Hc Hin).
    + apply quote_no_break.
  - cbn [Json.stringify] in Ht. apply (inj Some) in Ht as <-. unfold no_break. rewrite elem_of_cons, elem_of_app, list_elem_of_singleton.
    intros [H|[H|H]]; [discriminate H| |discriminate H]. revert H. apply join_no_break; [done|].
    rewrite Forall_fmap. eapply Forall_impl; [exact IH|]. intros x Hx. simpl. destruct (Json.stringify number_text x) as [u|] eqn:Eu; [exact (Hx u Eu)|by apply Hk].
  - cbn [Json.stringify] in Ht. apply (inj Some) in Ht as <-. unfold no_break. rewrite elem_of_cons, elem_of_app, list_elem_of_singleton.
    intros [H|[H|H]]; [discriminate H| |discriminate H]. revert H. apply join_no_break; [done|].
    apply Forall_forall. intros p Hp. apply list_elem_of_In, in_flat_map in Hp as (f & Hf & Hp). rewrite Forall_forall in IH.
    specialize (IH f ltac:(by apply list_elem_of_In)). destruct (Json.stringify number_text f.2) as [u|]; [|done]. destruct Hp as [<-|[]].
    unfold no_break. rewrite elem_of_app, elem_of_cons. intros [H|[H|H]]; [by apply quote_no_break in H|discriminate H|by apply (IH u)].
Qed.

(** The redacted entry is an object, and so is its text. *)
Lemma redacted_text e : exists t, Json.stringify number_text (redacted e) = Some t.
Proof. unfold redacted, entry_value. cbn [AuditInput.redactBody Json.stringify]. by eexists. Qed.

Lemma ndjson_lines (Hn : JsonRoundtrip.writes_numbers number_text) es :
  exists lines, split_lines [] (ndjson es) = (lines, []) /\
    Cursor.json_parse <$> lines = (fun e => JsonRoundtrip.to_json number_text (redacted e)) <$> es /\
    length lines = length es.
Proof.
  induction es as [|e es (lines & Hs & Hp & Hl)]; [by exists []|]. destruct (redacted_text e) as [t Ht].
  exists (t :: lines). change (ndjson (e :: es)) with (ndjson_line e ++ ndjson es). unfold ndjson_line. rewrite Ht. cbn [default].
  change (Datatypes.id t) with t.
  rewrite <- app_assoc. change ([LF] ++ ?x) with (LF :: x). rewrite split_line by (by eapply stringify_no_break). rewrite Hs.
  split; [done|]. split; [|simpl; by rewrite Hl]. rewrite !fmap_cons, Hp. f_equal. by apply JsonRoundtrip.parse_stringify.
Qed.

(** An NDJSON export reads back: its text is one line per exported entry, in order,
    with nothing after the last line, and JSON.parse of each line is the redacted
    entry. *)
Theorem ndjson_reads_back (Hn : JsonRoundtrip.writes_numbers number_text) es :
  exists lines, split_lines [] (ndjson es) = (lines, []) /\
    Cursor.json_parse <$> lines = (fun e => JsonRoundtrip.to_json number_text (redacted e)) <$> es /\
    length lines = length es.
Proof. by apply ndjson_lines. Qed.

End Text.

(** ** The export operations *)

Section Operations.
Context (number_text : number -> list ascii) (metadata_of : string -> value).
Context {R X : Type} {repo : AuditService.AuditLogRepository R X} (decodeCursor : string -> option CursorData).
(** [path.resolve] *)
Context (resolve : string -> string) (exportRoot : string).

Inductive format : Type := Ndjson | Csv.

Definition extension (f : format) : string := match f with Ndjson => ".ndjson" | Csv => ".csv" end.

Definition export_text (f : format) (es : list AuditEntry) : list ascii :=
  match f with Ndjson => ndjson number_text metadata_of es | Csv => csv number_text metadata_of es end.

(** [replace(/[:.]/g, '-')] *)
Definition file_stamp (iso : string) : string :=
  of_chars ((fun c => if one_of ":." c then "-"%char else c) <$> chars iso).

Record AuditExportResult : Type := { exportDir : string; fileName : string; text : list ascii; bytesWritten : nat; recordCount : nat }.

(** Which step of writing the file fails: none, making the directory, or the
    pipeline into the file. *)
Inductive io : Type := Written | NoDirectory | PipelineFailed.

Inductive failure : Type := OutsideRoot | IoError | BadQuery (e : AuditService.query_error) | LogFailed (e : X).

Definition path_join (a b : string) : string := a +:+ "/" +:+ b.

Definition rootWithSeparator : string :=
  match last (chars exportRoot) with Some "/"%char => exportRoot | _ => exportRoot +:+ "/" end.

Definition assertPathWithinRoot (target : string) : bool :=
  bool_decide (resolve target = exportRoot) || String.prefix rootWithSeparator (resolve target).

(** The temporary directories that exist. *)
Notation disk := (list string).

Definition createExport (f : format) (q : AuditService.Query) (tmp iso : string) (w : io) (r : R) (d : disk) :
    result failure AuditExportResult * disk :=
  match w with
  | NoDirectory => (Err IoError, d)
  | _ =>
      let dir := path_join exportRoot ("audit-export-" +:+ tmp) in
      let d' := d ++ [dir] in
      let name := "audit-log-" +:+ file_stamp iso +:+ extension f in
      if negb (assertPathWithinRoot dir) || negb (assertPathWithinRoot (path_join dir name)) then (Err OutsideRoot, d')
      else match w with
           | PipelineFailed => (Err IoError, d')
           | _ =>
               let es := AuditService.select (AuditService.decode decodeCursor q) r in
               let t := export_text f es in
               (Ok {| exportDir := dir; fileName := name; text := t; bytesWritten := length (Cursor.utf8_encode t); recordCount := length es |}, d')
           end
  end.

Definition cleanup (x : AuditExportResult) (d : disk) : disk := filter (fun p => p <> exportDir x) d.

(** [piped]: the file reached the destination. *)
Definition streamExport (f : format) (q : AuditService.Query) (tmp iso : string) (w : io) (piped : bool) (r : R) (d : disk) :
    result failure AuditExportResult * disk :=
  match createExport f q tmp iso w r d with
  | (Ok x, d') => if piped then (Ok x, d') else (Err IoError, cleanup x d')
  | (Err e, d') => (Err e, d')
  end.

Definition or_null (o : option string) : value := match o with Some s => VString s | None => VNull end.

Definition export_metadata (f : filters) (x : AuditExportResult) : value :=
  VObject [("operation", VString "export"); ("format", VString "ndjson");
           ("filters", VObject [("action", or_null (q_action f)); ("severity", or_null (q_severity f)); ("actor", or_null (q_actor f));
                                ("resource", or_null (q_resource f)); ("resourceId", or_null (q_resourceId f));
                                ("from", or_null (q_from f)); ("to", or_null (q_to f))]);
           ("recordCount", VNumber (of_int (Z.of_nat (recordCount x)))); ("bytesWritten", VNumber (of_int (Z.of_nat (bytesWritten x))))]%string.

Definition export_entry (actor ip corr : option string) (f : filters) (x : AuditExportResult) : CreateAuditEntryInput :=
  AuditService.event "ADMIN_ACTION" "CRITICAL" (default "anonymous"%string actor) "audit-log" "export"
    (of_chars (default (chars "undefined") (Json.stringify number_text (export_metadata f x)))) ip corr.

(** The filters of an export keep the parsed filters and limit. *)
Definition export_query (q : AuditService.Query) : AuditService.Query :=
  {| AuditService.filter_ := AuditService.filter_ q; AuditService.q_limit := AuditService.q_limit q; AuditService.q_offset := None;
     AuditService.q_cursor := None |}.

Definition exportAuditLogs (date_parse : string -> option Z) (iso : Z -> string) (p : AuditService.reqQuery) (actor ip corr : option string)
    (tmp stamp uuid : string) (w : io) (s : AuditService.service) (d : disk) :
    result failure AuditExportResult * AuditService.service * disk :=
  match AuditService.parseAuditQuery decodeCursor date_parse iso p None 50000 with
  | Err e => (Err (BadQuery e), s, d)
  | Ok q =>
      match createExport Ndjson (export_query q) tmp stamp w (AuditService.repository s) d with
      | (Err e, d') => (Err e, s, d')
      | (Ok x, d') =>
          match AuditService.log uuid stamp (export_entry actor ip corr (AuditService.filter_ q) x) s with
          | (Err e, s') => (Err (LogFailed e), s', d')
          | (Ok _, s') => (Ok x, s', d')
          end
      end
  end.

(** The router's handler: it cleans up only what was returned to it. *)
Definition export_route (date_parse : string -> option Z) (iso : Z -> string) (p : AuditService.reqQuery) (actor ip corr : option string)
    (tmp stamp uuid : string) (w : io) (piped : bool) (s : AuditService.service) (d : disk) : Z * AuditService.service * disk :=
  match exportAuditLogs date_parse iso p actor ip corr tmp stamp uuid w s d with
  | (Ok x, s', d') => (if piped then 200 else 500, s', cleanup x d')
  | (Err (BadQuery _), s', d') => (400, s', d')
  | (Err _, s', d') => (500, s', d')
  end.

(** ** What an export does *)

(** An answered export has exported what the repository selects, and is itself on
    record. *)
Lemma export_spec date_parse iso p actor ip corr tmp stamp uuid w s d x s' d' :
  exportAuditLogs date_parse iso p actor ip corr tmp stamp uuid w s d = (Ok x, s', d') ->
  exists q e, AuditService.parseAuditQuery decodeCursor date_parse iso p None 50000 = Ok q /\
    text x = ndjson number_text metadata_of (AuditService.select (AuditService.decode decodeCursor (export_query q)) (AuditService.repository s)) /\
    recordCount x = length (AuditService.select (AuditService.decode decodeCursor (export_query q)) (AuditService.repository s)) /\
    AuditService.put uuid stamp (export_entry actor ip corr (AuditService.filter_ q) x) (AuditService.repository s) =
      (Ok e, AuditService.repository s') /\
    d' = d ++ [exportDir x].
Proof.
  unfold exportAuditLogs. destruct (AuditService.parseAuditQuery _ _ _ _ _ _) as [q|] eqn:Eq; [|done].
  destruct (createExport Ndjson _ _ _ _ _ _) as [[x0|] d0] eqn:Ec; [|done].
  unfold AuditService.log. destruct (AuditService.put _ _ _ _) as [[e|] r] eqn:Ep; [|done]. intros [= -> <- ->].
  exists q, e. split; [done|]. unfold createExport in Ec. destruct w; [|done|].
  - cbv zeta in Ec. destruct (negb _ || negb _); [done|]. injection Ec as <- <-. simpl. by rewrite Ep.
  - cbv zeta in Ec. destruct (negb _ || negb _); done.
Qed.

(** An answered export accounts for itself: its file has one line per entry the
    parsed filters select, in order, each line reading back as the redacted
    entry; the record count is the number of lines; exactly one further entry, the
    administrator's action with those filters and counts, is appended to the log;
    and cleaning up after it removes its directory and no other. *)
Theorem export_accounts (Hn : JsonRoundtrip.writes_numbers number_text) date_parse iso p actor ip corr tmp stamp uuid w s d x s' d' :
  exportAuditLogs date_parse iso p actor ip corr tmp stamp uuid w s d = (Ok x, s', d') -> exportDir x ∉ d ->
  exists q e lines, AuditService.parseAuditQuery decodeCursor date_parse iso p None 50000 = Ok q /\
    split_lines [] (text x) = (lines, []) /\ length lines = recordCount x /\
    Cursor.json_parse <$> lines =
      (fun e => JsonRoundtrip.to_json number_text (redacted metadata_of e)) <$>
        AuditService.select (AuditService.decode decodeCursor (export_query q)) (AuditService.repository s) /\
    AuditService.put uuid stamp (export_entry actor ip corr (AuditService.filter_ q) x) (AuditService.repository s) =
      (Ok e, AuditService.repository s') /\
    cleanup x d' = d.
Proof.
  intros Hx Hfresh. apply export_spec in Hx as (q & e & Hq & Ht & Hr & Hp & ->).
  destruct (ndjson_lines number_text metadata_of Hn (AuditService.select (AuditService.decode decodeCursor (export_query q)) (AuditService.repository s)))
    as (lines & Hs & Hj & Hl).
  exists q, e, lines. rewrite Ht, Hr. do 5 (split; [done|]). unfold cleanup. rewrite filter_app, filter_keep_all, filter_keep_none; [by rewrite app_nil_r|..].
  - repeat constructor. by intros [].
  - apply Forall_forall. intros y Hy ->. done.
Qed.

End Operations.

(** ** Concrete exports *)

#[local] Existing Instance AuditService.store_repository.

Definition sample_root : string := "/tmp/exports".
Definition guarded (b : bool) : AuditService.service (R:=store) :=
  {| AuditService.repository := {| log := []; appendGuard := b |}; AuditService.cache_of := None |}.
Definition no_parameters : AuditService.reqQuery :=
  {| AuditService.p_action := None; AuditService.p_severity := None; AuditService.p_actor := None; AuditService.p_resource := None;
     AuditService.p_resourceId := None; AuditService.p_from := None; AuditService.p_to := None; AuditService.p_limit := None;
     AuditService.p_offset := None; AuditService.p_cursor := None |}.

Definition sample_export (b : bool) : result (failure (X:=error)) AuditExportResult * AuditService.service * list string :=
  exportAuditLogs (repo:=AuditService.store_repository AuditService.sample_digest "t") JsonRoundtrip.binary_text (fun _ => VObject [])
    AuditService.no_cursor (fun p => p) sample_root (fun _ => None) (fun _ => EmptyString) no_parameters None None None "ab" "2024" "u1"
    Written (guarded b) [].

(** When the entry that records the export cannot be written, the caller gets no
    handle and the file stays. *)
Example failed_log_leaks : exists e s, sample_export true = (Err (LogFailed e), s, ["/tmp/exports/audit-export-ab"%string]).
Proof. do 2 eexists. vm_compute. reflexivity. Qed.

(** A streamed export leaves its file behind although it was delivered. *)
Example streamed_file_left :
  exists x, streamExport (repo:=AuditService.store_repository AuditService.sample_digest "t") JsonRoundtrip.binary_text (fun _ => VObject [])
    AuditService.no_cursor (fun p => p) sample_root Csv AuditService.no_query "ab" "2024" Written true {| log := []; appendGuard := false |} [] =
  (Ok x, ["/tmp/exports/audit-export-ab"%string]).
Proof. eexists. vm_compute. reflexivity. Qed.

(** Two cells that differ can be shown alike: the mark of a defused formula is not escaped. *)
Example defused_ambiguous : neutraliseCsvInjection (chars "=1") = neutraliseCsvInjection (chars "'=1").
Proof. reflexivity. Qed.

Lemma ndjson_reads_back_witness :
  exists lines, split_lines [] (ndjson JsonRoundtrip.binary_text (fun _ => VObject []) [coded_entry; coded_entry]) = (lines, []) /\ length lines = 2%nat.
Proof.
  destruct (ndjson_reads_back JsonRoundtrip.binary_text (fun _ => VObject []) JsonRoundtrip.binary_writes [coded_entry; coded_entry]) as (l & H & _ & Hl).
  exists l. split; [exact H|exact Hl].
Defined.

Lemma export_accounts_witness : exists x s' d', sample_export false = (Ok x, s', d') /\ cleanup x d' = [].
Proof.
  destruct (sample_export false) as [[[x|e] s'] d'] eqn:E; [|vm_compute in E; discriminate].
  exists x, s', d'. split; [done|].
  destruct (export_accounts (repo:=AuditService.store_repository AuditService.sample_digest "t") JsonRoundtrip.binary_text (fun _ => VObject [])
    AuditService.no_cursor (fun p => p) sample_root JsonRoundtrip.binary_writes (fun _ => None) (fun _ => EmptyString) no_parameters None None None
    "ab" "2024" "u1" Written (guarded false) [] x s' d' E (not_elem_of_nil _)) as (q & e & lines & _ & _ & _ & _ & _ & H).
  exact H.
Defined.

End AuditExport.
