(* ===== verification/RetentionPolicies.v ===== *)
(** * Retention policies: src/retention/types.ts and src/retention/policies.ts

    A JavaScript [Date] is its time value, [None] for an invalid date.  The
    engine registers policy objects in two Maps, [policies] by id and
    [entityDefaults] by entity type; one object may be in both and some
    operations mutate it in place, so the objects live in a heap and the Maps
    hold references.  Enumerated fields of a configuration are the strings a
    caller passes; validation turns them into the enumerations.  Ids and clock
    readings are arguments. *)

From stdpp Require Import prelude strings.
From Stdlib Require Import ZArith Lia Ascii.
From S2P Require Import Prelude JsMap JsValue JsString.
Open Scope Z_scope.

Module Policies.

Inductive RetentionPeriod : Type :=
| THIRTY_DAYS | NINETY_DAYS | SIX_MONTHS | ONE_YEAR | TWO_YEARS | INDEFINITE.
Inductive DataClassification : Type := PUBLIC | INTERNAL | CONFIDENTIAL | RESTRICTED.
Inductive ArchivalStorageType : Type := LOCAL | CLOUD | COLD_STORAGE | ENCRYPTED_ARCHIVE.
Inductive DataEntityType : Type :=
| CONTRACT | USER_PROFILE | TRANSACTION | AUDIT_LOG | DOCUMENT | MESSAGE.

#[export] Instance period_eq_dec : EqDecision RetentionPeriod.
Proof. solve_decision. Defined.
#[export] Instance classification_eq_dec : EqDecision DataClassification.
Proof. solve_decision. Defined.
#[export] Instance storage_type_eq_dec : EqDecision ArchivalStorageType.
Proof. solve_decision. Defined.
#[export] Instance entity_type_eq_dec : EqDecision DataEntityType.
Proof. solve_decision. Defined.

Definition period_text (p : RetentionPeriod) : string :=
  match p with
  | THIRTY_DAYS => "30d" | NINETY_DAYS => "90d" | SIX_MONTHS => "6m"
  | ONE_YEAR => "1y" | TWO_YEARS => "2y" | INDEFINITE => "indefinite"
  end.
Definition classification_text (c : DataClassification) : string :=
  match c with
  | PUBLIC => "public" | INTERNAL => "internal" | CONFIDENTIAL => "confidential" | RESTRICTED => "restricted"
  end.
Definition storage_text (t : ArchivalStorageType) : string :=
  match t with
  | LOCAL => "local" | CLOUD => "cloud" | COLD_STORAGE => "cold_storage"
  | ENCRYPTED_ARCHIVE => "encrypted_archive"
  end.
Definition entity_text (e : DataEntityType) : string :=
  match e with
  | CONTRACT => "contract" | USER_PROFILE => "user_profile" | TRANSACTION => "transaction"
  | AUDIT_LOG => "audit_log" | DOCUMENT => "document" | MESSAGE => "message"
  end.

(** [Object.values] of the enumerations, in declaration order. *)
Definition PERIOD_ORDER : list RetentionPeriod :=
  [THIRTY_DAYS; NINETY_DAYS; SIX_MONTHS; ONE_YEAR; TWO_YEARS; INDEFINITE].
Definition classifications : list DataClassification := [PUBLIC; INTERNAL; CONFIDENTIAL; RESTRICTED].
Definition storage_types : list ArchivalStorageType := [LOCAL; CLOUD; COLD_STORAGE; ENCRYPTED_ARCHIVE].
Definition entity_types : list DataEntityType :=
  [CONTRACT; USER_PROFILE; TRANSACTION; AUDIT_LOG; DOCUMENT; MESSAGE].

(** The member an arbitrary string names: [Object.values(E).includes(s)]. *)
Definition parse {A} (text : A -> string) (members : list A) (s : string) : option A :=
  List.find (fun a => String.eqb (text a) s) members.

Definition DAY_MS : Z := 24 * 60 * 60 * 1000.
Definition MAX_SAFE_INTEGER : Z := 2 ^ 53 - 1.

Definition PERIOD_DURATIONS (p : RetentionPeriod) : Z :=
  match p with
  | THIRTY_DAYS => 30 * DAY_MS
  | NINETY_DAYS => 90 * DAY_MS
  | SIX_MONTHS => 180 * DAY_MS
  | ONE_YEAR => 365 * DAY_MS
  | TWO_YEARS => 730 * DAY_MS
  | INDEFINITE => MAX_SAFE_INTEGER
  end.

Definition LEGAL_MINIMUMS (e : DataEntityType) : RetentionPeriod :=
  match e with
  | CONTRACT | TRANSACTION => ONE_YEAR
  | AUDIT_LOG => TWO_YEARS
  | USER_PROFILE | MESSAGE => THIRTY_DAYS
  | DOCUMENT => NINETY_DAYS
  end.

Definition DEFAULT_PERIODS (e : DataEntityType) : RetentionPeriod := NINETY_DAYS.

(** [PERIOD_ORDER.indexOf] *)
Definition period_index (p : RetentionPeriod) : nat :=
  match list_find (fun q => q = p) PERIOD_ORDER with Some (i, _) => i | None => 0%nat end.

Definition resolvePeriod (entityType : DataEntityType) (overrides : list (string * string)) : RetentionPeriod :=
  let minimum := LEGAL_MINIMUMS entityType in
  match map_get (entity_text entityType) overrides ≫= parse period_text PERIOD_ORDER with
  | Some overrideValue =>
      if (period_index minimum <=? period_index overrideValue)%nat then overrideValue else minimum
  | None => DEFAULT_PERIODS entityType
  end.

(** ** Dates *)
Definition MAX_TIME : Z := 8640000000000000.
Definition new_date (ms : Z) : option Z := if Z.abs ms <=? MAX_TIME then Some ms else None.

Record RetainedData : Type := {
  id : string;
  entityType : DataEntityType;
  data : value;
  classification : DataClassification;
  createdAt : option Z;
  expiresAt : option Z;
  archivedAt : option Z;
  archivedLocation : option string;
  isArchived : bool;
  retentionPolicyId : option string;
  metadata : option (list (string * value));
}.

(** ** Policies *)

Record PolicyConfig : Type := {
  c_name : string;
  c_description : string;
  c_entityType : string;
  c_period : string;
  c_classification : string;
  c_archivalType : string;
  c_encryptArchive : bool;
  c_allowPermanentRetention : bool;
  c_isActive : bool;
}.

Record RetentionPolicy : Type := {
  p_id : string;
  p_name : string;
  p_description : string;
  p_entityType : DataEntityType;
  p_period : RetentionPeriod;
  p_classification : DataClassification;
  p_archivalType : ArchivalStorageType;
  p_encryptArchive : bool;
  p_allowPermanentRetention : bool;
  p_isActive : bool;
  p_createdAt : Z;
  p_updatedAt : Z;
}.

(** [validatePolicyConfig], returning the policy the checked fields describe. *)
Definition validatePolicyConfig (c : PolicyConfig) (i : string) (created updated : Z)
  : result string RetentionPolicy :=
  if String.eqb (trim (c_name c)) EmptyString then Err "Policy name is required and cannot be empty"%string
  else match parse entity_text entity_types (c_entityType c) with
  | None => Err "Invalid or missing entity type"%string
  | Some e =>
  match parse period_text PERIOD_ORDER (c_period c) with
  | None => Err "Invalid or missing retention period"%string
  | Some p =>
  match parse classification_text classifications (c_classification c) with
  | None => Err "Invalid or missing data classification"%string
  | Some k =>
  match parse storage_text storage_types (c_archivalType c) with
  | None => Err "Invalid or missing archival storage type"%string
  | Some t =>
      Ok {| p_id := i; p_name := c_name c; p_description := c_description c; p_entityType := e;
            p_period := p; p_classification := k; p_archivalType := t;
            p_encryptArchive := c_encryptArchive c;
            p_allowPermanentRetention := c_allowPermanentRetention c;
            p_isActive := c_isActive c; p_createdAt := created; p_updatedAt := updated |}
  end end end end.

(** ** The engine *)

Notation ref := nat (only parsing).

Record engine : Type := {
  objects : list RetentionPolicy;
  policies : list (string * ref);
  entityDefaults : list (DataEntityType * ref);
}.

Definition empty_engine : engine := {| objects := []; policies := []; entityDefaults := [] |}.

Definition deref (s : engine) (r : ref) : option RetentionPolicy := objects s !! r.

Definition getPolicy (i : string) (s : engine) : option RetentionPolicy :=
  map_get i (policies s) ≫= deref s.

Definition getDefaultPolicyForEntityType (e : DataEntityType) (s : engine) : option RetentionPolicy :=
  map_get e (entityDefaults s) ≫= deref s.

Definition all_policies (s : engine) : list RetentionPolicy :=
  omap (fun e => deref s e.2) (policies s).

Definition getActivePolicies (s : engine) : list RetentionPolicy :=
  filter (fun p => p_isActive p = true) (all_policies s).

Definition getPoliciesForEntityType (e : DataEntityType) (s : engine) : list RetentionPolicy :=
  filter (fun p => p_entityType p = e /\ p_isActive p = true) (all_policies s).

(** A new object registered in [policies]. *)
Definition register (p : RetentionPolicy) (s : engine) : engine :=
  {| objects := objects s ++ [p]; policies := map_set (p_id p) (length (objects s)) (policies s);
     entityDefaults := entityDefaults s |}.

Definition createPolicy (fresh : string) (now : Z) (c : PolicyConfig) (s : engine)
  : result string RetentionPolicy * engine :=
  match validatePolicyConfig c fresh now now with
  | Err e => (Err e, s)
  | Ok p => (Ok p, register p s)
  end.

Record PolicyUpdates : Type := {
  u_name : option string;
  u_description : option string;
  u_entityType : option string;
  u_period : option string;
  u_classification : option string;
  u_archivalType : option string;
  u_encryptArchive : option bool;
  u_allowPermanentRetention : option bool;
  u_isActive : option bool;
}.

(** [{ ...policy, ...updates }] *)
Definition spread (p : RetentionPolicy) (u : PolicyUpdates) : PolicyConfig :=
  {| c_name := default (p_name p) (u_name u);
     c_description := default (p_description p) (u_description u);
     c_entityType := default (entity_text (p_entityType p)) (u_entityType u);
     c_period := default (period_text (p_period p)) (u_period u);
     c_classification := default (classification_text (p_classification p)) (u_classification u);
     c_archivalType := default (storage_text (p_archivalType p)) (u_archivalType u);
     c_encryptArchive := default (p_encryptArchive p) (u_encryptArchive u);
     c_allowPermanentRetention := default (p_allowPermanentRetention p) (u_allowPermanentRetention u);
     c_isActive := default (p_isActive p) (u_isActive u) |}.

(** The update is a new object under the old id; the old object stays where
    else it is referenced. *)
Definition updatePolicy (now : Z) (i : string) (u : PolicyUpdates) (s : engine)
  : result string RetentionPolicy * engine :=
  match getPolicy i s with
  | None => (Err ("Policy not found: " +:+ i)%string, s)
  | Some p =>
      match validatePolicyConfig (spread p u) (p_id p) (p_createdAt p) now with
      | Err e => (Err e, s)
      | Ok p' =>
          (Ok p', {| objects := objects s ++ [p']; policies := map_set i (length (objects s)) (policies s);
                     entityDefaults := entityDefaults s |})
      end
  end.

Definition setDefaultPolicyForEntityType (e : DataEntityType) (i : string) (s : engine)
  : result string unit * engine :=
  match map_get i (policies s) with
  | None => (Err ("Policy not found: " +:+ i)%string, s)
  | Some r =>
      match deref s r with
      | None => (Err ("Policy not found: " +:+ i)%string, s)
      | Some p =>
          if bool_decide (p_entityType p = e) then
            (Ok tt, {| objects := objects s; policies := policies s;
                       entityDefaults := map_set e r (entityDefaults s) |})
          else (Err ("Policy entity type mismatch: expected " +:+ entity_text e +:+ ", got " +:+
                     entity_text (p_entityType p))%string, s)
      end
  end.

(** Mutation of an object: visible wherever it is referenced. *)
Definition mutate (r : ref) (f : RetentionPolicy -> RetentionPolicy) (s : engine) : engine :=
  {| objects := alter f r (objects s); policies := policies s; entityDefaults := entityDefaults s |}.

Definition deactivate (now : Z) (p : RetentionPolicy) : RetentionPolicy :=
  {| p_id := p_id p; p_name := p_name p; p_description := p_description p; p_entityType := p_entityType p;
     p_period := p_period p; p_classification := p_classification p; p_archivalType := p_archivalType p;
     p_encryptArchive := p_encryptArchive p; p_allowPermanentRetention := p_allowPermanentRetention p;
     p_isActive := false; p_createdAt := p_createdAt p; p_updatedAt := now |}.

Definition with_period (now : Z) (period : RetentionPeriod) (p : RetentionPolicy) : RetentionPolicy :=
  {| p_id := p_id p; p_name := p_name p; p_description := p_description p; p_entityType := p_entityType p;
     p_period := period; p_classification := p_classification p; p_archivalType := p_archivalType p;
     p_encryptArchive := p_encryptArchive p; p_allowPermanentRetention := p_allowPermanentRetention p;
     p_isActive := p_isActive p; p_createdAt := p_createdAt p; p_updatedAt := now |}.

Definition deactivatePolicy (now : Z) (i : string) (s : engine) : bool * engine :=
  match map_get i (policies s) with
  | None => (false, s)
  | Some r => (true, mutate r (deactivate now) s)
  end.

Definition deletePolicy (i : string) (s : engine) : bool * engine :=
  (map_has i (policies s),
   {| objects := objects s; policies := map_delete i (policies s); entityDefaults := entityDefaults s |}).

(** ** Overrides from the environment *)

Definition override_classification (e : DataEntityType) : DataClassification :=
  match e with AUDIT_LOG => RESTRICTED | TRANSACTION => CONFIDENTIAL | _ => INTERNAL end.

Definition override_config (e : DataEntityType) (period : RetentionPeriod) : PolicyConfig :=
  {| c_name := "Default " +:+ entity_text e +:+ " policy (env override)";
     c_description := "Auto-generated default policy for " +:+ entity_text e +:+ " from RETENTION_OVERRIDES";
     c_entityType := entity_text e; c_period := period_text period;
     c_classification := classification_text (override_classification e);
     c_archivalType := storage_text COLD_STORAGE;
     c_encryptArchive := bool_decide (override_classification e = RESTRICTED) ||
                         bool_decide (override_classification e = CONFIDENTIAL);
     c_allowPermanentRetention := false; c_isActive := true |}.

(** One entry of [overrides]; [fresh] names the policy it may create. *)
Definition apply_override (now : Z) (fresh : string) (overrides : list (string * string)) (key : string)
    (s : engine) : result string (list RetentionPolicy) * engine :=
  match parse entity_text entity_types key with
  | None => (Ok [], s)
  | Some e =>
      let resolved := resolvePeriod e overrides in
      match map_get e (entityDefaults s) with
      | Some r =>
          match deref s r with
          | Some existing =>
              if bool_decide (p_period existing = resolved) then (Ok [], s)
              else (Ok [with_period now resolved existing], mutate r (with_period now resolved) s)
          | None => (Ok [], s)
          end
      | None =>
          match createPolicy fresh now (override_config e resolved) s with
          | (Err x, s') => (Err x, s')
          | (Ok p, s') =>
              (Ok [p], {| objects := objects s'; policies := policies s';
                          entityDefaults := map_set e (length (objects s)) (entityDefaults s') |})
          end
      end
  end.

Fixpoint apply_loop (now : Z) (fresh : nat -> string) (overrides todo : list (string * string)) (n : nat)
    (s : engine) : result string (list RetentionPolicy) * engine :=
  match todo with
  | [] => (Ok [], s)
  | (key, _) :: todo' =>
      match apply_override now (fresh n) overrides key s with
      | (Err x, s1) => (Err x, s1)
      | (Ok l, s1) =>
          match apply_loop now fresh overrides todo' (S n) s1 with
          | (Err x, s2) => (Err x, s2)
          | (Ok l', s2) => (Ok (l ++ l'), s2)
          end
      end
  end.

Definition applyOverrides (now : Z) (fresh : nat -> string) (overrides : list (string * string)) (s : engine)
  : result string (list RetentionPolicy) * engine := apply_loop now fresh overrides overrides 0 s.

Fixpoint starts (w l : list ascii) : bool :=
  match w, l with
  | [], _ => true
  | a :: w', b :: l' => Ascii.eqb a b && starts w' l'
  | _, [] => false
  end.

(** [String.prototype.includes] *)
Fixpoint includes (w l : list ascii) : bool :=
  starts w l || match l with [] => false | _ :: l' => includes w l' end.

Inductive source : Type := from_override | from_default.

Definition getResolvedPolicies (s : engine) : list (DataEntityType * (RetentionPeriod * source)) :=
  map (fun e => (e, match getDefaultPolicyForEntityType e s with
                    | Some p =>
                        (p_period p,
                         if includes (String.list_ascii_of_string "(env override)")
                              (String.list_ascii_of_string (p_name p))
                         then from_override else from_default)
                    | None => (DEFAULT_PERIODS e, from_default)
                    end)) entity_types.

(** ** Expiry *)

(** [new Date(createdAt.getTime() + duration)]; the sum is exact below 2^53 and
    beyond every valid date above. *)
Definition calculateExpirationDate (d : RetainedData) (s : engine) : option Z :=
  let policy := match retentionPolicyId d with
                | None | Some EmptyString => None
                | Some i => getPolicy i s
                end in
  let effective := match policy with
                   | Some p => Some p
                   | None => getDefaultPolicyForEntityType (entityType d) s
                   end in
  let duration := match effective with
                  | Some p => PERIOD_DURATIONS (p_period p)
                  | None => PERIOD_DURATIONS (resolvePeriod (entityType d) [])
                  end in
  created ← createdAt d; new_date (created + duration).

Inductive required_action : Type :=
| DeleteArchive
| ArchiveExpired
| ExpirationApproaching.

Record RetentionStatus : Type := {
  st_dataId : string;
  st_createdAt : option Z;
  st_expiresAt : option Z;
  st_daysUntilExpiry : option Z;
  st_isArchived : bool;
  st_archivedLocation : option string;
  st_needsAction : bool;
  st_actionRequired : option required_action;
}.

(** [Math.ceil(ms / DAY_MS)]; for dates less than 2^26 days apart the double
    quotient is an integer only when the fraction is. *)
Definition ceil_days (ms : Z) : Z := - (- ms / DAY_MS).

Definition determineRetentionStatus (now : Z) (d : RetainedData) : RetentionStatus :=
  let days := (fun e => ceil_days (e - now)) <$> expiresAt d in
  let test f := match days with Some n => f n | None => false end in
  let action :=
    if isArchived d && test (fun n => n <? 0) then Some DeleteArchive
    else if negb (isArchived d) && test (fun n => n <? 0) then Some ArchiveExpired
    else if negb (isArchived d) && test (fun n => n <=? 7) then Some ExpirationApproaching
    else None in
  {| st_dataId := id d; st_createdAt := createdAt d; st_expiresAt := expiresAt d;
     st_daysUntilExpiry := days; st_isArchived := isArchived d;
     st_archivedLocation := archivedLocation d;
     st_needsAction := match action with Some _ => true | None => false end;
     st_actionRequired := action |}.

Definition shouldArchive (now : Z) (d : RetainedData) : bool :=
  if isArchived d then false
  else match expiresAt d with Some e => e <=? now | None => false end.

Definition shouldPermanentlyDelete (now postArchivalDays : Z) (d : RetainedData) : bool :=
  if negb (isArchived d) then false
  else match archivedAt d with
       | None => false
       | Some t => match new_date (t + postArchivalDays * DAY_MS) with
                   | Some deleteAt => deleteAt <=? now
                   | None => false
                   end
       end.

(** ** Well-formed engines *)

Record engine_ok (s : engine) : Prop := {
  ids_distinct : wf (policies s);
  policies_live : forall i r, map_get i (policies s) = Some r -> exists p, deref s r = Some p /\ p_id p = i;
  defaults_live : forall e r, map_get e (entityDefaults s) = Some r ->
    exists p, deref s r = Some p /\ p_entityType p = e;
  names_given : forall r p, deref s r = Some p -> trim (p_name p) <> EmptyString;
}.

Inductive op : Type :=
| OCreate (fresh : string) (now : Z) (c : PolicyConfig)
| OUpdate (now : Z) (i : string) (u : PolicyUpdates)
| OSetDefault (e : DataEntityType) (i : string)
| ODeactivate (now : Z) (i : string)
| ODelete (i : string)
| OOverrides (now : Z) (fresh : nat -> string) (overrides : list (string * string)).

Definition exec (o : op) (s : engine) : engine :=
  match o with
  | OCreate f now c => (createPolicy f now c s).2
  | OUpdate now i u => (updatePolicy now i u s).2
  | OSetDefault e i => (setDefaultPolicyForEntityType e i s).2
  | ODeactivate now i => (deactivatePolicy now i s).2
  | ODelete i => (deletePolicy i s).2
  | OOverrides now f o => (applyOverrides now f o s).2
  end.

Definition run (ops : list op) (s : engine) : engine := foldl (fun s o => exec o s) s ops.

(** ** Parsing the enumerations *)

Section Parse.
Context {A : Type} (text : A -> string) (members : list A).

Lemma parse_Some s a : parse text members s = Some a -> a ∈ members /\ text a = s.
Proof.
  intros [Hin Heq]%List.find_some. split; [by apply list_elem_of_In|by apply String.eqb_eq].
Qed.

Lemma parse_text (a : A) : Inj (=) (=) text -> a ∈ members -> parse text members (text a) = Some a.
Proof.
  intros Hinj Hin. destruct (parse text members (text a)) as [b|] eqn:E.
  - apply parse_Some in E as [_ E]. by apply (inj text) in E as ->.
  - exfalso. apply list_elem_of_In in Hin. apply (List.find_none _ _ E) in Hin. by rewrite String.eqb_refl in Hin.
Qed.
End Parse.

#[export] Instance period_text_inj : Inj (=) (=) period_text.
Proof. by intros [] []. Qed.
#[export] Instance classification_text_inj : Inj (=) (=) classification_text.
Proof. by intros [] []. Qed.
#[export] Instance storage_text_inj : Inj (=) (=) storage_text.
Proof. by intros [] []. Qed.
#[export] Instance entity_text_inj : Inj (=) (=) entity_text.
Proof. by intros [] []. Qed.

Lemma parse_period p : parse period_text PERIOD_ORDER (period_text p) = Some p.
Proof. by destruct p. Qed.
Lemma parse_entity e : parse entity_text entity_types (entity_text e) = Some e.
Proof. by destruct e. Qed.

(** The order of the list is the order of the durations. *)
Lemma period_index_duration p q :
  (period_index p <=? period_index q)%nat = (PERIOD_DURATIONS p <=? PERIOD_DURATIONS q).
Proof. by destruct p, q. Qed.

(** ** Operations keep the engine well formed *)

Lemma validate_name c i t t' p :
  validatePolicyConfig c i t t' = Ok p ->
  p_id p = i /\ trim (p_name p) <> EmptyString /\ parse entity_text entity_types (c_entityType c) = Some (p_entityType p).
Proof.
  unfold validatePolicyConfig. destruct (String.eqb_spec (trim (c_name c)) EmptyString) as [|Hn]; [done|].
  intros H. repeat case_match; simplify_eq/=. done.
Qed.

Lemma deref_app_old s p r q : deref s r = Some q -> (objects s ++ [p]) !! r = Some q.
Proof. intros H. by apply lookup_app_l_Some. Qed.

Lemma deref_app_inv s p r q :
  (objects s ++ [p]) !! r = Some q -> deref s r = Some q \/ (r = length (objects s) /\ q = p).
Proof.
  intros [H|[Hle H]]%lookup_app_Some; [by left|]. right.
  destruct (r - length (objects s))%nat eqn:E; simpl in H; [|done]. simplify_eq. split; [lia|done].
Qed.

(** A new object registered under its id, whatever the defaults are. *)
Lemma add_object_ok s p i :
  engine_ok s -> p_id p = i -> trim (p_name p) <> EmptyString ->
  engine_ok {| objects := objects s ++ [p]; policies := map_set i (length (objects s)) (policies s);
               entityDefaults := entityDefaults s |}.
Proof.
  intros [Hw Hp Hd Hn] Hi Hname. split; unfold deref; simpl.
  - by apply wf_set.
  - intros j r [[-> ->]|[Hne Hj]]%map_get_set_inv.
    + exists p. split; [|done]. by rewrite lookup_app_r, Nat.sub_diag.
    + destruct (Hp j r Hj) as (q & Hq & <-). exists q. split; [by apply deref_app_old|done].
  - intros e r He. destruct (Hd e r He) as (q & Hq & <-). exists q. split; [by apply deref_app_old|done].
  - intros r q [H|[-> ->]]%deref_app_inv; [by eapply Hn|done].
Qed.

Lemma mutate_ok r f s :
  (forall p, p_id (f p) = p_id p /\ p_name (f p) = p_name p /\ p_entityType (f p) = p_entityType p) ->
  engine_ok s -> engine_ok (mutate r f s).
Proof.
  intros Hf [Hw Hp Hd Hn].
  assert (Hlive : forall q p, deref s q = Some p -> exists p', deref (mutate r f s) q = Some p' /\
            p_id p' = p_id p /\ p_name p' = p_name p /\ p_entityType p' = p_entityType p).
  { intros q p Hq. unfold deref, mutate in *; simpl. rewrite list_lookup_alter.
    case_decide as Hrq; [rewrite Hrq, Hq; exists (f p); split; [done|apply Hf]|by exists p]. }
  split; simpl; [done| | |].
  - intros i q (p & Hq & Hi)%Hp. destruct (Hlive q p Hq) as (p' & ? & ? & _). exists p'. split; [done|congruence].
  - intros e q (p & Hq & Hi)%Hd. destruct (Hlive q p Hq) as (p' & ? & _ & _ & ?). exists p'. split; [done|congruence].
  - intros q p. unfold deref, mutate; simpl. rewrite list_lookup_alter.
    case_decide; [|apply Hn]. intros (p0 & Hp0 & ->)%fmap_Some. destruct (Hf p0) as (_ & -> & _). by eapply Hn.
Qed.

Lemma set_default_ok s e r p :
  engine_ok s -> deref s r = Some p -> p_entityType p = e ->
  engine_ok {| objects := objects s; policies := policies s; entityDefaults := map_set e r (entityDefaults s) |}.
Proof.
  intros [Hw Hp Hd Hn] Hr He. split; unfold deref in *; simpl; [done|done| |done].
  intros e' r' [[-> ->]|[_ H]]%map_get_set_inv; [by exists p|by apply Hd].
Qed.

Lemma create_ok f now c s : engine_ok s -> engine_ok (createPolicy f now c s).2.
Proof.
  intros Hs. unfold createPolicy. destruct (validatePolicyConfig c f now now) as [p|] eqn:E; [|done].
  destruct (validate_name _ _ _ _ _ E) as (Hi & Hn & _). simpl. unfold register. rewrite Hi. by apply add_object_ok.
Qed.

Lemma apply_override_ok now f o k s : engine_ok s -> engine_ok (apply_override now f o k s).2.
Proof.
  intros Hs. unfold apply_override. destruct (parse entity_text entity_types k) as [e|]; [|done].
  destruct (map_get e (entityDefaults s)) as [r|] eqn:Ed.
  - destruct (deref s r) as [p|]; [|done]. case_bool_decide; [done|]. by apply mutate_ok.
  - pose proof (create_ok f now (override_config e (resolvePeriod e o)) s Hs) as Hc. revert Hc.
    unfold createPolicy. destruct (validatePolicyConfig _ _ _ _) as [p|] eqn:E; [|done]. simpl. intros Hc.
    destruct (validate_name _ _ _ _ _ E) as (_ & _ & He).
    change (parse entity_text entity_types (entity_text e) = Some (p_entityType p)) in He. rewrite parse_entity in He.
    apply (set_default_ok (register p s) e (length (objects s)) p Hc); [|by simplify_eq].
    unfold deref, register; simpl. by rewrite lookup_app_r, Nat.sub_diag.
Qed.

Lemma apply_loop_ok now f o todo n s : engine_ok s -> engine_ok (apply_loop now f o todo n s).2.
Proof.
  revert n s. induction todo as [|[k v] todo IH]; intros n s Hs; simpl; [done|].
  pose proof (apply_override_ok now (f n) o k s Hs) as H1.
  destruct (apply_override now (f n) o k s) as [[l|x] s1]; [|done]. simpl in H1.
  specialize (IH (S n) s1 H1). by destruct (apply_loop now f o todo (S n) s1) as [[l'|x] s2].
Qed.

Lemma policies_exec_ok o s : engine_ok s -> engine_ok (exec o s).
Proof.
  intros Hs. destruct o as [f now c|now i u|e i|now i|i|now f o]; simpl.
  - by apply create_ok.
  - unfold updatePolicy. destruct (getPolicy i s) as [p|] eqn:Ep; [|done].
    destruct (validatePolicyConfig _ _ _ _) as [p'|] eqn:E; [|done]. simpl.
    destruct (validate_name _ _ _ _ _ E) as (Hi & Hn & _). apply add_object_ok; [done| |done].
    unfold getPolicy in Ep. apply bind_Some in Ep as (r & Hr & Hp).
    destruct (policies_live s Hs i r Hr) as (q & Hq & <-). congruence.
  - unfold setDefaultPolicyForEntityType. destruct (map_get i (policies s)) as [r|]; [|done].
    destruct (deref s r) as [p|] eqn:Ep; [|done]. case_bool_decide; [|done]. by eapply set_default_ok.
  - unfold deactivatePolicy. destruct (map_get i (policies s)); [|done]. by apply mutate_ok.
  - destruct Hs as [Hw Hp Hd Hn]. split; simpl; [by apply wf_delete| |done..].
    intros j r Hj. destruct (decide (i = j)) as [->|Hne]; [by rewrite map_get_delete_eq in Hj|].
    rewrite map_get_delete_ne in Hj by done. by apply Hp.
  - by apply apply_loop_ok.
Qed.

(** ** Overrides *)

Definition effective_default (e : DataEntityType) (s : engine) : RetentionPeriod :=
  match getDefaultPolicyForEntityType e s with Some p => p_period p | None => resolvePeriod e [] end.

Lemma calculate_no_policy d s c :
  retentionPolicyId d = None -> createdAt d = Some c ->
  calculateExpirationDate d s = new_date (c + PERIOD_DURATIONS (effective_default (entityType d) s)).
Proof.
  intros Hp Hc. unfold calculateExpirationDate, effective_default. rewrite Hp, Hc. simpl.
  by destruct (getDefaultPolicyForEntityType (entityType d) s).
Qed.

Lemma resolve_max e o p :
  map_get (entity_text e) o = Some (period_text p) ->
  PERIOD_DURATIONS (resolvePeriod e o) = Z.max (PERIOD_DURATIONS p) (PERIOD_DURATIONS (LEGAL_MINIMUMS e)).
Proof.
  intros H. unfold resolvePeriod. rewrite H. cbn [mbind option_bind]. rewrite parse_period, period_index_duration.
  destruct (Z.leb_spec (PERIOD_DURATIONS (LEGAL_MINIMUMS e)) (PERIOD_DURATIONS p)); lia.
Qed.

Lemma override_valid e period i t t' :
  exists p, validatePolicyConfig (override_config e period) i t t' = Ok p /\ p_period p = period /\ p_entityType p = e.
Proof. destruct e, period; eexists; (split; [reflexivity|done]). Qed.

(** One entry settles its own entity type and leaves the others alone. *)
Lemma apply_override_period now f o k s e :
  engine_ok s ->
  exists l, (apply_override now f o k s).1 = Ok l /\
  effective_default e (apply_override now f o k s).2 =
    if decide (k = entity_text e) then resolvePeriod e o else effective_default e s.
Proof.
  intros Hs. unfold apply_override.
  destruct (parse entity_text entity_types k) as [e'|] eqn:Ek; cycle 1.
  { exists []. split; [done|]. case_decide; [|done]. subst. by rewrite parse_entity in Ek. }
  apply parse_Some in Ek as [_ <-].
  destruct (map_get e' (entityDefaults s)) as [r|] eqn:Ed.
  - destruct (defaults_live s Hs e' r Ed) as (p & Hp & Hpe). rewrite Hp.
    case_bool_decide as Hper; (eexists; split; [reflexivity|]); simpl.
    + case_decide as Hx; [|done]. apply (inj entity_text) in Hx as <-.
      unfold effective_default, getDefaultPolicyForEntityType. rewrite Ed. simpl. by rewrite Hp.
    + unfold effective_default, getDefaultPolicyForEntityType. simpl. case_decide as Hx.
      * apply (inj entity_text) in Hx as <-. rewrite Ed. simpl. unfold deref in *; simpl.
        by rewrite list_lookup_alter_eq, Hp.
      * destruct (map_get e (entityDefaults s)) as [r'|] eqn:Ed'; [|done]. simpl. unfold deref in *; simpl.
        rewrite list_lookup_alter_ne; [done|]. intros <-.
        destruct (defaults_live s Hs e r Ed') as (p' & Hp' & Hpe'). unfold deref in Hp'.
        rewrite Hp in Hp'. by simplify_eq.
  - unfold createPolicy. destruct (override_valid e' (resolvePeriod e' o) f now now) as (p & -> & Hper & Hpe).
    eexists; split; [reflexivity|]. simpl. unfold effective_default, getDefaultPolicyForEntityType. simpl.
    case_decide as Hx.
    + apply (inj entity_text) in Hx as <-. rewrite map_get_set_eq. unfold deref; simpl.
      by rewrite lookup_app_r, Nat.sub_diag by lia.
    + rewrite map_get_set_ne by (intros <-; done).
      destruct (map_get e (entityDefaults s)) as [r'|] eqn:Ed'; [|done]. simpl.
      destruct (defaults_live s Hs e r' Ed') as (p' & Hp' & _). unfold deref in *; simpl.
      by rewrite (lookup_app_l_Some _ _ _ _ Hp'), Hp'.
Qed.

Lemma apply_loop_period now f o todo n s e :
  engine_ok s ->
  exists l, (apply_loop now f o todo n s).1 = Ok l /\
  effective_default e (apply_loop now f o todo n s).2 =
    if decide (entity_text e ∈ todo.*1) then resolvePeriod e o else effective_default e s.
Proof.
  revert n s. induction todo as [|[k v] todo IH]; intros n s Hs.
  { exists []. split; [done|]. rewrite decide_False by (cbn; set_solver). done. }
  cbn [apply_loop].
  pose proof (apply_override_ok now (f n) o k s Hs) as H1.
  destruct (apply_override_period now (f n) o k s e Hs) as (l1 & E1 & P1).
  destruct (apply_override now (f n) o k s) as [r1 s1]; simpl in *; subst r1.
  destruct (IH (S n) s1 H1) as (l2 & E2 & P2).
  destruct (apply_loop now f o todo (S n) s1) as [r2 s2]; simpl in *; subst r2.
  eexists; split; [reflexivity|]. cbn [snd fmap list_fmap fst]. rewrite P2, P1.
  repeat case_decide; set_solver.
Qed.

Lemma resolved_entry e o p : map_get (entity_text e) o = Some (period_text p) -> entity_text e ∈ o.*1.
Proof. intros H%map_get_elem_of. apply list_elem_of_fmap. by exists (entity_text e, period_text p). Qed.

(** ** Properties *)

(** The policy engine stays well formed under every sequence of its
    operations: ids are distinct and name the policy registered under them, a
    default policy is for the entity type it is the default of, and no policy
    has a blank name. *)
Theorem engine_invariant ops s : engine_ok s -> engine_ok (run ops s).
Proof. revert s. induction ops as [|o ops IH]; intros s Hs; [done|]. by apply IH, policies_exec_ok. Qed.

(** After the overrides of the environment are applied, data without a
    policy of its own expires after the overriding period of its entity type or
    the legal minimum, whichever is longer; applying them never fails. *)
Theorem overrides_take_effect now fresh o s e p d c :
  engine_ok s -> map_get (entity_text e) o = Some (period_text p) ->
  entityType d = e -> retentionPolicyId d = None -> createdAt d = Some c ->
  is_ok (applyOverrides now fresh o s).1 = true /\
  calculateExpirationDate d (applyOverrides now fresh o s).2 =
    new_date (c + Z.max (PERIOD_DURATIONS p) (PERIOD_DURATIONS (LEGAL_MINIMUMS e))).
Proof.
  intros Hs Ho He Hd Hc. unfold applyOverrides.
  destruct (apply_loop_period now fresh o o 0 s e Hs) as (l & -> & P). split; [done|].
  rewrite (calculate_no_policy _ _ c), He, P by done.
  rewrite decide_True by by eapply resolved_entry. by rewrite (resolve_max _ _ p).
Qed.

(** Updating a policy never reaches the data that uses it as the default
    of its entity type, because the update replaces the object in one of the
    two Maps only; data that names the policy gets the new period. *)
Theorem update_misses_default now i u s p' s' d c :
  engine_ok s -> updatePolicy now i u s = (Ok p', s') -> createdAt d = Some c ->
  (retentionPolicyId d = None -> calculateExpirationDate d s' = calculateExpirationDate d s) /\
  (retentionPolicyId d = Some i -> i <> EmptyString ->
   calculateExpirationDate d s' = new_date (c + PERIOD_DURATIONS (p_period p'))).
Proof.
  intros Hs Hu Hc. unfold updatePolicy in Hu. destruct (getPolicy i s) as [p|]; [|done].
  destruct (validatePolicyConfig _ _ _ _) as [q|] eqn:E; simplify_eq. split.
  - intros Hd. rewrite !(calculate_no_policy _ _ c) by done. do 3 f_equal.
    unfold effective_default, getDefaultPolicyForEntityType. simpl.
    destruct (map_get (entityType d) (entityDefaults s)) as [r|] eqn:Er; [|done]. simpl.
    destruct (defaults_live s Hs _ r Er) as (q & Hq & _). unfold deref in *; simpl.
    by rewrite (lookup_app_l_Some _ _ _ _ Hq), Hq.
  - intros Hd Hi. unfold calculateExpirationDate. rewrite Hd, Hc. destruct i as [|a i]; [done|].
    unfold getPolicy; simpl. rewrite map_get_set_eq. unfold deref; simpl.
    by rewrite lookup_app_r, Nat.sub_diag by lia.
Qed.

(** Contracts, transactions and audit logs that no policy covers expire
    after 90 days, before the legal minimum of their type has passed. *)
Theorem default_below_legal_minimum d s c :
  entityType d ∈ [CONTRACT; TRANSACTION; AUDIT_LOG] ->
  retentionPolicyId d = None -> map_get (entityType d) (entityDefaults s) = None -> createdAt d = Some c ->
  calculateExpirationDate d s = new_date (c + 90 * DAY_MS) /\
  c + 90 * DAY_MS < c + PERIOD_DURATIONS (LEGAL_MINIMUMS (entityType d)).
Proof.
  intros He Hd Hn Hc. split.
  - rewrite (calculate_no_policy _ _ c) by done. unfold effective_default, getDefaultPolicyForEntityType.
    by rewrite Hn.
  - rewrite !elem_of_cons, elem_of_nil in He. destruct He as [-> |[-> |[-> |[]]]]; simpl; unfold DAY_MS; lia.
Qed.

(** Data retained indefinitely has an expiry date past the last valid
    date, which is an invalid date; such data is never due for archival. *)
Theorem indefinite_never_due d s c now p :
  retentionPolicyId d = None -> getDefaultPolicyForEntityType (entityType d) s = Some p ->
  p_period p = INDEFINITE -> createdAt d = Some c -> 0 <= c ->
  calculateExpirationDate d s = None /\
  (expiresAt d = calculateExpirationDate d s -> shouldArchive now d = false).
Proof.
  intros Hd Hp Hi Hc Hge. assert (E : calculateExpirationDate d s = None).
  { rewrite (calculate_no_policy _ _ c) by done. unfold effective_default. rewrite Hp, Hi.
    unfold new_date. simpl. unfold MAX_SAFE_INTEGER, MAX_TIME. destruct (Z.leb_spec (Z.abs (c + (2 ^ 53 - 1))) 8640000000000000); [lia|done]. }
  split; [done|]. rewrite E. intros He. unfold shouldArchive. rewrite He. by destruct (isArchived d).
Qed.

(** For a whole day after its expiry the status of unarchived data reads
    "expiration approaching", although it is already due for archival. *)
Theorem status_lags_expiry now d e :
  isArchived d = false -> expiresAt d = Some e -> e <= now < e + DAY_MS ->
  shouldArchive now d = true /\
  st_actionRequired (determineRetentionStatus now d) = Some ExpirationApproaching.
Proof.
  intros Ha He Hnow. split.
  - unfold shouldArchive. rewrite Ha, He. apply Z.leb_le. lia.
  - assert (E : ceil_days (e - now) = 0).
    { unfold ceil_days. rewrite Z.div_small; [done|]. lia. }
    unfold determineRetentionStatus. rewrite Ha, He. cbn [fmap option_fmap option_map]. by rewrite E.
Qed.

(** ** Witnesses *)

Definition sample_config (period : string) : PolicyConfig :=
  {| c_name := "Contracts"; c_description := ""; c_entityType := "contract"; c_period := period;
     c_classification := "internal"; c_archivalType := "cold_storage"; c_encryptArchive := false;
     c_allowPermanentRetention := false; c_isActive := true |}.
Definition sample_update (period : string) : PolicyUpdates :=
  {| u_name := None; u_description := None; u_entityType := None; u_period := Some period;
     u_classification := None; u_archivalType := None; u_encryptArchive := None;
     u_allowPermanentRetention := None; u_isActive := None |}.
Definition sample_data (policy : option string) : RetainedData :=
  {| id := "d1"; entityType := CONTRACT; data := VNull; classification := INTERNAL; createdAt := Some 0;
     expiresAt := Some 1000; archivedAt := None; archivedLocation := None; isArchived := false;
     retentionPolicyId := policy; metadata := None |}.
Definition one_policy (period : string) : engine :=
  run [OCreate "p1" 0 (sample_config period); OSetDefault CONTRACT "p1"] empty_engine.

Lemma empty_engine_ok : engine_ok empty_engine.
Proof. by split; [apply wf_nil|..]. Qed.

Lemma one_policy_ok period : engine_ok (one_policy period).
Proof. unfold one_policy. do 2 apply policies_exec_ok. apply empty_engine_ok. Qed.

Lemma engine_invariant_witness :
  engine_ok (run [OCreate "p1" 0 (sample_config "1y"); OUpdate 5 "p1" (sample_update "2y"); ODelete "p1"] empty_engine).
Proof. apply (engine_invariant _ empty_engine), empty_engine_ok. Defined.

Lemma overrides_take_effect_witness :
  is_ok (applyOverrides 0 (fun _ => "p9"%string) [("contract", "30d")]%string (one_policy "90d")).1 = true /\
  calculateExpirationDate (sample_data None)
    (applyOverrides 0 (fun _ => "p9"%string) [("contract", "30d")]%string (one_policy "90d")).2 =
  new_date (0 + Z.max (PERIOD_DURATIONS THIRTY_DAYS) (PERIOD_DURATIONS (LEGAL_MINIMUMS CONTRACT))).
Proof.
  by apply (overrides_take_effect 0 (fun _ => "p9"%string) [("contract", "30d")]%string (one_policy "90d") CONTRACT
    THIRTY_DAYS (sample_data None) 0 (one_policy_ok _)).
Defined.

Lemma update_misses_default_witness :
  exists p' s', updatePolicy 7 "p1" (sample_update "2y") (one_policy "90d") = (Ok p', s') /\
    calculateExpirationDate (sample_data None) s' = Some (90 * DAY_MS) /\
    calculateExpirationDate (sample_data (Some "p1"%string)) s' = Some (730 * DAY_MS).
Proof.
  destruct (updatePolicy 7 "p1" (sample_update "2y") (one_policy "90d")) as [[p'|x] s'] eqn:E; [|by vm_compute in E].
  exists p', s'. split; [done|]. split.
  - rewrite (proj1 (update_misses_default 7 "p1" (sample_update "2y") (one_policy "90d") p' s' (sample_data None) 0
      (one_policy_ok _) E eq_refl)); reflexivity.
  - rewrite (proj2 (update_misses_default 7 "p1" (sample_update "2y") (one_policy "90d") p' s'
      (sample_data (Some "p1"%string)) 0 (one_policy_ok _) E eq_refl)); [|reflexivity|discriminate].
    vm_compute in E. by simplify_eq.
Defined.

Lemma default_below_legal_minimum_witness :
  calculateExpirationDate (sample_data None) empty_engine = new_date (0 + 90 * DAY_MS) /\
  0 + 90 * DAY_MS < 0 + PERIOD_DURATIONS (LEGAL_MINIMUMS CONTRACT).
Proof. apply (default_below_legal_minimum (sample_data None) empty_engine 0); [by left|done..]. Defined.

Lemma indefinite_never_due_witness :
  calculateExpirationDate (sample_data None) (one_policy "indefinite") = None.
Proof.
  eapply (indefinite_never_due (sample_data None) (one_policy "indefinite") 0 0); vm_compute; done.
Defined.

Lemma status_lags_expiry_witness :
  shouldArchive 2000 (sample_data None) = true /\
  st_actionRequired (determineRetentionStatus 2000 (sample_data None)) = Some ExpirationApproaching.
Proof. by apply (status_lags_expiry 2000 (sample_data None) 1000). Defined.

End Policies.
