(* ===== verification/RetentionStorage.v ===== *)
(** * Retention storage: src/retention/storage.ts

    [StorageProvider] is the interface [IStorageProvider]; [ProviderLaws] is
    what a provider promises, stated against a finite map from ids to records.
    The in-memory provider and the SQLite provider are instances.  A record read
    back from SQLite is its [p_image]: payload and metadata have been through
    JSON.  A date column holds ISO-8601 text; it is kept as the instant it
    denotes, is ordered as text ([iso]), and cannot be written for an invalid
    date.  The storage manager is verified against the laws only. *)

From stdpp Require Import prelude gmap strings sorting.
From Stdlib Require Import ZArith Lia.
From S2P Require Import Prelude JsMap JsValue JsArith JsString Cursor Json Keyset RetentionPolicies.
Import Policies.
Open Scope Z_scope.

Module Storage.

Definition RETENTION_PAGE_MAX_LIMIT : Z := 1000.

Definition clampPageLimit (limit : number) : Z :=
  match limit with
  | Fin u => if u <=? 0 then 1 else Z.min (u / num_scale) RETENTION_PAGE_MAX_LIMIT
  | _ => 1
  end.

(** ** The interface *)

Class StorageProvider (P : Type) : Type := {
  p_store : RetainedData -> P -> result string P;
  p_retrieve : string -> P -> option RetainedData;
  p_delete : string -> P -> bool * P;
  p_list : P -> list RetainedData;
  p_listPaginated : number -> Z -> P -> list RetainedData;
  p_exists : string -> P -> bool;
}.

Definition dates_valid (d : RetainedData) : Prop := is_Some (createdAt d) /\ is_Some (expiresAt d).
#[export] Instance dates_valid_dec d : Decision (dates_valid d).
Proof. unfold dates_valid. apply _. Defined.

(** Two records that differ at most in the payload and the metadata. *)
Definition same_record (d d' : RetainedData) : Prop :=
  id d' = id d /\ entityType d' = entityType d /\ classification d' = classification d /\
  createdAt d' = createdAt d /\ expiresAt d' = expiresAt d /\ archivedAt d' = archivedAt d /\
  archivedLocation d' = archivedLocation d /\ isArchived d' = isArchived d /\
  retentionPolicyId d' = retentionPolicyId d.

Class ProviderLaws (P : Type) `{StorageProvider P} : Type := {
  p_ok : P -> Prop;
  p_view : P -> gmap string RetainedData;
  p_image : RetainedData -> RetainedData;
  p_strict : bool;
  image_same : forall d, same_record d (p_image d);
  store_law : forall d s s', p_ok s -> p_store d s = Ok s' ->
    p_ok s' /\ p_view s' = <[id d := p_image d]> (p_view s);
  store_succeeds : forall d s, p_ok s ->
    (exists s', p_store d s = Ok s') <-> (p_strict = true -> dates_valid d);
  view_id : forall s i d, p_ok s -> p_view s !! i = Some d -> id d = i;
  view_dates : forall s i d, p_ok s -> p_strict = true -> p_view s !! i = Some d -> dates_valid d;
  retrieve_law : forall i s, p_ok s -> p_retrieve i s = p_view s !! i;
  exists_law : forall i s, p_ok s -> p_exists i s = bool_decide (is_Some (p_view s !! i));
  delete_law : forall i s, p_ok s ->
    (p_delete i s).1 = bool_decide (is_Some (p_view s !! i)) /\
    p_ok (p_delete i s).2 /\ p_view (p_delete i s).2 = delete i (p_view s);
  list_law : forall s, p_ok s -> p_list s ≡ₚ (map_to_list (p_view s)).*2;
  page_law : forall limit offset s, p_ok s ->
    p_listPaginated limit offset s = take (Z.to_nat (clampPageLimit limit)) (drop (Z.to_nat offset) (p_list s));
}.

(** ** [InMemoryStorageProvider] *)

Module Memory.

Record provider : Type := { storage : list (string * RetainedData) }.

Definition store (d : RetainedData) (s : provider) : result string provider :=
  Ok {| storage := map_set (id d) d (storage s) |}.
Definition retrieve (i : string) (s : provider) : option RetainedData := map_get i (storage s).
Definition delete (i : string) (s : provider) : bool * provider :=
  (map_has i (storage s), {| storage := map_delete i (storage s) |}).
Definition list_all (s : provider) : list RetainedData := map_values (storage s).
Definition listPaginated (limit : number) (offset : Z) (s : provider) : list RetainedData :=
  take (Z.to_nat (clampPageLimit limit)) (drop (Z.to_nat (Z.max 0 offset)) (map_values (storage s))).
Definition exists_ (i : string) (s : provider) : bool := map_has i (storage s).

#[global] Instance memory_provider : StorageProvider provider := {|
  p_store := store; p_retrieve := retrieve; p_delete := delete; p_list := list_all;
  p_listPaginated := listPaginated; p_exists := exists_ |}.

Definition ok (s : provider) : Prop :=
  wf (storage s) /\ forall i d, map_get i (storage s) = Some d -> id d = i.

End Memory.

(** ** [SqliteStorageProvider] *)

Module Sqlite.

Record RetentionRow : Type := {
  row_id : string;
  row_entity_type : DataEntityType;
  row_data : value;
  row_classification : DataClassification;
  row_created_at : Z;
  row_expires_at : Z;
  row_archived_at : option Z;
  row_archived_location : option string;
  row_is_archived : bool;
  row_retention_policy_id : option string;
  row_metadata : option (list (string * value));
}.

Record provider : Type := { rows : list RetentionRow }.

(** [data.data ?? null] *)
Definition or_null (v : value) : value := match v with VUndefined => VNull | _ => v end.

Definition object_fields (v : value) : list (string * value) :=
  match v with VObject fs => fs | _ => [] end.

(** What [JSON.parse] makes of the text written for an object. *)
Definition json_object (fs : list (string * value)) : list (string * value) :=
  object_fields (Json.json_image (VObject fs)).

Definition to_row (d : RetainedData) : result string RetentionRow :=
  match createdAt d, expiresAt d with
  | Some c, Some e =>
      Ok {| row_id := id d; row_entity_type := entityType d; row_data := Json.json_image (or_null (data d));
            row_classification := classification d; row_created_at := c; row_expires_at := e;
            row_archived_at := archivedAt d; row_archived_location := archivedLocation d;
            row_is_archived := isArchived d; row_retention_policy_id := retentionPolicyId d;
            row_metadata := json_object <$> metadata d |}
  | _, _ => Err "Invalid time value"%string
  end.

Definition rowToRetainedData (r : RetentionRow) : RetainedData :=
  {| id := row_id r; entityType := row_entity_type r; data := row_data r; classification := row_classification r;
     createdAt := Some (row_created_at r); expiresAt := Some (row_expires_at r);
     archivedAt := row_archived_at r; archivedLocation := row_archived_location r;
     isArchived := row_is_archived r; retentionPolicyId := row_retention_policy_id r;
     metadata := row_metadata r |}.

Section Sqlite.
Context (iso : Z -> string).

(** ORDER BY created_at ASC, id ASC *)
Definition row_order (a b : RetentionRow) : Prop :=
  Keyset.text_lt (iso (row_created_at a)) (iso (row_created_at b)) \/
  (iso (row_created_at a) = iso (row_created_at b) /\ String.le (row_id a) (row_id b)).
#[export] Instance row_order_dec : RelDecision row_order.
Proof. unfold row_order. intros a b. apply _. Defined.

(** INSERT OR REPLACE: the row of that id, if any, is deleted first. *)
Definition store (d : RetainedData) (s : provider) : result string provider :=
  match to_row d with
  | Err e => Err e
  | Ok r => Ok {| rows := filter (fun x => row_id x <> id d) (rows s) ++ [r] |}
  end.
Definition retrieve (i : string) (s : provider) : option RetainedData :=
  rowToRetainedData <$> List.find (fun r => String.eqb (row_id r) i) (rows s).
Definition delete (i : string) (s : provider) : bool * provider :=
  (existsb (fun r => String.eqb (row_id r) i) (rows s),
   {| rows := filter (fun x => row_id x <> i) (rows s) |}).
Definition list_all (s : provider) : list RetainedData :=
  rowToRetainedData <$> merge_sort row_order (rows s).
Definition listPaginated (limit : number) (offset : Z) (s : provider) : list RetainedData :=
  rowToRetainedData <$>
  take (Z.to_nat (clampPageLimit limit)) (drop (Z.to_nat (Z.max 0 offset)) (merge_sort row_order (rows s))).
Definition exists_ (i : string) (s : provider) : bool :=
  match List.find (fun r => String.eqb (row_id r) i) (rows s) with Some _ => true | None => false end.

#[export] Instance sqlite_provider : StorageProvider provider := {|
  p_store := store; p_retrieve := retrieve; p_delete := delete; p_list := list_all;
  p_listPaginated := listPaginated; p_exists := exists_ |}.

End Sqlite.

Definition ok (s : provider) : Prop := NoDup (row_id <$> rows s).

(** A record after a trip through the table. *)
Definition image (d : RetainedData) : RetainedData :=
  {| id := id d; entityType := entityType d; data := Json.json_image (or_null (data d));
     classification := classification d; createdAt := createdAt d; expiresAt := expiresAt d;
     archivedAt := archivedAt d; archivedLocation := archivedLocation d; isArchived := isArchived d;
     retentionPolicyId := retentionPolicyId d; metadata := json_object <$> metadata d |}.

Definition view (s : provider) : gmap string RetainedData :=
  list_to_map ((fun r => (row_id r, rowToRetainedData r)) <$> rows s).

End Sqlite.

(** ** Both providers keep the laws *)

Lemma same_record_refl d : same_record d d.
Proof. by unfold same_record. Qed.

Lemma to_nat_max0 n : Z.to_nat (Z.max 0 n) = Z.to_nat n.
Proof. lia. Qed.

Lemma map_values_perm {V} (m : list (string * V)) :
  wf m -> map_values m ≡ₚ (map_to_list (to_gmap m)).*2.
Proof.
  intros Hw. unfold to_gmap, map_values. apply fmap_Permutation. symmetry. by apply map_to_list_to_map.
Qed.

Section MemoryLaws.
Import Memory.

Definition memory_view (s : provider) : gmap string RetainedData := to_gmap (storage s).

Lemma memory_store_law d s s' :
  ok s -> store d s = Ok s' -> ok s' /\ memory_view s' = <[id d := d]> (memory_view s).
Proof.
  intros [Hw Hi] [= <-]. split; [|apply to_gmap_set]. split; [by apply wf_set|].
  simpl. intros i e [[-> ->]|[_ H]]%map_get_set_inv; [done|by apply Hi].
Qed.

Lemma memory_delete_law i s :
  ok s -> (delete i s).1 = bool_decide (is_Some (memory_view s !! i)) /\
  ok (delete i s).2 /\ memory_view (delete i s).2 = base.delete i (memory_view s).
Proof.
  intros [Hw Hi]. split; [|split; [split; [by apply wf_delete|]|apply to_gmap_delete]].
  - simpl. unfold memory_view. rewrite to_gmap_lookup. apply eq_true_iff_eq.
    rewrite bool_decide_eq_true. apply map_has_true.
  - simpl. intros j d Hj. destruct (decide (i = j)) as [->|Hne]; [by rewrite map_get_delete_eq in Hj|].
    rewrite map_get_delete_ne in Hj by done. by apply Hi.
Qed.

#[global] Program Instance memory_laws : ProviderLaws provider := {|
  p_ok := ok; p_view := memory_view; p_image := fun d => d; p_strict := false |}.
Next Obligation. apply same_record_refl. Qed.
Next Obligation. apply memory_store_law. Qed.
Next Obligation. intros d s Hs. split; [done|]. intros _. by eexists. Qed.
Next Obligation. intros s i d [_ Hi] H. unfold memory_view in H. rewrite to_gmap_lookup in H. by apply Hi. Qed.
Next Obligation. done. Qed.
Next Obligation. intros i s _. simpl. unfold memory_view. by rewrite to_gmap_lookup. Qed.
Next Obligation.
  intros i s Hs. apply (memory_delete_law i s) in Hs as [H _]. exact H.
Qed.
Next Obligation. apply memory_delete_law. Qed.
Next Obligation. intros s [Hw _]. by apply map_values_perm. Qed.
Next Obligation. intros limit offset s _. simpl. unfold listPaginated. by rewrite to_nat_max0. Qed.
End MemoryLaws.

Section SqliteLaws.
Import Sqlite.
Context (iso : Z -> string).
Notation pairs := (fun r => (row_id r, rowToRetainedData r)).

Lemma pairs_fst l : (pairs <$> l).*1 = row_id <$> l.
Proof. rewrite <- list_fmap_compose. by apply list_fmap_ext. Qed.

Lemma view_lookup s i : view s !! i = rowToRetainedData <$> List.find (fun r => String.eqb (row_id r) i) (rows s).
Proof.
  unfold view. induction (rows s) as [|r l IH]; simpl; [apply lookup_empty|].
  destruct (String.eqb_spec (row_id r) i) as [->|Hne]; [by rewrite lookup_insert_eq|].
  by rewrite lookup_insert_ne.
Qed.

Lemma find_exists i (l : list RetentionRow) :
  existsb (fun r => String.eqb (row_id r) i) l =
  match List.find (fun r => String.eqb (row_id r) i) l with Some _ => true | None => false end.
Proof. induction l as [|r l IH]; simpl; [done|]. by destruct (String.eqb (row_id r) i). Qed.

Lemma view_has s i :
  match List.find (fun r => String.eqb (row_id r) i) (rows s) with Some _ => true | None => false end =
  bool_decide (is_Some (view s !! i)).
Proof.
  rewrite view_lookup. by destruct (List.find _ _).
Qed.

Lemma filter_ids i (l : list RetentionRow) :
  row_id <$> filter (fun x => row_id x <> i) l = filter (fun j => j <> i) (row_id <$> l).
Proof.
  induction l as [|r l IH]; [done|]. rewrite filter_cons, fmap_cons, filter_cons.
  case_decide; simpl; [f_equal|]; apply IH.
Qed.

Lemma delete_rows_ok i s : ok s -> ok {| rows := filter (fun x => row_id x <> i) (rows s) |}.
Proof. intros Hs. unfold ok; simpl. rewrite filter_ids. by apply NoDup_filter. Qed.

Lemma delete_rows_view i s : view {| rows := filter (fun x => row_id x <> i) (rows s) |} = base.delete i (view s).
Proof.
  unfold view; cbn [rows]. induction (rows s) as [|r l IH]; [symmetry; apply delete_empty|].
  rewrite filter_cons. case_decide as Hr; rewrite !fmap_cons, !list_to_map_cons.
  - by rewrite IH, delete_insert_ne.
  - rewrite <- Hr in *. by rewrite delete_insert_eq, IH.
Qed.

Lemma to_row_image d r : to_row d = Ok r -> row_id r = id d /\ rowToRetainedData r = image d.
Proof.
  unfold to_row, image. destruct (createdAt d), (expiresAt d); try done. by intros [= <-].
Qed.

Lemma sqlite_store_law d s s' :
  ok s -> store d s = Ok s' -> ok s' /\ view s' = <[id d := image d]> (view s).
Proof.
  intros Hs. unfold store. destruct (to_row d) as [r|] eqn:E; [|done]. intros [= <-].
  apply to_row_image in E as [Hid Him]. split.
  - unfold ok; simpl. rewrite fmap_app. apply NoDup_app. split; [apply (delete_rows_ok _ _ Hs)|].
    split; [|apply NoDup_singleton]. intros i Hi Hr. simpl in Hr. apply list_elem_of_singleton in Hr as ->.
    rewrite filter_ids in Hi. apply list_elem_of_filter in Hi as [Hi _]. congruence.
  - apply map_eq. intros i. pose proof (delete_rows_view (id d) s) as Hd.
    unfold view in Hd |- *. simpl in *. rewrite fmap_app, list_to_map_app, Hd. simpl.
    rewrite Hid, Him. destruct (decide (i = id d)) as [->|Hne].
    + rewrite lookup_insert_eq, lookup_union_r; [by rewrite lookup_insert_eq|]. apply lookup_delete_eq.
    + rewrite lookup_insert_ne by done. rewrite lookup_union_l; [by rewrite lookup_delete_ne|].
      by rewrite lookup_insert_ne.
Qed.

Lemma view_elem s i d : view s !! i = Some d -> exists r, r ∈ rows s /\ row_id r = i /\ d = rowToRetainedData r.
Proof.
  rewrite view_lookup. destruct (List.find _ _) as [r|] eqn:E; simpl; [|done]. intros [= <-].
  apply List.find_some in E as [Hin Hi]. exists r. split; [by apply list_elem_of_In|].
  split; [by apply String.eqb_eq|done].
Qed.

#[export] Program Instance sqlite_laws : @ProviderLaws provider (sqlite_provider iso) := {|
  p_ok := ok; p_view := view; p_image := image; p_strict := true |}.
Next Obligation. by unfold same_record. Qed.
Next Obligation. apply sqlite_store_law. Qed.
Next Obligation.
  intros d s _. simpl. unfold store, to_row, dates_valid. destruct (createdAt d), (expiresAt d); simpl.
  - split; [done|]. intros _. by eexists.
  - split; [by intros [? ?]|]. intros H. by destruct (H eq_refl) as [_ [? ?]].
  - split; [by intros [? ?]|]. intros H. by destruct (H eq_refl) as [[? ?] _].
  - split; [by intros [? ?]|]. intros H. by destruct (H eq_refl) as [[? ?] _].
Qed.
Next Obligation. intros s i d _ (r & _ & <- & ->)%view_elem. done. Qed.
Next Obligation. intros s i d _ _ (r & _ & _ & ->)%view_elem. split; by eexists. Qed.
Next Obligation. intros i s _. by rewrite view_lookup. Qed.
Next Obligation. intros i s _. apply view_has. Qed.
Next Obligation.
  intros i s Hs. simpl. rewrite find_exists. split; [apply view_has|].
  split; [by apply delete_rows_ok|apply delete_rows_view].
Qed.
Next Obligation.
  intros s Hs. simpl. unfold list_all. rewrite merge_sort_Permutation. unfold view.
  rewrite map_to_list_to_map by (by rewrite pairs_fst).
  rewrite <- list_fmap_compose. by erewrite list_fmap_ext.
Qed.
Next Obligation.
  intros limit offset s _. simpl. unfold listPaginated, list_all.
  by rewrite to_nat_max0, fmap_take, fmap_drop.
Qed.
End SqliteLaws.

(** ** [StorageManager] *)

Section Manager.
Context {L A : Type} {LP : StorageProvider L} {LL : ProviderLaws L} {AP : StorageProvider A} {AL : ProviderLaws A}.

Record stores : Type := { local : L; archive : A }.

(** [getProvider]: two of the storage types share the archive provider. *)
Definition is_archive (t : ArchivalStorageType) : bool :=
  match t with COLD_STORAGE | ENCRYPTED_ARCHIVE => true | _ => false end.

Definition with_local (l : L) (s : stores) : stores := {| local := l; archive := archive s |}.
Definition with_archive (a : A) (s : stores) : stores := {| local := local s; archive := a |}.

Definition store (d : RetainedData) (t : ArchivalStorageType) (s : stores) : result string stores :=
  if is_archive t then
    match p_store d (archive s) with Ok a => Ok (with_archive a s) | Err e => Err e end
  else match p_store d (local s) with Ok l => Ok (with_local l s) | Err e => Err e end.

Definition retrieve (i : string) (t : ArchivalStorageType) (s : stores) : option RetainedData :=
  if is_archive t then p_retrieve i (archive s) else p_retrieve i (local s).

Definition delete (i : string) (t : ArchivalStorageType) (s : stores) : bool * stores :=
  if is_archive t then let '(b, a) := p_delete i (archive s) in (b, with_archive a s)
  else let '(b, l) := p_delete i (local s) in (b, with_local l s).

Definition list_provider (t : ArchivalStorageType) (s : stores) : list RetainedData :=
  if is_archive t then p_list (archive s) else p_list (local s).

(** The id a provider returns is the record's, so [stored] is truthy exactly
    when the id is not empty. *)
Definition moveData (i : string) (from to : ArchivalStorageType) (s : stores) : result string bool * stores :=
  match retrieve i from s with
  | None => (Ok false, s)
  | Some d =>
      match store d to s with
      | Err e => (Err e, s)
      | Ok s1 => if String.eqb (id d) EmptyString then (Ok false, s1)
                 else (Ok true, (delete i from s1).2)
      end
  end.

(** ** What the operations do to the two maps *)

Definition stores_ok (s : stores) : Prop := p_ok (local s) /\ p_ok (archive s).
Definition lview (s : stores) : gmap string RetainedData := p_view (local s).
Definition aview (s : stores) : gmap string RetainedData := p_view (archive s).

Definition limage : RetainedData -> RetainedData := p_image (P := L).
Definition aimage : RetainedData -> RetainedData := p_image (P := A).

Lemma store_views d t s s' :
  stores_ok s -> store d t s = Ok s' ->
  stores_ok s' /\
  (lview s', aview s') = if is_archive t then (lview s, <[id d := aimage d]> (aview s))
                         else (<[id d := limage d]> (lview s), aview s).
Proof.
  intros [Hl Ha] H. unfold store, lview, aview in *. destruct (is_archive t).
  - destruct (p_store d (archive s)) as [a|] eqn:E; simplify_eq.
    destruct (store_law _ _ _ Ha E) as [Hok Hv]. split; [by split|]. simpl. by rewrite Hv.
  - destruct (p_store d (local s)) as [l|] eqn:E; simplify_eq.
    destruct (store_law _ _ _ Hl E) as [Hok Hv]. split; [by split|]. simpl. by rewrite Hv.
Qed.

Lemma store_total d t s : stores_ok s -> dates_valid d -> exists s', store d t s = Ok s'.
Proof.
  intros [Hl Ha] Hd. unfold store. destruct (is_archive t).
  - destruct (proj2 (store_succeeds d (archive s) Ha)) as [a ->]; [done|]. by eexists.
  - destruct (proj2 (store_succeeds d (local s) Hl)) as [l ->]; [done|]. by eexists.
Qed.

Lemma retrieve_view i t s :
  stores_ok s -> retrieve i t s = (if is_archive t then aview s else lview s) !! i.
Proof. intros [Hl Ha]. unfold retrieve. destruct (is_archive t); by apply retrieve_law. Qed.

Lemma delete_views i t s :
  stores_ok s ->
  (delete i t s).1 = bool_decide (is_Some ((if is_archive t then aview s else lview s) !! i)) /\
  stores_ok (delete i t s).2 /\
  (lview (delete i t s).2, aview (delete i t s).2) =
    if is_archive t then (lview s, base.delete i (aview s)) else (base.delete i (lview s), aview s).
Proof.
  intros [Hl Ha]. unfold delete, lview, aview. destruct (is_archive t).
  - destruct (delete_law i (archive s) Ha) as (E1 & E2 & E3). destruct (p_delete i (archive s)) as [b a].
    simpl in *. split; [done|]. split; [by split|]. by rewrite E3.
  - destruct (delete_law i (local s) Hl) as (E1 & E2 & E3). destruct (p_delete i (local s)) as [b l].
    simpl in *. split; [done|]. split; [by split|]. by rewrite E3.
Qed.

Lemma list_local_elem s d : stores_ok s -> d ∈ list_provider LOCAL s <-> lview s !! id d = Some d.
Proof.
  intros [Hl Ha]. unfold list_provider; simpl. rewrite (list_law _ Hl). rewrite list_elem_of_fmap. split.
  - intros ([i x] & -> & Hx%elem_of_map_to_list). simpl. unfold lview. by rewrite (view_id _ _ _ Hl Hx).
  - intros H. exists (id d, d). split; [done|]. by apply elem_of_map_to_list.
Qed.

Lemma list_archive_elem s d : stores_ok s -> d ∈ list_provider COLD_STORAGE s <-> aview s !! id d = Some d.
Proof.
  intros [Hl Ha]. unfold list_provider; simpl. rewrite (list_law _ Ha). rewrite list_elem_of_fmap. split.
  - intros ([i x] & -> & Hx%elem_of_map_to_list). simpl. unfold aview. by rewrite (view_id _ _ _ Ha Hx).
  - intros H. exists (id d, d). split; [done|]. by apply elem_of_map_to_list.
Qed.

(** No id occurs twice in a listing. *)
Lemma list_ids_distinct {P} {PP : StorageProvider P} {PL : ProviderLaws P} (s : P) : p_ok s -> NoDup (id <$> p_list s).
Proof.
  intros Hs. rewrite (list_law _ Hs). rewrite <- list_fmap_compose.
  assert (E : (id ∘ snd) <$> map_to_list (p_view s) = (map_to_list (p_view s)).*1).
  { apply list_fmap_ext. intros k [i d] Hk. simpl.
    apply list_elem_of_lookup_2, elem_of_map_to_list in Hk. by apply (view_id s). }
  rewrite E. apply NoDup_fst_map_to_list.
Qed.

(** ** Pages *)

Section Pages.
Context {P : Type} {PP : StorageProvider P} {PL : ProviderLaws P}.

(** The first [m] pages of [n] records. *)
Definition pages (n : Z) (m : nat) (s : P) : list RetainedData :=
  concat ((fun k => p_listPaginated (of_int n) (Z.of_nat k * n) s) <$> seq 0 m).

Lemma clamp_int n : 1 <= n <= RETENTION_PAGE_MAX_LIMIT -> clampPageLimit (of_int n) = n.
Proof.
  intros Hn. pose proof num_scale_pos as Hs. unfold clampPageLimit, of_int.
  destruct (Z.leb_spec (n * num_scale) 0); [nia|]. rewrite Z.div_mul by lia. unfold RETENTION_PAGE_MAX_LIMIT in *. lia.
Qed.

Lemma pages_take n m s :
  p_ok s -> 1 <= n <= RETENTION_PAGE_MAX_LIMIT -> pages n m s = take (m * Z.to_nat n) (p_list s).
Proof.
  intros Hs Hn. unfold pages. induction m as [|m IH]; [done|].
  rewrite seq_S, fmap_app, concat_app, IH. simpl. rewrite app_nil_r, page_law, clamp_int by done.
  replace (Z.to_nat (Z.of_nat m * n)) with (m * Z.to_nat n)%nat by nia.
  rewrite take_take_drop. f_equal. lia.
Qed.
End Pages.

(** ** Properties *)

(** Reading a retention store page by page, with any whole page size from 1
    to the cap, yields the full listing in order, each record once. *)
Theorem retention_pages_complete {P} {PP : StorageProvider P} {PL : ProviderLaws P} n m (s : P) :
  p_ok s -> 1 <= n <= RETENTION_PAGE_MAX_LIMIT -> (length (p_list s) <= m * Z.to_nat n)%nat ->
  pages n m s = p_list s /\ NoDup (id <$> pages n m s).
Proof.
  intros Hs Hn Hm. rewrite pages_take, take_ge by done. split; [done|]. by apply list_ids_distinct.
Qed.

(** Moving a record to another store takes it out of the first and puts it
    into the second, and nothing else changes; the move fails only when the
    target refuses the dates of the record, and then nothing is lost. *)
Theorem moveData_spec i from to s d :
  stores_ok s -> i <> EmptyString -> is_archive from <> is_archive to ->
  (if is_archive from then aview s else lview s) !! i = Some d ->
  match moveData i from to s with
  | (Ok b, s') =>
      b = true /\ stores_ok s' /\
      (lview s', aview s') = if is_archive from then (<[i := limage d]> (lview s), base.delete i (aview s))
                             else (base.delete i (lview s), <[i := aimage d]> (aview s))
  | (Err _, s') => s' = s /\ ~ dates_valid d
  end.
Proof.
  intros Hs Hi Hne Hd. unfold moveData. rewrite retrieve_view, Hd by done.
  assert (Hid : id d = i). { destruct Hs as [Hl Ha]. destruct (is_archive from); [exact (view_id _ _ _ Ha Hd)|exact (view_id _ _ _ Hl Hd)]. }
  destruct (store d to s) as [s1|] eqn:E; cycle 1.
  { split; [done|]. intros Hv. destruct (store_total d to s Hs Hv) as [? ?]. congruence. }
  destruct (store_views d to s s1 Hs E) as [Hs1 V]. rewrite Hid in *.
  destruct (String.eqb_spec i EmptyString) as [|_]; [done|]. split; [done|].
  destruct (delete_views i from s1 Hs1) as (_ & Hs2 & V2). split; [done|]. rewrite V2.
  by destruct (is_archive from), (is_archive to); try done; injection V as -> ->.
Qed.

End Manager.
Arguments stores : clear implicits.

(** What is stored in the SQLite provider is read back with its payload and
    metadata passed through JSON and every other field unchanged; a record with
    an invalid date, such as indefinitely retained data, is refused. *)
Theorem sqlite_roundtrip d s :
  Sqlite.ok s ->
  match Sqlite.store d s with
  | Ok s' => dates_valid d /\ Sqlite.retrieve (id d) s' = Some (Sqlite.image d) /\
             (forall i, i <> id d -> Sqlite.retrieve i s' = Sqlite.retrieve i s)
  | Err e => ~ dates_valid d /\ e = "Invalid time value"%string
  end.
Proof.
  intros Hs. destruct (Sqlite.store d s) as [s'|e] eqn:E.
  - destruct (sqlite_store_law d s s' Hs E) as [Hs' Hv]. split; [|split].
    + unfold Sqlite.store, Sqlite.to_row, dates_valid in *. destruct (createdAt d), (expiresAt d); try done; split; by eexists.
    + unfold Sqlite.retrieve. by rewrite <- view_lookup, Hv, lookup_insert_eq.
    + intros i Hi. unfold Sqlite.retrieve. by rewrite <- !view_lookup, Hv, lookup_insert_ne.
  - unfold Sqlite.store, Sqlite.to_row, dates_valid in *.
    destruct (createdAt d), (expiresAt d); simplify_eq/=; (split; [|done]); by intros [[? ?] [? ?]].
Qed.

(** The limit is documented to be at least 1; a fraction below 1 gives 0. *)
Example fractional_limit_empty : clampPageLimit (Fin (num_scale / 2)) = 0.
Proof. reflexivity. Qed.

(** ** Witnesses *)

Definition sample_sqlite : Sqlite.provider :=
  match Sqlite.store (sample_data None) {| Sqlite.rows := [] |} with Ok s => s | Err _ => {| Sqlite.rows := [] |} end.

Lemma sqlite_empty_ok : Sqlite.ok {| Sqlite.rows := [] |}.
Proof. constructor. Qed.

Lemma memory_one_ok : Memory.ok {| Memory.storage := [("d1", sample_data None)]%string |}.
Proof. split; [by apply NoDup_singleton|]. intros i d. simpl. case_decide; [|done]. intros [= <-]. by subst. Qed.

Lemma memory_none_ok : Memory.ok {| Memory.storage := [] |}.
Proof. by split; [apply wf_nil|]. Qed.

Lemma retention_pages_complete_witness :
  pages 1 2 {| Memory.storage := [("d1", sample_data None)]%string |} = [sample_data None].
Proof.
  refine (proj1 (retention_pages_complete 1 2 {| Memory.storage := [("d1", sample_data None)]%string |} _ _ _)).
  - apply memory_one_ok.
  - unfold RETENTION_PAGE_MAX_LIMIT. lia.
  - simpl. lia.
Defined.

Lemma moveData_spec_witness :
  match moveData "d1" LOCAL COLD_STORAGE
    {| local := {| Memory.storage := [("d1", sample_data None)]%string |}; archive := {| Memory.storage := [] |} |} with
  | (Ok b, s') => aview s' !! "d1"%string = Some (sample_data None)
  | (Err _, _) => False
  end.
Proof.
  pose proof (moveData_spec "d1" LOCAL COLD_STORAGE
    {| local := {| Memory.storage := [("d1", sample_data None)]%string |}; archive := {| Memory.storage := [] |} |}
    (sample_data None) (conj memory_one_ok memory_none_ok)) as H.
  specialize (H ltac:(done) ltac:(done) ltac:(reflexivity)). revert H.
  destruct (moveData _ _ _ _) as [[b|e] s'].
  - intros (_ & _ & V). apply (f_equal snd) in V. cbn [snd] in V. by rewrite V.
  - intros [_ []]. split; by eexists.
Defined.

Lemma sqlite_roundtrip_witness :
  match Sqlite.store (sample_data None) {| Sqlite.rows := [] |} with
  | Ok s' => Sqlite.retrieve "d1" s' = Some (Sqlite.image (sample_data None))
  | Err _ => False
  end.
Proof.
  pose proof (sqlite_roundtrip (sample_data None) {| Sqlite.rows := [] |} sqlite_empty_ok) as H.
  simpl in *. by destruct H as (_ & H & _).
Defined.

End Storage.
