(* ===== verification/RetentionManager.v ===== *)
(** * Data retention: src/retention/{index,archival,audit,purge}.ts

    [DataRetentionManager] with its archival service, its compliance audit log
    and the purge command, over any two storage providers that keep the laws of
    RetentionStorage.v.  Operations of the manager run one after another, and
    the clock readings of one operation coincide.  Ids are drawn from a supply
    [fresh], counted in the state.  HMAC-SHA256, the ISO text of a date and
    number formatting are parameters; dates inside audit details are in their
    JSON form. *)

From stdpp Require Import prelude gmap strings pretty.
From Stdlib Require Import ZArith Lia Ascii.
From S2P Require Import Prelude JsMap JsValue JsString Cursor Json RetentionPolicies RetentionStorage.
Import Policies.
Import Storage.
Open Scope Z_scope.

Module Retention.

(** ** Archive locations *)

(** [getUTCFullYear] and [getUTCMonth() + 1] of an instant. *)
Definition utc_year_month (ms : Z) : Z * Z :=
  let z := ms / DAY_MS + 719468 in
  let era := z / 146097 in
  let doe := z mod 146097 in
  let yoe := (doe - doe / 1460 + doe / 36524 - doe / 146096) / 365 in
  let doy := doe - (365 * yoe + yoe / 4 - yoe / 100) in
  let mp := (5 * doy + 2) / 153 in
  let m := if mp <? 10 then mp + 3 else mp - 9 in
  (yoe + era * 400 + (if m <=? 2 then 1 else 0), m).

Definition pad2 (n : Z) : string := if n <? 10 then "0" +:+ pretty n else pretty n.

Definition generateArchiveLocation (now : Z) (d : RetainedData) (t : ArchivalStorageType) : string :=
  let '(year, month) := utc_year_month (default now (archivedAt d)) in
  "/archive/" +:+ storage_text t +:+ "/" +:+ entity_text (entityType d) +:+ "/" +:+ pretty year +:+ "/" +:+
  pad2 month +:+ "/" +:+ id d.

Fixpoint split_slash (l cur : list ascii) : list (list ascii) :=
  match l with
  | [] => [rev cur]
  | c :: l' => if Ascii.eqb c "/"%char then rev cur :: split_slash l' [] else split_slash l' (c :: cur)
  end.

Definition segments (s : string) : list string :=
  String.string_of_list_ascii <$> split_slash (String.list_ascii_of_string s) [].

Definition resolveStorageType (d : RetainedData) : option ArchivalStorageType :=
  match archivedLocation d with
  | None | Some EmptyString => None
  | Some location => head (omap (parse storage_text storage_types) (segments location))
  end.

(** ** The compliance audit log *)

Inductive RetentionAction : Type :=
| CREATE | UPDATE | ARCHIVE | DELETE | RESTORE | POLICY_APPLIED | RETENTION_EXPIRED.
#[export] Instance retention_action_eq_dec : EqDecision RetentionAction.
Proof. solve_decision. Defined.

Definition action_text (a : RetentionAction) : string :=
  match a with
  | CREATE => "create" | UPDATE => "update" | ARCHIVE => "archive" | DELETE => "delete"
  | RESTORE => "restore" | POLICY_APPLIED => "policy_applied" | RETENTION_EXPIRED => "retention_expired"
  end.

Record ComplianceAuditLog : Type := {
  l_id : string;
  l_entityId : string;
  l_entityType : DataEntityType;
  l_action : RetentionAction;
  l_actor : string;
  l_timestamp : Z;
  l_details : list (string * value);
  l_compliance : string;
  l_notes : option string;
  l_proof : option (list ascii);
}.

Record audit : Type := {
  auditLogs : list (string * ComplianceAuditLog);
  logQueue : list ComplianceAuditLog;
  logIndex : list (string * list string);
}.

Definition empty_audit : audit := {| auditLogs := []; logQueue := []; logIndex := [] |}.

Record AuditLogFilter : Type := {
  f_entityId : option string;
  f_entityType : option DataEntityType;
  f_action : option RetentionAction;
  f_actor : option string;
  f_compliance : option string;
  f_startDate : option Z;
  f_endDate : option Z;
}.

Record ArchivalOptions : Type := {
  o_encrypted : option bool;
  o_location : option string;
  o_metadata : option (list (string * value));
}.

Record ArchivalResult : Type := {
  ar_dataId : string;
  ar_archivedAt : Z;
  ar_location : string;
  ar_encrypted : bool;
  ar_metadata : list (string * value);
}.

Record RetentionConfig : Type := {
  enabled : bool;
  automaticArchival : bool;
  automaticDeletion : bool;
  postArchivalRetentionDays : Z;
  complianceStandard : string;
  encryptionEnabled : bool;
}.

(** [Set.prototype.add] on the set of an index entry. *)
Definition set_add (x : string) (l : list string) : list string :=
  if bool_decide (x ∈ l) then l else l ++ [x].

(** [{ ...fields, ...more }] *)
Definition spread_fields (fields more : list (string * value)) : list (string * value) :=
  foldl (fun acc f => map_set f.1 f.2 acc) fields more.

Section Retention.
Context (hmac : string -> list ascii -> list ascii) (secret : string)
        (iso : Z -> string) (number_text : number -> list ascii) (fresh : nat -> string).
Context {L A : Type} {LP : StorageProvider L} {LL : ProviderLaws L} {AP : StorageProvider A} {AL : ProviderLaws A}.
Context (config : RetentionConfig).

Definition generateProof (l : ComplianceAuditLog) : list ascii :=
  hmac secret (default [] (Json.stringify number_text (VObject [
    ("entityId", VString (l_entityId l)); ("entityType", VString (entity_text (l_entityType l)));
    ("action", VString (action_text (l_action l))); ("actor", VString (l_actor l));
    ("timestamp", VString (iso (l_timestamp l))); ("details", VObject (l_details l));
    ("compliance", VString (l_compliance l))]%string))).

Definition verifyProof (l : ComplianceAuditLog) : bool :=
  match l_proof l with
  | None | Some [] => false
  | Some p => bool_decide (p = generateProof l)
  end.

Record AuditLogEntry : Type := {
  e_entityId : string;
  e_entityType : DataEntityType;
  e_action : RetentionAction;
  e_actor : string;
  e_details : list (string * value);
  e_compliance : option string;
  e_notes : option string;
}.

Definition with_proof (p : list ascii) (l : ComplianceAuditLog) : ComplianceAuditLog :=
  {| l_id := l_id l; l_entityId := l_entityId l; l_entityType := l_entityType l; l_action := l_action l;
     l_actor := l_actor l; l_timestamp := l_timestamp l; l_details := l_details l;
     l_compliance := l_compliance l; l_notes := l_notes l; l_proof := Some p |}.

Definition new_log (uid : string) (now : Z) (e : AuditLogEntry) : ComplianceAuditLog :=
  let l := {| l_id := uid; l_entityId := e_entityId e; l_entityType := e_entityType e;
              l_action := e_action e; l_actor := e_actor e; l_timestamp := now; l_details := e_details e;
              l_compliance := match e_compliance e with None | Some EmptyString => "GENERAL"%string | Some c => c end;
              l_notes := e_notes e; l_proof := None |} in
  if bool_decide (e_action e = DELETE) || bool_decide (e_action e = ARCHIVE)
  then with_proof (generateProof l) l else l.

Definition addToIndex (entity uid : string) (ix : list (string * list string)) : list (string * list string) :=
  map_set entity (set_add uid (default [] (map_get entity ix))) ix.

Definition logAction (uid : string) (now : Z) (e : AuditLogEntry) (a : audit) : audit :=
  let l := new_log uid now e in
  {| auditLogs := map_set uid l (auditLogs a); logQueue := logQueue a ++ [l];
     logIndex := addToIndex (e_entityId e) uid (logIndex a) |}.

Definition getLogsForEntity (entity : string) (a : audit) : list ComplianceAuditLog :=
  match map_get entity (logIndex a) with
  | None => []
  | Some ids => sort_by l_timestamp (omap (fun i => map_get i (auditLogs a)) ids)
  end.

Definition text_matches (f : option string) (s : string) : bool :=
  match f with None | Some EmptyString => true | Some x => String.eqb s x end.
Definition matches {B} `{EqDecision B} (f : option B) (b : B) : bool :=
  match f with None => true | Some x => bool_decide (b = x) end.

Definition in_filter (f : AuditLogFilter) (l : ComplianceAuditLog) : bool :=
  text_matches (f_entityId f) (l_entityId l) && matches (f_entityType f) (l_entityType l) &&
  matches (f_action f) (l_action l) && text_matches (f_actor f) (l_actor l) &&
  text_matches (f_compliance f) (l_compliance l) &&
  match f_startDate f with None => true | Some t => t <=? l_timestamp l end &&
  match f_endDate f with None => true | Some t => l_timestamp l <=? t end.

Definition queryLogs (f : AuditLogFilter) (a : audit) : list ComplianceAuditLog :=
  sort_by l_timestamp (filter (fun l => in_filter f l = true) (map_values (auditLogs a))).

Definition exportLogs (f : option AuditLogFilter) (a : audit) : list ComplianceAuditLog :=
  sort_by l_timestamp (match f with Some f => queryLogs f a | None => map_values (auditLogs a) end).

(** ** The manager's state *)

Record manager : Type := {
  eng : engine;
  sts : stores L A;
  logs : audit;
  used : nat;
}.

Definition set_stores (s : stores L A) (m : manager) : manager :=
  {| eng := eng m; sts := s; logs := logs m; used := used m |}.
Definition set_engine (e : engine) (m : manager) : manager :=
  {| eng := e; sts := sts m; logs := logs m; used := used m |}.

(** One audit entry of the manager, under a fresh id. *)
Definition record_action (now : Z) (entity : string) (ty : DataEntityType) (act : RetentionAction) (actor : string)
    (details : list (string * value)) (m : manager) : manager :=
  {| eng := eng m; sts := sts m;
     logs := logAction (fresh (used m)) now
       {| e_entityId := entity; e_entityType := ty; e_action := act; e_actor := actor; e_details := details;
          e_compliance := Some (complianceStandard config); e_notes := None |} (logs m);
     used := S (used m) |}.

(** ** [DataArchivalService] *)

Definition shouldEncryptArchive (c : DataClassification) (policyRequires : bool) : bool :=
  if negb (encryptionEnabled config) then false
  else if bool_decide (c = RESTRICTED) || bool_decide (c = CONFIDENTIAL) then true
  else policyRequires.

Definition policy_of (d : RetainedData) (e : engine) : option RetentionPolicy :=
  match retentionPolicyId d with None | Some EmptyString => None | Some i => getPolicy i e end.

Definition archive_type (d : RetainedData) (e : engine) : ArchivalStorageType :=
  match policy_of d e with Some p => p_archivalType p | None => COLD_STORAGE end.

Definition archive_encrypted (o : option ArchivalOptions) (d : RetainedData) (e : engine) : bool :=
  shouldEncryptArchive (classification d) (match policy_of d e with Some p => p_encryptArchive p | None => true end) ||
  default false (o ≫= o_encrypted).

Definition archive_metadata (o : option ArchivalOptions) (d : RetainedData) (e : engine) : list (string * value) :=
  spread_fields (map_set "encrypted"%string (VBool (archive_encrypted o d e)) (default [] (metadata d)))
                (default [] (o ≫= o_metadata)).

(** The record written to the archive. *)
Definition archived_record (now : Z) (o : option ArchivalOptions) (d : RetainedData) (e : engine) : RetainedData :=
  {| id := id d; entityType := entityType d; data := data d; classification := classification d;
     createdAt := createdAt d; expiresAt := expiresAt d; archivedAt := Some now;
     archivedLocation := match o ≫= o_location with
                         | None | Some EmptyString => Some (generateArchiveLocation now d (archive_type d e))
                         | Some l => Some l
                         end;
     isArchived := true; retentionPolicyId := retentionPolicyId d;
     metadata := Some (archive_metadata o d e) |}.

Definition service_archiveData (now : Z) (o : option ArchivalOptions) (d : RetainedData) (m : manager)
  : result string ArchivalResult * manager :=
  if isArchived d then (Err ("Data " +:+ id d +:+ " is already archived")%string, m)
  else match store (archived_record now o d (eng m)) (archive_type d (eng m)) (sts m) with
       | Err e => (Err ("Failed to archive data " +:+ id d +:+ ": " +:+ e)%string, m)
       | Ok s => (Ok {| ar_dataId := id d; ar_archivedAt := now; ar_location := id d;
                        ar_encrypted := archive_encrypted o d (eng m);
                        ar_metadata := archive_metadata o d (eng m) |}, set_stores s m)
       end.

Definition unarchived (d : RetainedData) : RetainedData :=
  {| id := id d; entityType := entityType d; data := data d; classification := classification d;
     createdAt := createdAt d; expiresAt := expiresAt d; archivedAt := None; archivedLocation := None;
     isArchived := false; retentionPolicyId := retentionPolicyId d; metadata := metadata d |}.

Definition service_restoreArchivedData (i : string) (from : ArchivalStorageType) (m : manager)
  : result string RetainedData * manager :=
  match retrieve i from (sts m) with
  | None => (Err ("Archived data not found: " +:+ i)%string, m)
  | Some d =>
      match moveData i from LOCAL (sts m) with
      | (Err e, s) => (Err e, set_stores s m)
      | (Ok false, s) => (Err ("Failed to restore data " +:+ i +:+ " from archive")%string, set_stores s m)
      | (Ok true, s) => (Ok (unarchived d), set_stores s m)
      end
  end.

Definition getArchivedData (i : string) (from : ArchivalStorageType) (m : manager) : option RetainedData :=
  retrieve i from (sts m).

Definition permanentlyDeleteArchived (i : string) (from : ArchivalStorageType) (m : manager) : bool * manager :=
  let '(b, s) := delete i from (sts m) in (b, set_stores s m).

(** The records of all providers, each id once. *)
Fixpoint dedupe (seen : list string) (l : list RetainedData) : list RetainedData :=
  match l with
  | [] => []
  | d :: l' => if bool_decide (id d ∈ seen) then dedupe seen l' else d :: dedupe (id d :: seen) l'
  end.

Definition paginate (limit : option nat) (offset : nat) (l : list RetainedData) : list RetainedData :=
  match limit with Some n => take n (drop offset l) | None => drop offset l end.

Definition listArchivedData (t : option ArchivalStorageType) (limit : option nat) (offset : nat) (m : manager)
  : list RetainedData :=
  match t with
  | Some t => paginate limit offset (filter (fun d => resolveStorageType d = Some t) (list_provider t (sts m)))
  | None => paginate limit offset (dedupe [] (flat_map (fun t => list_provider t (sts m)) storage_types))
  end.

(** ** [DataRetentionManager] *)

Record DataInput : Type := {
  in_entityType : DataEntityType;
  in_data : value;
  in_classification : DataClassification;
  in_createdAt : option Z;
  in_metadata : option (list (string * value));
}.

Definition new_data (uid : string) (x : DataInput) (policyId : option string) : RetainedData :=
  {| id := uid; entityType := in_entityType x; data := in_data x; classification := in_classification x;
     createdAt := in_createdAt x; expiresAt := None; archivedAt := None; archivedLocation := None;
     isArchived := false; retentionPolicyId := policyId; metadata := in_metadata x |}.

Definition with_expiry (e : option Z) (d : RetainedData) : RetainedData :=
  {| id := id d; entityType := entityType d; data := data d; classification := classification d;
     createdAt := createdAt d; expiresAt := e; archivedAt := archivedAt d;
     archivedLocation := archivedLocation d; isArchived := isArchived d;
     retentionPolicyId := retentionPolicyId d; metadata := metadata d |}.

Definition opt_text (s : option string) : list (string * value) :=
  match s with Some s => [("policyId"%string, VString s)] | None => [] end.
Definition json_date (d : option Z) : value := match d with Some t => VString (iso t) | None => VNull end.

Definition take_id (m : manager) : string * manager :=
  (fresh (used m), {| eng := eng m; sts := sts m; logs := logs m; used := S (used m) |}).

Definition storeData (now : Z) (x : DataInput) (policyId : option string) (actor : string) (m : manager)
  : result string (RetainedData * option RetentionPolicy) * manager :=
  let '(uid, m1) := take_id m in
  let d0 := new_data uid x policyId in
  let d := with_expiry (calculateExpirationDate d0 (eng m1)) d0 in
  match store d LOCAL (sts m1) with
  | Err e => (Err ("Failed to store data: " +:+ e)%string, m1)
  | Ok s =>
      (Ok (d, policy_of d (eng m1)),
       record_action now uid (entityType d) CREATE actor
         ([("classification"%string, VString (classification_text (classification d)))] ++ opt_text policyId ++
          [("expiresAt"%string, json_date (expiresAt d))]) (set_stores s m1))
  end.

Definition retrieveData (i : string) (m : manager) : option RetainedData := retrieve i LOCAL (sts m).

Definition getRetentionStatus (now : Z) (i : string) (m : manager) : option RetentionStatus :=
  determineRetentionStatus now <$> retrieveData i m.

Definition createRetentionPolicy (now : Z) (c : PolicyConfig) (m : manager) : result string RetentionPolicy * manager :=
  let '(uid, m1) := take_id m in
  match createPolicy uid now c (eng m1) with
  | (Err e, s) => (Err e, set_engine s m1)
  | (Ok p, s) =>
      (Ok p, record_action now (p_id p) CONTRACT POLICY_APPLIED "system"
         [("policyName", VString (p_name p)); ("period", VString (period_text (p_period p)));
          ("classification", VString (classification_text (p_classification p)))]%string (set_engine s m1))
  end.

(** The local record after archival. *)
Definition marked (now : Z) (location : string) (d : RetainedData) : RetainedData :=
  {| id := id d; entityType := entityType d; data := data d; classification := classification d;
     createdAt := createdAt d; expiresAt := expiresAt d; archivedAt := Some now;
     archivedLocation := Some location; isArchived := true; retentionPolicyId := retentionPolicyId d;
     metadata := metadata d |}.

Definition archiveData (now : Z) (i actor : string) (m : manager) : result string ArchivalResult * manager :=
  match retrieveData i m with
  | None => (Err ("Data not found: " +:+ i)%string, m)
  | Some d =>
      if isArchived d then (Err ("Data " +:+ i +:+ " is already archived")%string, m)
      else if negb (shouldArchive now d) then (Err ("Data " +:+ i +:+ " does not meet archival criteria")%string, m)
      else match service_archiveData now None d m with
           | (Err e, m1) => (Err ("Failed to archive data: " +:+ e)%string, m1)
           | (Ok r, m1) =>
               match store (marked (ar_archivedAt r) (ar_location r) d) LOCAL (sts m1) with
               | Err e => (Err ("Failed to archive data: " +:+ e)%string, m1)
               | Ok s =>
                   (Ok r, record_action now i (entityType d) ARCHIVE actor
                      [("location", VString (ar_location r)); ("encrypted", VBool (ar_encrypted r));
                       ("classification", VString (classification_text (classification d)))]%string
                      (set_stores s m1))
               end
           end
  end.

Definition restoreArchivedData (now : Z) (i actor : string) (m : manager) : result string RetainedData * manager :=
  match service_restoreArchivedData i COLD_STORAGE m with
  | (Err e, m1) => (Err e, m1)
  | (Ok d, m1) =>
      match store d LOCAL (sts m1) with
      | Err e => (Err e, m1)
      | Ok s => (Ok d, record_action now i (entityType d) RESTORE actor
                   [("classification"%string, VString (classification_text (classification d)))] (set_stores s m1))
      end
  end.

Definition deleteData (now : Z) (i actor : string) (m : manager) : result string bool * manager :=
  match match retrieveData i m with Some d => Some d | None => getArchivedData i COLD_STORAGE m end with
  | None => (Err ("Data not found: " +:+ i)%string, m)
  | Some d =>
      let '(inLocal, s1) := delete i LOCAL (sts m) in
      let '(cold, s2) := delete i COLD_STORAGE s1 in
      let '(inArchive, s3) := if cold then (true, s2) else delete i ENCRYPTED_ARCHIVE s2 in
      let m1 := set_stores s3 m in
      if inLocal || inArchive then
        (Ok true, record_action now i (entityType d) DELETE actor
           [("classification", VString (classification_text (classification d))); ("wasArchived", VBool (isArchived d));
            ("deletedFromLocal", VBool inLocal); ("deletedFromArchive", VBool inArchive)]%string m1)
      else (Ok false, m1)
  end.

Record check_counts : Type := { archived : Z; deleted : Z; failed : Z }.

Definition count_archived (c : check_counts) : check_counts :=
  {| archived := archived c + 1; deleted := deleted c; failed := failed c |}.
Definition count_deleted (c : check_counts) : check_counts :=
  {| archived := archived c; deleted := deleted c + 1; failed := failed c |}.
Definition count_failed (c : check_counts) : check_counts :=
  {| archived := archived c; deleted := deleted c; failed := failed c + 1 |}.

Definition archive_step (now : Z) (acc : check_counts * manager) (d : RetainedData) : check_counts * manager :=
  if negb (isArchived d) && shouldArchive now d then
    match archiveData now (id d) "system-autoprocess" acc.2 with
    | (Ok _, m') => (count_archived acc.1, m')
    | (Err _, m') => (count_failed acc.1, m')
    end
  else acc.

Definition delete_step (now : Z) (acc : check_counts * manager) (d : RetainedData) : check_counts * manager :=
  if isArchived d && shouldPermanentlyDelete now (postArchivalRetentionDays config) d then
    match deleteData now (id d) "system-autoprocess" acc.2 with
    | (Ok _, m') => (count_deleted acc.1, m')
    | (Err _, m') => (count_failed acc.1, m')
    end
  else acc.

Definition archive_pass (now : Z) (acc : check_counts * manager) : check_counts * manager :=
  if automaticArchival config then foldl (archive_step now) acc (list_provider LOCAL (sts acc.2)) else acc.

Definition delete_pass (now : Z) (acc : check_counts * manager) : check_counts * manager :=
  if automaticDeletion config then
    foldl (fun acc t => foldl (delete_step now) acc (list_provider t (sts acc.2))) acc [COLD_STORAGE; ENCRYPTED_ARCHIVE]
  else acc.

Definition runRetentionChecks (now : Z) (m : manager) : check_counts * manager :=
  let zero := {| archived := 0; deleted := 0; failed := 0 |} in
  if negb (enabled config) then (zero, m) else delete_pass now (archive_pass now (zero, m)).

(** ** Purge *)

Definition expired_local (now : Z) (d : RetainedData) : bool :=
  negb (isArchived d) && match expiresAt d with Some e => e <? now | None => false end.

Definition expired_archive (now days : Z) (d : RetainedData) : bool :=
  isArchived d && match archivedAt d with Some t => days * DAY_MS <? now - t | None => false end.

(** Candidates of one archive storage type, skipping ids already counted. *)
Definition count_archive (now days : Z) (seen : list string) (l : list RetainedData) : Z * list string :=
  foldl (fun acc d =>
    if bool_decide (id d ∈ acc.2) then acc
    else if expired_archive now days d then (acc.1 + 1, id d :: acc.2) else acc) (0, seen) l.

Definition countPurgeCandidates (now days : Z) (s : stores L A) : list (string * Z) :=
  let n := Z.of_nat (length (filter (fun d => expired_local now d = true) (list_provider LOCAL s))) in
  let '(n1, seen1) := count_archive now days [] (list_provider COLD_STORAGE s) in
  let '(n2, _) := count_archive now days seen1 (list_provider ENCRYPTED_ARCHIVE s) in
  [("local_data", n); ("cold_storage", n1); ("encrypted_archive", n2)]%string.

Record PurgeResult : Type := {
  dryRun : bool;
  candidates : list (string * Z);
  purged : Z;
  purge_failed : Z;
}.

Definition purge_one (t : ArchivalStorageType) (d : RetainedData) (acc : Z * stores L A) : Z * stores L A :=
  let '(b, s) := delete (id d) t acc.2 in ((if b : bool then acc.1 + 1 else acc.1), s).

Definition purge_local (now : Z) (acc : Z * stores L A) : Z * stores L A :=
  foldl (fun acc d => if expired_local now d then purge_one LOCAL d acc else acc) acc (list_provider LOCAL acc.2).

Definition purge_archive (now days : Z) (t : ArchivalStorageType) (acc : Z * list string * stores L A)
  : Z * list string * stores L A :=
  foldl (fun acc d =>
    let '(n, seen, s) := acc in
    if bool_decide (id d ∈ seen) then acc
    else if expired_archive now days d then
      let '(n', s') := purge_one t d (n, s) in (n', id d :: seen, s')
    else acc) acc (list_provider t acc.2).

(** Deletions of a provider never throw, so nothing is counted as failed. *)
Definition executePurge (now days : Z) (dry : bool) (s : stores L A) : PurgeResult * stores L A :=
  let cs := countPurgeCandidates now days s in
  if dry then ({| dryRun := true; candidates := cs; purged := 0; purge_failed := 0 |}, s)
  else
    let '(n, s1) := purge_local now (0, s) in
    let '(n2, _, s2) := purge_archive now days ENCRYPTED_ARCHIVE
                          (purge_archive now days COLD_STORAGE (n, [], s1)) in
    ({| dryRun := false; candidates := cs; purged := n2; purge_failed := 0 |}, s2).

(** ** The invariant: nothing is archived before it expires *)

Definition after_expiry (d : RetainedData) : Prop :=
  exists e t, expiresAt d = Some e /\ archivedAt d = Some t /\ e <= t.

Definition local_fine (d : RetainedData) : Prop :=
  (is_Some (expiresAt d) -> is_Some (createdAt d)) /\ (isArchived d = true -> after_expiry d).

Definition archive_fine (d : RetainedData) : Prop :=
  is_Some (createdAt d) /\ isArchived d = true /\ after_expiry d.

Record fine (s : stores L A) : Prop := {
  fine_ok : stores_ok s;
  fine_local : map_Forall (fun _ d => local_fine d) (lview s);
  fine_archive : map_Forall (fun _ d => archive_fine d) (aview s);
}.

Lemma local_fine_same d d' : same_record d d' -> local_fine d -> local_fine d'.
Proof.
  intros (_ & _ & _ & Hc & He & Ha & _ & Hi & _). unfold local_fine, after_expiry. by rewrite Hc, He, Ha, Hi.
Qed.

Lemma archive_fine_same d d' : same_record d d' -> archive_fine d -> archive_fine d'.
Proof.
  intros (_ & _ & _ & Hc & He & Ha & _ & Hi & _). unfold archive_fine, after_expiry. by rewrite Hc, He, Ha, Hi.
Qed.

Lemma archive_fine_local d : archive_fine d -> local_fine d.
Proof. intros (Hc & Hi & He). by split. Qed.

Lemma store_fine d t s s' :
  fine s -> (if is_archive t then archive_fine d else local_fine d) -> store d t s = Ok s' -> fine s'.
Proof.
  intros [Hs Hl Ha] Hd E. destruct (store_views d t s s' Hs E) as [Hs' V]. destruct (is_archive t).
  - injection V as V1 V2. split; [done|by rewrite V1|]. rewrite V2. apply map_Forall_insert_2; [|done].
    eapply archive_fine_same; [apply image_same|done].
  - injection V as V1 V2. split; [done| |by rewrite V2]. rewrite V1. apply map_Forall_insert_2; [|done].
    eapply local_fine_same; [apply image_same|done].
Qed.

Lemma delete_fine i t s : fine s -> fine (delete i t s).2.
Proof.
  intros [Hs Hl Ha]. destruct (delete_views i t s Hs) as (_ & Hs' & V). destruct (is_archive t).
  - injection V as V1 V2. split; [done|by rewrite V1|]. rewrite V2. by apply map_Forall_delete.
  - injection V as V1 V2. split; [done| |by rewrite V2]. rewrite V1. by apply map_Forall_delete.
Qed.

Lemma moveData_fine i s : fine s -> fine (moveData i COLD_STORAGE LOCAL s).2.
Proof.
  intros Hs. unfold moveData. destruct (retrieve i COLD_STORAGE s) as [d|] eqn:Er; [|done].
  rewrite retrieve_view in Er by apply Hs.
  destruct (store d LOCAL s) as [s1|] eqn:Es; [|done].
  assert (Hs1 : fine s1).
  { eapply store_fine; [done| |done]. simpl. apply archive_fine_local. exact (fine_archive s Hs i d Er). }
  destruct (String.eqb (id d) EmptyString); [done|]. by apply delete_fine.
Qed.

Lemma archived_record_fine now o d e :
  local_fine d -> shouldArchive now d = true -> archive_fine (archived_record now o d e).
Proof.
  intros [Hc _]. unfold shouldArchive. destruct (isArchived d); [done|].
  destruct (expiresAt d) as [x|] eqn:Hx; [|done]. intros Hle%Z.leb_le.
  split; [by apply Hc|]. split; [done|]. exists x, now. done.
Qed.

Lemma marked_fine now l d : local_fine d -> shouldArchive now d = true -> local_fine (marked now l d).
Proof.
  intros [Hc _]. unfold shouldArchive. destruct (isArchived d); [done|].
  destruct (expiresAt d) as [x|] eqn:Hx; [|done]. intros Hle%Z.leb_le.
  split; [simpl; rewrite Hx; exact Hc|]. intros _. exists x, now. done.
Qed.

Lemma service_archive_fine now o d m :
  fine (sts m) -> local_fine d -> shouldArchive now d = true -> fine (sts (service_archiveData now o d m).2).
Proof.
  intros Hm Hd Hdue. unfold service_archiveData. destruct (isArchived d); [done|].
  destruct (store _ _ _) as [s|] eqn:E; [|done]. simpl. eapply store_fine; [exact Hm| |exact E].
  pose proof (archived_record_fine now o d (eng m) Hd Hdue) as Hf.
  destruct (is_archive _); [done|]. by apply archive_fine_local.
Qed.

Lemma service_archive_inv now o d m r m1 :
  service_archiveData now o d m = (Ok r, m1) ->
  ar_archivedAt r = now /\ ar_location r = id d /\
  exists s, store (archived_record now o d (eng m)) (archive_type d (eng m)) (sts m) = Ok s /\ m1 = set_stores s m.
Proof.
  unfold service_archiveData. destruct (isArchived d); [done|].
  destruct (store _ _ _) as [s|] eqn:E; [|done]. intros [= <- <-]. eauto.
Qed.

Lemma archiveData_fine now i actor m : fine (sts m) -> fine (sts (archiveData now i actor m).2).
Proof.
  intros Hm. unfold archiveData, retrieveData. destruct (retrieve i LOCAL (sts m)) as [d|] eqn:Er; [|done].
  rewrite retrieve_view in Er by apply Hm. pose proof (fine_local _ Hm i d Er) as Hd. simpl in Hd.
  destruct (isArchived d) eqn:Ha; [done|]. destruct (shouldArchive now d) eqn:Hdue; [|done]. simpl.
  pose proof (service_archive_fine now None d m Hm Hd Hdue) as H1.
  destruct (service_archiveData now None d m) as [[r|e] m1] eqn:Ea; [|done]. simpl in H1.
  apply service_archive_inv in Ea as (Hr & _ & _).
  destruct (store _ LOCAL _) as [s|] eqn:Es; [|done]. simpl.
  eapply store_fine; [exact H1| |exact Es]. rewrite Hr. by apply marked_fine.
Qed.

Lemma restore_fine now i actor m : fine (sts m) -> fine (sts (restoreArchivedData now i actor m).2).
Proof.
  intros Hm. unfold restoreArchivedData, service_restoreArchivedData.
  destruct (retrieve i COLD_STORAGE (sts m)) as [d|] eqn:Er; [|done].
  rewrite retrieve_view in Er by apply Hm. destruct (fine_archive _ Hm i d Er) as (Hc & _ & _).
  pose proof (moveData_fine i _ Hm) as Hs.
  destruct (moveData i COLD_STORAGE LOCAL (sts m)) as [[[]|e] s]; [|done..]. simpl in *.
  destruct (store (unarchived d) LOCAL s) as [s'|] eqn:E; [|done]. simpl.
  eapply store_fine; [exact Hs| |exact E]. by split.
Qed.

Lemma deleteData_stores now i actor m :
  sts (deleteData now i actor m).2 =
  match retrieveData i m, getArchivedData i COLD_STORAGE m with
  | None, None => sts m
  | _, _ => (delete i COLD_STORAGE (delete i LOCAL (sts m)).2).2
  end \/ sts (deleteData now i actor m).2 =
    (delete i ENCRYPTED_ARCHIVE (delete i COLD_STORAGE (delete i LOCAL (sts m)).2).2).2.
Proof.
  unfold deleteData. destruct (retrieveData i m) as [d|]; [|destruct (getArchivedData i COLD_STORAGE m) as [d|]; [|by left]].
  - destruct (delete i LOCAL (sts m)) as [b1 s1]. simpl. destruct (delete i COLD_STORAGE s1) as [[] s2]; simpl.
    + rewrite orb_true_r. by left.
    + destruct (delete i ENCRYPTED_ARCHIVE s2) as [b3 s3]. right. by destruct (b1 || b3).
  - destruct (delete i LOCAL (sts m)) as [b1 s1]. simpl. destruct (delete i COLD_STORAGE s1) as [[] s2]; simpl.
    + rewrite orb_true_r. by left.
    + destruct (delete i ENCRYPTED_ARCHIVE s2) as [b3 s3]. right. by destruct (b1 || b3).
Qed.

Lemma deleteData_fine now i actor m : fine (sts m) -> fine (sts (deleteData now i actor m).2).
Proof.
  intros Hm. destruct (deleteData_stores now i actor m) as [-> | ->]; [|by repeat apply delete_fine].
  repeat case_match; by repeat apply delete_fine.
Qed.

Lemma storeData_fine now x p actor m : fine (sts m) -> fine (sts (storeData now x p actor m).2).
Proof.
  intros Hm. unfold storeData. simpl. destruct (store _ LOCAL _) as [s|] eqn:E; [|done]. simpl.
  eapply store_fine; [exact Hm| |exact E]. split; [|done]. simpl. unfold calculateExpirationDate. simpl.
  destruct (in_createdAt x); [by eexists|]. by intros [? ?].
Qed.

(** Folding a step that keeps a property of the state keeps it. *)
Lemma foldl_keeps {B C} (P : B -> Prop) (f : B -> C -> B) l b :
  (forall b c, P b -> P (f b c)) -> P b -> P (foldl f b l).
Proof. intros Hf. revert b. induction l as [|c l IH]; intros b Hb; simpl; auto. Qed.

Lemma archive_step_fine now acc d : fine (sts acc.2) -> fine (sts (archive_step now acc d).2).
Proof.
  intros H. unfold archive_step. destruct (_ && _); [|done].
  pose proof (archiveData_fine now (id d) "system-autoprocess" _ H).
  by destruct (archiveData now (id d) "system-autoprocess" acc.2) as [[] ?].
Qed.

Lemma delete_step_fine now acc d : fine (sts acc.2) -> fine (sts (delete_step now acc d).2).
Proof.
  intros H. unfold delete_step. destruct (_ && _); [|done].
  pose proof (deleteData_fine now (id d) "system-autoprocess" _ H).
  by destruct (deleteData now (id d) "system-autoprocess" acc.2) as [[] ?].
Qed.

Lemma archive_pass_fine now acc : fine (sts acc.2) -> fine (sts (archive_pass now acc).2).
Proof.
  intros H. unfold archive_pass. destruct (automaticArchival config); [|done].
  apply (foldl_keeps (fun acc => fine (sts acc.2))); [|done]. intros; by apply archive_step_fine.
Qed.

Lemma checks_fine now m : fine (sts m) -> fine (sts (runRetentionChecks now m).2).
Proof.
  intros H. unfold runRetentionChecks. destruct (enabled config); [|done]. cbn [negb].
  unfold delete_pass. destruct (automaticDeletion config); [|by apply archive_pass_fine].
  apply (foldl_keeps (fun acc => fine (sts acc.2))); [|by apply archive_pass_fine].
  intros b t Hb. apply (foldl_keeps (fun acc => fine (sts acc.2))); [|done]. intros; by apply delete_step_fine.
Qed.

Lemma purge_one_fine t d acc : fine acc.2 -> fine (purge_one t d acc).2.
Proof. intros H. unfold purge_one. pose proof (delete_fine (id d) t _ H). by destruct (delete (id d) t acc.2). Qed.

Lemma purge_archive_fine now days t acc : fine acc.2 -> fine (purge_archive now days t acc).2.
Proof.
  intros H. unfold purge_archive. apply (foldl_keeps (fun a => fine a.2)); [|done].
  intros [[n seen] s] d Hs. simpl in *. case_bool_decide; [done|]. destruct (expired_archive now days d); [|done].
  pose proof (purge_one_fine t d (n, s) Hs). by destruct (purge_one t d (n, s)).
Qed.

Lemma executePurge_fine now days dry s : fine s -> fine (executePurge now days dry s).2.
Proof.
  intros H. unfold executePurge. destruct dry; [done|].
  assert (H1 : fine (purge_local now (0, s)).2).
  { apply (foldl_keeps (fun a => fine a.2)); [|done]. intros b d Hb.
    destruct (expired_local now d); [by apply purge_one_fine|done]. }
  destruct (purge_local now (0, s)) as [n s1]. simpl in H1.
  pose proof (purge_archive_fine now days ENCRYPTED_ARCHIVE _ (purge_archive_fine now days COLD_STORAGE (n, [], s1) H1)) as H2.
  by destruct (purge_archive now days ENCRYPTED_ARCHIVE _) as [[n2 seen] s2].
Qed.

(** ** Runs of the manager *)

Inductive op : Type :=
| OStore (now : Z) (x : DataInput) (policyId : option string) (actor : string)
| OPolicy (now : Z) (c : PolicyConfig)
| OEngine (o : Policies.op)
| OArchive (now : Z) (i actor : string)
| ORestore (now : Z) (i actor : string)
| ODeleteData (now : Z) (i actor : string)
| OChecks (now : Z)
| OPurge (now days : Z) (dry : bool).

Definition exec (o : op) (m : manager) : manager :=
  match o with
  | OStore now x p a => (storeData now x p a m).2
  | OPolicy now c => (createRetentionPolicy now c m).2
  | OEngine o => set_engine (Policies.exec o (eng m)) m
  | OArchive now i a => (archiveData now i a m).2
  | ORestore now i a => (restoreArchivedData now i a m).2
  | ODeleteData now i a => (deleteData now i a m).2
  | OChecks now => (runRetentionChecks now m).2
  | OPurge now days dry => set_stores (executePurge now days dry (sts m)).2 m
  end.

Definition run (ops : list op) (m : manager) : manager := foldl (fun m o => exec o m) m ops.

Lemma retention_exec_fine o m : fine (sts m) -> fine (sts (exec o m)).
Proof.
  intros H. destruct o as [now x p a|now c|o|now i a|now i a|now i a|now|now days dry]; simpl.
  - by apply storeData_fine.
  - unfold createRetentionPolicy. simpl. by destruct (createPolicy _ _ _ _) as [[] ?].
  - done.
  - by apply archiveData_fine.
  - by apply restore_fine.
  - by apply deleteData_fine.
  - by apply checks_fine.
  - by apply executePurge_fine.
Qed.

(** ** What archiving and deleting do to the stores *)

Lemma due_dates now d : local_fine d -> shouldArchive now d = true -> dates_valid d /\ isArchived d = false.
Proof.
  intros [Hc _]. unfold shouldArchive. destruct (isArchived d); [done|].
  destruct (expiresAt d) as [e|] eqn:E; [|done]. intros _. split; [|done].
  unfold dates_valid. rewrite E. split; [|by eexists]. apply Hc. by eexists.
Qed.

Lemma archiveData_effect now i actor m d :
  fine (sts m) -> lview (sts m) !! i = Some d -> shouldArchive now d = true ->
  exists r m', archiveData now i actor m = (Ok r, m') /\ eng m' = eng m /\
    lview (sts m') = <[i := limage (L:=L) (marked now i d)]> (lview (sts m)) /\
    aview (sts m') = if is_archive (archive_type d (eng m))
                     then <[i := aimage (A:=A) (archived_record now None d (eng m))]> (aview (sts m))
                     else aview (sts m).
Proof.
  intros Hm Hd Hdue. pose proof (fine_local _ Hm i d Hd) as Hf. simpl in Hf.
  destruct (due_dates now d Hf Hdue) as [Hv Ha].
  assert (Hid : id d = i) by exact (view_id _ _ _ (proj1 (fine_ok _ Hm)) Hd).
  unfold archiveData, retrieveData. rewrite retrieve_view by apply Hm. simpl. rewrite Hd, Ha, Hdue. simpl.
  unfold service_archiveData. rewrite Ha.
  destruct (store_total (archived_record now None d (eng m)) (archive_type d (eng m)) (sts m) (fine_ok _ Hm) Hv) as [s1 E1].
  rewrite E1. destruct (store_views _ _ _ _ (fine_ok _ Hm) E1) as [Hs1 V1]. simpl in V1. cbn [ar_archivedAt ar_location].
  rewrite Hid in *.
  destruct (store_total (marked now i d) LOCAL s1 Hs1 Hv) as [s2 E2]. cbn [sts set_stores]. rewrite E2.
  destruct (store_views _ _ _ _ Hs1 E2) as [Hs2 V2]. simpl in V2. rewrite Hid in V2. injection V2 as V2a V2b.
  eexists _, _. split; [reflexivity|]. split; [done|]. cbn [sts record_action set_stores]. rewrite V2a, V2b.
  destruct (is_archive (archive_type d (eng m))); injection V1 as -> ->; [by split|]. by rewrite insert_insert_eq.
Qed.

Lemma deleteData_effect now i actor m :
  fine (sts m) -> is_Some (lview (sts m) !! i) \/ is_Some (aview (sts m) !! i) ->
  exists m', deleteData now i actor m = (Ok true, m') /\ eng m' = eng m /\
    lview (sts m') = base.delete i (lview (sts m)) /\ aview (sts m') = base.delete i (aview (sts m)).
Proof.
  intros Hm Hsome. unfold deleteData, retrieveData, getArchivedData.
  rewrite !retrieve_view by apply Hm. simpl.
  destruct (match lview (sts m) !! i with Some d => Some d | None => aview (sts m) !! i end) as [d|] eqn:Ed; cycle 1.
  { exfalso. destruct (lview (sts m) !! i); [done|]. destruct Hsome as [[? ?]|[? ?]]; congruence. }
  clear Ed. destruct (delete_views i LOCAL (sts m) (fine_ok _ Hm)) as (B1 & O1 & V1).
  destruct (delete i LOCAL (sts m)) as [b1 s1]. simpl in *. injection V1 as V1a V1b.
  destruct (delete_views i COLD_STORAGE s1 O1) as (B2 & O2 & V2).
  destruct (delete i COLD_STORAGE s1) as [b2 s2]. simpl in *. injection V2 as V2a V2b. rewrite V1b in B2, V2b. rewrite V1a in V2a.
  destruct b2.
  - rewrite orb_true_r. eexists. split; [reflexivity|]. simpl. by rewrite V2a, V2b.
  - destruct (delete_views i ENCRYPTED_ARCHIVE s2 O2) as (B3 & O3 & V3).
    destruct (delete i ENCRYPTED_ARCHIVE s2) as [b3 s3]. simpl in *. injection V3 as V3a V3b.
    symmetry in B2. apply bool_decide_eq_false in B2.
    assert (b1 = true) as ->. { rewrite B1. apply bool_decide_eq_true. by destruct Hsome. }
    simpl. eexists. split; [reflexivity|]. simpl. rewrite V3a, V3b, V2a, V2b. split; [done|]. split; [done|].
    by rewrite delete_delete_eq.
Qed.

(** The stores agree at an id. *)
Definition kept (i : string) (m m' : manager) : Prop :=
  lview (sts m') !! i = lview (sts m) !! i /\ aview (sts m') !! i = aview (sts m) !! i.

Definition archived_now (now : Z) (i : string) (d : RetainedData) (m m' : manager) : Prop :=
  lview (sts m') !! i = Some (limage (L:=L) (marked now i d)) /\
  (aview (sts m') !! i = aview (sts m) !! i \/
   exists a, aview (sts m') !! i = Some a /\ isArchived a = true /\ archivedAt a = Some now).

Definition gone (i : string) (m' : manager) : Prop :=
  lview (sts m') !! i = None /\ aview (sts m') !! i = None.

Lemma kept_trans i m1 m2 m3 : kept i m1 m2 -> kept i m2 m3 -> kept i m1 m3.
Proof. intros [A1 B1] [A2 B2]. split; congruence. Qed.

Lemma archive_step_effect now c m d :
  fine (sts m) -> lview (sts m) !! id d = Some d ->
  exists c' m', archive_step now (c, m) d = (c', m') /\ fine (sts m') /\
    failed c' = failed c /\ deleted c' = deleted c /\
    (forall i, i <> id d -> kept i m m') /\
    (if shouldArchive now d then archived_now now (id d) d m m' else m' = m).
Proof.
  intros Hm Hd. unfold archive_step. destruct (shouldArchive now d) eqn:Hdue; cycle 1.
  { rewrite andb_false_r. eexists _, _. split; [reflexivity|]. done. }
  assert (Ha : isArchived d = false) by (unfold shouldArchive in Hdue; by destruct (isArchived d)).
  rewrite Ha. cbn [negb andb snd fst].
  pose proof (archiveData_fine now (id d) "system-autoprocess" m Hm) as Hf.
  destruct (archiveData_effect now (id d) "system-autoprocess" m d Hm Hd Hdue) as (r & m' & E & _ & VL & VA).
  rewrite E in *. eexists _, _. split; [reflexivity|]. split; [done|]. split; [done|]. split; [done|]. split.
  - intros i Hi. unfold kept. rewrite VL, VA. rewrite lookup_insert_ne by done.
    destruct (is_archive _); [by rewrite lookup_insert_ne|done].
  - unfold archived_now. rewrite VL, VA, lookup_insert_eq. split; [done|].
    destruct (is_archive _); [|by left]. right. rewrite lookup_insert_eq. eexists. split; [done|].
    destruct (image_same (P := A) (archived_record now None d (eng m))) as (_ & _ & _ & _ & _ & Hat & _ & Hia & _).
    unfold aimage. by rewrite Hat, Hia.
Qed.

Lemma archive_loop_effect now l c m :
  fine (sts m) -> NoDup (id <$> l) -> Forall (fun d => lview (sts m) !! id d = Some d) l ->
  exists c' m', foldl (archive_step now) (c, m) l = (c', m') /\ fine (sts m') /\
    failed c' = failed c /\ deleted c' = deleted c /\
    (forall i, i ∉ id <$> l -> kept i m m') /\
    Forall (fun d => if shouldArchive now d then archived_now now (id d) d m m' else kept (id d) m m') l.
Proof.
  revert c m. induction l as [|d l IH]; intros c m Hm Hnd Hall.
  { exists c, m. done. }
  apply Forall_cons in Hall as [Hd Hall]. rewrite fmap_cons in Hnd. apply NoDup_cons in Hnd as [Hnin Hnd].
  destruct (archive_step_effect now c m d Hm Hd) as (c1 & m1 & E1 & F1 & X1 & Y1 & K1 & A1).
  assert (Hne : forall e, e ∈ l -> id e <> id d).
  { intros e He Heq. apply Hnin. rewrite <- Heq. by apply list_elem_of_fmap_2. }
  destruct (IH c1 m1 F1 Hnd) as (c2 & m2 & E2 & F2 & X2 & Y2 & K2 & A2).
  { apply Forall_forall. intros e He. destruct (K1 (id e) (Hne e He)) as [-> _]. by eapply Forall_forall in Hall. }
  exists c2, m2. simpl. rewrite E1. split; [done|]. split; [done|]. split; [congruence|]. split; [congruence|]. split.
  - intros i Hi. apply not_elem_of_cons in Hi. destruct Hi as [Hi1 Hi2].
    eapply kept_trans; [by apply K1|by apply K2].
  - apply Forall_cons. destruct (K2 (id d) Hnin) as [Kl Ka]. split.
    + destruct (shouldArchive now d); [|subst m1; by split].
      destruct A1 as [Hl Har]. unfold archived_now. rewrite Kl, Ka. done.
    + apply Forall_forall. intros e He. eapply Forall_forall in A2; [|exact He].
      destruct (K1 (id e) (Hne e He)) as [Kl' Ka']. simpl in A2. unfold archived_now, kept in *.
      by rewrite <- Kl', <- Ka'.
Qed.

Lemma delete_step_effect now c m d :
  fine (sts m) -> aview (sts m) !! id d = Some d ->
  exists c' m', delete_step now (c, m) d = (c', m') /\ fine (sts m') /\ failed c' = failed c /\
    (forall i, i <> id d -> kept i m m') /\
    (if shouldPermanentlyDelete now (postArchivalRetentionDays config) d then gone (id d) m' else m' = m).
Proof.
  intros Hm Hd. unfold delete_step.
  destruct (shouldPermanentlyDelete now (postArchivalRetentionDays config) d) eqn:Hdue; cycle 1.
  { rewrite andb_false_r. eexists _, _. split; [reflexivity|]. done. }
  assert (Ha : isArchived d = true) by (unfold shouldPermanentlyDelete in Hdue; by destruct (isArchived d)).
  rewrite Ha. cbn [andb snd fst].
  pose proof (deleteData_fine now (id d) "system-autoprocess" m Hm) as Hf.
  destruct (deleteData_effect now (id d) "system-autoprocess" m Hm) as (m' & E & _ & VL & VA); [right; by eexists|].
  rewrite E in *. eexists _, _. split; [reflexivity|]. split; [done|]. split; [done|]. split.
  - intros i Hi. unfold kept. by rewrite VL, VA, !lookup_delete_ne.
  - unfold gone. by rewrite VL, VA, !lookup_delete_eq.
Qed.

Definition delete_due (now : Z) (d : RetainedData) : Prop :=
  shouldPermanentlyDelete now (postArchivalRetentionDays config) d = true.

Lemma delete_loop_effect now l c m :
  fine (sts m) -> NoDup (id <$> l) -> Forall (fun d => aview (sts m) !! id d = Some d) l ->
  exists c' m', foldl (delete_step now) (c, m) l = (c', m') /\ fine (sts m') /\ failed c' = failed c /\
    (forall i, kept i m m' \/ (exists d, aview (sts m) !! i = Some d /\ delete_due now d /\ gone i m')).
Proof.
  revert c m. induction l as [|d l IH]; intros c m Hm Hnd Hall.
  { exists c, m. do 3 (split; [done|]). intros i. by left. }
  apply Forall_cons in Hall as [Hd Hall]. rewrite fmap_cons in Hnd. apply NoDup_cons in Hnd as [Hnin Hnd].
  destruct (delete_step_effect now c m d Hm Hd) as (c1 & m1 & E1 & F1 & X1 & K1 & A1).
  assert (Hne : forall e, e ∈ l -> id e <> id d).
  { intros e He Heq. apply Hnin. rewrite <- Heq. by apply list_elem_of_fmap_2. }
  destruct (IH c1 m1 F1 Hnd) as (c2 & m2 & E2 & F2 & X2 & K2).
  { apply Forall_forall. intros e He. destruct (K1 (id e) (Hne e He)) as [_ ->]. by eapply Forall_forall in Hall. }
  exists c2, m2. simpl. rewrite E1. split; [done|]. split; [done|]. split; [congruence|].
  intros i. destruct (decide (i = id d)) as [->|Hi].
  - destruct (shouldPermanentlyDelete _ _ d) eqn:Hdue; [|subst m1; apply K2].
    right. exists d. split; [done|]. split; [done|]. destruct A1 as [Gl Ga].
    destruct (K2 (id d)) as [[KL KA]|(e & He & _)]; [split; congruence|congruence].
  - pose proof (K1 i Hi) as K. destruct (K2 i) as [K'|(e & He & Hdue & G)].
    + left. by eapply kept_trans.
    + right. exists e. split; [|done]. destruct K as [_ <-]. done.
Qed.

Lemma local_listing m :
  fine (sts m) -> NoDup (id <$> list_provider LOCAL (sts m)) /\
  Forall (fun d => lview (sts m) !! id d = Some d) (list_provider LOCAL (sts m)).
Proof.
  intros Hm. split; [apply list_ids_distinct, (fine_ok _ Hm)|].
  apply Forall_forall. intros d Hd. by apply list_local_elem in Hd; [|apply Hm].
Qed.

Lemma archive_listing m t :
  is_archive t = true -> fine (sts m) -> NoDup (id <$> list_provider t (sts m)) /\
  Forall (fun d => aview (sts m) !! id d = Some d) (list_provider t (sts m)).
Proof.
  intros Ht Hm. unfold list_provider. rewrite Ht. split; [apply list_ids_distinct, (fine_ok _ Hm)|].
  apply Forall_forall. intros d Hd. apply list_archive_elem; [apply Hm|done].
Qed.

(** Each id is untouched or freshly archived. *)
Lemma archive_pass_effect now c m :
  fine (sts m) ->
  exists c' m', archive_pass now (c, m) = (c', m') /\ fine (sts m') /\ failed c' = failed c /\
    (automaticArchival config = true -> forall i d, lview (sts m') !! i = Some d -> shouldArchive now d = false) /\
    (forall i, kept i m m' \/
       exists d, lview (sts m) !! i = Some d /\ shouldArchive now d = true /\ archived_now now i d m m').
Proof.
  intros Hm. unfold archive_pass. destruct (automaticArchival config); cycle 1.
  { exists c, m. do 3 (split; [done|]). split; [done|]. intros i. by left. }
  destruct (local_listing m Hm) as [Hnd Hall]. cbn [snd].
  destruct (archive_loop_effect now _ c m Hm Hnd Hall) as (c' & m' & E & F & X & _ & K & Ar).
  exists c', m'. split; [done|]. split; [done|]. split; [done|].
  assert (Hpt : forall i, kept i m m' /\ (forall d, lview (sts m) !! i = Some d -> shouldArchive now d = false) \/
     exists d, lview (sts m) !! i = Some d /\ shouldArchive now d = true /\ archived_now now i d m m').
  { intros i. destruct (decide (i ∈ id <$> list_provider LOCAL (sts m))) as [Hin|Hnin].
    - apply list_elem_of_fmap in Hin as (d & -> & Hd). eapply Forall_forall in Ar; [|exact Hd].
      eapply Forall_forall in Hall; [|exact Hd]. simpl in *. destruct (shouldArchive now d) eqn:Hdue.
      + right. by exists d.
      + left. split; [done|]. intros d' Hd'. rewrite Hall in Hd'. by simplify_eq.
    - left. split; [by apply K|]. intros d Hd. exfalso. apply Hnin. apply list_elem_of_fmap. exists d.
      assert (Hid : id d = i) by exact (view_id _ _ _ (proj1 (fine_ok _ Hm)) Hd). split; [done|].
      apply list_local_elem; [apply Hm|]. by rewrite Hid. }
  split.
  - intros _ i d Hd. destruct (Hpt i) as [[[Kl _] Hnot]|(d0 & _ & _ & Hl & _)]; [apply Hnot; congruence|].
    rewrite Hl in Hd. simplify_eq. unfold shouldArchive.
    destruct (image_same (P := L) (marked now i d0)) as (_ & _ & _ & _ & _ & _ & _ & Hia & _).
    unfold limage. by rewrite Hia.
  - intros i. destruct (Hpt i) as [[Hk _]|Hx]; [by left|by right].
Qed.

(** Each id is untouched or deleted, and deleted only when its archive copy is due. *)
Lemma delete_pass_effect now c m :
  fine (sts m) ->
  exists c' m', delete_pass now (c, m) = (c', m') /\ fine (sts m') /\ failed c' = failed c /\
    (forall i, kept i m m' \/ (exists d, aview (sts m) !! i = Some d /\ delete_due now d /\ gone i m')).
Proof.
  intros Hm. unfold delete_pass. destruct (automaticDeletion config); cycle 1.
  { exists c, m. do 3 (split; [done|]). intros i. by left. }
  cbn [foldl snd]. destruct (archive_listing m COLD_STORAGE eq_refl Hm) as [N1 A1].
  destruct (delete_loop_effect now _ c m Hm N1 A1) as (c1 & m1 & E1 & F1 & X1 & K1). rewrite E1. cbn [snd].
  destruct (archive_listing m1 ENCRYPTED_ARCHIVE eq_refl F1) as [N2 A2].
  destruct (delete_loop_effect now _ c1 m1 F1 N2 A2) as (c2 & m2 & E2 & F2 & X2 & K2). rewrite E2.
  exists c2, m2. split; [done|]. split; [done|]. split; [congruence|]. intros i.
  destruct (K1 i) as [K|(d & Hd & Hdue & [Gl Ga])].
  - destruct (K2 i) as [K'|(d & Hd & Hdue & G)]; [left; by eapply kept_trans|].
    right. exists d. split; [|done]. destruct K as [_ <-]. done.
  - right. exists d. split; [done|]. split; [done|].
    destruct (K2 i) as [[Kl Ka]|(d' & Hd' & _)]; [split; congruence|congruence].
Qed.

Lemma delete_due_after now d :
  delete_due now d -> exists t, archivedAt d = Some t /\ t + postArchivalRetentionDays config * DAY_MS <= now.
Proof.
  unfold delete_due, shouldPermanentlyDelete. destruct (isArchived d); [|done]. simpl.
  destruct (archivedAt d) as [t|]; [|done]. unfold new_date. destruct (Z.leb _ MAX_TIME); [|done].
  intros H%Z.leb_le. by exists t.
Qed.

(** ** Properties *)

(** In every run of the retention manager a record is marked archived, in
    either store, only after its expiry date, and the archive holds archived
    records only. *)
Theorem archived_only_after_expiry ops m : fine (sts m) -> fine (sts (run ops m)).
Proof. revert m. induction ops as [|o ops IH]; intros m Hm; [done|]. by apply IH, retention_exec_fine. Qed.

(** A pass of the automatic retention checks never fails on a record,
    leaves no local record due for archival, and loses nothing early: a local
    record stays as it was or becomes its archived form, an archived copy
    stays, and an id disappears only when its archive copy is older than the
    post-archival retention. *)
Theorem retention_checks_spec now m :
  fine (sts m) -> 0 < postArchivalRetentionDays config ->
  let expired i := exists a t, aview (sts m) !! i = Some a /\ archivedAt a = Some t /\
                               t + postArchivalRetentionDays config * DAY_MS <= now in
  let '(counts, m') := runRetentionChecks now m in
  failed counts = 0 /\
  (enabled config = true -> automaticArchival config = true ->
   forall i d, lview (sts m') !! i = Some d -> shouldArchive now d = false) /\
  (forall i d, lview (sts m) !! i = Some d ->
     lview (sts m') !! i = Some d \/ lview (sts m') !! i = Some (limage (L:=L) (marked now i d)) \/ expired i) /\
  (forall i a, aview (sts m) !! i = Some a -> is_Some (aview (sts m') !! i) \/ expired i).
Proof.
  intros Hm Hdays expired. unfold runRetentionChecks. destruct (enabled config); cbn [negb]; cycle 1.
  { split; [done|]. split; [done|]. split; intros i d Hd; left; [done|by eexists]. }
  destruct (archive_pass_effect now {| archived := 0; deleted := 0; failed := 0 |} m Hm)
    as (c1 & m1 & -> & F1 & X1 & D1 & P1).
  destruct (delete_pass_effect now c1 m1 F1) as (c2 & m2 & -> & F2 & X2 & P2).
  assert (Hgone : forall i d, aview (sts m1) !! i = Some d -> delete_due now d -> expired i).
  { intros i d Hd (t & Ht & Hle)%delete_due_after. destruct (P1 i) as [[_ Ka]|(d0 & _ & _ & _ & Hav)].
    - exists d, t. by rewrite <- Ka.
    - destruct Hav as [Ka|(a & Ha & _ & Hat)]; [exists d, t; by rewrite <- Ka|].
      rewrite Ha in Hd. simplify_eq. unfold DAY_MS in Hle. lia. }
  split; [rewrite X2, X1; done|]. split; [|split].
  - intros _ Haut i d Hd. destruct (P2 i) as [[Kl _]|(? & _ & _ & Gl & _)]; [|congruence].
    apply (D1 Haut i). congruence.
  - intros i d Hd. destruct (P2 i) as [[Kl _]|(d' & Hd' & Hdue & _)]; [|right; right; by eapply Hgone].
    rewrite Kl. destruct (P1 i) as [[Kl1 _]|(d0 & Hd0 & _ & Hl & _)]; [left; congruence|].
    right; left. rewrite Hl. by simplify_eq.
  - intros i a Ha. destruct (P2 i) as [[_ Ka]|(d' & Hd' & Hdue & _)]; [|right; by eapply Hgone].
    left. rewrite Ka. destruct (P1 i) as [[_ Ka1]|(d0 & _ & _ & _ & Hav)]; [rewrite Ka1; by eexists|].
    destruct Hav as [-> |(x & -> & _)]; by eexists.
Qed.

(** A record archived into the archive store and restored from it is back
    in local storage with its payload, dates, classification and policy,
    carrying the encryption mark in its metadata, and is no longer archived. *)
Theorem archive_restore_roundtrip now now' i a1 a2 m d :
  fine (sts m) -> i <> EmptyString -> lview (sts m) !! i = Some d -> shouldArchive now d = true ->
  is_archive (archive_type d (eng m)) = true ->
  let m1 := (archiveData now i a1 m).2 in
  let restored := unarchived (aimage (A:=A) (archived_record now None d (eng m))) in
  exists m2, restoreArchivedData now' i a2 m1 = (Ok restored, m2) /\
    lview (sts m2) = <[i := limage (L:=L) restored]> (lview (sts m)) /\
    aview (sts m2) = base.delete i (aview (sts m)) /\
    same_record (unarchived d) restored.
Proof.
  intros Hm Hi Hd Hdue Ht m1 restored.
  destruct (archiveData_effect now i a1 m d Hm Hd Hdue) as (r & m1' & E1 & _ & VL & VA).
  pose proof (archiveData_fine now i a1 m Hm) as F1. subst m1. rewrite E1 in F1 |- *. cbn [snd] in *. rewrite Ht in VA.
  set (a := aimage (A:=A) (archived_record now None d (eng m))) in *.
  assert (Ha : aview (sts m1') !! i = Some a) by by rewrite VA, lookup_insert_eq.
  assert (Hsame : same_record (unarchived d) restored).
  { destruct (image_same (P := A) (archived_record now None d (eng m))) as (S1 & S2 & S3 & S4 & S5 & _ & _ & _ & S9).
    unfold same_record, restored, a, aimage; simpl. by rewrite S1, S2, S3, S4, S5, S9. }
  unfold restoreArchivedData, service_restoreArchivedData. rewrite retrieve_view by apply F1. cbn [is_archive].
  rewrite Ha. pose proof (moveData_spec i COLD_STORAGE LOCAL (sts m1') a (fine_ok _ F1) Hi ltac:(done) Ha) as M.
  destruct (moveData i COLD_STORAGE LOCAL (sts m1')) as [[b|e] s].
  - destruct M as (-> & Hs & M). simpl in M. injection M as Ml Ma.
    assert (Hv : dates_valid restored).
    { destruct (due_dates now d (fine_local _ Hm i d Hd) Hdue) as [Hv _].
      destruct Hsame as (_ & _ & _ & S4 & S5 & _). unfold dates_valid in *. by rewrite S4, S5. }
    cbn [sts set_stores]. destruct (store_total restored LOCAL s Hs Hv) as [s2 E2].
    change (unarchived a) with restored. rewrite E2. eexists. split; [reflexivity|].
    destruct (store_views _ _ _ _ Hs E2) as [_ V2]. cbn [is_archive] in V2. injection V2 as V2l V2a.
    cbn [sts record_action set_stores]. rewrite V2l, V2a, Ml, Ma, VL, VA.
    assert (Hid : id a = i).
    { destruct Hsame as (S1 & _). etransitivity; [exact S1|]. exact (view_id _ _ _ (proj1 (fine_ok _ Hm)) Hd). }
    rewrite Hid, !insert_insert_eq. split; [done|]. split; [|done]. apply delete_insert_eq.
  - destruct M as [_ Hn]. destruct Hn. destruct (fine_archive _ F1 i a Ha) as (Hc & _ & (x & t & Hx & _)).
    split; [done|by rewrite Hx].
Qed.

(** ** The purge *)

Definition vw (t : ArchivalStorageType) (s : stores L A) : gmap string RetainedData :=
  if is_archive t then aview s else lview s.
Definition other (t : ArchivalStorageType) (s : stores L A) : gmap string RetainedData :=
  if is_archive t then lview s else aview s.

Definition drop_loop (f : RetainedData -> bool) (t : ArchivalStorageType) (l : list RetainedData)
    (acc : Z * stores L A) : Z * stores L A :=
  foldl (fun acc d => if f d then purge_one t d acc else acc) acc l.

Definition count (f : RetainedData -> bool) (l : list RetainedData) : Z :=
  Z.of_nat (length (filter (fun d => f d = true) l)).

Lemma count_cons f d l : count f (d :: l) = (if f d : bool then 1 else 0) + count f l.
Proof. unfold count. rewrite filter_cons. case_decide as H; [rewrite H; simpl; lia|]. apply not_true_is_false in H. by rewrite H. Qed.

Lemma count_perm f l l' : l ≡ₚ l' -> count f l = count f l'.
Proof. intros H. unfold count. by rewrite H. Qed.

Lemma purge_one_effect t d n s :
  stores_ok s -> vw t s !! id d = Some d ->
  exists s', purge_one t d (n, s) = (n + 1, s') /\ stores_ok s' /\ vw t s' = base.delete (id d) (vw t s) /\
    other t s' = other t s.
Proof.
  intros Hs Hd. unfold purge_one. cbn [snd]. destruct (delete_views (id d) t s Hs) as (B & O & V).
  destruct (delete (id d) t s) as [b s']. cbn [fst snd] in *. exists s'.
  assert (b = true) as ->. { rewrite B. apply bool_decide_eq_true. unfold vw in Hd. rewrite Hd. by eexists. }
  split; [done|]. split; [done|]. unfold vw, other. destruct (is_archive t); injection V as -> ->; done.
Qed.

Lemma drop_loop_effect f t l n s :
  stores_ok s -> NoDup (id <$> l) -> Forall (fun d => vw t s !! id d = Some d) l ->
  exists s', drop_loop f t l (n, s) = (n + count f l, s') /\ stores_ok s' /\ other t s' = other t s /\
    (forall i, i ∉ id <$> l -> vw t s' !! i = vw t s !! i) /\
    Forall (fun d => vw t s' !! id d = if f d then None else Some d) l.
Proof.
  revert n s. induction l as [|d l IH]; intros n s Hs Hnd Hall.
  { exists s. split; [|done]. unfold drop_loop, count. cbn. f_equal. lia. }
  apply Forall_cons in Hall as [Hd Hall]. rewrite fmap_cons in Hnd. apply NoDup_cons in Hnd as [Hnin Hnd].
  assert (Hne : forall e, e ∈ l -> id e <> id d).
  { intros e He Heq. apply Hnin. rewrite <- Heq. by apply list_elem_of_fmap_2. }
  assert (Hstep : exists s1, (if f d then purge_one t d (n, s) else (n, s)) = (n + (if f d then 1 else 0), s1) /\
            stores_ok s1 /\ other t s1 = other t s /\ (forall i, i <> id d -> vw t s1 !! i = vw t s !! i) /\
            vw t s1 !! id d = if f d then None else Some d).
  { destruct (f d).
    - destruct (purge_one_effect t d n s Hs Hd) as (s1 & E & O & V & W). exists s1. rewrite V.
      split; [done|]. split; [done|]. split; [done|]. split; [intros i Hi; by rewrite lookup_delete_ne|apply lookup_delete_eq].
    - exists s. by rewrite Z.add_0_r. }
  destruct Hstep as (s1 & E1 & O1 & W1 & K1 & D1).
  destruct (IH (n + (if f d then 1 else 0)) s1 O1 Hnd) as (s2 & E2 & O2 & W2 & K2 & D2).
  { apply Forall_forall. intros e He. rewrite K1 by by apply Hne. by eapply Forall_forall in Hall. }
  exists s2. unfold drop_loop in *. cbn [foldl]. rewrite E1, E2, count_cons. split; [f_equal; lia|]. split; [done|].
  split; [congruence|]. split.
  - intros i [Hi1 Hi2]%not_elem_of_cons. rewrite K2 by done. by apply K1.
  - apply Forall_cons. split; [by rewrite K2|done].
Qed.

Definition surviving (f : RetainedData -> bool) (d : RetainedData) : option RetainedData :=
  if f d then None else Some d.

(** A whole listing: the provider loses exactly the records of the test. *)
Lemma drop_listing f t n s :
  stores_ok s ->
  exists s', drop_loop f t (list_provider t s) (n, s) = (n + count f (list_provider t s), s') /\ stores_ok s' /\
    other t s' = other t s /\ (forall i, vw t s' !! i = vw t s !! i ≫= surviving f).
Proof.
  intros Hs.
  assert (Hlist : forall d, d ∈ list_provider t s <-> vw t s !! id d = Some d).
  { intros d. unfold vw. destruct t; [by apply list_local_elem|by apply list_local_elem|by apply list_archive_elem|by apply list_archive_elem]. }
  assert (Hnd : NoDup (id <$> list_provider t s)).
  { destruct Hs as [Hl Ha]. unfold list_provider. destruct (is_archive t); by apply list_ids_distinct. }
  destruct (drop_loop_effect f t (list_provider t s) n s Hs Hnd) as (s' & E & O & W & K & D).
  { apply Forall_forall. intros d. by rewrite Hlist. }
  exists s'. do 3 (split; [done|]). intros i.
  destruct (vw t s !! i) as [d|] eqn:Hd; simpl.
  - assert (Hid : id d = i).
    { unfold vw in Hd. destruct Hs as [Hl Ha].
      destruct (is_archive t); [exact (view_id _ _ _ Ha Hd)|exact (view_id _ _ _ Hl Hd)]. }
    assert (Hin : d ∈ list_provider t s) by (apply Hlist; by rewrite Hid).
    eapply Forall_forall in D; [|exact Hin]. by rewrite <- Hid.
  - rewrite K; [done|]. intros (d & -> & Hin)%list_elem_of_fmap. apply Hlist in Hin. congruence.
Qed.

Lemma listing_perm t s s' : stores_ok s -> stores_ok s' -> vw t s = vw t s' -> list_provider t s ≡ₚ list_provider t s'.
Proof.
  intros [Hl Ha] [Hl' Ha'] V. unfold list_provider, vw, lview, aview in *. destruct (is_archive t).
  - by rewrite (list_law _ Ha), (list_law _ Ha'), V.
  - by rewrite (list_law _ Hl), (list_law _ Hl'), V.
Qed.

Lemma purge_archive_drop now days t l n seen s :
  NoDup (id <$> l) -> (forall d, d ∈ l -> id d ∉ seen) ->
  exists seen', foldl (fun acc d =>
    let '(n, seen, s) := acc in
    if bool_decide (id d ∈ seen) then acc
    else if expired_archive now days d then
      let '(n', s') := purge_one t d (n, s) in (n', id d :: seen, s')
    else acc) (n, seen, s) l =
  let '(n', s') := drop_loop (expired_archive now days) t l (n, s) in (n', seen', s').
Proof.
  revert n seen s. induction l as [|d l IH]; intros n seen s Hnd Hseen; [by exists seen|].
  rewrite fmap_cons in Hnd. apply NoDup_cons in Hnd as [Hnin Hnd].
  unfold drop_loop. cbn [foldl]. rewrite bool_decide_eq_false_2 by (apply Hseen; left).
  destruct (expired_archive now days d).
  - destruct (purge_one t d (n, s)) as [n1 s1]. apply IH; [done|]. intros e He.
    rewrite not_elem_of_cons. split; [|apply Hseen; by right].
    intros Heq. apply Hnin. rewrite <- Heq. by apply list_elem_of_fmap_2.
  - apply IH; [done|]. intros e He. apply Hseen. by right.
Qed.

Lemma purge_archive_nothing now days t n seen s :
  (forall d, d ∈ list_provider t s -> expired_archive now days d = false) ->
  purge_archive now days t (n, seen, s) = (n, seen, s).
Proof.
  intros H. unfold purge_archive. cbn [snd]. induction (list_provider t s) as [|d l IH]; [done|].
  cbn [foldl]. rewrite (H d) by left. destruct (bool_decide (id d ∈ seen)); apply IH; intros e He; apply H; by right.
Qed.

Lemma count_archive_first now days seen l :
  NoDup (id <$> l) -> (forall d, d ∈ l -> id d ∉ seen) ->
  (count_archive now days seen l).1 = count (expired_archive now days) l /\
  (forall d, d ∈ l -> expired_archive now days d = true -> id d ∈ (count_archive now days seen l).2).
Proof.
  unfold count_archive. intros Hnd Hseen.
  assert (G : forall k, (foldl (fun acc d =>
    if bool_decide (id d ∈ acc.2) then acc
    else if expired_archive now days d then (acc.1 + 1, id d :: acc.2) else acc) (k, seen) l).1 =
      k + count (expired_archive now days) l /\
    (forall i, i ∈ seen \/ (exists d, d ∈ l /\ id d = i /\ expired_archive now days d = true) ->
       i ∈ (foldl (fun acc d =>
    if bool_decide (id d ∈ acc.2) then acc
    else if expired_archive now days d then (acc.1 + 1, id d :: acc.2) else acc) (k, seen) l).2)).
  { clear -Hnd Hseen. revert seen Hnd Hseen. induction l as [|d l IH]; intros seen Hnd Hseen k.
    { split; [unfold count; simpl; lia|]. intros i [Hi|(d & Hd & _)]; [done|by apply elem_of_nil in Hd]. }
    rewrite fmap_cons in Hnd. apply NoDup_cons in Hnd as [Hnin Hnd].
    cbn [foldl fst snd]. rewrite bool_decide_eq_false_2 by (apply Hseen; left). rewrite count_cons.
    destruct (expired_archive now days d) eqn:E.
    - destruct (IH (id d :: seen) Hnd) with (k := k + 1) as [G1 G2].
      { intros e He. rewrite not_elem_of_cons. split; [|apply Hseen; by right].
        intros Heq. apply Hnin. rewrite <- Heq. by apply list_elem_of_fmap_2. }
      split; [rewrite G1; lia|]. intros i [Hi|(e & He & <- & Hx)].
      + apply G2. left. by right.
      + apply G2. apply elem_of_cons in He as [-> |He]; [left; left|right; eauto].
    - destruct (IH seen Hnd) with (k := k) as [G1 G2].
      { intros e He. apply Hseen. by right. }
      split; [rewrite G1; lia|]. intros i [Hi|(e & He & <- & Hx)]; apply G2; [by left|].
      right. apply elem_of_cons in He as [-> |He]; [congruence|eauto]. }
  destruct (G 0) as [G1 G2]. split; [exact G1|]. intros d Hd He. apply G2. right. eauto.
Qed.

Lemma count_archive_second now days seen l :
  (forall d, d ∈ l -> expired_archive now days d = true -> id d ∈ seen) -> (count_archive now days seen l) = (0, seen).
Proof.
  unfold count_archive. intros H. induction l as [|d l IH]; [done|]. cbn [foldl fst snd].
  destruct (bool_decide (id d ∈ seen)) eqn:E; [apply IH; intros e He; apply H; by right|].
  destruct (expired_archive now days d) eqn:Ex; [|apply IH; intros e He; apply H; by right].
  apply bool_decide_eq_false in E. destruct E. apply H; [left|done].
Qed.

(** C19: a dry run changes nothing and predicts the purge: the real purge on the
    same data deletes as many records as the dry run counted, and exactly the
    expired local records and the archive records past their retention. *)
Theorem dry_run_predicts_purge now days s :
  stores_ok s ->
  let '(dry, s0) := executePurge now days true s in
  let '(real, s') := executePurge now days false s in
  s0 = s /\ candidates dry = candidates real /\ purged real = foldr Z.add 0 (snd <$> candidates dry) /\
  (forall i, lview s' !! i = lview s !! i ≫= surviving (expired_local now)) /\
  (forall i, aview s' !! i = aview s !! i ≫= surviving (expired_archive now days)).
Proof.
  intros Hs. unfold executePurge. cbn [candidates purged].
  destruct (drop_listing (expired_local now) LOCAL 0 s Hs) as (s1 & E1 & O1 & W1 & V1).
  change (purge_local now (0, s)) with (drop_loop (expired_local now) LOCAL (list_provider LOCAL s) (0, s)).
  rewrite E1. unfold vw in V1. cbn [is_archive] in V1.
  destruct (drop_listing (expired_archive now days) COLD_STORAGE (0 + count (expired_local now) (list_provider LOCAL s)) s1 O1)
    as (s2 & E2 & O2 & W2 & V2). unfold vw in V2. cbn [is_archive] in V2.
  rewrite (count_perm (expired_archive now days) (list_provider COLD_STORAGE s1) (list_provider COLD_STORAGE s)) in E2
    by (by apply listing_perm).
  unfold purge_archive at 2. cbn [snd].
  destruct (purge_archive_drop now days COLD_STORAGE (list_provider COLD_STORAGE s1)
    (0 + count (expired_local now) (list_provider LOCAL s)) [] s1) as (seen & Ep).
  { apply list_ids_distinct, O1. }
  { intros d _. apply not_elem_of_nil. }
  rewrite Ep, E2, purge_archive_nothing; cycle 1.
  { intros d Hd. apply (list_archive_elem _ _ O2) in Hd. rewrite V2 in Hd.
    destruct (aview s1 !! id d) as [d'|]; [|done]. simpl in Hd. unfold surviving in Hd.
    by destruct (expired_archive now days d') eqn:Ex; simplify_eq. }
  unfold countPurgeCandidates.
  destruct (count_archive_first now days [] (list_provider COLD_STORAGE s)) as [C1 S1].
  { apply list_ids_distinct, Hs. }
  { intros d _. apply not_elem_of_nil. }
  destruct (count_archive now days [] (list_provider COLD_STORAGE s)) as [n1 seen1]. cbn [fst snd] in C1, S1.
  rewrite (count_archive_second now days seen1 (list_provider ENCRYPTED_ARCHIVE s)) by exact S1.
  split; [done|]. split; [done|]. split; [rewrite C1; cbn [fmap list_fmap foldr snd candidates purged]; unfold count; lia|]. split; intros i.
  - unfold other in W2. simpl in W2. rewrite W2. apply V1.
  - unfold other in W1. simpl in W1. rewrite <- W1. apply V2.
Qed.

(** ** The audit log *)

Section Audit.
Context (fresh_inj : Inj (=) (=) fresh).

Definition proved (l : ComplianceAuditLog) : Prop :=
  l_action l = DELETE \/ l_action l = ARCHIVE -> l_proof l = Some (generateProof l).

Record audit_ok (n : nat) (a : audit) : Prop := {
  log_keys : forall i l, (i, l) ∈ auditLogs a -> l_id l = i /\ proved l /\ exists k, (k < n)%nat /\ i = fresh k;
  log_index : forall e, default [] (map_get e (logIndex a)) =
                        l_id <$> filter (fun l => l_entityId l = e) (map_values (auditLogs a));
  log_wf : wf (auditLogs a);
}.

Lemma audit_ok_more n a : audit_ok n a -> audit_ok (S n) a.
Proof.
  intros [H1 H2 H3]. split; [|done..]. intros i l Hin. destruct (H1 i l Hin) as (? & ? & k & ? & ?).
  split; [done|]. split; [done|]. exists k. split; [lia|done].
Qed.

Lemma new_log_facts uid now e :
  l_id (new_log uid now e) = uid /\ l_entityId (new_log uid now e) = e_entityId e /\ proved (new_log uid now e).
Proof.
  unfold new_log, proved. destruct (e_action e) eqn:E; simpl; (split; [done|]); (split; [done|]);
    rewrite ?E; intros [|]; done.
Qed.

Lemma logAction_ok n now e a : audit_ok n a -> audit_ok (S n) (logAction (fresh n) now e a).
Proof.
  intros [H1 H2 H3]. destruct (new_log_facts (fresh n) now e) as (Fid & Fen & Fpr).
  assert (Hnew : map_get (fresh n) (auditLogs a) = None).
  { destruct (map_get (fresh n) (auditLogs a)) as [l|] eqn:E; [|done]. apply map_get_elem_of, H1 in E.
    destruct E as (_ & _ & k & Hk & Heq). apply (inj fresh) in Heq. lia. }
  unfold logAction. rewrite (map_set_None _ _ _ Hnew). split; simpl.
  - intros i l [Hin|Hin]%elem_of_app.
    + destruct (H1 i l Hin) as (? & ? & k & ? & ?). split; [done|]. split; [done|]. exists k. split; [lia|done].
    + apply list_elem_of_singleton in Hin. simplify_eq. split; [done|]. split; [done|]. exists n. split; [lia|done].
  - intros x. unfold map_values. rewrite fmap_app, filter_app, fmap_app. cbn [fmap list_fmap snd].
    rewrite filter_cons, filter_nil, Fen. unfold addToIndex.
    destruct (decide (e_entityId e = x)) as [->|Hne].
    + rewrite map_get_set_eq. simpl. rewrite H2. unfold set_add. rewrite Fid.
      rewrite bool_decide_eq_false_2; [done|]. intros (l & Hl & Hin)%list_elem_of_fmap.
      apply list_elem_of_filter in Hin as [_ Hin]. apply (elem_of_map_values _ _ H3) in Hin as [j Hj].
      destruct (H1 j l (map_get_elem_of _ _ _ Hj)) as (Hjl & _ & k & Hk & Heq). rewrite <- Hl in Hjl. subst j. apply (inj fresh) in Heq. lia.
    + rewrite map_get_set_ne by done. rewrite H2. simpl. by rewrite app_nil_r.
  - unfold wf in *. rewrite <- (map_set_None _ _ (new_log (fresh n) now e) Hnew). by apply wf_set.
Qed.

Lemma record_action_ok now i ty act actor ds m :
  audit_ok (used m) (logs m) -> audit_ok (used (record_action now i ty act actor ds m)) (logs (record_action now i ty act actor ds m)).
Proof. intros H. by apply logAction_ok. Qed.

Definition logged (m : manager) : Prop := audit_ok (used m) (logs m).

Lemma logged_record now i ty act actor ds m : logged m -> logged (record_action now i ty act actor ds m).
Proof. apply record_action_ok. Qed.

Lemma service_archive_logged now o d m : logged m -> logged (service_archiveData now o d m).2.
Proof. intros H. unfold service_archiveData. by repeat case_match. Qed.

Lemma archiveData_logged now i actor m : logged m -> logged (archiveData now i actor m).2.
Proof.
  intros H. unfold archiveData. destruct (retrieveData i m) as [d|]; [|done].
  destruct (isArchived d); [done|]. destruct (negb _); [done|].
  pose proof (service_archive_logged now None d m H) as H1.
  destruct (service_archiveData now None d m) as [[r|e] m1]; [|done].
  destruct (store _ LOCAL _); [|done]. by apply logged_record.
Qed.

Lemma deleteData_logged now i actor m : logged m -> logged (deleteData now i actor m).2.
Proof.
  intros H. unfold deleteData.
  destruct (match retrieveData i m with Some d => Some d | None => _ end) as [d|]; [|done].
  destruct (delete i LOCAL (sts m)) as [b1 s1]. destruct (delete i COLD_STORAGE s1) as [b2 s2].
  destruct (if b2 then _ else _) as [b3 s3]. destruct (b1 || b3); [|done]. by apply logged_record.
Qed.

Lemma retention_exec_logged o m : logged m -> logged (exec o m).
Proof.
  intros H. destruct o as [now x p a|now c|o|now i a|now i a|now i a|now|now days dry]; simpl; try done.
  - unfold storeData. simpl. destruct (store _ LOCAL _); [apply logged_record|]; by apply audit_ok_more.
  - unfold createRetentionPolicy. simpl. destruct (createPolicy _ _ _ _) as [[] ?]; [apply logged_record|]; by apply audit_ok_more.
  - by apply archiveData_logged.
  - unfold restoreArchivedData, service_restoreArchivedData. destruct (retrieve _ _ _); [|done].
    destruct (moveData _ _ _ _) as [[[]|] s]; [|done..]. destruct (store _ LOCAL _); [|done]. by apply logged_record.
  - by apply deleteData_logged.
  - unfold runRetentionChecks. destruct (negb _); [done|]. unfold delete_pass, archive_pass.
    assert (Ha : forall acc d, logged acc.2 -> logged (archive_step now acc d).2).
    { intros acc d Hl. unfold archive_step. destruct (_ && _); [|done].
      pose proof (archiveData_logged now (id d) "system-autoprocess" _ Hl).
      by destruct (archiveData now (id d) "system-autoprocess" acc.2) as [[] ?]. }
    assert (Hd : forall acc d, logged acc.2 -> logged (delete_step now acc d).2).
    { intros acc d Hl. unfold delete_step. destruct (_ && _); [|done].
      pose proof (deleteData_logged now (id d) "system-autoprocess" _ Hl).
      by destruct (deleteData now (id d) "system-autoprocess" acc.2) as [[] ?]. }
    assert (H1 : logged (if automaticArchival config
      then foldl (archive_step now) ({| archived := 0; deleted := 0; failed := 0 |}, m) (list_provider LOCAL (sts m))
      else ({| archived := 0; deleted := 0; failed := 0 |}, m)).2).
    { destruct (automaticArchival config); [|done]. by apply (foldl_keeps (fun acc => logged acc.2)). }
    destruct (automaticDeletion config); [|done].
    apply (foldl_keeps (fun acc => logged acc.2)); [|done]. intros b t Hb. by apply (foldl_keeps (fun acc => logged acc.2)).
Qed.

Lemma retention_run_logged ops m : logged m -> logged (run ops m).
Proof. revert m. induction ops as [|o ops IH]; intros m H; [done|]. by apply IH, retention_exec_logged. Qed.

Definition by_entity (e : string) : AuditLogFilter :=
  {| f_entityId := Some e; f_entityType := None; f_action := None; f_actor := None; f_compliance := None;
     f_startDate := None; f_endDate := None |}.

(** The ids of stored entries look their entries up again. *)
Lemma omap_ids (a : list (string * ComplianceAuditLog)) (P : ComplianceAuditLog -> Prop) `{!forall x, Decision (P x)} :
  wf a -> (forall i l, (i, l) ∈ a -> l_id l = i) ->
  omap (fun i => map_get i a) (l_id <$> filter P (map_values a)) = filter P (map_values a).
Proof.
  intros Hw Hid. assert (G : forall ls : list ComplianceAuditLog, (forall l, l ∈ ls -> map_get (l_id l) a = Some l) ->
    omap (fun i => map_get i a) (l_id <$> ls) = ls).
  { induction ls as [|l ls IH]; intros Hg; [done|]. cbn. rewrite (Hg l) by left. f_equal. apply IH.
    intros l' Hl'. apply Hg. by right. }
  apply G. intros l [_ Hl]%list_elem_of_filter. apply (elem_of_map_values _ _ Hw) in Hl as [i Hi].
  rewrite (Hid i l (map_get_elem_of _ _ _ Hi)). done.
Qed.

(** The audit trail is complete and provable: in every run of the manager,
    the indexed trail of an entity is the same list as a scan of the whole log
    for that entity, and every archive or delete entry carries a proof that
    verifies. *)
Theorem audit_trail_complete (hmac_nonempty : forall k t, hmac k t <> []) ops m e :
  logged m -> e <> EmptyString ->
  getLogsForEntity e (logs (run ops m)) = queryLogs (by_entity e) (logs (run ops m)) /\
  forall i l, map_get i (auditLogs (logs (run ops m))) = Some l ->
    l_action l = DELETE \/ l_action l = ARCHIVE -> verifyProof l = true.
Proof.
  intros Hm He. destruct (retention_run_logged ops m Hm) as [H1 H2 H3].
  set (a := logs (run ops m)) in *. split.
  - assert (Hq : filter (fun l => in_filter (by_entity e) l = true) (map_values (auditLogs a)) =
                 filter (fun l => l_entityId l = e) (map_values (auditLogs a))).
    { apply list_filter_iff. intros l. unfold in_filter, by_entity; simpl. destruct e as [|c e]; [done|].
      simpl. rewrite !andb_true_r. apply String.eqb_eq. }
    unfold queryLogs. rewrite Hq. unfold getLogsForEntity. specialize (H2 e).
    assert (Ho := omap_ids (auditLogs a) (fun l => l_entityId l = e) H3 (fun i l Hi => proj1 (H1 i l Hi))).
    destruct (map_get e (logIndex a)) as [ids|]; simpl in H2; rewrite <- H2 in Ho.
    + by rewrite Ho.
    + simpl in Ho. by rewrite <- Ho.
  - intros i l Hl%map_get_elem_of Hact. destruct (H1 i l Hl) as (_ & Hp & _). unfold verifyProof.
    rewrite (Hp Hact). unfold generateProof. destruct (hmac _ _) eqn:E; [by apply hmac_nonempty in E|].
    by rewrite <- E, bool_decide_eq_true_2.
Qed.
End Audit.

(** Data whose policy archives to local or cloud storage is marked archived
    in local storage only: no archive copy is written, so the restore operation
    does not find it. *)
Theorem local_archive_unrestorable now now' i a1 a2 m d :
  fine (sts m) -> lview (sts m) !! i = Some d -> aview (sts m) !! i = None -> shouldArchive now d = true ->
  is_archive (archive_type d (eng m)) = false ->
  is_ok (archiveData now i a1 m).1 = true /\
  (restoreArchivedData now' i a2 (archiveData now i a1 m).2).1 = Err ("Archived data not found: " +:+ i)%string.
Proof.
  intros Hm Hd Ha Hdue Ht.
  destruct (archiveData_effect now i a1 m d Hm Hd Hdue) as (r & m1 & E1 & _ & VL & VA).
  pose proof (archiveData_fine now i a1 m Hm) as F1. rewrite E1 in *. cbn [fst snd is_ok] in *. split; [done|].
  unfold restoreArchivedData, service_restoreArchivedData. rewrite retrieve_view by apply F1. cbn [is_archive].
  by rewrite VA, Ht, Ha.
Qed.

End Retention.

(** ** Witnesses *)

Definition sample_hmac (k : string) (t : list ascii) : list ascii := ["a"%char].
Definition sample_iso (t : Z) : string := pretty t.
Definition sample_number (n : number) : list ascii := ["0"%char].
Definition sample_fresh (n : nat) : string := pretty (N.of_nat n).
Definition sample_config : RetentionConfig :=
  {| enabled := true; automaticArchival := true; automaticDeletion := true; postArchivalRetentionDays := 30;
     complianceStandard := "GDPR"; encryptionEnabled := true |}.
Definition one_record : manager (L := Memory.provider) (A := Memory.provider) :=
  {| eng := empty_engine;
     sts := {| local := {| Memory.storage := [("d1", Policies.sample_data None)]%string |};
               archive := {| Memory.storage := [] |} |};
     logs := empty_audit; used := 0 |}.
Notation sample_run := (run sample_hmac "s" sample_iso sample_number sample_fresh sample_config).
Notation sample_archive := (archiveData sample_hmac "s" sample_iso sample_number sample_fresh sample_config).
Notation sample_restore := (restoreArchivedData sample_hmac "s" sample_iso sample_number sample_fresh sample_config).

Lemma singleton_lookup (k : string) (d : RetainedData) i x :
  to_gmap [(k, d)] !! i = Some x -> x = d.
Proof. rewrite to_gmap_lookup. simpl. case_decide; [|done]. by intros [= <-]. Qed.

Lemma nothing_lookup i (x : RetainedData) : to_gmap (K := string) [] !! i = Some x -> False.
Proof. by rewrite to_gmap_lookup. Qed.

Lemma one_record_fine : fine (sts one_record).
Proof.
  split; [split; [apply memory_one_ok|apply memory_none_ok]|..].
  - intros i d ->%singleton_lookup. split; [by eexists|done].
  - intros i d []%nothing_lookup.
Qed.

Lemma one_record_logged : logged sample_hmac "s" sample_iso sample_number sample_fresh one_record.
Proof. split; [by intros i l ?%elem_of_nil|done|apply wf_nil]. Qed.

#[export] Instance sample_fresh_inj : Inj (=) (=) sample_fresh.
Proof. intros a b H. apply (inj pretty) in H. lia. Qed.

Lemma archived_only_after_expiry_witness :
  fine (sts (sample_run [OArchive 2000 "d1" "u"; OChecks 5000; ORestore 6000 "d1" "u"]%string one_record)).
Proof. apply (archived_only_after_expiry sample_hmac "s" sample_iso sample_number sample_fresh sample_config), one_record_fine. Defined.

Lemma retention_checks_spec_witness :
  failed (runRetentionChecks sample_hmac "s" sample_iso sample_number sample_fresh sample_config 2000 one_record).1 = 0.
Proof.
  pose proof (retention_checks_spec sample_hmac "s" sample_iso sample_number sample_fresh sample_config 2000 one_record
    one_record_fine ltac:(done)) as H.
  destruct (runRetentionChecks _ _ _ _ _ _ 2000 one_record) as [c m']. apply H.
Defined.

Lemma archive_restore_roundtrip_witness :
  exists m2, (sample_restore 3000 "d1" "u" (sample_archive 2000 "d1" "u" one_record).2).2 = m2 /\
    aview (sts m2) = base.delete "d1"%string (aview (sts one_record)).
Proof.
  destruct (archive_restore_roundtrip sample_hmac "s" sample_iso sample_number sample_fresh sample_config
    2000 3000 "d1" "u" "u" one_record (Policies.sample_data None) one_record_fine) as (m2 & E & _ & V & _); [done..|].
  exists m2. by rewrite E.
Defined.

Lemma dry_run_predicts_purge_witness :
  let s := sts one_record in
  purged (executePurge 2000 30 false s).1 = foldr Z.add 0 (snd <$> candidates (executePurge 2000 30 true s).1).
Proof.
  pose proof (dry_run_predicts_purge 2000 30 (sts one_record) (fine_ok _ one_record_fine)) as H.
  cbv zeta. destruct (executePurge 2000 30 true (sts one_record)) as [dry s0].
  destruct (executePurge 2000 30 false (sts one_record)) as [real s']. apply H.
Defined.

Lemma audit_trail_complete_witness :
  let a := logs (sample_run [OArchive 2000 "d1" "u"; ODeleteData 3000 "d1" "u"]%string one_record) in
  getLogsForEntity "d1" a = queryLogs (by_entity "d1") a /\ length (getLogsForEntity "d1" a) = 2%nat.
Proof.
  split; [|vm_compute; reflexivity].
  apply (audit_trail_complete sample_hmac "s" sample_iso sample_number sample_fresh sample_config sample_fresh_inj
    ltac:(done) _ one_record "d1" one_record_logged ltac:(done)).
Defined.

Definition local_policy_record : manager (L := Memory.provider) (A := Memory.provider) :=
  {| eng := {| objects := [{| p_id := "p"; p_name := "n"; p_description := ""; p_entityType := CONTRACT;
                             p_period := THIRTY_DAYS; p_classification := INTERNAL; p_archivalType := LOCAL;
                             p_encryptArchive := false; p_allowPermanentRetention := false; p_isActive := true;
                             p_createdAt := 0; p_updatedAt := 0 |}];
               policies := [("p"%string, 0%nat)]; entityDefaults := [] |};
     sts := {| local := {| Memory.storage := [("d1", Policies.sample_data (Some "p"))]%string |};
               archive := {| Memory.storage := [] |} |};
     logs := empty_audit; used := 0 |}.

Lemma local_policy_fine : fine (sts local_policy_record).
Proof.
  split; [split; [split; [by apply NoDup_singleton|]|apply memory_none_ok]|..].
  - intros i d. simpl. case_decide; [|done]. intros [= <-]. by subst.
  - intros i d ->%singleton_lookup. split; [by eexists|done].
  - intros i d []%nothing_lookup.
Qed.

Lemma local_archive_unrestorable_witness :
  (sample_restore 3000 "d1" "u" (sample_archive 2000 "d1" "u" local_policy_record).2).1 =
  Err "Archived data not found: d1"%string.
Proof.
  apply (local_archive_unrestorable sample_hmac "s" sample_iso sample_number sample_fresh sample_config
    2000 3000 "d1" "u" "u" local_policy_record (Policies.sample_data (Some "p"%string)) local_policy_fine); done.
Defined.

(** ** Behaviours the documentation does not mention *)

(** A restored record keeps its expiry date and is archived again by the next check. *)
Example restored_due_again :
  let m1 := (sample_restore 3000 "d1" "u" (sample_archive 2000 "d1" "u" one_record).2).2 in
  archived (runRetentionChecks sample_hmac "s" sample_iso sample_number sample_fresh sample_config 4000 m1).1 = 1.
Proof. vm_compute. reflexivity. Qed.

(** The archive copy is marked encrypted and holds the payload as it was. *)
Example archive_not_encrypted :
  let m1 := (sample_archive 2000 "d1" "u" one_record).2 in
  (fun d => (data d, metadata d)) <$> getArchivedData "d1" COLD_STORAGE m1 =
  Some (VNull, Some [("encrypted"%string, VBool true)]).
Proof. vm_compute. reflexivity. Qed.

(** A purge of the archive leaves the local copy with its payload. *)
Example purge_keeps_local_copy :
  let s1 := sts (sample_archive 2000 "d1" "u" one_record).2 in
  let s2 := (executePurge (2001 + 30 * DAY_MS) 30 false s1).2 in
  aview s2 !! "d1"%string = None /\ isArchived <$> (lview s2 !! "d1"%string) = Some true.
Proof. vm_compute. done. Qed.

Example archive_location_text :
  generateArchiveLocation 951782400000 (Policies.sample_data None) COLD_STORAGE = "/archive/cold_storage/contract/2000/02/d1"%string /\
  resolveStorageType (marked 0 "/archive/cold_storage/contract/2000/02/d1" (Policies.sample_data None)) = Some COLD_STORAGE.
Proof. vm_compute. done. Qed.

End Retention.
