(* ===== verification/Accounts.v ===== *)
(** * Accounts: src/repositories/userRepository.ts and src/services/auth.service.ts

    The [users] table is a Map of rows by primary key, in rowid order, with the
    constraints of src/db/migrations.ts (unique user name, unique email, role
    check).  Every method of the authentication service runs without
    interruption.  scrypt, SHA-256 (as hexadecimal text), JWT signing and
    verification, random bytes, ids and the clock are parameters; [secret] is
    the environment variable JWT_SECRET.

    Each operation reports what happened to refresh tokens as events; the
    history of a run is the list of its events. *)

From stdpp Require Import prelude strings sorting.
From Stdlib Require Import ZArith Lia Ascii.
From S2P Require Import Prelude JsMap JsString Regex Ssrf Cursor Keyset WebhookSigning.
Open Scope Z_scope.

Module Accounts.

Record UserRow : Type := {
  id : string;
  username : string;
  email : string;
  role : string;
  password_hash : option string;
  refresh_token_hash : option string;
  created_at : string;
}.

Notation table := (list (string * UserRow)) (only parsing).

Inductive error : Type :=
| DuplicateEmail
| InvalidCredentials
| InvalidRefreshToken
| SqliteConstraint
| SecretNotConfigured.

(** ** The table *)

Definition role_ok (r : string) : bool := bool_decide (r ∈ ["client"; "freelancer"; "both"]%string).

Definition insert_user (u : UserRow) (t : table) : result error table :=
  if map_has (id u) t || existsb (fun e => String.eqb (username e.2) (username u)) t ||
     existsb (fun e => String.eqb (email e.2) (email u)) t || negb (role_ok (role u))
  then Err SqliteConstraint else Ok (t ++ [(id u, u)]).

(** SELECT ... WHERE email = ? *)
Definition select_email (e : string) (t : table) : option UserRow :=
  snd <$> List.find (fun r => String.eqb (email r.2) e) t.

Definition with_refresh (h : option string) (u : UserRow) : UserRow :=
  {| id := id u; username := username u; email := email u; role := role u; password_hash := password_hash u;
     refresh_token_hash := h; created_at := created_at u |}.

(** UPDATE users SET refresh_token_hash = ? WHERE id = ? *)
Definition set_refresh (h : option string) (i : string) (t : table) : table :=
  match map_get i t with Some u => map_set i (with_refresh h u) t | None => t end.

(** ** [UserRepository] *)

Definition newer (a b : UserRow) : Prop := String.le (created_at b) (created_at a).
#[export] Instance newer_dec : RelDecision newer.
Proof. unfold newer. intros a b. apply _. Defined.

Definition findAll (t : table) : list UserRow := merge_sort newer (map_values t).
Definition findById (i : string) (t : table) : option UserRow := map_get i t.
Definition findByEmail (e : string) (t : table) : option UserRow := select_email (normalizeEmail e) t.

Definition new_user (uuid now name e r : string) (pw : option string) : UserRow :=
  {| id := uuid; username := name; email := e; role := r; password_hash := pw; refresh_token_hash := None;
     created_at := now |}.

Definition create (uuid now name e r : string) (t : table) : result error UserRow * table :=
  let u := new_user uuid now name (normalizeEmail e) r None in
  match insert_user u t with Err x => (Err x, t) | Ok t' => (Ok u, t') end.

(** [referenced i]: a contract or a reputation entry names the user. *)
Definition delete (referenced : string -> bool) (i : string) (t : table) : result error bool * table :=
  if map_has i t then if referenced i then (Err SqliteConstraint, t) else (Ok true, map_delete i t)
  else (Ok false, t).

(** ** Passwords *)

Definition hex_digit (n : nat) : ascii := ascii_of_nat (if n <? 10 then 48 + n else 87 + n)%nat.

(** [buffer.toString('hex')] *)
Definition hex_text (bs : list nat) : list ascii :=
  flat_map (fun b => [hex_digit (b / 16); hex_digit (b mod 16)]%nat) bs.

Definition dummy_hash : string :=
  String.string_of_list_ascii (replicate 32 "a"%char ++ ":"%char :: replicate 128 "b"%char).

Record AuthTokens : Type := { accessToken : string; refreshToken : string }.

(** What a call draws from its surroundings. *)
Record draw : Type := { d_now : Z; d_iso : string; d_uuid : string; d_salt : string; d_raw : string }.

Inductive event : Type :=
| Issued (user token : string)
| Cleared (user : string).

Section Service.
Context (scrypt : string -> string -> list nat) (sha256 : string -> string)
        (sign_access : string -> Z -> UserRow -> string) (sign_refresh : string -> Z -> string -> string -> string)
        (jwt_verify : string -> Z -> string -> option (option string))
        (referenced : string -> bool) (secret : option string).

Definition hashPassword (salt password : string) : string :=
  String.string_of_list_ascii (chars salt ++ ":"%char :: hex_text (scrypt password salt)).

Definition verifyPassword (password stored : string) : bool :=
  match Ssrf.split_on ":"%char (chars stored) with
  | (_ :: _) as salt :: ((_ :: _) as hashHex) :: _ =>
      bool_decide (Signing.hex_bytes hashHex = scrypt password (String.string_of_list_ascii salt))
  | _ => false
  end.

Definition issueTokens (d : draw) (u : UserRow) : option AuthTokens :=
  match secret with
  | None | Some EmptyString => None
  | Some k => Some {| accessToken := sign_access k (d_now d) u;
                      refreshToken := sign_refresh k (d_now d) (id u) (d_raw d) |}
  end.

(** Issue a pair and store the hash of its refresh token. *)
Definition issue_for (d : draw) (u : UserRow) (t : table) : result error AuthTokens * list event * table :=
  match issueTokens d u with
  | None => (Err SecretNotConfigured, [], t)
  | Some ts => (Ok ts, [Issued (id u) (refreshToken ts)],
                set_refresh (Some (sha256 (refreshToken ts))) (id u) t)
  end.

Definition register (d : draw) (e password name r : string) (t : table)
  : result error AuthTokens * list event * table :=
  match select_email (normalizeEmail e) t with
  | Some _ => (Err DuplicateEmail, [], t)
  | None =>
      let u := new_user (d_uuid d) (d_iso d) name (normalizeEmail e) r (Some (hashPassword (d_salt d) password)) in
      match insert_user u t with
      | Err x => (Err x, [], t)
      | Ok t1 => let '(res, evs, t2) := issue_for d u t1 in (res, Cleared (id u) :: evs, t2)
      end
  end.

Definition login (d : draw) (e password : string) (t : table) : result error AuthTokens * list event * table :=
  let row := select_email (normalizeEmail e) t in
  let stored := default dummy_hash (row ≫= password_hash) in
  let valid := verifyPassword password stored in
  match row with
  | Some u => if valid then issue_for d u t else (Err InvalidCredentials, [], t)
  | None => (Err InvalidCredentials, [], t)
  end.

Definition refresh (d : draw) (token : string) (t : table) : result error AuthTokens * list event * table :=
  let invalid := (Err InvalidRefreshToken, [], t) in
  match secret with
  | None | Some EmptyString => invalid
  | Some k =>
      match jwt_verify k (d_now d) token with
      | Some (Some (String _ _ as userId)) =>
          match map_get userId t with
          | None => invalid
          | Some u =>
              match refresh_token_hash u with
              | None | Some EmptyString => invalid
              | Some stored =>
                  if bool_decide (Signing.hex_bytes (chars (sha256 token)) = Signing.hex_bytes (chars stored)) then
                    let '(res, evs, t') := issue_for d u (set_refresh None userId t) in
                    (res, Cleared userId :: evs, t')
                  else invalid
              end
          end
      | _ => invalid
      end
  end.

Definition logout (i : string) (t : table) : list event * table := ([Cleared i], set_refresh None i t).

(** ** Runs *)

Inductive op : Type :=
| ORegister (d : draw) (e password name r : string)
| OLogin (d : draw) (e password : string)
| ORefresh (d : draw) (token : string)
| OLogout (i : string)
| OCreate (uuid now name e r : string)
| ODelete (i : string).

Definition exec (o : op) (s : list event * table) : list event * table :=
  let '(h, t) := s in
  match o with
  | ORegister d e p n r => let '(_, evs, t') := register d e p n r t in (h ++ evs, t')
  | OLogin d e p => let '(_, evs, t') := login d e p t in (h ++ evs, t')
  | ORefresh d tok => let '(_, evs, t') := refresh d tok t in (h ++ evs, t')
  | OLogout i => let '(evs, t') := logout i t in (h ++ evs, t')
  | OCreate uuid now n e r =>
      match create uuid now n e r t with
      | (Ok _, t') => (h ++ [Cleared uuid], t')
      | (Err _, t') => (h, t')
      end
  | ODelete i => (h, (delete referenced i t).2)
  end.

Definition run (ops : list op) (s : list event * table) : list event * table := foldl (fun s o => exec o s) s ops.

(** The refresh token of a user that was issued last and not cleared since. *)
Definition after_event (i : string) (cur : option string) (e : event) : option string :=
  match e with
  | Issued j tok => if bool_decide (j = i) then Some tok else cur
  | Cleared j => if bool_decide (j = i) then None else cur
  end.

Definition current (i : string) (h : list event) : option string := foldl (after_event i) None h.

(** ** The invariant *)

Record accounts_ok (s : list event * table) : Prop := {
  ids_unique : wf s.2;
  ids_own : forall i u, map_get i s.2 = Some u -> id u = i;
  emails_unique : forall i j u v, map_get i s.2 = Some u -> map_get j s.2 = Some v -> email u = email v -> i = j;
  names_unique : forall i j u v, map_get i s.2 = Some u -> map_get j s.2 = Some v -> username u = username v -> i = j;
  emails_normal : forall i u, map_get i s.2 = Some u -> exists e, email u = normalizeEmail e;
  hash_current : forall i u, map_get i s.2 = Some u -> refresh_token_hash u = sha256 <$> current i s.1;
}.

Lemma get_set_refresh h i j (t : table) :
  map_get j (set_refresh h i t) = if decide (i = j) then with_refresh h <$> map_get j t else map_get j t.
Proof.
  unfold set_refresh. case_decide as E.
  - subst j. destruct (map_get i t) as [u|] eqn:Ei; [by rewrite map_get_set_eq|by rewrite Ei].
  - destruct (map_get i t); [by rewrite map_get_set_ne|done].
Qed.

Lemma wf_set_refresh h i (t : table) : wf t -> wf (set_refresh h i t).
Proof. intros H. unfold set_refresh. destruct (map_get i t); [by apply wf_set|done]. Qed.

Lemma insert_user_Ok u t t' :
  insert_user u t = Ok t' ->
  t' = t ++ [(id u, u)] /\ map_get (id u) t = None /\
  (forall i v, map_get i t = Some v -> username v <> username u /\ email v <> email u) /\ role_ok (role u) = true.
Proof.
  unfold insert_user. destruct (_ || _ || _ || _) eqn:E; [done|]. intros [= <-].
  bool_to_prop. split; [done|]. split; [by apply map_has_false|]. split; [|done].
  intros i v Hv%map_get_elem_of. apply list_elem_of_In in Hv. split; intros Heq.
  - match goal with H : existsb _ _ = false |- _ => apply not_true_iff_false in H; apply H, existsb_exists;
      exists (i, v); split; [done|]; apply String.eqb_eq; done end.
  - match goal with H : existsb (fun e => String.eqb (email e.2) _) _ = false |- _ =>
      apply not_true_iff_false in H; apply H, existsb_exists; exists (i, v); split; [done|]; apply String.eqb_eq; done end.
Qed.

Lemma get_snoc (t : table) k u j :
  map_get k t = None -> map_get j (t ++ [(k, u)]) = if decide (k = j) then Some u else map_get j t.
Proof.
  intros Hk. rewrite <- (map_set_None _ _ u Hk). case_decide as E.
  - subst. by rewrite map_get_set_eq.
  - by rewrite map_get_set_ne.
Qed.

Lemma select_email_Some e (t : table) u : select_email e t = Some u -> exists i, (i, u) ∈ t /\ email u = e.
Proof.
  unfold select_email. destruct (List.find _ t) as [[i v]|] eqn:E; [|done]. intros [= <-].
  apply List.find_some in E as [Hin He]. exists i. split; [by apply list_elem_of_In|by apply String.eqb_eq].
Qed.

Lemma select_email_None e (t : table) i u : select_email e t = None -> (i, u) ∈ t -> email u <> e.
Proof.
  unfold select_email. destruct (List.find _ t) as [[j v]|] eqn:E; [done|]. intros _ Hin Heq.
  apply list_elem_of_In in Hin. apply (List.find_none _ _ E) in Hin. apply String.eqb_neq in Hin. done.
Qed.

Lemma current_snoc i h e : current i (h ++ [e]) = after_event i (current i h) e.
Proof. unfold current. by rewrite foldl_app. Qed.

(** ** Steps on the pair of history and table *)

(** A new row, whose tokens the history has cleared. *)
Lemma add_user_ok h t u e0 t' :
  accounts_ok (h, t) -> insert_user u t = Ok t' -> email u = normalizeEmail e0 -> refresh_token_hash u = None ->
  accounts_ok (h ++ [Cleared (id u)], t').
Proof.
  intros [Hw Hi He Hn Hm Hc] (-> & Hnew & Hd & _)%insert_user_Ok Hem Hr. simpl in *.
  assert (Hg := fun j => get_snoc t (id u) u j Hnew). split; simpl.
  - rewrite <- (map_set_None _ _ u Hnew). by apply wf_set.
  - intros i v. rewrite Hg. case_decide; [intros [= <-]; done|apply Hi].
  - intros i j x y. rewrite !Hg. repeat case_decide; intros Hx Hy Hxy; simplify_eq; try done.
    + destruct (Hd _ _ Hy). congruence.
    + destruct (Hd _ _ Hx). congruence.
    + by eapply He.
  - intros i j x y. rewrite !Hg. repeat case_decide; intros Hx Hy Hxy; simplify_eq; try done.
    + destruct (Hd _ _ Hy). congruence.
    + destruct (Hd _ _ Hx). congruence.
    + by eapply Hn.
  - intros i v. rewrite Hg. case_decide; [intros [= <-]; by exists e0|apply Hm].
  - intros i v. rewrite Hg, current_snoc. simpl. case_decide as E.
    + intros [= <-]. by rewrite bool_decide_eq_true_2.
    + intros Hv. rewrite bool_decide_eq_false_2 by done. by apply Hc.
Qed.

(** A write to the refresh column, recorded by the matching event. *)
Lemma set_refresh_ok h t i tok :
  accounts_ok (h, t) ->
  accounts_ok (h ++ [match tok with Some x => Issued i x | None => Cleared i end], set_refresh (sha256 <$> tok) i t).
Proof.
  intros [Hw Hi He Hn Hm Hc]. simpl in *. assert (Hg := fun j => get_set_refresh (sha256 <$> tok) i j t).
  assert (Hsame : forall j v, map_get j (set_refresh (sha256 <$> tok) i t) = Some v ->
    exists u, map_get j t = Some u /\ id v = id u /\ email v = email u /\ username v = username u).
  { intros j v. rewrite Hg. case_decide; [|by eauto]. intros (u & Hu & ->)%fmap_Some. by exists u. }
  split; simpl.
  - by apply wf_set_refresh.
  - intros j v (u & Hu & -> & _)%Hsame. by apply Hi.
  - intros j k x y (u & Hu & _ & -> & _)%Hsame (v & Hv & _ & -> & _)%Hsame. by apply He.
  - intros j k x y (u & Hu & _ & _ & ->)%Hsame (v & Hv & _ & _ & ->)%Hsame. by apply Hn.
  - intros j v (u & Hu & _ & -> & _)%Hsame. by eapply Hm.
  - intros j v. rewrite Hg, current_snoc. case_decide as E.
    + subst j. intros (u & Hu & ->)%fmap_Some. destruct tok; simpl; by rewrite bool_decide_eq_true_2.
    + intros Hv. destruct tok; simpl; rewrite bool_decide_eq_false_2 by done; by apply Hc.
Qed.

Lemma issue_for_ok d u h t :
  accounts_ok (h, t) -> accounts_ok (h ++ (issue_for d u t).1.2, (issue_for d u t).2).
Proof.
  intros H. unfold issue_for. destruct (issueTokens d u) as [ts|]; simpl; [|by rewrite app_nil_r].
  exact (set_refresh_ok h t (id u) (Some (refreshToken ts)) H).
Qed.

Lemma accounts_exec_ok o s : accounts_ok s -> accounts_ok (exec o s).
Proof.
  destruct s as [h t]. intros H. destruct o as [d e p n r|d e p|d tok|i|uuid now n e r|i]; simpl.
  - unfold register. destruct (select_email _ t); [by rewrite app_nil_r|].
    destruct (insert_user _ t) as [t1|] eqn:E; [|by rewrite app_nil_r].
    assert (H1 := add_user_ok h t _ e t1 H E eq_refl eq_refl).
    set (u := new_user _ _ _ _ _ _) in *. pose proof (issue_for_ok d u _ t1 H1) as H2.
    destruct (issue_for d u t1) as [[res evs] t2]. simpl in *. by rewrite <- (assoc (++)) in H2.
  - unfold login. destruct (select_email _ t) as [u|]; [|by rewrite app_nil_r].
    destruct (verifyPassword _ _); [|by rewrite app_nil_r].
    pose proof (issue_for_ok d u h t H) as H2. by destruct (issue_for d u t) as [[res evs] t2].
  - unfold refresh. destruct secret as [[|c k]|]; try (by rewrite app_nil_r).
    destruct (jwt_verify _ _ tok) as [[[|c' i]|]|]; try (by rewrite app_nil_r).
    destruct (map_get (String c' i) t) as [u|] eqn:Eu; [|by rewrite app_nil_r].
    destruct (refresh_token_hash u) as [[|c2 st]|]; try (by rewrite app_nil_r).
    case_bool_decide; [|by rewrite app_nil_r].
    pose proof (set_refresh_ok h t (String c' i) None H) as H1. simpl in H1.
    pose proof (issue_for_ok d u _ _ H1) as H2.
    destruct (issue_for d u (set_refresh None (String c' i) t)) as [[res evs] t2]. simpl in *.
    by rewrite <- (assoc (++)) in H2.
  - exact (set_refresh_ok h t i None H).
  - unfold create. destruct (insert_user _ t) as [t1|] eqn:E; [|done].
    exact (add_user_ok h t _ e t1 H E eq_refl eq_refl).
  - unfold delete. destruct (map_has i t) eqn:Eh; [|done]. destruct (referenced i); [done|]. simpl.
    destruct H as [Hw Hi He Hn Hm Hc]. simpl in *.
    assert (Hsub : forall j v, map_get j (map_delete i t) = Some v -> map_get j t = Some v).
    { intros j v. destruct (decide (i = j)) as [->|Hne]; [by rewrite map_get_delete_eq|by rewrite map_get_delete_ne]. }
    split; simpl; eauto using wf_delete.
Qed.

Lemma accounts_run_ok ops s : accounts_ok s -> accounts_ok (run ops s).
Proof. revert s. induction ops as [|o ops IH]; intros s H; [done|]. by apply IH, accounts_exec_ok. Qed.

(** ** Histories *)

Lemma exec_history o s : exists l, (exec o s).1 = s.1 ++ l.
Proof.
  destruct s as [h t]. destruct o as [d e p n r|d e p|d tok|i|uuid now n e r|i]; simpl.
  - destruct (register d e p n r t) as [[? evs] ?]. by exists evs.
  - destruct (login d e p t) as [[? evs] ?]. by exists evs.
  - destruct (refresh d tok t) as [[? evs] ?]. by exists evs.
  - by eexists.
  - destruct (create uuid now n e r t) as [[] ?]; [by eexists|exists []; by rewrite app_nil_r].
  - exists []. by rewrite app_nil_r.
Qed.

Lemma run_history ops s : exists l, (run ops s).1 = s.1 ++ l.
Proof.
  revert s. induction ops as [|o ops IH]; intros s; [exists []; by rewrite app_nil_r|].
  destruct (exec_history o s) as [l1 E1]. destruct (IH (exec o s)) as [l2 E2].
  exists (l1 ++ l2). simpl. by rewrite E2, E1, (assoc (++)).
Qed.

Lemma foldl_current_in i c l tok : foldl (after_event i) c l = Some tok -> c = Some tok \/ Issued i tok ∈ l.
Proof.
  revert c. induction l as [|e l IH]; intros c; simpl; [by left|].
  intros [H|H]%IH; [|right; by right]. destruct e as [j x|j]; simpl in H; case_bool_decide; simplify_eq; auto.
  right. left.
Qed.

Lemma current_after_clear i h l tok : current i (h ++ Cleared i :: l) = Some tok -> Issued i tok ∈ l.
Proof.
  unfold current. rewrite foldl_app. simpl. rewrite bool_decide_eq_true_2 by done.
  by intros [H|H]%foldl_current_in.
Qed.

(** ** Refresh *)

Section Refresh.
Context (sha_hex : forall x, Signing.digest (chars (sha256 x))).

Lemma hash_compare a b :
  Signing.hex_bytes (chars (sha256 a)) = Signing.hex_bytes (chars (sha256 b)) -> sha256 a = sha256 b.
Proof.
  intros H. destruct (sha_hex a) as [La Fa], (sha_hex b) as [Lb Fb].
  apply (Signing.hex_bytes_inj 32) in H; [|done..]. apply (f_equal String.string_of_list_ascii) in H.
  unfold chars in H. by rewrite !String.string_of_list_ascii_of_string in H.
Qed.

(** A refresh is granted for the current token of its subject, or one with the same hash. *)
Lemma refresh_cases d tok h t :
  accounts_ok (h, t) ->
  match refresh d tok t with
  | (Ok ts, evs, t') =>
      exists k i u, secret = Some k /\ jwt_verify k (d_now d) tok = Some (Some i) /\ map_get i t = Some u /\
        (exists x, current i h = Some x /\ sha256 x = sha256 tok) /\ evs = [Cleared i; Issued i (refreshToken ts)]
  | (Err x, evs, t') =>
      x = InvalidRefreshToken /\ evs = [] /\ t' = t
  end.
Proof.
  intros H. unfold refresh. destruct secret as [[|c k]|] eqn:Es; [done| |done].
  destruct (jwt_verify (String c k) (d_now d) tok) as [[[|c' i]|]|] eqn:Ev; try done.
  destruct (map_get (String c' i) t) as [u|] eqn:Eu; [|done].
  pose proof (hash_current _ H _ u Eu) as Hc. pose proof (ids_own _ H _ u Eu) as Hid. simpl in Hc.
  destruct (refresh_token_hash u) as [[|c2 st]|] eqn:Er; try done.
  case_bool_decide as Eb; [|done]. unfold issue_for, issueTokens. rewrite Es. simpl.
  destruct (current (String c' i) h) as [tok'|] eqn:Ec; [|done]. simpl in Hc. injection Hc as Hc.
  rewrite Hc in Eb. apply hash_compare in Eb.
  exists (String c k), (String c' i), u. rewrite Hid. do 3 (split; [done|]). split; [by exists tok'|done].
Qed.

Lemma refresh_accepts d tok h t k i u c :
  accounts_ok (h, t) -> secret = Some (String c k) -> jwt_verify (String c k) (d_now d) tok = Some (Some i) ->
  i <> EmptyString -> map_get i t = Some u -> current i h = Some tok -> is_ok (refresh d tok t).1.1 = true.
Proof.
  intros H Hs Hv Hi Hu Hc. unfold refresh. rewrite Hs, Hv. destruct i as [|c' i]; [done|]. rewrite Hu.
  rewrite (hash_current _ H _ u Hu). simpl. rewrite Hc. simpl.
  destruct (sha256 tok) as [|c2 st] eqn:E.
  { destruct (sha_hex tok) as [L _]. rewrite E in L. done. }
  rewrite <- E, bool_decide_eq_true_2 by done. unfold issue_for, issueTokens. by rewrite Hs.
Qed.

(** A refresh token works once: after a refresh with it succeeds, every
    later attempt with the same token is refused, whatever happens in between,
    as long as that very token is not issued anew and no issued token collides
    with its hash. *)
Theorem refresh_token_single_use
    (subject_fixed : forall k n n' tok i i', jwt_verify k n tok = Some (Some i) -> jwt_verify k n' tok = Some (Some i') -> i = i')
    d tok s ts evs t' ops d' :
  accounts_ok s -> refresh d tok s.2 = (Ok ts, evs, t') ->
  let s' := run ops (s.1 ++ evs, t') in
  (forall i, Issued i tok ∉ drop (length s.1) s'.1) ->
  (forall i x, Issued i x ∈ s'.1 -> sha256 x = sha256 tok -> x = tok) ->
  (refresh d' tok s'.2).1.1 = Err InvalidRefreshToken.
Proof.
  destruct s as [h t]. simpl. intros H E. set (s' := run ops (h ++ evs, t')). intros Hnew Hcoll.
  assert (H' : accounts_ok s').
  { apply accounts_run_ok. pose proof (accounts_exec_ok (ORefresh d tok) (h, t) H) as Hx. simpl in Hx. by rewrite E in Hx. }
  pose proof (refresh_cases d tok h t H) as C. rewrite E in C.
  destruct C as (k & i & u & Hs & Hv & _ & _ & ->).
  destruct (run_history ops (h ++ [Cleared i; Issued i (refreshToken ts)], t')) as [l Hl]. fold s' in Hl. simpl in Hl.
  destruct s' as [h' t2] eqn:Es'. simpl in *. pose proof (refresh_cases d' tok h' t2 H') as C.
  destruct (refresh d' tok t2) as [[[ts'|x] evs'] t3]; [|by destruct C as [-> _]].
  exfalso. destruct C as (k' & i' & u' & Hs' & Hv' & _ & (x & Hcur & Hx) & _). rewrite Hs in Hs'. simplify_eq.
  destruct (foldl_current_in _ _ _ _ Hcur) as [|Hin]; [done|]. apply (Hcoll _ _ Hin) in Hx as ->.
  assert (i' = i) as -> by (by eapply subject_fixed).
  rewrite <- (assoc (++)) in Hcur. simpl in Hcur. apply current_after_clear in Hcur.
  apply (Hnew i). rewrite <- (assoc (++)), drop_app_length. right. done.
Qed.
End Refresh.

(** In every run of registrations, logins, refreshes, logouts and user
    management, ids, user names and normalised emails stay unique, and the
    stored refresh hash of an account is that of its current token. *)
Theorem accounts_invariant ops s : accounts_ok s -> accounts_ok (run ops s).
Proof. apply accounts_run_ok. Qed.

(** ** Passwords *)

Lemma hex_digit_nibble n : (n < 16)%nat -> Signing.hex_nibble (hex_digit n) = Some n.
Proof. intros H. do 16 (destruct n as [|n]; [reflexivity|]). lia. Qed.

Lemma hex_text_bytes bs : Forall (fun b => (b < 256)%nat) bs -> Signing.hex_bytes (hex_text bs) = bs.
Proof.
  induction 1 as [|b bs Hb _ IH]; [done|].
  change (hex_text (b :: bs)) with (hex_digit (b / 16) :: hex_digit (b mod 16) :: hex_text bs).
  cbn [Signing.hex_bytes]. rewrite !hex_digit_nibble; [|apply Nat.mod_upper_bound; lia|apply Nat.Div0.div_lt_upper_bound; lia].
  rewrite IH. f_equal. symmetry. apply Nat.div_mod_eq.
Qed.

Lemma hex_digit_colon n : (n < 16)%nat -> hex_digit n <> ":"%char.
Proof. intros H. do 16 (destruct n as [|n]; [done|]). lia. Qed.

Lemma hex_text_colon bs : Forall (fun b => (b < 256)%nat) bs -> ":"%char ∉ hex_text bs.
Proof.
  induction 1 as [|b bs Hb _ IH]; [by apply not_elem_of_nil|].
  change (hex_text (b :: bs)) with (hex_digit (b / 16) :: hex_digit (b mod 16) :: hex_text bs).
  rewrite !not_elem_of_cons. split; [|split; [|done]]; intros E; symmetry in E; revert E; apply hex_digit_colon.
  - apply Nat.Div0.div_lt_upper_bound; lia.
  - apply Nat.mod_upper_bound; lia.
Qed.

Lemma split_on_one c l1 l2 : c ∉ l1 -> c ∉ l2 -> Ssrf.split_on c (l1 ++ c :: l2) = [l1; l2].
Proof. intros H1 H2. by rewrite Ssrf.split_on_app, Ssrf.split_on_absent. Qed.

(** A row keeps its email and password until it is deleted. *)
Lemma row_kept o s i u :
  accounts_ok s -> o <> ODelete i -> map_get i s.2 = Some u ->
  exists u', map_get i (exec o s).2 = Some u' /\ email u' = email u /\ password_hash u' = password_hash u.
Proof.
  destruct s as [h t]. simpl. intros H Ho Hu.
  assert (Hset : forall x j (t0 : table) v, map_get i t0 = Some v -> exists u', map_get i (set_refresh x j t0) = Some u' /\
            email u' = email v /\ password_hash u' = password_hash v).
  { intros x j t0 v Hv. rewrite get_set_refresh, Hv. case_decide; by eexists. }
  assert (Hiss : forall d v (t0 : table) w, map_get i t0 = Some w -> exists u', map_get i (issue_for d v t0).2 = Some u' /\
            email u' = email w /\ password_hash u' = password_hash w).
  { intros d v t0 w Hw. unfold issue_for. destruct (issueTokens d v); simpl; [by apply Hset|by exists w]. }
  assert (Hins : forall v (t1 : table), insert_user v t = Ok t1 -> map_get i t1 = Some u).
  { intros v t1 (-> & Hnew & _)%insert_user_Ok. rewrite get_snoc by done. case_decide; [congruence|done]. }
  destruct o as [d e p n r|d e p|d tok|j|uuid now n e r|j]; simpl.
  - unfold register. destruct (select_email _ t); [by exists u|].
    destruct (insert_user _ t) as [t1|] eqn:E; [|by exists u]. apply Hins in E.
    set (v := new_user _ _ _ _ _ _). specialize (Hiss d v t1 u E). by destruct (issue_for d v t1) as [[? ?] ?].
  - unfold login. destruct (select_email _ t) as [v|]; [|by exists u]. destruct (verifyPassword _ _); [|by exists u].
    specialize (Hiss d v t u Hu). by destruct (issue_for d v t) as [[? ?] ?].
  - unfold refresh. destruct secret as [[|c k]|]; try (by exists u).
    destruct (jwt_verify _ _ tok) as [[[|c' j]|]|]; try (by exists u).
    destruct (map_get (String c' j) t) as [v|]; [|by exists u].
    destruct (refresh_token_hash v) as [[|c2 st]|]; try (by exists u). case_bool_decide; [|by exists u].
    destruct (Hset None (String c' j) t u Hu) as (w & Hw & E1 & E2). specialize (Hiss d v _ w Hw).
    destruct (issue_for d v _) as [[? ?] ?]. simpl in *. rewrite <- E1, <- E2. exact Hiss.
  - by apply Hset.
  - unfold create. destruct (insert_user _ t) as [t1|] eqn:E; [|by exists u]. exists u. split; [by eapply Hins|done].
  - unfold delete. destruct (map_has j t); [|by exists u]. destruct (referenced j); [by exists u|]. simpl.
    rewrite map_get_delete_ne by congruence. by exists u.
Qed.

Lemma row_kept_run ops s i u :
  accounts_ok s -> ODelete i ∉ ops -> map_get i s.2 = Some u ->
  exists u', map_get i (run ops s).2 = Some u' /\ email u' = email u /\ password_hash u' = password_hash u.
Proof.
  revert s u. induction ops as [|o ops IH]; intros s u H Hd Hu; [by exists u|].
  rewrite not_elem_of_cons in Hd. destruct Hd as [Ho Hd].
  destruct (row_kept o s i u H ltac:(congruence) Hu) as (u1 & H1 & E1 & P1).
  destruct (IH (exec o s) u1 (accounts_exec_ok o s H) Hd H1) as (u2 & H2 & E2 & P2).
  exists u2. simpl. split; [done|]. split; congruence.
Qed.

Lemma select_own s i u : accounts_ok s -> map_get i s.2 = Some u -> select_email (email u) s.2 = Some u.
Proof.
  intros H Hu. destruct (select_email (email u) s.2) as [v|] eqn:E.
  - apply select_email_Some in E as (j & Hj & He). apply (elem_of_map_get _ _ _ (ids_unique _ H)) in Hj.
    assert (j = i) as -> by (by eapply (emails_unique _ H)). congruence.
  - apply map_get_elem_of in Hu. by destruct (select_email_None _ _ _ _ E Hu).
Qed.

(** Whoever registered can log in: after a successful registration the
    same password is accepted for any spelling of the email that differs in
    case or surrounding blanks, whatever other accounts do, until the account
    is deleted. *)
Theorem register_login_roundtrip
    (scrypt_bytes : forall p s, Forall (fun b => (b < 256)%nat) (scrypt p s) /\ scrypt p s <> [])
    d e p n r s ts evs t' ops d' e' :
  accounts_ok s -> d_salt d <> EmptyString -> ":"%char ∉ chars (d_salt d) ->
  register d e p n r s.2 = (Ok ts, evs, t') -> normalizeEmail e' = normalizeEmail e ->
  ODelete (d_uuid d) ∉ ops ->
  is_ok (login d' e' p (run ops (s.1 ++ evs, t')).2).1.1 = true.
Proof.
  destruct s as [h t]. cbn [fst snd]. intros H Hsalt Hcol E He Hdel.
  pose proof (accounts_exec_ok (ORegister d e p n r) (h, t) H) as H1. simpl in H1. rewrite E in H1.
  assert (Hrow : exists u, map_get (d_uuid d) t' = Some u /\ email u = normalizeEmail e /\
                 password_hash u = Some (hashPassword (d_salt d) p)).
  { unfold register in E. destruct (select_email _ t); [done|].
    destruct (insert_user _ t) as [t1|] eqn:Ei; [|done]. apply insert_user_Ok in Ei as (-> & Hnew & _).
    unfold issue_for in E. destruct (issueTokens _ _) as [x|]; simplify_eq. simpl.
    rewrite get_set_refresh, decide_True, get_snoc, decide_True by done. simpl. by eexists. }
  assert (Hsec : exists c k, secret = Some (String c k)).
  { unfold register in E. destruct (select_email _ t); [done|]. destruct (insert_user _ t); [|done].
    unfold issue_for, issueTokens in E. destruct secret as [[|c k]|]; try done. by exists c, k. }
  destruct Hrow as (u & Hu & Hem & Hpw).
  pose proof (accounts_run_ok ops _ H1) as H2.
  destruct (row_kept_run ops _ _ u H1 Hdel Hu) as (u2 & Hu2 & E2 & P2).
  pose proof (select_own _ _ _ H2 Hu2) as Hsel. rewrite E2, Hem, <- He in Hsel.
  unfold login. rewrite Hsel. cbn [mbind option_bind]. rewrite P2, Hpw.
  change (default dummy_hash (Some (hashPassword (d_salt d) p))) with (hashPassword (d_salt d) p).
  assert (Hv : verifyPassword p (hashPassword (d_salt d) p) = true).
  { destruct (scrypt_bytes p (d_salt d)) as [Hb Hne]. unfold verifyPassword, hashPassword, chars.
    rewrite String.list_ascii_of_string_of_list_ascii, split_on_one by (done || by apply hex_text_colon).
    destruct (String.list_ascii_of_string (d_salt d)) as [|a l] eqn:Es.
    { apply (f_equal String.string_of_list_ascii) in Es. by rewrite String.string_of_list_ascii_of_string in Es. }
    rewrite <- Es, String.string_of_list_ascii_of_string.
    destruct (scrypt p (d_salt d)) as [|b bs] eqn:Eb; [done|]. rewrite <- Eb in *.
    destruct (hex_text (scrypt p (d_salt d))) as [|x xs] eqn:Ex; [by rewrite Eb in Ex|].
    apply bool_decide_eq_true. rewrite <- Ex. by apply hex_text_bytes. }
  rewrite Hv. destruct Hsec as (c & k & Hs). unfold issue_for, issueTokens. by rewrite Hs.
Qed.

(** When JWT_SECRET is missing a registration fails after its row has been
    written: the account exists, and registering again reports a duplicate. *)
Theorem register_without_secret d d' e p n r s :
  accounts_ok s -> secret = None -> is_ok (insert_user
    (new_user (d_uuid d) (d_iso d) n (normalizeEmail e) r (Some (hashPassword (d_salt d) p))) s.2) = true ->
  let '(res, evs, t') := register d e p n r s.2 in
  res = Err SecretNotConfigured /\ is_Some (select_email (normalizeEmail e) t') /\
  (register d' e p n r t').1.1 = Err DuplicateEmail.
Proof.
  destruct s as [h t]. simpl. intros H Hs Hok.
  pose proof (accounts_exec_ok (ORegister d e p n r) (h, t) H) as H1. simpl in H1. revert H1.
  unfold register. destruct (insert_user _ t) as [t1|] eqn:E; [|done].
  apply insert_user_Ok in E as (-> & Hnew & Hd & _). simpl in Hnew.
  destruct (select_email (normalizeEmail e) t) as [v|] eqn:Ev.
  { apply select_email_Some in Ev as (i & Hi & He). apply (elem_of_map_get _ _ _ (ids_unique _ H)) in Hi.
    destruct (Hd i v Hi). done. }
  unfold issue_for, issueTokens. rewrite Hs. simpl. intros H1.
  set (u := new_user _ _ _ _ _ _) in *.
  assert (Hsel : select_email (normalizeEmail e) (t ++ [(d_uuid d, u)]) = Some u).
  { apply (select_own _ (d_uuid d) u H1). simpl. by rewrite (get_snoc t (d_uuid d) u), decide_True. }
  rewrite Hsel. split; [done|]. split; [by eexists|done].
Qed.

End Service.

(** ** Witnesses *)

Definition sample_scrypt (p s : string) : list nat := [7%nat].
Definition sample_sha (x : string) : string :=
  String.string_of_list_ascii (replicate 64 (match x with EmptyString => "0" | _ => "1" end)%char).
(** Tokens are their subject, so that each user has one token text; [jwt] reads it back. *)
Definition sample_access (k : string) (now : Z) (u : UserRow) : string := "access".
Definition sample_refresh (k : string) (now : Z) (i raw : string) : string := raw.
Definition sample_verify (k : string) (now : Z) (tok : string) : option (option string) := Some (Some "u1"%string).
Definition sample_draw (raw : string) : draw :=
  {| d_now := 0; d_iso := "2024"; d_uuid := "u1"; d_salt := "0a"; d_raw := raw |}.
Definition no_refs (i : string) : bool := false.
Notation sample_register := (register sample_scrypt sample_sha sample_access sample_refresh).
Definition registered : result error AuthTokens * list event * list (string * UserRow) :=
  sample_register (Some "k"%string) (sample_draw "t1") "A@b.c" "pw" "ann" "client" [].

Lemma empty_accounts_ok sha : accounts_ok sha ([], []).
Proof. split; [apply wf_nil|done..]. Qed.

Lemma accounts_invariant_witness :
  accounts_ok sample_sha (run sample_scrypt sample_sha sample_access sample_refresh sample_verify no_refs (Some "k"%string)
    [ORegister (sample_draw "t1") "A@b.c" "pw" "ann" "client"; OLogin (sample_draw "t2") "a@b.c" "pw"; OLogout "u1"]%string
    ([], [])).
Proof. apply (accounts_invariant sample_scrypt sample_sha), empty_accounts_ok. Defined.

Lemma register_login_roundtrip_witness :
  is_ok (login sample_scrypt sample_sha sample_access sample_refresh (Some "k"%string) (sample_draw "t3") " a@B.c " "pw"
    (run sample_scrypt sample_sha sample_access sample_refresh sample_verify no_refs (Some "k"%string) [OLogout "u1"%string]
      ([] ++ registered.1.2, registered.2)).2).1.1 = true.
Proof.
  destruct (registered) as [[[ts|x] evs] t'] eqn:E; [|by vm_compute in E].
  eapply (register_login_roundtrip sample_scrypt sample_sha sample_access sample_refresh sample_verify no_refs
    (Some "k"%string)) with (d := sample_draw "t1"%string) (s := ([], [])).
  - intros p s. split; [|done]. apply Forall_singleton. lia.
  - apply empty_accounts_ok.
  - done.
  - vm_compute. intros H. repeat (apply elem_of_cons in H as [H|H]; [done|]). by apply elem_of_nil in H.
  - exact E.
  - reflexivity.
  - rewrite not_elem_of_cons. split; [done|apply not_elem_of_nil].
Defined.

Lemma register_without_secret_witness :
  (sample_register None (sample_draw "t1") "A@b.c" "pw" "ann" "client" []).1.1 = Err SecretNotConfigured.
Proof.
  pose proof (register_without_secret sample_scrypt sample_sha sample_access sample_refresh sample_verify no_refs None
    (sample_draw "t1") (sample_draw "t1") "A@b.c" "pw" "ann" "client" ([], []) (empty_accounts_ok _) eq_refl eq_refl) as H.
  destruct (sample_register None _ _ _ _ _ _) as [[res evs] t']. apply H.
Defined.

Lemma refresh_token_single_use_witness :
  (refresh sample_sha sample_access sample_refresh sample_verify (Some "k"%string) (sample_draw "") "t1"
    (refresh sample_sha sample_access sample_refresh sample_verify (Some "k"%string) (sample_draw "") "t1" registered.2).2).1.1 =
  Err InvalidRefreshToken.
Proof.
  destruct (refresh sample_sha sample_access sample_refresh sample_verify (Some "k"%string) (sample_draw "") "t1"
    registered.2) as [[[ts|x] evs] t'] eqn:E; [|by vm_compute in E]. vm_compute in E. simplify_eq.
  apply (refresh_token_single_use sample_scrypt sample_sha sample_access sample_refresh sample_verify no_refs
    (Some "k"%string)) with (d := sample_draw "") (s := (registered.1.2, registered.2)) (ops := [])
    (evs := [Cleared "u1"; Issued "u1" ""]%string) (ts := {| accessToken := "access"; refreshToken := "" |}).
  - intros x. split; [reflexivity|]. unfold sample_sha, chars.
    rewrite String.list_ascii_of_string_of_list_ascii. apply Forall_replicate. by destruct x.
  - intros k n n' tok i i' Hi Hi'. unfold sample_verify in *. congruence.
  - apply (accounts_exec_ok sample_scrypt sample_sha sample_access sample_refresh sample_verify no_refs (Some "k"%string)
      (ORegister (sample_draw "t1") "A@b.c" "pw" "ann" "client") ([], []) (empty_accounts_ok _)).
  - vm_compute. reflexivity.
  - intros i. vm_compute. intros H. repeat (apply elem_of_cons in H as [H|H]; [done|]). by apply elem_of_nil in H.
  - intros i x. vm_compute. intros H. repeat (apply elem_of_cons in H as [H|H]; [simplify_eq; try done|]).
    by apply elem_of_nil in H.
Defined.

End Accounts.
