(* ===== verification/ApiKeys.v ===== *)
(** * API keys: src/auth/apiKeys.ts, src/auth/authCache.ts and the key methods
    of src/database/index.ts

    [DatabaseService] declares its API-key methods twice; the later bodies, over
    the JSON database, are the ones the class has.  [api_keys] is an array of
    references to key objects, because a caller holds on to the object it found
    while [updateApiKey] and [rotateApiKey] put a new object in its place and
    [deactivateApiKey] writes into the one that is there.  [disk] is the content
    of the database file: each save writes the whole array, and a restart reads
    it back, with dates as text.

    Every exported function awaits the database and other calls run meanwhile,
    so a call is a task: its constructor says what it is waiting for, and a turn
    of the event loop carries one task to its next [await].  (A save reads the
    array in the turn of the write it belongs to.)  PBKDF2, SHA-256, the text of
    a date, random draws, the clock and whether a file write succeeds are
    inputs. *)

From stdpp Require Import prelude strings relations.
From Stdlib Require Import ZArith Lia Ascii.
From S2P Require Import Prelude JsMap JsValue JsString JsNumber Regex Ssrf WebhookSigning Accounts.
Open Scope Z_scope.

Module ApiKeys.

Notation ref := nat (only parsing).

(** A date field: a [Date], or its ISO text once it has been through JSON. *)
Inductive stamp : Type := At (t : Z) | Text (s : string).

Record ApiKey : Type := {
  id : string;
  name : string;
  key_hash : string;
  key_selector : option string;
  scope : list string;
  created_by : string;
  created_at : stamp;
  updated_at : stamp;
  expires_at : option stamp;
  last_used_at : option stamp;
  is_active : bool;
}.

Record ApiKeyInfo : Type := {
  i_id : string;
  i_name : string;
  i_scope : list string;
  i_createdBy : string;
  i_createdAt : stamp;
  i_expiresAt : option stamp;
  i_isActive : bool;
}.

Record ApiKeyRequest : Type := {
  r_name : string;
  r_scope : list string;
  r_createdBy : string;
  r_expiresAt : option stamp;
}.

Definition info_of (k : ApiKey) : ApiKeyInfo :=
  {| i_id := id k; i_name := name k; i_scope := scope k; i_createdBy := created_by k; i_createdAt := created_at k;
     i_expiresAt := expires_at k; i_isActive := is_active k |}.

(** ** [AuthCache] *)

Record CacheEntry : Type := { info : ApiKeyInfo; expiresAt : Z; lastAccessed : Z }.

Record AuthCache : Type := { cache : list (string * CacheEntry); hitCount : Z; missCount : Z }.

Definition empty_cache : AuthCache := {| cache := []; hitCount := 0; missCount := 0 |}.

Section Cache.
Context (ttlMs maxEntries : Z).

Definition cache_get (now : Z) (selector : string) (c : AuthCache) : option ApiKeyInfo * AuthCache :=
  match map_get selector (cache c) with
  | None => (None, {| cache := cache c; hitCount := hitCount c; missCount := missCount c + 1 |})
  | Some e =>
      if bool_decide (expiresAt e < now) then
        (None, {| cache := map_delete selector (cache c); hitCount := hitCount c; missCount := missCount c + 1 |})
      else
        (Some (info e),
         {| cache := map_set selector {| info := info e; expiresAt := expiresAt e; lastAccessed := now |} (cache c);
            hitCount := hitCount c + 1; missCount := missCount c |})
  end.

(** The [forEach] of [evictOldest]: the first entry with the least access time. *)
Definition oldest (m : list (string * CacheEntry)) : option (string * Z) :=
  foldl (fun best e =>
           match best with
           | None => Some (e.1, lastAccessed e.2)
           | Some (_, t) => if bool_decide (lastAccessed e.2 < t) then Some (e.1, lastAccessed e.2) else best
           end) None m.

Definition with_entries (m : list (string * CacheEntry)) (c : AuthCache) : AuthCache :=
  {| cache := m; hitCount := hitCount c; missCount := missCount c |}.

Definition evictOldest (c : AuthCache) : AuthCache :=
  match oldest (cache c) with
  | Some ((String _ _) as s, _) => with_entries (map_delete s (cache c)) c
  | _ => c
  end.

Definition cache_set (now : Z) (selector : string) (i : ApiKeyInfo) (c : AuthCache) : AuthCache :=
  let e := {| info := i; expiresAt := now + ttlMs; lastAccessed := now |} in
  let c' := if bool_decide (maxEntries <= Z.of_nat (length (cache c))) && negb (map_has selector (cache c))
            then evictOldest c else c in
  with_entries (map_set selector e (cache c')) c'.

Definition invalidate (selector : string) (c : AuthCache) : AuthCache :=
  with_entries (map_delete selector (cache c)) c.

(** Deleting every selector a first pass collected. *)
Definition delete_where (p : CacheEntry -> bool) (c : AuthCache) : AuthCache :=
  with_entries (foldl (fun m s => map_delete s m) (cache c) (fst <$> filter (fun e => p e.2 = true) (cache c))) c.

Definition invalidateByUserId (userId : string) (c : AuthCache) : AuthCache :=
  delete_where (fun e => String.eqb (i_createdBy (info e)) userId) c.

Definition cleanupExpired (now : Z) (c : AuthCache) : Z * AuthCache :=
  let p := fun e => bool_decide (expiresAt e < now) in
  (Z.of_nat (length (filter (fun e => p e.2 = true) (cache c))), delete_where p c).

Definition clear (c : AuthCache) : AuthCache := with_entries [] c.
End Cache.

(** ** The JSON database *)

Record database : Type := {
  objects : list ApiKey;
  api_keys : list ref;
  disk : option (list ApiKey);   (* [None]: no readable file *)
}.

Definition rows (d : database) : list ApiKey := omap (fun r => objects d !! r) (api_keys d).

(** [db.api_keys.find(test)], the reference of the first match. *)
Definition find_key (test : ApiKey -> bool) (d : database) : option ref :=
  List.find (fun r => match objects d !! r with Some k => test k | None => false end) (api_keys d).

Definition has_id (i : string) (k : ApiKey) : bool := String.eqb (id k) i.

Definition saveDatabase (io : bool) (d : database) : database :=
  {| objects := objects d; api_keys := api_keys d; disk := if io then Some (rows d) else disk d |}.

Definition push_key (k : ApiKey) (d : database) : database :=
  {| objects := objects d ++ [k]; api_keys := api_keys d ++ [length (objects d)]; disk := disk d |}.

(** [db.api_keys[index] = object] *)
Definition replace_key (r : ref) (k : ApiKey) (d : database) : database :=
  {| objects := objects d ++ [k];
     api_keys := (fun x => if bool_decide (x = r) then length (objects d) else x) <$> api_keys d; disk := disk d |}.

Definition write_key (r : ref) (k : ApiKey) (d : database) : database :=
  {| objects := <[r := k]> (objects d); api_keys := api_keys d; disk := disk d |}.

Definition getApiKeyBySelector (selector : string) (d : database) : option ref :=
  find_key (fun k => bool_decide (key_selector k = Some selector) && is_active k) d.

Definition getApiKeyById (i : string) (d : database) : option ref := find_key (has_id i) d.

Definition db_createApiKey (now : Z) (uuid nm hash selector : string) (sc : list string) (by_ : string)
    (exp : option stamp) (d : database) : database :=
  push_key {| id := uuid; name := nm; key_hash := hash; key_selector := Some selector; scope := sc; created_by := by_;
              created_at := At now; updated_at := At now; expires_at := exp; last_used_at := None; is_active := true |} d.

Definition with_selector (selector : string) (now : Z) (k : ApiKey) : ApiKey :=
  {| id := id k; name := name k; key_hash := key_hash k; key_selector := Some selector; scope := scope k;
     created_by := created_by k; created_at := created_at k; updated_at := At now; expires_at := expires_at k;
     last_used_at := last_used_at k; is_active := is_active k |}.

Definition with_last_used (now : Z) (k : ApiKey) : ApiKey :=
  {| id := id k; name := name k; key_hash := key_hash k; key_selector := key_selector k; scope := scope k;
     created_by := created_by k; created_at := created_at k; updated_at := At now; expires_at := expires_at k;
     last_used_at := Some (At now); is_active := is_active k |}.

Definition with_credential (hash selector : string) (now : Z) (k : ApiKey) : ApiKey :=
  {| id := id k; name := name k; key_hash := hash; key_selector := Some selector; scope := scope k;
     created_by := created_by k; created_at := created_at k; updated_at := At now; expires_at := expires_at k;
     last_used_at := last_used_at k; is_active := is_active k |}.

Definition inactive (now : Z) (k : ApiKey) : ApiKey :=
  {| id := id k; name := name k; key_hash := key_hash k; key_selector := key_selector k; scope := scope k;
     created_by := created_by k; created_at := created_at k; updated_at := At now; expires_at := expires_at k;
     last_used_at := last_used_at k; is_active := false |}.

(** The methods that write into the array: [None] when the id is unknown,
    otherwise the reference of the object that is now in the array. *)
Definition updateApiKey (i : string) (update : ApiKey -> ApiKey) (d : database) : option ref * database :=
  match find_key (has_id i) d with
  | None => (None, d)
  | Some r =>
      match objects d !! r with
      | None => (None, d)
      | Some k => (Some (length (objects d)), replace_key r (update k) d)
      end
  end.

Definition db_rotateApiKey (i hash selector : string) (now : Z) (d : database) : option ref * database :=
  updateApiKey i (with_credential hash selector now) d.

Definition db_deactivateApiKey (i : string) (now : Z) (d : database) : bool * database :=
  match find_key (has_id i) d with
  | None => (false, d)
  | Some r =>
      match objects d !! r with
      | None => (false, d)
      | Some k => (true, write_key r (inactive now k) d)
      end
  end.

(** ** The service *)

(** What a turn draws from its surroundings: the clock, whether the file write
    succeeds, and the random values it generates. *)
Record draw : Type := { d_now : Z; d_io : bool; d_uuid : string; d_key : string; d_salt : string }.

Definition text (l : list ascii) : string := String.string_of_list_ascii l.

Definition hex_n (n : nat) (l : list ascii) : bool := Nat.eqb (length l) n && forallb Signing.is_hex l.

Definition isValidSaltHashFormat (stored : string) : bool :=
  match Ssrf.split_on ":"%char (chars (trim stored)) with
  | [salt; hash] => hex_n 32 salt && hex_n 128 hash
  | _ => false
  end.

(** [!key.key_selector] *)
Definition no_selector (k : ApiKey) : bool :=
  match key_selector k with None | Some EmptyString => true | _ => false end.

(** [key.expires_at && new Date() > key.expires_at] *)
Definition expired (now : Z) (k : ApiKey) : bool :=
  match expires_at k with
  | None | Some (Text EmptyString) => false
  | Some (At t) => bool_decide (t < now)
  | Some (Text s) => num_gtb (of_int now) (js_number s)
  end.

(** A call in progress, by what it is waiting for. *)
Inductive task : Type :=
| VLook (key : string)              (* validateApiKey: the lookup by selector *)
| VScan (key : string)              (* the scan of the legacy keys *)
| VBackfill (key : string) (r : ref)
| VTouch (key : string) (r : ref)
| VFinish (key : string) (r : ref)
| VExpire (key : string) (r : ref)
| VDone (key : string) (res : option ApiKeyInfo)
| CInsert (q : ApiKeyRequest) (key salt : string)
| CInvalidate (q : ApiKeyRequest) (key : string) (r : ref)
| CDone (key : string) (i : ApiKeyInfo)
| RFind (i : string)
| RWrite (i : string) (r : ref) (key salt : string)
| RInvalidate (old new : ref) (key : string)
| RDone (res : option (string * ApiKeyInfo))
| DFind (i : string)
| DWrite (i : string) (r : ref)
| DInvalidate (r : ref)
| DDone (res : bool)
| Rejected.                         (* the promise is rejected *)

Record state : Type := { db : database; auth : AuthCache; tasks : list task }.

Section Service.
Context (pbkdf2 : string -> string -> list nat) (sha256 : string -> string) (iso : Z -> string).
Context (ttlMs maxEntries : Z).

Definition computeKeySelector (key : string) : string := sha256 key.

(** [keyHash] of a new key. *)
Definition hashApiKey (key salt : string) : string :=
  text (chars salt ++ ":"%char :: Accounts.hex_text (pbkdf2 key salt)).

Definition verifyApiKey (key salt hash : string) : bool :=
  hex_n 32 (chars salt) && hex_n 128 (chars hash) &&
  bool_decide (Signing.hex_bytes (chars hash) = Signing.hex_bytes (Accounts.hex_text (pbkdf2 key salt))).

(** The format check and the verification of a stored credential. *)
Definition check_credential (key stored : string) : bool :=
  isValidSaltHashFormat stored &&
  match Ssrf.split_on ":"%char (chars stored) with
  | salt :: hash :: _ => verifyApiKey key (text salt) (text hash)
  | _ => false
  end.

(** The loop over the legacy keys. *)
Definition find_legacy (key : string) (d : database) : option ref :=
  find_key (fun k => no_selector k && is_active k && check_credential key (key_hash k)) d.

(** [validateApiKey] up to its first [await]. *)
Definition start_validate (now : Z) (key : string) (c : AuthCache) : task * AuthCache :=
  match cache_get now (computeKeySelector key) c with
  | (Some i, c') => (VDone key (Some i), c')
  | (None, c') => (VLook key, c')
  end.

Definition look (key : string) (d : database) : task :=
  match getApiKeyBySelector (computeKeySelector key) d with
  | None => VScan key
  | Some r =>
      match objects d !! r with
      | Some k => if check_credential key (key_hash k) then if no_selector k then VBackfill key r else VTouch key r
                  else VDone key None
      | None => VDone key None
      end
  end.

Definition scan (key : string) (d : database) : task :=
  match find_legacy key d with Some r => VBackfill key r | None => VDone key None end.

(** A write to the array followed by [await this.saveDatabase()]: a failed
    write rejects the promise, the array stays changed. *)
Definition saving (io : bool) (t : task) (d : database) (c : AuthCache) : task * (database * AuthCache) :=
  (if io then t else Rejected, (saveDatabase io d, c)).

(** An update of the array that may find no key to update. *)
Definition saving_update (io : bool) (t : task) (u : option ref * database) (c : AuthCache)
  : task * (database * AuthCache) :=
  match u with
  | (Some _, d) => saving io t d c
  | (None, d) => (t, (d, c))
  end.

Definition finish_validate (now : Z) (key : string) (r : ref) (k : ApiKey) (c : AuthCache) : task * AuthCache :=
  if expired now k then (VExpire key r, c)
  else (VDone key (Some (info_of k)), cache_set ttlMs maxEntries now (computeKeySelector key) (info_of k) c).

(** The invalidations after a rotation or a deactivation. *)
Definition invalidate_key (k : ApiKey) (c : AuthCache) : AuthCache :=
  let c' := match key_selector k with None | Some EmptyString => c | Some s => invalidate s c end in
  invalidateByUserId (created_by k) c'.

Definition advance (w : draw) (t : task) (d : database) (c : AuthCache) : task * (database * AuthCache) :=
  let now := d_now w in
  let io := d_io w in
  let with_key r f := match objects d !! r with Some k => f k | None => (t, (d, c)) end in
  match t with
  | VLook key => (look key d, (d, c))
  | VScan key => (scan key d, (d, c))
  | VBackfill key r => with_key r (fun k =>
      saving_update io (VTouch key r) (updateApiKey (id k) (with_selector (computeKeySelector key) now) d) c)
  | VTouch key r => with_key r (fun k =>
      saving_update io (VFinish key r) (updateApiKey (id k) (with_last_used now) d) c)
  | VFinish key r => with_key r (fun k =>
      let '(t', c') := finish_validate now key r k c in (t', (d, c')))
  | VExpire key r => with_key r (fun k =>
      let '(found, d') := db_deactivateApiKey (id k) now d in
      if found then saving io (VDone key None) d' c else (VDone key None, (d', c)))
  | CInsert q key salt =>
      saving io (CInvalidate q key (length (objects d)))
        (db_createApiKey now (d_uuid w) (r_name q) (hashApiKey key salt) (computeKeySelector key) (r_scope q)
           (r_createdBy q) (r_expiresAt q) d) c
  | CInvalidate q key r => with_key r (fun k =>
      (CDone key (info_of k), (d, invalidateByUserId (r_createdBy q) c)))
  | RFind i =>
      (match getApiKeyById i d with Some r => RWrite i r (d_key w) (d_salt w) | None => RDone None end, (d, c))
  | RWrite i r key salt =>
      match db_rotateApiKey i (hashApiKey key salt) (computeKeySelector key) now d with
      | (Some n, d') => saving io (RInvalidate r n key) d' c
      | (None, d') => (RDone None, (d', c))
      end
  | RInvalidate old new key => with_key old (fun k => with_key new (fun k' =>
      (RDone (Some (key, info_of k')), (d, invalidate_key k c))))
  | DFind i => (match getApiKeyById i d with Some r => DWrite i r | None => DDone false end, (d, c))
  | DWrite i r =>
      match db_deactivateApiKey i now d with
      | (true, d') => saving io (DInvalidate r) d' c
      | (false, d') => (DDone false, (d', c))
      end
  | DInvalidate r => with_key r (fun k => (DDone true, (d, invalidate_key k c)))
  | VDone _ _ | CDone _ _ | RDone _ | DDone _ | Rejected => (t, (d, c))
  end.

(** ** Turns of the event loop *)

Definition reload_stamp (x : stamp) : stamp := match x with At t => Text (iso t) | Text s => Text s end.

(** A key through [JSON.stringify] and [JSON.parse]. *)
Definition reload_key (k : ApiKey) : ApiKey :=
  {| id := id k; name := name k; key_hash := key_hash k; key_selector := key_selector k; scope := scope k;
     created_by := created_by k; created_at := reload_stamp (created_at k); updated_at := reload_stamp (updated_at k);
     expires_at := reload_stamp <$> expires_at k; last_used_at := reload_stamp <$> last_used_at k;
     is_active := is_active k |}.

(** [loadDatabase] in a new process: an unreadable file is replaced by an empty
    database. *)
Definition loadDatabase (file : option (list ApiKey)) : database :=
  let ks := reload_key <$> default [] file in
  {| objects := ks; api_keys := seq 0 (length ks); disk := Some (default [] file) |}.

Inductive turn : Type :=
| Validate (now : Z) (key : string)
| Create (q : ApiKeyRequest) (key salt : string)
| Rotate (i : string)
| Deactivate (i : string)
| Step (n : nat) (w : draw)
| Cleanup (now : Z)
| Restart.

Definition add_task (t : task) (c : AuthCache) (s : state) : state :=
  {| db := db s; auth := c; tasks := tasks s ++ [t] |}.

Definition exec (u : turn) (s : state) : state :=
  match u with
  | Validate now key => let '(t, c) := start_validate now key (auth s) in add_task t c s
  | Create q key salt => add_task (CInsert q key salt) (auth s) s
  | Rotate i => add_task (RFind i) (auth s) s
  | Deactivate i => add_task (DFind i) (auth s) s
  | Step n w =>
      match tasks s !! n with
      | Some t =>
          let '(t', (d, c)) := advance w t (db s) (auth s) in
          {| db := d; auth := c; tasks := <[n := t']> (tasks s) |}
      | None => s
      end
  | Cleanup now => {| db := db s; auth := (cleanupExpired now (auth s)).2; tasks := tasks s |}
  | Restart => {| db := loadDatabase (disk (db s)); auth := empty_cache; tasks := [] |}
  end.

Definition run (us : list turn) (s : state) : state := foldl (fun s u => exec u s) s us.

(** What a turn answers to the caller of [validateApiKey] when it accepts:
    the time, the key presented and the information attached to the request. *)
Definition answer (u : turn) (s : state) : option (Z * string * ApiKeyInfo) :=
  match u with
  | Validate now key =>
      match start_validate now key (auth s) with
      | (VDone _ (Some i), _) => Some (now, key, i)
      | _ => None
      end
  | Step n w =>
      match tasks s !! n with
      | Some (VDone _ _) | None => None
      | Some t =>
          match advance w t (db s) (auth s) with
          | (VDone key (Some i), _) => Some (d_now w, key, i)
          | _ => None
          end
      end
  | _ => None
  end.

Fixpoint answers (us : list turn) (s : state) : list (Z * string * ApiKeyInfo) :=
  match us with
  | [] => []
  | u :: us => match answer u s with Some a => [a] | None => [] end ++ answers us (exec u s)
  end.

(** ** Effects on the database *)

(** The fields an object keeps for its whole life. *)
Definition same_key (k k' : ApiKey) : Prop :=
  id k' = id k /\ name k' = name k /\ key_hash k' = key_hash k /\ key_selector k' = key_selector k /\
  scope k' = scope k /\ created_by k' = created_by k /\ created_at k' = created_at k /\ expires_at k' = expires_at k.

Definition extends (os os' : list ApiKey) : Prop :=
  forall r k, os !! r = Some k -> exists k', os' !! r = Some k' /\ same_key k k'.

(** An update of the array keeps these. *)
Definition keeps (f : ApiKey -> ApiKey) : Prop :=
  forall k, id (f k) = id k /\ created_by (f k) = created_by k /\ is_active (f k) = is_active k.

Definition used_ids (d : database) : list string := (id <$> objects d) ++ (id <$> default [] (disk d)).

Inductive effect (d : database) : database -> Prop :=
| E_same : effect d d
| E_push k : id k ∉ used_ids d -> effect d (push_key k d)
| E_update i f r k : find_key (has_id i) d = Some r -> objects d !! r = Some k -> keeps f ->
    effect d (replace_key r (f k) d)
| E_off i now r k : find_key (has_id i) d = Some r -> objects d !! r = Some k ->
    effect d (write_key r (inactive now k) d)
| E_save d' io : effect d d' -> effect d (saveDatabase io d').

(** The uuid a creation draws is new. *)
Definition fresh_turn (s : state) (u : turn) : Prop :=
  match u with
  | Step n w => match tasks s !! n with Some (CInsert _ _ _) => d_uuid w ∉ used_ids (db s) | _ => True end
  | _ => True
  end.

Fixpoint fresh_run (us : list turn) (s : state) : Prop :=
  match us with [] => True | u :: us => fresh_turn s u /\ fresh_run us (exec u s) end.

Lemma keeps_selector sel now : keeps (with_selector sel now).
Proof. by intros k. Qed.
Lemma keeps_last_used now : keeps (with_last_used now).
Proof. by intros k. Qed.
Lemma keeps_credential h sel now : keeps (with_credential h sel now).
Proof. by intros k. Qed.
Hint Resolve keeps_selector keeps_last_used keeps_credential E_same E_save : core.

Lemma updateApiKey_effect i f d o d' : keeps f -> updateApiKey i f d = (o, d') ->
  effect d d' /\ (forall n, o = Some n -> n = length (objects d)).
Proof.
  unfold updateApiKey. intros Hf. destruct (find_key _ d) as [r|] eqn:E; [|intros [= <- <-]; by eauto].
  destruct (objects d !! r) as [k|] eqn:Ek; intros [= <- <-]; [|by eauto].
  split; [by eapply E_update|by intros n [= <-]].
Qed.

Lemma deactivate_effect i now d b d' : db_deactivateApiKey i now d = (b, d') -> effect d d'.
Proof.
  unfold db_deactivateApiKey. destruct (find_key _ d) as [r|] eqn:E; [|intros [= <- <-]; done].
  destruct (objects d !! r) as [k|] eqn:Ek; intros [= <- <-]; [by eapply E_off|done].
Qed.

Lemma saving_update_effect io t i f d c : keeps f -> effect d (saving_update io t (updateApiKey i f d) c).2.1.
Proof.
  intros Hf. destruct (updateApiKey i f d) as [o d'] eqn:E. apply updateApiKey_effect in E as [E _]; [|done].
  destruct o; simpl; [by apply E_save|done].
Qed.

Lemma advance_effect w t d c :
  (forall q key salt, t = CInsert q key salt -> d_uuid w ∉ used_ids d) -> effect d (advance w t d c).2.1.
Proof.
  intros Hf. destruct t as [key|key|key r|key r|key r|key r|key res|q key salt|q key r|key i|i|i r key salt|old new key
    |res|i|i r|r|res|]; simpl; try done; try (destruct (objects d !! r) as [k|]; [|done]);
    try (by apply saving_update_effect).
  - by destruct (finish_validate _ _ _ _ _).
  - destruct (db_deactivateApiKey _ _ _) as [b d'] eqn:E. apply deactivate_effect in E.
    destruct b; [by apply E_save|done].
  - apply E_save, E_push. by eapply Hf.
  - done.
  - unfold db_rotateApiKey. destruct (updateApiKey _ _ _) as [o d'] eqn:E.
    apply updateApiKey_effect in E as [E _]; [|done]. destruct o; [by apply E_save|done].
  - destruct (objects d !! old); [|done]. by destruct (objects d !! new).
  - destruct (db_deactivateApiKey _ _ _) as [b d'] eqn:E. apply deactivate_effect in E.
    destruct b; [by apply E_save|done].
  - done.
Qed.

(** ** The invariant of the database *)

Record db_ok (d : database) : Prop := {
  refs_valid : Forall (fun r => r < length (objects d))%nat (api_keys d);
  ids_distinct : NoDup (id <$> rows d);
  owners : forall k k', k ∈ objects d -> k' ∈ objects d -> id k = id k' -> created_by k = created_by k';
  disk_distinct : NoDup (id <$> default [] (disk d));
}.

Lemma elem_of_key_rows k d : k ∈ rows d <-> exists r, r ∈ api_keys d /\ objects d !! r = Some k.
Proof. unfold rows. by rewrite list_elem_of_omap. Qed.

Lemma rows_ids d : id <$> rows d = omap (fun r => id <$> objects d !! r) (api_keys d).
Proof.
  unfold rows. induction (api_keys d) as [|r l IH]; [done|]. simpl.
  destruct (objects d !! r); simpl; [f_equal|]; exact IH.
Qed.

Lemma find_key_Some p d r : find_key p d = Some r ->
  r ∈ api_keys d /\ exists k, objects d !! r = Some k /\ p k = true.
Proof.
  intros [Hin Hp]%List.find_some. split; [by apply list_elem_of_In|].
  destruct (objects d !! r) as [k|]; [by exists k|done].
Qed.

Lemma find_key_None p d k : find_key p d = None -> k ∈ rows d -> p k = false.
Proof.
  intros H (r & Hr & Hk)%elem_of_key_rows. apply list_elem_of_In in Hr. apply (List.find_none _ _ H) in Hr. by rewrite Hk in Hr.
Qed.

Lemma same_key_refl k : same_key k k.
Proof. by repeat split. Qed.

Lemma same_key_inactive now k : same_key k (inactive now k).
Proof. by repeat split. Qed.

Lemma extends_refl os : extends os os.
Proof. intros r k H. exists k. split; [done|apply same_key_refl]. Qed.

Lemma extends_app os k : extends os (os ++ [k]).
Proof.
  intros r x H. exists x. split; [|apply same_key_refl]. by apply lookup_app_l_Some.
Qed.

Lemma effect_extends d d' : effect d d' -> extends (objects d) (objects d').
Proof.
  induction 1 as [|k Hk|i f r k Hr Hk Hf|i now r k Hr Hk|d' io H IH]; simpl; auto using extends_refl, extends_app.
  intros x k' Hx. destruct (decide (x = r)) as [->|Hne].
  - exists (inactive now k). rewrite list_lookup_insert_eq by by eapply lookup_lt_Some.
    split; [done|]. simplify_eq. apply same_key_inactive.
  - exists k'. rewrite list_lookup_insert_ne by done. split; [done|apply same_key_refl].
Qed.

Lemma rows_push k d : Forall (fun r => r < length (objects d))%nat (api_keys d) -> rows (push_key k d) = rows d ++ [k].
Proof.
  intros H. unfold rows, push_key; simpl. rewrite omap_app. simpl.
  rewrite lookup_app_r, Nat.sub_diag by done. simpl. f_equal.
  induction H as [|r l Hr _ IH]; [done|]. simpl. rewrite lookup_app_l by done.
  destruct (objects d !! r); [f_equal|]; exact IH.
Qed.

Lemma ids_replace r k' d k :
  Forall (fun x => x < length (objects d))%nat (api_keys d) -> objects d !! r = Some k -> id k' = id k ->
  id <$> rows (replace_key r k' d) = id <$> rows d.
Proof.
  intros H Hk Hid. rewrite !rows_ids. simpl. induction H as [|x l Hx _ IH]; [done|]. cbn [fmap list_fmap omap list_omap].
  rewrite IH. case_bool_decide as E.
  - subst x. rewrite lookup_app_r, Nat.sub_diag, Hk by done. simpl. by rewrite Hid.
  - by rewrite lookup_app_l.
Qed.

Lemma ids_write r now d k :
  objects d !! r = Some k -> id <$> rows (write_key r (inactive now k) d) = id <$> rows d.
Proof.
  intros Hk. rewrite !rows_ids. simpl. induction (api_keys d) as [|x l IH]; [done|]. cbn [omap list_omap].
  rewrite IH. destruct (decide (x = r)) as [->|Hne].
  - rewrite list_lookup_insert_eq by by eapply lookup_lt_Some. by rewrite Hk.
  - by rewrite list_lookup_insert_ne.
Qed.

Lemma effect_ok d d' : effect d d' -> db_ok d -> db_ok d'.
Proof.
  intros H Hd. induction H as [|k Hk|i f r k Hr Hk Hf|i now r k Hr Hk|d' io H IH]; [done| | | |].
  - destruct Hd as [Hv Hn Ho Hs]. unfold used_ids in Hk. apply not_elem_of_app in Hk as [Hk1 Hk2]. split.
    + simpl. apply Forall_app. rewrite length_app; simpl. split; [|apply Forall_singleton; lia].
      eapply Forall_impl; [exact Hv|]. simpl. lia.
    + rewrite rows_push, fmap_app by done. apply NoDup_app. split; [done|]. split; [|apply NoDup_singleton].
      intros x (y & -> & (r & _ & Hy)%elem_of_key_rows)%list_elem_of_fmap Hin. apply list_elem_of_singleton in Hin.
      destruct Hk1. rewrite <- Hin. apply list_elem_of_fmap. exists y. split; [done|]. by eapply list_elem_of_lookup_2.
    + simpl. intros x y [Hx|Hx%list_elem_of_singleton]%elem_of_app [Hy|Hy%list_elem_of_singleton]%elem_of_app He;
        subst; auto; destruct Hk1; apply list_elem_of_fmap; eauto.
    + done.
  - destruct Hd as [Hv Hn Ho Hs]. destruct (Hf k) as (Hid & Hcb & _). split.
    + simpl. rewrite Forall_fmap. rewrite length_app; simpl. eapply Forall_impl; [exact Hv|].
      intros x Hx. simpl in *. case_bool_decide; lia.
    + by rewrite (ids_replace r (f k) d k).
    + assert (Hko : k ∈ objects d) by by eapply list_elem_of_lookup_2.
      simpl. intros x y [Hx|Hx%list_elem_of_singleton]%elem_of_app [Hy|Hy%list_elem_of_singleton]%elem_of_app He; subst; auto.
      * rewrite Hcb. apply Ho; [done..|congruence].
      * rewrite Hcb. apply Ho; [done..|congruence].
    + done.
  - destruct Hd as [Hv Hn Ho Hs]. split.
    + simpl. by rewrite length_insert.
    + by rewrite ids_write.
    + assert (Hold : forall x, x ∈ <[r := inactive now k]> (objects d) -> exists y, y ∈ objects d /\ id x = id y /\ created_by x = created_by y).
      { intros x [j Hj]%list_elem_of_lookup. apply list_lookup_insert_Some in Hj as [(-> & <- & _)|[_ Hj]].
        - exists k. split; [by eapply list_elem_of_lookup_2|done].
        - exists x. split; [by eapply list_elem_of_lookup_2|done]. }
      simpl. intros x y (x' & Hx & Ex & ->)%Hold (y' & Hy & Ey & ->)%Hold He. apply Ho; congruence.
    + done.
  - destruct IH as [Hv Hn Ho Hs]. split; try done.
    simpl. destruct io; [|done]. exact Hn.
Qed.

Lemma load_rows file : rows (loadDatabase file) = reload_key <$> default [] file.
Proof.
  unfold rows, loadDatabase; simpl. set (l := reload_key <$> default [] file). clearbody l.
  assert (H : forall pre post : list ApiKey, omap (fun r : nat => (pre ++ post) !! r) (seq (length pre) (length post)) = post).
  { intros pre post. revert pre. induction post as [|x post IH]; intros pre; [done|]. simpl.
    rewrite lookup_app_r, Nat.sub_diag by lia. simpl. f_equal.
    specialize (IH (pre ++ [x])). rewrite length_app, Nat.add_1_r in IH.
    replace ((pre ++ [x]) ++ post) with (pre ++ x :: post) in IH by by rewrite <- (assoc (++)). exact IH. }
  apply (H []).
Qed.

Lemma load_ok d : db_ok d -> db_ok (loadDatabase (disk d)).
Proof.
  intros [_ _ _ Hs].
  assert (Hids : id <$> (reload_key <$> default [] (disk d)) = id <$> default [] (disk d)).
  { rewrite <- list_fmap_compose. by apply list_fmap_ext. }
  split.
  - simpl. apply Forall_forall. intros r Hr%elem_of_seq. lia.
  - by rewrite load_rows, Hids.
  - simpl. intros k k' [j Hj]%list_elem_of_lookup [j' Hj']%list_elem_of_lookup He.
    assert (j = j') as ->; [|congruence]. rewrite <- Hids in Hs.
    eapply NoDup_lookup; [exact Hs|rewrite list_lookup_fmap, Hj; done|rewrite list_lookup_fmap, Hj'; simpl; congruence].
  - done.
Qed.

(** ** Entries of the cache *)

Lemma elem_of_map_set {V} (m : list (string * V)) k v x : x ∈ map_set k v m -> x = (k, v) \/ x ∈ m.
Proof.
  induction m as [|[k' v'] m IH]; simpl.
  - intros ->%list_elem_of_singleton. by left.
  - case_decide as E.
    + intros [->|H]%elem_of_cons; [left; by subst|right; by right].
    + intros [->|H]%elem_of_cons; [right; by left|]. destruct (IH H); [by left|right; by right].
Qed.

Lemma elem_of_delete_all {V} (l : list string) (m : list (string * V)) x :
  x ∈ foldl (fun m s => map_delete s m) m l <-> x ∈ m /\ x.1 ∉ l.
Proof.
  revert m. induction l as [|s l IH]; intros m; simpl; [set_solver|].
  rewrite IH. unfold map_delete. rewrite list_elem_of_filter. set_solver.
Qed.

Lemma elem_of_delete_where p c sel e :
  (sel, e) ∈ cache (delete_where p c) -> (sel, e) ∈ cache c /\ p e = false.
Proof.
  unfold delete_where; simpl. intros [H Hn]%elem_of_delete_all. split; [done|]. simpl in Hn.
  destruct (p e) eqn:E; [|done]. destruct Hn. apply list_elem_of_fmap. exists (sel, e).
  split; [done|]. by apply list_elem_of_filter.
Qed.

Lemma wf_delete_where p c : wf (cache c) -> wf (cache (delete_where p c)).
Proof.
  unfold delete_where; simpl. generalize (fst <$> filter (fun e => p e.2 = true) (cache c)). intros l.
  generalize (cache c). induction l as [|x l IH]; intros m H; [done|]. simpl. by apply IH, wf_delete.
Qed.

Lemma length_delete_all {V} (l : list string) (m : list (string * V)) :
  (length (foldl (fun m s => map_delete s m) m l) <= length m)%nat.
Proof.
  revert m. induction l as [|s l IH]; intros m; simpl; [done|]. etransitivity; [apply IH|].
  apply length_filter.
Qed.

Lemma oldest_entry_Some m s t : oldest m = Some (s, t) -> s ∈ m.*1.
Proof.
  unfold oldest. assert (H : forall best, (forall s t, best = Some (s, t) -> s ∈ m.*1) -> forall m', m' ⊆ m ->
    forall s t, foldl (fun best e => match best with
      | None => Some (e.1, lastAccessed e.2)
      | Some (_, t) => if bool_decide (lastAccessed e.2 < t) then Some (e.1, lastAccessed e.2) else best end) best m'
      = Some (s, t) -> s ∈ m.*1).
  { intros best Hb m'. revert best Hb. induction m' as [|e m' IH]; intros best Hb Hm x y; simpl; [apply Hb|].
    assert (He : e.1 ∈ m.*1) by (apply list_elem_of_fmap; exists e; set_solver).
    apply IH; [|set_solver]. destruct best as [[a b]|]; [case_bool_decide|]; intros ? ? [= <- <-]; try done. by eapply Hb. }
  by eapply (H None).
Qed.

Lemma oldest_entry_None m : oldest m = None -> m = [].
Proof.
  destruct m as [|e m]; [done|]. unfold oldest; simpl.
  assert (H : forall a, foldl (fun best e => match best with
      | None => Some (e.1, lastAccessed e.2)
      | Some (_, t) => if bool_decide (lastAccessed e.2 < t) then Some (e.1, lastAccessed e.2) else best end) (Some a) m <> None).
  { induction m as [|x m IH]; intros [a b]; simpl; [done|]. case_bool_decide; apply IH. }
  intros E. by destruct (H _ E).
Qed.

Lemma evict_subset c x : x ∈ cache (evictOldest c) -> x ∈ cache c.
Proof.
  unfold evictOldest. destruct (oldest (cache c)) as [[[|a s] t]|]; [done| |done].
  simpl. unfold map_delete. rewrite list_elem_of_filter. by intros [_ ?].
Qed.

Lemma wf_evict c : wf (cache c) -> wf (cache (evictOldest c)).
Proof. intros H. unfold evictOldest. destruct (oldest (cache c)) as [[[|a s] t]|]; try done. by apply wf_delete. Qed.

Lemma length_evict c :
  wf (cache c) -> EmptyString ∉ map_keys (cache c) -> (0 < length (cache c))%nat ->
  (length (cache (evictOldest c)) < length (cache c))%nat.
Proof.
  intros Hw He Hl. unfold evictOldest. destruct (oldest (cache c)) as [[s t]|] eqn:E.
  - apply oldest_entry_Some in E. destruct s as [|a s]; [by destruct He|]. simpl.
    destruct (map_get (String a s) (cache c)) as [v|] eqn:G; [|by apply map_get_None in G].
    pose proof (length_delete_Some _ _ v Hw G). lia.
  - apply oldest_entry_None in E. rewrite E in Hl. simpl in Hl. lia.
Qed.

Lemma cache_get_entry now x c sel e :
  (sel, e) ∈ cache (cache_get now x c).2 ->
  exists e', (sel, e') ∈ cache c /\ info e = info e' /\ expiresAt e = expiresAt e'.
Proof.
  unfold cache_get. destruct (map_get x (cache c)) as [e0|] eqn:E; [|simpl; by eauto].
  case_bool_decide; simpl.
  - unfold map_delete. intros [_ H']%list_elem_of_filter. by eauto.
  - intros [[= -> ->]|H']%elem_of_map_set; [|by eauto]. exists e0. split; [by apply map_get_elem_of|done].
Qed.

Lemma cache_get_hit now x c i :
  (cache_get now x c).1 = Some i -> exists e, (x, e) ∈ cache c /\ info e = i /\ now <= expiresAt e.
Proof.
  unfold cache_get. destruct (map_get x (cache c)) as [e0|] eqn:E; [|done].
  case_bool_decide; simpl; [done|]. intros [= <-]. exists e0. split; [by apply map_get_elem_of|]. split; [done|lia].
Qed.

Lemma cache_get_size now x c : wf (cache c) ->
  wf (cache (cache_get now x c).2) /\ (length (cache (cache_get now x c).2) <= length (cache c))%nat.
Proof.
  intros H. unfold cache_get. destruct (map_get x (cache c)) as [e0|] eqn:E; [|done].
  case_bool_decide; simpl.
  - split; [by apply wf_delete|]. apply length_filter.
  - split; [by apply wf_set|]. by rewrite (length_set_Some _ _ _ e0).
Qed.

Lemma cache_set_entry now x i c sel e :
  (sel, e) ∈ cache (cache_set ttlMs maxEntries now x i c) ->
  (sel, e) ∈ cache c \/ sel = x /\ info e = i /\ expiresAt e = now + ttlMs.
Proof.
  unfold cache_set; simpl. intros [[= -> ->]|H]%elem_of_map_set; [by right|]. left.
  destruct (_ && _); [by apply evict_subset|done].
Qed.

Lemma cache_set_size now x i c :
  1 <= maxEntries -> wf (cache c) -> EmptyString ∉ map_keys (cache c) -> Z.of_nat (length (cache c)) <= maxEntries ->
  wf (cache (cache_set ttlMs maxEntries now x i c)) /\
  Z.of_nat (length (cache (cache_set ttlMs maxEntries now x i c))) <= maxEntries.
Proof.
  intros Hm Hw He Hl. unfold cache_set. destruct (map_has x (cache c)) eqn:Hx.
  - rewrite andb_false_r; simpl. split; [by apply wf_set|]. apply map_has_true in Hx as [v Hv].
    by rewrite (length_set_Some _ _ _ v).
  - rewrite andb_true_r; simpl. apply map_has_false in Hx.
    set (c' := if bool_decide _ then evictOldest c else c).
    assert (Hc' : wf (cache c') /\ Z.of_nat (length (cache c')) < maxEntries).
    { subst c'. case_bool_decide; [|split; [done|lia]]. split; [by apply wf_evict|].
      pose proof (length_evict c Hw He) as L. lia. }
    assert (Hn : map_get x (cache c') = None).
    { apply map_get_None. apply map_get_None in Hx. intros H. apply Hx. unfold map_keys in *.
      apply list_elem_of_fmap in H as (y & -> & Hy). apply list_elem_of_fmap. exists y. split; [done|].
      subst c'. destruct (bool_decide _); [by apply evict_subset|done]. }
    destruct Hc' as [Hw' Hl']. split; [by apply wf_set|]. rewrite length_set_None by done. lia.
Qed.

(** ** The invariant of the process *)

Definition describes (i : ApiKeyInfo) (k : ApiKey) : Prop :=
  i_id i = id k /\ i_name i = name k /\ i_scope i = scope k /\ i_createdBy i = created_by k /\
  i_createdAt i = created_at k /\ i_expiresAt i = expires_at k.

(** The information belongs to a stored key whose credential was checked
    against a key with this selector. *)
Definition accepted (os : list ApiKey) (sel : string) (i : ApiKeyInfo) : Prop :=
  exists key k, sel = computeKeySelector key /\ k ∈ os /\ check_credential key (key_hash k) = true /\ describes i k.

Definition entry_ok (os : list ApiKey) (sel : string) (e : CacheEntry) : Prop :=
  accepted os sel (info e) /\ forall t, i_expiresAt (info e) = Some (At t) -> expiresAt e <= t + ttlMs.

Definition task_ok (os : list ApiKey) (t : task) : Prop :=
  match t with
  | VBackfill key r | VTouch key r | VFinish key r =>
      exists k, os !! r = Some k /\ check_credential key (key_hash k) = true
  | VExpire _ r | CInvalidate _ _ r | DInvalidate r => is_Some (os !! r)
  | VDone key (Some i) => accepted os (computeKeySelector key) i
  | RWrite i r _ _ | DWrite i r => exists k, os !! r = Some k /\ id k = i
  | RInvalidate old new _ => is_Some (os !! old) /\ is_Some (os !! new)
  | _ => True
  end.

Record ok (s : state) : Prop := {
  s_db : db_ok (db s);
  s_entries : forall sel e, (sel, e) ∈ cache (auth s) -> entry_ok (objects (db s)) sel e;
  s_wf : wf (cache (auth s));
  s_size : Z.of_nat (length (cache (auth s))) <= maxEntries;
  s_tasks : Forall (task_ok (objects (db s))) (tasks s);
}.

Lemma extends_Some os os' r : extends os os' -> is_Some (os !! r) -> is_Some (os' !! r).
Proof. intros He [k Hk]. destruct (He r k Hk) as (k' & -> & _). by eexists. Qed.

Lemma accepted_mono os os' sel i : extends os os' -> accepted os sel i -> accepted os' sel i.
Proof.
  intros He (key & k & Hs & [r Hr]%list_elem_of_lookup & Hc & Hd). destruct (He r k Hr) as (k' & Hk' & Hsame).
  exists key, k'. split; [done|]. split; [by eapply list_elem_of_lookup_2|].
  destruct Hsame as (E1 & E2 & E3 & E4 & E5 & E6 & E7 & E8). unfold describes in *.
  by rewrite E1, E2, E3, E5, E6, E7, E8.
Qed.

Lemma entry_mono os os' sel e : extends os os' -> entry_ok os sel e -> entry_ok os' sel e.
Proof. intros He [H1 H2]. split; [by eapply accepted_mono|done]. Qed.

Lemma task_mono os os' t : extends os os' -> task_ok os t -> task_ok os' t.
Proof.
  intros He. assert (H : forall r k, os !! r = Some k -> exists k', os' !! r = Some k' /\ key_hash k' = key_hash k /\ id k' = id k).
  { intros r k Hk. destruct (He r k Hk) as (k' & Hk' & E1 & _ & E3 & _). by exists k'. }
  destruct t as [key|key|key r|key r|key r|key r|key [i|]|q key salt|q key r|key i|i|i r key salt|old new key
    |res|i|i r|r|res|]; simpl; eauto using extends_Some, accepted_mono;
    try (intros (k & Hk & Hc); destruct (H r k Hk) as (k' & ? & ? & ?); exists k'; split; congruence).
  intros [H1 H2]. split; by eapply extends_Some.
Qed.

Lemma info_describes k : describes (info_of k) k.
Proof. by repeat split. Qed.

Lemma look_ok key d : task_ok (objects d) (look key d).
Proof.
  unfold look. destruct (getApiKeyBySelector _ d) as [r|] eqn:E; [|done]. destruct (objects d !! r) as [k|] eqn:Ek; [|done].
  destruct (check_credential key (key_hash k)) eqn:Ec; [|done]. destruct (no_selector k); simpl; by eauto.
Qed.

Lemma scan_ok key d : task_ok (objects d) (scan key d).
Proof.
  unfold scan. destruct (find_legacy key d) as [r|] eqn:E; [|done].
  apply find_key_Some in E as (_ & k & Hk & [_ Hc]%andb_true_iff). simpl. by eauto.
Qed.

(** An expiry date an accepted key carries has not passed. *)
Lemma not_expired now k t : expired now k = false -> expires_at k = Some (At t) -> now <= t.
Proof. unfold expired. intros H E. rewrite E in H. case_bool_decide; [done|lia]. Qed.

Lemma saving_update_task io t i f d c os :
  task_ok os t -> task_ok os (saving_update io t (updateApiKey i f d) c).1.
Proof. destruct (updateApiKey i f d) as [[n|] d']; simpl; [by destruct io|done]. Qed.

Lemma getApiKeyById_Some i d r : getApiKeyById i d = Some r -> exists k, objects d !! r = Some k /\ id k = i.
Proof. intros (_ & k & Hk & Hi%String.eqb_eq)%find_key_Some. by exists k. Qed.

Lemma updateApiKey_new i f d n d' : updateApiKey i f d = (Some n, d') -> is_Some (objects d' !! n).
Proof.
  unfold updateApiKey. destruct (find_key _ d) as [r|]; [|done]. destruct (objects d !! r) as [k|]; [|done].
  intros [= <- <-]. simpl. rewrite lookup_app_r, Nat.sub_diag by done. by eexists.
Qed.

Lemma advance_task w t d c :
  (forall q key salt, t = CInsert q key salt -> d_uuid w ∉ used_ids d) -> task_ok (objects d) t ->
  task_ok (objects (advance w t d c).2.1) (advance w t d c).1.
Proof.
  intros Hf Ht. pose proof (effect_extends _ _ (advance_effect w t d c Hf)) as He.
  destruct t as [key|key|key r|key r|key r|key r|key res|q key salt|q key r|key i|i|i r key salt|old new key
    |res|i|i r|r|res|]; simpl in *; try done.
  - apply look_ok.
  - apply scan_ok.
  - destruct Ht as (k & Hk & Hc). rewrite Hk in *. apply saving_update_task.
    destruct (He r k Hk) as (k' & Hk' & S). exists k'. destruct S as (_ & _ & -> & _). done.
  - destruct Ht as (k & Hk & Hc). rewrite Hk in *. apply saving_update_task.
    destruct (He r k Hk) as (k' & Hk' & S). exists k'. destruct S as (_ & _ & -> & _). done.
  - destruct Ht as (k & Hk & Hc). rewrite Hk in *. unfold finish_validate in *.
    destruct (expired _ k); simpl; [by eexists|]. exists key, k.
    split; [done|]. split; [by eapply list_elem_of_lookup_2|]. split; [done|apply info_describes].
  - destruct Ht as (k & Hk). rewrite Hk in *. destruct (db_deactivateApiKey _ _ _) as [[|] d']; [|done]. by destruct (d_io w).
  - destruct (d_io w); [|done]. simpl. rewrite lookup_app_r, Nat.sub_diag by done. by eexists.
  - destruct Ht as (k & Hk). by rewrite Hk.
  - destruct (getApiKeyById i d) as [r|] eqn:E; [|done]. simpl. by apply getApiKeyById_Some.
  - destruct Ht as (k & Hk & Hi). unfold db_rotateApiKey in *. destruct (updateApiKey _ _ _) as [[n|] d'] eqn:E; [|done].
    simpl in *. destruct (d_io w); [|done]. simpl. split; [|by eapply updateApiKey_new].
    apply (extends_Some _ _ _ He). by eexists.
  - destruct Ht as [[k Hk] [k' Hk']]. by rewrite Hk, Hk'.
  - destruct (getApiKeyById i d) as [r|] eqn:E; [|done]. simpl. by apply getApiKeyById_Some.
  - destruct Ht as (k & Hk & Hi). destruct (db_deactivateApiKey _ _ _) as [[|] d'] eqn:E; [|done].
    simpl in *. destruct (d_io w); [|done]. simpl. apply (extends_Some _ _ _ He). by eexists.
  - destruct Ht as (k & Hk). by rewrite Hk.
Qed.

(** A cache with fewer entries. *)
Definition shrinks (c c' : AuthCache) : Prop :=
  (forall x, x ∈ cache c' -> x ∈ cache c) /\ (wf (cache c) -> wf (cache c')) /\
  (length (cache c') <= length (cache c))%nat.

Lemma shrinks_refl c : shrinks c c.
Proof. done. Qed.

Lemma shrinks_trans c1 c2 c3 : shrinks c1 c2 -> shrinks c2 c3 -> shrinks c1 c3.
Proof. intros (A1 & B1 & C1) (A2 & B2 & C2). split; [by auto|]. split; [by auto|lia]. Qed.

Lemma shrinks_delete_where p c : shrinks c (delete_where p c).
Proof.
  split; [intros [sel e] H; by apply elem_of_delete_where in H as [? _]|]. split; [apply wf_delete_where|apply length_delete_all].
Qed.

Lemma shrinks_invalidate sel c : shrinks c (invalidate sel c).
Proof.
  split; [|split; [apply wf_delete|apply length_filter]].
  simpl. unfold map_delete. intros x [_ H]%list_elem_of_filter. done.
Qed.

Lemma shrinks_invalidate_key k c : shrinks c (invalidate_key k c).
Proof.
  unfold invalidate_key. eapply shrinks_trans; [|apply shrinks_delete_where].
  destruct (key_selector k) as [[|a s]|]; auto using shrinks_refl, shrinks_invalidate.
Qed.

Lemma saving_update_cache io t i f d c : (saving_update io t (updateApiKey i f d) c).2.2 = c.
Proof. by destruct (updateApiKey i f d) as [[n|] d']. Qed.

(** A step shrinks the cache or is the last step of an accepting validation. *)
Lemma advance_cache w t d c :
  shrinks c (advance w t d c).2.2 \/
  exists key r k, t = VFinish key r /\ objects d !! r = Some k /\ expired (d_now w) k = false /\
    advance w t d c = (VDone key (Some (info_of k)), (d,
      cache_set ttlMs maxEntries (d_now w) (computeKeySelector key) (info_of k) c)).
Proof.
  destruct t as [key|key|key r|key r|key r|key r|key res|q key salt|q key r|key i|i|i r key salt|old new key
    |res|i|i r|r|res|]; simpl; try (left; apply shrinks_refl); try (destruct (objects d !! r) as [k|] eqn:E;
    [|left; apply shrinks_refl]).
  - left. rewrite saving_update_cache. apply shrinks_refl.
  - left. rewrite saving_update_cache. apply shrinks_refl.
  - unfold finish_validate. destruct (expired _ k) eqn:Ex; [left; apply shrinks_refl|right]. by exists key, r, k.
  - left. destruct (db_deactivateApiKey _ _ _) as [[|] d']; apply shrinks_refl.
  - left. apply shrinks_delete_where.
  - left. destruct (db_rotateApiKey _ _ _ _ _) as [[n|] d']; apply shrinks_refl.
  - left. destruct (objects d !! old); [|apply shrinks_refl].
    destruct (objects d !! new); [apply shrinks_invalidate_key|apply shrinks_refl].
  - left. destruct (db_deactivateApiKey _ _ _) as [[|] d']; apply shrinks_refl.
  - left. apply shrinks_invalidate_key.
Qed.

Context (sha_nonempty : forall key, sha256 key <> EmptyString) (capacity : 1 <= maxEntries).

Lemma keys_nonempty s : ok s -> EmptyString ∉ map_keys (cache (auth s)).
Proof.
  intros H (e & He & Hin)%list_elem_of_fmap. destruct e as [sel e]. simpl in He. subst sel.
  destruct (s_entries _ H _ _ Hin) as [(key & k & He & _) _]. by destruct (sha_nonempty key).
Qed.

Lemma fresh_step s n w t : tasks s !! n = Some t -> fresh_turn s (Step n w) ->
  forall q key salt, t = CInsert q key salt -> d_uuid w ∉ used_ids (db s).
Proof. intros Ht Hf q key salt ->. simpl in Hf. by rewrite Ht in Hf. Qed.

Lemma step_ok s n w t : ok s -> tasks s !! n = Some t -> fresh_turn s (Step n w) -> ok (exec (Step n w) s).
Proof.
  intros H Ht Hf. pose proof (fresh_step s n w t Ht Hf) as Hu. pose proof (keys_nonempty s H) as Hk.
  destruct H as [Hd He Hw Hs Hts]. simpl. rewrite Ht.
  pose proof (advance_effect w t (db s) (auth s) Hu) as Ef. pose proof (effect_extends _ _ Ef) as Ex.
  assert (Hto : task_ok (objects (db s)) t) by (eapply (Forall_lookup_1 _ _ _ _ Hts Ht)).
  pose proof (advance_task w t (db s) (auth s) Hu Hto) as Ta. pose proof (advance_cache w t (db s) (auth s)) as Ca.
  destruct (advance w t (db s) (auth s)) as [t' [d' c']]. simpl in *. split; simpl.
  - by eapply effect_ok.
  - destruct Ca as [(Sub & _ & _)|(key & r & k & -> & Hr & Hx & E)].
    + intros sel e Hin. eapply entry_mono; [done|]. by apply He, Sub.
    + injection E as -> -> ->. intros sel e [Hin|(-> & Hi & Hexp)]%cache_set_entry; [by apply He|].
      destruct Hto as (k0 & Hk0 & Hc). assert (k0 = k) as -> by congruence. split.
      * exists key, k. rewrite Hi. split; [done|]. split; [by eapply list_elem_of_lookup_2|]. split; [done|apply info_describes].
      * intros x Hx'. rewrite Hi in Hx'. rewrite Hexp. pose proof (not_expired _ _ _ Hx Hx'). lia.
  - destruct Ca as [(_ & Hwf & _)|(key & r & k & -> & Hr & Hx & E)]; [by apply Hwf|]. injection E as -> -> ->.
    by apply cache_set_size.
  - destruct Ca as [(_ & _ & Hl)|(key & r & k & -> & Hr & Hx & E)]; [lia|]. injection E as -> -> ->.
    by apply cache_set_size.
  - apply Forall_insert; [|done]. eapply Forall_impl; [exact Hts|]. intros x Hx. by eapply task_mono.
Qed.

Lemma cache_get_ok now x s : ok s ->
  (forall sel e, (sel, e) ∈ cache (cache_get now x (auth s)).2 -> entry_ok (objects (db s)) sel e).
Proof.
  intros H sel e (e' & Hin & Hi & He)%cache_get_entry. destruct (s_entries _ H _ _ Hin) as [H1 H2].
  split; rewrite Hi; [done|]. by rewrite He.
Qed.

Lemma add_task_ok s t : ok s -> task_ok (objects (db s)) t -> ok (add_task t (auth s) s).
Proof. intros [] Ht. split; simpl; try done. by apply Forall_app_2; [|apply Forall_singleton]. Qed.

Lemma apikeys_exec_ok u s : ok s -> fresh_turn s u -> ok (exec u s).
Proof.
  intros H Hf. destruct u as [now key|q key salt|i|i|n w|now|]; simpl.
  - unfold start_validate. pose proof (cache_get_ok now (computeKeySelector key) s H) as Hc.
    pose proof (cache_get_size now (computeKeySelector key) (auth s) (s_wf _ H)) as [Hw Hl].
    pose proof (cache_get_hit now (computeKeySelector key) (auth s)) as Hh.
    destruct (cache_get now (computeKeySelector key) (auth s)) as [o c]. simpl in *.
    assert (Ht : task_ok (objects (db s)) (match o with Some i => VDone key (Some i) | None => VLook key end)).
    { destruct o as [i|]; [|done]. destruct (Hh i eq_refl) as (e & Hin & <- & _). by apply (s_entries _ H). }
    destruct H as [Hd He Hw0 Hs Hts].
    destruct o; split; simpl; try done; try lia; apply Forall_app_2; try done; by apply Forall_singleton.
  - by apply add_task_ok.
  - by apply add_task_ok.
  - by apply add_task_ok.
  - destruct (tasks s !! n) as [t|] eqn:Ht; [|done]. pose proof (step_ok s n w t H Ht Hf) as Hs. simpl in Hs. by rewrite Ht in Hs.
  - destruct (shrinks_delete_where (fun e => bool_decide (expiresAt e < now)) (auth s)) as (A & B & C).
    destruct H as [Hd He Hw Hs Hts]. split; simpl in *; auto; lia.
  - destruct H as [Hd He Hw Hs Hts]. split; simpl; try done; try lia; [by apply load_ok|set_solver|apply wf_nil].
Qed.

Lemma apikeys_run_ok us s : ok s -> fresh_run us s -> ok (run us s).
Proof. revert s. induction us as [|u us IH]; intros s H; [done|]. intros [Hf Hr]. apply IH; [by apply apikeys_exec_ok|done]. Qed.

(** ** Revoked keys *)

Definition all_inactive (i : string) (ks : list ApiKey) : Prop :=
  i ∈ id <$> ks /\ forall k, k ∈ ks -> id k = i -> is_active k = false.

(** No active copy of the key is left, in memory or in the file. *)
Definition revoked (i : string) (d : database) : Prop :=
  all_inactive i (rows d) /\ all_inactive i (default [] (disk d)).

(** A validation that has found the key and not answered yet. *)
Definition holds (i : string) (os : list ApiKey) (t : task) : Prop :=
  match t with
  | VBackfill _ r | VTouch _ r | VFinish _ r => exists k, os !! r = Some k /\ id k = i
  | _ => False
  end.

Definition dead (i : string) (s : state) : Prop :=
  revoked i (db s) /\ (forall sel e, (sel, e) ∈ cache (auth s) -> i_id (info e) <> i) /\
  (forall t, t ∈ tasks s -> ~ holds i (objects (db s)) t).

Lemma NoDup_omap_inj {A B} (f : A -> option B) l x y b :
  NoDup (omap f l) -> x ∈ l -> y ∈ l -> f x = Some b -> f y = Some b -> x = y.
Proof.
  induction l as [|z l IH]; simpl; [by intros _ ?%elem_of_nil|].
  intros Hn Hx Hy Ex Ey. assert (Hin : forall u, u ∈ l -> f u = Some b -> b ∈ omap f l).
  { intros u Hu Eu. apply list_elem_of_omap. by exists u. }
  apply elem_of_cons in Hx as [-> |Hx]; apply elem_of_cons in Hy as [-> |Hy]; [done| | |].
  - rewrite Ex in Hn. apply NoDup_cons in Hn as [Hn _]. destruct Hn. by eapply Hin.
  - rewrite Ey in Hn. apply NoDup_cons in Hn as [Hn _]. destruct Hn. by eapply Hin.
  - apply IH; try done. destruct (f z); [by apply NoDup_cons in Hn as [_ ?]|done].
Qed.

Lemma unique_ref d r x k k' : db_ok d -> r ∈ api_keys d -> x ∈ api_keys d -> objects d !! r = Some k ->
  objects d !! x = Some k' -> id k = id k' -> r = x.
Proof.
  intros Hd Hr Hx Hk Hk' He. pose proof (ids_distinct _ Hd) as Hn. rewrite rows_ids in Hn.
  eapply (NoDup_omap_inj _ _ r x (id k)); [exact Hn|done|done|simpl; by rewrite Hk|simpl; by rewrite Hk', He].
Qed.

Lemma row_used i d : i ∈ id <$> rows d -> i ∈ used_ids d.
Proof.
  intros (k & -> & (r & _ & Hk)%elem_of_key_rows)%list_elem_of_fmap. apply elem_of_app. left.
  apply list_elem_of_fmap. exists k. split; [done|]. by eapply list_elem_of_lookup_2.
Qed.

(** The rows after an update are the old ones, one of them updated. *)
Lemma replace_rows d r f k x : db_ok d -> objects d !! r = Some k -> x ∈ rows (replace_key r (f k) d) ->
  x ∈ rows d \/ r ∈ api_keys d /\ x = f k.
Proof.
  intros Hd Hk (y & (z & Hz & Hin)%list_elem_of_fmap & Hy)%elem_of_key_rows. simpl in Hz, Hy. revert Hz. case_bool_decide as E; intros ->.
  - right. subst z. rewrite lookup_app_r, Nat.sub_diag in Hy by done. by simplify_eq/=.
  - left. apply elem_of_key_rows. exists z. split; [done|].
    pose proof (Forall_forall (fun r => r < length (objects d))%nat (api_keys d)) as [F _].
    rewrite lookup_app_l in Hy; [done|]. by apply F; [apply refs_valid|].
Qed.

Lemma effect_revoked i d d' : effect d d' -> db_ok d -> revoked i d -> revoked i d'.
Proof.
  intros H Hd [[Hin Hr] Hs]. induction H as [|k Hk|j f r k Hj Hk Hf|j now r k Hj Hk|d' io H IH]; [done| | | |].
  - split; [|done]. rewrite (rows_push k d) by apply Hd. split; [rewrite fmap_app; apply elem_of_app; by left|].
    intros x [Hx|Hx%list_elem_of_singleton]%elem_of_app Hi; [by apply Hr|]. subst x.
    destruct Hk. rewrite Hi. by apply row_used.
  - split; [|done]. destruct (Hf k) as (Hid & _ & Hact). split.
    + by rewrite (ids_replace r (f k) d k) by (done || apply Hd).
    + intros x [Hx|[Ha ->]]%(replace_rows d r f k) Hi; [by apply Hr| |done|done].
      rewrite Hact. apply Hr; [|congruence]. apply elem_of_key_rows. by exists r.
  - split; [|done]. split; [by rewrite ids_write|].
    intros x (y & Hy & Hx)%elem_of_key_rows Hi. simpl in Hx.
    apply list_lookup_insert_Some in Hx as [(-> & <- & _)|[_ Hx]]; [done|]. apply Hr; [|done]. apply elem_of_key_rows. by exists y.
  - destruct IH as [H1 H2]. split; [done|]. simpl. by destruct io.
Qed.

Lemma load_revoked i d : revoked i d -> revoked i (loadDatabase (disk d)).
Proof.
  intros [_ [Hin Hr]]. split; [|done]. rewrite load_rows. split.
  - apply list_elem_of_fmap in Hin as (k & -> & Hk). apply list_elem_of_fmap. exists (reload_key k). split; [done|].
    by apply list_elem_of_fmap_2.
  - intros x (k & -> & Hk)%list_elem_of_fmap Hi. exact (Hr k Hk Hi).
Qed.

Lemma deactivate_revokes i now d d' :
  db_ok d -> db_deactivateApiKey i now d = (true, d') -> revoked i (saveDatabase true d').
Proof.
  intros Hd. unfold db_deactivateApiKey. destruct (find_key (has_id i) d) as [r|] eqn:E; [|done].
  apply find_key_Some in E as (Hr & k & Hk & Hi%String.eqb_eq). rewrite Hk. intros [= <-].
  assert (H : all_inactive i (rows (write_key r (inactive now k) d))); [|by split].
  split.
  - rewrite ids_write by done. rewrite rows_ids. apply list_elem_of_omap. exists r. split; [done|]. by rewrite Hk, <- Hi.
  - intros x (y & Hy & Hx)%elem_of_key_rows Hxi. simpl in Hx, Hy.
    apply list_lookup_insert_Some in Hx as [(-> & <- & _)|[Hne Hx]]; [done|].
    destruct Hne. apply (unique_ref d r y k x); try done. congruence.
Qed.

Lemma found_active p d r : find_key (fun k => p k && is_active k) d = Some r ->
  exists k, k ∈ rows d /\ objects d !! r = Some k /\ is_active k = true.
Proof.
  intros (Hr & k & Hk & [_ Ha]%andb_true_iff)%find_key_Some. exists k.
  split; [apply elem_of_key_rows; by exists r|done].
Qed.

Lemma look_holds i key d : all_inactive i (rows d) -> ~ holds i (objects d) (look key d).
Proof.
  intros [_ Hr]. unfold look. destruct (getApiKeyBySelector _ d) as [r|] eqn:E; [|simpl; tauto].
  apply found_active in E as (k & Hin & Hk & Ha). rewrite Hk.
  destruct (check_credential _ _); [|simpl; tauto].
  destruct (no_selector k); simpl; intros (k' & Hk' & Hi); simplify_eq; by rewrite Hr in Ha.
Qed.

Lemma scan_holds i key d : all_inactive i (rows d) -> ~ holds i (objects d) (scan key d).
Proof.
  intros [_ Hr]. unfold scan. destruct (find_legacy key d) as [r|] eqn:E; [|simpl; tauto].
  apply find_key_Some in E as (Hin & k & Hk & [[_ Ha]%andb_true_iff _]%andb_true_iff).
  simpl. intros (k' & Hk' & Hi). simplify_eq. rewrite Hr in Ha; [done| |done]. apply elem_of_key_rows. by exists r.
Qed.

Lemma holds_back i os os' t : extends os os' -> task_ok os t -> holds i os' t -> holds i os t.
Proof.
  intros He. destruct t; simpl; try done; intros (k & Hk & _) (k' & Hk' & Hi); destruct (He _ _ Hk) as (x & Hx & Hid & _);
    simplify_eq; by exists k.
Qed.

Lemma saving_update_holds io t i f d c j os : ~ holds j os t -> ~ holds j os (saving_update io t (updateApiKey i f d) c).1.
Proof. destruct (updateApiKey i f d) as [[n|] d']; simpl; [|done]. intros H. destruct io; [done|by intros []]. Qed.

Lemma advance_holds i w t d c :
  (forall q key salt, t = CInsert q key salt -> d_uuid w ∉ used_ids d) ->
  all_inactive i (rows d) -> task_ok (objects d) t -> ~ holds i (objects d) t ->
  ~ holds i (objects (advance w t d c).2.1) (advance w t d c).1.
Proof.
  intros Hf Hr Ht Hn. pose proof (effect_extends _ _ (advance_effect w t d c Hf)) as He.
  destruct t as [key|key|key r|key r|key r|key r|key res|q key salt|q key r|key j|j|j r key salt|old new key
    |res|j|j r|r|res|]; simpl in *; try done.
  - by apply look_holds.
  - by apply scan_holds.
  - destruct Ht as (k & Hk & Hc). rewrite Hk in *. apply saving_update_holds. intros Hh.
    destruct (holds_back i _ _ (VTouch key r) He) as (k' & Hk' & Hi); [by exists k|exact Hh|].
    apply Hn. exists k'. by rewrite <- Hk, Hk'.
  - destruct Ht as (k & Hk & Hc). rewrite Hk in *. apply saving_update_holds. intros Hh.
    destruct (holds_back i _ _ (VFinish key r) He) as (k' & Hk' & Hi); [by exists k|exact Hh|].
    apply Hn. exists k'. by rewrite <- Hk, Hk'.
  - destruct Ht as (k & Hk & Hc). rewrite Hk. unfold finish_validate. destruct (expired _ k); by intros [].
  - destruct Ht as (k & Hk). rewrite Hk. destruct (db_deactivateApiKey _ _ _) as [[|] d']; [|by intros []].
    destruct (d_io w); by intros [].
  - destruct (d_io w); by intros [].
  - destruct (objects d !! r); by intros [].
  - destruct (getApiKeyById j d); by intros [].
  - destruct (db_rotateApiKey _ _ _ _ _) as [[n|] d']; [|by intros []]. destruct (d_io w); by intros [].
  - destruct (objects d !! old); [|by intros []]. destruct (objects d !! new); by intros [].
  - destruct (getApiKeyById j d); by intros [].
  - destruct (db_deactivateApiKey _ _ _) as [[|] d']; [|by intros []]. destruct (d_io w); by intros [].
  - destruct (objects d !! r); by intros [].
Qed.

(** Only the last step of a validation accepts. *)
Lemma advance_answer w t d c key i :
  (advance w t d c).1 = VDone key (Some i) -> (forall a b, t <> VDone a b) ->
  exists r k, t = VFinish key r /\ objects d !! r = Some k /\ expired (d_now w) k = false /\ i = info_of k.
Proof.
  intros E Hn. destruct t as [key'|key'|key' r|key' r|key' r|key' r|key' res|q key' salt|q key' r|key' j|j|j r key' salt
    |old new key'|res|j|j r|r|res|]; simpl in E; try done; try (destruct (objects d !! r) as [k|] eqn:Hk; [|done]).
  - revert E. unfold look. destruct (getApiKeyBySelector _ _) as [r|]; [|done]. destruct (objects d !! r) as [k|]; [|done].
    destruct (check_credential _ _); [|done]. by destruct (no_selector k).
  - revert E. unfold scan. by destruct (find_legacy _ _).
  - revert E. destruct (updateApiKey _ _ _) as [[n|] d']; simpl; [by destruct (d_io w)|done].
  - revert E. destruct (updateApiKey _ _ _) as [[n|] d']; simpl; [by destruct (d_io w)|done].
  - revert E. unfold finish_validate. destruct (expired _ k) eqn:Ex; simpl; [done|]. intros [= -> <-]. by exists r, k.
  - revert E. destruct (db_deactivateApiKey _ _ _) as [[|] d']; simpl; [by destruct (d_io w)|done].
  - by destruct (Hn key' res).
  - by destruct (d_io w).
  - done.
  - by destruct (getApiKeyById _ _).
  - revert E. destruct (db_rotateApiKey _ _ _ _ _) as [[n|] d']; simpl; [by destruct (d_io w)|done].
  - destruct (objects d !! old); [|done]. by destruct (objects d !! new).
  - by destruct (getApiKeyById _ _).
  - revert E. destruct (db_deactivateApiKey _ _ _) as [[|] d']; simpl; [by destruct (d_io w)|done].
  - done.
Qed.

(** What an accepting turn answers. *)
Lemma answer_cases u s t key i : answer u s = Some (t, key, i) ->
  (exists e, u = Validate t key /\ (computeKeySelector key, e) ∈ cache (auth s) /\ info e = i /\ t <= expiresAt e) \/
  (exists n w r k, u = Step n w /\ t = d_now w /\ tasks s !! n = Some (VFinish key r) /\ objects (db s) !! r = Some k /\
     expired t k = false /\ i = info_of k).
Proof.
  destruct u as [now key'|q key' salt|j|j|n w|now|]; simpl; try done.
  - unfold start_validate. pose proof (cache_get_hit now (computeKeySelector key') (auth s)) as Hh.
    destruct (cache_get _ _ _) as [[i'|] c]; [|done]. intros [= -> -> ->].
    destruct (Hh i eq_refl) as (e & H1 & H2 & H3). left. by exists e.
  - destruct (tasks s !! n) as [x|] eqn:Ex; [|done]. pose proof (advance_answer w x (db s) (auth s)) as Ha.
    destruct (advance w x (db s) (auth s)) as [x' y]. intros E. right.
    assert (Hx : exists k0, x' = VDone k0 (Some i) /\ t = d_now w /\ key = k0 /\ forall a b, x <> VDone a b).
    { destruct x; try done; destruct x' as [| | | | | |? [?|]| | | | | | | | | | | |]; simplify_eq; by eexists. }
    destruct Hx as (k0 & -> & -> & -> & Hx). destruct (Ha _ _ eq_refl Hx) as (r & k & -> & Hk & He & ->).
    by exists n, w, r, k.
Qed.

Lemma revoked_exec i u s : ok s -> fresh_turn s u -> revoked i (db s) -> revoked i (db (exec u s)).
Proof.
  intros H Hf Hr. destruct u as [now key|q key salt|j|j|n w|now|]; simpl; try done.
  - by destruct (start_validate _ _ _).
  - destruct (tasks s !! n) as [t|] eqn:Ht; [|done].
    pose proof (advance_effect w t (db s) (auth s) (fresh_step s n w t Ht Hf)) as E.
    destruct (advance _ _ _ _) as [t' [d' c']]. eapply effect_revoked; [exact E|apply H|done].
  - by apply load_revoked.
Qed.

Lemma revoked_run i us s : ok s -> fresh_run us s -> revoked i (db s) -> revoked i (db (run us s)).
Proof.
  revert s. induction us as [|u us IH]; intros s H; [done|]. intros [Hf Hr] Hv.
  apply IH; [by apply apikeys_exec_ok|done|by apply revoked_exec].
Qed.

Lemma dead_answer i u s a : dead i s -> answer u s = Some a -> i_id a.2 <> i.
Proof.
  intros (_ & Hc & Ht). destruct a as [[t key] inf].
  intros [(e & _ & Hin & <- & _)|(n & w & r & k & _ & _ & Htn & Hk & _ & ->)]%answer_cases; simpl; [by eapply Hc|].
  intros Hi. apply (Ht (VFinish key r)); [by eapply list_elem_of_lookup_2|by exists k].
Qed.

Lemma dead_exec i u s : ok s -> fresh_turn s u -> dead i s -> dead i (exec u s).
Proof.
  intros H Hf Hd. pose proof (revoked_exec i u s H Hf (proj1 Hd)) as Hr.
  pose proof (dead_answer i u s) as Ha. destruct Hd as (Hr0 & Hc & Ht). split; [done|]. clear Hr.
  destruct u as [now key|q key salt|j|j|n w|now|]; simpl.
  - unfold start_validate. pose proof (fun sel e => cache_get_entry now (computeKeySelector key) (auth s) sel e) as He.
    destruct (cache_get _ _ _) as [o c]. simpl in He.
    assert (Hc' : forall sel e, (sel, e) ∈ cache c -> i_id (info e) <> i).
    { intros sel e (e' & Hin & -> & _)%He. by eapply Hc. }
    destruct o; simpl; (split; [done|]); intros t [Hin|Hin%list_elem_of_singleton]%elem_of_app; subst; auto.
  - split; [done|]. intros t [Hin|Hin%list_elem_of_singleton]%elem_of_app; subst; auto.
  - split; [done|]. intros t [Hin|Hin%list_elem_of_singleton]%elem_of_app; subst; auto.
  - split; [done|]. intros t [Hin|Hin%list_elem_of_singleton]%elem_of_app; subst; auto.
  - destruct (tasks s !! n) as [t|] eqn:Htn; [|done]. pose proof (fresh_step s n w t Htn Hf) as Hu.
    assert (Hto : task_ok (objects (db s)) t) by (eapply (Forall_lookup_1 _ _ _ _ (s_tasks _ H) Htn)).
    assert (Htn' : t ∈ tasks s) by by eapply list_elem_of_lookup_2.
    pose proof (advance_holds i w t (db s) (auth s) Hu (proj1 Hr0) Hto (Ht t Htn')) as Hh.
    pose proof (effect_extends _ _ (advance_effect w t (db s) (auth s) Hu)) as Ex.
    pose proof (advance_cache w t (db s) (auth s)) as Ca.
    destruct (advance w t (db s) (auth s)) as [t' [d' c']]. simpl in *. split.
    + destruct Ca as [(Sub & _)|(key & r & k & -> & Hk & He & E)]; [intros sel e Hin; by eapply Hc, Sub|].
      injection E as -> -> ->. intros sel e [Hin|(-> & Hi & _)]%cache_set_entry; [by eapply Hc|]. rewrite Hi. simpl.
      intros Hid. apply (Ht _ Htn'). by exists k.
    + intros x [j Hj]%list_elem_of_lookup. apply list_lookup_insert_Some in Hj as [(_ & <- & _)|[_ Hj]]; [done|].
      assert (Hx : x ∈ tasks s) by by eapply list_elem_of_lookup_2.
      intros Hb. apply (Ht x Hx). eapply holds_back; [exact Ex| |exact Hb].
      exact (Forall_lookup_1 _ _ _ _ (s_tasks _ H) Hj).
  - destruct (shrinks_delete_where (fun e => bool_decide (expiresAt e < now)) (auth s)) as [A _].
    split; [|done]. intros sel e Hin. by eapply Hc, A.
  - split; [intros sel e Hin; by apply elem_of_nil in Hin|intros t Hin; by apply elem_of_nil in Hin].
Qed.

Lemma dead_run i us s : ok s -> fresh_run us s -> dead i s -> forall a, a ∈ answers us s -> i_id a.2 <> i.
Proof.
  revert s. induction us as [|u us IH]; intros s H; [by intros _ _ a ?%elem_of_nil|].
  intros [Hf Hr] Hd a [Ha|Ha]%elem_of_app.
  - destruct (answer u s) as [b|] eqn:E; [|by apply elem_of_nil in Ha]. apply list_elem_of_singleton in Ha as ->.
    by eapply dead_answer.
  - eapply (IH (exec u s)); [by apply apikeys_exec_ok|done|by apply dead_exec|done].
Qed.

Lemma elem_of_invalidate_key k c sel e :
  (sel, e) ∈ cache (invalidate_key k c) -> (sel, e) ∈ cache c /\ i_createdBy (info e) <> created_by k.
Proof.
  intros H. split; [by apply (shrinks_invalidate_key k c)|]. unfold invalidate_key, invalidateByUserId in H.
  apply elem_of_delete_where in H as [_ H]. by apply String.eqb_neq.
Qed.

(** The last step of a deactivation drops the cached answers of the key. *)
Lemma invalidated_dead i s n w r k :
  ok s -> revoked i (db s) -> tasks s !! n = Some (DInvalidate r) -> objects (db s) !! r = Some k -> id k = i ->
  (forall t, t ∈ tasks s -> ~ holds i (objects (db s)) t) -> dead i (exec (Step n w) s).
Proof.
  intros H Hr Ht Hk Hi Hh. unfold dead. cbn [exec]. rewrite Ht. cbn [advance]. rewrite Hk. cbn [db auth tasks].
  split; [done|]. split.
  - intros sel e [Hin Hp]%elem_of_invalidate_key He. apply Hp.
    destruct (s_entries _ H _ _ Hin) as [(key & k' & _ & Hk' & _ & Hd) _]. destruct Hd as (Hid & _ & _ & Hcb & _).
    rewrite Hcb. apply (owners _ (s_db _ H)); [done|by eapply list_elem_of_lookup_2|congruence].
  - intros t [j Hj]%list_elem_of_lookup. apply list_lookup_insert_Some in Hj as [(_ & <- & _)|[_ Hj]]; [by intros []|].
    apply Hh. by eapply list_elem_of_lookup_2.
Qed.

Lemma objects_run us s : Restart ∉ us -> fresh_run us s -> extends (objects (db s)) (objects (db (run us s))).
Proof.
  revert s. induction us as [|u us IH]; intros s Hn; [by intros _; apply extends_refl|]. intros [Hf Hr].
  apply not_elem_of_cons in Hn as [Hu Hn]. specialize (IH _ Hn Hr).
  assert (E : extends (objects (db s)) (objects (db (exec u s)))).
  { destruct u as [now key|q key salt|j|j|n w|now|]; simpl; try apply extends_refl; [| |done].
    - destruct (start_validate _ _ _). apply extends_refl.
    - destruct (tasks s !! n) as [t|] eqn:Ht; [|apply extends_refl].
      pose proof (effect_extends _ _ (advance_effect w t (db s) (auth s) (fresh_step s n w t Ht Hf))) as E.
      by destruct (advance _ _ _ _) as [t' [d' c']]. }
  intros r k Hk. destruct (E r k Hk) as (k1 & Hk1 & S1). destruct (IH r k1 Hk1) as (k2 & Hk2 & S2).
  exists k2. split; [done|]. unfold same_key in *. intuition congruence.
Qed.

(** ** Properties *)



(** ** A validation that nothing interrupts *)

Definition validate_alone (w : draw) (key : string) (s : state) : state :=
  run (Validate (d_now w) key :: replicate 5 (Step (length (tasks s)) w)) s.

Definition verdict (s : state) : option task := last (tasks s).

Lemma step_last t w d c ts :
  exec (Step (length ts) w) {| db := d; auth := c; tasks := ts ++ [t] |} =
  let '(t', (d', c')) := advance w t d c in {| db := d'; auth := c'; tasks := ts ++ [t'] |}.
Proof.
  simpl. rewrite lookup_app_r, Nat.sub_diag by done. simpl. destruct (advance w t d c) as [t' [d' c']].
  f_equal. by rewrite insert_app_r_alt, Nat.sub_diag by done.
Qed.

Lemma touch_keeps w i d r k : objects d !! r = Some k -> objects (updateApiKey i (with_last_used w) d).2 !! r = Some k.
Proof.
  intros Hk. unfold updateApiKey. destruct (find_key _ d) as [x|]; [|done]. destruct (objects d !! x); [|done].
  simpl. by apply lookup_app_l_Some.
Qed.

(** The last steps: the answer, or the deactivation of an expired key. *)
Lemma finish_verdict w key r k d c ts : objects d !! r = Some k -> d_io w = true ->
  verdict (run (replicate 3 (Step (length ts) w)) {| db := d; auth := c; tasks := ts ++ [VFinish key r] |}) =
  Some (VDone key (if expired (d_now w) k then None else Some (info_of k))).
Proof.
  intros Hk Hio. cbn [replicate run foldl]. rewrite step_last. cbn [advance]. rewrite Hk. unfold finish_validate.
  destruct (expired (d_now w) k); rewrite step_last; cbn [advance].
  - rewrite Hk. destruct (db_deactivateApiKey _ _ _) as [[|] d2]; unfold saving; rewrite ?Hio, step_last;
      cbn [advance]; unfold verdict; simpl; by rewrite last_snoc.
  - rewrite step_last. unfold verdict; simpl. by rewrite last_snoc.
Qed.

(** The lookup finds an active key whose credential checks: it is answered
    unless its date has passed. *)
Lemma validate_found w key s r k :
  map_get (computeKeySelector key) (cache (auth s)) = None ->
  getApiKeyBySelector (computeKeySelector key) (db s) = Some r -> objects (db s) !! r = Some k ->
  check_credential key (key_hash k) = true -> d_io w = true ->
  verdict (validate_alone w key s) = Some (VDone key (if expired (d_now w) k then None else Some (info_of k))).
Proof.
  intros Hm Hg Hk Hc Hio. pose proof Hg as Hs. apply find_key_Some in Hs as (_ & k0 & Hk0 & [Hsel _]%andb_true_iff).
  rewrite Hk in Hk0. injection Hk0 as <-. apply bool_decide_eq_true in Hsel.
  assert (Hns : no_selector k = false).
  { unfold no_selector. rewrite Hsel. destruct (computeKeySelector key) eqn:E; [by apply sha_nonempty in E|done]. }
  unfold validate_alone. cbn [replicate run foldl].
  assert (E0 : exec (Validate (d_now w) key) s = {| db := db s; auth := (cache_get (d_now w) (computeKeySelector key) (auth s)).2;
             tasks := tasks s ++ [VLook key] |}).
  { simpl. unfold start_validate, cache_get. by rewrite Hm. }
  rewrite E0, step_last. cbn [advance]. unfold look. rewrite Hg, Hk, Hc, Hns.
  rewrite step_last. cbn [advance]. rewrite Hk.
  pose proof (touch_keeps (d_now w) (id k) (db s) r k Hk) as Hk1.
  unfold saving_update, saving. destruct (updateApiKey (id k) (with_last_used (d_now w)) (db s)) as [[n|] d1] eqn:Eu; simpl in Hk1.
  - rewrite Hio. by apply finish_verdict.
  - by apply finish_verdict.
Qed.

(** ** Credentials of new keys *)

Lemma hex_digit_hex n : (n < 16)%nat -> Signing.is_hex (Accounts.hex_digit n) = true /\ is_space (Accounts.hex_digit n) = false.
Proof. intros H. do 16 (destruct n as [|n]; [done|]). lia. Qed.

Lemma hex_text_hex bs : Forall (fun b => b < 256)%nat bs ->
  forallb Signing.is_hex (Accounts.hex_text bs) = true /\ length (Accounts.hex_text bs) = (2 * length bs)%nat /\
  Forall (fun c => is_space c = false) (Accounts.hex_text bs).
Proof.
  induction 1 as [|b bs Hb _ (IH1 & IH2 & IH3)]; [done|].
  change (Accounts.hex_text (b :: bs))
    with (Accounts.hex_digit (b / 16) :: Accounts.hex_digit (b mod 16) :: Accounts.hex_text bs).
  assert (H1 : (b / 16 < 16)%nat) by (apply Nat.Div0.div_lt_upper_bound; lia).
  assert (H2 : (b mod 16 < 16)%nat) by (apply Nat.mod_upper_bound; lia).
  destruct (hex_digit_hex _ H1) as [A1 B1], (hex_digit_hex _ H2) as [A2 B2].
  cbn [forallb length]. rewrite A1, A2, IH1, IH2. split; [done|]. split; [lia|]. by repeat constructor.
Qed.

Lemma is_hex_plain c : Signing.is_hex c = true -> is_space c = false /\ c <> ":"%char.
Proof. destruct c as [[] [] [] [] [] [] [] []]; by vm_compute. Qed.

Lemma hex_plain l : forallb Signing.is_hex l = true -> Forall (fun c => is_space c = false) l /\ ":"%char ∉ l.
Proof.
  induction l as [|c l IH]; simpl; [by intros _; split; [constructor|apply not_elem_of_nil]|].
  intros [[H1 H2]%is_hex_plain [H3 H4]%IH]%andb_true_iff. split; [by constructor|]. by apply not_elem_of_cons.
Qed.

Lemma hash_checks key salt :
  hex_n 32 (chars salt) = true -> Forall (fun b => b < 256)%nat (pbkdf2 key salt) -> length (pbkdf2 key salt) = 64%nat ->
  check_credential key (hashApiKey key salt) = true.
Proof.
  intros Hs Hb Hl. destruct (hex_text_hex _ Hb) as (Hh & Hn & Hp).
  assert (Hh128 : hex_n 128 (Accounts.hex_text (pbkdf2 key salt)) = true).
  { unfold hex_n. rewrite Hn, Hl, Hh. done. }
  pose proof Hs as Hs'. unfold hex_n in Hs'. apply andb_true_iff in Hs' as [_ [Hsp Hsc]%hex_plain].
  destruct (hex_plain _ Hh) as [_ Hhc].
  assert (E : chars (hashApiKey key salt) = chars salt ++ ":"%char :: Accounts.hex_text (pbkdf2 key salt)).
  { apply String.list_ascii_of_string_of_list_ascii. }
  unfold check_credential, isValidSaltHashFormat.
  assert (Et : trim (hashApiKey key salt) = hashApiKey key salt).
  { apply trim_plain. apply Forall_app. split; [done|]. by constructor. }
  rewrite Et, E, Accounts.split_on_one, Hs, Hh128 by done. simpl.
  unfold verifyApiKey, text, chars. rewrite String.string_of_list_ascii_of_string, String.list_ascii_of_string_of_list_ascii.
  fold (chars salt). rewrite Hs, Hh128. simpl. by apply bool_decide_eq_true.
Qed.

Lemma find_snoc {A} (f : A -> bool) l x : List.find f l = None -> f x = true -> List.find f (l ++ [x]) = Some x.
Proof. intros H Hx. induction l as [|y l IH]; simpl in *; [by rewrite Hx|]. destruct (f y); [done|by apply IH]. Qed.

(** A new key works: after an uninterrupted creation, a validation of the
    returned key is answered with the record of the request until its expiry
    date, and is refused after it. *)
Theorem created_key_validates q key salt w w' s :
  ok s -> d_uuid w ∉ used_ids (db s) -> d_io w = true -> d_io w' = true ->
  hex_n 32 (chars salt) = true -> Forall (fun b => b < 256)%nat (pbkdf2 key salt) -> length (pbkdf2 key salt) = 64%nat ->
  (forall k, k ∈ rows (db s) -> key_selector k <> Some (computeKeySelector key)) ->
  map_get (computeKeySelector key) (cache (auth s)) = None ->
  let n := length (tasks s) in
  let s1 := run [Create q key salt; Step n w; Step n w] s in
  let info := {| i_id := d_uuid w; i_name := r_name q; i_scope := r_scope q; i_createdBy := r_createdBy q;
                 i_createdAt := At (d_now w); i_expiresAt := r_expiresAt q; i_isActive := true |} in
  verdict s1 = Some (CDone key info) /\
  verdict (validate_alone w' key s1) =
    Some (VDone key (match r_expiresAt q with
                     | Some (At t) => if bool_decide (t < d_now w') then None else Some info
                     | Some (Text (String a b)) => if num_gtb (of_int (d_now w')) (js_number (String a b)) then None else Some info
                     | _ => Some info
                     end)).
Proof.
  intros H Hu Hio Hio' Hs Hb Hl Hsel Hm n s1 info.
  set (k := {| id := d_uuid w; name := r_name q; key_hash := hashApiKey key salt;
               key_selector := Some (computeKeySelector key); scope := r_scope q; created_by := r_createdBy q;
               created_at := At (d_now w); updated_at := At (d_now w); expires_at := r_expiresAt q; last_used_at := None;
               is_active := true |}).
  assert (E : s1 = {| db := saveDatabase true (push_key k (db s)); auth := invalidateByUserId (r_createdBy q) (auth s);
                      tasks := tasks s ++ [CDone key info] |}).
  { subst s1 n. unfold run. cbn [foldl].
    change (exec (Create q key salt) s) with {| db := db s; auth := auth s; tasks := tasks s ++ [CInsert q key salt] |}.
    rewrite step_last. cbn [advance].
    unfold saving. rewrite Hio, step_last. cbn [advance]. cbn [saveDatabase objects db_createApiKey push_key].
    by rewrite lookup_app_r, Nat.sub_diag. }
  rewrite E. split; [unfold verdict; simpl; by rewrite last_snoc|].
  rewrite (validate_found w' key _ (length (objects (db s))) k); [| | | |by apply hash_checks|done].
  - unfold expired, k; simpl. destruct (r_expiresAt q) as [[t|[|a b]]|]; [case_bool_decide| |destruct (num_gtb _ _)|]; done.
  - apply map_get_None. intros (x & Hx & Hin)%list_elem_of_fmap. apply map_get_None in Hm. apply Hm.
    apply list_elem_of_fmap. exists x. split; [done|]. destruct x as [sel e]. by apply elem_of_delete_where in Hin as [Hin _].
  - unfold getApiKeyBySelector, find_key. cbn [saveDatabase objects api_keys push_key db].
    apply find_snoc; cycle 1.
    { rewrite lookup_app_r, Nat.sub_diag by done. simpl. by rewrite bool_decide_eq_true_2. }
    destruct (List.find _ (api_keys (db s))) as [r|] eqn:Ef; [|done]. apply List.find_some in Ef as [Hr Hp].
    apply list_elem_of_In in Hr. pose proof (refs_valid _ (s_db _ H)) as F. rewrite Forall_forall in F.
    rewrite lookup_app_l in Hp by (by apply F). destruct (objects (db s) !! r) as [x|] eqn:Ex; [|done].
    apply andb_true_iff in Hp as [Hp%bool_decide_eq_true _]. destruct (Hsel x); [|done]. apply elem_of_key_rows. by exists r.
  - simpl. by rewrite lookup_app_r, Nat.sub_diag.
Qed.

Lemma find_load (p : ApiKey -> bool) ks k :
  (forall x, p (reload_key x) = p x) -> List.find p ks = Some k ->
  exists r, find_key p (loadDatabase (Some ks)) = Some r /\ objects (loadDatabase (Some ks)) !! r = Some (reload_key k).
Proof.
  intros Hp. unfold find_key, loadDatabase; simpl. rewrite length_fmap.
  assert (H : forall pre post, List.find p post = Some k -> exists r,
    List.find (fun r => match (pre ++ (reload_key <$> post)) !! r with Some x => p x | None => false end)
      (seq (length pre) (length post)) = Some r /\ (pre ++ (reload_key <$> post)) !! r = Some (reload_key k)).
  { intros pre post. revert pre. induction post as [|x post IH]; intros pre; [done|]. cbn [List.find length seq].
    assert (Hx : (pre ++ (reload_key <$> x :: post)) !! length pre = Some (reload_key x)).
    { by rewrite lookup_app_r, Nat.sub_diag. }
    rewrite Hx, Hp. destruct (p x); [intros [= ->]; by exists (length pre)|]. intros Hf.
    destruct (IH (pre ++ [reload_key x]) Hf) as (r & H1 & H2). exists r.
    assert (E : (pre ++ [reload_key x]) ++ (reload_key <$> post) = pre ++ (reload_key <$> x :: post)) by by rewrite <- (assoc (++)).
    rewrite E, length_app, Nat.add_1_r in H1. by rewrite E in H2. }
  exact (H [] ks).
Qed.

(** A restart forgets expiry dates: the file holds them as text, the text
    of a date is not a number, and comparing the clock with it is always false,
    so a key that had expired is accepted again. *)
Theorem expiry_lost_on_restart (iso_not_number : forall t, js_number (iso t) = NaN) s ks key k t w :
  disk (db s) = Some ks ->
  List.find (fun k => bool_decide (key_selector k = Some (computeKeySelector key)) && is_active k) ks = Some k ->
  check_credential key (key_hash k) = true -> expires_at k = Some (At t) -> t < d_now w -> d_io w = true ->
  expired (d_now w) k = true /\
  verdict (validate_alone w key (exec Restart s)) = Some (VDone key (Some (info_of (reload_key k)))).
Proof.
  intros Hd Hf Hc He Ht Hio. split; [unfold expired; rewrite He; by apply bool_decide_eq_true|].
  assert (Hs : exec Restart s = {| db := loadDatabase (Some ks); auth := empty_cache; tasks := [] |}) by by simpl; rewrite Hd.
  apply find_load in Hf as (r & Hr & Hk); [|done].
  rewrite Hs, (validate_found w key _ r (reload_key k)); try done.
  unfold expired. simpl. rewrite He. simpl. pose proof (iso_not_number t) as Hn.
  destruct (iso t); [done|]. by rewrite Hn.
Qed.
End Service.

(** ** Concrete runs *)

Module Sample.
Definition pbkdf2 (key salt : string) : list nat := replicate 64 (length (chars key)).
Definition sha256 (key : string) : string := String "s" key.
Definition iso (t : Z) : string := "1970-01-01T00:00:00.000Z".
Definition salt : string := text (replicate 32 "a"%char).
Definition draw_at (t : Z) : draw := {| d_now := t; d_io := true; d_uuid := "k1"; d_key := "new"; d_salt := salt |}.
Definition request (e : option Z) : ApiKeyRequest :=
  {| r_name := "ci"; r_scope := ["contracts:read"]; r_createdBy := "u1"; r_expiresAt := At <$> e |}.
Definition start : state :=
  {| db := {| objects := []; api_keys := []; disk := Some [] |}; auth := empty_cache; tasks := [] |}.
Notation go := (run pbkdf2 sha256 iso 1000 2) (only parsing).
Definition with_key (e : option Z) : state := go [Create (request e) "abc" salt; Step 0 (draw_at 5); Step 0 (draw_at 5)] start.
End Sample.

Lemma start_ok : ok Sample.pbkdf2 Sample.sha256 1000 2 Sample.start.
Proof.
  split; simpl; try done; try apply wf_nil; [|intros sel e H; by apply elem_of_nil in H].
  split; simpl; try done; try apply NoDup_nil_2. intros k k' H. by apply elem_of_nil in H.
Qed.

(** A validation that had found the key when it was revoked puts it back into
    the cache, and the next request is accepted. *)
Example revocation_race :
  let s := run Sample.pbkdf2 Sample.sha256 Sample.iso 1000 2
             ([Validate 6 "abc"; Step 1 (Sample.draw_at 6); Deactivate "k1"; Step 2 (Sample.draw_at 7);
               Step 2 (Sample.draw_at 7); Step 2 (Sample.draw_at 7); Step 1 (Sample.draw_at 8); Step 1 (Sample.draw_at 8)])
             (Sample.with_key None) in
  tasks s !! 2%nat = Some (DDone true) /\ is_active <$> rows (db s) = [false] /\
  i_id ∘ snd <$> answer Sample.pbkdf2 Sample.sha256 1000 2 (Validate 500 "abc") s = Some "k1"%string.
Proof. vm_compute. done. Qed.

(** A cached answer outlives the expiry date of its key. *)
Example cached_past_expiry :
  let s := run Sample.pbkdf2 Sample.sha256 Sample.iso 1000 2
             (Validate 6 "abc" :: replicate 3 (Step 1 (Sample.draw_at 6))) (Sample.with_key (Some 10)) in
  i_expiresAt ∘ snd <$> answer Sample.pbkdf2 Sample.sha256 1000 2 (Validate 900 "abc") s = Some (Some (At 10)).
Proof. vm_compute. done. Qed.



Lemma created_key_validates_witness :
  let s1 := run Sample.pbkdf2 Sample.sha256 Sample.iso 1000 2
    [Create (Sample.request (Some 10)) "abc" Sample.salt; Step 0 (Sample.draw_at 5); Step 0 (Sample.draw_at 5)] Sample.start in
  exists i, verdict s1 = Some (CDone "abc" i) /\
    verdict (validate_alone Sample.pbkdf2 Sample.sha256 Sample.iso 1000 2 (Sample.draw_at 10) "abc" s1) = Some (VDone "abc" (Some i)).
Proof.
  eexists. refine (created_key_validates Sample.pbkdf2 Sample.sha256 Sample.iso 1000 2 (fun _ => _) (Sample.request (Some 10)) "abc"
    Sample.salt (Sample.draw_at 5) (Sample.draw_at 10) Sample.start start_ok _ _ _ _ _ _ _ _).
  - done.
  - apply not_elem_of_nil.
  - reflexivity.
  - reflexivity.
  - reflexivity.
  - apply Forall_replicate. simpl. lia.
  - reflexivity.
  - intros k Hk. by apply elem_of_nil in Hk.
  - reflexivity.
Defined.

Lemma expiry_lost_on_restart_witness :
  exists i, verdict (validate_alone Sample.pbkdf2 Sample.sha256 Sample.iso 1000 2 (Sample.draw_at 11) "abc"
    (exec Sample.pbkdf2 Sample.sha256 Sample.iso 1000 2 Restart (Sample.with_key (Some 10)))) = Some (VDone "abc" (Some i)).
Proof.
  eexists. refine (proj2 (expiry_lost_on_restart Sample.pbkdf2 Sample.sha256 Sample.iso 1000 2 (fun _ => _) _
    (Sample.with_key (Some 10)) _ "abc" _ 10 (Sample.draw_at 11) _ _ _ _ _ _)).
  - done.
  - intros t. vm_compute. reflexivity.
  - reflexivity.
  - vm_compute. reflexivity.
  - vm_compute. reflexivity.
  - reflexivity.
  - done.
  - reflexivity.
Defined.
End ApiKeys.
