(* ===== verification/ApiKeyAccess.v ===== *)
(** * API-key access: scopes, request validation and bearer tokens

    src/controllers/apiKeyController.ts (request validation and the ownership
    guard of its handlers), src/auth/apiKeyMiddleware.ts and
    src/auth/authenticate.ts.  A response is its status; the texts of error
    bodies are not represented.  Whether a text is a date is a parameter. *)

From stdpp Require Import prelude strings.
From Stdlib Require Import ZArith Lia Ascii.
From S2P Require Import Prelude JsMap JsValue JsString Regex Ssrf Cursor ApiKeys.
Open Scope Z_scope.

Module Access.

Inductive reply (A : Type) : Type :=
| Status (code : Z)
| Next (a : A).
Arguments Status {A} code.
Arguments Next {A} a.

(** ** Scopes *)

Definition ends_with (w l : list ascii) : bool := Ssrf.starts_with (reverse w) (reverse l).

Definition STAR : list ascii := ["*"%char].
Definition COLON_STAR : list ascii := [":"%char; "*"%char].
Definition STAR_COLON : list ascii := ["*"%char; ":"%char].

(** The callback of [req.apiKey.scope.some]. *)
Definition scope_matches (resource action scope : list ascii) : bool :=
  bool_decide (scope = resource ++ ":"%char :: action) ||
  (ends_with COLON_STAR scope && Ssrf.starts_with (resource ++ [":"%char]) scope) ||
  (Ssrf.starts_with STAR_COLON scope && ends_with (":"%char :: action) scope) ||
  bool_decide (scope = STAR).

Definition requireApiKeyScope (resource action : string) (key : option ApiKeys.ApiKeyInfo) : reply unit :=
  match key with
  | None => Status 401
  | Some i =>
      if existsb (fun s => scope_matches (chars resource) (chars action) (chars s)) (ApiKeys.i_scope i)
      then Next tt else Status 403
  end.

(** ** Authentication *)

(** [authenticateApiKey]: the outcome of [validateApiKey] is an argument. *)
Definition authenticateApiKey (header : option string) (validated : result unit (option ApiKeys.ApiKeyInfo))
  : reply ApiKeys.ApiKeyInfo :=
  match header with
  | None | Some EmptyString => Status 401
  | Some _ =>
      match validated with
      | Ok (Some i) => Next i
      | Ok None => Status 401
      | Err _ => Status 500
      end
  end.

Definition VALID_ROLES : list (list ascii) := chars <$> ["admin"; "auditor"; "freelancer"; "client"; "guest"]%string.

Record TokenPayload : Type := { userId : list ascii; role : list ascii }.

(** The letters of the two base64 alphabets that differ. *)
Definition url_char (c : ascii) : ascii :=
  if Ascii.eqb c "+"%char then "-"%char else if Ascii.eqb c "/"%char then "_"%char else c.
Definition std_char (c : ascii) : ascii :=
  if Ascii.eqb c "-"%char then "+"%char else if Ascii.eqb c "_"%char then "/"%char else c.

(** [Buffer.from(s, 'base64')]: either alphabet, other characters are skipped. *)
Definition base64_decode (l : list ascii) : list ascii := Cursor.b64_decode (url_char <$> l).

(** [buffer.toString('base64')]: padded to a multiple of four. *)
Definition base64_encode (l : list ascii) : list ascii :=
  let t := std_char <$> Cursor.b64_encode l in
  t ++ replicate ((4 - length t mod 4) mod 4)%nat "="%char.

Definition decodeToken (token : list ascii) : option TokenPayload :=
  match Cursor.utf8_decode (base64_decode token) ≫= Cursor.json_parse with
  | Some (Cursor.JObj fs) =>
      match Cursor.json_field (chars "userId") fs, Cursor.json_field (chars "role") fs with
      | Some (Cursor.JStr ((_ :: _) as u)), Some (Cursor.JStr r) =>
          if bool_decide (r ∈ VALID_ROLES) then Some {| userId := u; role := r |} else None
      | _, _ => None
      end
  | _ => None
  end.

Definition createToken (u r : list ascii) : list ascii :=
  base64_encode (Cursor.utf8_encode
    ("{"%char :: Cursor.print_string (chars "userId") ++ ":"%char :: Cursor.print_string u ++
     ","%char :: Cursor.print_string (chars "role") ++ ":"%char :: Cursor.print_string r ++ ["}"%char])).

Definition BEARER : list ascii := chars "Bearer ".

Definition authenticateMiddleware (header : option string) : reply TokenPayload :=
  match header with
  | None => Status 401
  | Some h =>
      if Ssrf.starts_with BEARER (chars h) then
        match decodeToken (drop 7 (chars h)) with Some p => Next p | None => Status 401 end
      else Status 401
  end.

(** [authenticateEither]: who the request acts as. *)
Definition authenticateEither (authorization apiKey : option string) (validated : result unit (option ApiKeys.ApiKeyInfo))
  : reply (TokenPayload + ApiKeys.ApiKeyInfo) :=
  let jwt := match authorization with Some h => Ssrf.starts_with BEARER (chars h) | None => false end in
  if jwt then
    match authenticateMiddleware authorization with Next p => Next (inl p) | Status c => Status c end
  else
    match apiKey with
    | None | Some EmptyString => Status 401
    | Some _ => match authenticateApiKey apiKey validated with Next i => Next (inr i) | Status c => Status c end
    end.

(** ** Request validation *)

Definition NAME_MAX_LEN : Z := 100.
Definition NAME_MIN_LEN : Z := 1.
Definition SCOPE_MAX_ITEMS : Z := 20.
Definition SCOPE_ITEM_MAX_LEN : Z := 64.
Definition ALLOWED_CREATE_FIELDS : list string := ["name"; "scope"; "expiresAt"]%string.

Inductive code : Type := MISSING_FIELDS | INVALID_SCOPE | UNKNOWN_FIELDS | OUT_OF_RANGE | INVALID_DATE.

Definition slen (s : string) : Z := Z.of_nat (length (chars s)).

(** [/^[a-z-]+$/.test(s)] *)
Definition lower_name (l : list ascii) : bool :=
  negb (bool_decide (l = [])) && forallb (fun c => in_range 97 122 c || is_char "-"%char c) l.

(** The negation of the filter that collects [invalidScopes]. *)
Definition scope_item_ok (s : list ascii) : bool :=
  if bool_decide (s = STAR) then true
  else if ends_with COLON_STAR s then lower_name (take (length s - 2) s)
  else if Ssrf.starts_with STAR_COLON s then lower_name (drop 2 s)
  else match Ssrf.split_on ":"%char s with
       | [r; a] => lower_name r && lower_name a
       | _ => false
       end.

Section Validation.
Context (date_time : string -> option Z).

Definition check_expiresAt (v : value) : option code :=
  match v with
  | VUndefined => None
  | VString s => match date_time s with Some _ => None | None => Some INVALID_DATE end
  | _ => Some INVALID_DATE
  end.

Definition check_scopes (items : list string) : option code :=
  if existsb (fun s => bool_decide (SCOPE_ITEM_MAX_LEN < slen s)) items then Some OUT_OF_RANGE
  else if existsb (fun s => negb (scope_item_ok (chars s))) items then Some INVALID_SCOPE
  else None.

Definition validateApiKeyRequestBody (body : value) : option code :=
  match body with
  | VObject fields =>
      if existsb (fun k => negb (bool_decide (k ∈ ALLOWED_CREATE_FIELDS))) fields.*1 then Some UNKNOWN_FIELDS
      else
        match prop body "name" with
        | VString name =>
            if bool_decide (slen (trim name) < NAME_MIN_LEN) then Some MISSING_FIELDS
            else if bool_decide (NAME_MAX_LEN < slen name) then Some OUT_OF_RANGE
            else
              match prop body "scope" with
              | VArray ((_ :: _) as items) =>
                  if bool_decide (SCOPE_MAX_ITEMS < Z.of_nat (length items)) then Some OUT_OF_RANGE
                  else if existsb (fun v => match as_string v with Some _ => false | None => true end) items
                  then Some MISSING_FIELDS
                  else match check_scopes (omap as_string items) with
                       | Some c => Some c
                       | None => check_expiresAt (prop body "expiresAt")
                       end
              | _ => Some MISSING_FIELDS
              end
        | _ => Some MISSING_FIELDS
        end
  | _ => Some MISSING_FIELDS
  end.

(** ** Controllers *)

Definition body_scopes (body : value) : list string :=
  match prop body "scope" with VArray items => omap as_string items | _ => [] end.

Definition body_expiry (body : value) : option ApiKeys.stamp :=
  match prop body "expiresAt" with
  | VString ((String _ _) as s) => ApiKeys.At <$> date_time s
  | _ => None
  end.

(** [createApiKeyController] up to its call of [createApiKey]: the answer, or
    the request it passes on. *)
Definition createApiKeyController (body : value) (user : option string) : reply ApiKeys.ApiKeyRequest :=
  match validateApiKeyRequestBody body with
  | Some _ => Status 400
  | None =>
      match user with
      | None => Status 401
      | Some u => Next {| ApiKeys.r_name := default EmptyString (as_string (prop body "name"));
                          ApiKeys.r_scope := body_scopes body; ApiKeys.r_createdBy := u;
                          ApiKeys.r_expiresAt := body_expiry body |}
      end
  end.
End Validation.

(** The checks [rotateApiKeyController], [deactivateApiKeyController] and
    [getApiKeyController] start with. *)
Definition owned_key (user : option string) (i : string) (d : ApiKeys.database) : reply ApiKeys.ApiKey :=
  match user with
  | None => Status 401
  | Some u =>
      match ApiKeys.getApiKeyById i d ≫= fun r => ApiKeys.objects d !! r with
      | None => Status 404
      | Some k => if String.eqb (ApiKeys.created_by k) u then Next k else Status 403
      end
  end.

(** ** Prefixes and suffixes *)

Lemma starts_with_iff w l : Ssrf.starts_with w l = true <-> exists x, l = w ++ x.
Proof.
  revert l. induction w as [|a w IH]; intros l; simpl; [split; [by exists l|done]|].
  destruct l as [|b l]; [split; [done|by intros [? ?]]|].
  rewrite andb_true_iff, IH, Ascii.eqb_eq. split.
  - intros [-> [x ->]]. by exists x.
  - intros [x [= -> ->]]. split; [done|by exists x].
Qed.

Lemma ends_with_iff w l : ends_with w l = true <-> exists x, l = x ++ w.
Proof.
  unfold ends_with. rewrite starts_with_iff. split; intros [x E].
  - exists (reverse x). apply (f_equal reverse) in E. by rewrite reverse_app, !reverse_involutive in E.
  - exists (reverse x). rewrite E. by rewrite reverse_app.
Qed.

(** ** Which requests a scope admits *)

(** The documented meaning: a full wildcard, or a resource and an action, each
    of them a name or a wildcard. *)
Definition admits (resource action scope : list ascii) : Prop :=
  scope = STAR \/ exists x y, scope = x ++ ":"%char :: y /\ (x = STAR \/ x = resource) /\ (y = STAR \/ y = action).

Lemma lower_name_plain l : lower_name l = true -> ":"%char ∉ l /\ "*"%char ∉ l /\ l <> [].
Proof.
  unfold lower_name. intros [Hn Hf]%andb_true_iff. bool_to_prop. rewrite forallb_forall in Hf.
  split; [|split; [|done]]; intros Hin%list_elem_of_In; by apply Hf in Hin.
Qed.

Lemma matches_pair r a x y :
  ":"%char ∉ r -> ":"%char ∉ a -> ":"%char ∉ x -> ":"%char ∉ y ->
  scope_matches r a (x ++ ":"%char :: y) = true <-> x = r /\ y = a \/ x = r /\ y = STAR \/ x = STAR /\ y = a.
Proof.
  intros Hr Ha Hx Hy. unfold scope_matches. rewrite !orb_true_iff, !andb_true_iff, !bool_decide_eq_true, !ends_with_iff, !starts_with_iff.
  assert (Hs : ":"%char ∉ STAR) by set_solver.
  assert (Hp : forall u, ":"%char ∉ u -> (exists z, x ++ ":"%char :: y = (u ++ [":"%char]) ++ z) <-> x = u).
  { intros u Hu. split; [|intros ->; exists y; by rewrite <- (assoc (++))].
    intros [z E]. rewrite <- (assoc (++)) in E. by apply split_first in E as [? _]. }
  assert (Hq : forall u, ":"%char ∉ u -> (exists z, x ++ ":"%char :: y = z ++ ":"%char :: u) <-> y = u).
  { intros u Hu. split; [|intros ->; by exists x]. intros [z E]. by apply split_last in E as [_ ?]. }
  change COLON_STAR with (":"%char :: STAR). change STAR_COLON with (STAR ++ [":"%char]).
  rewrite (Hq STAR Hs), (Hq a Ha), (Hp r Hr), (Hp STAR Hs). split.
  - intros [[[E|[-> ->]]|[-> ->]]|E]; [|tauto|tauto|].
    + apply split_first in E as [-> ->]; tauto.
    + destruct Hs. rewrite <- E. set_solver.
  - intros [[-> ->]|[[-> ->]|[-> ->]]]; tauto.
Qed.

Lemma split_on_parts c l : exists p ps, Ssrf.split_on c l = p :: ps.
Proof. destruct l as [|a l]; simpl; [by repeat eexists|]. destruct (Ascii.eqb a c), (Ssrf.split_on c l); by repeat eexists. Qed.

Lemma split_on_one_inv c l x : Ssrf.split_on c l = [x] -> l = x.
Proof.
  revert x. induction l as [|a l IH]; intros x; simpl; [by intros [= <-]|].
  destruct (split_on_parts c l) as (p & ps & E). rewrite E in *. destruct (Ascii.eqb a c); [done|].
  intros [= <- ->]. f_equal. by apply IH.
Qed.

Lemma split_on_two_inv c l x y : Ssrf.split_on c l = [x; y] -> l = x ++ c :: y.
Proof.
  revert x. induction l as [|a l IH]; intros x; simpl; [done|].
  destruct (Ascii.eqb_spec a c) as [->|Hne].
  - intros [= <- E]. by rewrite (split_on_one_inv _ _ _ E).
  - destruct (Ssrf.split_on c l) as [|p ps] eqn:E; [done|]. intros [= <- ->]. simpl. f_equal. by apply IH.
Qed.

(** The shapes a valid scope item has. *)
Lemma scope_item_shape s : scope_item_ok s = true ->
  s = STAR \/ exists x y, s = x ++ ":"%char :: y /\
    (lower_name x = true /\ y = STAR \/ x = STAR /\ lower_name y = true \/ lower_name x = true /\ lower_name y = true).
Proof.
  unfold scope_item_ok. case_bool_decide; [by left|]. intros Hok. right. revert Hok.
  destruct (ends_with COLON_STAR s) eqn:E1.
  { apply ends_with_iff in E1 as [x ->]. intros Hn. exists x, STAR. split; [done|]. left. split; [|done].
    rewrite length_app in *. simpl in *. replace (length x + 2 - 2)%nat with (length x) in * by lia.
    by rewrite take_app_length in *. }
  destruct (Ssrf.starts_with STAR_COLON s) eqn:E2.
  { apply starts_with_iff in E2 as [y ->]. intros Hy. exists STAR, y. split; [done|]. right; left. by split. }
  destruct (Ssrf.split_on ":"%char s) as [|x [|y [|]]] eqn:E; try done. intros [Hx Hy]%andb_true_iff.
  exists x, y. split; [|tauto].
  by apply split_on_two_inv.
Qed.

Lemma valid_scope_exact r a s :
  lower_name r = true -> lower_name a = true -> scope_item_ok s = true -> scope_matches r a s = true <-> admits r a s.
Proof.
  intros (Hr & Hrs & _)%lower_name_plain (Ha & Has & _)%lower_name_plain Hs.
  assert (Hstar : ":"%char ∉ STAR) by set_solver.
  assert (Hname : forall l, lower_name l = true -> l <> STAR).
  { intros l (_ & Hl & _)%lower_name_plain ->. apply Hl. left. }
  destruct (scope_item_shape s Hs) as [->|(x & y & -> & Hxy)].
  { unfold scope_matches, admits. rewrite !orb_true_iff, !bool_decide_eq_true. tauto. }
  assert (Hx : ":"%char ∉ x /\ ":"%char ∉ y).
  { destruct Hxy as [[Hx ->]|[[-> Hy]|[Hx Hy]]]; repeat match goal with H : lower_name _ = true |- _ =>
      apply lower_name_plain in H as (? & _) end; by split. }
  destruct Hx as [Hx Hy]. rewrite matches_pair by done. unfold admits. split.
  - intros H. right. exists x, y. split; [done|]. intuition.
  - intros [E|(x' & y' & E & Hx' & Hy')].
    { exfalso. assert (Hin : ":"%char ∈ x ++ ":"%char :: y) by set_solver. rewrite E in Hin. done. }
    assert (Hc : ":"%char ∉ x') by (destruct Hx' as [-> | ->]; done).
    apply split_first in E as [<- <-]; [|done|done].
    destruct Hx' as [-> | ->], Hy' as [-> | ->]; try tauto.
    exfalso. destruct Hxy as [[H _]|[[_ H]|[H _]]]; by apply Hname in H.
Qed.

Lemma check_scopes_ok items : check_scopes items = None -> forall s, s ∈ items -> scope_item_ok (chars s) = true.
Proof.
  unfold check_scopes. destruct (existsb _ _); [done|]. destruct (existsb _ _) eqn:E; [done|]. intros _ s Hs.
  apply not_true_iff_false in E. destruct (scope_item_ok (chars s)) eqn:Eo; [done|]. destruct E. apply existsb_exists.
  exists s. split; [by apply list_elem_of_In|]. by rewrite Eo.
Qed.

Ltac skip_test := match goal with |- (if ?b then _ else _) = _ -> _ => destruct b; [done|] end.

Lemma validated_scopes date_time body :
  validateApiKeyRequestBody date_time body = None ->
  forall s, s ∈ body_scopes body -> scope_item_ok (chars s) = true.
Proof.
  unfold validateApiKeyRequestBody, body_scopes. destruct body as [| | | | | |fields]; try done.
  set (body := VObject fields). skip_test. destruct (prop body "name"); try done. do 2 skip_test.
  destruct (prop body "scope") as [| | | | |items|]; try done. destruct items as [|i items]; [done|]. do 2 skip_test.
  destruct (check_scopes (omap as_string (i :: items))) eqn:C; [done|]. intros _. by apply check_scopes_ok.
Qed.

(** ** Bearer tokens *)

Lemma url_std c : Cursor.cursor_char c = true -> url_char (std_char c) = c.
Proof. destruct c as [[] [] [] [] [] [] [] []]; vm_compute; congruence. Qed.

Lemma base64_roundtrip l : base64_decode (base64_encode l) = l.
Proof.
  unfold base64_decode, base64_encode. rewrite fmap_app, <- list_fmap_compose.
  assert (E : (url_char ∘ std_char) <$> Cursor.b64_encode l = Cursor.b64_encode l).
  { rewrite <- (list_fmap_id (Cursor.b64_encode l)) at 2. apply Forall_fmap_ext_1.
    eapply Forall_impl; [apply Cursor.b64_encode_charset|]. intros c Hc. by apply url_std. }
  rewrite E. unfold Cursor.b64_decode. rewrite omap_app.
  assert (P : forall n, omap Cursor.char_sextet (url_char <$> replicate n "="%char) = []).
  { induction n as [|n IH]; [done|]. exact IH. }
  rewrite P, app_nil_r. apply Cursor.b64_roundtrip.
Qed.

(** ** Properties *)

(** A key created through the API grants what its scopes say: when the
    request body was accepted, a route for a resource and an action admits the
    key exactly when one of its scopes is the full wildcard or names the
    resource and the action, each possibly by a wildcard. *)
Theorem created_scopes_exact date_time body user q i r a :
  createApiKeyController date_time body user = Next q -> ApiKeys.i_scope i = ApiKeys.r_scope q ->
  lower_name (chars r) = true -> lower_name (chars a) = true ->
  requireApiKeyScope r a (Some i) = Next tt <-> Exists (fun s => admits (chars r) (chars a) (chars s)) (body_scopes body).
Proof.
  unfold createApiKeyController. intros E Hi Hr Ha. destruct (validateApiKeyRequestBody date_time body) eqn:Hv; [done|].
  destruct user as [u|]; [|done]. injection E as <-. simpl in Hi. pose proof (validated_scopes _ _ Hv) as Hok.
  assert (Hx : existsb (fun s => scope_matches (chars r) (chars a) (chars s)) (ApiKeys.i_scope i) = true <->
               Exists (fun s => admits (chars r) (chars a) (chars s)) (body_scopes body)).
  { rewrite Hi, existsb_exists, Exists_exists. split; intros (s & Hs & Hm); exists s.
    - apply list_elem_of_In in Hs. split; [done|]. apply valid_scope_exact; auto.
    - split; [by apply list_elem_of_In|]. apply valid_scope_exact; auto. }
  simpl. rewrite <- Hx. destruct (existsb _ _); done.
Qed.

(** The bearer tokens of the management endpoints carry no signature: the
    text computed from any user id and any role, without a secret, is accepted
    as that user with that role. *)
Theorem bearer_token_forgeable u r :
  u <> [] -> r ∈ VALID_ROLES ->
  authenticateMiddleware (Some (Cursor.of_chars (BEARER ++ createToken u r))) = Next {| userId := u; role := r |}.
Proof.
  intros Hu Hr. unfold authenticateMiddleware. rewrite Cursor.chars_of_chars.
  assert (Hs : Ssrf.starts_with BEARER (BEARER ++ createToken u r) = true) by (apply starts_with_iff; by eexists).
  rewrite Hs. change 7%nat with (length BEARER). rewrite drop_app_length. unfold decodeToken, createToken.
  rewrite base64_roundtrip, Cursor.utf8_roundtrip. cbn [mbind option_bind]. rewrite Cursor.json_parse_pair.
  change (Cursor.json_field (chars "userId") [(chars "userId", Cursor.JStr u); (chars "role", Cursor.JStr r)]) with (Some (Cursor.JStr u)).
  change (Cursor.json_field (chars "role") [(chars "userId", Cursor.JStr u); (chars "role", Cursor.JStr r)]) with (Some (Cursor.JStr r)).
  destruct u as [|c u]; [done|]. by rewrite bool_decide_eq_true_2.
Qed.

Definition sample_body : value :=
  VObject [("name", VString "ci"); ("scope", VArray [VString "contracts:*"; VString "*:read"]);
           ("expiresAt", VString "2030")]%string.

Definition sample_info : ApiKeys.ApiKeyInfo :=
  {| ApiKeys.i_id := "k"; ApiKeys.i_name := "ci"; ApiKeys.i_scope := ["contracts:*"; "*:read"]%string;
     ApiKeys.i_createdBy := "u"; ApiKeys.i_createdAt := ApiKeys.At 0; ApiKeys.i_expiresAt := None; ApiKeys.i_isActive := true |}.

Lemma created_scopes_exact_witness :
  (requireApiKeyScope "contracts" "delete" (Some sample_info) = Next tt <->
   Exists (fun s => admits (chars "contracts") (chars "delete") (chars s)) (body_scopes sample_body)) /\
  requireApiKeyScope "disputes" "delete" (Some sample_info) = Status 403.
Proof.
  split; [|reflexivity].
  refine (created_scopes_exact (fun _ => Some 0) sample_body (Some "u"%string) _ sample_info "contracts" "delete" _ _ _ _); reflexivity.
Defined.

Lemma bearer_token_forgeable_witness :
  authenticateMiddleware (Some (Cursor.of_chars (BEARER ++ createToken (chars "root") (chars "admin")))) =
  Next {| userId := chars "root"; role := chars "admin" |}.
Proof. apply bearer_token_forgeable; [done|]. vm_compute. left. Defined.

(** The full wildcard in both positions is no valid scope and matches nothing. *)
Example star_star_grants_nothing :
  scope_item_ok (chars "*:*") = false /\ scope_matches (chars "contracts") (chars "read") (chars "*:*") = false.
Proof. done. Qed.
End Access.
