(* ===== verification/Migrations.v ===== *)
(** * The migration runner: src/db/migrations.ts

    The runner, over any type of data a migration works on.  [D] is what the
    migrations read and write; the table schema_version is kept beside it, as an
    insertion-ordered map from the version.  The hash and the clock are given. *)

From stdpp Require Import prelude strings pretty.
From Stdlib Require Import ZArith Lia Ascii.
From S2P Require Import Prelude JsMap.
Open Scope Z_scope.
Open Scope js_scope.

Module Migrations.

Section Runner.
Context {D E : Type}.

Record Migration : Type := {
  version : Z;
  name : string;
  checksumSource : option string;
  up : D -> result E D;
  up_text : string;   (* [up.toString()] *)
}.

Record AppliedMigration : Type := {
  a_version : Z; a_name : string; a_checksum : option string; applied_at : string;
}.

Definition versions : Type := list (Z * AppliedMigration).

(** The table, once it exists, and whether it has its checksum column. *)
Record schema_version : Type := { has_checksum : bool; applied : versions }.

Record db : Type := { schema : option schema_version; data : D }.

Inductive migration_error : Type :=
| InvalidSequence (expected : Z)
| NotInList (v : Z)
| NameMismatch (v : Z)
| ChecksumMismatch (v : Z)
| UpFailed (e : E).

Context (sha256 : string -> string) (now : Z -> string).

Definition ensureMigrationTable (s : db) : db :=
  match schema s with
  | None => {| schema := Some {| has_checksum := true; applied := [] |}; data := data s |}
  | Some t => {| schema := Some {| has_checksum := true; applied := applied t |}; data := data s |}
  end.

Definition applied_rows (s : db) : versions := match schema s with Some t => applied t | None => [] end.

Definition set_applied (m : versions) (s : db) : db :=
  {| schema := Some {| has_checksum := true; applied := m |}; data := data s |}.

Definition by_version (m : versions) : versions := sort_by fst m.

Definition getAppliedMigrations (s : db) : versions := by_version (applied_rows s).

(** The first position whose version is not its number. *)
Fixpoint first_misplaced (expected : Z) (l : list Migration) : option Z :=
  match l with
  | [] => None
  | m :: l' => if bool_decide (version m = expected) then first_misplaced (expected + 1) l' else Some expected
  end.

Definition assertMigrationsAreValid (l : list Migration) : SE db migration_error unit :=
  match first_misplaced 1 l with None => ret tt | Some v => throw (InvalidSequence v) end.

Definition fingerprint (m : Migration) (source : string) : string :=
  pretty (version m) +:+ String "010"%char (name m +:+ String "010"%char source).

Definition computeMigrationChecksum (m : Migration) : string :=
  sha256 (fingerprint m (default (up_text m) (checksumSource m))).

Definition computeLegacyMigrationChecksum (m : Migration) : option string :=
  match checksumSource m with None => None | Some _ => Some (sha256 (fingerprint m (up_text m))) end.

(** [new Map(migrations.map(m => [m.version, m]))] *)
Definition migrationsByVersion (l : list Migration) : list (Z * Migration) :=
  foldl (fun acc m => map_set (version m) m acc) [] l.

(** UPDATE schema_version SET checksum = ? WHERE version = ? *)
Definition set_checksum (v : Z) (c : string) (s : db) : db :=
  match map_get v (applied_rows s) with
  | None => s
  | Some a => set_applied (map_set v {| a_version := a_version a; a_name := a_name a; a_checksum := Some c; applied_at := applied_at a |}
                             (applied_rows s)) s
  end.

Definition verify_one (l : list Migration) (a : AppliedMigration) : SE db migration_error unit :=
  match map_get (a_version a) (migrationsByVersion l) with
  | None => throw (NotInList (a_version a))
  | Some m =>
      let expected := computeMigrationChecksum m in
      throw_if (negb (bool_decide (a_name a = name m))) (NameMismatch (a_version a)) ;;
      match a_checksum a with
      | None => fun s => (Ok tt, set_checksum (a_version a) expected s)
      | Some c =>
          if bool_decide (c = expected) then ret tt
          else if bool_decide (computeLegacyMigrationChecksum m = Some c) then fun s => (Ok tt, set_checksum (a_version a) expected s)
          else throw (ChecksumMismatch (a_version a))
      end
  end.

Fixpoint verify_rows (l : list Migration) (rows : list AppliedMigration) : SE db migration_error unit :=
  match rows with
  | [] => ret tt
  | a :: rows' => verify_one l a ;; verify_rows l rows'
  end.

Definition verifyAppliedMigrations (rows : versions) (l : list Migration) : SE db migration_error unit :=
  verify_rows l (map_values rows).

(** One transaction: the migration and its row, or nothing. *)
Definition applyMigration (m : Migration) : SE db migration_error unit := fun s =>
  match up m (data s) with
  | Err e => (Err (UpFailed e), s)
  | Ok d => (Ok tt, {| schema := Some {| has_checksum := true;
                         applied := map_set (version m) {| a_version := version m; a_name := name m;
                           a_checksum := Some (computeMigrationChecksum m); applied_at := now (version m) |} (applied_rows s) |};
                       data := d |})
  end.

Fixpoint apply_pending (done_ : versions) (l : list Migration) : SE db migration_error unit :=
  match l with
  | [] => ret tt
  | m :: l' => (if map_has (version m) done_ then ret tt else applyMigration m) ;; apply_pending done_ l'
  end.

Definition runMigrations (l : list Migration) : SE db migration_error unit :=
  assertMigrationsAreValid l ;;
  (fun s => (Ok tt, ensureMigrationTable s)) ;;
  let! rows := (fun s => (Ok (getAppliedMigrations s), s)) in
  verifyAppliedMigrations rows l ;;
  apply_pending rows l.

(** ** Sequences *)

Lemma first_misplaced_spec l k : first_misplaced k l = None <-> forall i m, l !! i = Some m -> version m = k + Z.of_nat i.
Proof.
  revert k. induction l as [|m l IH]; intros k; [done|]. cbn [first_misplaced]. case_bool_decide as H.
  - rewrite IH. split; intros Hl [|i] m' Hi; cbn in Hi.
    + simplify_eq. lia.
    + specialize (Hl _ _ Hi). lia.
    + specialize (Hl 1%nat m' Hi). lia.
    + specialize (Hl (S (S i)) m' Hi). lia.
  - split; [done|]. intros Hl. specialize (Hl 0%nat m eq_refl). lia.
Qed.

Definition valid (l : list Migration) : Prop := forall i m, l !! i = Some m -> version m = 1 + Z.of_nat i.

Lemma valid_iff l : first_misplaced 1 l = None <-> valid l.
Proof. apply first_misplaced_spec. Qed.

Lemma valid_nodup l : valid l -> NoDup (version <$> l).
Proof.
  intros H. apply NoDup_alt. intros i j x Hi Hj. rewrite list_lookup_fmap in Hi, Hj.
  destruct (l !! i) as [a|] eqn:Ha, (l !! j) as [b|] eqn:Hb; try done. cbn in *. simplify_eq.
  apply H in Ha, Hb. lia.
Qed.

Lemma valid_app l1 l2 : valid (l1 ++ l2) -> valid l1.
Proof. intros H i m Hi. apply H. by apply lookup_app_l_Some. Qed.

Lemma byVersion_aux l acc v : NoDup (version <$> l) ->
  map_get v (foldl (fun acc m => map_set (version m) m acc) acc l) =
    match list_find (fun m => version m = v) l with Some (_, m) => Some m | None => map_get v acc end.
Proof.
  revert acc. induction l as [|m l IH]; intros acc Hd; [done|]. cbn [foldl fmap list_fmap] in *. apply NoDup_cons in Hd as [Hn Hd].
  rewrite IH by done. cbn [list_find]. destruct (decide (version m = v)) as [<-|Hne].
  - destruct (list_find (fun m0 => version m0 = version m) l) as [[i m']|] eqn:Hf; [|by rewrite map_get_set_eq].
    apply list_find_Some in Hf as (Hi & He & _). exfalso. apply Hn. rewrite <- He. apply list_elem_of_fmap_2. by eapply list_elem_of_lookup_2.
  - destruct (list_find _ l) as [[i m']|]; [done|]. by rewrite map_get_set_ne.
Qed.

(** Looking a version up in a valid list is indexing it. *)
Lemma byVersion_get l v m : valid l -> map_get v (migrationsByVersion l) = Some m <-> m ∈ l /\ version m = v.
Proof.
  intros Hv. unfold migrationsByVersion. rewrite byVersion_aux by by apply valid_nodup. split.
  - destruct (list_find _ l) as [[i m']|] eqn:Hf; [|done]. intros [= <-]. apply list_find_Some in Hf as (Hi & He & _).
    split; [by eapply list_elem_of_lookup_2|done].
  - intros [Hm <-]. destruct (list_find_elem_of (fun m' => version m' = version m) l m Hm eq_refl) as [[i m'] Hf].
    rewrite Hf. apply list_find_Some in Hf as (Hi & He & _). apply list_elem_of_lookup_1 in Hm as [j Hj].
    pose proof (Hv _ _ Hi). pose proof (Hv _ _ Hj). assert (i = j) by lia. subst. congruence.
Qed.

(** ** Verifying what was applied *)

(** A stored row the start-up accepts: its migration is in the list under its name,
    and its checksum is missing, current or the legacy one. *)
Definition acceptable (l : list Migration) (a : AppliedMigration) : bool :=
  match map_get (a_version a) (migrationsByVersion l) with
  | None => false
  | Some m =>
      bool_decide (a_name a = name m) &&
      match a_checksum a with
      | None => true
      | Some c => bool_decide (c = computeMigrationChecksum m) || bool_decide (computeLegacyMigrationChecksum m = Some c)
      end
  end.

(** The row with the current checksum. *)
Definition stamped (l : list Migration) (a : AppliedMigration) : AppliedMigration :=
  {| a_version := a_version a; a_name := a_name a; applied_at := applied_at a;
     a_checksum := match map_get (a_version a) (migrationsByVersion l) with
                   | Some m => Some (computeMigrationChecksum m) | None => a_checksum a end |}.

Definition is_up_failed (e : migration_error) : bool := match e with UpFailed _ => true | _ => false end.

Lemma set_checksum_get v c s u :
  map_get u (applied_rows (set_checksum v c s)) =
    if bool_decide (u = v)
    then (fun a => {| a_version := a_version a; a_name := a_name a; a_checksum := Some c; applied_at := applied_at a |}) <$> map_get v (applied_rows s)
    else map_get u (applied_rows s).
Proof.
  unfold set_checksum. destruct (map_get v (applied_rows s)) as [a|] eqn:Ha; case_bool_decide as H; subst; try done; cbn.
  - by rewrite map_get_set_eq.
  - by rewrite map_get_set_ne.
Qed.

Lemma set_checksum_data v c s : data (set_checksum v c s) = data s.
Proof. unfold set_checksum. by destruct (map_get _ _). Qed.

Definition table_ready (s : db) : Prop := exists m, schema s = Some {| has_checksum := true; applied := m |}.

Lemma set_checksum_ready v c s : table_ready s -> table_ready (set_checksum v c s).
Proof. intros [m Hm]. unfold set_checksum. destruct (map_get _ _); [by eexists|by exists m]. Qed.

Lemma set_checksum_wf v c s : wf (applied_rows s) -> wf (applied_rows (set_checksum v c s)).
Proof. intros Hw. unfold set_checksum. destruct (map_get _ _); [by apply wf_set|done]. Qed.

Lemma verify_one_ok l a s :
  map_get (a_version a) (applied_rows s) = Some a -> acceptable l a = true ->
  exists s', verify_one l a s = (Ok tt, s') /\ data s' = data s /\ (table_ready s -> table_ready s') /\
    (wf (applied_rows s) -> wf (applied_rows s')) /\
    (stamped l a = a -> s' = s) /\
    forall v, map_get v (applied_rows s') = if bool_decide (v = a_version a) then Some (stamped l a) else map_get v (applied_rows s).
Proof.
  intros Ha. unfold acceptable, verify_one, stamped. destruct (map_get (a_version a) (migrationsByVersion l)) as [m|] eqn:Hm; [|done].
  intros [Hn Hc]%andb_true_iff. rewrite Hn. run_se.
  assert (Hset : forall c, c = computeMigrationChecksum m ->
    forall v, map_get v (applied_rows (set_checksum (a_version a) c s)) =
    if bool_decide (v = a_version a) then Some {| a_version := a_version a; a_name := a_name a;
      a_checksum := Some (computeMigrationChecksum m); applied_at := applied_at a |} else map_get v (applied_rows s)).
  { intros c -> v. rewrite set_checksum_get, Ha. done. }
  destruct a as [av an [c|] at_]; cbn [a_checksum a_version a_name applied_at] in *.
  - case_bool_decide as Hcur.
    + exists s. split_and!; try done. intros v. destruct (decide (v = av)) as [Hv|Hv]; [|by rewrite bool_decide_eq_false_2]. by rewrite bool_decide_eq_true_2, Hv, Ha, Hcur.
    + apply orb_true_iff in Hc as [Hc|Hc]; [done|]. rewrite Hc. eexists. split; [done|].
      split_and!; [apply set_checksum_data|by apply set_checksum_ready|by apply set_checksum_wf|congruence|by apply Hset].
  - eexists. split; [done|].
    split_and!; [apply set_checksum_data|by apply set_checksum_ready|by apply set_checksum_wf|congruence|by apply Hset].
Qed.

Lemma verify_one_err l a s :
  acceptable l a = false -> exists e, verify_one l a s = (Err e, s) /\ is_up_failed e = false.
Proof.
  unfold acceptable, verify_one. destruct (map_get _ _) as [m|]; [|by eexists].
  case_bool_decide as Hn; run_se; [|by eexists]. destruct (a_checksum a) as [c|]; [|done].
  intros [H1 H2]%orb_false_iff. rewrite H1, H2. by eexists.
Qed.

Lemma verify_rows_ok l rows s :
  NoDup (a_version <$> rows) -> (forall a, a ∈ rows -> map_get (a_version a) (applied_rows s) = Some a) ->
  Forall (fun a => acceptable l a = true) rows ->
  exists s', verify_rows l rows s = (Ok tt, s') /\ data s' = data s /\ (table_ready s -> table_ready s') /\
    (wf (applied_rows s) -> wf (applied_rows s')) /\
    (Forall (fun a => stamped l a = a) rows -> s' = s) /\
    forall v, map_get v (applied_rows s') =
      match list_find (fun a => a_version a = v) rows with Some (_, a) => Some (stamped l a) | None => map_get v (applied_rows s) end.
Proof.
  revert s. induction rows as [|a rows IH]; intros s Hd Hin Hacc.
  { exists s. cbn. done. }
  cbn [fmap list_fmap] in Hd. apply NoDup_cons in Hd as [Hna Hd]. apply Forall_cons in Hacc as [Ha Hacc].
  destruct (verify_one_ok l a s) as (s1 & E1 & D1 & R1 & W1 & N1 & G1); [apply Hin; set_solver|done|].
  destruct (IH s1) as (s2 & E2 & D2 & R2 & W2 & N2 & G2); [done| |done|].
  { intros b Hb. rewrite G1, bool_decide_eq_false_2; [apply Hin; set_solver|].
    intros Heq. apply Hna. rewrite <- Heq. by apply list_elem_of_fmap_2. }
  exists s2. cbn [verify_rows]. unfold bind. rewrite E1, E2. split_and!; [done|congruence|auto|auto| |].
  - intros [Hs Hss]%Forall_cons. rewrite N2 by done. by apply N1.
  - intros v. rewrite G2. cbn [list_find]. destruct (decide (a_version a = v)) as [<-|Hne].
    + destruct (list_find (fun a0 => a_version a0 = a_version a) rows) as [[i b]|] eqn:Hf.
      * apply list_find_Some in Hf as (Hi & He & _). exfalso. apply Hna. rewrite <- He. apply list_elem_of_fmap_2. by eapply list_elem_of_lookup_2.
      * by rewrite G1, bool_decide_eq_true_2.
    + destruct (list_find _ rows) as [[i b]|]; [done|]. rewrite G1, bool_decide_eq_false_2; done.
Qed.

Lemma verify_rows_err l rows s :
  NoDup (a_version <$> rows) -> (forall a, a ∈ rows -> map_get (a_version a) (applied_rows s) = Some a) ->
  ~ Forall (fun a => acceptable l a = true) rows ->
  exists e s', verify_rows l rows s = (Err e, s') /\ is_up_failed e = false /\ data s' = data s /\
    forall v, is_Some (map_get v (applied_rows s')) <-> is_Some (map_get v (applied_rows s)).
Proof.
  revert s. induction rows as [|a rows IH]; intros s Hd Hin Hacc; [by destruct Hacc|].
  cbn [fmap list_fmap] in Hd. apply NoDup_cons in Hd as [Hna Hd]. cbn [verify_rows]. unfold bind.
  destruct (acceptable l a) eqn:Ha.
  - destruct (verify_one_ok l a s) as (s1 & E1 & D1 & R1 & W1 & N1 & G1); [apply Hin; set_solver|done|].
    destruct (IH s1) as (e & s2 & E2 & Hu & D2 & G2); [done| |by intros H; apply Hacc; constructor|].
    { intros b Hb. rewrite G1, bool_decide_eq_false_2; [apply Hin; set_solver|].
      intros Heq. apply Hna. rewrite <- Heq. by apply list_elem_of_fmap_2. }
    exists e, s2. rewrite E1, E2. split_and!; [done..|congruence|]. intros v. rewrite G2, G1. case_bool_decide as Hv; [|done].
    subst v. rewrite (Hin a) by set_solver. split; eauto.
  - destruct (verify_one_err l a s Ha) as (e & -> & Hu). by exists e, s.
Qed.

(** ** Applying what is pending *)

Definition row_of (m : Migration) : AppliedMigration :=
  {| a_version := version m; a_name := name m; a_checksum := Some (computeMigrationChecksum m); applied_at := now (version m) |}.

(** The migrations one after the other, on the data alone. *)
Fixpoint ups (l : list Migration) (d : D) : result E D :=
  match l with
  | [] => Ok d
  | m :: l' => match up m d with Ok d' => ups l' d' | Err e => Err e end
  end.

Definition pending (m : versions) (l : list Migration) : list Migration := filter (fun x => map_has (version x) m = false) l.

Definition record_all (l : list Migration) (m : versions) : versions := foldl (fun acc x => map_set (version x) (row_of x) acc) m l.

(** What a run that has applied [pre] leaves. *)
Definition after (pre : list Migration) (d : D) (s : db) : db :=
  match pre with [] => s | _ => {| schema := Some {| has_checksum := true; applied := record_all pre (applied_rows s) |}; data := d |} end.

Lemma pending_cons m x l :
  pending m (x :: l) = if map_has (version x) m then pending m l else x :: pending m l.
Proof. unfold pending. rewrite filter_cons. destruct (map_has _ _); [by rewrite decide_False|by rewrite decide_True]. Qed.

Lemma pending_app m l1 l2 : pending m (l1 ++ l2) = pending m l1 ++ pending m l2.
Proof. apply filter_app. Qed.

Lemma pending_nodup m l : valid l -> NoDup (version <$> pending m l).
Proof.
  intros Hl. apply valid_nodup in Hl. unfold pending. induction l as [|x l IH]; [constructor|].
  cbn [fmap list_fmap] in Hl. apply NoDup_cons in Hl as [Hn Hd]. rewrite filter_cons. destruct (decide _); [|by apply IH].
  cbn [fmap list_fmap]. apply NoDup_cons. split; [|by apply IH]. intros (y & Hy & Hin)%list_elem_of_fmap.
  apply list_elem_of_filter in Hin as [_ Hin]. apply Hn. rewrite Hy. by apply list_elem_of_fmap_2.
Qed.

Lemma after_cons x l d d' s :
  after l d' {| schema := Some {| has_checksum := true; applied := map_set (version x) (row_of x) (applied_rows s) |}; data := d |} =
  {| schema := Some {| has_checksum := true; applied := record_all (x :: l) (applied_rows s) |};
     data := match l with [] => d | _ => d' end |}.
Proof. by destruct l. Qed.

Lemma apply_pending_ok done_ l s d :
  ups (pending done_ l) (data s) = Ok d -> apply_pending done_ l s = (Ok tt, after (pending done_ l) d s).
Proof.
  revert s. induction l as [|x l IH]; intros s Hu; [done|]. cbn [apply_pending]. rewrite pending_cons in *. unfold bind.
  destruct (map_has (version x) done_); [by apply IH|]. cbn [ups] in Hu. unfold applyMigration.
  destruct (up x (data s)) as [d1|e] eqn:Hx; [|done]. fold (row_of x). rewrite IH by exact Hu. rewrite after_cons. cbn [after].
  f_equal. f_equal. destruct (pending done_ l); [by injection Hu|done].
Qed.

Lemma apply_pending_err done_ l s e :
  ups (pending done_ l) (data s) = Err e -> exists pre m post d, pending done_ l = pre ++ m :: post /\
    ups pre (data s) = Ok d /\ up m d = Err e /\ apply_pending done_ l s = (Err (UpFailed e), after pre d s).
Proof.
  revert s. induction l as [|x l IH]; intros s Hu; [done|]. cbn [apply_pending]. rewrite pending_cons in *. unfold bind.
  destruct (map_has (version x) done_); [by apply IH|]. cbn [ups] in Hu. unfold applyMigration.
  destruct (up x (data s)) as [d1|e'] eqn:Hx.
  - fold (row_of x).
    destruct (IH {| schema := Some {| has_checksum := true; applied := map_set (version x) (row_of x) (applied_rows s) |}; data := d1 |} Hu)
      as (pre & m & post & d & Hp & Hd & Hm & He). exists (x :: pre), m, post, d. rewrite Hp, He. cbn [ups]. rewrite Hx.
    split_and!; [done..|]. rewrite after_cons. cbn [after]. f_equal. f_equal. destruct pre; [by injection Hd|done].
  - simplify_eq. exists [], x, (pending done_ l), (data s). done.
Qed.

Lemma after_data pre d s : ups pre (data s) = Ok d -> data (after pre d s) = d.
Proof. destruct pre; cbn; congruence. Qed.

Lemma after_rows pre d s : applied_rows (after pre d s) = record_all pre (applied_rows s).
Proof. by destruct pre. Qed.

Lemma record_all_get l m v : NoDup (version <$> l) ->
  map_get v (record_all l m) = match list_find (fun x => version x = v) l with Some (_, x) => Some (row_of x) | None => map_get v m end.
Proof.
  revert m. induction l as [|x l IH]; intros m Hd; [done|]. unfold record_all in *. cbn [foldl fmap list_fmap] in *.
  apply NoDup_cons in Hd as [Hn Hd]. rewrite IH by done. cbn [list_find]. destruct (decide (version x = v)) as [<-|Hne].
  - destruct (list_find (fun m0 => version m0 = version x) l) as [[i m']|] eqn:Hf; [|by rewrite map_get_set_eq].
    apply list_find_Some in Hf as (Hi & He & _). exfalso. apply Hn. rewrite <- He. apply list_elem_of_fmap_2. by eapply list_elem_of_lookup_2.
  - destruct (list_find _ l) as [[i m']|]; [done|]. by rewrite map_get_set_ne.
Qed.

Lemma record_all_wf l m : wf m -> wf (record_all l m).
Proof. revert m. induction l as [|x l IH]; intros m Hm; [done|]. apply IH. by apply wf_set. Qed.

(** ** The whole run *)

(** The table is keyed by the versions of its rows. *)
Definition rows_ok (s : db) : Prop :=
  wf (applied_rows s) /\ forall k a, map_get k (applied_rows s) = Some a -> a_version a = k.

Lemma ensure_rows s : applied_rows (ensureMigrationTable s) = applied_rows s.
Proof. unfold applied_rows, ensureMigrationTable. by destruct (schema s). Qed.

Lemma ensure_data s : data (ensureMigrationTable s) = data s.
Proof. unfold ensureMigrationTable. by destruct (schema s). Qed.

Lemma ensure_ready s : table_ready (ensureMigrationTable s).
Proof. unfold ensureMigrationTable. destruct (schema s); by eexists. Qed.

Lemma ensure_id s : table_ready s -> ensureMigrationTable s = s.
Proof. destruct s as [sc d]. intros [m Hm]. cbn in *. by subst. Qed.

(** Every stored row is accepted. *)
Definition verified (l : list Migration) (m : versions) : Prop := forall k a, map_get k m = Some a -> acceptable l a = true.

Section Snapshot.
Context (s : db) (Hok : rows_ok s).

Lemma snapshot_in a : a ∈ map_values (getAppliedMigrations s) <-> map_get (a_version a) (applied_rows s) = Some a.
Proof.
  unfold getAppliedMigrations, by_version, map_values. rewrite list_elem_of_fmap. split.
  - intros ([k b] & -> & Hin). apply elem_of_sort_by in Hin. apply elem_of_map_get in Hin; [|apply Hok].
    cbn. by rewrite (proj2 Hok _ _ Hin).
  - intros H. exists (a_version a, a). split; [done|]. apply elem_of_sort_by. by apply map_get_elem_of.
Qed.

Lemma snapshot_nodup : NoDup (a_version <$> map_values (getAppliedMigrations s)).
Proof.
  assert (He : a_version <$> map_values (getAppliedMigrations s) = (getAppliedMigrations s).*1).
  { unfold map_values. rewrite <- list_fmap_compose. apply list_fmap_ext. intros i [k a] Hi. cbn.
    apply (proj2 Hok). apply elem_of_map_get; [apply Hok|]. apply (elem_of_sort_by fst). by eapply list_elem_of_lookup_2. }
  rewrite He. unfold getAppliedMigrations, by_version. rewrite (sort_by_perm fst). apply Hok.
Qed.

Lemma snapshot_has v : map_has v (getAppliedMigrations s) = map_has v (applied_rows s).
Proof.
  apply eq_true_iff_eq. rewrite !map_has_true. unfold getAppliedMigrations, by_version.
  assert (Hw : wf (sort_by fst (applied_rows s))) by (unfold wf, map_keys; rewrite (sort_by_perm fst); apply Hok).
  split; intros [a Ha]; exists a; apply map_get_iff; try apply Hok; try done; apply map_get_iff in Ha; try apply Hok; try done.
  - by apply elem_of_sort_by in Ha.
  - by apply elem_of_sort_by.
Qed.

Lemma snapshot_pending l : pending (getAppliedMigrations s) l = pending (applied_rows s) l.
Proof. induction l as [|x l IH]; [done|]. rewrite !pending_cons, snapshot_has, IH. done. Qed.

Lemma snapshot_verified l : Forall (fun a => acceptable l a = true) (map_values (getAppliedMigrations s)) <-> verified l (applied_rows s).
Proof.
  rewrite Forall_forall. split.
  - intros H k a Ha. apply H, snapshot_in. pose proof (proj2 Hok _ _ Ha) as E'. by rewrite E'.
  - intros H a Ha. apply snapshot_in in Ha. by eapply H.
Qed.

Lemma verify_snapshot l :
  verified l (applied_rows s) -> exists s', verifyAppliedMigrations (getAppliedMigrations s) l s = (Ok tt, s') /\ data s' = data s /\
    (table_ready s -> table_ready s') /\ (wf (applied_rows s')) /\
    ((forall k a, map_get k (applied_rows s) = Some a -> stamped l a = a) -> s' = s) /\
    forall v, map_get v (applied_rows s') = stamped l <$> map_get v (applied_rows s).
Proof.
  intros Hv. destruct (verify_rows_ok l (map_values (getAppliedMigrations s)) s) as (s' & E1 & D1 & R1 & W1 & N1 & G1).
  - apply snapshot_nodup.
  - intros a. apply snapshot_in.
  - by apply snapshot_verified.
  - exists s'. split_and!; [done..|apply W1, Hok| |].
    + intros Hs. apply N1, Forall_forall. intros a Ha. apply snapshot_in in Ha. by eapply Hs.
    + intros v. rewrite G1. destruct (list_find _ _) as [[i a]|] eqn:Hf.
      * apply list_find_Some in Hf as (Hi & <- & _). apply list_elem_of_lookup_2, snapshot_in in Hi. by rewrite Hi.
      * destruct (map_get v (applied_rows s)) as [a|] eqn:Ha; [|done]. pose proof (proj2 Hok _ _ Ha) as E'.
        apply list_find_None in Hf. rewrite Forall_forall in Hf. exfalso. apply (Hf a); [|done]. apply snapshot_in. by rewrite E'.
Qed.

End Snapshot.

Lemma ensure_ok s : rows_ok s -> rows_ok (ensureMigrationTable s).
Proof. unfold rows_ok. by rewrite ensure_rows. Qed.

(** A verified start goes on to the pending migrations, from the stamped rows. *)
Lemma run_verified l s :
  rows_ok s -> valid l -> verified l (applied_rows s) ->
  exists s1, runMigrations l s = apply_pending (getAppliedMigrations s) l s1 /\
    verifyAppliedMigrations (getAppliedMigrations s) l (ensureMigrationTable s) = (Ok tt, s1) /\ data s1 = data s /\ table_ready s1 /\ wf (applied_rows s1) /\
    (table_ready s -> (forall k a, map_get k (applied_rows s) = Some a -> stamped l a = a) -> s1 = s) /\
    forall v, map_get v (applied_rows s1) = stamped l <$> map_get v (applied_rows s).
Proof.
  intros Hok Hl Hv. unfold runMigrations, assertMigrationsAreValid. rewrite (proj2 (valid_iff l) Hl). unfold bind, ret.
  destruct (verify_snapshot (ensureMigrationTable s) (ensure_ok s Hok) l) as (s1 & E1 & D1 & R1 & W1 & N1 & G1); [by rewrite ensure_rows|].
  rewrite ensure_rows in N1, G1. rewrite ensure_data in D1. exists s1.
  assert (Hs : getAppliedMigrations (ensureMigrationTable s) = getAppliedMigrations s) by (unfold getAppliedMigrations; by rewrite ensure_rows).
  rewrite Hs in E1. rewrite Hs, E1. split_and!; [done|done|done|apply R1, ensure_ready|done| |done].
  intros Hr Hst. rewrite <- (ensure_id s Hr). by apply N1.
Qed.

Lemma run_unverified l s :
  rows_ok s -> valid l -> ~ verified l (applied_rows s) ->
  exists e s', runMigrations l s = (Err e, s') /\ is_up_failed e = false /\ data s' = data s /\
    forall v, is_Some (map_get v (applied_rows s')) <-> is_Some (map_get v (applied_rows s)).
Proof.
  intros Hok Hl Hv. unfold runMigrations, assertMigrationsAreValid. rewrite (proj2 (valid_iff l) Hl). unfold bind, ret, verifyAppliedMigrations.
  set (s0 := ensureMigrationTable s). pose proof (ensure_ok s Hok) as Hok0. fold s0 in Hok0.
  destruct (verify_rows_err l (map_values (getAppliedMigrations s0)) s0) as (e & s' & -> & Hu & Hd & Hg).
  - by apply snapshot_nodup.
  - intros a. by apply snapshot_in.
  - rewrite snapshot_verified by done. unfold s0. by rewrite ensure_rows.
  - exists e, s'. unfold s0 in *. rewrite ensure_data in Hd. rewrite ensure_rows in Hg. done.
Qed.

(** A run stops before the migrations, or comes to them. *)
Lemma run_inv l s :
  rows_ok s ->
  (exists e, is_up_failed e = false /\ exists s', runMigrations l s = (Err e, s') /\ ~ (valid l /\ verified l (applied_rows s)) /\ data s' = data s /\
     forall v, is_Some (map_get v (applied_rows s')) <-> is_Some (map_get v (applied_rows s))) \/
  (valid l /\ verified l (applied_rows s) /\
   exists s1, runMigrations l s = apply_pending (getAppliedMigrations s) l s1 /\
     verifyAppliedMigrations (getAppliedMigrations s) l (ensureMigrationTable s) = (Ok tt, s1) /\ data s1 = data s /\ table_ready s1 /\
     wf (applied_rows s1) /\ forall v, map_get v (applied_rows s1) = stamped l <$> map_get v (applied_rows s)).
Proof.
  intros Hok. destruct (first_misplaced 1 l) as [v|] eqn:Hm.
  { left. exists (InvalidSequence v). split; [done|]. exists s. unfold runMigrations, assertMigrationsAreValid. rewrite Hm. split; [done|].
    split; [|done]. intros [Hl _]. apply valid_iff in Hl. congruence. }
  apply valid_iff in Hm.
  assert (Hdec : verified l (applied_rows s) \/ ~ verified l (applied_rows s)).
  { destruct (decide (Forall (fun a => acceptable l a = true) (map_values (getAppliedMigrations s)))) as [H|H];
      rewrite snapshot_verified in H by done; tauto. }
  destruct Hdec as [Hv|Hv].
  - right. split_and!; [done..|]. destruct (run_verified l s Hok Hm Hv) as (s1 & H1 & H2 & H3 & H4 & H5 & _ & H6). by exists s1.
  - left. destruct (run_unverified l s Hok Hm Hv) as (e & s' & H1 & H2 & H3 & H4). exists e. split; [done|]. exists s'. split_and!; try done. tauto.
Qed.

(** The rows after a run that has applied [pre]. *)
Definition rows_after (l pre : list Migration) (m : versions) (v : Z) : option AppliedMigration :=
  match list_find (fun x => version x = v) pre with
  | Some (_, x) => Some (row_of x)
  | None => stamped l <$> map_get v m
  end.

(** C27: the outcome of a start-up, on every path.  It succeeds when the list is
    numbered 1, 2, ..., every stored row is accepted and every pending migration
    goes through; the pending ones were then applied in order, each with its row.
    A migration that throws leaves the ones before it applied and recorded and
    nothing of itself.  An ill-numbered list or a row that is not accepted stops
    the start before any migration touches the data. *)
Theorem migrations_spec l s :
  rows_ok s ->
  match runMigrations l s with
  | (Ok _, s') =>
      valid l /\ verified l (applied_rows s) /\ ups (pending (applied_rows s) l) (data s) = Ok (data s') /\
      forall v, map_get v (applied_rows s') = rows_after l (pending (applied_rows s) l) (applied_rows s) v
  | (Err (UpFailed e), s') =>
      valid l /\ verified l (applied_rows s) /\
      exists pre m post, pending (applied_rows s) l = pre ++ m :: post /\ ups pre (data s) = Ok (data s') /\ up m (data s') = Err e /\
        forall v, map_get v (applied_rows s') = rows_after l pre (applied_rows s) v
  | (Err _, s') =>
      ~ (valid l /\ verified l (applied_rows s)) /\ data s' = data s /\
      forall v, is_Some (map_get v (applied_rows s')) <-> is_Some (map_get v (applied_rows s))
  end.
Proof.
  intros Hok. destruct (run_inv l s Hok) as [(e & He & s' & -> & Hn & Hd & Hg)|(Hl & Hv & s1 & -> & _ & D1 & R1 & W1 & G1)]; [by destruct e|].
  rewrite <- D1. destruct (ups (pending (getAppliedMigrations s) l) (data s1)) as [d|e] eqn:Hu.
  - rewrite (apply_pending_ok _ _ _ _ Hu). rewrite snapshot_pending in * by done. rewrite after_data by done.
    split_and!; [done..|]. intros v. rewrite after_rows, record_all_get, G1; [done|]. by apply pending_nodup.
  - destruct (apply_pending_err _ _ _ _ Hu) as (pre & m & post & d & Hp & Hd & He & ->). rewrite snapshot_pending in Hp by done.
    split_and!; [done..|]. exists pre, m, post. rewrite after_data by done. split_and!; [done..|].
    intros v. rewrite after_rows, record_all_get, G1; [done|].
    pose proof (pending_nodup (applied_rows s) l Hl) as Hn. rewrite Hp, fmap_app in Hn. by apply NoDup_app in Hn as [? _].
Qed.

(** ** Starting again *)

Lemma stamped_accepted l a : acceptable l a = true -> acceptable l (stamped l a) = true.
Proof.
  unfold acceptable, stamped. cbn. destruct (map_get (a_version a) (migrationsByVersion l)) as [m|]; [|done].
  intros [-> _]%andb_true_iff. by rewrite bool_decide_eq_true_2.
Qed.

Lemma stamped_twice l a : stamped l (stamped l a) = stamped l a.
Proof. unfold stamped. cbn. by destruct (map_get _ _). Qed.

Lemma stamped_ext l l' a : map_get (a_version a) (migrationsByVersion l') = map_get (a_version a) (migrationsByVersion l) ->
  stamped l' a = stamped l a /\ acceptable l' a = acceptable l a.
Proof. unfold stamped, acceptable. by intros ->. Qed.

Lemma row_of_settled l m : valid l -> m ∈ l -> acceptable l (row_of m) = true /\ stamped l (row_of m) = row_of m.
Proof.
  intros Hl Hm. assert (H : map_get (version m) (migrationsByVersion l) = Some m) by by apply byVersion_get.
  unfold acceptable, stamped. cbn. rewrite H. rewrite (bool_decide_eq_true_2 (name m = name m)), (bool_decide_eq_true_2 (computeMigrationChecksum m = computeMigrationChecksum m)) by done. done.
Qed.

Lemma elem_of_pending m x l : x ∈ pending m l <-> x ∈ l /\ map_get (version x) m = None.
Proof. unfold pending. rewrite list_elem_of_filter, map_has_false. tauto. Qed.

Lemma find_version l v x : NoDup (version <$> l) -> x ∈ l -> version x = v -> exists i, list_find (fun y => version y = v) l = Some (i, x).
Proof.
  intros Hd Hx <-. destruct (list_find_elem_of (fun y => version y = version x) l x Hx eq_refl) as [[i y] Hf].
  exists i. rewrite Hf. apply list_find_Some in Hf as (Hi & He & _). apply list_elem_of_lookup_1 in Hx as [j Hj].
  assert (i = j); [|subst; congruence]. eapply (NoDup_lookup _ i j (version x) Hd); rewrite list_lookup_fmap; [rewrite Hi; cbn; congruence|by rewrite Hj].
Qed.

(** Where a run stopped, after recording [pre]. *)
Record stopped (l : list Migration) (s s1 : db) (pre : list Migration) (s' : db) : Prop := {
  st_valid : valid l;
  st_verified : verified l (applied_rows s);
  st_verify : verifyAppliedMigrations (getAppliedMigrations s) l (ensureMigrationTable s) = (Ok tt, s1);
  st_pre : exists post d, pending (applied_rows s) l = pre ++ post /\ ups pre (data s) = Ok d /\ s' = after pre d s1;
  st_ready : table_ready s';
  st_rows : forall v, map_get v (applied_rows s') = rows_after l pre (applied_rows s) v;
  st_wf : wf (applied_rows s');
  st_data : data s1 = data s;
}.

Lemma stopped_intro l s s1 pre post d :
  rows_ok s -> valid l -> verified l (applied_rows s) ->
  verifyAppliedMigrations (getAppliedMigrations s) l (ensureMigrationTable s) = (Ok tt, s1) -> data s1 = data s -> table_ready s1 ->
  wf (applied_rows s1) -> (forall v, map_get v (applied_rows s1) = stamped l <$> map_get v (applied_rows s)) ->
  pending (applied_rows s) l = pre ++ post -> ups pre (data s) = Ok d -> stopped l s s1 pre (after pre d s1).
Proof.
  intros Hok Hl Hv E1 D1 R1 W1 G1 Hp Hu. split; [done..| | | | |done].
  - by exists post, d.
  - destruct pre; [done|by eexists].
  - intros v. rewrite after_rows, record_all_get, G1; [done|].
    pose proof (pending_nodup (applied_rows s) l Hl) as Hn. rewrite Hp, fmap_app in Hn. by apply NoDup_app in Hn as [? _].
  - rewrite after_rows. by apply record_all_wf.
Qed.

(** A row of a stopped run is one it wrote, or a stamped one. *)
Lemma stopped_row l s s1 pre s' k a : rows_ok s -> stopped l s s1 pre s' -> map_get k (applied_rows s') = Some a ->
  a_version a = k /\ acceptable l a = true /\ stamped l a = a.
Proof.
  intros Hok St. rewrite (st_rows _ _ _ _ _ St). unfold rows_after. destruct (st_pre _ _ _ _ _ St) as (post & d & Hp & _).
  destruct (list_find _ pre) as [[i x]|] eqn:Hf.
  - intros [= <-]. apply list_find_Some in Hf as (Hi & <- & _). split; [done|]. apply row_of_settled; [apply St|].
    assert (Hx : x ∈ pending (applied_rows s) l) by (rewrite Hp; apply elem_of_app; left; by eapply list_elem_of_lookup_2).
    by apply elem_of_pending in Hx as [? _].
  - destruct (map_get k (applied_rows s)) as [b|] eqn:Hb; [|done]. intros [= <-]. split; [exact (proj2 Hok _ _ Hb)|].
    split; [apply stamped_accepted; by apply (st_verified _ _ _ _ _ St k)|apply stamped_twice].
Qed.

Lemma stopped_rows_ok l s s1 pre s' : rows_ok s -> stopped l s s1 pre s' -> rows_ok s'.
Proof. intros Hok St. split; [apply St|]. intros k a Ha. by eapply stopped_row in Ha as [? _]. Qed.

(** Starting again from there finds every row in order and goes straight to what is
    pending, with any list that has the recorded migrations. *)
Lemma stopped_run_again l l' s s1 pre s' :
  rows_ok s -> stopped l s s1 pre s' -> valid l' ->
  (forall v, is_Some (map_get v (applied_rows s')) -> map_get v (migrationsByVersion l') = map_get v (migrationsByVersion l)) ->
  runMigrations l' s' = apply_pending (getAppliedMigrations s') l' s'.
Proof.
  intros Hok St Hl' Hsame. pose proof (stopped_rows_ok _ _ _ _ _ Hok St) as Hok'.
  assert (Hrow : forall k a, map_get k (applied_rows s') = Some a -> acceptable l' a = true /\ stamped l' a = a).
  { intros k a Ha. destruct (stopped_row _ _ _ _ _ _ _ Hok St Ha) as (<- & Hacc & Hst).
    destruct (stamped_ext l l' a) as [-> ->]; [apply Hsame; by rewrite Ha|done]. }
  destruct (run_verified l' s') as (s2 & -> & _ & _ & _ & _ & Hid & _); [done..| |].
  - intros k a Ha. by eapply Hrow.
  - rewrite Hid; [done|apply St|]. intros k a Ha. by eapply Hrow.
Qed.

Lemma run_ok_inv l s s' : rows_ok s -> runMigrations l s = (Ok tt, s') -> exists s1, stopped l s s1 (pending (applied_rows s) l) s'.
Proof.
  intros Hok Hrun. destruct (run_inv l s Hok) as [(e & _ & s2 & Hr & _)|(Hl & Hv & s1 & E1 & V1 & D1 & R1 & W1 & G1)]; [congruence|].
  rewrite E1 in Hrun. destruct (ups (pending (getAppliedMigrations s) l) (data s1)) as [d|e] eqn:Hu.
  - rewrite (apply_pending_ok _ _ _ _ Hu) in Hrun. injection Hrun as <-. rewrite snapshot_pending in * by done. exists s1.
    eapply stopped_intro; try done; [by rewrite app_nil_r|congruence].
  - destruct (apply_pending_err _ _ _ _ Hu) as (? & ? & ? & ? & _ & _ & _ & He). congruence.
Qed.

(** A start-up that succeeded is repeatable: the next one, with the same list,
    changes nothing. *)
Theorem rerun_changes_nothing l s s' :
  rows_ok s -> runMigrations l s = (Ok tt, s') -> runMigrations l s' = (Ok tt, s').
Proof.
  intros Hok Hrun. destruct (run_ok_inv l s s' Hok Hrun) as (s1 & St).
  rewrite (stopped_run_again l l s s1 _ s' Hok St (st_valid _ _ _ _ _ St)) by done.
  assert (Hp : pending (getAppliedMigrations s') l = []).
  { rewrite snapshot_pending by by eapply stopped_rows_ok. destruct (pending (applied_rows s') l) as [|x q] eqn:E1; [done|].
    assert (Hx : x ∈ pending (applied_rows s') l) by (rewrite E1; set_solver). apply elem_of_pending in Hx as [Hx Hn].
    rewrite (st_rows _ _ _ _ _ St) in Hn. unfold rows_after in Hn. destruct (map_get (version x) (applied_rows s)) as [b|] eqn:Hb.
    - by destruct (list_find _ _) as [[i y]|].
    - destruct (find_version (pending (applied_rows s) l) (version x) x) as [i Hi]; [by apply pending_nodup, St|by apply elem_of_pending|done|].
      by rewrite Hi in Hn. }
  rewrite (apply_pending_ok _ _ _ (data s')); rewrite Hp; done.
Qed.

(** ** Resuming after a failure *)

Lemma apply_pending_app done_ l1 l2 s :
  apply_pending done_ (l1 ++ l2) s = (apply_pending done_ l1 ;; apply_pending done_ l2) s.
Proof.
  revert s. induction l1 as [|x l1 IH]; intros s; [done|]. cbn [app apply_pending]. unfold bind in *.
  destruct (_ s) as [[u|e] s1]; [apply IH|done].
Qed.

Lemma apply_pending_fresh done_ done' l s :
  (forall x, x ∈ l -> map_has (version x) done_ = map_has (version x) done') -> apply_pending done_ l s = apply_pending done' l s.
Proof.
  revert s. induction l as [|x l IH]; intros s Hx; [done|]. cbn [apply_pending]. unfold bind. rewrite Hx by set_solver.
  destruct (_ s) as [[u|e] s1]; [apply IH; set_solver|done].
Qed.

Lemma verify_same l l' rows s :
  (forall a, a ∈ rows -> map_get (a_version a) (migrationsByVersion l') = map_get (a_version a) (migrationsByVersion l)) ->
  verify_rows l' rows s = verify_rows l rows s.
Proof.
  revert s. induction rows as [|a rows IH]; intros s H; [done|]. cbn [verify_rows]. unfold bind, verify_one. rewrite H by set_solver.
  destruct (_ s) as [[u|e] s1]; [apply IH; set_solver|done].
Qed.

Lemma byVersion_prefix p q q' v : valid (p ++ q) -> valid (p ++ q') -> 1 <= v <= Z.of_nat (length p) ->
  map_get v (migrationsByVersion (p ++ q')) = map_get v (migrationsByVersion (p ++ q)).
Proof.
  intros H H' Hv. destruct (lookup_lt_is_Some_2 p (Z.to_nat (v - 1))) as [m Hm]; [lia|].
  assert (Hin : m ∈ p) by by eapply list_elem_of_lookup_2.
  assert (Hmv : version m = v) by (rewrite (H (Z.to_nat (v - 1)) m); [lia|by apply lookup_app_l_Some]).
  rewrite (proj2 (byVersion_get _ v m H)), (proj2 (byVersion_get _ v m H')); set_solver.
Qed.

Lemma valid_range l x : valid l -> x ∈ l -> 1 <= version x <= Z.of_nat (length l).
Proof. intros Hl [i Hi]%list_elem_of_lookup_1. rewrite (Hl _ _ Hi). apply lookup_lt_Some in Hi. lia. Qed.

Lemma valid_suffix p q x : valid (p ++ q) -> x ∈ q -> Z.of_nat (length p) < version x.
Proof.
  intros Hl [i Hi]%list_elem_of_lookup_1. rewrite (Hl (length p + i)%nat x); [lia|]. rewrite lookup_app_r by lia.
  by replace (length p + i - length p)%nat with i by lia.
Qed.

(** The versions the table has are those up to [n]. *)
Definition at_version (n : nat) (s : db) : Prop := forall v, is_Some (map_get v (applied_rows s)) <-> 1 <= v <= Z.of_nat n.

(** A failed run stops right before the migration that failed. *)
Lemma run_err_inv l s s' e : rows_ok s -> runMigrations l s = (Err (UpFailed e), s') ->
  exists s1 pre m post, stopped l s s1 pre s' /\ pending (applied_rows s) l = pre ++ m :: post.
Proof.
  intros Hok Hrun. destruct (run_inv l s Hok) as [(e1 & He1 & s2 & Hr & _)|(Hl & Hv & s1 & E1 & V1 & D1 & R1 & W1 & G1)].
  { rewrite Hr in Hrun. by simplify_eq. }
  rewrite E1 in Hrun. destruct (ups (pending (getAppliedMigrations s) l) (data s1)) as [d|e1] eqn:Hu.
  { by rewrite (apply_pending_ok _ _ _ _ Hu) in Hrun. }
  destruct (apply_pending_err _ _ _ _ Hu) as (pre & m & post & d & Hp & Hd & _ & He). rewrite snapshot_pending in Hp by done.
  rewrite He in Hrun. injection Hrun as _ <-. exists s1, pre, m, post. split; [|done]. eapply stopped_intro; try done. congruence.
Qed.

(** What it recorded is what was pending of the migrations before. *)
Lemma stopped_prefix p q s s1 pre s' k :
  rows_ok s -> stopped (p ++ q) s s1 pre s' -> at_version k s -> (k <= length p)%nat -> at_version (length p) s' -> pre = pending (applied_rows s) p.
Proof.
  intros Hok St Hk Hkp Hp. destruct (st_pre _ _ _ _ _ St) as (post & d & Hpend & _). rewrite pending_app in Hpend.
  pose proof (st_valid _ _ _ _ _ St) as Hl.
  pose proof (pending_nodup (applied_rows s) _ Hl) as Hn. rewrite pending_app, Hpend in Hn.
  assert (Hdom : forall x, x ∈ p ++ q -> (x ∈ pre <-> map_get (version x) (applied_rows s) = None /\ version x <= Z.of_nat (length p))).
  { intros x Hx. pose proof (valid_range _ _ Hl Hx) as Hr. specialize (Hp (version x)).
    rewrite (st_rows _ _ _ _ _ St) in Hp. unfold rows_after in Hp. rewrite fmap_app in Hn. apply NoDup_app in Hn as (Hn & _ & _). split.
    - intros Hin. destruct (find_version pre (version x) x Hn Hin eq_refl) as [i Hi]. rewrite Hi in Hp.
      assert (Hin' : x ∈ pending (applied_rows s) (p ++ q)) by (rewrite pending_app, Hpend; set_solver).
      apply elem_of_pending in Hin' as [_ ->]. split; [done|]. apply Hp. eauto.
    - intros [Hnone Hle]. rewrite Hnone in Hp. destruct (list_find _ pre) as [[i y]|] eqn:Hf.
      + apply list_find_Some in Hf as (Hi & He & _). apply list_elem_of_lookup_2 in Hi as Hy.
        assert (Hy' : y ∈ pending (applied_rows s) (p ++ q)) by (rewrite pending_app, Hpend; set_solver).
        apply elem_of_pending in Hy' as [Hy' _]. apply list_elem_of_lookup_1 in Hx as [a Ha], Hy' as [b Hb].
        assert (a = b) by (pose proof (Hl _ _ Ha); pose proof (Hl _ _ Hb); lia). subst. congruence.
      + destruct (proj2 Hp) as [? ?]; [lia|done]. }
  apply app_eq_inv in Hpend as [(t & Ht & _)|(t & Ht & Hq)].
  - destruct t as [|x t]; [by rewrite app_nil_r in Ht|]. exfalso. assert (Hx : x ∈ pending (applied_rows s) p) by (rewrite Ht; set_solver).
    apply elem_of_pending in Hx as [Hx Hnone]. assert (Hxp : x ∈ pre).
    { apply Hdom; [set_solver|]. split; [done|]. apply (valid_range p x (valid_app _ _ Hl) Hx). }
    pose proof (pending_nodup (applied_rows s) p (valid_app _ _ Hl)) as Hnp. rewrite Ht, fmap_app in Hnp.
    apply NoDup_app in Hnp as (_ & Hdis & _).
    apply (Hdis (version x)); [by apply list_elem_of_fmap_2|]. cbn. set_solver.
  - destruct t as [|x t]; [by rewrite app_nil_r in Ht|]. exfalso.
    assert (Hx : x ∈ pending (applied_rows s) q) by (rewrite Hq; set_solver). apply elem_of_pending in Hx as [Hx _].
    assert (Hxp : x ∈ pre) by (rewrite Ht; set_solver). apply Hdom in Hxp as [_ Hle]; [|set_solver].
    pose proof (valid_suffix _ _ _ Hl Hx). lia.
Qed.


(** A start-up that failed at a migration is resumed by the next one.  Whatever
    the failed migration and those after it are replaced by, starting again from the
    state the failure left gives exactly what starting from the original state
    would have given. *)
Theorem failed_run_resumes p q q' k s s' e :
  rows_ok s -> at_version k s -> (k <= length p)%nat -> valid (p ++ q') ->
  runMigrations (p ++ q) s = (Err (UpFailed e), s') -> at_version (length p) s' ->
  runMigrations (p ++ q') s' = runMigrations (p ++ q') s.
Proof.
  intros Hok Hk Hkp Hl' Hrun Hp. destruct (run_err_inv _ _ _ _ Hok Hrun) as (s1 & pre & m & post & St & Hpend).
  pose proof (stopped_prefix _ _ _ _ _ _ _ Hok St Hk Hkp Hp) as ->. pose proof (st_valid _ _ _ _ _ St) as Hl.
  pose proof (stopped_rows_ok _ _ _ _ _ Hok St) as Hok'.
  rewrite (stopped_run_again (p ++ q) (p ++ q') s s1 _ s' Hok St Hl') by (intros v Hv; apply byVersion_prefix; [done..|by apply Hp]).
  assert (Hsame : forall a, a ∈ map_values (getAppliedMigrations s) ->
    map_get (a_version a) (migrationsByVersion (p ++ q')) = map_get (a_version a) (migrationsByVersion (p ++ q))).
  { intros a Ha. apply snapshot_in in Ha; [|done]. apply byVersion_prefix; [done..|]. destruct (Hk (a_version a)) as [Hr _]. rewrite Ha in Hr.
    specialize (Hr (ltac:(eauto))). lia. }
  assert (Hv' : verified (p ++ q') (applied_rows s)).
  { apply snapshot_verified; [done|]. apply Forall_forall. intros a Ha. destruct (stamped_ext (p ++ q) (p ++ q') a (Hsame a Ha)) as [_ ->].
    apply snapshot_in in Ha; [|done]. by eapply (st_verified _ _ _ _ _ St). }
  destruct (run_verified (p ++ q') s Hok Hl' Hv') as (s2 & -> & V2 & _).
  unfold verifyAppliedMigrations in V2. rewrite (verify_same (p ++ q)) in V2 by done.
  pose proof (st_verify _ _ _ _ _ St) as V1. unfold verifyAppliedMigrations in V1. rewrite V1 in V2. injection V2 as <-.
  destruct (st_pre _ _ _ _ _ St) as (post' & d & _ & Hd & Hs'). rewrite <- (st_data _ _ _ _ _ St) in Hd.
  rewrite !apply_pending_app. unfold bind.
  rewrite (apply_pending_ok (getAppliedMigrations s) p s1 d) by by rewrite snapshot_pending.
  rewrite (snapshot_pending s Hok), <- Hs'.
  assert (Hnone : pending (getAppliedMigrations s') p = []).
  { rewrite snapshot_pending by done. apply filter_keep_none, Forall_forall. intros x Hx.
    rewrite (proj2 (map_has_true _ _)); [done|]. apply Hp. by apply (valid_range p x (valid_app _ _ Hl)). }
  rewrite (apply_pending_ok (getAppliedMigrations s') p s' (data s')) by by rewrite Hnone. rewrite Hnone. cbn [after].
  apply apply_pending_fresh. intros x Hx. pose proof (valid_suffix _ _ _ Hl' Hx) as Hv. rewrite !snapshot_has by done.
  trans false; [|symmetry]; apply map_has_false; apply eq_None_not_Some; [intros Hs%Hp|intros Hs%Hk]; lia.
Qed.

(** With the hash injective, a start-up refuses an applied migration whose body
    was edited, before any migration runs, if the migration declares no source for
    its checksum. *)
Theorem edited_migration_refused l s v m a src c :
  Inj (=) (=) sha256 -> rows_ok s -> valid l -> m ∈ l -> version m = v -> checksumSource m = None ->
  map_get v (applied_rows s) = Some a -> a_checksum a = Some c -> c = sha256 (fingerprint m src) -> src <> up_text m ->
  exists err s', runMigrations l s = (Err err, s') /\ is_up_failed err = false /\ data s' = data s.
Proof.
  intros Hinj Hok Hl Hm Hv Hsrc Ha Hc -> Hne. destruct (run_unverified l s Hok Hl) as (err & s' & H1 & H2 & H3 & _); [|by exists err, s'].
  intros Hver. apply Hver in Ha as Hacc. unfold acceptable in Hacc. rewrite (proj2 Hok _ _ Ha) in Hacc.
  rewrite (proj2 (byVersion_get l v m Hl) (conj Hm Hv)), Hc in Hacc. apply andb_true_iff in Hacc as [_ Hacc].
  apply orb_true_iff in Hacc as [Hx%bool_decide_eq_true|Hx%bool_decide_eq_true].
  - unfold computeMigrationChecksum in Hx. rewrite Hsrc in Hx. cbn in Hx. apply (inj sha256) in Hx. unfold fingerprint in Hx.
    by simplify_eq.
  - unfold computeLegacyMigrationChecksum in Hx. by rewrite Hsrc in Hx.
Qed.

End Runner.
End Migrations.
