(* ===== verification/Schema.v ===== *)
(** * The schema and its migrations: src/db/migrations.ts (MIGRATIONS), src/db/database.ts

    The catalogue of a SQLite database, as far as the migrations use it: tables with
    their columns, constraints and rows, indexes, and whether foreign keys are
    enforced.  The statements follow SQLite: creating what exists does nothing with
    IF NOT EXISTS, CHECK and UNIQUE pass NULL, and with foreign keys on DROP TABLE
    first deletes the rows, which fails while a row of another table refers to one. *)

From stdpp Require Import prelude strings pretty.
From Stdlib Require Import ZArith Lia Ascii.
From S2P Require Import Prelude JsMap Migrations.
Open Scope string_scope.
Open Scope list_scope.
Open Scope js_scope.
Open Scope Z_scope.

Module Schema.
Import Migrations.

(** ** The catalogue *)

Inductive cell : Type := Null | Int (z : Z) | Text (s : string).

#[export] Instance cell_eq_dec : EqDecision cell.
Proof. solve_decision. Defined.

Record column : Type := {
  c_name : string; c_notnull : bool; c_default : cell; c_check : cell -> bool; c_references : option string;
}.

Definition row : Type := list (string * cell).

Record tbl : Type := { columns : list column; unique_keys : list (list string); rows : list row }.

Record index : Type := { i_table : string; i_column : string; i_unique : bool; i_expr : cell -> cell }.

Record catalogue : Type := { tables : list (string * tbl); indexes : list (string * index); foreign_keys : bool }.

Inductive sql_error : Type :=
| NoSuchTable | NoSuchColumn | DuplicateColumn | TableExists | CannotAddNotNull | NotNullFailed | CheckFailed | UniqueFailed | ForeignKeyFailed.

#[export] Instance sql_error_eq_dec : EqDecision sql_error.
Proof. solve_decision. Defined.

Definition stmt : Type := catalogue -> result sql_error catalogue.

Definition andThen (a b : stmt) : stmt := fun c => match a c with Ok c' => b c' | Err e => Err e end.

(** Several statements in one [db.exec]. *)
Definition exec (l : list stmt) : stmt := foldr andThen (fun c => Ok c) l.

Definition with_table (n : string) (t : tbl) (c : catalogue) : catalogue :=
  {| tables := map_set n t (tables c); indexes := indexes c; foreign_keys := foreign_keys c |}.

Definition col_get (k : string) (r : row) : cell := default Null (map_get k r).

Definition create_table (n : string) (t : tbl) : stmt := fun c =>
  if map_has n (tables c) then Err TableExists else Ok (with_table n t c).

Definition create_table_if_not_exists (n : string) (t : tbl) : stmt := fun c =>
  if map_has n (tables c) then Ok c else Ok (with_table n t c).

(** NULLs are distinct from everything in a unique key. *)
Definition clash (key : list cell) (keys : list (list cell)) : bool :=
  negb (existsb (fun x => bool_decide (x = Null)) key) && bool_decide (key ∈ keys).

Fixpoint keys_distinct (keys : list (list cell)) : bool :=
  match keys with [] => true | k :: keys' => negb (clash k keys') && keys_distinct keys' end.

Definition create_index_if_not_exists (n : string) (ix : index) : stmt := fun c =>
  if map_has n (indexes c) then Ok c
  else match map_get (i_table ix) (tables c) with
       | None => Err NoSuchTable
       | Some t =>
           if negb (bool_decide (i_column ix ∈ c_name <$> columns t)) then Err NoSuchColumn
           else if i_unique ix && negb (keys_distinct ((fun r => [i_expr ix (col_get (i_column ix) r)]) <$> rows t)) then Err UniqueFailed
           else Ok {| tables := tables c; indexes := map_set n ix (indexes c); foreign_keys := foreign_keys c |}
       end.

Definition table_info (n : string) (c : catalogue) : list string :=
  match map_get n (tables c) with Some t => c_name <$> columns t | None => [] end.

Definition add_column (n : string) (col : column) : stmt := fun c =>
  match map_get n (tables c) with
  | None => Err NoSuchTable
  | Some t =>
      if bool_decide (c_name col ∈ c_name <$> columns t) then Err DuplicateColumn
      else if c_notnull col && bool_decide (c_default col = Null) then Err CannotAddNotNull
      else Ok (with_table n {| columns := columns t ++ [col]; unique_keys := unique_keys t;
                               rows := (fun r => r ++ [(c_name col, c_default col)]) <$> rows t |} c)
  end.

(** A row of another table that refers to a row of [n] by its id. *)
Definition referring (n : string) (ids : list cell) (e : string * tbl) : bool :=
  negb (bool_decide (e.1 = n)) &&
  existsb (fun col => bool_decide (c_references col = Some n) && existsb (fun r => bool_decide (col_get (c_name col) r ∈ ids)) (rows e.2)) (columns e.2).

Definition drop_table_if_exists (n : string) : stmt := fun c =>
  match map_get n (tables c) with
  | None => Ok c
  | Some t =>
      if foreign_keys c && existsb (referring n (filter (fun x => x <> Null) (col_get "id" <$> rows t))) (tables c) then Err ForeignKeyFailed
      else Ok {| tables := map_delete n (tables c); indexes := filter (fun ix => i_table ix.2 <> n) (indexes c); foreign_keys := foreign_keys c |}
  end.

Definition check_cell (col : column) (x : cell) : option sql_error :=
  match x with
  | Null => if c_notnull col then Some NotNullFailed else None
  | _ => if c_check col x then None else Some CheckFailed
  end.

Fixpoint check_columns (cols : list column) (r : row) : option sql_error :=
  match cols with
  | [] => None
  | col :: cols' => match check_cell col (col_get (c_name col) r) with Some e => Some e | None => check_columns cols' r end
  end.

Definition key_of (k : list string) (r : row) : list cell := (fun n => col_get n r) <$> k.

Definition violates_unique (t : tbl) (r : row) : bool :=
  existsb (fun k => clash (key_of k r) (key_of k <$> rows t)) (unique_keys t).

Definition violates_index (n : string) (t : tbl) (r : row) (ix : string * index) : bool :=
  bool_decide (i_table ix.2 = n) && i_unique ix.2 &&
  clash [i_expr ix.2 (col_get (i_column ix.2) r)] ((fun q => [i_expr ix.2 (col_get (i_column ix.2) q)]) <$> rows t).

Definition parent_missing (c : catalogue) (r : row) (col : column) : bool :=
  match c_references col with
  | None => false
  | Some p =>
      negb (bool_decide (col_get (c_name col) r = Null)) &&
      match map_get p (tables c) with Some t => negb (bool_decide (col_get (c_name col) r ∈ (col_get "id" <$> rows t))) | None => true end
  end.

(** INSERT with the given columns; the others take their defaults. *)
Definition insert_into (n : string) (given : row) : stmt := fun c =>
  match map_get n (tables c) with
  | None => Err NoSuchTable
  | Some t =>
      let r := (fun col => (c_name col, default (c_default col) (map_get (c_name col) given))) <$> columns t in
      match check_columns (columns t) r with
      | Some e => Err e
      | None =>
          if violates_unique t r || existsb (violates_index n t r) (indexes c) then Err UniqueFailed
          else if foreign_keys c && existsb (parent_missing c r) (columns t) then Err ForeignKeyFailed
          else Ok (with_table n {| columns := columns t; unique_keys := unique_keys t; rows := rows t ++ [r] |} c)
      end
  end.

(** ** Columns and tables *)

Definition any (_ : cell) : bool := true.
Definition one_of (l : list string) (x : cell) : bool := match x with Text s => bool_decide (s ∈ l) | _ => false end.
Definition int_between (lo : Z) (hi : option Z) (x : cell) : bool :=
  match x with Int z => (lo <=? z) && match hi with Some h => z <=? h | None => true end | _ => true end.
Definition at_most (n : nat) (x : cell) : bool := match x with Text s => (String.length s <=? n)%nat | _ => true end.

Definition text_key (n : string) : column := {| c_name := n; c_notnull := false; c_default := Null; c_check := any; c_references := None |}.
Definition nullable (n : string) : column := {| c_name := n; c_notnull := false; c_default := Null; c_check := any; c_references := None |}.
Definition required (n : string) : column := {| c_name := n; c_notnull := true; c_default := Null; c_check := any; c_references := None |}.
Definition refers (n parent : string) : column := {| c_name := n; c_notnull := true; c_default := Null; c_check := any; c_references := Some parent |}.
Definition checked (n : string) (d : cell) (f : cell -> bool) : column := {| c_name := n; c_notnull := true; c_default := d; c_check := f; c_references := None |}.
Definition counter (n : string) : column := checked n (Int 0) any.

Definition new_table (cols : list column) (keys : list (list string)) : tbl := {| columns := cols; unique_keys := keys; rows := [] |}.

Definition plain_index (t col : string) : index := {| i_table := t; i_column := col; i_unique := false; i_expr := fun x => x |}.

Definition role_column : column := checked "role" (Text "client") (one_of ["client"; "freelancer"; "both"]).

Definition users_v1 : tbl :=
  new_table [text_key "id"; required "username"; required "email"; role_column; required "created_at"] [["id"]; ["username"]; ["email"]].

Definition contracts_v1 : tbl :=
  new_table [text_key "id"; required "title"; refers "client_id" "users"; refers "freelancer_id" "users";
             checked "amount" Null (int_between 0 None);
             checked "status" (Text "draft") (one_of ["draft"; "active"; "completed"; "disputed"; "cancelled"]); required "created_at"] [["id"]].

Definition up_1 : stmt := exec
  [create_table_if_not_exists "users" users_v1; create_table_if_not_exists "contracts" contracts_v1;
   create_index_if_not_exists "idx_contracts_client_id" (plain_index "contracts" "client_id");
   create_index_if_not_exists "idx_contracts_freelancer_id" (plain_index "contracts" "freelancer_id");
   create_index_if_not_exists "idx_contracts_status" (plain_index "contracts" "status")].

(** A column added unless [table_info] already lists it. *)
Definition ensure_column (t : string) (col : column) : stmt := fun c =>
  if bool_decide (c_name col ∈ table_info t c) then Ok c else add_column t col c.

Definition up_2 : stmt := ensure_column "contracts" (checked "version" (Int 0) (int_between 0 None)).

Definition up_3 : stmt := create_table_if_not_exists "smart_contract_events"
  (new_table [text_key "eventId"; required "contractId"; required "eventType"; nullable "idempotencyKey"; nullable "payload"; required "timestamp"]
     [["eventId"]; ["contractId"; "eventType"; "idempotencyKey"]]).

Definition up_4 : stmt := exec
  [create_table_if_not_exists "reputation_entries"
     (new_table [text_key "id"; refers "reviewer_id" "users"; refers "target_id" "users"; checked "rating" Null (int_between 1 (Some 5));
                 {| c_name := "comment"; c_notnull := false; c_default := Null; c_check := at_most 1000; c_references := None |};
                 refers "context_id" "contracts"; required "created_at"] [["id"]; ["reviewer_id"; "target_id"; "context_id"]]);
   create_index_if_not_exists "idx_reputation_entries_target_id" (plain_index "reputation_entries" "target_id");
   create_index_if_not_exists "idx_reputation_entries_context_id" (plain_index "reputation_entries" "context_id")].

Definition up_5 : stmt := create_table_if_not_exists "transactions"
  (new_table [text_key "hash"; required "status"; nullable "receipt"; nullable "last_checked_at"; counter "retry_count"] [["hash"]]).

Definition up_6 : stmt := exec
  [create_table_if_not_exists "deployment_history"
     (new_table [text_key "id"; required "environment_from"; nullable "environment_to"; required "target_version"; nullable "promotion_id";
                 nullable "rollback_id"; required "initiated_by"; required "timestamp"; checked "status" Null (one_of ["SUCCESS"; "FAILURE"]); nullable "error"]
        [["id"]]);
   create_index_if_not_exists "idx_deployment_history_env_from" (plain_index "deployment_history" "environment_from");
   create_index_if_not_exists "idx_deployment_history_env_to" (plain_index "deployment_history" "environment_to")].

Definition users_v7 : tbl :=
  new_table [text_key "id"; required "username"; required "email"; role_column; nullable "password_hash"; nullable "refresh_token_hash"; required "created_at"]
    [["id"]; ["username"]; ["email"]].

(** The values bound for one saved user. *)
Definition saved_user (u : row) : row :=
  (fun k => (k, col_get k u)) <$> ["id"; "username"; "email"; "role"; "password_hash"; "refresh_token_hash"; "created_at"].

Definition up_7 : stmt := fun c =>
  if bool_decide ("password_hash" ∈ table_info "users" c) && bool_decide ("refresh_token_hash" ∈ table_info "users" c) then Ok c
  else match map_get "users" (tables c) with
       | None => Err NoSuchTable
       | Some t => exec (drop_table_if_exists "users" :: create_table "users" users_v7 :: ((fun u => insert_into "users" (saved_user u)) <$> rows t)) c
       end.

Definition retention_table : tbl :=
  new_table [text_key "id"; required "entity_type"; required "data"; required "classification"; required "created_at"; required "expires_at";
             nullable "archived_at"; nullable "archived_location"; checked "is_archived" Null (fun x => bool_decide (x = Int 0 \/ x = Int 1));
             nullable "retention_policy_id"; nullable "metadata"; required "updated_at"] [["id"]].

Definition createRetentionTable (n : string) : stmt := exec
  (create_table_if_not_exists n retention_table ::
   ((fun col => create_index_if_not_exists ("idx_" +:+ n +:+ "_" +:+ col) (plain_index n col)) <$> ["entity_type"; "is_archived"; "expires_at"; "created_at"])).

Definition up_8 : stmt := exec [createRetentionTable "retention_local"; createRetentionTable "retention_archive"].

Definition up_9 : stmt := ensure_column "transactions" (nullable "started_at").

(** The defaults of the two dates are the time of the insertion; no migration inserts here. *)
Definition up_10 : stmt := exec
  [create_table_if_not_exists "webhook_subscriptions"
     (new_table [text_key "id"; nullable "consumer_id"; required "url"; required "event_type"; nullable "secret";
                 {| c_name := "active"; c_notnull := false; c_default := Int 1; c_check := any; c_references := None |};
                 required "created_at"; required "updated_at"] [["id"]]);
   create_index_if_not_exists "idx_webhook_subscriptions_consumer" (plain_index "webhook_subscriptions" "consumer_id");
   create_index_if_not_exists "idx_webhook_subscriptions_event" (plain_index "webhook_subscriptions" "event_type")].

(** lower(trim(x)): spaces at the ends, and the letters A to Z. *)
Fixpoint drop_spaces (l : list ascii) : list ascii :=
  match l with x :: l' => if bool_decide (x = " "%char) then drop_spaces l' else l | [] => [] end.

Definition sql_lower (x : ascii) : ascii :=
  let n := nat_of_ascii x in if (65 <=? n)%nat && (n <=? 90)%nat then ascii_of_nat (n + 32) else x.

Definition normalized (x : cell) : cell :=
  match x with
  | Text s => Text (String.string_of_list_ascii (sql_lower <$> reverse (drop_spaces (reverse (drop_spaces (String.list_ascii_of_string s))))))
  | x => x
  end.

Definition up_11 : stmt := create_index_if_not_exists "idx_users_email_normalized"
  {| i_table := "users"; i_column := "email"; i_unique := true; i_expr := normalized |}.

Definition up_12 : stmt := exec
  [create_table_if_not_exists "notifications"
     (new_table [text_key "id"; required "user_id"; required "title"; required "message"; required "created_at"] [["id"]]);
   create_index_if_not_exists "idx_notifications_user_id" (plain_index "notifications" "user_id");
   create_index_if_not_exists "idx_notifications_created_at" (plain_index "notifications" "created_at")].

Definition up_13 : stmt := exec
  [create_table_if_not_exists "webhook_dlq"
     (new_table [text_key "id"; required "webhook_id"; required "url"; required "body"; counter "retry_count"; nullable "webhook_secret";
                 required "failed_at"; required "last_error"; required "dedupe_key"; nullable "replayed_at"; counter "replay_attempts";
                 required "created_at"; required "updated_at"] [["id"]]);
   create_index_if_not_exists "idx_webhook_dlq_failed_at" (plain_index "webhook_dlq" "failed_at");
   create_index_if_not_exists "idx_webhook_dlq_dedupe_key" (plain_index "webhook_dlq" "dedupe_key")].

(** ** The list *)

Definition lines (l : list string) : string := String.concat (String "010"%char "") l.

(** [texts v] is the source text of the function of version [v]. *)
Section List.
Context (texts : Z -> string).

Definition mig (v : Z) (n : string) (src : list string) (f : stmt) : @Migration catalogue sql_error :=
  {| version := v; name := n; checksumSource := Some (lines src); up := f; up_text := texts v |}.

Definition MIGRATIONS : list Migration :=
  [mig 1 "create_users_and_contracts_schema"
     ["CREATE TABLE IF NOT EXISTS users ("; "CREATE TABLE IF NOT EXISTS contracts ("; "CREATE INDEX IF NOT EXISTS idx_contracts_client_id";
      "CREATE INDEX IF NOT EXISTS idx_contracts_freelancer_id"; "CREATE INDEX IF NOT EXISTS idx_contracts_status"] up_1;
   mig 2 "add_contract_version_column" ["ALTER TABLE contracts ADD COLUMN version INTEGER NOT NULL DEFAULT 0 CHECK (version >= 0)"] up_2;
   mig 3 "create_smart_contract_events_table" ["CREATE TABLE IF NOT EXISTS smart_contract_events ("; "UNIQUE(contractId, eventType, idempotencyKey)"] up_3;
   mig 4 "create_reputation_entries"
     ["CREATE TABLE IF NOT EXISTS reputation_entries ("; "CREATE INDEX IF NOT EXISTS idx_reputation_entries_target_id";
      "CREATE INDEX IF NOT EXISTS idx_reputation_entries_context_id"] up_4;
   mig 5 "create_transactions_table" ["CREATE TABLE IF NOT EXISTS transactions ("] up_5;
   mig 6 "create_deployment_history_table"
     ["CREATE TABLE IF NOT EXISTS deployment_history ("; "CREATE INDEX IF NOT EXISTS idx_deployment_history_env_from";
      "CREATE INDEX IF NOT EXISTS idx_deployment_history_env_to"] up_6;
   mig 7 "add_auth_columns_to_users"
     ["DROP TABLE IF EXISTS users"; "CREATE TABLE users (password_hash TEXT, refresh_token_hash TEXT)";
      "INSERT INTO users (id, username, email, role, password_hash, refresh_token_hash, created_at)"] up_7;
   mig 8 "create_retention_storage_tables" ["CREATE TABLE IF NOT EXISTS retention_local ("; "CREATE TABLE IF NOT EXISTS retention_archive ("] up_8;
   mig 9 "add_started_at_to_transactions" ["ALTER TABLE transactions ADD COLUMN started_at TEXT"] up_9;
   mig 10 "create_webhook_subscriptions_table"
     ["CREATE TABLE IF NOT EXISTS webhook_subscriptions ("; "CREATE INDEX IF NOT EXISTS idx_webhook_subscriptions_consumer";
      "CREATE INDEX IF NOT EXISTS idx_webhook_subscriptions_event"] up_10;
   mig 11 "add_normalized_email_unique_index" ["CREATE UNIQUE INDEX IF NOT EXISTS idx_users_email_normalized ON users (lower(trim(email)))"] up_11;
   mig 12 "create_notifications_table"
     ["CREATE TABLE IF NOT EXISTS notifications ("; "CREATE INDEX IF NOT EXISTS idx_notifications_user_id";
      "CREATE INDEX IF NOT EXISTS idx_notifications_created_at"] up_12;
   mig 13 "create_webhook_dlq_tables"
     ["CREATE TABLE IF NOT EXISTS webhook_dlq ("; "id TEXT PRIMARY KEY,"; "webhook_id TEXT NOT NULL,"; "url TEXT NOT NULL,"; "body TEXT NOT NULL,";
      "retry_count INTEGER NOT NULL DEFAULT 0,"; "webhook_secret TEXT,"; "failed_at TEXT NOT NULL,"; "last_error TEXT NOT NULL,";
      "dedupe_key TEXT NOT NULL,"; "replayed_at TEXT,"; "replay_attempts INTEGER NOT NULL DEFAULT 0,"; "created_at TEXT NOT NULL,";
      "updated_at TEXT NOT NULL"; "UNIQUE(dedupe_key)"] up_13].

Definition getLatestSchemaVersion : Z := default 0 (version <$> last MIGRATIONS).

(** ** Opening the database (db/database.ts)

    The module keeps one handle with its path; [files] is what is on disk. *)

Record module_state : Type := { instance : option string; files : list (string * @db catalogue) }.

Definition empty_catalogue : catalogue := {| tables := []; indexes := []; foreign_keys := false |}.
Definition new_db : db := {| schema := None; data := empty_catalogue |}.

(** PRAGMA foreign_keys = ON, a setting of the connection *)
Definition pragma_foreign_keys (s : @db catalogue) : db :=
  {| schema := schema s; data := {| tables := tables (data s); indexes := indexes (data s); foreign_keys := true |} |}.

Context (sha256 : string -> string) (now : Z -> string) (default_path : string).

(** The path of the handle that is returned, or the error. *)
Definition getDb (dbPath : option string) : SE module_state (@migration_error sql_error) string := fun s =>
  let resolvedPath := default default_path dbPath in
  let open :=
    let file := pragma_foreign_keys (default new_db (map_get resolvedPath (files s))) in
    let '(r, file') := runMigrations sha256 now MIGRATIONS file in
    let s' := {| instance := Some resolvedPath; files := map_set resolvedPath file' (files s) |} in
    match r with Ok _ => (Ok resolvedPath, s') | Err e => (Err e, s') end in
  match instance s with
  | Some p => if bool_decide (is_Some dbPath) && negb (bool_decide (p = resolvedPath)) then open else (Ok p, s)
  | None => open
  end.

Definition closeDb (s : module_state) : module_state := {| instance := None; files := files s |}.

End List.

(** ** Adding the authentication columns *)

(** A row of a table that its constraints admit. *)
Definition row_valid (t : tbl) (r : row) : Prop := check_columns (columns t) r = None.

(** The rows agree with the unique keys, in the order they were inserted. *)
Definition distinct_rows (keys : list (list string)) (rs : list row) : Prop :=
  forall l1 u l2, rs = l1 ++ u :: l2 -> existsb (fun k => clash (key_of k u) (key_of k <$> l1)) keys = false.

Definition only_plain (n : string) (ixs : list (string * index)) : Prop := Forall (fun ix => i_table ix.2 = n -> i_unique ix.2 = false) ixs.

Lemma plain_admits n t r ixs : only_plain n ixs -> existsb (violates_index n t r) ixs = false.
Proof.
  intros H. apply not_true_iff_false. intros ([k ix] & Hin & Hv)%existsb_exists. unfold only_plain in H. rewrite Forall_forall in H.
  specialize (H (k, ix)). unfold violates_index in Hv. cbn in *. apply andb_true_iff in Hv as [[Ht%bool_decide_eq_true Hu]%andb_true_iff _].
  rewrite H in Hu; [done|by apply list_elem_of_In|done].
Qed.

Lemma saved_key u : forall k, k ∈ unique_keys users_v7 -> key_of k (saved_user u) = key_of k u.
Proof. intros k Hk. cbn in Hk. rewrite !elem_of_cons in Hk. by destruct Hk as [->|[->|[->|H]]]; [..|set_solver]. Qed.

Definition saved_columns : list string := ["id"; "username"; "email"; "role"; "password_hash"; "refresh_token_hash"; "created_at"].

Lemma saved_get u k : k ∈ saved_columns -> col_get k (saved_user u) = col_get k u.
Proof.
  unfold saved_columns. rewrite !elem_of_cons. intros H. repeat destruct H as [->|H]; try reflexivity. set_solver.
Qed.

Lemma saved_valid u : row_valid users_v1 u -> row_valid users_v7 (saved_user u).
Proof.
  unfold row_valid, users_v1, users_v7, new_table. cbn [columns check_columns c_name text_key required nullable role_column checked].
  rewrite !saved_get by (unfold saved_columns; set_solver).
  assert (Hn : forall n x, check_cell (nullable n) x = None) by (by intros n []). rewrite !Hn.
  repeat (destruct (check_cell _ _); [done|]). done.
Qed.

(** The row that is inserted for a saved user is what was bound. *)
Lemma inserted_row u :
  (fun col => (c_name col, default (c_default col) (map_get (c_name col) (saved_user u)))) <$> columns users_v7 = saved_user u.
Proof. reflexivity. Qed.

Lemma insert_saved c rs u :
  map_get "users" (tables c) = Some {| columns := columns users_v7; unique_keys := unique_keys users_v7; rows := saved_user <$> rs |} ->
  only_plain "users" (indexes c) -> row_valid users_v1 u ->
  existsb (fun k => clash (key_of k u) (key_of k <$> rs)) (unique_keys users_v7) = false ->
  insert_into "users" (saved_user u) c =
    Ok (with_table "users" {| columns := columns users_v7; unique_keys := unique_keys users_v7; rows := saved_user <$> (rs ++ [u]) |} c).
Proof.
  intros Ht Hix Hv Hd. unfold insert_into. rewrite Ht. cbn zeta. cbn [Schema.columns Schema.rows Schema.unique_keys]. rewrite inserted_row.
  rewrite (saved_valid u Hv : check_columns (columns users_v7) (saved_user u) = None). rewrite plain_admits by done.
  assert (Hu : violates_unique {| columns := columns users_v7; unique_keys := unique_keys users_v7; rows := saved_user <$> rs |} (saved_user u) = false).
  { unfold violates_unique. cbn [Schema.rows Schema.unique_keys]. apply not_true_iff_false.
    intros (k & Hk & Hc)%existsb_exists. apply list_elem_of_In in Hk. rewrite saved_key, <- list_fmap_compose in Hc by done.
    assert (He : (key_of k ∘ saved_user) <$> rs = key_of k <$> rs) by (apply list_fmap_ext; intros i r _; by apply saved_key).
    rewrite He in Hc. apply not_true_iff_false in Hd. apply Hd, existsb_exists. exists k. by rewrite <- list_elem_of_In. }
  rewrite Hu. cbn [orb]. assert (Hp : existsb (parent_missing c (saved_user u)) (columns users_v7) = false) by done.
  rewrite Hp, andb_false_r. by rewrite fmap_app.
Qed.

Lemma insert_all c rs done_ :
  map_get "users" (tables c) = Some {| columns := columns users_v7; unique_keys := unique_keys users_v7; rows := saved_user <$> done_ |} ->
  only_plain "users" (indexes c) -> Forall (row_valid users_v1) rs -> distinct_rows (unique_keys users_v7) (done_ ++ rs) ->
  exists c', exec ((fun u => insert_into "users" (saved_user u)) <$> rs) c = Ok c' /\ indexes c' = indexes c /\ foreign_keys c' = foreign_keys c /\
    map_get "users" (tables c') = Some {| columns := columns users_v7; unique_keys := unique_keys users_v7; rows := saved_user <$> (done_ ++ rs) |} /\
    forall n, n <> "users" -> map_get n (tables c') = map_get n (tables c).
Proof.
  revert c done_. induction rs as [|u rs IH]; intros c done_ Ht Hix Hv Hd.
  - exists c. cbn. rewrite app_nil_r. done.
  - apply Forall_cons in Hv as [Hu Hv]. cbn [fmap list_fmap exec foldr]. unfold andThen at 1.
    rewrite (insert_saved c done_ u Ht Hix Hu) by by eapply Hd.
    destruct (IH (with_table "users" {| columns := columns users_v7; unique_keys := unique_keys users_v7; rows := saved_user <$> (done_ ++ [u]) |} c) (done_ ++ [u]))
      as (c' & He & Hi & Hf & Hm & Hn); [apply map_get_set_eq|done|done|by rewrite <- app_assoc|].
    exists c'. split; [exact He|]. rewrite <- app_assoc in Hm. split_and!; [done..|]. intros n Hne. rewrite Hn by done. by apply map_get_set_ne.
Qed.

(** C28: the migration to password authentication keeps every account.  When no row
    refers to a user, or foreign keys are off, dropping and rebuilding the table of
    users gives the same accounts in the same order, with empty password and token
    columns, and leaves every other table as it was. *)
Theorem accounts_survive_rebuild c rs :
  map_get "users" (tables c) = Some {| columns := columns users_v1; unique_keys := unique_keys users_v1; rows := rs |} ->
  only_plain "users" (indexes c) -> Forall (row_valid users_v1) rs -> distinct_rows (unique_keys users_v1) rs ->
  foreign_keys c && existsb (referring "users" (filter (fun x => x <> Null) (col_get "id" <$> rs))) (tables c) = false ->
  exists c', up_7 c = Ok c' /\
    map_get "users" (tables c') = Some {| columns := columns users_v7; unique_keys := unique_keys users_v7; rows := saved_user <$> rs |} /\
    (forall r k, r ∈ rs -> k ∈ saved_columns -> col_get k (saved_user r) = col_get k r) /\
    forall n, n <> "users" -> map_get n (tables c') = map_get n (tables c).
Proof.
  intros Ht Hix Hv Hd Hfk. unfold up_7, table_info. rewrite Ht. cbn [Schema.columns Schema.rows].
  assert (Hno : bool_decide ("password_hash" ∈ c_name <$> columns users_v1) = false) by reflexivity. rewrite Hno. cbn [andb exec foldr].
  unfold andThen at 1, drop_table_if_exists. rewrite Ht. cbn [Schema.rows]. rewrite Hfk.
  set (c1 := {| tables := map_delete "users" (tables c); indexes := filter (fun ix => i_table ix.2 <> "users") (indexes c); foreign_keys := foreign_keys c |}).
  assert (Hgone : map_get "users" (tables c1) = None) by apply map_get_delete_eq.
  unfold andThen at 1, create_table. rewrite (proj2 (map_has_false (tables c1) "users") Hgone).
  destruct (insert_all (with_table "users" users_v7 c1) rs []) as (c' & He & Hi & Hf & Hm & Hn).
  - apply map_get_set_eq.
  - cbn. apply Forall_forall. intros ix Hx. apply list_elem_of_filter in Hx as [Hx _]. by intros.
  - done.
  - done.
  - exists c'. split; [exact He|]. split; [exact Hm|]. split; [intros r k _; apply saved_get|].
    intros n Hne. rewrite Hn by done. cbn. rewrite map_get_set_ne by done. by apply map_get_delete_ne.
Qed.

(** ** An upgrade that cannot go through *)

(** A stored user that a row of another table refers to, and no password column yet. *)
Definition users_referenced (c : catalogue) : Prop :=
  foreign_keys c = true /\ exists t, map_get "users" (tables c) = Some t /\ ~ "password_hash" ∈ (c_name <$> columns t) /\
    existsb (referring "users" (filter (fun x => x <> Null) (col_get "id" <$> rows t))) (tables c) = true.

Lemma referenced_up_7 c : users_referenced c -> up_7 c = Err ForeignKeyFailed.
Proof.
  intros (Hf & t & Ht & Hp & He). unfold up_7, table_info. rewrite Ht, (bool_decide_eq_false_2 ("password_hash" ∈ _)) by done.
  cbn [andb exec foldr]. unfold andThen at 1, drop_table_if_exists. by rewrite Ht, Hf, He.
Qed.

Section Upgrade.
Context (texts : Z -> string) (sha256 : string -> string) (now : Z -> string) (default_path : string).

Lemma migrations_valid : valid (MIGRATIONS texts).
Proof. by apply valid_iff. Qed.

(** A database at version 6 with such a user stays there. *)
Lemma referenced_run s :
  rows_ok s -> at_version 6 s -> verified sha256 (MIGRATIONS texts) (applied_rows s) -> users_referenced (data s) ->
  exists s', runMigrations sha256 now (MIGRATIONS texts) s = (Err (UpFailed ForeignKeyFailed), s') /\ data s' = data s.
Proof.
  intros Hok H6 Hv Hr. destruct (run_verified sha256 now (MIGRATIONS texts) s Hok migrations_valid Hv) as (s1 & -> & _ & D1 & _).
  assert (Hp : pending (getAppliedMigrations s) (MIGRATIONS texts) = drop 6 (MIGRATIONS texts)).
  { rewrite snapshot_pending by done. rewrite <- (take_drop 6 (MIGRATIONS texts)) at 1. rewrite pending_app.
    unfold pending. rewrite filter_keep_none, filter_keep_all; [done|..]; apply Forall_forall; intros x Hx.
    - apply map_has_false, eq_None_not_Some. intros Hs%H6.
      assert (Hgt : Forall (fun x => 6 < version x) (drop 6 (MIGRATIONS texts))) by (repeat constructor).
      rewrite Forall_forall in Hgt. specialize (Hgt x Hx). lia.
    - rewrite (proj2 (map_has_true _ _)); [done|]. apply H6.
      assert (Hle : Forall (fun x => 1 <= version x <= 6) (take 6 (MIGRATIONS texts))) by (repeat constructor; cbn; lia).
      rewrite Forall_forall in Hle. apply (Hle x Hx). }
  assert (H7 : up_7 (data s1) = Err ForeignKeyFailed) by (rewrite D1; by apply referenced_up_7).
  destruct (apply_pending_err sha256 now (getAppliedMigrations s) (MIGRATIONS texts) s1 ForeignKeyFailed) as (pre & m & post & d & Hpre & Hd & Hm & ->).
  { rewrite Hp. cbn [drop MIGRATIONS ups up mig]. by rewrite H7. }
  rewrite Hp in Hpre. destruct pre as [|x pre]; [by exists s1|]. injection Hpre as <- _. cbn [ups up mig] in Hd. by rewrite H7 in Hd.
Qed.

(** C40: a database at version 6 with a row that refers to a user cannot be
    upgraded: the first opening throws, because with foreign keys on the table of
    users cannot be dropped.  The next opening returns the handle all the same, and
    the table of users is still without its password column. *)
Theorem blocked_upgrade_served w :
  instance w = None ->
  let file := pragma_foreign_keys (default new_db (map_get default_path (files w))) in
  rows_ok file -> at_version 6 file -> verified sha256 (MIGRATIONS texts) (applied_rows file) -> users_referenced (data file) ->
  exists w', getDb texts sha256 now default_path None w = (Err (UpFailed ForeignKeyFailed), w') /\
    getDb texts sha256 now default_path None w' = (Ok default_path, w') /\
    exists s', map_get default_path (files w') = Some s' /\ ~ "password_hash" ∈ table_info "users" (data s').
Proof.
  intros Hi file Hok H6 Hv Hr. destruct (referenced_run file Hok H6 Hv Hr) as (s' & He & Hd).
  unfold getDb. rewrite Hi. cbn [default]. fold file. rewrite He. eexists. split; [reflexivity|]. cbn [instance files].
  split; [done|]. exists s'. split; [apply map_get_set_eq|]. rewrite Hd. destruct Hr as (_ & t & Ht & Hp & _).
  unfold table_info. by rewrite Ht.
Qed.

(** An opening that succeeds on a closed module leaves the database at the
    latest version, with foreign keys enforced, and the next opening of the same
    path changes nothing. *)
Theorem opened_is_current w w' p :
  instance w = None -> rows_ok (default new_db (map_get p (files w))) ->
  getDb texts sha256 now default_path (Some p) w = (Ok p, w') ->
  exists s', map_get p (files w') = Some s' /\ (forall v, 1 <= v <= getLatestSchemaVersion texts -> is_Some (map_get v (applied_rows s'))) /\
    getDb texts sha256 now default_path (Some p) w' = (Ok p, w').
Proof.
  intros Hi Hok. unfold getDb. rewrite Hi. cbn [default]. set (file := pragma_foreign_keys _).
  assert (Hok' : rows_ok file) by exact Hok.
  destruct (runMigrations sha256 now (MIGRATIONS texts) file) as [[[]|e] s'] eqn:Hrun; [|done]. intros [= <-].
  exists s'. cbn [files instance]. split; [apply map_get_set_eq|]. split; [|by rewrite (bool_decide_eq_true_2 (p = p)), andb_false_r].
  intros v Hv. change (getLatestSchemaVersion texts) with 13 in Hv.
  destruct (run_ok_inv sha256 now _ _ _ Hok' Hrun) as (s1 & St). rewrite (st_rows _ _ _ _ _ _ _ St). unfold rows_after.
  destruct (list_find _ _) as [[i x]|] eqn:Hf; [eauto|]. destruct (map_get v (applied_rows file)) as [a|] eqn:Ha; [eauto|]. exfalso.
  assert (Hx : exists x, x ∈ MIGRATIONS texts /\ version x = v).
  { destruct (lookup_lt_is_Some_2 (MIGRATIONS texts) (Z.to_nat (v - 1))) as [x Hx]; [change (length (MIGRATIONS texts)) with 13%nat; lia|].
    exists x. split; [by eapply list_elem_of_lookup_2|]. rewrite (migrations_valid _ _ Hx). lia. }
  destruct Hx as (x & Hin & <-). apply list_find_None in Hf. rewrite Forall_forall in Hf. apply (Hf x); [|done].
  by apply elem_of_pending.
Qed.

End Upgrade.

(** ** The column that soft deletion reads *)

(** The table of contracts has no column of that name. *)
Definition lacks (n : string) (c : catalogue) : Prop := ~ n ∈ table_info "contracts" c.

Definition keeps_lacking (n : string) (f : stmt) : Prop := forall c c', f c = Ok c' -> lacks n c -> lacks n c'.

Section Lacking.
Context (n : string).

Lemma lacks_with_table m t c : (m = "contracts" -> ~ n ∈ (c_name <$> columns t)) -> lacks n c -> lacks n (with_table m t c).
Proof.
  unfold lacks, table_info, with_table. cbn. intros Ht Hl. destruct (decide (m = "contracts")) as [->|Hne].
  - rewrite map_get_set_eq. by apply Ht.
  - by rewrite map_get_set_ne by congruence.
Qed.

Lemma keeps_create m t : (m = "contracts" -> ~ n ∈ (c_name <$> columns t)) -> keeps_lacking n (create_table m t).
Proof. intros Ht c c'. unfold create_table. destruct (map_has _ _); [done|]. intros [= <-]. by apply lacks_with_table. Qed.

Lemma keeps_create_if m t : (m = "contracts" -> ~ n ∈ (c_name <$> columns t)) -> keeps_lacking n (create_table_if_not_exists m t).
Proof. intros Ht c c'. unfold create_table_if_not_exists. destruct (map_has _ _); intros [= <-]; [done|]. by apply lacks_with_table. Qed.

Lemma keeps_index m ix : keeps_lacking n (create_index_if_not_exists m ix).
Proof.
  intros c c'. unfold create_index_if_not_exists. destruct (map_has _ _); [by intros [= <-]|]. destruct (map_get _ _); [|done].
  destruct (negb _); [done|]. destruct (_ && _); [done|]. by intros [= <-].
Qed.

Lemma keeps_column m col : c_name col <> n -> keeps_lacking n (ensure_column m col).
Proof.
  intros Hc c c'. unfold ensure_column. case_bool_decide; [by intros [= <-]|]. unfold add_column.
  destruct (map_get m (tables c)) as [t|] eqn:Hm; [|done]. case_bool_decide; [done|]. destruct (_ && _); [done|]. intros [= <-] Hl.
  apply lacks_with_table; [|done]. intros -> Hin. cbn in Hin. rewrite fmap_app in Hin. unfold lacks, table_info in Hl. rewrite Hm in Hl.
  apply elem_of_app in Hin as [?|Hin]; [done|]. cbn in Hin. set_solver.
Qed.

Lemma keeps_drop m : keeps_lacking n (drop_table_if_exists m).
Proof.
  intros c c'. unfold drop_table_if_exists. destruct (map_get m (tables c)) as [t|]; [|by intros [= <-]]. destruct (_ && _); [done|]. intros [= <-].
  unfold lacks, table_info. cbn. intros Hl. destruct (decide (m = "contracts")) as [->|Hne].
  - rewrite map_get_delete_eq. by apply not_elem_of_nil.
  - by rewrite map_get_delete_ne.
Qed.

Lemma keeps_insert m r : keeps_lacking n (insert_into m r).
Proof.
  intros c c'. unfold insert_into. destruct (map_get m (tables c)) as [t|] eqn:Hm; [|done]. destruct (check_columns _ _); [done|].
  destruct (_ || _); [done|]. destruct (_ && _); [done|]. intros [= <-] Hl. apply lacks_with_table; [|done]. intros ->.
  unfold lacks, table_info in Hl. by rewrite Hm in Hl.
Qed.

Lemma keeps_exec l : Forall (keeps_lacking n) l -> keeps_lacking n (exec l).
Proof.
  induction 1 as [|f l Hf _ IH]; intros c c'; [by intros [= <-]|]. cbn [exec foldr]. unfold andThen at 1.
  destruct (f c) as [c1|] eqn:E'; [|done]. intros Hx Hl. eapply IH; [exact Hx|]. by eapply Hf.
Qed.
End Lacking.

Ltac keeps :=
  repeat first
    [ apply keeps_exec | apply Forall_cons_2 | apply Forall_nil_2 | apply keeps_index | apply keeps_drop
    | apply keeps_create_if; first [done | intros _; by vm_compute; set_solver]
    | apply keeps_column; done ].

Lemma migrations_lack_deleted_at texts : Forall (fun m => keeps_lacking "deleted_at" (up m)) (MIGRATIONS texts).
Proof.
  assert (H7 : keeps_lacking "deleted_at" up_7).
  { intros c c'. unfold up_7. destruct (_ && _); [by intros [= <-]|]. destruct (map_get _ _) as [t|]; [|done]. apply keeps_exec.
    apply Forall_cons. split; [apply keeps_drop|]. apply Forall_cons. split; [by apply keeps_create|].
    apply Forall_fmap, Forall_forall. intros u _. apply keeps_insert. }
  assert (Hr : forall m, m <> "contracts" -> keeps_lacking "deleted_at" (createRetentionTable m)).
  { intros m Hm. apply keeps_exec. apply Forall_cons. split; [by apply keeps_create_if|]. apply Forall_fmap, Forall_forall. intros col _. apply keeps_index. }
  unfold MIGRATIONS. repeat (apply Forall_cons_2; [cbn [up mig]|]); [..|apply Forall_nil_2]; try exact H7;
    unfold up_1, up_2, up_3, up_4, up_5, up_6, up_8, up_9, up_10, up_11, up_12, up_13; keeps; try by apply Hr.
  all: apply keeps_create_if; intros _ Hin; vm_compute in Hin; rewrite !elem_of_cons in Hin; naive_solver.
Qed.

(** SELECT * FROM contracts WHERE deleted_at IS NULL *)
Definition select_live_contracts (c : catalogue) : result sql_error (list row) :=
  match map_get "contracts" (tables c) with
  | None => Err NoSuchTable
  | Some t => if bool_decide ("deleted_at" ∈ c_name <$> columns t) then Ok (filter (fun r => col_get "deleted_at" r = Null) (rows t)) else Err NoSuchColumn
  end.

Lemma ups_lack texts m d d' :
  ups (pending m (MIGRATIONS texts)) d = Ok d' -> lacks "deleted_at" d -> lacks "deleted_at" d'.
Proof.
  pose proof (migrations_lack_deleted_at texts) as Hf. revert d. unfold pending. induction Hf as [|x l Hx _ IH]; intros d; [by intros [= <-]|].
  rewrite filter_cons. destruct (decide _); [|apply IH]. cbn [ups]. destruct (up x d) as [d1|] eqn:E'; [|done]. intros Hu Hl.
  eapply IH; [exact Hu|]. by eapply Hx.
Qed.

(** No migration gives the table of contracts the column that soft deletion
    reads.  A database without it is without it after every successful start-up, so
    the listing of the live contracts fails there. *)
Theorem soft_delete_column_missing texts sha256 now s s' :
  rows_ok s -> lacks "deleted_at" (data s) -> runMigrations sha256 now (MIGRATIONS texts) s = (Ok tt, s') ->
  is_ok (select_live_contracts (data s')) = false.
Proof.
  intros Hok Hl Hrun. destruct (run_ok_inv sha256 now _ _ _ Hok Hrun) as (s1 & St).
  destruct (st_pre _ _ _ _ _ _ _ St) as (post & d & _ & Hu & ->).
  assert (Hd : lacks "deleted_at" (data (after sha256 now (pending (applied_rows s) (MIGRATIONS texts)) d s1))).
  { rewrite after_data by (by rewrite (st_data _ _ _ _ _ _ _ St)). by eapply ups_lack. }
  unfold lacks, table_info in Hd. unfold select_live_contracts. destruct (map_get "contracts" _) as [t|]; [|done].
  by rewrite bool_decide_eq_false_2.
Qed.

(** ** Witnesses and examples *)

Definition demo_texts (v : Z) : string := pretty v.
Definition demo_hash (t : string) : string := t.
Definition demo_now (v : Z) : string := "t".

Notation migrate := (runMigrations demo_hash demo_now).

(** The whole list on a new database: every version, and the tables it creates. *)
Example fresh_database :
  match migrate (MIGRATIONS demo_texts) (pragma_foreign_keys new_db) with
  | (Ok _, s') => map_keys (applied_rows s') = [1; 2; 3; 4; 5; 6; 7; 8; 9; 10; 11; 12; 13] /\
      map_keys (tables (data s')) = ["contracts"; "smart_contract_events"; "reputation_entries"; "transactions"; "deployment_history"; "users";
        "retention_local"; "retention_archive"; "webhook_subscriptions"; "notifications"; "webhook_dlq"]
  | (Err _, _) => False
  end.
Proof. vm_compute. split; reflexivity. Qed.

(** A database at version 6 with one contract between two users. *)
Definition demo_user (i : string) : row :=
  [("id", Text i); ("username", Text i); ("email", Text i); ("role", Text "both"); ("created_at", Text "t")].

Definition demo_contract : row :=
  [("id", Text "k"); ("title", Text "x"); ("client_id", Text "ann"); ("freelancer_id", Text "bob"); ("amount", Int 1);
   ("status", Text "draft"); ("created_at", Text "t"); ("version", Int 0)].

Definition at_six (with_contract : bool) : @db catalogue :=
  let s := (migrate (take 6 (MIGRATIONS demo_texts)) (pragma_foreign_keys new_db)).2 in
  {| schema := schema s;
     data := match exec ([insert_into "users" (demo_user "ann"); insert_into "users" (demo_user "bob")] ++
                         (if with_contract then [insert_into "contracts" demo_contract] else [])) (data s) with Ok c => c | Err _ => data s end |}.

Lemma rows_ok_check (s : @db catalogue) :
  NoDup (map_keys (applied_rows s)) -> Forall (fun e => a_version e.2 = e.1) (applied_rows s) -> rows_ok s.
Proof.
  intros Hw Hf. split; [done|]. intros k a Ha. apply map_get_elem_of in Ha. rewrite Forall_forall in Hf. exact (Hf _ Ha).
Defined.

Definition closed_with (s : @db catalogue) : module_state := {| instance := None; files := [("p", s)] |}.

Lemma at_version_check n (s : @db catalogue) :
  map_keys (applied_rows s) = (fun i => Z.of_nat i) <$> seq 1 n -> at_version n s.
Proof.
  intros Hk v. split.
  - intros [a Ha]. apply map_get_elem_of in Ha. assert (Hv : v ∈ map_keys (applied_rows s)) by (apply list_elem_of_fmap; by exists (v, a)).
    rewrite Hk in Hv. apply list_elem_of_fmap in Hv as (i & -> & Hi). apply elem_of_seq in Hi. lia.
  - intros Hv. apply not_eq_None_Some. rewrite map_get_None, Hk. intros Hn. apply Hn, list_elem_of_fmap. exists (Z.to_nat v).
    split; [lia|]. apply elem_of_seq. lia.
Defined.

Lemma verified_check (l : list (@Migration catalogue sql_error)) (s : @db catalogue) :
  forallb (fun e => acceptable demo_hash l e.2) (applied_rows s) = true -> verified demo_hash l (applied_rows s).
Proof.
  intros H k a Ha. apply map_get_elem_of, list_elem_of_In in Ha. rewrite forallb_forall in H. exact (H _ Ha).
Defined.

Lemma nodup_check {A} `{EqDecision A} (l : list A) : bool_decide (NoDup l) = true -> NoDup l.
Proof. apply bool_decide_eq_true. Defined.

Lemma rows_checked (s : @db catalogue) :
  bool_decide (NoDup (map_keys (applied_rows s))) && forallb (fun e => bool_decide (a_version e.2 = e.1)) (applied_rows s) = true -> rows_ok s.
Proof.
  intros [H1 H2]%andb_true_iff. apply rows_ok_check; [by apply nodup_check|]. apply Forall_forall. intros e He.
  rewrite forallb_forall in H2. apply list_elem_of_In in He. exact (proj1 (bool_decide_eq_true _) (H2 e He)).
Defined.

Lemma accounts_survive_rebuild_witness :
  exists c', up_7 (data (at_six false)) = Ok c' /\ length (rows (default users_v7 (map_get "users" (tables c')))) = 2%nat.
Proof.
  destruct (accounts_survive_rebuild (data (at_six false)) [demo_user "ann"; demo_user "bob"]) as (c' & He & Hu & _).
  - vm_compute. reflexivity.
  - vm_compute. repeat constructor; discriminate.
  - repeat constructor.
  - intros [|u [|u' [|u'' l]]] x l2 E'; cbn in E'; simplify_eq; reflexivity.
  - vm_compute. reflexivity.
  - exists c'. split; [exact He|]. rewrite Hu. reflexivity.
Defined.

Lemma blocked_upgrade_served_witness :
  exists w', getDb demo_texts demo_hash demo_now "p" None (closed_with (at_six true)) = (Err (UpFailed ForeignKeyFailed), w') /\
    getDb demo_texts demo_hash demo_now "p" None w' = (Ok "p", w').
Proof.
  destruct (blocked_upgrade_served demo_texts demo_hash demo_now "p" (closed_with (at_six true))) as (w' & H1 & H2 & _).
  - reflexivity.
  - apply rows_checked. vm_compute. reflexivity.
  - apply at_version_check. vm_compute. reflexivity.
  - apply verified_check. vm_compute. reflexivity.
  - split; [vm_compute; reflexivity|].
    exists (default users_v1 (map_get "users" (tables (data (at_six true))))).
    split; [vm_compute; reflexivity|]. split; [apply (proj1 (bool_decide_eq_false _)); vm_compute; reflexivity|vm_compute; reflexivity].
  - exists w'. split; [exact H1|exact H2].
Defined.

Lemma opened_is_current_witness :
  exists w' s', getDb demo_texts demo_hash demo_now "q" (Some "p") (closed_with (at_six false)) = (Ok "p", w') /\
    map_get "p" (files w') = Some s' /\ is_Some (map_get 13 (applied_rows s')).
Proof.
  destruct (getDb demo_texts demo_hash demo_now "q" (Some "p") (closed_with (at_six false))) as [[x|e] w'] eqn:Hg.
  - assert (Hx : x = "p") by (vm_compute in Hg; by injection Hg). subst x.
    destruct (opened_is_current demo_texts demo_hash demo_now "q" (closed_with (at_six false)) w' "p") as (s' & Hs & Hv & _).
    + reflexivity.
    + apply rows_checked. vm_compute. reflexivity.
    + exact Hg.
    + exists w', s'. split; [reflexivity|]. split; [exact Hs|]. apply Hv. vm_compute. split; discriminate.
  - vm_compute in Hg. discriminate Hg.
Defined.

Definition demo_rows (l : list (@Migration catalogue sql_error)) : @db catalogue := (migrate l new_db).2.

(** A list of two migrations whose second fails. *)
Definition creates (v : Z) (n : string) : @Migration catalogue sql_error :=
  {| version := v; name := n; checksumSource := None; up := create_table n users_v1; up_text := n |}.

Lemma migrations_spec_witness :
  exists s', migrate [creates 1 "a"; creates 2 "a"] new_db = (Err (UpFailed TableExists), s') /\ map_has "a" (tables (data s')) = true.
Proof.
  pose proof (migrations_spec demo_hash demo_now [creates 1 "a"; creates 2 "a"] new_db (rows_checked new_db eq_refl)) as H.
  destruct (migrate [creates 1 "a"; creates 2 "a"] new_db) as [r s'] eqn:Hr. vm_compute in Hr. injection Hr as Hr1 Hr2. subst r.
  destruct H as (_ & _ & pre & m & post & _). exists s'. subst s'. split; reflexivity.
Defined.

Lemma rerun_changes_nothing_witness :
  exists s', migrate (MIGRATIONS demo_texts) new_db = (Ok tt, s') /\ migrate (MIGRATIONS demo_texts) s' = (Ok tt, s').
Proof.
  destruct (migrate (MIGRATIONS demo_texts) new_db) as [[[]|e] s'] eqn:Hr; [|vm_compute in Hr; discriminate Hr].
  exists s'. split; [reflexivity|]. apply (rerun_changes_nothing demo_hash demo_now (MIGRATIONS demo_texts) new_db s'); [|exact Hr].
  apply rows_checked. reflexivity.
Defined.

Lemma failed_run_resumes_witness :
  exists s', migrate [creates 1 "a"; creates 2 "a"] new_db = (Err (UpFailed TableExists), s') /\
    migrate [creates 1 "a"; creates 2 "b"] s' = migrate [creates 1 "a"; creates 2 "b"] new_db.
Proof.
  destruct (migrate [creates 1 "a"; creates 2 "a"] new_db) as [r s'] eqn:Hr. pose proof Hr as Hr'. vm_compute in Hr'. injection Hr' as Hr1 Hr2. subst r.
  exists s'. split; [reflexivity|].
  apply (failed_run_resumes demo_hash demo_now [creates 1 "a"] [creates 2 "a"] [creates 2 "b"] 0 new_db s' TableExists).
  - apply rows_checked. reflexivity.
  - apply at_version_check. reflexivity.
  - cbn. lia.
  - apply valid_iff. reflexivity.
  - exact Hr.
  - apply at_version_check. subst s'. reflexivity.
Defined.

Lemma edited_migration_refused_witness :
  exists err s', migrate [creates 1 "a"] {| schema := Some {| has_checksum := true; applied := [(1, {| a_version := 1; a_name := "a";
     a_checksum := Some (fingerprint (creates 1 "a") "old"); applied_at := "t" |})] |}; data := empty_catalogue |} = (Err err, s') /\
    is_up_failed err = false /\ data s' = empty_catalogue.
Proof.
  refine (edited_migration_refused demo_hash demo_now [creates 1 "a"] _ 1 (creates 1 "a")
    {| a_version := 1; a_name := "a"; a_checksum := Some (fingerprint (creates 1 "a") "old"); applied_at := "t" |} "old" _ _ _ _ _ _ _ _ _ _ _);
    [apply rows_checked; reflexivity|apply valid_iff; reflexivity|set_solver|done|done|reflexivity|reflexivity|reflexivity|discriminate].
Defined.

(** The table of dead letters admits two rows with one key, although the source of
    its checksum names a constraint on it. *)
Definition demo_letter (i : string) : row :=
  ((fun k => (k, Text "x")) <$> ["webhook_id"; "url"; "body"; "failed_at"; "last_error"; "dedupe_key"; "created_at"; "updated_at"]) ++ [("id", Text i)].

Example dlq_key_not_unique :
  is_ok (exec [up_13; insert_into "webhook_dlq" (demo_letter "1"); insert_into "webhook_dlq" (demo_letter "2")] empty_catalogue) = true.
Proof. vm_compute. reflexivity. Qed.

(** Two stored addresses that differ in case stop the upgrade to version 11. *)
Example mixed_case_emails_block :
  exec [up_1; insert_into "users" (demo_user "ann"); insert_into "users" (demo_user "Ann"); up_11] empty_catalogue = Err UniqueFailed.
Proof. vm_compute. reflexivity. Qed.

(** Changing the body of a migration that declares a source goes unnoticed. *)
Example edited_body_unnoticed :
  migrate (MIGRATIONS (fun _ => "edited")) (demo_rows (MIGRATIONS demo_texts)) = (Ok tt, demo_rows (MIGRATIONS demo_texts)).
Proof. vm_compute. reflexivity. Qed.

Lemma soft_delete_column_missing_witness :
  exists s', migrate (MIGRATIONS demo_texts) new_db = (Ok tt, s') /\ select_live_contracts (data s') = Err NoSuchColumn.
Proof.
  destruct (migrate (MIGRATIONS demo_texts) new_db) as [[[]|e] s'] eqn:Hr; [|vm_compute in Hr; discriminate Hr].
  exists s'. split; [reflexivity|].
  pose proof (soft_delete_column_missing demo_texts demo_hash demo_now new_db s' (rows_checked new_db eq_refl) (not_elem_of_nil _) Hr) as H.
  vm_compute in Hr. injection Hr as Hr. subst s'. reflexivity.
Defined.
End Schema.
