(* ===== verification/ReputationWebhooks.v ===== *)
(** * Reputation webhooks: src/modules/reputation/webhook/, src/webhookDelivery.ts,
    src/dlqStore.ts, src/webhookMetrics.ts

    Deliveries run concurrently.  A delivery is a task with the turns the event
    loop gives it: it starts with the event, each HTTP call that settles is a turn,
    and so is each wake-up after a backoff.  All share the breakers and the
    dead-letter store.  What HTTP answers, the instants and the identifiers come
    with the turns. *)

From stdpp Require Import prelude strings.
From Stdlib Require Import ZArith Lia Ascii.
From S2P Require Import Prelude JsMap JsValue JsArith JsString Regex Cursor Json JsonRoundtrip CircuitBreaker WebhookSigning.
Open Scope Z_scope.

Module RepWebhooks.
Import Breaker.
Import Signing.
Import JsonRoundtrip.

(** ** The dead-letter store in memory *)

Record DlqEntry : Type := {
  providerId : string; deliveryId : string; targetUrl : string; payload : value; dlq_timestamp : Z; attemptCount : Z;
}.

Definition dlqStore : Type := list (string * list DlqEntry).

Definition push (e : DlqEntry) (m : dlqStore) : dlqStore := map_set (providerId e) (default [] (map_get (providerId e) m) ++ [e]) m.

Definition getDepthByProvider (m : dlqStore) : list (string * Z) := (fun e => (e.1, Z.of_nat (length e.2))) <$> m.

Definition getOldestAgeByProvider (now : Z) (m : dlqStore) : list (string * number) :=
  omap (fun e => match e.2 with [] => None | o :: _ => Some (e.1, num_div (of_int (now - dlq_timestamp o)) (of_int 1000)) end) m.

(** [queue.splice(0, count)], and the empty queue removed. *)
Definition drain (p : string) (count : Z) (m : dlqStore) : list DlqEntry * dlqStore :=
  match map_get p m with
  | None | Some [] => ([], m)
  | Some q =>
      let rest := drop (Z.to_nat count) q in
      (take (Z.to_nat count) q, match rest with [] => map_delete p m | _ => map_set p rest m end)
  end.

Definition drainWithCap (p : string) (replayCap : Z) (m : dlqStore) : list DlqEntry * dlqStore :=
  if replayCap <=? 0 then ([], m) else drain p replayCap m.

(** ** Labels and retries *)

Definition PROVIDERS : list string := ["stripe"; "github"; "slack"; "sendgrid"; "generic"]%string.

Definition sanitizeProvider (raw : string) : string :=
  let n := to_lower raw in if bool_decide (n ∈ PROVIDERS) then n else "generic"%string.

Definition getLabelValues (statusCode : option Z) (errorType : string) : bool * string :=
  if bool_decide (errorType = "ECONNREFUSED"%string) then (false, "connection_refused"%string)
  else if bool_decide (errorType ∈ ["ENOTFOUND"; "EAI_AGAIN"]%string) then (false, "dns_resolution_failure"%string)
  else if bool_decide (errorType ∈ ["ETIMEDOUT"; "ECONNABORTED"]%string) then (false, "timeout"%string)
  else match statusCode with
       | Some s =>
           if (200 <=? s) && (s <? 300) then (true, "unknown"%string)
           else if (400 <=? s) && (s <? 500) then (false, "4xx_client_error"%string)
           else if 500 <=? s then (false, "5xx_server_error"%string)
           else (false, "unknown"%string)
       | None => (false, "unknown"%string)
       end.

Definition isRetryableFailure (statusCode : option Z) (errorCode : string) : bool :=
  match statusCode with Some s => 500 <=? s | None => false end ||
  bool_decide (errorCode ∈ ["ECONNRESET"; "ETIMEDOUT"; "ECONNABORTED"; "ENOTFOUND"; "EAI_AGAIN"; "ECONNREFUSED"]%string).

(** ** Events and subscriptions *)

Record ReputationWebhookEvent : Type := {
  eventType : string; eventId : string; ev_timestamp : string; targetId : string; data : list (string * value);
}.

Record ReputationWebhookSubscription : Type := {
  subscriberId : string; webhookUrl : string; secret : string; eventTypes : list string; targetFilter : option string;
}.

Definition createRatingCreatedEvent (uuid now target reviewer : string) (rating : number) (context entry : string)
    (newScore : number) (totalRatings : number) (weightedScore : number) (algorithm : string) (comment : option string) : ReputationWebhookEvent :=
  {| eventType := "reputation.rating.created"; eventId := uuid; ev_timestamp := now; targetId := target;
     data := [("targetId", VString target); ("reviewerId", VString reviewer); ("rating", VNumber rating); ("contextId", VString context);
              ("entryId", VString entry); ("newScore", VNumber newScore); ("totalRatings", VNumber totalRatings);
              ("weightedScore", VNumber weightedScore); ("scoreAlgorithm", VString algorithm);
              ("comment", match comment with Some c => VString c | None => VUndefined end)]%string |}.

Definition event_value (e : ReputationWebhookEvent) : value :=
  VObject [("eventType", VString (eventType e)); ("eventId", VString (eventId e)); ("timestamp", VString (ev_timestamp e));
           ("data", VObject (data e))]%string.

(** [{ ...event, signature, timestamp }]: the timestamp of the event is replaced in place. *)
Definition delivered_body (e : ReputationWebhookEvent) (s : WebhookSignature) : value :=
  VObject [("eventType", VString (eventType e)); ("eventId", VString (eventId e)); ("timestamp", VNumber (of_int (timestamp s)));
           ("data", VObject (data e)); ("signature", VString (String.string_of_list_ascii (signature s)))]%string.

Definition matching (e : ReputationWebhookEvent) (s : ReputationWebhookSubscription) : bool :=
  (bool_decide (eventTypes s = []) || bool_decide (eventType e ∈ eventTypes s)) &&
  match targetFilter s with
  | Some t => bool_decide (t = EmptyString) || bool_decide (targetId e = t)
  | None => true
  end.

Definition findMatchingSubscriptions (e : ReputationWebhookEvent) (subs : list (string * ReputationWebhookSubscription)) :
    list (string * ReputationWebhookSubscription) := filter (fun s => matching e s.2 = true) subs.

(** [subscription.subscriberId || uuidv4()] *)
Definition addSubscription (uuid : string) (s : ReputationWebhookSubscription) (subs : list (string * ReputationWebhookSubscription)) :
    string * list (string * ReputationWebhookSubscription) :=
  let i := if bool_decide (subscriberId s = EmptyString) then uuid else subscriberId s in (i, map_set i s subs).

Definition removeSubscription (i : string) (subs : list (string * ReputationWebhookSubscription)) : bool * list (string * ReputationWebhookSubscription) :=
  (map_has i subs, map_delete i subs).

(** ** Deliveries *)

Record DeliveryResult : Type := { success : bool; statusCode : option Z; circuitOpen : bool; enqueueToDoLQ : bool }.

Inductive phase : Type := InFlight (attempt : Z) | Sleeping (attempt : Z) | Done (r : DeliveryResult).

(** [t_calls] counts the HTTP calls made. *)
Record task : Type := { t_subscription : string; t_provider : string; t_url : string; t_body : value; t_phase : phase; t_calls : Z }.

Record world : Type := {
  subscriptions : list (string * ReputationWebhookSubscription);
  breakers : list (string * breaker);
  dlq : dlqStore;
  drained : list DlqEntry;   (* what [drainDlq] has returned *)
  tasks : list task;
}.

Inductive http_outcome : Type := Responded (status : Z) | Thrown (code : option string).

Definition with_tasks (ts : list task) (w : world) : world :=
  {| subscriptions := subscriptions w; breakers := breakers w; dlq := dlq w; drained := drained w; tasks := ts |}.
Definition with_breaker (p : string) (b : breaker) (w : world) : world :=
  {| subscriptions := subscriptions w; breakers := map_set p b (breakers w); dlq := dlq w; drained := drained w; tasks := tasks w |}.
Definition with_dlq (d : dlqStore) (w : world) : world :=
  {| subscriptions := subscriptions w; breakers := breakers w; dlq := d; drained := drained w; tasks := tasks w |}.
Definition with_subscriptions (s : list (string * ReputationWebhookSubscription)) (w : world) : world :=
  {| subscriptions := s; breakers := breakers w; dlq := dlq w; drained := drained w; tasks := tasks w |}.

Definition set_phase (p : phase) (calls : Z) (t : task) : task :=
  {| t_subscription := t_subscription t; t_provider := t_provider t; t_url := t_url t; t_body := t_body t; t_phase := p; t_calls := calls |}.

Definition circuit_open : DeliveryResult := {| success := false; statusCode := None; circuitOpen := true; enqueueToDoLQ := false |}.

Section Delivery.
Context (o : options) (maxAttempts : Z).

Definition getOrCreateBreaker (p : string) (w : world) : breaker := default initial (map_get p (breakers w)).

(** One turn of the loop up to the await: the breaker admits the call or rejects it. *)
Definition attempt (now n : Z) (t : task) (w : world) : task * world :=
  let '(a, b) := begin o now (getOrCreateBreaker (t_provider t) w) in
  match a with
  | Rejected => (set_phase (Done circuit_open) (t_calls t) t, with_breaker (t_provider t) (getState o now b).2 w)
  | _ => (set_phase (InFlight n) (t_calls t + 1) t, with_breaker (t_provider t) b w)
  end.

(** [deliver], up to its first await. *)
Definition deliver (now : Z) (t : task) (w : world) : task * world :=
  let '(st, b) := getState o now (getOrCreateBreaker (t_provider t) w) in
  let w := with_breaker (t_provider t) b w in
  if bool_decide (st = OPEN) then (set_phase (Done circuit_open) (t_calls t) t, w)
  else if maxAttempts <? 1
  then (set_phase (Done {| success := false; statusCode := None; circuitOpen := false; enqueueToDoLQ := false |}) (t_calls t) t, w)
  else attempt now 1 t w.

(** [handleDlqEntry] *)
Definition handleDlqEntry (uuid : string) (now n : Z) (t : task) (w : world) : world :=
  with_dlq (push {| providerId := "reputation-webhook"; deliveryId := uuid; targetUrl := t_url t; payload := t_body t;
                    dlq_timestamp := now; attemptCount := n |} (dlq w)) w.

Definition outcome_status (r : http_outcome) : option Z := match r with Responded s => Some s | Thrown _ => None end.
Definition outcome_code (r : http_outcome) : string :=
  match r with
  | Responded s => if 500 <=? s then "5xx_server_error"%string else "4xx_client_error"%string
  | Thrown c => default "unknown"%string c
  end.
Definition outcome_ok (r : http_outcome) : bool := match r with Responded s => (200 <=? s) && (s <? 300) | Thrown _ => false end.

(** A call settles: attempt [n] of task [t]. *)
Definition settle (uuid : string) (now n : Z) (r : http_outcome) (t : task) (w : world) : task * world :=
  let b := (getState o now (finish o (outcome_ok r) now (getOrCreateBreaker (t_provider t) w))).2 in
  let w := with_breaker (t_provider t) b w in
  if outcome_ok r then
    (set_phase (Done {| success := true; statusCode := outcome_status r; circuitOpen := false; enqueueToDoLQ := false |}) (t_calls t) t, w)
  else
    let '(status, _) := getLabelValues (outcome_status r) (outcome_code r) in
    let shouldRetry := negb status && isRetryableFailure (outcome_status r) (outcome_code r) && (n <? maxAttempts) in
    if shouldRetry then (set_phase (Sleeping n) (t_calls t) t, w)
    else (set_phase (Done {| success := false; statusCode := outcome_status r; circuitOpen := false; enqueueToDoLQ := true |}) (t_calls t) t,
          handleDlqEntry uuid now n t w).

Context (number_text : number -> list ascii) (hmac : string -> list ascii -> list ascii).

Definition MAX_WEBHOOK_PAYLOAD_SIZE : Z := 100 * 1024.

Definition validatePayloadSize (v : value) : bool :=
  match Json.stringify number_text v with Some t => Z.of_nat (length (Cursor.utf8_encode t)) <=? MAX_WEBHOOK_PAYLOAD_SIZE | None => false end.

Definition deliverToSubscription (now : Z) (e : ReputationWebhookEvent) (w : world) (s : string * ReputationWebhookSubscription) : world :=
  let sg := createWebhookSignature number_text hmac (event_value e) (secret s.2) now in
  let t := {| t_subscription := s.1; t_provider := sanitizeProvider "reputation-webhook"; t_url := webhookUrl s.2;
              t_body := delivered_body e sg; t_phase := Sleeping 0; t_calls := 0 |} in
  let '(t', w') := deliver now t w in
  with_tasks (tasks w' ++ [t']) w'.

(** [emitEvent] up to its await; the error for an oversized event. *)
Definition emitEvent (now : Z) (e : ReputationWebhookEvent) : SE world unit unit := fun w =>
  if negb (validatePayloadSize (event_value e)) then (Err tt, w)
  else (Ok tt, foldl (deliverToSubscription now e) w (findMatchingSubscriptions e (subscriptions w))).

(** ** Turns *)

Inductive turn : Type :=
| TEmit (now : Z) (e : ReputationWebhookEvent)
| TSettle (i : nat) (uuid : string) (now : Z) (r : http_outcome)
| TWake (i : nat) (now : Z)
| TSubscribe (uuid : string) (s : ReputationWebhookSubscription)
| TUnsubscribe (i : string)
| TDrain (p : string) (count : Z)
| TReset (p : string) (now : Z).

Definition take_turn (x : turn) (w : world) : world :=
  match x with
  | TEmit now e => (emitEvent now e w).2
  | TSettle i uuid now r =>
      match tasks w !! i with
      | Some t => match t_phase t with
                  | InFlight n => let '(t', w') := settle uuid now n r t w in with_tasks (<[i := t']> (tasks w')) w'
                  | _ => w
                  end
      | None => w
      end
  | TWake i now =>
      match tasks w !! i with
      | Some t => match t_phase t with
                  | Sleeping n => let '(t', w') := attempt now (n + 1) t w in with_tasks (<[i := t']> (tasks w')) w'
                  | _ => w
                  end
      | None => w
      end
  | TSubscribe uuid s => with_subscriptions (addSubscription uuid s (subscriptions w)).2 w
  | TUnsubscribe i => with_subscriptions (removeSubscription i (subscriptions w)).2 w
  | TDrain p count =>
      let '(out, d) := drain p count (dlq w) in
      {| subscriptions := subscriptions w; breakers := breakers w; dlq := d; drained := drained w ++ out; tasks := tasks w |}
  | TReset p now =>
      match map_get (sanitizeProvider p) (breakers w) with
      | Some b => with_breaker (sanitizeProvider p) (getState o now (reset b)).2 w
      | None => w
      end
  end.

Definition run_turns (xs : list turn) (w : world) : world := foldl (fun w x => take_turn x w) w xs.

End Delivery.

Definition empty_world : world := {| subscriptions := []; breakers := []; dlq := []; drained := []; tasks := [] |}.

(** ** The store keeps what it is given *)

Definition letters (m : dlqStore) : list DlqEntry := concat (map_values m).

Lemma push_letters e m : letters (push e m) ≡ₚ letters m ++ [e].
Proof.
  unfold letters, push, map_values. induction m as [|[k q] m IH]; [done|]. cbn [map_get map_set].
  destruct (decide (providerId e = k)) as [Hk|Hk]; cbn [fmap list_fmap concat].
  - cbn. rewrite <- !app_assoc. apply Permutation_app_head, Permutation_app_comm.
  - rewrite <- app_assoc. apply Permutation_app_head. exact IH.
Qed.

Lemma push_wf e m : wf m -> wf (push e m).
Proof. apply wf_set. Qed.

Lemma letters_split p q m : wf m -> map_get p m = Some q -> letters m ≡ₚ q ++ letters (map_delete p m).
Proof.
  unfold letters, map_values, wf, map_keys. induction m as [|[k x] m IH]; intros Hw Hg; [done|]. cbn in Hw. apply NoDup_cons in Hw as [Hn Hw].
  cbn [map_get] in Hg. unfold map_delete. rewrite filter_cons. cbn [fst]. destruct (decide (p = k)) as [->|Hk].
  - simplify_eq. rewrite decide_False by (intros Hc; by apply Hc). rewrite filter_keep_all; [done|].
    apply Forall_forall. intros [k' y] Hin Hk. cbn in Hk. subst. apply Hn. apply list_elem_of_fmap. by exists (k, y).
  - rewrite decide_True by congruence. cbn. rewrite (IH Hw Hg). rewrite !app_assoc. apply Permutation_app_tail, Permutation_app_comm.
Qed.

Lemma set_letters p q m : wf m -> letters (map_set p q m) ≡ₚ q ++ letters (map_delete p m).
Proof.
  intros Hw. rewrite (letters_split p q (map_set p q m)); [|by apply wf_set|apply map_get_set_eq].
  apply Permutation_app_head. unfold map_delete. induction m as [|[k x] m IH]; cbn [map_set].
  - rewrite filter_cons. cbn [fst]. by rewrite decide_False by (intros Hc; by apply Hc).
  - apply NoDup_cons in Hw as [_ Hw]. destruct (decide (p = k)) as [->|Hk]; rewrite !filter_cons; cbn [fst].
    + by rewrite !decide_False by (intros Hc; by apply Hc).
    + rewrite !decide_True by congruence. unfold letters, map_values in *. cbn. by apply Permutation_app_head, IH.
Qed.

Lemma drain_letters p n m : wf m -> let '(out, m') := drain p n m in wf m' /\ letters m ≡ₚ out ++ letters m'.
Proof.
  intros Hw. unfold drain. destruct (map_get p m) as [[|e q]|] eqn:Hg; [done| |done].
  set (all := e :: q) in *. pose proof (letters_split p all m Hw Hg) as Hs. rewrite <- (take_drop (Z.to_nat n) all) in Hs at 1.
  destruct (drop (Z.to_nat n) all) as [|x r] eqn:Hd.
  - split; [by apply wf_delete|]. by rewrite app_nil_r in Hs.
  - split; [by apply wf_set|]. rewrite set_letters by done. by rewrite app_assoc.
Qed.

(** ** Every delivery is accounted for *)

Definition dead (t : task) : bool := match t_phase t with Done r => enqueueToDoLQ r | _ => false end.

Definition one_outcome (r : DeliveryResult) : Prop :=
  (success r = true /\ circuitOpen r = false /\ enqueueToDoLQ r = false) \/
  (success r = false /\ circuitOpen r = true /\ enqueueToDoLQ r = false) \/
  (success r = false /\ circuitOpen r = false /\ enqueueToDoLQ r = true).

Section Invariant.
Context (o : options) (maxAttempts : Z) (number_text : number -> list ascii) (hmac : string -> list ascii -> list ascii).
Context (Hmax : 1 <= maxAttempts).

Notation turn_step := (take_turn o maxAttempts number_text hmac).

Definition task_ok (t : task) : Prop :=
  match t_phase t with
  | InFlight n => t_calls t = n /\ 1 <= n <= maxAttempts
  | Sleeping n => t_calls t = n /\ 1 <= n < maxAttempts
  | Done r => 0 <= t_calls t <= maxAttempts /\ one_outcome r
  end.

Definition letter_of (e : DlqEntry) : string * value := (targetUrl e, payload e).
Definition message_of (t : task) : string * value := (t_url t, t_body t).

Record accounted (w : world) : Prop := {
  acc_tasks : Forall task_ok (tasks w);
  acc_wf : wf (dlq w);
  acc_dlq : letter_of <$> (drained w ++ letters (dlq w)) ≡ₚ message_of <$> filter (fun t => dead t = true) (tasks w);
}.

(** Parts of the world a turn of a delivery leaves alone. *)
Definition same_store (w w' : world) : Prop :=
  dlq w' = dlq w /\ drained w' = drained w /\ tasks w' = tasks w /\ subscriptions w' = subscriptions w.

Lemma attempt_spec now n t w : t_calls t = n - 1 -> 1 <= n <= maxAttempts ->
  let '(t', w') := attempt o now n t w in same_store w w' /\ task_ok t' /\ dead t' = false /\ message_of t' = message_of t /\
    (t_phase t' = InFlight n \/ t_phase t' = Done circuit_open).
Proof.
  intros Hc Hn. unfold attempt. destruct (begin _ _ _) as [[] b]; (split; [done|]); (split; [|by auto]);
    unfold task_ok; cbn; try lia. split; [lia|]. right. by left.
Qed.

Lemma deliver_spec now t w : t_calls t = 0 ->
  let '(t', w') := deliver o maxAttempts now t w in same_store w w' /\ task_ok t' /\ dead t' = false /\ message_of t' = message_of t.
Proof.
  intros Hc. unfold deliver. destruct (getState _ _ _) as [st b]. case_bool_decide.
  - split; [done|]. split; [|done]. unfold task_ok. cbn. rewrite Hc. split; [lia|]. right. by left.
  - rewrite (proj2 (Z.ltb_ge _ _) Hmax).
    pose proof (attempt_spec now 1 t (with_breaker (t_provider t) b w)) as Ha. destruct (attempt _ _ _ _ _) as [t' w'].
    destruct Ha as (Hs & Ht & Hd & Hm & _); [lia|lia|]. done.
Qed.

Lemma settle_spec uuid now n r t w : t_calls t = n -> 1 <= n <= maxAttempts ->
  let '(t', w') := settle o maxAttempts uuid now n r t w in
    task_ok t' /\ message_of t' = message_of t /\ drained w' = drained w /\ tasks w' = tasks w /\
    (t_phase t' = Sleeping n \/ exists res, t_phase t' = Done res) /\
    if dead t' then exists e, letter_of e = message_of t /\ dlq w' = push e (dlq w) else dlq w' = dlq w.
Proof.
  intros Hc Hn. unfold settle. destruct (outcome_ok r).
  - split; [unfold task_ok; cbn; split; [lia|by left]|]. cbn. split_and!; try done. eauto.
  - destruct (getLabelValues _ _) as [st rs]. destruct (negb st && isRetryableFailure _ _ && (n <? maxAttempts)) eqn:Hr.
    + apply andb_true_iff in Hr as [_ Hr%Z.ltb_lt]. split; [unfold task_ok; cbn; lia|]. cbn. split_and!; try done. eauto.
    + split; [unfold task_ok; cbn; split; [lia|right; by right]|]. cbn. split_and!; try done; [eauto|exists {| providerId := "reputation-webhook"; deliveryId := uuid; targetUrl := t_url t; payload := t_body t; dlq_timestamp := now; attemptCount := n |}; done].
Qed.

Lemma start_spec now e w s : accounted w -> accounted (deliverToSubscription o maxAttempts number_text hmac now e w s).
Proof.
  intros [Ht Hw Hd]. unfold deliverToSubscription. set (t := Build_task _ _ _ _ _ _). pose proof (deliver_spec now t w eq_refl) as Hs.
  destruct (deliver _ _ _ _ _) as [t' w']. destruct Hs as ((E1 & E2 & E3 & E4) & Hok & Hdead & Hm).
  split; cbn; rewrite ?E1, ?E2, ?E3; [by apply Forall_app; split; [|constructor]|done|].
  rewrite filter_app, filter_cons, Hdead. rewrite decide_False by done. by rewrite app_nil_r.
Qed.

Lemma dead_insert (ts : list task) i t t' : ts !! i = Some t -> dead t = false ->
  message_of <$> filter (fun x => dead x = true) (<[i:=t']> ts) ≡ₚ
    message_of <$> filter (fun x => dead x = true) ts ++ (if dead t' then [t'] else []).
Proof.
  intros Hi Hd. rewrite (list_insert_alter ts i t'). revert i Hi. induction ts as [|x ts IH]; intros [|i] Hi; cbn in Hi; [done|done| |].
  - simplify_eq. cbn [alter list_alter]. rewrite !filter_cons. rewrite (decide_False (P := dead t = true)) by congruence.
    destruct (dead t') eqn:E'; [rewrite decide_True by done|rewrite decide_False by done]; rewrite fmap_app; cbn; [|by rewrite app_nil_r].
    by rewrite Permutation_app_comm.
  - cbn [alter list_alter]. rewrite !filter_cons. destruct (decide (dead x = true)); cbn [fmap list_fmap app]; rewrite (IH i Hi); done.
Qed.

Lemma settled_accounted w i t t' w' :
  accounted w -> tasks w !! i = Some t -> dead t = false -> task_ok t' -> message_of t' = message_of t ->
  drained w' = drained w -> tasks w' = tasks w ->
  (if dead t' then exists e, letter_of e = message_of t /\ dlq w' = push e (dlq w) else dlq w' = dlq w) ->
  accounted (with_tasks (<[i:=t']> (tasks w')) w').
Proof.
  intros [Ht Hw Hd] Hi Hnd Hok Hm Hdr Hts Hdlq. split; cbn [tasks dlq drained with_tasks]; rewrite ?Hts; [by apply Forall_insert| |].
  - destruct (dead t'); [destruct Hdlq as (e & _ & ->); by apply push_wf|by rewrite Hdlq].
  - rewrite (dead_insert _ _ _ t' Hi Hnd), Hdr, (fmap_app message_of), <- Hd. destruct (dead t').
    + destruct Hdlq as (e & He & ->). rewrite push_letters, app_assoc, (fmap_app letter_of (_ ++ _)). cbn. by rewrite He, Hm.
    + by rewrite Hdlq, app_nil_r.
Qed.

Lemma turn_accounted x w : accounted w -> accounted (turn_step x w).
Proof.
  intros Hacc. destruct x as [now e|i uuid now r|i now|uuid s|i|p count|p now]; cbn [take_turn].
  - unfold emitEvent. destruct (negb _); [done|]. cbn [snd].
    generalize (findMatchingSubscriptions e (subscriptions w)) as l. intros l. revert w Hacc. induction l as [|s l IH]; intros w Hacc; [done|].
    cbn [foldl]. apply IH. by apply start_spec.
  - destruct (tasks w !! i) as [t|] eqn:Hi; [|done]. destruct (t_phase t) as [n|n|res] eqn:Hp; try done.
    pose proof (proj1 (Forall_lookup _ _) (acc_tasks w Hacc) _ _ Hi) as Hok. unfold task_ok in Hok. rewrite Hp in Hok.
    pose proof (settle_spec uuid now n r t w (proj1 Hok) (proj2 Hok)) as Hs. destruct (settle _ _ _ _ _ _ _ _) as [t' w'].
    destruct Hs as (H1 & H2 & H3 & H4 & _ & H5). eapply settled_accounted; try done. unfold dead. by rewrite Hp.
  - destruct (tasks w !! i) as [t|] eqn:Hi; [|done]. destruct (t_phase t) as [n|n|res] eqn:Hp; try done.
    pose proof (proj1 (Forall_lookup _ _) (acc_tasks w Hacc) _ _ Hi) as Hok. unfold task_ok in Hok. rewrite Hp in Hok.
    pose proof (attempt_spec now (n + 1) t w ltac:(lia) ltac:(lia)) as Hs. destruct (attempt _ _ _ _ _) as [t' w'].
    destruct Hs as ((E1 & E2 & E3 & E4) & H1 & H2 & H3 & _). eapply settled_accounted; try done; [unfold dead; by rewrite Hp|by rewrite H2].
  - by destruct Hacc.
  - by destruct Hacc.
  - destruct Hacc as [Ht Hw Hd]. pose proof (drain_letters p count (dlq w) Hw) as Hl. destruct (drain p count (dlq w)) as [out d].
    destruct Hl as [Hw' Hl]. split; cbn; [done|done|]. rewrite <- Hd, Hl. by rewrite <- app_assoc.
  - destruct (map_get _ _); [|done]. by destruct Hacc.
Qed.


(** ** Every delivery ends *)

Definition rank (t : task) : Z :=
  match t_phase t with InFlight n => 2 * (maxAttempts - n) + 2 | Sleeping n => 2 * (maxAttempts - n) + 1 | Done _ => 0 end.

Definition total_rank (w : world) : Z := foldr Z.add 0 (rank <$> tasks w).

(** A turn of a delivery that is due. *)
Definition due (x : turn) (w : world) : bool :=
  match x with
  | TSettle i _ _ _ => match tasks w !! i with Some t => match t_phase t with InFlight _ => true | _ => false end | None => false end
  | TWake i _ => match tasks w !! i with Some t => match t_phase t with Sleeping _ => true | _ => false end | None => false end
  | _ => false
  end.

Fixpoint all_due (xs : list turn) (w : world) : bool :=
  match xs with [] => true | x :: xs' => due x w && all_due xs' (turn_step x w) end.

Lemma rank_nonneg t : task_ok t -> 0 <= rank t.
Proof. unfold task_ok, rank. destruct (t_phase t); lia. Qed.

Lemma total_insert (ts : list task) i t t' : ts !! i = Some t ->
  foldr Z.add 0 (rank <$> <[i:=t']> ts) = foldr Z.add 0 (rank <$> ts) - rank t + rank t'.
Proof.
  revert i. induction ts as [|x ts IH]; intros [|i] Hi; try done.
  - injection Hi as ->. change (<[0%nat:=t']> (t :: ts)) with (t' :: ts). cbn [fmap list_fmap foldr]. lia.
  - change (<[S i:=t']> (x :: ts)) with (x :: <[i:=t']> ts). cbn [fmap list_fmap foldr]. rewrite (IH i Hi). lia.
Qed.

Lemma due_decreases x w : accounted w -> due x w = true -> total_rank (turn_step x w) < total_rank w.
Proof.
  intros Hacc. destruct x as [| i uuid now r | i now | | | |]; cbn [due take_turn]; try done.
  - destruct (tasks w !! i) as [t|] eqn:Hi; [|done]. destruct (t_phase t) as [n|n|res] eqn:Hp; try done. intros _.
    pose proof (proj1 (Forall_lookup _ _) (acc_tasks w Hacc) _ _ Hi) as Hok. unfold task_ok in Hok. rewrite Hp in Hok.
    pose proof (settle_spec uuid now n r t w (proj1 Hok) (proj2 Hok)) as Hs. destruct (settle _ _ _ _ _ _ _ _) as [t' w'].
    destruct Hs as (_ & _ & _ & Hts & Hph & _). unfold total_rank. cbn. rewrite Hts, (total_insert _ _ _ _ Hi).
    unfold rank. rewrite Hp. destruct Hph as [->|[res ->]]; lia.
  - destruct (tasks w !! i) as [t|] eqn:Hi; [|done]. destruct (t_phase t) as [n|n|res] eqn:Hp; try done. intros _.
    pose proof (proj1 (Forall_lookup _ _) (acc_tasks w Hacc) _ _ Hi) as Hok. unfold task_ok in Hok. rewrite Hp in Hok.
    pose proof (attempt_spec now (n + 1) t w ltac:(lia) ltac:(lia)) as Hs. destruct (attempt _ _ _ _ _) as [t' w'].
    destruct Hs as ((_ & _ & Hts & _) & _ & _ & _ & Hph). unfold total_rank. cbn. rewrite Hts, (total_insert _ _ _ _ Hi).
    unfold rank. rewrite Hp. destruct Hph as [->| ->]; lia.
Qed.

Lemma total_nonneg w : accounted w -> 0 <= total_rank w.
Proof.
  intros [Ht _ _]. unfold total_rank. induction Ht as [|t ts Hok _ IH]; [done|]. cbn. pose proof (rank_nonneg t Hok). lia.
Qed.

Lemma total_bound w : accounted w -> total_rank w <= 2 * maxAttempts * Z.of_nat (length (tasks w)).
Proof.
  intros [Ht _ _]. unfold total_rank. induction Ht as [|t ts Hok _ IH]; [cbn; lia|]. cbn [fmap list_fmap foldr length].
  assert (rank t <= 2 * maxAttempts) by (unfold task_ok, rank in *; destruct (t_phase t); lia). nia.
Qed.

(** Every delivery ends.  From any world of accounted deliveries, a schedule of
    due turns has at most two turns per allowed call and delivery, and while a
    delivery has not ended a turn of it is due. *)
Theorem deliveries_end xs w :
  accounted w -> all_due xs w = true ->
  Z.of_nat (length xs) <= 2 * maxAttempts * Z.of_nat (length (tasks w)) /\
  forall i t, tasks w !! i = Some t -> (exists r, t_phase t = Done r) \/ exists x, due x w = true.
Proof.
  intros Hacc Hdue. split.
  - enough (Z.of_nat (length xs) <= total_rank w) by (pose proof (total_bound w Hacc); lia).
    revert w Hacc Hdue. induction xs as [|x xs IH]; intros w Hacc Hdue; [by apply total_nonneg|]. cbn in Hdue.
    apply andb_true_iff in Hdue as [Hx Hxs]. pose proof (due_decreases x w Hacc Hx). specialize (IH _ (turn_accounted x w Hacc) Hxs).
    cbn [length]. lia.
  - intros i t Hi. destruct (t_phase t) as [n|n|r] eqn:Hp; [right|right|left; eauto].
    + exists (TSettle i "" 0 (Thrown None)). cbn. by rewrite Hi, Hp.
    + exists (TWake i 0). cbn. by rewrite Hi, Hp.
Qed.

(** ** The shared breaker *)

Definition provider : string := sanitizeProvider "reputation-webhook".

(** The circuit is open, and stays so at [now]. *)
Definition is_open (now : Z) (w : world) : Prop := (getState o now (getOrCreateBreaker provider w)).1 = OPEN.

Lemma open_stays now b : (getState o now b).1 = OPEN -> (getState o now (getState o now b).2).1 = OPEN.
Proof.
  unfold getState, transitionIfNeeded. cbn [fst snd]. destruct b as [[] fc sc [t|] pf]; cbn; try done. case_bool_decide as H; [done|]. cbn.
  by rewrite bool_decide_eq_false_2.
Qed.

(** While the circuit is open an event is lost.  Every matching subscription
    shares one breaker; if it is open, each gets a delivery that has already ended,
    with no call made and nothing dead-lettered. *)
Theorem open_circuit_loses_events now e w :
  is_open now w -> validatePayloadSize number_text (event_value e) = true ->
  let w' := (emitEvent o maxAttempts number_text hmac now e w).2 in
  dlq w' = dlq w /\
  exists ts, tasks w' = tasks w ++ ts /\ t_subscription <$> ts = (findMatchingSubscriptions e (subscriptions w)).*1 /\
    Forall (fun t => t_calls t = 0 /\ t_phase t = Done circuit_open) ts.
Proof.
  intros Ho Hv. unfold emitEvent. rewrite Hv. cbn [negb snd]. generalize (findMatchingSubscriptions e (subscriptions w)) as l. intros l.
  revert w Ho. induction l as [|s l IH]; intros w Ho; cbn [foldl fmap list_fmap].
  { split; [done|]. exists []. by rewrite app_nil_r. }
  unfold deliverToSubscription at 2 4. cbn zeta. unfold deliver. cbn [t_provider]. fold provider.
  unfold is_open in Ho. destruct (getState o now (getOrCreateBreaker provider w)) as [st b] eqn:Hg. cbn in Ho. subst st.
  rewrite bool_decide_eq_true_2 by done.
  set (t' := set_phase _ _ _). set (w1 := with_tasks _ _).
  destruct (IH w1) as (Hd & ts & Hts & Hn & Hf).
  { unfold is_open, w1, getOrCreateBreaker. cbn. rewrite map_get_set_eq. cbn [from_option].
    pose proof (open_stays now (getOrCreateBreaker provider w)) as Hx. rewrite Hg in Hx. by apply Hx. }
  split; [done|]. exists (t' :: ts). split_and!.
  - rewrite Hts. unfold w1. cbn. by rewrite <- app_assoc.
  - cbn. by rewrite Hn.
  - by constructor.
Qed.

End Invariant.
(** ** The signature *)

Section Signature.
Context (number_text : number -> list ascii) (hmac : string -> list ascii -> list ascii).
Context (hmac_digest : forall k m, digest (hmac k m)) (Hnum : writes_numbers number_text).

(** What is sent is not what was signed: its timestamp is a number. *)
Lemma body_is_not_event e s : Json.stringify number_text (delivered_body e s) <> Json.stringify number_text (event_value e).
Proof. intros E. apply (stringify_read_inj number_text Hnum) in E. cbn in E. simplify_eq. Qed.

Lemma canonical_inj v w n : is_Some (Json.stringify number_text v) -> is_Some (Json.stringify number_text w) ->
  canonical number_text v n = canonical number_text w n -> Json.stringify number_text v = Json.stringify number_text w.
Proof.
  unfold canonical. intros [a ->] [b ->] E. apply app_inv_head in E. by injection E as ->.
Qed.

(** A receiver that checks the signature of a delivery against the body it
    received, as the documentation has it, accepts only if the HMAC collides: the
    signature was made over the event before the signature and the time of signing
    were put into the body. *)
Theorem delivered_signature_fails e k t now maxAge :
  let sg := createWebhookSignature number_text hmac (event_value e) k t in
  verifyWebhookSignature number_text hmac (delivered_body e sg)
    (VString (String.string_of_list_ascii (chars "sha256=" ++ signature sg))) (VNumber (of_int (timestamp sg))) (VString k) now maxAge = VALID ->
  exists m1 m2, m1 <> m2 /\ hmac k m1 = hmac k m2.
Proof.
  intros sg Hv. destruct (verification_sound number_text hmac hmac_digest _ _ _ _ _ _ Hv) as (k' & t' & [= <-] & _ & [= <-] & _ & _ & _ & Hn).
  rewrite header_normal in Hn by apply hmac_digest. injection Hn as Hn.
  exists (canonical number_text (event_value e) (of_int t)), (canonical number_text (delivered_body e sg) (of_int t)).
  split; [|exact Hn]. intros E. apply (body_is_not_event e sg). symmetry. revert E. apply canonical_inj; by eexists.
Qed.
End Signature.

(** ** Witnesses and examples *)

Definition demo_event : ReputationWebhookEvent :=
  createRatingCreatedEvent "e1" "2026-01-02T00:00:00.000Z" "bob" "ann" (of_int 5) "k1" "r1" (of_int 5) (of_int 1) (of_int 5) "exp-decay-v1" None.

Definition demo_sub (i url : string) : ReputationWebhookSubscription :=
  {| subscriberId := i; webhookUrl := url; secret := "s"; eventTypes := []; targetFilter := None |}.

Definition demo_options : options := {| failureThreshold := 5; successThreshold := 1; timeout := 60000 |}.

Notation run_demo := (run_turns demo_options 5 binary_text sample_hmac).

(** One subscriber keeps failing until the breaker opens: its event is dead-lettered. *)
Definition failing_turns : list turn :=
  [TSubscribe "" (demo_sub "a" "https://a"); TSubscribe "" (demo_sub "b" "https://b")] ++
  TEmit 1000 demo_event :: TSettle 1 "u" 1001 (Responded 200) ::
  [TSettle 0 "u" 1001 (Responded 500); TWake 0 2000; TSettle 0 "u" 2001 (Responded 500); TWake 0 3000; TSettle 0 "u" 3001 (Responded 500);
   TWake 0 4000; TSettle 0 "u" 4001 (Responded 500); TWake 0 5000; TSettle 0 "u1" 5001 (Responded 500)].

Definition failed_world : world := run_demo failing_turns empty_world.

Example failed_event_stored :
  (targetUrl <$> letters (dlq failed_world), (fun t => t_calls t) <$> tasks failed_world) = (["https://a"%string], [5; 1]).
Proof. vm_compute. reflexivity. Qed.


(** The second subscriber, whose endpoint works, misses the next event. *)
Lemma open_circuit_loses_events_witness :
  let w' := (emitEvent demo_options 5 binary_text sample_hmac 6000 demo_event failed_world).2 in
  dlq w' = dlq failed_world /\ length (tasks w') = 4%nat.
Proof.
  destruct (open_circuit_loses_events demo_options 5 binary_text sample_hmac 6000 demo_event failed_world) as (Hd & ts & Ht & Hn & _).
  - vm_compute. reflexivity.
  - vm_compute. reflexivity.
  - split; [exact Hd|]. rewrite Ht, length_app. apply (f_equal length) in Hn. rewrite length_fmap in Hn. rewrite Hn. vm_compute. reflexivity.
Defined.

Lemma deliveries_end_witness :
  let w := run_demo (take 3 failing_turns) empty_world in
  Z.of_nat (length (drop 3 failing_turns)) <= 2 * 5 * Z.of_nat (length (tasks w)).
Proof.
  apply (deliveries_end demo_options 5 binary_text sample_hmac ltac:(lia) (drop 3 failing_turns)).
  - split; [|vm_compute; repeat constructor; by apply not_elem_of_nil|vm_compute; reflexivity].
    vm_compute. repeat constructor; discriminate.
  - vm_compute. reflexivity.
Defined.

Lemma delivered_signature_fails_witness :
  exists m1 m2, m1 <> m2 /\ sample_hmac "s" m1 = sample_hmac "s" m2.
Proof.
  apply (delivered_signature_fails binary_text sample_hmac sample_hmac_digest binary_writes demo_event "s" 1000 (of_int 1000) (of_int 300000)).
  vm_compute. reflexivity.
Defined.

(** A thrown error without a code of its own, as fetch throws, is not retried. *)
Example uncoded_error_not_retried :
  (fun t => (t_calls t, dead t)) <$> tasks (run_demo [TSubscribe "" (demo_sub "a" "https://a"); TEmit 1000 demo_event; TSettle 0 "u" 1001 (Thrown None)] empty_world) = [(1, true)].
Proof. vm_compute. reflexivity. Qed.

(** Two subscriptions of one subscriber: the second replaces the first. *)
Example second_subscription_replaces :
  subscriptions (run_demo [TSubscribe "" (demo_sub "a" "https://x"); TSubscribe "" (demo_sub "a" "https://y")] empty_world) = [("a"%string, demo_sub "a" "https://y")].
Proof. vm_compute. reflexivity. Qed.
End RepWebhooks.
