(* ===== verification/Errors.v ===== *)
(** * Error responses: src/errors/appError.ts, src/errors/safeErrors.ts,
    src/middleware/errorHandlers.ts, src/utils/apiResponse.ts

    What a handler throws and what the client is told.  The classes of errors the
    terminal handler distinguishes are the constructors of [thrown]; patterns are
    searched for in the message as [RegExp.prototype.test] does. *)

From stdpp Require Import prelude strings.
From Stdlib Require Import ZArith Lia Ascii.
From S2P Require Import Prelude JsMap JsString Regex.
Open Scope Z_scope.

Module Errors.

(** ** Searching *)

(** Some prefix of the text matches. *)
Fixpoint prefix_match (r : regex) (l : list ascii) : bool :=
  nullable r || match l with [] => false | c :: l' => prefix_match (deriv c r) l' end.

Fixpoint search (r : regex) (l : list ascii) : bool :=
  prefix_match r l || match l with [] => false | _ :: l' => search r l' end.

Fixpoint literal (l : list ascii) : regex := match l with [] => Eps | c :: l' => Cat (Class (is_char c)) (literal l') end.
(** With the flag [i]. *)
Fixpoint literal_i (l : list ascii) : regex := match l with [] => Eps | c :: l' => Cat (Class (fun x => Ascii.eqb (lower_char c) (lower_char x))) (literal_i l') end.

Definition text (s : string) : regex := literal (chars s).
Definition text_i (s : string) : regex := literal_i (chars s).
Definition seq_of (l : list regex) : regex := foldr Cat Eps l.
Definition any_of (l : list regex) : regex := foldr Alt Empty l.

(** [.], [\s], [\S], [\d], [\w] *)
Definition dot : regex := Class (fun c => negb (Ascii.eqb c "010" || Ascii.eqb c "013")).
Definition space : regex := Class is_space.
Definition non_space : regex := Class (fun c => negb (is_space c)).
Definition digit : regex := Class is_digit.
Definition word_char (c : ascii) : bool := is_alpha c || is_digit c || Ascii.eqb c "_".

(** [\w{1,5}] *)
Definition extension : regex :=
  let w := Class word_char in let opt r := Alt Eps r in
  Cat w (opt (Cat w (opt (Cat w (opt (Cat w (opt w))))))).

Definition UNSAFE_PATTERNS : list regex :=
  [seq_of [text "at"; Plus space; Plus non_space; Plus space; text "("; Star dot; text ":"; Plus digit; text ":"; Plus digit; text ")"];
   seq_of [text "at"; Plus space; text "Object.<anonymous>"];
   seq_of [text "/"; Class (fun c => is_alpha c || Ascii.eqb c "_"); Star (Class (fun c => word_char c || Ascii.eqb c "-")); text "/"; Star dot;
           text "."; extension; text ":"];
   seq_of [Class (in_range 65 90); text ":\"; Star dot; text "."; extension];
   text "node_modules/";
   any_of [text "ECONNREFUSED"; text "ENOTFOUND"; text "ETIMEDOUT"];
   any_of [Cat (text_i "SELECT") space; Cat (text_i "INSERT") space; Cat (text_i "UPDATE") space; Cat (text_i "DELETE") space];
   any_of [text_i "password"; text_i "secret"; text_i "token"; text_i "apikey"]].

Definition containsUnsafeContent (message : string) : bool := existsb (fun p => search p (chars message)) UNSAFE_PATTERNS.

(** The dash of the rate-limit message is written as a hyphen here. *)
Definition SAFE_ERROR_MESSAGES : list (string * string) :=
  [("internal_error", "An unexpected error occurred"); ("invalid_json", "Malformed JSON payload"); ("validation_error", "Request validation failed");
   ("not_found", "The requested resource was not found"); ("unauthorized", "Authentication is required");
   ("forbidden", "You do not have permission to perform this action");
   ("dependency_unavailable", "A required service is temporarily unavailable");
   ("rate_limited", "Too many requests - please try again later");
   ("conflict", "The request conflicts with the current state"); ("ERR_CONFLICT", "The request conflicts with the current state");
   ("bad_request", "The request could not be processed"); ("ERR_MISSING_VERSION", "version field is required for updates");
   ("ERR_INVALID_VERSION", "version must be a non-negative integer");
   ("contract_metadata_mismatch", "Contract metadata does not match expected value"); ("payload_too_large", "Payload Too Large");
   ("unsupported_media_type", "Unsupported Media Type"); ("invalid_webhook_signature", "Webhook signature verification failed");
   ("response_contract_error", "An unexpected error occurred"); ("dispute_not_found", "The requested dispute was not found");
   ("invalid_state_transition", "The requested state transition is not allowed")]%string.

Definition safeMessageForCode (code : string) : string :=
  match map_get code SAFE_ERROR_MESSAGES with Some m => m | None => "An unexpected error occurred"%string end.

Definition sanitizeErrorMessage (message code : string) : string :=
  if containsUnsafeContent message then safeMessageForCode code else message.

(** ** Errors *)

Record AppError : Type := { statusCode : Z; code : string; message : string; expose : bool }.

Definition app (s : Z) (c m : string) : AppError := {| statusCode := s; code := c; message := m; expose := true |}.

Definition NotFoundError (m : string) : AppError := app 404 "not_found" m.
Definition UnauthorizedError (m : string) : AppError := app 401 "unauthorized" m.
Definition MissingVersionError : AppError := app 400 "ERR_MISSING_VERSION" "version field is required for updates".
Definition InvalidVersionError : AppError := app 400 "ERR_INVALID_VERSION" "version must be a non-negative integer".
Definition VersionConflictError : AppError := app 409 "ERR_CONFLICT" "Version conflict".
Definition ForbiddenError (m : string) : AppError := app 403 "forbidden" m.
Definition ConflictError (m : string) : AppError := app 409 "conflict" m.
Definition ContractMetadataMismatchError (m : string) : AppError :=
  {| statusCode := 400; code := "contract_metadata_mismatch"; message := m; expose := false |}.
Definition ResponseContractError (m : string) : AppError :=
  {| statusCode := 500; code := "response_contract_error"; message := m; expose := false |}.
Definition ValidationError (m : string) : AppError := app 422 "validation_error" m.

Record issue : Type := { i_path : list string; i_message : string; i_code : string }.

(** [Syntax]: a SyntaxError with a status, from the body parser. *)
Inductive thrown : Type :=
| App (e : AppError)
| Zod (issues : list issue)
| Syntax
| Plain (m : string)
| NotAnError.

Definition statusCodeFor (e : AppError) : Z := if (400 <=? statusCode e) && (statusCode e <=? 599) then statusCode e else 500.

Definition mapZodErrorToDetails (l : list issue) : list issue :=
  (fun i => {| i_path := i_path i; i_message := sanitizeErrorMessage (i_message i) "validation_error"; i_code := i_code i |}) <$> l.

Record ErrorPayload : Type := {
  p_code : string; p_message : string; p_requestId : string; p_correlationId : option string; p_details : option (list issue);
}.

Definition mapErrorToPayload (e : thrown) (requestId : string) (correlationId : option string) : Z * ErrorPayload :=
  match e with
  | App e =>
      (statusCodeFor e,
       {| p_code := code e; p_message := if expose e then sanitizeErrorMessage (message e) (code e) else safeMessageForCode (code e);
          p_requestId := requestId; p_correlationId := correlationId; p_details := None |})
  | Zod l =>
      (400, {| p_code := "validation_error"; p_message := safeMessageForCode "validation_error"; p_requestId := requestId;
               p_correlationId := correlationId; p_details := Some (mapZodErrorToDetails l) |})
  | _ =>
      (500, {| p_code := "internal_error"; p_message := safeMessageForCode "internal_error"; p_requestId := requestId;
               p_correlationId := correlationId; p_details := None |})
  end.

Definition isBodyParserSyntaxError (e : thrown) : bool := match e with Syntax => true | _ => false end.

Definition isCorsPolicyError (e : thrown) : bool :=
  match e with
  | App a => bool_decide (message a = "Not allowed by CORS policy"%string)
  | Plain m => bool_decide (m = "Not allowed by CORS policy"%string)
  | _ => false
  end.

(** What is logged. *)
Definition redactedErrorMessage (e : thrown) : string :=
  match e with
  | App a => if containsUnsafeContent (message a) then "[REDACTED]" else message a
  | Plain m => if containsUnsafeContent m then "[REDACTED]" else m
  | _ => "[REDACTED]"
  end.

Definition notFoundHandler : thrown := App (NotFoundError "The requested resource was not found").

(** The response, if one is still to be sent. *)
Definition errorHandler (headersSent : bool) (streamError : option thrown) (requestId correlationId : option string) (e : thrown) : option (Z * ErrorPayload) :=
  if headersSent then None
  else
    let e := default e streamError in
    let forPolicy :=
      if isBodyParserSyntaxError e then App (app 400 "invalid_json" "Malformed JSON payload")
      else if isCorsPolicyError e then App (app 403 "forbidden" "Origin not allowed by CORS policy")
      else e in
    Some (mapErrorToPayload forPolicy (default "unknown"%string requestId) correlationId).

(** ** Properties *)

(** The words of the policy are themselves safe. *)
Lemma safe_messages_safe : forallb (fun m => negb (containsUnsafeContent m.2)) SAFE_ERROR_MESSAGES = true.
Proof. vm_compute. reflexivity. Qed.

Lemma safeMessageForCode_safe c : containsUnsafeContent (safeMessageForCode c) = false.
Proof.
  unfold safeMessageForCode. destruct (map_get c SAFE_ERROR_MESSAGES) as [m|] eqn:Hm; [|vm_compute; reflexivity].
  apply map_get_elem_of, list_elem_of_In in Hm. pose proof safe_messages_safe as H. rewrite forallb_forall in H.
  by apply H, negb_true_iff in Hm.
Qed.

Lemma sanitize_safe m c : containsUnsafeContent (sanitizeErrorMessage m c) = false.
Proof.
  unfold sanitizeErrorMessage. destruct (containsUnsafeContent m) eqn:E; [apply safeMessageForCode_safe|done].
Qed.


Example unsafe_examples :
  containsUnsafeContent <$> ["at foo (/src/a.ts:1:2)"; "cannot open /src/db.ts:12"; "C:\x\y.ts"; "select * from users"; "Token expired"; "Version conflict"]%string =
  [true; true; true; true; true; false].
Proof. vm_compute. reflexivity. Qed.

(** A message of the application itself is withheld when it names a token. *)
Example own_message_withheld :
  p_message (mapErrorToPayload (App (UnauthorizedError "Refresh token has expired")) "r" None).2 = "Authentication is required"%string.
Proof. vm_compute. reflexivity. Qed.
End Errors.
