(* ===== verification/ContractsApi.v ===== *)
(** * The contracts API: src/routes/contracts.routes.ts,
    src/controllers/contracts.controller.ts, src/middleware/contractIdempotency.ts,
    src/middleware/validate.middleware.ts, src/modules/contracts/

    A route is the chain of its middleware and its handler, run to completion on one
    request; what the terminal error handler answers is part of it.  Zod schemas are
    parameters, with the documented behaviour the routes depend on: the result of an
    object schema has only the declared keys.  The verdict of the rate limiter and
    the identifiers and instants a request observes come with the request. *)

From stdpp Require Import prelude gmap strings sorting.
From Stdlib Require Import ZArith Lia Ascii.
From S2P Require Import Prelude JsMap JsValue JsString Regex SoftDelete Bounds Cursor Keyset Contracts SqliteContracts ContractsService Json Authorization Idempotency Errors.
Open Scope Z_scope.

Module ContractsApi.
Import Keyset.
Import Contracts.
Import Service.

(** ** Requests and replies *)

Definition params : Type := list (string * string).

(** [req.params] and [req.query] are [None] once a validator has replaced them by undefined. *)
Record request : Type := {
  r_limited : bool;                  (* the rate limiter refuses *)
  r_auth : option string;
  r_idempotencyKey : option string;
  r_params : option params;
  r_limit : Cursor.raw_limit;
  r_cursor : Cursor.raw_query;
  r_includeDeleted : option string;
  r_body : value;
  r_uuid : string; r_now_iso : string; r_now : Z;
}.

(** One entry of the answer to a bulk request: its data when it succeeded, else the code of its error. *)
Record item_result : Type := { i_index : nat; i_code : Z; i_data : option Contract; i_error : string }.

Inductive reply_body : Type :=
| BContract (c : Contract)
| BPage (items : list Contract) (lim : Z) (next : option string) (more : bool)
| BStats (s : stats)
| BBounds (milestones : nat) (amount : number)
| BDeleted
| BReached (contractId : string)     (* a milestone handler, with the contract it acts on *)
| BBulk (results : list item_result) (total succeeded failed : nat)
| BError (code : string).

Record reply : Type := { status_of : Z; body_of : reply_body }.

Definition ok (st : Z) (b : reply_body) : reply := {| status_of := st; body_of := b |}.
Definition fail (code : string) (st : Z) : reply := {| status_of := st; body_of := BError code |}.

(** [next(error)], as the terminal handler answers it. *)
Definition next_error (e : Errors.thrown) : reply :=
  let '(st, p) := Errors.mapErrorToPayload e "" None in fail (Errors.p_code p) st.

(** What the service throws, by class. *)
Definition thrown_of (e : svc_error) : Errors.thrown :=
  match e with
  | RepoError (NotFoundError i) => Errors.App (Errors.NotFoundError ("Contract with id " +:+ i +:+ " not found"))
  | RepoError VersionConflictError => Errors.App Errors.VersionConflictError
  | RepoError _ => Errors.Plain "repository"
  | ContractBoundsError _ => Errors.Plain "bounds"
  | MissingVersionError => Errors.App Errors.MissingVersionError
  | InvalidVersionError => Errors.App Errors.InvalidVersionError
  | EmptyUpdate => Errors.Plain "At least one field must be provided for an update."
  end.

(** ** The response schema *)

Definition is_nan (n : number) : bool := match n with NaN => true | _ => false end.

(** [contractResponseSchema] on the fields that can violate it. *)
Definition contractResponseSchema (c : Contract) : bool :=
  negb (bool_decide (id c = EmptyString)) && negb (is_nan (amount c)) && bool_decide (status c ∈ VALID_CONTRACT_STATUSES).

Definition toContractResponseDto (c : Contract) : result Errors.thrown Contract :=
  if contractResponseSchema c then Ok c else Err (Errors.App (Errors.ResponseContractError "Contract response failed schema validation")).

Fixpoint map_dto (l : list Contract) : result Errors.thrown (list Contract) :=
  match l with
  | [] => Ok []
  | c :: l' => match toContractResponseDto c with
               | Err e => Err e
               | Ok d => match map_dto l' with Err e => Err e | Ok ds => Ok (d :: ds) end
               end
  end.

Definition reply_contract (st : Z) (c : Contract) : reply :=
  match toContractResponseDto c with Ok d => ok st (BContract d) | Err e => next_error e end.

Section Api.
Context {S : Type} `{!ContractRepo S}.
Context (milestonesEnabled : bool) (env : option string) (date_parses : string -> bool).
Context (jwt_verify : string -> result Authz.jwt_error Authz.JwtPayload).
Context (sha256 : string -> string) (number_text : number -> list ascii).

(** The schemas: of the parameters and of the query (accepting or not), and of the bodies. *)
Context (query_ok : request -> bool) (parse_create : value -> option CreateContractDto) (parse_update : value -> option UpdateContractDto).

Notation st := (svc S).

(** ** Handlers *)

Definition getContracts (r : request) (s : st) : reply :=
  match Cursor.parseLimit (r_limit r) with
  | Err _ => fail "bad_request" 400
  | Ok lim =>
      match Cursor.resolveCursorQueryParam date_parses (r_cursor r) with
      | Err _ => fail "bad_request" 400
      | Ok cur =>
          match getContractsPage date_parses (Cursor.LNumber lim) cur (bool_decide (r_includeDeleted r = Some "true"%string)) s with
          | Err _ => next_error (Errors.Plain "page")
          | Ok p => match map_dto (data p) with
                    | Ok items => ok 200 (BPage items (limit p) (nextCursor p) (hasNextPage p))
                    | Err e => next_error e
                    end
          end
      end
  end.

Definition param (k : string) (r : request) : option string := r_params r ≫= map_get k.

Definition getContractById_handler (r : request) (s : st) : reply :=
  match getContractById (default EmptyString (param "id" r)) (bool_decide (r_includeDeleted r = Some "true"%string)) s with
  | Some c => reply_contract 200 c
  | None => next_error (Errors.App (Errors.NotFoundError "The requested resource was not found"))
  end.

Definition bounds_or_next (e : svc_error) : reply :=
  match e with ContractBoundsError _ => fail "contract_bounds_error" 422 | _ => next_error (thrown_of e) end.

Definition createContract_handler (dto : CreateContractDto) (r : request) (s : st) : reply * st :=
  match createContract milestonesEnabled (r_uuid r) (r_now_iso r) dto s with
  | (Ok c, s') => (reply_contract 201 c, s')
  | (Err e, s') => (bounds_or_next e, s')
  end.

Definition updateContract_handler (dto : UpdateContractDto) (r : request) (s : st) : reply * st :=
  match updateContract milestonesEnabled (default EmptyString (param "id" r)) dto s with
  | (Ok c, s') => (reply_contract 200 c, s')
  | (Err e, s') => (bounds_or_next e, s')
  end.

Definition deleteContract_handler (r : request) (s : st) : reply * st :=
  match deleteContract (default EmptyString (param "id" r)) (r_now r) s with
  | (Ok _, s') => (ok 200 BDeleted, s')
  | (Err e, s') => (next_error (thrown_of e), s')
  end.

Definition restoreContract_handler (r : request) (s : st) : reply * st :=
  match restoreContract env (default EmptyString (param "id" r)) (r_now r) s with
  | (Ok c, s') => (reply_contract 200 c, s')
  | (Err (RepoError (SoftDeleteRetentionError _ _)), s') => (fail "soft_delete_retention_expired" 410, s')
  | (Err e, s') => (next_error (thrown_of e), s')
  end.

Definition getContractStats_handler (s : st) : reply := ok 200 (BStats (getContractStats s)).

Definition getBounds_handler : reply := ok 200 (BBounds MAX_MILESTONES_PER_CONTRACT MAX_CONTRACT_AMOUNT_STROOPS).

(** ** Middleware *)

Definition validateContractId (r : request) : bool :=
  match param "id" r with Some i => negb (bool_decide (i = EmptyString)) && (String.length i <=? 128)%nat | None => false end.

(** [repo.findById(req.params?.id ?? "")]: live contracts only. *)
Definition getContractOwnerId (r : request) (s : st) : option string :=
  clientId <$> findById (default EmptyString (param "id" r)) false (repo s).

Definition refusal (h : Authz.http) : reply :=
  match h with
  | Authz.Status401 _ => fail "unauthorized" 401
  | Authz.Status403 => fail "forbidden" 403
  | Authz.Status404 => fail "not_found" 404
  | _ => fail "internal_error" 500
  end.

(** [validateUpdateContract]: the error it passes on, or the parsed body. *)
Definition validateUpdateContract (body : value) : result Errors.thrown UpdateContractDto :=
  match body with
  | VObject fields =>
      if negb (map_has "version"%string fields) then Err (Errors.App Errors.MissingVersionError)
      else match field_of "version" fields with
           | VNumber n => match to_int n with
                          | Some z => if z <? 0 then Err (Errors.App Errors.InvalidVersionError)
                                      else match parse_update body with Some d => Ok d | None => Err (Errors.Zod []) end
                          | None => Err (Errors.App Errors.InvalidVersionError)
                          end
           | _ => Err (Errors.App Errors.InvalidVersionError)
           end
  | VArray _ => Err (Errors.App Errors.MissingVersionError)
  | _ => Err (Errors.Plain "in")
  end.

(** ** Idempotency keys *)

(** The process-wide store of answers, Idempotency's; it keeps a record for an hour and
    at most ten thousand of them. *)
Notation records := (list (string * Idempotency.IdempotencyRecord reply)).
Definition maxSize : Z := 10000.

Record api : Type := { service : st; keys : records }.

(** [${userScopeId}:${idempotencyKey.trim()}] *)
Definition buildScopedKey (user key : string) : string := sha256 (user +:+ ":" +:+ trim key).

(** The order of the sorted property names is that of code units. *)
#[local] Instance name_le_dec : RelDecision (fun a b : string * list ascii => String.le a.1 b.1) := fun a b => _ : Decision (String.le a.1 b.1).

Fixpoint stableJsonStringify (v : value) : list ascii :=
  match v with
  | VArray vs => "["%char :: Json.join ","%char (map stableJsonStringify vs) ++ ["]"%char]
  | VObject fields =>
      let parts := map (fun f => (f.1, stableJsonStringify f.2)) fields in
      "{"%char :: Json.join ","%char (map (fun p => Json.quote p.1 ++ ":"%char :: p.2)
        (merge_sort (fun a b : string * list ascii => String.le a.1 b.1) parts)) ++ ["}"%char]
  | _ => default (chars "undefined") (Json.stringify number_text v)
  end.

Definition computePayloadHash (body : value) : string := sha256 (String.string_of_list_ascii (stableJsonStringify body)).

Inductive idempotency : Type := Answer (r : reply) | Execute (key hash : string).

(** When the request arrives. *)
Definition idempotency_receive (r : request) (user : string) (m : records) : idempotency * records :=
  match r_idempotencyKey r with
  | None => (Answer (fail "bad_request" 400), m)
  | Some k =>
      if bool_decide (trim k = EmptyString) then (Answer (fail "bad_request" 400), m)
      else
        let key := buildScopedKey user k in
        let hash := computePayloadHash (r_body r) in
        let '(found, m') := Idempotency.store_get (r_now r) key m in
        match found with
        | Some e => (if bool_decide (Idempotency.payloadHash e = chars hash) then Answer (Idempotency.answer e) else Answer (fail "conflict" 409), m')
        | None => (Execute key hash, m')
        end
  end.

(** When the response is sent. *)
Definition idempotency_store (now : Z) (key hash : string) (a : reply) (m : records) : records :=
  Idempotency.store_set Idempotency.DEFAULT_TTL_MS maxSize now key (chars hash) a now None m.

Definition with_idempotency (r : request) (user : string) (h : st -> reply * st) (w : api) : reply * api :=
  match idempotency_receive r user (keys w) with
  | (Answer a, m) => (a, {| service := service w; keys := m |})
  | (Execute key hash, m) =>
      let '(a, s') := h (service w) in
      (a, {| service := s'; keys := idempotency_store (r_now r) key hash a m |})
  end.

(** ** Routes *)

(** requireAuth and requirePermission, then the rest. *)
Definition guarded (action : string) (owner : option (option string)) (r : request) (k : Authz.User -> api -> reply * api) (w : api) : reply * api :=
  match Authz.protected jwt_verify (r_auth r) "contracts" action (Ok <$> owner) with
  | Authz.Proceed u => k u w
  | h => (refusal h, w)
  end.

Definition plain (h : st -> reply * st) (w : api) : reply * api :=
  let '(a, s') := h (service w) in (a, {| service := s'; keys := keys w |}).

Inductive route : Type :=
| GetBounds | GetStats | ListContracts | GetContract | CreateContract | PatchContract | RestoreContract | DeleteContract
| ListMilestones | CreateMilestone | RestoreMilestone | DeleteMilestone.

(** [validateSchema(z.object({ key: schema }))]: the parts of the request it did not
    declare become undefined. *)
Inductive part : Type := Body | Query | Params.

Definition validateSchema (declared : part) (accepted : request -> option request) (r : request) : option request :=
  match accepted r with
  | None => None
  | Some r' => Some {| r_limited := r_limited r'; r_auth := r_auth r'; r_idempotencyKey := r_idempotencyKey r';
                       r_params := match declared with Params => r_params r' | _ => None end;
                       r_limit := r_limit r'; r_cursor := r_cursor r'; r_includeDeleted := r_includeDeleted r';
                       r_body := match declared with Body => r_body r' | _ => VUndefined end;
                       r_uuid := r_uuid r'; r_now_iso := r_now_iso r'; r_now := r_now r' |}
  end.

(** The milestone schemas; that of the parameters declares milestoneId only. *)
Context (milestone_body milestone_query : request -> option request) (milestone_id_ok : request -> bool).

Definition milestone_params (r : request) : option request :=
  if milestone_id_ok r
  then Some {| r_limited := r_limited r; r_auth := r_auth r; r_idempotencyKey := r_idempotencyKey r;
               r_params := filter (fun p => p.1 = "milestoneId"%string) <$> r_params r;
               r_limit := r_limit r; r_cursor := r_cursor r; r_includeDeleted := r_includeDeleted r; r_body := r_body r;
               r_uuid := r_uuid r; r_now_iso := r_now_iso r; r_now := r_now r |}
  else None.

(** The handler of a milestone route is reached with this contract. *)
Definition reached (r : request) (s : st) : reply * st := (ok 200 (BReached (default EmptyString (param "id" r))), s).

Definition validation_error : reply := fail "validation_error" 400.

(** The routes, but for the bulk one, which is [bulk_route] of ContractsBulk. *)
Definition dispatch (x : route) (r : request) (w : api) : reply * api :=
  let s := service w in
  if r_limited r then (fail "rate_limited" 429, w)
  else match x with
  | GetBounds => guarded "read" None r (fun _ w => (getBounds_handler, w)) w
  | GetStats => guarded "list" None r (fun _ w => (getContractStats_handler (service w), w)) w
  | ListContracts => guarded "list" None r (fun _ w => (if query_ok r then getContracts r (service w) else validation_error, w)) w
  | GetContract =>
      if negb (validateContractId r) then (validation_error, w)
      else guarded "read" (Some (getContractOwnerId r s)) r (fun _ w => (getContractById_handler r (service w), w)) w
  | CreateContract =>
      guarded "create" None r (fun u =>
        with_idempotency r (Authz.id u) (fun s =>
          match parse_create (r_body r) with None => (validation_error, s) | Some dto => createContract_handler dto r s end)) w
  | PatchContract =>
      if negb (validateContractId r) then (validation_error, w)
      else guarded "update" (Some (getContractOwnerId r s)) r (fun u =>
        with_idempotency r (Authz.id u) (fun s =>
          match validateUpdateContract (r_body r) with Err e => (next_error e, s) | Ok dto => updateContract_handler dto r s end)) w
  | RestoreContract =>
      if negb (validateContractId r) then (validation_error, w)
      else guarded "update" (Some (getContractOwnerId r s)) r (fun _ => plain (restoreContract_handler r)) w
  | DeleteContract =>
      if negb (validateContractId r) then (validation_error, w)
      else guarded "delete" (Some (getContractOwnerId r s)) r (fun u => with_idempotency r (Authz.id u) (deleteContract_handler r)) w
  | ListMilestones =>
      if negb (validateContractId r) then (validation_error, w)
      else match validateSchema Query milestone_query r with
           | None => (validation_error, w)
           | Some r => guarded "read" (Some (getContractOwnerId r s)) r (fun _ => plain (reached r)) w
           end
  | CreateMilestone =>
      if negb (validateContractId r) then (validation_error, w)
      else match validateSchema Body milestone_body r with
           | None => (validation_error, w)
           | Some r =>
               match Authz.requireAuth jwt_verify (r_auth r) with
               | Authz.Proceed u => with_idempotency r (Authz.id u) (fun s =>
                   match Authz.requirePermission "contracts" "update" (Some (Ok (getContractOwnerId r s))) (Some u) with
                   | Authz.Proceed _ => reached r s
                   | h => (refusal h, s)
                   end) w
               | h => (refusal h, w)
               end
           end
  | RestoreMilestone | DeleteMilestone =>
      if negb (validateContractId r) then (validation_error, w)
      else match validateSchema Params milestone_params r with
           | None => (validation_error, w)
           | Some r =>
               match Authz.requireAuth jwt_verify (r_auth r) with
               | Authz.Proceed u => with_idempotency r (Authz.id u) (fun s =>
                   match Authz.requirePermission "contracts" "update" (Some (Ok (getContractOwnerId r s))) (Some u) with
                   | Authz.Proceed _ => reached r s
                   | h => (refusal h, s)
                   end) w
               | h => (refusal h, w)
               end
           end
  end.

(** ** What a request does to the contracts *)

Context `{!ContractRepoLaws S}.

Definition view_of (w : api) : store := view (repo (service w)).

Record api_ok (w : api) : Prop := {
  ok_repo : repo_ok (repo (service w));
  ok_stored : forall i c, view_of w !! i = Some c -> id c <> EmptyString /\ amount c <> NaN /\ status c ∈ VALID_CONTRACT_STATUSES;
  ok_empty : view_of w !! EmptyString = None;
}.

Definition fresh (r : request) (w : api) : Prop := r_uuid r <> EmptyString /\ view_of w !! r_uuid r = None.

Lemma response_valid c : id c <> EmptyString -> amount c <> NaN -> status c ∈ VALID_CONTRACT_STATUSES -> contractResponseSchema c = true.
Proof.
  intros Hi Ha Hs. unfold contractResponseSchema. rewrite bool_decide_eq_false_2, (bool_decide_eq_true_2 (_ ∈ _)) by done.
  destruct (amount c); done.
Qed.

Lemma reply_contract_status n c : n < 400 -> contractResponseSchema c = true -> status_of (reply_contract n c) = n.
Proof. intros Hn Hc. unfold reply_contract, toContractResponseDto. by rewrite Hc. Qed.

Lemma next_error_status e : 400 <= status_of (next_error e).
Proof.
  unfold next_error. destruct e; cbn; try lia. unfold Errors.statusCodeFor. destruct (_ && _) eqn:E; [|lia].
  apply andb_true_iff in E as [?%Z.leb_le _]. lia.
Qed.

Lemma bounds_or_next_status e : 400 <= status_of (bounds_or_next e).
Proof. destruct e; cbn [bounds_or_next]; try apply next_error_status. cbn. lia. Qed.

(** A handler does its work and answers below 400, or answers from 400 on and leaves
    the contracts alone; either way the contracts stay well formed. *)
Definition honest (w : api) (a : reply) (s' : st) : Prop :=
  let w' := {| service := s'; keys := keys w |} in
  api_ok w' /\ (400 <= status_of a -> view_of w' = view_of w).

Lemma unchanged_ok w s' : api_ok w -> repo_ok (repo s') -> view (repo s') = view_of w -> api_ok {| service := s'; keys := keys w |}.
Proof. intros [H1 H2 H3] Hr Hv. split; unfold view_of in *; cbn in *; rewrite ?Hv; done. Qed.

Lemma inserted_api_ok w s' i c :
  api_ok w -> repo_ok (repo s') -> view (repo s') = <[i:=c]> (view_of w) -> i <> EmptyString ->
  id c <> EmptyString -> amount c <> NaN -> status c ∈ VALID_CONTRACT_STATUSES -> api_ok {| service := s'; keys := keys w |}.
Proof.
  intros [H1 H2 H3] Hr Hv Hi Hid Ha Hs. split; unfold view_of in *; cbn in *; [done| |].
  - intros j d. rewrite Hv. intros [[_ <-]|[_ Hj]]%lookup_insert_Some; [done|by eapply H2].
  - rewrite Hv, lookup_insert_ne; done.
Qed.

Lemma delete_honest r w : api_ok w -> let '(a, s') := deleteContract_handler r (service w) in honest w a s'.
Proof.
  intros Hok. unfold deleteContract_handler, deleteContract, bind, lift_repo, throw_if, throw, ret.
  set (i := default EmptyString (param "id" r)). pose proof (delete_law i (r_now r) (repo (service w)) (ok_repo w Hok)) as L.
  destruct (delete _ _ _) as [[b|e] s1]; [|done]. destruct L as (Hr & L). unfold spec_find in L.
  destruct (view (repo (service w)) !! i) as [c|] eqn:Hi; unfold mbind, option_bind in L.
  - destruct (visible false c); destruct L as [-> Hv]; cbn.
    + destruct (ok_stored w Hok i c Hi) as (Hid & Ha & Hst).
      assert (Hne : i <> EmptyString).
      { intros E. pose proof (ok_empty w Hok) as He. unfold view_of in He. rewrite <- E, Hi in He. done. }
      split; [by eapply inserted_api_ok|]. cbn. lia.
    + split; [by apply unchanged_ok|]. intros _. unfold view_of. cbn. by rewrite Hv.
  - destruct L as [-> Hv]. cbn. split; [by apply unchanged_ok|]. intros _. unfold view_of. cbn. by rewrite Hv.
Qed.

(** ** Whole routes *)

Definition honest_api (w : api) (o : reply * api) : Prop := api_ok o.2 /\ (400 <= status_of o.1 -> view_of o.2 = view_of w).

Lemma same_service_ok w m : api_ok w -> api_ok {| service := service w; keys := m |}.
Proof. intros [H1 H2 H3]. by split. Qed.

Lemma honest_refl w a : api_ok w -> honest_api w (a, w).
Proof. by split. Qed.

Lemma honest_idempotency r user h w :
  api_ok w -> (let '(a, s') := h (service w) in honest w a s') -> honest_api w (with_idempotency r user h w).
Proof.
  intros Hok Hh. unfold with_idempotency. destruct (idempotency_receive r user (keys w)) as [[a|k hash] m].
  - split; [by apply same_service_ok|done].
  - destruct (h (service w)) as [a s']. destruct Hh as [H1 H2]. split; [|exact H2].
    exact (same_service_ok _ _ H1).
Qed.

Lemma honest_guarded action owner r k w :
  api_ok w -> (forall u, honest_api w (k u w)) -> honest_api w (guarded action owner r k w).
Proof. intros Hok Hk. unfold guarded. destruct (Authz.protected _ _ _ _ _); try apply Hk; by apply honest_refl. Qed.

Lemma honest_same w a : api_ok w -> honest w a (service w).
Proof. intros Hok. split; [by apply same_service_ok|done]. Qed.

(** Restoring finds no soft-deleted contract behind the check of its owner. *)
Lemma restore_behind_owner r w : api_ok w -> getContractOwnerId r (service w) <> None ->
  let '(a, s') := restoreContract_handler r (service w) in honest w a s' /\ view (repo s') = view_of w.
Proof.
  intros Hok Ho. unfold getContractOwnerId in Ho. rewrite findById_law in Ho by apply Hok.
  unfold restoreContract_handler, restoreContract, lift_repo. set (i := default EmptyString (param "id" r)) in *.
  pose proof (restore_law i (r_now r) (getRetentionDays env) (repo (service w)) (ok_repo w Hok)) as L.
  assert (Hlive : exists c, view (repo (service w)) !! i = Some c /\ deletedAt c = None).
  { unfold spec_find in Ho. destruct (view (repo (service w)) !! i) as [c|] eqn:Hi; [|done]. exists c. split; [done|].
    unfold mbind, option_bind, visible, isSoftDeleted in Ho. destruct (deletedAt c); done. }
  destruct Hlive as (c & Hi & Hd).
  destruct (restore _ _ _ _) as [[d|e] s1].
  - destruct L as (_ & Hs & _). unfold spec_restore in Hs. by rewrite Hi, Hd in Hs.
  - destruct L as (Hr & Hv & Hs).
    assert (Hx : forall a, honest w a {| repo := s1; prepared := prepared (service w) |} /\ view s1 = view_of w).
    { intros a. split; [|done]. split; [by apply unchanged_ok|]. intros _. exact Hv. }
    destruct e; apply Hx.
Qed.

Lemma guarded_owner action owner r k w :
  api_ok w -> (forall u, owner <> Some None -> honest_api w (k u w)) -> honest_api w (guarded action owner r k w).
Proof.
  intros Hok Hk. destruct owner as [[o|]|].
  - apply honest_guarded; [done|]. intros u. by apply Hk.
  - unfold guarded. destruct (Authz.protected _ _ _ _ _) as [u| | | |] eqn:Hp; try by apply honest_refl.
    unfold Authz.protected in Hp. destruct (Authz.requireAuth _ _); done.
  - apply honest_guarded; [done|]. intros u. by apply Hk.
Qed.

Lemma milestone_honest (r : request) u w :
  api_ok w -> honest_api w (with_idempotency r (Authz.id u) (fun s =>
    match Authz.requirePermission "contracts" "update" (Some (Ok (getContractOwnerId r s))) (Some u) with
    | Authz.Proceed _ => reached r s
    | h => (refusal h, s)
    end) w).
Proof. intros Hok. apply honest_idempotency; [done|]. destruct (Authz.requirePermission _ _ _ _); by apply honest_same. Qed.

(** ** Routes that cannot do their work *)

Lemma restore_route_view r w : api_ok w ->
  view_of (guarded "update" (Some (getContractOwnerId r (service w))) r (fun _ => plain (restoreContract_handler r)) w).2 = view_of w.
Proof.
  intros Hok. unfold guarded. destruct (Authz.protected _ _ _ _ _) as [u| | | |] eqn:Hp; try done.
  assert (Ho : getContractOwnerId r (service w) <> None).
  { intros E. unfold Authz.protected in Hp. rewrite E in Hp. by destruct (Authz.requireAuth _ _). }
  unfold plain. pose proof (restore_behind_owner r w Hok Ho) as Hr. destruct (restoreContract_handler r (service w)) as [a s']. by destruct Hr.
Qed.

(** The restore route restores nothing.  Whoever asks, the contracts are
    unchanged, and for a soft-deleted contract an authenticated request is answered
    404: the owner of the contract is looked up among the live ones first. *)
Theorem restore_route_never_restores r w :
  api_ok w -> view_of (dispatch RestoreContract r w).2 = view_of w /\
  (forall c u, view_of w !! default EmptyString (param "id" r) = Some c -> deletedAt c <> None ->
     Authz.requireAuth jwt_verify (r_auth r) = Authz.Proceed u -> r_limited r = false -> validateContractId r = true ->
     status_of (dispatch RestoreContract r w).1 = 404).
Proof.
  intros Hok. split.
  - unfold dispatch. destruct (r_limited r); [done|]. cbv zeta. destruct (negb _); [done|]. by apply restore_route_view.
  - intros c u Hc Hd Ha Hl Hv. unfold dispatch. rewrite Hl, Hv. cbv zeta. cbn [negb]. unfold guarded, Authz.protected. rewrite Ha.
    assert (Ho : getContractOwnerId r (service w) = None).
    { unfold getContractOwnerId. rewrite findById_law by apply Hok. unfold spec_find. unfold view_of in Hc. rewrite Hc. cbn.
      unfold isSoftDeleted. by destruct (deletedAt c). }
    rewrite Ho. reflexivity.
Qed.

(** No stored answer comes from a milestone handler. *)
Definition none_reached (m : records) : Prop := forall k e, map_get k m = Some e -> forall i, body_of (Idempotency.answer e) <> BReached i.

Lemma lost_params_owner r w : api_ok w -> param "id" r = None -> getContractOwnerId r (service w) = None.
Proof.
  intros Hok Hp. unfold getContractOwnerId. rewrite Hp, findById_law by apply Hok. unfold spec_find. cbn.
  pose proof (ok_empty w Hok) as He. unfold view_of in He. by rewrite He.
Qed.

Lemma lost_params (p : part) f r r' : p <> Params -> validateSchema p f r = Some r' -> param "id" r' = None.
Proof. intros Hp. unfold validateSchema. destruct (f r); [|done]. intros [= <-]. by destruct p. Qed.

Lemma filtered_params r r' : validateSchema Params milestone_params r = Some r' -> param "id" r' = None.
Proof.
  unfold validateSchema, milestone_params. destruct (milestone_id_ok r); [|done]. intros [= <-]. unfold param. cbn.
  destruct (r_params r) as [ps|]; [|done]. cbn. apply map_get_None. intros (e & He & Hin)%list_elem_of_fmap.
  apply list_elem_of_filter in Hin as [Hk _]. rewrite Hk in He. done.
Qed.

Lemma refused_not_reached h i : body_of (refusal h) <> BReached i.
Proof. by destruct h. Qed.

Lemma milestone_not_reached r u w i : api_ok w -> none_reached (keys w) -> param "id" r = None ->
  body_of (with_idempotency r (Authz.id u) (fun s =>
    match Authz.requirePermission "contracts" "update" (Some (Ok (getContractOwnerId r s))) (Some u) with
    | Authz.Proceed _ => reached r s
    | h => (refusal h, s)
    end) w).1 <> BReached i.
Proof.
  intros Hok Hn Hp. unfold with_idempotency, idempotency_receive. destruct (r_idempotencyKey r) as [k|]; [|done]. case_bool_decide; [done|].
  unfold Idempotency.store_get. destruct (map_get _ (keys w)) as [e|] eqn:He.
  - destruct (Idempotency.expired _ _).
    + rewrite (lost_params_owner r w Hok Hp). done.
    + case_bool_decide; [|done]. by eapply Hn.
  - rewrite (lost_params_owner r w Hok Hp). done.
Qed.

(** The milestone routes never reach their handlers.  The validator before them
    replaces the parameters of the request, so the contract is looked up under the
    empty id and every request that gets that far is answered 404. *)
Theorem milestone_routes_unreachable x r w i :
  api_ok w -> none_reached (keys w) -> x ∈ [ListMilestones; CreateMilestone; RestoreMilestone; DeleteMilestone] ->
  body_of (dispatch x r w).1 <> BReached i.
Proof.
  intros Hok Hn Hx. unfold dispatch. destruct (r_limited r); [done|]. cbv zeta.
  rewrite !elem_of_cons in Hx. destruct Hx as [->|[->|[->|[->|Hx]]]]; [..|by apply not_elem_of_nil in Hx]; destruct (negb _); try done.
  - destruct (validateSchema _ _ _) as [r'|] eqn:Hr; [|done]. apply lost_params in Hr; [|done]. unfold guarded, Authz.protected.
    rewrite (lost_params_owner r' w Hok Hr). destruct (Authz.requireAuth _ _); apply refused_not_reached.
  - destruct (validateSchema _ _ _) as [r'|] eqn:Hr; [|done]. apply lost_params in Hr; [|done].
    destruct (Authz.requireAuth _ _); try apply refused_not_reached. by apply milestone_not_reached.
  - destruct (validateSchema _ _ _) as [r'|] eqn:Hr; [|done]. apply filtered_params in Hr.
    destruct (Authz.requireAuth _ _); try apply refused_not_reached. by apply milestone_not_reached.
  - destruct (validateSchema _ _ _) as [r'|] eqn:Hr; [|done]. apply filtered_params in Hr.
    destruct (Authz.requireAuth _ _); try apply refused_not_reached. by apply milestone_not_reached.
Qed.

(** ** Who may change what *)

(** The permission a route that writes contracts asks for. *)
Definition action_of (x : route) : string :=
  match x with CreateContract => "create" | PatchContract | RestoreContract => "update" | DeleteContract => "delete" | _ => "" end.

Lemma guarded_changes action owner r k w :
  view_of (guarded action owner r k w).2 <> view_of w ->
  exists u, Authz.protected jwt_verify (r_auth r) "contracts" action (Ok <$> owner) = Authz.Proceed u /\ view_of (k u w).2 <> view_of w.
Proof. unfold guarded. destruct (Authz.protected _ _ _ _ _) as [u| | | |]; try done. intros H. by exists u. Qed.

Lemma milestones_change_nothing (r : request) u w :
  view_of (with_idempotency r (Authz.id u) (fun s =>
    match Authz.requirePermission "contracts" "update" (Some (Ok (getContractOwnerId r s))) (Some u) with
    | Authz.Proceed _ => reached r s
    | h => (refusal h, s)
    end) w).2 = view_of w.
Proof. unfold with_idempotency. destruct (idempotency_receive _ _ _) as [[]]; [done|]. by destruct (Authz.requirePermission _ _ _ _). Qed.

Lemma writing_route x r w :
  view_of (dispatch x r w).2 <> view_of w ->
  exists u owner, Authz.protected jwt_verify (r_auth r) "contracts" (action_of x) (Ok <$> owner) = Authz.Proceed u /\
    (x = CreateContract /\ owner = None \/ x ∈ [PatchContract; RestoreContract; DeleteContract] /\ owner = Some (getContractOwnerId r (service w))).
Proof.
  unfold dispatch. destruct (r_limited r); [done|]. destruct x; cbv zeta; try destruct (negb _); try done; intros H;
    try (apply guarded_changes in H as (u & Hp & Hk); first
      [ exfalso; by apply Hk | exists u; eexists; split; [exact Hp|]; first [by left | right; split; [set_solver|done]]]).
  - destruct (validateSchema _ _ _) as [r'|]; [|done]. by apply guarded_changes in H as (u & _ & Hk).
  - destruct (validateSchema _ _ _) as [r'|]; [|done]. destruct (Authz.requireAuth _ _); try done. by rewrite milestones_change_nothing in H.
  - destruct (validateSchema _ _ _) as [r'|]; [|done]. destruct (Authz.requireAuth _ _); try done. by rewrite milestones_change_nothing in H.
  - destruct (validateSchema _ _ _) as [r'|]; [|done]. destruct (Authz.requireAuth _ _); try done. by rewrite milestones_change_nothing in H.
Qed.

(** C25: through the routes on single contracts, only its client or an administrator
    changes a contract.  If such a request changed the contracts, it carried a token the JWT library accepted, for a user with a
    role that may; deleting needs an administrator, and updating one or the client of
    the contract that the request names. *)
Theorem contract_writes_authorized x r w :
  api_ok w -> view_of (dispatch x r w).2 <> view_of w ->
  exists token payload u, Authz.extractBearerToken (r_auth r) = Some token /\ jwt_verify token = Ok payload /\
    Authz.sub payload = Some (Authz.id u) /\ Authz.claim_role payload = Some (Authz.role u) /\
    match x with
    | CreateContract => Authz.role u ∈ ["admin"; "client"]%string
    | PatchContract => Authz.role u = "admin"%string \/
        exists c, view_of w !! default EmptyString (param "id" r) = Some c /\ clientId c = Authz.id u
    | DeleteContract => Authz.role u = "admin"%string
    | _ => False
    end.
Proof.
  intros Hok H. assert (Hx : x <> RestoreContract).
  { intros ->. apply H. unfold dispatch. destruct (r_limited r); [done|]. cbv zeta. destruct (negb _); [done|]. by apply restore_route_view. }
  apply writing_route in H as (u & owner & Hp & Howner).
  apply Authz.protected_requires_grant in Hp as (token & payload & Ht & Hj & Hs & _ & Hr & _ & _ & Hrole & o & Hg & Ho).
  exists token, payload, u. split_and!; [done..|].
  apply Authz.isAuthorized_cell in Hg. unfold Authz.ALL_ROLES in Hrole. rewrite !elem_of_cons in Hrole.
  destruct Howner as [[-> ->]|[Hin ->]].
  { destruct Hrole as [E|[E|[E|[E|E]]]]; [..|by apply not_elem_of_nil in E]; rewrite E in Hg |- *; cbn in Hg; try done; set_solver. }
  destruct Ho as [[? _]|(o' & Ho & ->)]; [done|]. cbn in Ho. injection Ho as Ho.
  rewrite !elem_of_cons in Hin. destruct Hin as [->|[->|[->|Hin]]]; [|done| |by apply not_elem_of_nil in Hin].
  - assert (Hown : exists c, view_of w !! default EmptyString (param "id" r) = Some c /\ clientId c = o').
    { unfold getContractOwnerId in Ho. rewrite findById_law in Ho by apply Hok. unfold spec_find in Ho. unfold view_of.
      destruct (view (repo (service w)) !! _) as [c|]; [|done]. exists c. split; [done|]. unfold mbind, option_bind in Ho.
      destruct (visible false c); [|done]. by injection Ho. }
    destruct Hrole as [E|[E|[E|[E|E]]]]; [..|by apply not_elem_of_nil in E]; rewrite E in Hg; cbn in Hg; [by left|done|right|right];
      destruct Hg as [Hg|Hg]; try (by rewrite E in Hg); injection Hg as ->; done.
  - destruct Hrole as [E|[E|[E|[E|E]]]]; [..|by apply not_elem_of_nil in E]; rewrite E in Hg; cbn in Hg; done.
Qed.

(** A client or a freelancer can list nothing.  The matrix gives them the list
    and read permissions for their own contracts only, and these routes name no
    owner, so each such request is answered 403. *)
Theorem parties_cannot_list x r w u :
  x ∈ [GetBounds; GetStats; ListContracts] -> r_limited r = false ->
  Authz.requireAuth jwt_verify (r_auth r) = Authz.Proceed u -> Authz.role u ∈ ["client"; "freelancer"]%string ->
  dispatch x r w = (fail "forbidden" 403, w).
Proof.
  intros Hx Hl Ha Hr. assert (Hden : forall act, act ∈ ["read"; "list"]%string -> Authz.granted (Authz.isAuthorized u "contracts" act None) = false).
  { intros act Hact. apply not_true_iff_false. rewrite Authz.isAuthorized_cell. rewrite !elem_of_cons in Hact, Hr.
    destruct Hact as [->|[->|Hact]]; [| |by apply not_elem_of_nil in Hact];
      (destruct Hr as [E|[E|Hr]]; [| |by apply not_elem_of_nil in Hr]; rewrite E; cbn; intros [?|?]; done). }
  unfold dispatch. rewrite Hl. cbv zeta. rewrite !elem_of_cons in Hx.
  destruct Hx as [->|[->|[->|Hx]]]; [..|by apply not_elem_of_nil in Hx];
    unfold guarded, Authz.protected; rewrite Ha; cbn [fmap option_fmap option_map Authz.requirePermission]; rewrite Hden by set_solver; done.
Qed.

(** ** Failed requests *)

Section Bodies.
(** Documented facts on the body schemas: a number is not NaN, a status is one of the enumeration. *)
Context (create_budget : forall v d, parse_create v = Some d -> c_budget d <> NaN).
Context (update_budget : forall v d b, parse_update v = Some d -> u_budget d = Some b -> b <> NaN).
Context (update_status : forall v d x, parse_update v = Some d -> u_status d = Some x -> x ∈ VALID_CONTRACT_STATUSES).

Lemma create_honest v dto r w : api_ok w -> fresh r w -> parse_create v = Some dto ->
  let '(a, s') := createContract_handler dto r (service w) in honest w a s'.
Proof.
  intros Hok [Hu Hf] Hp. unfold createContract_handler, createContract, bounds_guard, lift_result, bind, lift_repo, prepareEscrow, ret.
  destruct (validateContractBounds _ _) as [[]|e]; [|split; [by destruct w|done]].
  destruct (check_budget _ _) as [[]|e]; [|split; [by destruct w|done]].
  pose proof (create_law (r_uuid r) (r_now_iso r) (create_input dto) (repo (service w)) (ok_repo w Hok) Hf) as L.
  destruct (create _ _ _ _) as [[c|e] s1]; cbn.
  - destruct L as (Hr & -> & Hst & Hv).
    assert (Hc : contractResponseSchema (new_contract (r_uuid r) (r_now_iso r) (create_input dto)) = true).
    { apply response_valid; [done| |done]. cbn. by eapply create_budget. }
    split.
    + eapply inserted_api_ok; try done. cbn. by eapply create_budget.
    + rewrite reply_contract_status by (done || lia). lia.
  - destruct L as (Hr & Hv). split; [by apply unchanged_ok|]. intros _. unfold view_of. cbn. by rewrite Hv.
Qed.

Lemma update_honest v dto r w : api_ok w -> parse_update v = Some dto ->
  let '(a, s') := updateContract_handler dto r (service w) in honest w a s'.
Proof.
  intros Hok Hp. unfold updateContract_handler, updateContract, bounds_guard, lift_result, bind, lift_repo, throw_if, throw, ret.
  assert (Hsame : forall e, honest w (bounds_or_next e) (service w)) by (intros e; split; [by destruct w|done]).
  destruct (check_version _) as [z|e]; [|apply Hsame]. destruct (negb _); [apply Hsame|].
  destruct (update_bounds _ _) as [[]|e]; [|apply Hsame]. set (i := default EmptyString (param "id" r)).
  pose proof (update_law i (update_fields dto) z (repo (service w)) (ok_repo w Hok) (service_update_fields dto)) as L.
  destruct (updateWithVersion _ _ _ _) as [[c|e] s1]; cbn.
  - destruct L as (Hr & (c0 & Hi & _ & _ & ->)%spec_update_Ok & Hv).
    destruct (ok_stored w Hok i c0 Hi) as (Hid & Ha & Hst).
    assert (Ha' : amount (merge_fields (update_fields dto) c0) <> NaN).
    { cbn. destruct (u_budget dto) as [b|] eqn:Hb; [by eapply update_budget|done]. }
    assert (Hst' : status (merge_fields (update_fields dto) c0) ∈ VALID_CONTRACT_STATUSES).
    { cbn. destruct (u_status dto) as [x|] eqn:Hx; [by eapply update_status|done]. }
    assert (Hne : i <> EmptyString).
    { intros E. pose proof (ok_empty w Hok) as He. unfold view_of in He. rewrite <- E, Hi in He. done. }
    split; [by eapply inserted_api_ok|]. rewrite reply_contract_status by (lia || by apply response_valid). lia.
  - destruct L as (Hr & Hv & _). split; [by apply unchanged_ok|]. intros _. unfold view_of. cbn. by rewrite Hv.
Qed.

Lemma validated_update body dto : validateUpdateContract body = Ok dto -> parse_update body = Some dto.
Proof.
  unfold validateUpdateContract. destruct body as [| | | | | |fs]; try done. destruct (negb _); [done|].
  destruct (field_of _ _); try done. destruct (to_int n) as [z|]; [|done]. destruct (z <? 0); [done|].
  destruct (parse_update _); [|done]. by intros [= ->].
Qed.

(** C26: a request that is answered with an error changed no contract.  Through
    every route but the bulk one, with its limiter, authentication, permissions, idempotency key,
    validation and handler, an answer from 400 on means the contracts are what they
    were; and every request keeps the contracts well formed. *)
Theorem failed_request_unchanged x r w :
  api_ok w -> fresh r w -> let '(a, w') := dispatch x r w in api_ok w' /\ (400 <= status_of a -> view_of w' = view_of w).
Proof.
  intros Hok Hf. enough (H : honest_api w (dispatch x r w)) by (by destruct (dispatch x r w)).
  unfold dispatch. destruct (r_limited r); [by apply honest_refl|]. destruct x; cbv zeta.
  - apply honest_guarded; [done|]. intros u. by apply honest_refl.
  - apply honest_guarded; [done|]. intros u. by apply honest_refl.
  - apply honest_guarded; [done|]. intros u. by apply honest_refl.
  - destruct (negb _); [by apply honest_refl|]. apply honest_guarded; [done|]. intros u. by apply honest_refl.
  - apply honest_guarded; [done|]. intros u. apply honest_idempotency; [done|].
    destruct (parse_create (r_body r)) as [dto|] eqn:Hp; [by eapply create_honest|by apply honest_same].
  - destruct (negb _); [by apply honest_refl|]. apply honest_guarded; [done|]. intros u. apply honest_idempotency; [done|].
    destruct (validateUpdateContract (r_body r)) as [dto|e] eqn:Hp; [|by apply honest_same]. apply validated_update in Hp. by eapply update_honest.
  - destruct (negb _); [by apply honest_refl|]. apply guarded_owner; [done|]. intros u Ho. unfold plain.
    pose proof (restore_behind_owner r w Hok) as Hr. destruct (restoreContract_handler r (service w)) as [a s'].
    destruct Hr as [[H1 H2] _]; [intros E; apply Ho; by rewrite E|]. split; [exact H1|exact H2].
  - destruct (negb _); [by apply honest_refl|]. apply honest_guarded; [done|]. intros u. apply honest_idempotency; [done|]. by apply delete_honest.
  - destruct (negb _); [by apply honest_refl|]. destruct (validateSchema _ _ _) as [r'|]; [|by apply honest_refl].
    apply honest_guarded; [done|]. intros u. unfold plain, reached. split; [by apply same_service_ok|done].
  - destruct (negb _); [by apply honest_refl|]. destruct (validateSchema _ _ _) as [r'|]; [|by apply honest_refl].
    destruct (Authz.requireAuth _ _); try by apply honest_refl. by apply milestone_honest.
  - destruct (negb _); [by apply honest_refl|]. destruct (validateSchema _ _ _) as [r'|]; [|by apply honest_refl].
    destruct (Authz.requireAuth _ _); try by apply honest_refl. by apply milestone_honest.
  - destruct (negb _); [by apply honest_refl|]. destruct (validateSchema _ _ _) as [r'|]; [|by apply honest_refl].
    destruct (Authz.requireAuth _ _); try by apply honest_refl. by apply milestone_honest.
Qed.

End Bodies.

End Api.

(** ** Witnesses and examples *)

Definition demo_verify (token : string) : result Authz.jwt_error Authz.JwtPayload :=
  if bool_decide (token ∈ ["admin"; "client"]%string)
  then Ok {| Authz.sub := Some "ann"%string; Authz.claim_email := Some "ann@x.io"%string; Authz.claim_role := Some token |}
  else Err Authz.JsonWebTokenError.

Definition demo_sha (t : string) : string := t.
Definition demo_number (n : number) : list ascii := chars "0".
Definition demo_create (v : value) : option CreateContractDto := match v with VObject [] => Some sample_dto | _ => None end.
Definition demo_update (v : value) : option UpdateContractDto := match v with VObject _ => Some sample_patch | _ => None end.

Notation demo_dispatch := (dispatch true None Cursor.iso_shaped demo_verify demo_sha demo_number (fun _ => true) demo_create demo_update
  (fun r => Some r) (fun r => Some r) (fun _ => true)).

Definition demo_request (role key i : string) (body : value) : request :=
  {| r_limited := false; r_auth := Some ("Bearer " +:+ role); r_idempotencyKey := Some key; r_params := Some [("id"%string, i)];
     r_limit := Cursor.LAbsent; r_cursor := Cursor.QAbsent; r_includeDeleted := None; r_body := body;
     r_uuid := "new"; r_now_iso := "2026-01-03T00:00:00.000Z"; r_now := 5000 |}.

Definition demo_api : @api Sqlite.db := {| service := sample_svc; keys := [] |}.

Lemma demo_api_ok : api_ok demo_api.
Proof.
  split.
  - apply Sqlite.sample_db_ok.
  - assert (H : map_Forall (fun _ c => id c <> EmptyString /\ amount c <> NaN /\ status c ∈ VALID_CONTRACT_STATUSES) (view_of demo_api)).
    { apply (proj1 (bool_decide_eq_true _)). vm_compute. reflexivity. }
    intros i c Hc. exact (H i c Hc).
  - vm_compute. reflexivity.
Defined.

Lemma demo_create_budget v d : demo_create v = Some d -> c_budget d <> NaN.
Proof. unfold demo_create. destruct v as [| | | | | |[]]; try discriminate. intros [= <-]. discriminate. Defined.

Lemma demo_update_budget v d b : demo_update v = Some d -> u_budget d = Some b -> b <> NaN.
Proof. unfold demo_update. destruct v; try discriminate. intros [= <-]. cbn. intros [= <-]; discriminate. Defined.

Lemma demo_update_status v d x : demo_update v = Some d -> u_status d = Some x -> x ∈ VALID_CONTRACT_STATUSES.
Proof. unfold demo_update. destruct v; try discriminate. intros [= <-]. cbn. intros [= <-]; unfold VALID_CONTRACT_STATUSES; set_solver. Defined.

Definition empty_body : value := VObject [].

Lemma failed_request_unchanged_witness :
  let '(a, w') := demo_dispatch CreateContract (demo_request "client" "key" "k1" empty_body) demo_api in
  status_of a = 201 /\ api_ok w'.
Proof.
  pose proof (failed_request_unchanged true None Cursor.iso_shaped demo_verify demo_sha demo_number (fun _ => true) demo_create demo_update
    (fun r => Some r) (fun r => Some r) (fun _ => true) demo_create_budget demo_update_budget demo_update_status CreateContract
    (demo_request "client" "key" "k1" empty_body) demo_api demo_api_ok) as H.
  assert (Hf : fresh (demo_request "client" "key" "k1" empty_body) demo_api) by (split; [discriminate|vm_compute; reflexivity]).
  specialize (H Hf).
  assert (Hs : status_of (demo_dispatch CreateContract (demo_request "client" "key" "k1" empty_body) demo_api).1 = 201) by (vm_compute; reflexivity).
  destruct (demo_dispatch CreateContract _ demo_api) as [a w']. destruct H as [H _]. split; [exact Hs|exact H].
Defined.

Lemma contract_writes_authorized_witness :
  exists token u, Authz.extractBearerToken (Some "Bearer admin"%string) = Some token /\ Authz.role u = "admin"%string.
Proof.
  destruct (contract_writes_authorized true None Cursor.iso_shaped demo_verify demo_sha demo_number (fun _ => true) demo_create demo_update
    (fun r => Some r) (fun r => Some r) (fun _ => true) DeleteContract (demo_request "admin" "key" "k1" VUndefined) demo_api demo_api_ok)
    as (token & payload & u & H1 & _ & _ & _ & H2).
  - intros E. apply (f_equal (fun m : store => m !! "k1"%string)) in E. vm_compute in E. discriminate E.
  - exists token, u. split; [exact H1|exact H2].
Defined.

Lemma restore_route_never_restores_witness :
  status_of (demo_dispatch RestoreContract (demo_request "admin" "key" "k3" VUndefined) demo_api).1 = 404.
Proof.
  apply (restore_route_never_restores true None Cursor.iso_shaped demo_verify demo_sha demo_number (fun _ => true) demo_create demo_update
    (fun r => Some r) (fun r => Some r) (fun _ => true) (demo_request "admin" "key" "k3" VUndefined) demo_api demo_api_ok)
    with (c := default (new_contract "" "" (create_input sample_dto)) (view_of demo_api !! "k3"%string))
         (u := {| Authz.id := "ann"; Authz.email := "ann@x.io"; Authz.role := "admin" |});
    vm_compute; try reflexivity; discriminate.
Defined.

Lemma milestone_routes_unreachable_witness :
  body_of (demo_dispatch CreateMilestone (demo_request "admin" "key" "k1" empty_body) demo_api).1 <> BReached "k1".
Proof.
  apply (milestone_routes_unreachable true None Cursor.iso_shaped demo_verify demo_sha demo_number (fun _ => true) demo_create demo_update
    (fun r => Some r) (fun r => Some r) (fun _ => true) CreateMilestone (demo_request "admin" "key" "k1" empty_body) demo_api "k1" demo_api_ok).
  - intros k e Hk. discriminate Hk.
  - set_solver.
Defined.

Lemma parties_cannot_list_witness :
  status_of (demo_dispatch ListContracts (demo_request "client" "key" "k1" VUndefined) demo_api).1 = 403.
Proof.
  rewrite (parties_cannot_list true None Cursor.iso_shaped demo_verify demo_sha demo_number (fun _ => true) demo_create demo_update
    (fun r => Some r) (fun r => Some r) (fun _ => true) ListContracts (demo_request "client" "key" "k1" VUndefined) demo_api
    {| Authz.id := "ann"; Authz.email := "ann@x.io"; Authz.role := "client" |}); [reflexivity|set_solver|reflexivity|vm_compute; reflexivity|cbn; set_solver].
Defined.

Definition is_Some_b {A} (o : option A) : bool := match o with Some _ => true | None => false end.

(** A key is not bound to the route: deleting a second contract with the key of the
    first answers for the first and deletes nothing. *)
Example key_shared_by_routes :
  let '(a1, w1) := demo_dispatch DeleteContract (demo_request "admin" "key" "k1" VUndefined) demo_api in
  let '(a2, w2) := demo_dispatch DeleteContract (demo_request "admin" "key" "k2" VUndefined) w1 in
  (status_of a1, status_of a2, is_Some_b (findById "k1" false (repo (service w2))), is_Some_b (findById "k2" false (repo (service w2)))) = (200, 200, false, true).
Proof. vm_compute. reflexivity. Qed.

(** A failure is remembered as well: after a version conflict the key answers 409 for ever. *)
Example failure_replayed :
  let stale := demo_request "admin" "key" "k1" (VObject [("version"%string, VNumber (of_int 0))]) in
  let '(a1, w1) := demo_dispatch PatchContract stale demo_api in
  let '(a2, w2) := demo_dispatch PatchContract (demo_request "admin" "other" "k1" (VObject [("version"%string, VNumber (of_int 0))])) w1 in
  let '(a3, _) := demo_dispatch PatchContract (demo_request "admin" "other" "k1" (VObject [("version"%string, VNumber (of_int 0))])) w2 in
  (status_of a1, status_of a2, status_of a3) = (200, 409, 409).
Proof. vm_compute. reflexivity. Qed.

(** Two requests with one key that overlap both execute: nothing marks the key before
    the first answer. *)
Example concurrent_same_key_both_run :
  let r := demo_request "client" "key" "k1" empty_body in
  match idempotency_receive demo_sha demo_number r "ann" [], idempotency_receive demo_sha demo_number r "ann" [] with
  | (Execute k1 _, _), (Execute k2 _, _) => k1 = k2
  | _, _ => False
  end.
Proof. vm_compute. reflexivity. Qed.

(** An update without a field to change is answered as an internal error. *)
Example empty_update_is_500 :
  status_of (bounds_or_next EmptyUpdate) = 500.
Proof. reflexivity. Qed.
End ContractsApi.
