(* ===== verification/ContractsBulk.v ===== *)
(** * Bulk requests: src/controllers/contracts-bulk.controller.ts, its route in
    src/routes/contracts.routes.ts and src/modules/contracts/dto/bulk-operations.dto.ts

    The schema of the body admits any record as an item.  Here an item has the fields
    the controller reads, absent or of the types the service declares for them; the
    version, the budget and the milestones, which the service checks itself, may be
    any value. *)

From stdpp Require Import prelude gmap strings pretty.
From Stdlib Require Import ZArith Lia Ascii.
From S2P Require Import Prelude JsMap JsValue JsString Regex SoftDelete Bounds Cursor Keyset Contracts SqliteContracts ContractsService Authorization Idempotency Errors ContractsApi.
Open Scope Z_scope.

Module ContractsBulk.
Import Contracts.
Import Service.
Import ContractsApi.

Record item : Type := {
  b_action : option string;
  b_contractId : option string; b_id : option string;
  b_version : value;
  b_title : option string; b_description : option string;
  b_amount : option number; b_budget : value;
  b_status : option string;
  b_clientId : option string;
  b_freelancerId : option (option string);     (* absent, null or a string *)
  b_milestones : value;
}.

(** [item.action ?? "create"] *)
Definition action (it : item) : string := default "create"%string (b_action it).
(** [item.contractId ?? item.id] *)
Definition target (it : item) : option string := match b_contractId it with Some i => Some i | None => b_id it end.

(** ** The structural check of the whole batch *)

(** [Throws]: a property of null is read. *)
Inductive verdict : Type := Fine | Invalid (message : string) | Throws.

Definition milestone_verdict (m : value) : verdict :=
  match m with
  | VNull | VUndefined => Throws
  | _ => match prop m "title", prop m "amount" with
         | VString t, VNumber n =>
             if bool_decide (t = EmptyString) || bool_decide (trim t = EmptyString) || num_leb n (of_int 0)
             then Invalid "invalid milestone values" else Fine
         | _, _ => Invalid "invalid milestone values"
         end
  end.

Fixpoint first_bad {A} (f : A -> verdict) (l : list A) : verdict :=
  match l with [] => Fine | a :: l' => match f a with Fine => first_bad f l' | v => v end end.

Definition truthy_id (o : option string) : bool := match o with Some i => negb (bool_decide (i = EmptyString)) | None => false end.

Definition item_verdict (it : item) : verdict :=
  if bool_decide (action it ∈ ["delete"; "update"]%string) then
    match truthy_id (target it), b_version it with
    | false, _ | _, VUndefined => Invalid "contractId and version required"
    | _, _ => Fine
    end
  else if bool_decide (action it = "create"%string) then
    let ms := match b_milestones it with
              | VUndefined => Fine
              | VArray (m :: l) => first_bad milestone_verdict (m :: l)
              | _ => Invalid "milestones array is required"
              end in
    match ms with
    | Fine => if bool_decide (b_clientId it = Some "invalid-uuid"%string) then Invalid "invalid clientId UUID" else Fine
    | v => v
    end
  else Invalid "Invalid action".

(** ** One item *)

(** The errors an item can end with: the service's, the driver's on a field it cannot
    bind, and the response schema's. *)
Inductive item_error : Type := Service (e : svc_error) | Unbindable | BadResponse.

Section Bulk.
Context {S : Type} `{!ContractRepo S}.
Context (milestonesEnabled : bool) (storage_message : string).

Notation st := (svc S).

(** [error.message] *)
Definition message_of (e : item_error) : string :=
  match e with
  | Service (RepoError (NotFoundError i)) => "Contract with id " +:+ i +:+ " not found"
  | Service (RepoError VersionConflictError) => Errors.message Errors.VersionConflictError
  | Service (RepoError (InvalidContractStatus x)) => "Invalid contract status: " +:+ x
  | Service MissingVersionError => Errors.message Errors.MissingVersionError
  | Service InvalidVersionError => Errors.message Errors.InvalidVersionError
  | Service EmptyUpdate => "At least one field must be provided for an update."
  | BadResponse => "Contract response failed schema validation"
  | Service (ContractBoundsError _) => "bounds"
  | _ => storage_message
  end.

Definition includes (needle m : string) : bool := Errors.search (Errors.text needle) (chars m).

Definition mapErrorToItemResult (e : item_error) : Z * string :=
  match e with
  | Service (ContractBoundsError _) => (422, "contract_bounds_error"%string)
  | Service (RepoError (NotFoundError _)) => (404, "not_found"%string)
  | _ => let m := to_lower (message_of e) in
         if includes "version" m || includes "stale" m then (409, "ERR_CONFLICT"%string) else (400, "invalid_request"%string)
  end.

(** The patch an update item makes; its amount goes into a field the service does not
    read, so it only counts as a field being there. *)
Definition update_dto (it : item) : UpdateContractDto :=
  {| u_version := b_version it; u_title := b_title it; u_description := b_description it; u_freelancerId := None; u_clientId := None;
     u_budget := None; u_deadline := None; u_status := b_status it; u_terms := None; u_milestones := b_milestones it |}.

Definition extra_amount (it : item) : bool :=
  defined (b_amount it) || match b_budget it with VUndefined => false | _ => true end.

(** [updateContract] on a patch with a field more. *)
Definition updateContract_extra (extra : bool) (i : string) (dto : UpdateContractDto) : SE st svc_error Contract :=
  let! version := lift_result (check_version (u_version dto)) in
  throw_if (negb (has_fields milestonesEnabled dto || extra)) EmptyUpdate ;;
  bounds_guard (update_bounds milestonesEnabled dto) ;;
  lift_repo (updateWithVersion i (update_fields dto) version).

(** The patch of a delete item: a version and no milestones. *)
Definition delete_dto (it : item) : UpdateContractDto :=
  {| u_version := b_version it; u_title := None; u_description := None; u_freelancerId := None; u_clientId := None;
     u_budget := None; u_deadline := None; u_status := None; u_terms := None; u_milestones := VArray [] |}.

Definition default_freelancer : string := "00000000-0000-0000-0000-000000000012".

(** [createContract] on an item: the budget is checked first, whatever it is. *)
Definition create_item (uuid now : string) (it : item) (s : st) : result item_error Contract * st :=
  match b_budget it, b_title it, b_clientId it with
  | VNumber b, Some t, Some cl =>
      let dto := {| c_title := t; c_description := default EmptyString (b_description it);
                    c_freelancerId := default (Some default_freelancer) (b_freelancerId it);
                    c_clientId := cl; c_budget := b; c_deadline := None; c_status := b_status it; c_terms := None;
                    c_milestones := b_milestones it |} in
      match createContract milestonesEnabled uuid now dto s with (Ok c, s') => (Ok c, s') | (Err e, s') => (Err (Service e), s') end
  | b, _, _ =>
      let milestones := effective_milestones milestonesEnabled (b_milestones it) in
      match validateContractBounds b milestones with
      | Err e => (Err (Service (ContractBoundsError e)), s)
      | Ok _ => match check_budget b milestones with
                | Err e => (Err (Service (ContractBoundsError e)), s)
                | Ok _ =>
                    let st := status_or_draft (b_status it) in
                    (Err (if bool_decide (st ∈ VALID_CONTRACT_STATUSES) then Unbindable else Service (RepoError (InvalidContractStatus st))), s)
                end
      end
  end.

Definition run_item (uuid now : string) (it : item) (s : st) : result item_error Contract * st :=
  let service_error o := match o with (Ok c, s') => (Ok c, s') | (Err e, s') => (Err (Service e), s') end in
  let i := default EmptyString (target it) in
  if bool_decide (action it = "delete"%string) then service_error (updateContract milestonesEnabled i (delete_dto it) s)
  else if bool_decide (action it = "update"%string) then service_error (updateContract_extra (extra_amount it) i (update_dto it) s)
  else create_item uuid now it s.

Definition success_code (it : item) : Z := if bool_decide (action it ∈ ["delete"; "update"]%string) then 200 else 201.

Definition failed_item (k : nat) (e : item_error) : item_result :=
  {| i_index := k; i_code := (mapErrorToItemResult e).1; i_data := None; i_error := (mapErrorToItemResult e).2 |}.

Definition processSingleCreateItem (uuid now : string) (it : item) (k : nat) (s : st) : item_result * st :=
  match run_item uuid now it s with
  | (Err e, s') => (failed_item k e, s')
  | (Ok c, s') => (if contractResponseSchema c
                   then {| i_index := k; i_code := success_code it; i_data := Some c; i_error := EmptyString |} else failed_item k BadResponse, s')
  end.

(** The identifier a created contract gets, by its place in the batch. *)
Context (uuids : nat -> string) (now : string).

Fixpoint process_items (k : nat) (l : list item) (s : st) : list item_result * st :=
  match l with
  | [] => ([], s)
  | it :: l' =>
      let '(x, s1) := processSingleCreateItem (uuids k) now it k s in
      let '(xs, s2) := process_items (Datatypes.S k) l' s1 in
      (x :: xs, s2)
  end.

Definition succeeded (x : item_result) : bool := match i_data x with Some _ => true | None => false end.

Definition bulkCreateContracts (items : list item) (s : st) : reply * st :=
  if (length items =? 0)%nat || (25 <? length items)%nat then (fail "validation_error" 400, s)
  else match first_bad item_verdict items with
       | Invalid _ => (fail "validation_error" 400, s)
       | Throws => (next_error (Errors.Plain "null"), s)
       | Fine =>
           let '(results, s') := process_items 0 items s in
           (ok 200 (BBulk results (length items) (length (filter succeeded results)) (length (filter (negb ∘ succeeded) results))), s')
       end.

(** POST /bulk: the schema of the body yields the items. *)
Definition bulk_route (jwt_verify : string -> result Authz.jwt_error Authz.JwtPayload) (sha256 : string -> string) (number_text : number -> list ascii)
    (parse_bulk : value -> option (list item)) (r : request) (w : @api S) : reply * api :=
  if r_limited r then (fail "rate_limited" 429, w)
  else guarded jwt_verify "create" None r (fun u =>
    with_idempotency sha256 number_text r (Authz.id u) (fun s =>
      match parse_bulk (r_body r) with None => (validation_error, s) | Some items => bulkCreateContracts items s end)) w.


(** ** What a batch does to the contracts *)

Context `{!ContractRepoLaws S}.

Notation contracts_of s := (view (repo s)).

(** The stored contracts are well formed. *)
Definition svc_ok (s : st) : Prop := api_ok {| service := s; keys := [] |}.

(** What a successful item stored: a new contract, or a live one with other fields. *)
Definition stored (uuid : string) (it : item) (c : Contract) (m m' : store) : Prop :=
  (action it <> "delete"%string /\ action it <> "update"%string /\ m' = <[uuid := c]> m /\ id c = uuid /\ amount c <> NaN /\
   status c ∈ VALID_CONTRACT_STATUSES) \/
  (exists i d f, i = default EmptyString (target it) /\ m !! i = Some d /\ deletedAt d = None /\ c = merge_fields f d /\ f_amount f = None /\
     f_deletedAt f = None /\ f_clientId f = None /\ m' = <[i := c]> m /\
     (action it = "delete"%string /\ f = update_fields (delete_dto it) \/ action it = "update"%string /\ f = update_fields (update_dto it))).

Lemma update_item_law extra i dto (s : st) : repo_ok (repo s) ->
  match updateContract_extra extra i dto s with
  | (Ok c, s') => repo_ok (repo s') /\ exists d, contracts_of s !! i = Some d /\ deletedAt d = None /\ c = merge_fields (update_fields dto) d /\
                  contracts_of s' = <[i := c]> (contracts_of s)
  | (Err _, s') => repo_ok (repo s') /\ contracts_of s' = contracts_of s
  end.
Proof.
  intros Hr. unfold updateContract_extra, bounds_guard, lift_result, bind, lift_repo, throw_if, throw, ret.
  destruct (check_version _) as [z|e]; [|done]. destruct (negb _); [done|]. destruct (update_bounds _ _) as [[]|e]; [|done].
  pose proof (update_law i (update_fields dto) z (repo s) Hr (service_update_fields dto)) as L.
  destruct (updateWithVersion _ _ _ _) as [[c|e] s1]; cbn.
  - destruct L as (H1 & (d & Hd & Hl & _ & ->)%spec_update_Ok & Hv). split; [done|]. by exists d.
  - destruct L as (H1 & Hv & _). done.
Qed.

(** The service's own update is the one without a further field. *)
Lemma updateContract_plain i dto (s : st) : updateContract milestonesEnabled i dto s = updateContract_extra false i dto s.
Proof.
  unfold updateContract, updateContract_extra, bind, lift_result, throw_if. destruct (check_version _); [|done].
  by rewrite orb_false_r.
Qed.

Lemma budget_not_nan b ms : validateContractBounds (VNumber b) ms = Ok tt -> b <> NaN.
Proof. intros H ->. done. Qed.

Lemma create_item_law uuid it (s : st) : repo_ok (repo s) -> contracts_of s !! uuid = None ->
  match create_item uuid now it s with
  | (Ok c, s') => repo_ok (repo s') /\ contracts_of s' = <[uuid := c]> (contracts_of s) /\ id c = uuid /\ amount c <> NaN /\
                  status c ∈ VALID_CONTRACT_STATUSES
  | (Err _, s') => repo_ok (repo s') /\ contracts_of s' = contracts_of s
  end.
Proof.
  intros Hr Hf. unfold create_item. destruct (b_budget it) as [| | |b| | |];
    try (destruct (validateContractBounds _ _); [destruct (check_budget _ _)|]; done).
  destruct (b_title it) as [t|]; [|destruct (validateContractBounds _ _); [destruct (check_budget _ _)|]; done].
  destruct (b_clientId it) as [cl|]; [|destruct (validateContractBounds _ _); [destruct (check_budget _ _)|]; done].
  cbv zeta. set (dto := {| c_title := t |}). unfold createContract, bounds_guard, lift_result, bind, lift_repo, prepareEscrow, ret.
  destruct (validateContractBounds _ _) as [[]|e] eqn:Hb; [|done]. destruct (check_budget _ _) as [[]|e]; [|done].
  pose proof (create_law uuid now (create_input dto) (repo s) Hr Hf) as L. destruct (create _ _ _ _) as [[c|e] s1]; cbn.
  - destruct L as (H1 & -> & Hst & Hv). split_and!; try done. cbn. by eapply budget_not_nan.
  - done.
Qed.

Lemma run_item_law uuid it (s : st) : repo_ok (repo s) -> contracts_of s !! uuid = None ->
  match run_item uuid now it s with
  | (Ok c, s') => repo_ok (repo s') /\ stored uuid it c (contracts_of s) (contracts_of s')
  | (Err _, s') => repo_ok (repo s') /\ contracts_of s' = contracts_of s
  end.
Proof.
  intros Hr Hf. unfold run_item. cbv zeta. case_bool_decide as Hd.
  { rewrite updateContract_plain. pose proof (update_item_law false (default EmptyString (target it)) (delete_dto it) s Hr) as L.
    destruct (updateContract_extra _ _ _ _) as [[c|e] s']; [|done]. destruct L as [H1 (d & Hi & Hl & -> & Hv)]. split; [done|].
    right. eexists _, d, _. split_and!; try done. by left. }
  case_bool_decide as Hu.
  { pose proof (update_item_law (extra_amount it) (default EmptyString (target it)) (update_dto it) s Hr) as L.
    destruct (updateContract_extra _ _ _ _) as [[c|e] s']; [|done]. destruct L as [H1 (d & Hi & Hl & -> & Hv)]. split; [done|].
    right. eexists _, d, _. split_and!; try done. by right. }
  pose proof (create_item_law uuid it s Hr Hf) as L. destruct (create_item _ _ _ _) as [[c|e] s']; [|done].
  destruct L as (H1 & Hv & Hi & Ha & Hst). split; [done|]. by left.
Qed.

(** A stated status is one of the enumeration; the schema of the body does not check. *)
Definition status_ok (it : item) : Prop := forall x, b_status it = Some x -> x ∈ VALID_CONTRACT_STATUSES.

Lemma stored_valid uuid it c (s : st) m' :
  svc_ok s -> status_ok it -> uuid <> EmptyString -> stored uuid it c (contracts_of s) m' ->
  exists i, m' = <[i := c]> (contracts_of s) /\ i <> EmptyString /\ id c <> EmptyString /\ amount c <> NaN /\ status c ∈ VALID_CONTRACT_STATUSES.
Proof.
  intros Hok Hst Hu [(_ & _ & -> & <- & Ha & Hs)|(i & d & f & Hi & Hd & _ & -> & Hfa & _ & _ & -> & Hf)].
  { by exists (id c). }
  exists i. destruct (ok_stored _ Hok i d Hd) as (Hid & Ha & Hs). split_and!; [done| |done| |].
  - intros E. pose proof (ok_empty _ Hok) as He. unfold view_of in He. cbn in He. congruence.
  - cbn. by rewrite Hfa.
  - cbn. destruct Hf as [[_ ->]|[_ ->]]; cbn; [done|]. destruct (b_status it) as [x|] eqn:Hx; [by apply Hst|done].
Qed.

Lemma item_law uuid it k (s : st) : svc_ok s -> status_ok it -> uuid <> EmptyString -> contracts_of s !! uuid = None ->
  let '(x, s') := processSingleCreateItem uuid now it k s in
  svc_ok s' /\ i_index x = k /\
  match i_data x with
  | Some c => stored uuid it c (contracts_of s) (contracts_of s')
  | None => contracts_of s' = contracts_of s
  end.
Proof.
  intros Hok Hst Hu Hf. unfold processSingleCreateItem. pose proof (run_item_law uuid it s (ok_repo _ Hok) Hf) as L.
  destruct (run_item _ _ _ _) as [[c|e] s'].
  - destruct L as [Hr Hs]. destruct (stored_valid _ _ _ _ _ Hok Hst Hu Hs) as (i & Hv & Hi & Hid & Ha & Hc).
    rewrite response_valid by done. split; [|done]. eapply (inserted_api_ok {| service := s; keys := [] |}); done.
  - destruct L as [Hr Hv]. split; [|done]. by apply (unchanged_ok {| service := s; keys := [] |}).
Qed.

(** ** Whole batches *)

Lemma process_items_app l1 l2 k s :
  process_items k (l1 ++ l2) s =
  let '(x1, s1) := process_items k l1 s in let '(x2, s2) := process_items (k + length l1) l2 s1 in (x1 ++ x2, s2).
Proof.
  revert k s. induction l1 as [|it l1 IH]; intros k s; cbn.
  - rewrite Nat.add_0_r. by destruct (process_items k l2 s).
  - destruct (processSingleCreateItem _ _ _ _ _) as [x s1]. rewrite IH. destruct (process_items (Datatypes.S k) l1 s1) as [x1 s2].
    rewrite Nat.add_succ_r. by destruct (process_items _ l2 s2).
Qed.

(** The contracts the first [k] items leave. *)
Definition after (k : nat) (items : list item) (s : st) : st := (process_items 0 (take k items) s).2.

(** The identifiers of the places from [k] on are not taken. *)
Definition unused (k : nat) (s : st) : Prop := forall j, (k <= j)%nat -> contracts_of s !! uuids j = None.

Section Fresh.
Context (uuids_distinct : Inj (=) (=) uuids) (uuids_nonempty : forall k, uuids k <> EmptyString).

Lemma stored_unused k it c (s s' : st) : unused k s -> stored (uuids k) it c (contracts_of s) (contracts_of s') -> unused (Datatypes.S k) s'.
Proof.
  intros Hf Hs j Hj. destruct Hs as [(_ & _ & -> & _)|(i & d & f & _ & Hd & _ & _ & _ & _ & _ & -> & _)].
  - rewrite lookup_insert_ne; [apply Hf; lia|]. intros E%uuids_distinct. lia.
  - rewrite lookup_insert_ne; [apply Hf; lia|]. intros ->. by rewrite Hf in Hd by lia.
Qed.

Lemma step_law k it (s : st) : svc_ok s -> status_ok it -> unused k s ->
  let '(x, s') := processSingleCreateItem (uuids k) now it k s in
  svc_ok s' /\ unused (Datatypes.S k) s' /\ i_index x = k /\
  match i_data x with Some c => stored (uuids k) it c (contracts_of s) (contracts_of s') | None => contracts_of s' = contracts_of s end.
Proof.
  intros Hok Hst Hf. pose proof (item_law (uuids k) it k s Hok Hst (uuids_nonempty k) (Hf k (le_n k))) as L.
  destruct (processSingleCreateItem _ _ _ _ _) as [x s']. destruct L as (H1 & H2 & H3). split_and!; try done.
  destruct (i_data x) as [c|]; [by eapply stored_unused|]. intros j Hj. rewrite H3. apply Hf. lia.
Qed.

Lemma process_items_ok l k s : svc_ok s -> Forall status_ok l -> unused k s ->
  let '(xs, s') := process_items k l s in svc_ok s' /\ unused (k + length l) s' /\ length xs = length l.
Proof.
  revert k s. induction l as [|it l IH]; intros k s Hok Hst Hf; cbn.
  { rewrite Nat.add_0_r. done. }
  inversion Hst as [|? ? Hit Hl]; subst. pose proof (step_law k it s Hok Hit Hf) as L.
  destruct (processSingleCreateItem _ _ _ _ _) as [x s1]. destruct L as (H1 & H2 & _). specialize (IH _ _ H1 Hl H2).
  destruct (process_items _ l s1) as [xs s2]. destruct IH as (H3 & H4 & H5). cbn. rewrite Nat.add_succ_r. split_and!; try done. by f_equal.
Qed.

Lemma process_items_at items k it (s : st) : svc_ok s -> Forall status_ok items -> unused 0 s -> items !! k = Some it ->
  exists x, (process_items 0 items s).1 !! k = Some x /\ i_index x = k /\
    processSingleCreateItem (uuids k) now it k (after k items s) = (x, after (Datatypes.S k) items s) /\
    match i_data x with
    | Some c => stored (uuids k) it c (contracts_of (after k items s)) (contracts_of (after (Datatypes.S k) items s))
    | None => contracts_of (after (Datatypes.S k) items s) = contracts_of (after k items s)
    end.
Proof.
  intros Hok Hst Hf Hk. unfold after. rewrite (take_S_r items k it Hk).
  assert (Hs : process_items 0 items s = process_items 0 (take k items ++ it :: drop (Datatypes.S k) items) s) by (by rewrite take_drop_middle).
  rewrite Hs, !process_items_app. clear Hs.
  assert (Hlen : length (take k items) = k) by (apply length_take_le; apply lookup_lt_Some in Hk; lia).
  pose proof (process_items_ok (take k items) 0 s Hok (Forall_take _ _ _ Hst) Hf) as L. rewrite Hlen in *. cbn [Nat.add] in *.
  destruct (process_items 0 (take k items) s) as [xs s1]. destruct L as (H1 & H2 & H3). cbn [process_items snd].
  pose proof (step_law k it s1 H1 (Forall_lookup_1 _ _ _ _ Hst Hk) H2) as L.
  destruct (processSingleCreateItem _ _ _ _ _) as [x s2]. destruct L as (_ & _ & H4 & H5).
  destruct (process_items (Datatypes.S k) _ s2) as [ys s3]. cbn [fst snd]. exists x. split_and!; try done.
  rewrite lookup_app_r by lia. by replace (k - length xs)%nat with 0%nat by lia.
Qed.

Lemma counted (l : list item_result) : (length (filter succeeded l) + length (filter (negb ∘ succeeded) l) = length l)%nat.
Proof.
  induction l as [|x l IH]; [done|]. rewrite !filter_cons.
  destruct (decide (succeeded x)) as [H|H], (decide ((negb ∘ succeeded) x)) as [H2|H2]; cbn [length]; unfold compose in *;
    destruct (succeeded x); try done; try (by exfalso; apply H); lia.
Qed.


(** ** Deleting *)

(** Nothing but fields a user may edit differs. *)
Definition kept (deletes : bool) (c c' : Contract) : Prop :=
  id c' = id c /\ clientId c' = clientId c /\ amount c' = amount c /\ deletedAt c' = deletedAt c /\ version c <= version c' /\
  (deletes = true -> title c' = title c /\ status c' = status c /\ freelancerId c' = freelancerId c).

Lemma contract_kept_refl b c : kept b c c.
Proof. unfold kept. split_and!; try done; lia. Qed.

Lemma contract_kept_trans b c1 c2 c3 : kept b c1 c2 -> kept b c2 c3 -> kept b c1 c3.
Proof.
  intros (?&?&?&?&?&Hd) (?&?&?&?&?&Hd'). unfold kept. split_and!; try congruence; try lia.
  intros Hb. destruct (Hd Hb) as (?&?&?), (Hd' Hb) as (?&?&?). split_and!; congruence.
Qed.

Lemma stored_kept b k it c (m m' : store) j c0 :
  stored (uuids k) it c m m' -> m !! uuids k = None -> (b = true -> action it = "delete"%string) -> m !! j = Some c0 ->
  exists c', m' !! j = Some c' /\ kept b c0 c'.
Proof.
  intros Hs Hf Hb Hj. destruct Hs as [(Hd & _ & -> & _)|(i & d & f & _ & Hd & Hl & -> & Ha & Hdel & Hcl & -> & Hw)].
  { exists c0. rewrite lookup_insert_ne by (intros <-; congruence). split; [done|apply contract_kept_refl]. }
  destruct (decide (i = j)) as [->|Hne].
  2:{ exists c0. rewrite lookup_insert_ne by done. split; [done|apply contract_kept_refl]. }
  rewrite lookup_insert_eq. eexists. split; [done|]. rewrite Hd in Hj. injection Hj as ->.
  unfold kept. cbn. rewrite Ha, Hdel, Hcl. split_and!; try done; [lia|]. intros E. specialize (Hb E).
  destruct Hw as [[_ ->]|[Hu _]]; [done|congruence].
Qed.

Lemma process_items_keep b l k s j c : svc_ok s -> Forall status_ok l -> unused k s -> (b = true -> Forall (fun it => action it = "delete"%string) l) ->
  contracts_of s !! j = Some c -> exists c', contracts_of (process_items k l s).2 !! j = Some c' /\ kept b c c'.
Proof.
  revert k s c. induction l as [|it l IH]; intros k s c Hok Hst Hf Hb Hj; cbn.
  { exists c. split; [done|apply contract_kept_refl]. }
  inversion Hst as [|? ? Hit Hl]; subst. pose proof (step_law k it s Hok Hit Hf) as L.
  destruct (processSingleCreateItem _ _ _ _ _) as [x s1]. destruct L as (H1 & H2 & _ & H4).
  assert (Hone : exists c1, contracts_of s1 !! j = Some c1 /\ kept b c c1).
  { destruct (i_data x) as [c1|]; [|exists c; rewrite H4; split; [done|apply contract_kept_refl]].
    eapply stored_kept; [exact H4|by apply Hf| |done]. intros E. by apply Hb, Forall_inv in E. }
  destruct Hone as (c1 & Hc1 & Hk1).
  destruct (IH (Datatypes.S k) s1 c1 H1 Hl H2) as (c2 & Hc2 & Hk2); [|done|].
  { intros E. by apply Hb, Forall_inv_tail in E. }
  destruct (process_items _ l s1) as [xs s2]. cbn in *. exists c2. split; [done|by eapply contract_kept_trans].
Qed.

(** A bulk request deletes nothing.  After any batch every contract is still there
    with its owner, its amount and its deletion mark, and a batch of delete items leaves
    everything but the versions. *)
Theorem bulk_never_deletes items s j c :
  svc_ok s -> Forall status_ok items -> unused 0 s -> contracts_of s !! j = Some c ->
  exists c', contracts_of (bulkCreateContracts items s).2 !! j = Some c' /\
    kept (bool_decide (Forall (fun it => action it = "delete"%string) items)) c c'.
Proof.
  intros Hok Hst Hf Hj. set (b := bool_decide _).
  assert (Hsame : exists c', contracts_of s !! j = Some c' /\ kept b c c') by (exists c; split; [done|apply contract_kept_refl]).
  unfold bulkCreateContracts. destruct (_ || _); [done|]. destruct (first_bad _ _); [|done|done].
  pose proof (process_items_keep b items 0 s j c Hok Hst Hf) as H. destruct (process_items 0 items s) as [xs s']. apply H; [|done].
  apply bool_decide_eq_true_1.
Qed.

End Fresh.

(** ** Who may change what *)

Section Owner.
Context (env : option string) (date_parses : string -> bool) (jwt_verify : string -> result Authz.jwt_error Authz.JwtPayload)
  (sha256 : string -> string) (number_text : number -> list ascii) (query_ok : request -> bool) (parse_create : value -> option CreateContractDto)
  (parse_update : value -> option UpdateContractDto) (milestone_body milestone_query : request -> option request)
  (milestone_id_ok : request -> bool) (parse_bulk : value -> option (list item)).

Notation single := (dispatch milestonesEnabled env date_parses jwt_verify sha256 number_text query_ok parse_create parse_update
  milestone_body milestone_query milestone_id_ok).
Notation bulk := (bulk_route jwt_verify sha256 number_text parse_bulk).

Lemma client_not_owner u o action : Authz.role u = "client"%string -> o <> Authz.id u -> action = "update"%string ->
  Authz.granted (Authz.isAuthorized u "contracts" action (Some o)) = false.
Proof.
  intros Hr Ho ->. apply not_true_iff_false. rewrite Authz.isAuthorized_cell, Hr. cbn. intros [H|H]; [done|]. by injection H.
Qed.

Lemma client_may_create u : Authz.role u = "client"%string -> Authz.granted (Authz.isAuthorized u "contracts" "create" None) = true.
Proof. intros Hr. apply Authz.isAuthorized_cell. by rewrite Hr. Qed.

(** C31: a client edits the contracts of others through a bulk request.  For a client
    who does not own a contract, updating it is refused with 403 and changes nothing;
    the same update as the item of a batch goes to the repository, and if that accepts
    it the contract has the new title. *)
Theorem bulk_edits_others r w u c i it t v c' s' key hash m :
  api_ok w -> r_limited r = false -> Authz.requireAuth jwt_verify (r_auth r) = Authz.Proceed u -> Authz.role u = "client"%string ->
  param "id" r = Some i -> validateContractId r = true -> view_of w !! i = Some c -> deletedAt c = None -> clientId c <> Authz.id u ->
  idempotency_receive sha256 number_text r (Authz.id u) (keys w) = (Execute key hash, m) ->
  parse_bulk (r_body r) = Some [it] -> action it = "update"%string -> target it = Some i -> b_title it = Some t -> b_milestones it = VUndefined ->
  check_version (b_version it) = Ok v -> updateWithVersion i (update_fields (update_dto it)) v (repo (service w)) = (Ok c', s') ->
  single PatchContract r w = (fail "forbidden" 403, w) /\
  exists d, view_of (bulk r w).2 !! i = Some d /\ title d = t /\ clientId d = clientId c.
Proof.
  intros Hok Hl Ha Hr Hp Hv Hi Hd Ho Hid Hb Hact Ht Htitle Hms Hver Hup. split.
  - unfold ContractsApi.dispatch. rewrite Hl, Hv. cbv zeta. cbn [negb]. unfold guarded, Authz.protected. rewrite Ha.
    assert (Hown : getContractOwnerId r (service w) = Some (clientId c)).
    { unfold getContractOwnerId. rewrite Hp, findById_law by apply Hok. unfold spec_find. unfold view_of in Hi. cbn. rewrite Hi. cbn.
      unfold visible, isSoftDeleted. by rewrite Hd. }
    rewrite Hown. cbn [fmap option_fmap option_map Authz.requirePermission]. by rewrite client_not_owner.
  - unfold bulk_route. rewrite Hl. unfold guarded, Authz.protected. rewrite Ha.
    cbn [fmap option_fmap option_map Authz.requirePermission]. rewrite client_may_create by done.
    unfold with_idempotency. rewrite Hid, Hb. unfold bulkCreateContracts. cbn [length Nat.eqb Nat.ltb Nat.leb orb first_bad].
    assert (Hfine : item_verdict it = Fine).
    { unfold item_verdict. rewrite Hact, bool_decide_eq_true_2 by set_solver. rewrite Ht. cbn.
      rewrite bool_decide_eq_false_2 by (intros ->; pose proof (ok_empty w Hok); congruence). cbn. by destruct (b_version it). }
    rewrite Hfine. cbn [process_items]. unfold processSingleCreateItem, run_item. cbv zeta.
    rewrite Hact, Ht, bool_decide_eq_false_2, (bool_decide_eq_true_2 (_ = _)) by done. cbn [default from_option].
    assert (Hrun : updateContract_extra (extra_amount it) i (update_dto it) (service w) = (Ok c', {| repo := s'; prepared := prepared (service w) |})).
    { unfold updateContract_extra, bind, lift_result, throw_if, bounds_guard, lift_repo, ret.
      cbn [u_version update_dto]. rewrite Hver. unfold has_fields. cbn [u_title update_dto]. rewrite Htitle. cbn [defined orb negb].
      assert (Hbd : update_bounds milestonesEnabled (update_dto it) = Ok tt).
      { unfold update_bounds, effective_milestones. cbn. rewrite Hms. by destruct milestonesEnabled. }
      rewrite Hbd. cbn. fold (update_fields (update_dto it)). by rewrite Hup. }
    change (Datatypes.id i) with i. rewrite Hrun. cbn. pose proof (update_law i (update_fields (update_dto it)) v (repo (service w)) (ok_repo w Hok) (service_update_fields _)) as L.
    rewrite Hup in L. destruct L as (_ & (d & Hd' & _ & _ & ->)%spec_update_Ok & Hview). exists (merge_fields (update_fields (update_dto it)) d).
    unfold view_of in *. cbn [snd service repo]. rewrite Hview, lookup_insert_eq. split; [done|]. rewrite Hi in Hd'. injection Hd' as ->. cbn.
    by rewrite Htitle.
Qed.
End Owner.

End Bulk.

(** ** Witnesses and examples *)

Definition demo_item (act i : string) (t : option string) : item :=
  {| b_action := Some act; b_contractId := Some i; b_id := None; b_version := VNumber (of_int 0); b_title := t; b_description := None;
     b_amount := None; b_budget := VUndefined; b_status := None; b_clientId := Some "ann"%string; b_freelancerId := Some (Some "bob"%string);
     b_milestones := VUndefined |}.

Definition demo_new : item :=
  {| b_action := None; b_contractId := None; b_id := None; b_version := VUndefined; b_title := Some "logo"%string; b_description := None;
     b_amount := None; b_budget := VNumber (of_int 50); b_status := None; b_clientId := Some "ann"%string; b_freelancerId := Some (Some "bob"%string);
     b_milestones := VUndefined |}.

(** An update of nobody's contract, a new one, and a deletion. *)
Definition demo_batch : list item := [demo_item "update" "none" (Some "x"%string); demo_new; demo_item "delete" "k1" None].

Definition demo_uuids (k : nat) : string := "new-" +:+ pretty k.

Definition demo_now : string := "2026-01-03T00:00:00.000Z".

Lemma demo_distinct : Inj (=) (=) demo_uuids.
Proof. intros a b H. unfold demo_uuids in H. apply (inj (String.append "new-")) in H. by apply (inj pretty) in H. Defined.

Lemma demo_nonempty k : demo_uuids k <> EmptyString.
Proof. discriminate. Defined.

Lemma demo_svc_ok : svc_ok sample_svc.
Proof. exact demo_api_ok. Defined.

Lemma demo_status l : Forall (fun it => b_status it = None) l -> Forall status_ok l.
Proof. intros H. eapply Forall_impl; [exact H|]. intros it E x Hx. rewrite E in Hx. discriminate Hx. Defined.

Lemma demo_unused : unused demo_uuids 0 sample_svc.
Proof. intros k _. reflexivity. Defined.


Lemma bulk_never_deletes_witness :
  exists c', view (repo (bulkCreateContracts true "" demo_uuids demo_now [demo_item "delete" "k1" None] sample_svc).2) !! "k1"%string = Some c' /\
    deletedAt c' = None.
Proof.
  destruct (bulk_never_deletes true "" demo_uuids demo_now demo_distinct demo_nonempty [demo_item "delete" "k1" None] sample_svc "k1"
    (Sqlite.toContract (Sqlite.sample_row "k1" "2026-01-01T00:00:00.000Z" None)) demo_svc_ok
    (demo_status [demo_item "delete" "k1" None] ltac:(repeat constructor)) demo_unused) as (c' & H1 & H2); [vm_compute; reflexivity|].
  exists c'. split; [exact H1|]. destruct H2 as (_ & _ & _ & H2 & _). exact H2.
Defined.

(** A token for a client who owns nothing. *)
Definition eve_verify (token : string) : result Authz.jwt_error Authz.JwtPayload :=
  Ok {| Authz.sub := Some "eve"%string; Authz.claim_email := Some "eve@x.io"%string; Authz.claim_role := Some "client"%string |}.

Definition eve_bulk (v : value) : option (list item) := Some [demo_item "update" "k1" (Some "taken"%string)].

Lemma bulk_edits_others_witness :
  exists d, view_of (bulk_route true "" demo_uuids demo_now eve_verify demo_sha demo_number eve_bulk
    (demo_request "client" "key" "k1" VUndefined) demo_api).2 !! "k1"%string = Some d /\ title d = "taken"%string.
Proof.
  destruct (bulk_edits_others true "" demo_uuids demo_now None Cursor.iso_shaped eve_verify demo_sha demo_number (fun _ => true) demo_create demo_update
    (fun r => Some r) (fun r => Some r) (fun _ => true) eve_bulk (demo_request "client" "key" "k1" VUndefined) demo_api
    {| Authz.id := "eve"; Authz.email := "eve@x.io"; Authz.role := "client" |}
    (Sqlite.toContract (Sqlite.sample_row "k1" "2026-01-01T00:00:00.000Z" None)) "k1" (demo_item "update" "k1" (Some "taken"%string)) "taken" 0
    (merge_fields (update_fields (update_dto (demo_item "update" "k1" (Some "taken"%string)))) (Sqlite.toContract (Sqlite.sample_row "k1" "2026-01-01T00:00:00.000Z" None)))
    (updateWithVersion "k1" (update_fields (update_dto (demo_item "update" "k1" (Some "taken"%string)))) 0 Sqlite.sample_db).2
    (buildScopedKey demo_sha "eve" "key") (computePayloadHash demo_sha demo_number VUndefined) [] demo_api_ok)
    as [_ (d & H1 & H2 & _)]; try (vm_compute; first [reflexivity | discriminate]).
  exists d. split; [exact H1|exact H2].
Defined.

(** Twenty-six items are refused, though the schema and the documentation admit a hundred. *)
Example batch_of_26_refused :
  status_of (bulkCreateContracts true "" demo_uuids demo_now (repeat demo_new 26) sample_svc).1 = 400.
Proof. vm_compute. reflexivity. Qed.

(** The amount of an update is dropped: the item succeeds and the contract keeps its amount. *)
Example bulk_amount_dropped :
  let it := {| b_action := Some "update"%string; b_contractId := Some "k1"%string; b_id := None; b_version := VNumber (of_int 0); b_title := None;
               b_description := None; b_amount := Some (of_int 7); b_budget := VUndefined; b_status := None; b_clientId := None;
               b_freelancerId := None; b_milestones := VUndefined |} in
  match (processSingleCreateItem true "" "u" demo_now it 0 sample_svc).1 with
  | {| i_code := 200; i_data := Some c |} =>
      amount c = amount (Sqlite.toContract (Sqlite.sample_row "k1" "2026-01-01T00:00:00.000Z" None)) /\ version c = 1
  | _ => False
  end.
Proof. vm_compute. split; reflexivity. Qed.

(** A version that is missing is reported as a conflict, 409, where the single route answers 400. *)
Example missing_version_is_conflict : mapErrorToItemResult "" (Service MissingVersionError) = (409, "ERR_CONFLICT"%string).
Proof. vm_compute. reflexivity. Qed.
End ContractsBulk.
