(* ===== verification/EmailTransport.v ===== *)
(** * Outbound e-mail: src/queue/processors/email.transport.ts,
    src/queue/processors/email-processor.ts, src/services/notification.transport.ts

    The SMTP client is a state machine driven by what the socket delivers: chunks of
    text, errors and the timeout.  It is modelled with everything it writes.  The
    HTTP providers (SES, SendGrid) and the configuration are parameters; the signing
    of SES requests is not modelled.  Logging is left out but for what it redacts. *)

From stdpp Require Import prelude strings.
From Stdlib Require Import ZArith Lia Ascii.
From S2P Require Import Prelude JsString Regex Cursor Notifications ApiKeyAccess.
Open Scope Z_scope.

Module Email.
Import Notifications.

Notation text := (list ascii).

(** An [EmailMessage] is a notification's [EmailPayload]; its template is only logged. *)
Notation EmailMessage := EmailPayload.

(** ** Checks *)

(** [email.slice(email.indexOf('@') + 1)], when there is one. *)
Fixpoint after_at (l : text) : option text :=
  match l with [] => None | c :: l' => if is_char "@" c then Some l' else after_at l' end.

Definition redactEmailAddress (email : string) : text :=
  match after_at (chars email) with Some d => chars "[REDACTED]@" ++ d | None => chars "[REDACTED]" end.

(** The same checks as [NotificationService.isValidEmail]. *)
Definition isValidRecipientEmail (address : string) : bool := isValidEmail address.

Definition has_crlf (s : string) : bool := re_search_class is_crlf s.

Definition UNSAFE : string := "Unsafe email payload: header injection characters detected".

Definition assertSafeEmailHeaders (m : EmailMessage) : result string unit :=
  if has_crlf (to m) || has_crlf (subject m) || has_crlf (body m) then Err UNSAFE else Ok tt.

(** ** The SMTP dialogue *)

Record smtp_options : Type := {
  host : string; user : option string; password : option string; from : string;
  o_to : string; o_subject : string; o_body : string;
}.

Definition CR : ascii := "013"%char.
Definition LF : ascii := "010"%char.
Definition CRLF : text := [CR; LF].

(** [s.split('\r\n')] *)
Fixpoint split_crlf (l : text) : list text :=
  match l with
  | [] => [[]]
  | a :: l' =>
      let push := match split_crlf l' with [] => [[a]] | p :: ps => (a :: p) :: ps end in
      match l' with
      | b :: l'' => if is_char CR a && is_char LF b then [] :: split_crlf l'' else push
      | [] => push
      end
  end.

Definition header_lines (o : smtp_options) : list text :=
  [chars "From: " ++ chars (from o); chars "To: " ++ chars (o_to o); chars "Subject: " ++ chars (o_subject o);
   chars "MIME-Version: 1.0"; chars "Content-Type: text/plain; charset=utf-8"; []].

(** [lines.join('\r\n')] *)
Fixpoint join_crlf (l : list text) : text :=
  match l with [] => [] | [x] => x | x :: l' => x ++ CR :: LF :: join_crlf l' end.

Definition messageData (o : smtp_options) : text := join_crlf (header_lines o ++ [chars (o_body o)]).

Inductive stage_name : Type := Greeting | Ehlo | AuthOffer | AuthUser | AuthPass | MailFrom | RcptTo | Data | Done.

(** [outcome]: how the promise was settled; [written]: the commands, each followed by a
    line break on the wire. *)
Record session : Type := { stage : stage_name; written : list text; outcome : option (result text unit) }.

Definition base64 (s : string) : text := Access.base64_encode (Cursor.utf8_encode (chars s)).

(** [options.user && options.password] *)
Definition truthy (o : option string) : option string := match o with Some s => if bool_decide (s = EmptyString) then None else Some s | None => None end.

Definition send_command (c : text) (next : stage_name) (s : session) : session :=
  {| stage := next; written := written s ++ [c]; outcome := outcome s |}.

(** A promise is settled once. *)
Definition finish (r : result text unit) (s : session) : session :=
  {| stage := stage s; written := written s; outcome := Some (default r (outcome s)) |}.

Definition mail_from (o : smtp_options) : text := chars "MAIL FROM:<" ++ chars (from o) ++ chars ">".
Definition rcpt_to (o : smtp_options) : text := chars "RCPT TO:<" ++ chars (o_to o) ++ chars ">".
Definition ehlo (o : smtp_options) : text := chars "EHLO " ++ chars (host o).
Definition message_command (o : smtp_options) : text := messageData o ++ CR :: LF :: chars ".".

(** [Number.parseInt(response.slice(0, 3), 10)] *)
Definition code_of (response : text) : option Z := parse_int (Cursor.of_chars (take 3 response)).

Definition on_response (o : smtp_options) (s : session) (response : text) : session :=
  match code_of response with
  | None => s
  | Some code =>
      let refuse := if 400 <=? code then finish (Err response) s else s in
      match stage s with
      | Greeting => if code =? 220 then send_command (ehlo o) Ehlo s else refuse
      | Ehlo =>
          if code =? 250 then
            match truthy (user o), truthy (password o) with
            | Some _, Some _ => send_command (chars "AUTH LOGIN") AuthOffer s
            | _, _ => send_command (mail_from o) MailFrom s
            end
          else refuse
      | AuthOffer => if code =? 334 then send_command (base64 (default EmptyString (user o))) AuthUser s else refuse
      | AuthUser => if code =? 334 then send_command (base64 (default EmptyString (password o))) AuthPass s else refuse
      | AuthPass => if code =? 235 then send_command (mail_from o) MailFrom s else refuse
      | MailFrom => if code =? 250 then send_command (rcpt_to o) RcptTo s else refuse
      | RcptTo => if code =? 250 then send_command (chars "DATA") Data s else refuse
      | Data => if code =? 354 then send_command (message_command o) Done s else refuse
      | Done => if code =? 250 then finish (Ok tt) (send_command (chars "QUIT") Done s) else refuse
      end
  end.

(** [buffer.split('\r\n').filter(Boolean)]; the buffer is emptied, so a chunk is read
    without what came before. *)
Definition responses (chunk : text) : list text := filter (fun l => l <> []) (split_crlf chunk).

Inductive socket_event : Type := Chunk (t : text) | SocketError (m : text) | TimedOut.

Definition on_event (timeout_message : text) (o : smtp_options) (s : session) (e : socket_event) : session :=
  match e with
  | Chunk t => foldl (on_response o) s (responses t)
  | SocketError m => finish (Err m) s
  | TimedOut => finish (Err timeout_message) s
  end.

Definition connected : session := {| stage := Greeting; written := []; outcome := None |}.

Definition sendViaSmtp (timeout_message : text) (o : smtp_options) (events : list socket_event) : session :=
  foldl (on_event timeout_message o) connected events.

(** ** Transports *)

Record smtp_config : Type := { s_host : string; s_port : Z; s_user : option string; s_password : option string; s_from : string; s_secure : bool }.
Record ses_config : Type := { a_key : option string; a_secret : option string; a_region : string; a_from : string }.
Record sendgrid_config : Type := { g_key : string; g_from : string }.

Inductive EmailTransport : Type := Console | Smtp (c : smtp_config) | Ses (c : ses_config) | SendGrid (c : sendgrid_config).

Record EnvConfig : Type := {
  EMAIL_PROVIDER : string; SMTP_HOST : option string; SMTP_PORT : option Z; SMTP_USER : option string; SMTP_PASSWORD : option string;
  SMTP_FROM : option string; SMTP_SECURE : option bool; AWS_ACCESS_KEY_ID : option string; AWS_SECRET_ACCESS_KEY : option string;
  AWS_REGION : option string; SENDGRID_API_KEY : option string;
}.

Definition createEmailTransportFromEnv (env : EnvConfig) : result string EmailTransport :=
  if bool_decide (EMAIL_PROVIDER env = "smtp"%string) then
    match truthy (SMTP_HOST env), SMTP_PORT env, truthy (SMTP_FROM env) with
    | Some h, Some p, Some f =>
        if p =? 0 then Err "SMTP email transport selected but SMTP_HOST, SMTP_PORT, and SMTP_FROM are required"%string
        else Ok (Smtp {| s_host := h; s_port := p; s_user := SMTP_USER env; s_password := SMTP_PASSWORD env; s_from := f;
                         s_secure := default false (SMTP_SECURE env) |})
    | _, _, _ => Err "SMTP email transport selected but SMTP_HOST, SMTP_PORT, and SMTP_FROM are required"%string
    end
  else if bool_decide (EMAIL_PROVIDER env = "ses"%string) then
    match truthy (SMTP_FROM env), truthy (AWS_REGION env) with
    | Some f, Some r => Ok (Ses {| a_key := AWS_ACCESS_KEY_ID env; a_secret := AWS_SECRET_ACCESS_KEY env; a_region := r; a_from := f |})
    | _, _ => Err "SES email transport selected but SMTP_FROM and AWS_REGION are required"%string
    end
  else if bool_decide (EMAIL_PROVIDER env = "sendgrid"%string) then
    match truthy (SMTP_FROM env), truthy (SENDGRID_API_KEY env) with
    | Some f, Some k => Ok (SendGrid {| g_key := k; g_from := f |})
    | _, _ => Err "SendGrid email transport selected but SMTP_FROM and SENDGRID_API_KEY are required"%string
    end
  else Ok Console.

(** What the network does: the events of a socket, or the provider's answer to the one request. *)
Record network : Type := { events : list socket_event; http : EmailMessage -> result string (option string) }.

Definition smtp_options_of (c : smtp_config) (m : EmailMessage) : smtp_options :=
  {| host := s_host c; user := s_user c; password := s_password c; from := s_from c; o_to := to m; o_subject := subject m; o_body := body m |}.

(** The provider's message id, or the error; [None]: the promise is pending. *)
Definition send (timeout_message : text) (net : network) (t : EmailTransport) (m : EmailMessage) : option (result text (option string)) :=
  match assertSafeEmailHeaders m with
  | Err e => Some (Err (chars e))
  | Ok _ =>
      match t with
      | Console => Some (Ok None)
      | Smtp c =>
          match outcome (sendViaSmtp timeout_message (smtp_options_of c m) (events net)) with
          | None => None
          | Some (Ok _) => Some (Ok None)
          | Some (Err e) => Some (Err (chars "SMTP delivery failed: " ++ e))
          end
      | Ses c =>
          match truthy (a_key c), truthy (a_secret c) with
          | Some _, Some _ =>
              match http net m with Ok i => Some (Ok i) | Err e => Some (Err (chars "SES delivery failed: " ++ chars e)) end
          | _, _ => Some (Err (chars "SES delivery failed: AWS credentials are not configured"))
          end
      | SendGrid _ => match http net m with Ok i => Some (Ok i) | Err e => Some (Err (chars "SendGrid delivery failed: " ++ chars e)) end
      end
  end.

(** What a send writes to the socket. *)
Definition smtp_writes (timeout_message : text) (net : network) (t : EmailTransport) (m : EmailMessage) : list text :=
  match assertSafeEmailHeaders m, t with
  | Ok _, Smtp c => written (sendViaSmtp timeout_message (smtp_options_of c m) (events net))
  | _, _ => []
  end.

(** ** The queue's processor *)

Inductive job : Type := Delivered (recipient : string) | JobError (e : text) | Waiting.

(** Before a transport is asked. *)
Definition check_payload (m : EmailMessage) : result string unit :=
  if negb (isValidRecipientEmail (to m)) then Err ("Invalid email address: " +:+ to m)
  else if bool_decide (subject m = EmptyString) || bool_decide (body m = EmptyString) then Err "Email subject and body are required"%string
  else assertSafeEmailHeaders m.

Definition processEmailNotification (timeout_message : text) (net : network) (env : EnvConfig) (m : EmailMessage) : job * list text :=
  match check_payload m with
  | Err e => (JobError (chars e), [])
  | Ok _ =>
      match createEmailTransportFromEnv env with
      | Err e => (JobError (chars e), [])
      | Ok t => (match send timeout_message net t m with Some (Ok _) => Delivered (to m) | Some (Err e) => JobError e | None => Waiting end,
                 smtp_writes timeout_message net t m)
      end
  end.

(** ** The notification service's transports *)

(** [ProviderEmailNotificationTransport.sendEmail]; [None]: pending. *)
Definition provider_sendEmail (timeout_message : text) (net : network) (t : EmailTransport) (p : EmailPayload) : option (result text unit) :=
  if negb (isValidRecipientEmail (to p)) then Some (Err (chars "Invalid email address"))
  else match assertSafeEmailHeaders p with
       | Err e => Some (Err (chars e))
       | Ok _ => match send timeout_message net t p with Some (Ok _) => Some (Ok tt) | Some (Err e) => Some (Err e) | None => None end
       end.

(** [createNotificationEmailTransport]: unlike the queue's, it refuses SES without credentials at once. *)
Definition createNotificationEmailTransport (env : EnvConfig) : result string EmailTransport :=
  if bool_decide (EMAIL_PROVIDER env = "ses"%string) then
    match truthy (SMTP_FROM env), truthy (AWS_REGION env), truthy (AWS_ACCESS_KEY_ID env), truthy (AWS_SECRET_ACCESS_KEY env) with
    | Some f, Some r, Some k, Some x => Ok (Ses {| a_key := Some k; a_secret := Some x; a_region := r; a_from := f |})
    | _, _, _, _ => Err "SES email transport selected but SMTP_FROM, AWS_REGION, AWS_ACCESS_KEY_ID, and AWS_SECRET_ACCESS_KEY are required"%string
    end
  else createEmailTransportFromEnv env.

(** ** What is written *)

Definition auth_commands (o : smtp_options) : list text :=
  match truthy (user o), truthy (password o) with
  | Some u, Some p => [chars "AUTH LOGIN"; base64 u; base64 p]
  | _, _ => []
  end.

(** The whole dialogue, in order. *)
Definition script (o : smtp_options) : list text :=
  ehlo o :: auth_commands o ++ [mail_from o; rcpt_to o; chars "DATA"; message_command o; chars "QUIT"].

(** What has been written on reaching a stage. *)
Definition sofar (o : smtp_options) (st : stage_name) : list text :=
  match st with
  | Greeting => []
  | Ehlo => [ehlo o]
  | AuthOffer => ehlo o :: take 1 (auth_commands o)
  | AuthUser => ehlo o :: take 2 (auth_commands o)
  | AuthPass => ehlo o :: auth_commands o
  | MailFrom => ehlo o :: auth_commands o ++ [mail_from o]
  | RcptTo => ehlo o :: auth_commands o ++ [mail_from o; rcpt_to o]
  | Data => ehlo o :: auth_commands o ++ [mail_from o; rcpt_to o; chars "DATA"]
  | Done => ehlo o :: auth_commands o ++ [mail_from o; rcpt_to o; chars "DATA"; message_command o]
  end.

Definition authenticating (st : stage_name) : bool := match st with AuthOffer | AuthUser | AuthPass => true | _ => false end.

Record in_order (o : smtp_options) (s : session) : Prop := {
  io_auth : authenticating (stage s) = true -> auth_commands o <> [];
  io_written : exists n, written s = sofar o (stage s) ++ repeat (chars "QUIT") n /\
    (stage s <> Done -> n = 0%nat) /\ (outcome s = Some (Ok tt) -> n <> 0%nat);
}.

Lemma truthy_default x v : truthy x = Some v -> default EmptyString x = v.
Proof. destruct x as [a|]; [|done]. cbn. case_bool_decide; [done|]. by intros [= ->]. Qed.

Lemma sent_in_order o s c next :
  in_order o s -> stage s <> Done -> sofar o next = sofar o (stage s) ++ [c] -> (authenticating next = true -> auth_commands o <> []) ->
  in_order o (send_command c next s).
Proof.
  intros [Ha (n & Hw & Hn & Ho)] Hs Hnext Hauth. specialize (Hn Hs). subst n. split; [done|]. exists 0%nat. cbn.
  rewrite Hw, Hnext. cbn [repeat]. rewrite !app_nil_r. split_and!; done.
Qed.

Lemma finish_err_in_order o s m : in_order o s -> in_order o (finish (Err m) s).
Proof.
  intros [Ha (n & Hw & Hn & Ho)]. split; [done|]. exists n. cbn. split_and!; try done.
  intros E. apply Ho. destruct (outcome s); [done|]. cbn in E. done.
Qed.

Lemma quit_in_order o s : in_order o s -> stage s = Done -> in_order o (finish (Ok tt) (send_command (chars "QUIT") Done s)).
Proof.
  intros [Ha (n & Hw & Hn & Ho)] Hs. split; [done|]. exists (Datatypes.S n). cbn [stage written finish send_command outcome].
  rewrite Hs in Hw. split_and!; try done. rewrite Hw, <- app_assoc. f_equal. cbn [repeat]. by rewrite <- repeat_cons.
Qed.

Lemma on_response_in_order o s r : in_order o s -> in_order o (on_response o s r).
Proof.
  intros H. unfold on_response. destruct (code_of r) as [code|]; [|done].
  assert (Hr : in_order o (if 400 <=? code then finish (Err r) s else s)) by (destruct (400 <=? code); [by apply finish_err_in_order|done]).
  pose proof (io_auth _ _ H) as Ha. cbv zeta.
  assert (Hcases : auth_commands o = [] \/ exists u p, truthy (user o) = Some u /\ truthy (password o) = Some p /\ auth_commands o = [chars "AUTH LOGIN"; base64 u; base64 p]).
  { unfold auth_commands. destruct (truthy (user o)) as [u|], (truthy (password o)) as [p|]; eauto. right. by exists u, p. }
  destruct (stage s) eqn:Hs; destruct (_ =? _); try exact Hr.
  - apply sent_in_order; rewrite ?Hs; done.
  - destruct Hcases as [E|(u & p & Hu & Hp & E)].
    + destruct (truthy (user o)) as [u|] eqn:Hu, (truthy (password o)) as [p|] eqn:Hp;
        try (apply sent_in_order; rewrite ?Hs; try done; cbn; by rewrite E). unfold auth_commands in E. by rewrite Hu, Hp in E.
    + rewrite Hu, Hp. apply sent_in_order; rewrite ?Hs; try done; cbn; by rewrite E.
  - destruct Hcases as [E|(u & p & Hu & Hp & E)]; [by destruct (Ha eq_refl)|]. rewrite (truthy_default _ _ Hu).
    apply sent_in_order; rewrite ?Hs; try done; cbn; by rewrite E.
  - destruct Hcases as [E|(u & p & Hu & Hp & E)]; [by destruct (Ha eq_refl)|]. rewrite (truthy_default _ _ Hp).
    apply sent_in_order; rewrite ?Hs; try done; cbn; by rewrite E.
  - apply sent_in_order; rewrite ?Hs; done.
  - apply sent_in_order; rewrite ?Hs; try done. unfold sofar. by rewrite <- app_comm_cons, <- app_assoc.
  - apply sent_in_order; rewrite ?Hs; try done. unfold sofar. by rewrite <- app_comm_cons, <- app_assoc.
  - apply sent_in_order; rewrite ?Hs; try done. unfold sofar. by rewrite <- app_comm_cons, <- app_assoc.
  - by apply quit_in_order.
Qed.

Lemma sendViaSmtp_in_order tm o es : in_order o (sendViaSmtp tm o es).
Proof.
  unfold sendViaSmtp. assert (H : in_order o connected).
  { split; [done|]. by exists 0%nat. }
  revert H. generalize connected. induction es as [|e es IH]; intros s H; [done|]. cbn. apply IH. destruct e as [t|m|]; cbn.
  - revert s H. induction (responses t) as [|r rs IHr]; intros s H; [done|]. cbn. by apply IHr, on_response_in_order.
  - by apply finish_err_in_order.
  - by apply finish_err_in_order.
Qed.

(** ** Lines on the wire *)

Definition wire (ws : list text) : text := concat ((fun w => w ++ CRLF) <$> ws).

Notation clean := (Forall (fun c => is_crlf c = false)).

Lemma split_crlf_nonempty l : split_crlf l <> [].
Proof. destruct l as [|a [|b l]]; cbn; [done|done|]. destruct (_ && _); [done|]. destruct (match l with [] => _ | _ :: _ => _ end); done. Qed.

Lemma split_crlf_cons a b l : split_crlf (a :: b :: l) =
  if is_char CR a && is_char LF b then [] :: split_crlf l else match split_crlf (b :: l) with [] => [[a]] | p :: ps => (a :: p) :: ps end.
Proof. reflexivity. Qed.

(** A line break ends a line, whatever comes before it. *)
Lemma split_crlf_app w r : split_crlf (w ++ CR :: LF :: r) = split_crlf w ++ split_crlf r.
Proof.
  remember (length w) as n eqn:Hn. revert w Hn. induction (lt_wf n) as [n _ IH]. intros w ->.
  destruct w as [|a [|b w]].
  - reflexivity.
  - cbn [app]. rewrite split_crlf_cons. assert (E : is_char LF CR = false) by reflexivity. rewrite E, andb_false_r.
    change (split_crlf (CR :: LF :: r)) with ([] :: split_crlf r). reflexivity.
  - cbn [app]. rewrite !split_crlf_cons. destruct (_ && _).
    + rewrite (IH (length w)) by (cbn; try lia; reflexivity). reflexivity.
    + change (b :: w ++ CR :: LF :: r) with ((b :: w) ++ CR :: LF :: r). rewrite (IH (length (b :: w))) by (cbn; try lia; reflexivity).
      pose proof (split_crlf_nonempty (b :: w)). by destruct (split_crlf (b :: w)).
Qed.

Lemma split_clean t : clean t -> split_crlf t = [t].
Proof.
  induction t as [|a t IH]; intros H; [done|]. inversion H as [|? ? Ha Ht]; subst. specialize (IH Ht). destruct t as [|b t]; [done|].
  rewrite split_crlf_cons, IH. destruct (is_char CR a) eqn:E; [|done]. apply Ascii.eqb_eq in E. by subst a.
Qed.

Lemma split_wire ws : split_crlf (wire ws) = concat (split_crlf <$> ws) ++ [[]].
Proof.
  induction ws as [|w ws IH]; [done|]. unfold wire in *. cbn [fmap list_fmap concat]. unfold CRLF at 1. rewrite <- app_assoc. cbn [app].
  rewrite split_crlf_app, IH. by rewrite app_assoc.
Qed.

Lemma split_join ls : ls <> [] -> Forall clean ls -> split_crlf (join_crlf ls) = ls.
Proof.
  induction ls as [|x ls IH]; [done|]. intros _ H. inversion H as [|? ? Hx Hls]; subst. destruct ls as [|y ls]; [by apply split_clean|].
  change (join_crlf (x :: y :: ls)) with (x ++ CR :: LF :: join_crlf (y :: ls)). rewrite split_crlf_app, split_clean, IH by done. done.
Qed.

Lemma clean_chars s : has_crlf s = false <-> clean (chars s).
Proof. apply re_search_class_false. Qed.

Lemma base64_clean s : clean (base64 s).
Proof.
  unfold base64, Access.base64_encode. apply Forall_app. split.
  - apply Forall_fmap. eapply Forall_impl; [apply Cursor.b64_encode_charset|]. intros c. cbn.
    destruct c as [[] [] [] [] [] [] [] []]; vm_compute; congruence.
  - apply Forall_replicate. reflexivity.
Qed.

Record clean_options (o : smtp_options) : Prop := {
  cl_host : has_crlf (host o) = false; cl_from : has_crlf (from o) = false;
  cl_to : has_crlf (o_to o) = false; cl_subject : has_crlf (o_subject o) = false; cl_body : has_crlf (o_body o) = false;
}.

(** The dialogue by lines. *)
Definition blocks (o : smtp_options) : list (list text) :=
  [ehlo o] :: ((fun c => [c]) <$> auth_commands o) ++
  [[mail_from o]; [rcpt_to o]; [chars "DATA"]; header_lines o ++ [chars (o_body o); chars "."]; [chars "QUIT"]].

Lemma clean_app a b : clean a -> clean b -> clean (a ++ b).
Proof. intros. by apply Forall_app. Qed.

Lemma clean_const s : has_crlf s = false -> clean (chars s).
Proof. apply clean_chars. Qed.

Lemma header_lines_clean o : clean_options o -> Forall clean (header_lines o).
Proof.
  intros [_ Hf Ht Hs _]. unfold header_lines. repeat constructor; try apply clean_app; try (by apply clean_chars); by apply clean_const.
Qed.

Lemma split_script o : clean_options o -> split_crlf <$> script o = blocks o.
Proof.
  intros H. pose proof H as [Hh Hf Ht Hs Hb]. unfold script, blocks. cbn [fmap list_fmap]. f_equal.
  { apply split_clean, clean_app; [by apply clean_const|by apply clean_chars]. }
  rewrite fmap_app. f_equal.
  { unfold auth_commands. destruct (truthy (user o)), (truthy (password o)); try done. cbn [fmap list_fmap].
    rewrite !(split_clean (base64 _)) by apply base64_clean. reflexivity. }
  cbn [fmap list_fmap]. assert (Hm : clean (mail_from o) /\ clean (rcpt_to o)).
  { split; repeat apply clean_app; try (by apply clean_chars); by apply clean_const. }
  rewrite (split_clean (mail_from o)), (split_clean (rcpt_to o)) by apply Hm.
  unfold message_command, messageData. rewrite split_crlf_app, split_join.
  - rewrite <- app_assoc. reflexivity.
  - by destruct (header_lines o).
  - apply Forall_app. split; [by apply header_lines_clean|]. constructor; [by apply clean_chars|done].
Qed.

Lemma sofar_script o st : (authenticating st = true -> auth_commands o <> []) -> exists rest, script o = sofar o st ++ rest /\ rest <> [].
Proof.
  intros Ha. unfold script. set (tail := [mail_from o; rcpt_to o; chars "DATA"; message_command o; chars "QUIT"]).
  assert (Ht : forall n, exists rest, ehlo o :: auth_commands o ++ tail = (ehlo o :: take n (auth_commands o)) ++ rest /\ rest <> []).
  { intros n. exists (drop n (auth_commands o) ++ tail). cbn [app]. rewrite app_assoc, firstn_skipn. split; [done|]. by destruct (drop _ _). }
  assert (Hk : forall a b, tail = a ++ b -> b <> [] -> exists rest, ehlo o :: auth_commands o ++ tail = (ehlo o :: auth_commands o ++ a) ++ rest /\ rest <> []).
  { intros a b -> Hb. exists b. cbn [app]. by rewrite <- app_assoc. }
  destruct st; unfold sofar.
  - by eexists.
  - apply (Ht 0%nat).
  - apply Ht.
  - apply Ht.
  - destruct (Ht (length (auth_commands o))) as [rest Hr]. rewrite firstn_all in Hr. by exists rest.
  - by eapply (Hk [_]).
  - by eapply (Hk [_; _]).
  - by eapply (Hk [_; _; _]).
  - by eapply (Hk [_; _; _; _]).
Qed.

(** The written commands are the script up to some point, and the closing one again if
    the server repeats its last answer. *)
Lemma written_script tm o es : let s := sendViaSmtp tm o es in
  exists sent rest n, script o = sent ++ rest /\ written s = sent ++ repeat (chars "QUIT") n /\ (rest <> [] -> n = 0%nat) /\
    (outcome s = Some (Ok tt) -> rest = []).
Proof.
  cbv zeta. destruct (sendViaSmtp_in_order tm o es) as [Ha (n & Hw & Hn & Ho)]. set (s := sendViaSmtp tm o es) in *.
  destruct n as [|n].
  - destruct (sofar_script o (stage s) Ha) as (rest & Hr & Hne). exists (sofar o (stage s)), rest, 0%nat. split_and!; try done.
    intros E. by destruct (Ho E).
  - assert (Hd : stage s = Done) by (destruct (stage s); try done; by discriminate Hn).
    exists (script o), [], n. rewrite app_nil_r, Hw, Hd. split_and!; try done. unfold script, sofar. cbn [repeat app].
    by rewrite <- !app_assoc.
Qed.

Lemma assertSafe_clean m : assertSafeEmailHeaders m = Ok tt -> has_crlf (to m) = false /\ has_crlf (subject m) = false /\ has_crlf (body m) = false.
Proof. unfold assertSafeEmailHeaders. destruct (has_crlf (to m)), (has_crlf (subject m)), (has_crlf (body m)); done. Qed.

Lemma check_payload_ok m : check_payload m = Ok tt -> isValidEmail (to m) = true /\ assertSafeEmailHeaders m = Ok tt.
Proof.
  unfold check_payload, isValidRecipientEmail. destruct (isValidEmail (to m)); [|done]. cbn. by destruct (_ || _).
Qed.

(** C29: an e-mail job says to the mail server exactly what it should.  Whatever the
    payload, and whatever the server sends back and in whatever pieces, the lines the
    server reads are, in order, a beginning of the intended dialogue: the credentials
    only when both are configured, one sender, one recipient, the six header lines,
    the body as one line.  A job that reports delivery had the whole dialogue, and the
    recipient is a single address without separators or brackets. *)
Theorem smtp_dialogue_exact tm net env m c :
  createEmailTransportFromEnv env = Ok (Smtp c) -> has_crlf (s_host c) = false -> has_crlf (s_from c) = false ->
  let '(j, ws) := processEmailNotification tm net env m in
  exists sent rest n, blocks (smtp_options_of c m) = sent ++ rest /\
    split_crlf (wire ws) = concat sent ++ repeat (chars "QUIT") n ++ [[]] /\ (rest <> [] -> n = 0%nat) /\
    (forall a, j = Delivered a -> rest = [] /\ a = to m /\ safe_recipient (to m)).
Proof.
  intros Henv Hh Hf. unfold processEmailNotification. set (o := smtp_options_of c m).
  destruct (check_payload m) as [[]|e] eqn:Hc; [|by exists [], (blocks o), 0%nat].
  rewrite Henv. apply check_payload_ok in Hc as [Hv Hs]. unfold send, smtp_writes. rewrite Hs. fold o.
  apply assertSafe_clean in Hs as (H1 & H2 & H3).
  destruct (written_script tm o (events net)) as (sent & rest & n & Hscript & Hw & Hn & Ho).
  assert (Hb : blocks o = (split_crlf <$> sent) ++ (split_crlf <$> rest)) by (rewrite <- fmap_app, <- Hscript; symmetry; by apply split_script).
  exists (split_crlf <$> sent), (split_crlf <$> rest), n. split_and!; [done| | |].
  - rewrite split_wire, Hw, fmap_app, concat_app, <- app_assoc. f_equal. f_equal. clear. induction n as [|n IH]; [done|].
    cbn [repeat fmap list_fmap concat]. by rewrite IH.
  - intros Hr. apply Hn. by intros ->.
  - intros a Ha. destruct (outcome (sendViaSmtp tm o (events net))) as [[[]|e]|] eqn:Hout; try done. injection Ha as <-.
    rewrite (Ho eq_refl). split_and!; try done. by apply isValidEmail_safe.
Qed.

(** ** What the server stores *)

(** RFC 5321, 4.5.2: the data ends at a line that is a dot; of other lines that begin
    with a dot the first one is removed. *)
Definition unstuff (l : text) : text := match l with "."%char :: l' => l' | _ => l end.

Fixpoint data_read (ls : list text) : list text * list text :=
  match ls with
  | [] => ([], [])
  | l :: ls' => if bool_decide (l = chars ".") then ([], ls') else let '(m, rest) := data_read ls' in (unstuff l :: m, rest)
  end.

Lemma data_read_plain l ls : head l <> Some "."%char -> data_read (l :: ls) = let '(m, rest) := data_read ls in (l :: m, rest).
Proof.
  intros H. cbn. rewrite bool_decide_eq_false_2 by (by intros ->). destruct (data_read ls). f_equal. f_equal.
  destruct l as [|[[] [] [] [] [] [] [] []] l]; done.
Qed.

(** A message whose body begins with a dot is not delivered as it is.  The mail
    server stores the six header lines and the body exactly when the body does not
    begin with a dot; the client does not double one. *)
Theorem body_stored_iff o rest :
  data_read (header_lines o ++ [chars (o_body o); chars "."] ++ rest) = (header_lines o ++ [chars (o_body o)], rest) <->
  head (chars (o_body o)) <> Some "."%char.
Proof.
  unfold header_lines. cbn [app]. rewrite !data_read_plain by done. split.
  - intros H Hd. destruct (chars (o_body o)) as [|a l] eqn:E; [done|]. injection Hd as ->. cbn in H.
    case_bool_decide as Hb; [injection Hb as ->; cbn in H; by injection H|]. injection H as H. by apply (f_equal length) in H; cbn in H; lia.
  - intros Hd. by rewrite data_read_plain.
Qed.

(** ** A server that answers *)

Definition expected_codes (o : smtp_options) : list Z :=
  [220; 250] ++ (match auth_commands o with [] => [] | _ => [334; 334; 235] end) ++ [250; 250; 354; 250].

(** A chunk that is one reply line with this code. *)
Definition replies (code : Z) (chunk : text) : Prop := exists l, responses chunk = [l] /\ code_of l = Some code.

Lemma reply_step tm o s s' code chunk chunks :
  replies code chunk -> (forall l, code_of l = Some code -> on_response o s l = s') ->
  foldl (on_event tm o) s (Chunk <$> chunk :: chunks) = foldl (on_event tm o) s' (Chunk <$> chunks).
Proof. intros (l & Hl & Hc) H. cbn. rewrite Hl. cbn. by rewrite (H l Hc). Qed.

Ltac next_reply H :=
  let R := fresh "R" in
  apply Forall2_cons_inv_l in H as (? & ? & R & H & ->); erewrite reply_step; [|exact R|];
  [|intros ? Hcode; unfold on_response; rewrite Hcode; cbn [stage connected send_command Z.eqb Pos.eqb]; reflexivity].

(** The client completes the dialogue with a server that answers.  If every
    reply comes as a chunk of one line with the code the protocol expects, the message
    is accepted and the whole script was written. *)
Theorem smtp_completes tm o chunks :
  Forall2 replies (expected_codes o) chunks ->
  let s := sendViaSmtp tm o (Chunk <$> chunks) in outcome s = Some (Ok tt) /\ written s = script o.
Proof.
  intros H. cbv zeta. unfold sendViaSmtp, expected_codes, script in *.
  assert (Hcases : auth_commands o = [] /\ (truthy (user o) = None \/ truthy (password o) = None) \/
    exists u p, truthy (user o) = Some u /\ truthy (password o) = Some p /\ auth_commands o = [chars "AUTH LOGIN"; base64 u; base64 p]).
  { unfold auth_commands. destruct (truthy (user o)) as [u|], (truthy (password o)) as [p|]; eauto. right. by exists u, p. }
  destruct Hcases as [[E Hn]|(u & p & Hu & Hp & E)]; rewrite E in *; cbn [app] in *; next_reply H.
  - apply Forall2_cons_inv_l in H as (? & ? & R0 & H & ->).
    rewrite (reply_step _ _ _ (send_command (mail_from o) MailFrom (send_command (ehlo o) Ehlo connected)) _ _ _ R0).
    2:{ intros l Hl. unfold on_response. rewrite Hl. cbn [stage send_command Z.eqb Pos.eqb].
        destruct Hn as [->| ->]; [done|]. by destruct (truthy (user o)). }
    do 4 next_reply H. apply Forall2_nil_inv_l in H as ->. done.
  - apply Forall2_cons_inv_l in H as (? & ? & R0 & H & ->).
    rewrite (reply_step _ _ _ (send_command (chars "AUTH LOGIN") AuthOffer (send_command (ehlo o) Ehlo connected)) _ _ _ R0).
    2:{ intros l Hl. unfold on_response. rewrite Hl. cbn [stage send_command Z.eqb Pos.eqb]. by rewrite Hu, Hp. }
    rewrite <- (truthy_default _ _ Hu), <- (truthy_default _ _ Hp). do 7 next_reply H. apply Forall2_nil_inv_l in H as ->. done.
Qed.

(** ** Witnesses and examples *)

Definition demo_env : EnvConfig :=
  {| EMAIL_PROVIDER := "smtp"; SMTP_HOST := Some "mail.x.io"%string; SMTP_PORT := Some 465; SMTP_USER := None; SMTP_PASSWORD := None;
     SMTP_FROM := Some "app@x.io"%string; SMTP_SECURE := None; AWS_ACCESS_KEY_ID := None; AWS_SECRET_ACCESS_KEY := None; AWS_REGION := None;
     SENDGRID_API_KEY := None |}.

Definition demo_config : smtp_config :=
  {| s_host := "mail.x.io"; s_port := 465; s_user := None; s_password := None; s_from := "app@x.io"; s_secure := false |}.

Definition demo_mail (b : string) : EmailMessage := {| to := "ann@x.io"; subject := "hello"; body := b |}.

Definition reply_line (s : string) : text := chars s ++ CRLF.

Definition demo_replies : list text :=
  reply_line <$> ["220 ready"; "250 mail.x.io"; "250 sender ok"; "250 recipient ok"; "354 go on"; "250 queued"]%string.

Definition demo_net (es : list socket_event) : network := {| events := es; http := fun _ => Err "none"%string |}.

Lemma smtp_dialogue_exact_witness :
  let '(j, ws) := processEmailNotification [] (demo_net (Chunk <$> demo_replies)) demo_env (demo_mail "hi") in
  j = Delivered "ann@x.io" /\ safe_recipient "ann@x.io".
Proof.
  pose proof (smtp_dialogue_exact [] (demo_net (Chunk <$> demo_replies)) demo_env (demo_mail "hi") demo_config eq_refl eq_refl eq_refl) as H.
  assert (Hj : (processEmailNotification [] (demo_net (Chunk <$> demo_replies)) demo_env (demo_mail "hi")).1 = Delivered "ann@x.io")
    by (vm_compute; reflexivity).
  destruct (processEmailNotification [] _ demo_env (demo_mail "hi")) as [j ws]. cbn [fst] in Hj. destruct H as (sent & rest & n & _ & _ & _ & H).
  split; [exact Hj|]. apply (H _ Hj).
Defined.

Lemma smtp_completes_witness :
  outcome (sendViaSmtp [] (smtp_options_of demo_config (demo_mail "hi")) (Chunk <$> demo_replies)) = Some (Ok tt).
Proof.
  apply (smtp_completes [] (smtp_options_of demo_config (demo_mail "hi")) demo_replies).
  repeat constructor; eexists; split; vm_compute; reflexivity.
Defined.

(** A body of two lines is refused like an injected header. *)
Example two_line_body_refused :
  assertSafeEmailHeaders (demo_mail (String.string_of_list_ascii (chars "dear ann," ++ CRLF ++ chars "hi"))) = Err UNSAFE.
Proof. vm_compute. reflexivity. Qed.

(** The lines of a greeting reply are taken for replies to commands not sent yet: after
    a three-line answer to EHLO the client has written sender, recipient and DATA. *)
Example ehlo_lines_counted :
  let chunk := reply_line "250-mail.x.io" ++ reply_line "250-SIZE 1000000" ++ reply_line "250 8BITMIME" in
  written (sendViaSmtp [] (smtp_options_of demo_config (demo_mail "hi")) [Chunk (reply_line "220 ready"); Chunk chunk]) =
  chars <$> ["EHLO mail.x.io"; "MAIL FROM:<app@x.io>"; "RCPT TO:<ann@x.io>"; "DATA"]%string.
Proof. vm_compute. reflexivity. Qed.

(** A reply that arrives in two pieces is not recognised, and the session waits for its timeout. *)
Example split_reply_stalls :
  let s := sendViaSmtp [] (smtp_options_of demo_config (demo_mail "hi")) [Chunk (chars "22"); Chunk (chars "0 ready" ++ CRLF)] in
  (written s, outcome s) = ([], None).
Proof. vm_compute. reflexivity. Qed.

Example redacted : redactEmailAddress "ann@x.io" = chars "[REDACTED]@x.io".
Proof. reflexivity. Qed.
End Email.
