(* ===== verification/StellarClient.v ===== *)
(** * The Stellar RPC client: src/rpc/stellarClient.ts and src/rpc/stellarConfig.ts

    A call goes through a circuit breaker (CircuitBreaker.v) into a transport that
    retries (Retry.v) single attempts with a timeout.  What each attempt meets on the
    network, whether its timer had fired, and the random number of its backoff are
    given by the environment, attempt by attempt. *)

From stdpp Require Import prelude strings.
From Stdlib Require Import ZArith Lia.
From S2P Require Import Prelude JsValue JsArith JsString CircuitBreaker Retry.
Open Scope Z_scope.

Module Stellar.

(** ** Configuration *)

Record StellarRpcConfig : Type := { timeoutMs : Z; maxRetries : Z; retryBaseDelayMs : Z; retryMaxDelayMs : Z }.

Definition DEFAULT_STELLAR_RPC_CONFIG : StellarRpcConfig :=
  {| timeoutMs := 5000; maxRetries := 3; retryBaseDelayMs := 200; retryMaxDelayMs := 2000 |}.

Record rpc_env : Type := {
  STELLAR_RPC_TIMEOUT_MS : option string; STELLAR_RPC_MAX_RETRIES : option string;
  STELLAR_RPC_RETRY_BASE_DELAY_MS : option string; STELLAR_RPC_RETRY_MAX_DELAY_MS : option string;
}.

(** [z.string().default(d).transform(parseInt).pipe(z.number().int().min(lo).max(hi))] *)
Definition int_field (v : option string) (d lo hi : Z) : option Z :=
  match v with
  | None => Some d
  | Some s => match parse_int s with Some n => if (lo <=? n) && (n <=? hi) then Some n else None | None => None end
  end.

(** [None]: the error that is thrown when the module is loaded. *)
Definition loadStellarRpcConfig (env : rpc_env) : option StellarRpcConfig :=
  let d := DEFAULT_STELLAR_RPC_CONFIG in
  match int_field (STELLAR_RPC_TIMEOUT_MS env) (timeoutMs d) 1 120000, int_field (STELLAR_RPC_MAX_RETRIES env) (maxRetries d) 0 10,
        int_field (STELLAR_RPC_RETRY_BASE_DELAY_MS env) (retryBaseDelayMs d) 0 60000,
        int_field (STELLAR_RPC_RETRY_MAX_DELAY_MS env) (retryMaxDelayMs d) 0 60000 with
  | Some t, Some r, Some b, Some m =>
      if m <? b then None else Some {| timeoutMs := t; maxRetries := r; retryBaseDelayMs := b; retryMaxDelayMs := m |}
  | _, _, _, _ => None
  end.

(** The options [withRetry] gets; what the transport does not set has its default. *)
Definition loadDefaultTransportOptions (c : StellarRpcConfig) : Retry.RetryOptions :=
  {| Retry.maxAttempts := maxRetries c + 1; Retry.baseDelayMs := retryBaseDelayMs c; Retry.maxDelayMs := retryMaxDelayMs c;
     Retry.jitter := true; Retry.maxRetryAfterMs := Retry.maxRetryAfterMs Retry.DEFAULT_OPTIONS; Retry.retryAfterHeader := None |}.

(** ** One attempt *)

Section Transport.
Context {V : Type}.    (* the parsed bodies *)

(** What [fetchImpl] and [response.json()] do: the request is rejected, or there is a
    response whose body parses or not. *)
Inductive fetched : Type := Rejects (name : string) | Responds (status : Z) (json : option V).

Record attempt : Type := { a_fetched : fetched; a_aborted : bool; a_random : number; a_now : Z }.

Inductive rpc_error : Type :=
| StellarTimeoutError
| StellarRpcError (status : Z) (data : V)
| StellarJsonParseError
| OtherError (name : string).

Record RpcResponse : Type := { data : V; status : Z }.

(** [response.ok] *)
Definition response_ok (status : Z) : bool := (200 <=? status) && (status <=? 299).

Definition performFetchAttempt (a : attempt) : result rpc_error RpcResponse :=
  let caught e := Err (if a_aborted a then StellarTimeoutError else e) in
  match a_fetched a with
  | Rejects name => caught (OtherError name)
  | Responds st None => caught StellarJsonParseError
  | Responds st (Some d) => if response_ok st then Ok {| data := d; status := st |} else caught (StellarRpcError st d)
  end.

Definition isRetryableError (e : rpc_error) : bool :=
  match e with
  | StellarTimeoutError => true
  | StellarRpcError st _ => (st =? 429) || ((500 <=? st) && (st <? 600))
  | StellarJsonParseError => false
  | OtherError name => negb (bool_decide (name = "SyntaxError"%string) || bool_decide (name = "StellarJsonParseError"%string))
  end.

(** ** The transport *)

Context (int_text : Z -> string) (date_parse : string -> option Z).

Definition draw (net : nat -> attempt) (i : nat) : Retry.round_draw :=
  {| Retry.outcome := performFetchAttempt (net i); Retry.now := a_now (net i); Retry.random := a_random (net i) |}.

(** The answer, the number of fetches and the sleeps between them. *)
Definition createStellarTransport (o : Retry.RetryOptions) (net : nat -> attempt) : result (option rpc_error) RpcResponse * nat * list number :=
  Retry.withRetry int_text date_parse isRetryableError o (draw net).

(** ** The client *)

Definition breaker_options : Breaker.options := {| Breaker.failureThreshold := 5; Breaker.successThreshold := 1; Breaker.timeout := 30000 |}.

Inductive call_result : Type := CircuitOpen | Answered (r : result (option rpc_error) RpcResponse).

(** A call that begins at [now1] and settles at [now2]; the fetches it makes. *)
Definition call (o : Retry.RetryOptions) (net : nat -> attempt) (now1 now2 : Z) (b : Breaker.breaker) : call_result * nat * Breaker.breaker :=
  match Breaker.begin breaker_options now1 b with
  | (Breaker.Rejected, b') => (CircuitOpen, 0%nat, b')
  | (_, b') =>
      let '(r, calls, _) := createStellarTransport o net in
      (Answered r, calls, Breaker.finish breaker_options (match r with Ok _ => true | Err _ => false end) now2 b')
  end.

(** ** Properties *)

Lemma int_field_bounds v d lo hi n : lo <= d <= hi -> int_field v d lo hi = Some n -> lo <= n <= hi.
Proof.
  intros Hd. unfold int_field. destruct v as [s|]; [|by intros [= <-]]. destruct (parse_int s) as [z|]; [|done].
  destruct (_ && _) eqn:E; [|done]. intros [= <-]. apply andb_true_iff in E as [?%Z.leb_le ?%Z.leb_le]. lia.
Qed.

Lemma config_bounds env c : loadStellarRpcConfig env = Some c ->
  1 <= timeoutMs c <= 120000 /\ 0 <= maxRetries c <= 10 /\ 0 <= retryBaseDelayMs c <= retryMaxDelayMs c /\ retryMaxDelayMs c <= 60000.
Proof.
  unfold loadStellarRpcConfig. cbv zeta. destruct (int_field _ _ 1 120000) as [t|] eqn:Ht; [|done].
  destruct (int_field _ _ 0 10) as [r|] eqn:Hr; [|done]. destruct (int_field (STELLAR_RPC_RETRY_BASE_DELAY_MS env) _ 0 60000) as [b|] eqn:Hb; [|done].
  destruct (int_field (STELLAR_RPC_RETRY_MAX_DELAY_MS env) _ 0 60000) as [m|] eqn:Hm; [|done]. destruct (Z.ltb_spec m b); [done|]. intros [= <-]. cbn.
  apply int_field_bounds in Ht, Hr, Hb, Hm; cbn in *; lia.
Qed.

Lemma options_fine env c : loadStellarRpcConfig env = Some c -> Retry.options_ok (loadDefaultTransportOptions c).
Proof.
  intros H%config_bounds. unfold Retry.options_ok. cbn.
  change (Retry.maxRetryAfterMs Retry.DEFAULT_OPTIONS) with 60000. lia.
Qed.

(** The attempt a call ends with. *)
Definition last_attempt (c : StellarRpcConfig) (net : nat -> attempt) (n : nat) : Prop :=
  (forall i, (i < n)%nat -> exists e, performFetchAttempt (net i) = Err e /\ isRetryableError e = true) /\
  match performFetchAttempt (net n) with
  | Ok _ => True
  | Err e => isRetryableError e = false \/ Z.of_nat n = maxRetries c
  end.

Lemma transport_spec env c net : loadStellarRpcConfig env = Some c -> (forall i, between 0 (a_random (net i)) 1) ->
  let '(r, calls, sleeps) := createStellarTransport (loadDefaultTransportOptions c) net in
  exists n, Z.of_nat n <= maxRetries c /\ calls = S n /\ last_attempt c net n /\
    r = (match performFetchAttempt (net n) with Ok x => Ok x | Err e => Err (Some e) end) /\
    length sleeps = n /\ Forall (fun d => between 0 d 60000) sleeps.
Proof.
  intros Hc Hr. pose proof (config_bounds _ _ Hc) as Hb. pose proof (options_fine _ _ Hc) as Ho. unfold createStellarTransport, Retry.withRetry.
  set (o := loadDefaultTransportOptions c) in *. assert (Hmax : Retry.maxAttempts o = maxRetries c + 1) by reflexivity.
  pose proof (Retry.sleeps_bounded int_text date_parse isRetryableError o (draw net) (Z.to_nat (Retry.maxAttempts o)) 0 None Ho Hr ltac:(lia)) as Hs.
  destruct (Retry.retry_loop_spec int_text date_parse isRetryableError o (draw net) (Z.to_nat (Retry.maxAttempts o)) 0 None ltac:(lia) ltac:(lia))
    as (n & Hn & Hfin & Hbefore & Hres).
  destruct (Retry.retry_loop _ _ _ _ _ _ _ _) as [[r calls] sleeps]. destruct Hres as (-> & -> & Hl). cbn [Nat.add] in *. exists n.
  split_and!; try done; try lia.
  - unfold Retry.final in *. cbn [Retry.outcome draw] in *. split.
    + intros i Hi. specialize (Hbefore i Hi). destruct (performFetchAttempt (net i)) as [x|e]; [done|]. exists e. split; [done|].
      apply orb_false_iff in Hbefore as [_ H]. by apply negb_false_iff.
    + destruct (performFetchAttempt (net n)) as [x|e]; [done|]. apply orb_true_iff in Hfin as [H%bool_decide_eq_true|H%negb_true_iff]; [right; lia|by left].
  - eapply Forall_impl; [exact Hs|]. intros d (u & -> & Hu). exists u. split; [done|].
    pose proof num_scale_pos. assert (Z.max (Retry.maxDelayMs o) (Retry.maxRetryAfterMs o) <= 60000)
      by (change (Retry.maxRetryAfterMs o) with 60000; change (Retry.maxDelayMs o) with (retryMaxDelayMs c); lia). nia.
Qed.

(** C38: a call to the network ends, after a bounded number of attempts, with one
    outcome for the circuit.  When the circuit rejects the call, nothing is fetched.
    Otherwise there are at most one more fetches than the configured retries, and
    never more than eleven; all but the last failed with an error worth repeating, the
    last decides the answer, and the circuit records that one answer. *)
Theorem stellar_call_bounded env c net now1 now2 b :
  loadStellarRpcConfig env = Some c -> (forall i, between 0 (a_random (net i)) 1) ->
  let '(r, fetches, b') := call (loadDefaultTransportOptions c) net now1 now2 b in
  match r with
  | CircuitOpen => fetches = 0%nat /\ Breaker.begin breaker_options now1 b = (Breaker.Rejected, b')
  | Answered x => exists n, fetches = S n /\ Z.of_nat n <= maxRetries c /\ (fetches <= 11)%nat /\ last_attempt c net n /\
      x = (match performFetchAttempt (net n) with Ok v => Ok v | Err e => Err (Some e) end) /\
      b' = Breaker.finish breaker_options (match performFetchAttempt (net n) with Ok _ => true | Err _ => false end) now2
             (Breaker.begin breaker_options now1 b).2
  end.
Proof.
  intros Hc Hr. pose proof (transport_spec env c net Hc Hr) as Ht. pose proof (config_bounds _ _ Hc) as Hb. unfold call.
  destruct (Breaker.begin breaker_options now1 b) as [[] b'] eqn:Eb; [done| |];
    (destruct (createStellarTransport _ _) as [[x calls] sleeps]; destruct Ht as (n & Hn & -> & Hlast & -> & _);
     exists n; split_and!; try done; try lia; by destruct (performFetchAttempt (net n))).
Qed.

(** A gateway error with a page instead of JSON is not retried.  The body is parsed
    before the status is looked at, so an attempt answered 5xx with a body that is not
    JSON ends the call after that one fetch, though a 5xx counts as transient. *)
Theorem unparsed_gateway_error_final env c net st :
  loadStellarRpcConfig env = Some c -> (forall i, between 0 (a_random (net i)) 1) ->
  500 <= st < 600 -> a_fetched (net 0%nat) = Responds st None -> a_aborted (net 0%nat) = false ->
  (createStellarTransport (loadDefaultTransportOptions c) net).1 = (Err (Some StellarJsonParseError), 1%nat) /\
  forall d, isRetryableError (StellarRpcError st d) = true.
Proof.
  intros Hc Hr Hst Hf Ha. split.
  - pose proof (transport_spec env c net Hc Hr) as Ht. destruct (createStellarTransport _ _) as [[r calls] sleeps].
    assert (H0 : performFetchAttempt (net 0%nat) = Err StellarJsonParseError) by (unfold performFetchAttempt; by rewrite Hf, Ha).
    destruct Ht as (n & _ & -> & [Hbefore _] & -> & _). destruct n as [|n]; [by rewrite H0|].
    destruct (Hbefore 0%nat ltac:(lia)) as (e & He & Hret). rewrite H0 in He. by injection He as <-.
  - intros d. cbn. apply orb_true_iff. right. apply andb_true_iff. split; [apply Z.leb_le|apply Z.ltb_lt]; lia.
Qed.
End Transport.

(** ** Witnesses and examples *)

Definition no_env : rpc_env :=
  {| STELLAR_RPC_TIMEOUT_MS := None; STELLAR_RPC_MAX_RETRIES := None; STELLAR_RPC_RETRY_BASE_DELAY_MS := None; STELLAR_RPC_RETRY_MAX_DELAY_MS := None |}.

Definition quiet (f : @fetched Z) : attempt := {| a_fetched := f; a_aborted := false; a_random := of_int 0; a_now := 0 |}.

(** Two gateway errors, then an answer. *)
Definition demo_net (i : nat) : @attempt Z := quiet (match i with 0%nat | 1%nat => Responds 503 (Some 0) | _ => Responds 200 (Some 7) end).

Lemma demo_random (f : nat -> @fetched Z) i : between 0 (a_random (quiet (f i))) 1.
Proof. exists 0. split; [reflexivity|]. pose proof num_scale_pos. lia. Defined.

Definition int_demo (z : Z) : string := "0".

Lemma stellar_call_bounded_witness :
  let '(r, fetches, _) := call int_demo (fun _ => None) (loadDefaultTransportOptions DEFAULT_STELLAR_RPC_CONFIG) demo_net 0 100 Breaker.initial in
  r = Answered (Ok {| data := 7; status := 200 |}) /\ (fetches <= 11)%nat.
Proof.
  pose proof (stellar_call_bounded int_demo (fun _ => None) no_env DEFAULT_STELLAR_RPC_CONFIG demo_net 0 100 Breaker.initial eq_refl
    (fun i => demo_random (fun i => match i with 0%nat | 1%nat => Responds 503 (Some 0) | _ => Responds 200 (Some 7) end) i)) as H.
  assert (Hr : (call int_demo (fun _ => None) (loadDefaultTransportOptions DEFAULT_STELLAR_RPC_CONFIG) demo_net 0 100 Breaker.initial).1.1 =
    Answered (Ok {| data := 7; status := 200 |})) by (vm_compute; reflexivity).
  destruct (call int_demo _ _ demo_net 0 100 Breaker.initial) as [[r fetches] b']. cbn [fst] in Hr. subst r.
  destruct H as (n & Hn & _ & Hle & _). split; [reflexivity|exact Hle].
Defined.

Lemma unparsed_gateway_error_final_witness :
  (createStellarTransport int_demo (fun _ => None) (loadDefaultTransportOptions DEFAULT_STELLAR_RPC_CONFIG) (fun _ => quiet (@Responds Z 502 None))).1 =
  (Err (Some StellarJsonParseError), 1%nat).
Proof.
  apply (unparsed_gateway_error_final int_demo (fun _ => None) no_env DEFAULT_STELLAR_RPC_CONFIG (fun _ => quiet (@Responds Z 502 None)) 502);
    [reflexivity|intros i; apply (demo_random (fun _ => Responds 502 None) i)|lia|reflexivity|reflexivity].
Defined.

(** Five calls that the server refuses as malformed open the circuit for every caller. *)
Example bad_requests_open_circuit :
  let one b := (call int_demo (fun _ => None) (loadDefaultTransportOptions DEFAULT_STELLAR_RPC_CONFIG) (fun _ => quiet (Responds 400 (Some 0))) 0 0 b).2 in
  (call int_demo (fun _ => None) (loadDefaultTransportOptions DEFAULT_STELLAR_RPC_CONFIG) demo_net 1 1 (one (one (one (one (one Breaker.initial)))))).1 =
  (CircuitOpen, 0%nat).
Proof. vm_compute. reflexivity. Qed.

(** A value with a trailing unit is taken for its number. *)
Example unit_ignored :
  loadStellarRpcConfig {| STELLAR_RPC_TIMEOUT_MS := Some "5s"%string; STELLAR_RPC_MAX_RETRIES := None;
                          STELLAR_RPC_RETRY_BASE_DELAY_MS := None; STELLAR_RPC_RETRY_MAX_DELAY_MS := None |} =
  Some {| timeoutMs := 5; maxRetries := 3; retryBaseDelayMs := 200; retryMaxDelayMs := 2000 |}.
Proof. vm_compute. reflexivity. Qed.
End Stellar.
