(* ===== verification/Health.v ===== *)
(** * Health: src/health/probes.ts, src/health/checker.ts, src/health.ts

    A probe is modelled with what its dependency did and how long it took.  Readiness
    races each of its three probes against a timer; [raced] says how that race ended.
    The instants are in milliseconds, whole. *)

From stdpp Require Import prelude strings pretty.
From Stdlib Require Import ZArith Lia Ascii.
From S2P Require Import Prelude JsMap JsString Regex Ssrf CircuitBreaker Shutdown.
Open Scope Z_scope.

Module Health.

Inductive ProbeStatus : Type := Up | Degraded | Down.

#[export] Instance ProbeStatus_eq_dec : EqDecision ProbeStatus.
Proof. solve_decision. Defined.

Record ProbeResult : Type := {
  p_name : string; p_ok : option bool; p_status : option ProbeStatus; p_detail : option string; p_latency : Z;
}.

Definition result_of (name : string) (st : ProbeStatus) (detail : option string) (latency : Z) : ProbeResult :=
  {| p_name := name; p_ok := Some (bool_decide (st = Up)); p_status := Some st; p_detail := detail; p_latency := latency |}.

(** ** Probes *)

(** The environment: the set variables. *)
Definition envProbe (env : list (string * string)) (latency : Z) : ProbeResult :=
  let listed := Ssrf.split_on ","%char (chars (default EmptyString (map_get "REQUIRED_ENV_VARS"%string env))) in
  let required := filter (fun v => v <> EmptyString) (trim <$> (String.string_of_list_ascii <$> listed)) in
  let missing := filter (fun k => default EmptyString (map_get k env) = EmptyString) required in
  match missing with
  | [] => result_of "env" Up None latency
  | _ => result_of "env" Down (Some ("Missing vars: " +:+ String.concat ", " missing)) latency
  end.

(** [fetched]: the status of the answer, or the message of the error. *)
Definition stellarRpcProbe (url : string) (fetched : result string Z) (latency : Z) : ProbeResult :=
  if bool_decide (url = EmptyString) then result_of "stellar-rpc" Down (Some "STELLAR_RPC_URL not set"%string) 0
  else match fetched with
       | Ok status => if status <? 500 then result_of "stellar-rpc" Up None latency
                      else result_of "stellar-rpc" Down (Some ("HTTP " +:+ pretty status)) latency
       | Err m => result_of "stellar-rpc" Down (Some m) latency
       end.

Definition DB_PROBE_TIMEOUT_MS : Z := 3000.
Definition DB_PROBE_DEGRADED_THRESHOLD_MS : Z := 1000.

Definition dbProbe (query : result string unit) (latency : Z) : ProbeResult :=
  match query with
  | Err m => result_of "db" Down (Some m) latency
  | Ok _ =>
      if DB_PROBE_TIMEOUT_MS <=? latency then result_of "db" Down (Some "db probe timeout"%string) latency
      else if DB_PROBE_DEGRADED_THRESHOLD_MS <? latency
      then result_of "db" Degraded (Some ("slow response: " +:+ pretty latency +:+ "ms")) latency
      else result_of "db" Up None latency
  end.

Definition redisProbe (ping : result string unit) (latency : Z) : ProbeResult :=
  match ping with Ok _ => result_of "redis" Up None latency | Err m => result_of "redis" Down (Some m) latency end.

Record HealthProbeConfig : Type := { queueFailedThreshold : Z; queueBacklogThreshold : Z }.
Definition DEFAULT_HEALTH_PROBE_CONFIG : HealthProbeConfig := {| queueFailedThreshold := 10; queueBacklogThreshold := 100 |}.

Record QueueHealthInfo : Type := { jobType : string; waiting : Z; failed : Z }.

Definition violations_of (cfg : HealthProbeConfig) (q : QueueHealthInfo) : list string :=
  (if queueFailedThreshold cfg <? failed q then [jobType q +:+ ": " +:+ pretty (failed q) +:+ " failed jobs"] else []) ++
  (if queueBacklogThreshold cfg <? waiting q then [jobType q +:+ ": " +:+ pretty (waiting q) +:+ " waiting jobs"] else []).

Definition queueProbe (cfg : HealthProbeConfig) (infos : result string (list QueueHealthInfo)) (latency : Z) : ProbeResult :=
  match infos with
  | Err m => result_of "queue" Down (Some m) latency
  | Ok l => match concat (violations_of cfg <$> l) with
            | [] => result_of "queue" Up None latency
            | vs => result_of "queue" Degraded (Some (String.concat "; " vs)) latency
            end
  end.

Definition is_open (s : Breaker.CircuitStats) : bool := match Breaker.st_state s with Breaker.OPEN => true | _ => false end.

Definition circuitBreakerProbe (now : Z) (r : Breaker.registry) (latency : Z) : ProbeResult * Breaker.registry :=
  let '(all, r') := Breaker.getAll now r in
  let n := length (filter (fun e => is_open e.1.2 = true) all) in
  (if (n =? 0)%nat then result_of "circuit-breaker" Up None latency
   else result_of "circuit-breaker" Degraded (Some (pretty n +:+ " breaker(s) open")) latency, r').

(** ** The aggregate *)

(** The name of a probe's function, and its settlement. *)
Notation settlement := (string * result string ProbeResult)%type.

Definition normalize (i : nat) (s : settlement) : ProbeResult :=
  match s.2 with
  | Ok p => match p_status p, p_ok p with
            | None, Some ok => {| p_name := p_name p; p_ok := p_ok p; p_status := Some (if ok then Up else Down); p_detail := p_detail p; p_latency := p_latency p |}
            | _, _ => p
            end
  | Err reason =>
      {| p_name := if bool_decide (s.1 = EmptyString) then "probe-" +:+ pretty i else s.1; p_ok := Some false; p_status := Some Down;
         p_detail := Some reason; p_latency := 0 |}
  end.

Definition passes (p : ProbeResult) : bool := bool_decide (p_status p = Some Up) || default false (p_ok p).

Record HealthResponse : Type := { h_ok : bool; h_probes : list ProbeResult }.

Definition runHealthCheck (l : list settlement) : HealthResponse :=
  let probes := imap normalize l in {| h_ok := forallb passes probes; h_probes := probes |}.

(** ** Readiness *)

Definition READY_PROBE_TIMEOUT_MS : Z := 3000.

Record ProbeSnapshot : Type := { c_name : string; c_ok : bool; c_latency : Z; c_detail : option string }.

(** [withTimeout]: the probe settles first, or the timer. *)
Inductive raced : Type := Settled (r : result string ProbeResult) | TimedOut.

Definition withTimeout (r : raced) : result string ProbeResult :=
  match r with Settled r => r | TimedOut => Err ("probe timeout after " +:+ pretty READY_PROBE_TIMEOUT_MS +:+ " ms") end.

Definition sanitizeProbe (production : bool) (c : ProbeSnapshot) : ProbeSnapshot :=
  if production then {| c_name := c_name c; c_ok := c_ok c; c_latency := c_latency c; c_detail := None |} else c.

Definition snapshot (production : bool) (name : string) (r : raced) : ProbeSnapshot :=
  sanitizeProbe production
    match withTimeout r with
    | Ok p => {| c_name := name; c_ok := default false (p_ok p); c_latency := p_latency p; c_detail := p_detail p |}
    | Err reason => {| c_name := name; c_ok := false; c_latency := 0; c_detail := Some reason |}
    end.

Inductive ready_body : Type := Draining | Checks (ready : bool) (checks : list ProbeSnapshot).

Record ready_reply : Type := { code : Z; answer : ready_body }.

Definition ready_handler (production : bool) (p : Shutdown.process) (db rpc redis : raced) : ready_reply :=
  if Shutdown.isReadinessDraining p then {| code := 503; answer := Draining |}
  else
    let checks := [snapshot production "db" db; snapshot production "stellar-rpc" rpc; snapshot production "queue" redis] in
    let ready := forallb c_ok checks in
    {| code := if ready then 200 else 503; answer := Checks ready checks |}.

(** ** Properties *)

(** The dependencies as the three probes of readiness meet them, in time. *)
Record dependencies : Type := {
  d_query : result string unit; d_query_ms : Z; d_url : string; d_rpc : result string Z; d_rpc_ms : Z; d_ping : result string unit; d_ping_ms : Z;
}.

Definition answered_in (ms : Z) (p : ProbeResult) : raced := if ms <? READY_PROBE_TIMEOUT_MS then Settled (Ok p) else TimedOut.

Definition ready_on (production : bool) (p : Shutdown.process) (d : dependencies) : ready_reply :=
  ready_handler production p (answered_in (d_query_ms d) (dbProbe (d_query d) (d_query_ms d)))
    (answered_in (d_rpc_ms d) (stellarRpcProbe (d_url d) (d_rpc d) (d_rpc_ms d)))
    (answered_in (d_ping_ms d) (redisProbe (d_ping d) (d_ping_ms d))).

(** The process takes no signal and every dependency answers, the database fast. *)
Definition healthy (p : Shutdown.process) (d : dependencies) : Prop :=
  Shutdown.draining p = false /\
  d_query d = Ok tt /\ d_query_ms d <= 1000 /\
  d_url d <> EmptyString /\ (exists s, d_rpc d = Ok s /\ s < 500) /\ d_rpc_ms d < 3000 /\
  d_ping d = Ok tt /\ d_ping_ms d < 3000.

Lemma answered_ok name ms p pr : c_ok (snapshot pr name (answered_in ms p)) = true <-> ms < 3000 /\ p_ok p = Some true.
Proof.
  unfold answered_in, snapshot, sanitizeProbe. change READY_PROBE_TIMEOUT_MS with 3000. destruct (Z.ltb_spec ms 3000); cbn.
  - destruct pr; cbn; destruct (p_ok p) as [[]|]; cbn; split; try done; by intros [_ ?].
  - split; [by destruct pr|lia].
Qed.

Lemma db_ok q ms : p_ok (dbProbe q ms) = Some true <-> q = Ok tt /\ ms <= 1000.
Proof.
  unfold dbProbe. change DB_PROBE_TIMEOUT_MS with 3000. change DB_PROBE_DEGRADED_THRESHOLD_MS with 1000. destruct q as [[]|m]; [|split; [done|by intros [? _]]].
  destruct (Z.leb_spec 3000 ms); [split; [done|lia]|]. destruct (Z.ltb_spec 1000 ms); cbn; split; try done; lia.
Qed.

Lemma rpc_ok url f ms : p_ok (stellarRpcProbe url f ms) = Some true <-> url <> EmptyString /\ exists s, f = Ok s /\ s < 500.
Proof.
  unfold stellarRpcProbe. case_bool_decide as Hu; [split; [done|by intros [? _]]|]. destruct f as [s|m].
  - destruct (Z.ltb_spec s 500); cbn; split; try done; [by eauto|]. intros (_ & s' & [= <-] & Hs). lia.
  - split; [done|]. by intros (_ & s & ? & _).
Qed.

Lemma redis_ok q ms : p_ok (redisProbe q ms) = Some true <-> q = Ok tt.
Proof. destruct q as [[]|m]; cbn; split; done. Qed.


(** In production readiness tells nothing about why.  No check of the answer
    carries a detail, whatever the probes reported or how they failed. *)
Theorem ready_hides_details p db rpc redis b l :
  answer (ready_handler true p db rpc redis) = Checks b l -> Forall (fun c => c_detail c = None) l.
Proof.
  unfold ready_handler. destruct (Shutdown.isReadinessDraining p); [done|]. cbv zeta. cbn [answer]. intros [= <- <-].
  repeat constructor.
Qed.

(** One failing probe does not hide the others.  The aggregate reports every probe
    at its place, a rejected one as down with its reason, and is ok exactly when each
    probe is up or says it is ok. *)
Theorem health_aggregates l :
  let r := runHealthCheck l in
  length (h_probes r) = length l /\
  (forall i name reason, l !! i = Some (name, Err reason) ->
     exists p, h_probes r !! i = Some p /\ p_ok p = Some false /\ p_status p = Some Down /\ p_detail p = Some reason) /\
  (h_ok r = true <-> Forall (fun s => exists p, s.2 = Ok p /\ (p_status p = Some Up \/ p_ok p = Some true)) l).
Proof.
  cbv zeta. unfold runHealthCheck. cbn [h_probes h_ok]. split_and!.
  - apply length_imap.
  - intros i name reason Hi. rewrite list_lookup_imap, Hi. cbn. by eexists.
  - rewrite forallb_forall, Forall_lookup. setoid_rewrite <- list_elem_of_In. split.
    + intros H i s Hi. assert (Hp : passes (normalize i s) = true).
      { apply H, list_elem_of_lookup. exists i. by rewrite list_lookup_imap, Hi. }
      unfold normalize, passes in Hp. destruct s as [name [p|reason]]; [|done]. exists p. split; [done|]. cbn in *.
      destruct (p_status p) as [[]|] eqn:E1, (p_ok p) as [[]|] eqn:E2; cbn in Hp; rewrite ?E1, ?E2 in Hp; try done; by (left + right).
    + intros H p (i & Hi)%list_elem_of_lookup. rewrite list_lookup_imap in Hi. destruct (l !! i) as [s|] eqn:Hs; [|done]. injection Hi as <-.
      destruct (H i s Hs) as (p & Hp & Hor). unfold normalize, passes. rewrite Hp. destruct Hor as [E|E]; rewrite E.
      * by rewrite E.
      * destruct (p_status p) as [[]|] eqn:E1; cbn; rewrite ?E1, ?E; done.
Qed.

(** ** Witnesses and examples *)

Definition demo_dependencies : dependencies :=
  {| d_query := Ok tt; d_query_ms := 1000; d_url := "https://rpc.x.io"; d_rpc := Ok 405; d_rpc_ms := 40; d_ping := Ok tt; d_ping_ms := 2 |}.

Lemma ready_hides_details_witness :
  Forall (fun c => c_detail c = None)
    [snapshot true "db" TimedOut; snapshot true "stellar-rpc" (Settled (Err "refused"%string)); snapshot true "queue" TimedOut].
Proof. exact (ready_hides_details Shutdown.running TimedOut (Settled (Err "refused"%string)) TimedOut _ _ eq_refl). Defined.

(** A query of exactly one second is up, though the documentation calls it degraded. *)
Example one_second_is_up : p_status (dbProbe (Ok tt) 1000) = Some Up /\ p_status (dbProbe (Ok tt) 1001) = Some Degraded.
Proof. split; reflexivity. Qed.

(** A circuit opened outside the registry, as the Stellar client's is, goes unnoticed. *)
Example unregistered_circuit_unseen :
  p_status (circuitBreakerProbe 0 {| Breaker.breakers := []; Breaker.configs := []; Breaker.audited := [] |} 0).1 = Some Up.
Proof. reflexivity. Qed.

Example missing_variable :
  p_detail (envProbe [("REQUIRED_ENV_VARS", "A, B"); ("A", "1")]%string 0) = Some "Missing vars: B"%string.
Proof. reflexivity. Qed.
End Health.
